(* ===== verification/_CoqProject ===== *)
-Q . S2P
Prelude.v
CInt.v
CFloat.v
CMem.v
CText.v
Checksum.v
KernelVersion.v
RandomRange.v
BoolExpr.v
Kconfig.v
KconfigCheck.v
Bitmask.v
BitmaskSpec.v
BitmaskText.v
Timer.v
TimerTest.v
RtcTime.v
Fzsync.v
FzsyncBarrier.v
FzsyncProtocol.v
FzsyncLive.v
TestRun.v
TestRunSpec.v
DataPattern.v
WriteLog.v
WriteLogSpec.v
SplitStr.v
StringTokens.v
Symbol.v
SymbolSpec.v
Scanner.v
ScannerLex.v
ScannerStore.v
ScannerRead.v
ScannerReport.v
OpenFlags.v
Steps.v
Fsx.v
FsxFile.v
FsxSpec.v
FsxRun.v
Fsstress.v
FsstressTree.v
FsstressMem.v
FsstressPath.v
FsstressLists.v
FsstressMirror.v
FsstressOps.v
FsstressSpec.v
Zoo.v
PanColl.v
Pan.v
PanMain.v
PanSched.v
PanSignals.v
PanRun.v
ScannerSpec.v
