(* ===== verification/Prelude.v ===== *)
(** * Linux Test Project: verification library

    ** The program

    The repository is the Linux Test Project with the driver test suites of a
    vendor.  Three layers of its C code carry logic that is independent of the
    kernel under test: the test library (src/lib, src/include), the test driver
    ltp-pan (src/pan), which starts the test programs of a command file and records
    how they end, and helper libraries inside the test suites, such as the bit masks
    of the cpuset tests and the data patterns of the file system tests.  A fourth
    kind are test programs that contain a model of what they test: the file system
    exerciser fsx compares the file with its own copy, and fsstress keeps lists of
    the files it has made.  This development models components of these layers and
    proves what they promise.

    ** The files

    - [Prelude] (this file): the outcome monad of C code ([Done], [Fault] for
      undefined behaviour, [Timeout] for a loop model that ran out of fuel), C
      strings, character classes, strstr(), fgets(), snprintf(), the result types
      of tests, shared tactics and lemmas.
    - [CInt]: machine integers; signed overflow is a [Fault], unsigned arithmetic
      wraps; the rewrite database [cint] and the tactics [clia] and [crun].
    - [CFloat]: float and double as the IEEE formats of the standard library.
    - [CMem]: buffers of bytes with bounds: memcpy(), memset(), memcmp().
    - [CText]: numbers as text: printf() and scanf() conversions, strtoul(), atoi(),
      and the lemmas that scanning reads back what was printed.
    - [BoolExpr]: src/lib/tst_bool_expr.c, the parser and evaluator of Boolean
      expressions: tokenize(), shunting_yard() over the token array,
      tst_bool_expr_parse(), tst_bool_expr_eval(), tst_bool_expr_err().
    - [Kconfig], [KconfigCheck]: src/lib/tst_kconfig.c, the checks of the kernel
      configuration, a client of [BoolExpr]: kconfig_parse_line(),
      tst_kconfig_read(), validate_var(), populate_vars(), map(),
      tst_kconfig_check().
    - [Checksum]: src/lib/tst_checksum.c, tst_crc32c() with its table, and the shift
      register it stands for.
    - [KernelVersion]: src/lib/tst_kvercmp.c: tst_parse_kver(), tst_kvcmp(),
      tst_kvexcmp(), tst_kvcmp_distname() and tst_kvercmp2().
    - [RandomRange]: src/lib/random_range.c: parse_ranges(), random_range(),
      random_rangel(), random_rangell(), divider(), random_bit().
    - [Bitmask], [BitmaskSpec], [BitmaskText]: libbitmask.c of the cpuset tests.
      The class [BitLayout] states the laws of the array layout, against which the
      operations are proved; [Bitmask] has the operations on a store of masks
      (arguments may alias), [BitmaskSpec] their meaning on sets of bits,
      [BitmaskText] the hexadecimal and the list format.
    - [Timer]: src/include/tst_timer.h: arithmetic, comparison and conversion of
      timespec and timeval.  [TimerTest]: src/lib/tst_timer_test.c, the samples of a
      timer and the judgement of do_timer_test().  [RtcTime]: src/lib/tst_rtctime.c, the calendar of the
      real time clock.
    - [Fzsync], [FzsyncBarrier], [FzsyncProtocol], [FzsyncLive]:
      src/include/tst_fuzzy_sync.h.  [Fzsync] has the sampling and the delay on
      floats and the two threads as a step relation over the places where they
      touch a shared variable; [FzsyncBarrier] the invariant of
      tst_fzsync_pair_wait() on what each thread can see; [FzsyncProtocol] what
      follows for the loop of the two threads; [FzsyncLive] that fair runs end.
    - [TestRun], [TestRunSpec]: src/lib/tst_test.c, the runner: the results, tst_brk(),
      run_tests(), testrun(), fork_testrun(), tst_run_tcases(), do_exit().  The code
      of a test and the system are the class [TestWorld].
    - [DataPattern], [StringTokens], [OpenFlags]: the libraries of
      src/testcases/kernel/fs/doio: dataascii.c, databin.c and pattern.c (the class
      [DataSource] is what the three kinds of data have in common),
      string_to_tokens.c, and the flag names of open_flags.c.
    - [WriteLog], [WriteLogSpec]: write_log.c of the same directory: the records of
      writes with their bit fields, and the scan of the log from its end.
    - [Steps]: the monad of the two exercisers that follow, a state and a system with
      steps that go on or exit, and its postcondition calculus [wp].
    - [Fsx], [FsxFile], [FsxSpec], [FsxRun]: the exerciser
      src/testcases/kernel/fs/fsx-linux/fsx-linux.c.  [Fsx] has the program over the
      class [FsWorld] of the system calls, which are recorded; [FsxFile] a POSIX
      file and the class [PosixFile] of systems that behave like it; [FsxSpec] the
      invariant of the operations; [FsxRun] the theorems on whole runs, a file
      system in memory, and the log.
    - [Fsstress], [FsstressTree], [FsstressMem], [FsstressPath], [FsstressLists],
      [FsstressMirror], [FsstressOps], [FsstressSpec]: the stress program
      src/testcases/kernel/fs/fsstress/fsstress.c, built without XFS.  [Fsstress] has
      the lists of files with the directory cache, the names, the calls on names that
      are too long (creat_path(), rename_path() and the others), the operations, the
      table of frequencies and doproc(), over the class [Kernel]; [FsstressTree] a
      directory tree and the class [PosixTree] of systems that behave like it, with the
      executable instance of [FsstressMem]; [FsstressPath] proves the calls on long
      names, [FsstressLists] the arrays and the cache, [FsstressMirror] that adding,
      removing and renaming keep lists and tree in step, [FsstressOps] each operation
      and [FsstressSpec] whole runs.
    - [SplitStr]: src/pan/splitstr.c: splitstr() and splitstr_free() on a buffer
      with the zeros of strtok() and an array that grows.
    - [Symbol], [SymbolSpec]: src/pan/symbol.c: the tables of keys and values in a
      store, sym_put(), sym_get(), sym_seq(), sym_rm(), and what they mean for the
      paths of keys.
    - [Scanner], [ScannerLex], [ScannerStore], [ScannerRead], [ScannerReport],
      [ScannerSpec]: ltp-scanner, in src/pan/scan.l, reporter.c, tag_report.c and
      ltp-scanner.c.  [Scanner] has the rules of the lexer with their actions and the
      reporter; [ScannerLex] the rule that matches each kind of text, [ScannerStore]
      the tables of the tests, [ScannerRead] the report of one test from its first
      to its last marker, [ScannerReport] what is printed about it, and
      [ScannerSpec] the composition with the reports of [Pan].
    - [Zoo]: src/pan/zoolib.c: the file that records the running tests: zoo_mark(),
      zoo_clear(), zoo_getpid(), zoo_lock(), zoo_unlock(), cat_args().
    - [PanColl], [Pan], [PanMain]: src/pan/ltp-pan.c.  [PanColl] reads the command
      collection; [Pan] has the state of the driver, run_child(), check_pids(),
      propagate_signal(), wait_handler(), the orphans and the reports, in a monad
      of steps that go on or leave through exit(); [PanMain] has the options, the
      start-up and the scheduler loop of main().  The system is the class [OS].
    - [PanSched]: the contract [OSLaws] of fork(), wait() and kill(), the
      postcondition calculus [wp], the invariant of the scheduler, and a simulated
      system that satisfies the contract.
    - [PanSignals]: the signals that are sent.  [PanRun]: complete sequential runs.
      [ScannerSpec] adds the class [OSFiles] of the files with the output of the tests.

    State and operations have the names of the C code.  A struct is a record, a
    pointer that is only followed is the value behind it, a pointer that is
    compared, saved or freed is an index or an offset; a C string is the list of
    its characters before the terminator.

    ** What the theorems show

    - Boolean expressions: the parser accepts exactly the grammar and produces the
      postfix form; evaluation agrees with the expression tree or reports an error
      without leaving its stack; the lexer refines a one-pass reference.
    - Kernel configuration: the check returns exactly when the configuration
      satisfies every constraint, where a plain variable is true for y and m and a
      value ends at its first blank; the reader, the validator and the table of
      variables are correct.
    - Random numbers: results are in range and multiples of the step, for ranges
      that leave room for the step at the width of the type, and divider() terminates.
    - Checksums: the table computes the CRC-32C bit for bit, and a change inside four
      neighbouring bytes is always found.
    - Kernel versions: the comparison is the order of the numbers while they fit their
      bytes; the distribution's own version is used where there is one.
    - Bit masks: the operations implement operations on sets, with aliasing; both
      text formats are read back.
    - Times: sums and differences are those of the nanosecond counts and normalised;
      the calendar functions are inverse to each other for every day they accept.
    - Timer tests: the test passes exactly when no sample is early and, outside virtual
      machines, the mean without the largest samples is below its threshold; it leaves
      its array when all samples are early.
    - Fuzzy synchronisation: no thread leaves a barrier before the other has reached
      it, also when the counters wrap; the two racing sections never overlap with
      the next round; fair runs of the two threads end; sampling ends, and a delay
      is drawn only when every deviation is within its bound.
    - The runner: exit status zero means that every test function reported and
      nothing was bad; the clean-up runs exactly once in each test process; a test
      that behaves runs every variant, file system, iteration and case in order.
    - The file system tests: filling and checking with a pattern agree with the byte
      by byte definition; data that is not random is accepted through any window and a
      changed byte in it is found; the names of open flags are read back; the write log is scanned backward
      record by record, across the ends of its buffers.
    - fsx: a run that ends well proves that every reply of the file system was one
      of a POSIX file as far as fsx looks at it; on a file system that behaves like one, fsx reports nothing
      and stays inside its buffers; the log holds the last operations.
    - fsstress: after any number of operations, with any failures of the system, the
      lists describe the directory tree exactly, so that every name it picks is that of
      an existing file; calls on names of any depth end and come back to the directory
      of the process, and they reach the file where only the length is in the way; the
      cache changes no result; the frequencies decide what is drawn.  The only fault of
      such a run is the overflow in chown_f(), where overflow is undefined.
    - The zoo: first fit, the format is kept on every path, and an entry whose pid and
      tag are its own is found until it is cleared.
    - The driver: reading a command file; the slots always agree with the
      children; the main loop never ends with a child running; a sequential run
      terminates, executes every command once and in order and exits, with -e, with
      the number of failures; the signal ratchet.
    - Symbol tables: storing a path changes this path only, is refused below an entry
      that is no table, and keeps the tables a forest.  The scanner: what the driver
      prints with -O about the tests it reaps is read back completely, and every test
      gets the lines of its results.
    - Error behaviour: for code that goes wrong on some inputs a theorem gives the
      inputs and the effect.

    ** Fuel

    Loops that are not structural take fuel: the number of characters or lines that
    are left for the parsers and for the zoo (every turn consumes one), 34 levels
    for divider() (it stops at 32), and a parameter for the loops of main() and of
    testrun() and for the loops of the pattern functions (more than the length of
    the buffer is enough).  The scanner has as much fuel as its input has
    characters, for every token takes one, and its reporter as much as a table has
    nodes; sym_rm() has more than the store has locations.  The calls of fsstress on
    long names have one more than the length of the names, for every step cuts a
    component off one of them, and the names of files one more than there are
    directories.  The theorems state that the given fuel is enough, or, for main()
    and testrun(), that any fuel above the number of commands or iterations is;
    where a loop does not end for some input, a theorem says so.  The threads of
    [Fzsync] are a step relation without fuel.

    ** The environment

    Code outside the sources is a parameter: getenv(), popen(), uname() and the
    config file for the kernel configuration, the generator lrand48(), the clock of
    the fuzzy synchronisation, the test functions and the answers of fork() for the
    runner, the values of fcntl.h, rand(), the file system and random() for fsx, and
    the system calls of the driver and of fsstress.  [PosixTree] takes it that an empty
    name is not a directory and that chdir("..") works below the top directory; what
    the compiler makes of the mask of 31 bits in chown_f(), which is undefined in C,
    is a field of [Fsstress.settings].  The answers of fcntl(), fseek() and fopen() in
    [Zoo] come from a stream of errno values, so failures are runs of the model.
    Signals reach the driver where the scheduler looks at its signal variables, in
    wait() and in sleep(), and as a read from the pipe in run_child() that is
    interrupted; memory allocation succeeds.

    ** Not modelled

    The test programs themselves (testcases/kernel, testcases/network,
    open_posix_testsuite and the driver test suites) issue system calls and compare
    the answers: their correctness is a statement about the kernel.  Of fsx the
    options, the texts it prints, its .fsxgood and .fsxlog files and the signal
    handlers are left out; of fsstress main() with its options, processes, loops and
    clean-up, the test check_cwd() that is compiled for debugging only, the
    operations on XFS and the texts of usage() and show_ops().  Of the scanner the
    debug output, several input files and the options as text are left out; lex is
    the meaning of its rules.  The same holds for the wrappers around system calls
    in src/lib (safe_macros.c, tst_safe_*.c, tst_net.c, tst_device.c, tst_cgroup.c,
    tlibio.c) and for the parts of the runner that mount, format and clean up file
    systems; its heart beat and alarm are present only as a test process that is
    killed.  Debug output and messages on stderr are left out.  Shell scripts and
    build files are not C. *)
From stdpp Require Import base gmap list strings numbers option.
From Stdlib Require Import Ascii.

(** ** Outcomes of C code

    [Done] is a normal return, [Fault] an access the C standard leaves
    undefined (a read or write outside an object, a use of an indeterminate
    pointer), [Timeout] a loop model that ran out of fuel. *)
Inductive outcome (A : Type) : Type :=
  | Done (a : A)
  | Fault
  | Timeout.
Arguments Done {A} a.
Arguments Fault {A}.
Arguments Timeout {A}.

#[export] Instance outcome_ret : MRet outcome := λ A a, Done a.
#[export] Instance outcome_bind : MBind outcome := λ A B f m,
  match m with
  | Done a => f a
  | Fault => Fault
  | Timeout => Timeout
  end.
#[export] Instance outcome_fmap : FMap outcome := λ A B f m,
  match m with
  | Done a => Done (f a)
  | Fault => Fault
  | Timeout => Timeout
  end.
#[export] Instance outcome_eq_dec `{EqDecision A} : EqDecision (outcome A).
Proof. solve_decision. Defined.

Lemma outcome_bind_Done {A B} (m : outcome A) (f : A → outcome B) b :
  m ≫= f = Done b → ∃ a, m = Done a ∧ f a = Done b.
Proof. destruct m; naive_solver. Qed.

(** The value behind a pointer, when the pointer is valid. *)
Definition load {A} (o : option A) : outcome A :=
  match o with Some a => Done a | None => Fault end.

(** ** C strings

    A C string is the list of its characters before the terminator;
    [char_at s i] is [s[i]] for [i] up to and including the terminator. *)
Definition NUL : ascii := "000"%char.
Definition DQUOTE : ascii := "034"%char.
Definition NEWLINE : ascii := "010"%char.
Definition TAB : ascii := "009"%char.

Definition char_at (s : list ascii) (i : nat) : ascii := default NUL (s !! i).

(** A list of characters that is the content of a C string. *)
Definition cstring (s : list ascii) : Prop := NUL ∉ s.
#[export] Instance cstring_dec s : Decision (cstring s).
Proof. unfold cstring. apply _. Defined.

Abbreviation chars := String.list_ascii_of_string.

Lemma char_at_NUL s i : cstring s → i ≤ length s → (char_at s i = NUL ↔ i = length s).
Proof.
  unfold cstring, char_at. intros Hs Hi. split.
  - destruct (s !! i) as [c|] eqn:E; simpl.
    + intros ->. by apply list_elem_of_lookup_2 in E.
    + apply lookup_ge_None in E. lia.
  - intros ->. by rewrite lookup_ge_None_2.
Qed.

Lemma char_at_lookup s i c : char_at s i = c → c ≠ NUL → s !! i = Some c.
Proof. unfold char_at. destruct (s !! i); naive_solver. Qed.

Lemma char_at_end s i : length s ≤ i → char_at s i = NUL.
Proof. intros. unfold char_at. by rewrite lookup_ge_None_2. Qed.

Lemma char_at_drop s i c :
  char_at s i = c → c ≠ NUL → drop i s = c :: drop (S i) s ∧ i < length s.
Proof.
  intros Hc Hn. pose proof (char_at_lookup _ _ _ Hc Hn) as Hl.
  split; [by apply drop_S | by apply lookup_lt_Some in Hl].
Qed.

(** One more character of a window [j, i) of a list. *)
Lemma window_snoc {A} (s : list A) i j c :
  s !! i = Some c → j ≤ i → drop j (take (S i) s) = drop j (take i s) ++ [c].
Proof.
  intros Hs Hj. pose proof (lookup_lt_Some _ _ _ Hs).
  rewrite (take_S_r _ _ _ Hs), drop_app_le; [done|]. rewrite length_take. lia.
Qed.

Lemma window_empty {A} (s : list A) i : drop i (take i s) = [].
Proof. apply drop_ge. rewrite length_take. lia. Qed.

Lemma fmap_zip_with_left {A B C D} (P : A → Prop) (f : A → B → C) (g : C → D) (h : A → D) l k :
  Forall P l → (∀ x y, P x → g (f x y) = h x) → length l = length k →
  g <$> zip_with f l k = h <$> l.
Proof.
  intros Hl Hf. revert k. induction Hl as [|x l Hx _ IH]; intros [|y k] ?; simplify_eq/=; [done|].
  f_equal; auto.
Qed.

Lemma fmap_zip_with_right {A B C D} (f : A → B → C) (g : C → D) (h : B → D) l k :
  (∀ x y, g (f x y) = h y) → length l = length k →
  g <$> zip_with f l k = h <$> k.
Proof.
  intros Hf. revert k. induction l as [|x l IH]; intros [|y k] ?; simplify_eq/=; [done|].
  f_equal; auto.
Qed.

(** ** Tactics *)

(** Decides a closed goal by evaluating its [Decision] instance. *)
Ltac by_decide := apply (bool_decide_unpack _); vm_compute; exact I.

(** Membership in a list whose elements are written out. *)
Ltac elem_of_literal := repeat first [apply list_elem_of_here | apply list_elem_of_further].

(** ** Character classes and string functions of the C library *)

Definition code (c : ascii) : N := N_of_ascii c.

Definition isspace (c : ascii) : bool :=
  ((9 <=? code c) && (code c <=? 13) || (code c =? 32))%N.
Definition isdigit (c : ascii) : bool := ((48 <=? code c) && (code c <=? 57))%N.
Definition isupper (c : ascii) : bool := ((65 <=? code c) && (code c <=? 90))%N.
Definition islower (c : ascii) : bool := ((97 <=? code c) && (code c <=? 122))%N.
Definition isalnum (c : ascii) : bool := isdigit c || isupper c || islower c.

(** Skipping the characters that satisfy [p]; the terminator never does. *)
Fixpoint drop_while (p : ascii → bool) (s : list ascii) : list ascii :=
  match s with
  | [] => []
  | c :: s' => if p c then drop_while p s' else s
  end.

Fixpoint take_while (p : ascii → bool) (s : list ascii) : list ascii :=
  match s with
  | [] => []
  | c :: s' => if p c then c :: take_while p s' else []
  end.

Lemma take_drop_while p s : take_while p s ++ drop_while p s = s.
Proof. induction s as [|c s IH]; simpl; [done|]. destruct (p c); simpl; by rewrite ?IH. Qed.

Lemma take_while_Forall (p : ascii → bool) s : Forall p (take_while p s).
Proof.
  induction s as [|c s IH]; simpl; [constructor|].
  destruct (p c) eqn:E; constructor; [by rewrite E|done].
Qed.

Lemma take_while_app (p : ascii → bool) s c t :
  Forall p s → p c = false → take_while p (s ++ c :: t) = s ∧ drop_while p (s ++ c :: t) = c :: t.
Proof.
  intros Hs Hc. induction Hs as [|d s Hd _ [IH1 IH2]]; simpl.
  - by rewrite Hc.
  - destruct (p d); [|done]. by rewrite IH1, IH2.
Qed.

Lemma take_while_all (p : ascii → bool) s : Forall p s → take_while p s = s ∧ drop_while p s = [].
Proof.
  induction 1 as [|d s Hd _ [IH1 IH2]]; simpl; [done|].
  destruct (p d); [|done]. by rewrite IH1, IH2.
Qed.

(** [strncmp(a, b, n) == 0] for string contents. *)
Definition strncmp_eq (a b : list ascii) (n : nat) : bool := bool_decide (take n a = take n b).

Definition starts_with (pat s : list ascii) : bool := bool_decide (take (length pat) s = pat).

(** The suffix of the haystack the returned pointer refers to. *)
Fixpoint strstr (s pat : list ascii) : option (list ascii) :=
  if starts_with pat s then Some s
  else match s with
       | [] => None
       | _ :: s' => strstr s' pat
       end.

(** The index of the first occurrence of a character. *)
Fixpoint index_of (c : ascii) (s : list ascii) : option nat :=
  match s with
  | [] => None
  | d :: s' => if decide (d = c) then Some 0 else S <$> index_of c s'
  end.

(** snprintf() into a buffer of [n] bytes keeps [n - 1] characters. *)
Definition snprintf (n : nat) (s : list ascii) : list ascii := take (n - 1) s.

(** fgets() with a buffer of [n] bytes on the rest of a stream: at most [n - 1]
    characters, up to and including a newline; [None] at the end of the file. *)
Fixpoint fgets_chunk (n : nat) (s : list ascii) : list ascii * list ascii :=
  match n, s with
  | O, _ => ([], s)
  | _, [] => ([], [])
  | S n', c :: s' =>
      if decide (c = NEWLINE) then ([c], s')
      else let '(l, r) := fgets_chunk n' s' in (c :: l, r)
  end.

Definition fgets (n : nat) (s : list ascii) : option (list ascii * list ascii) :=
  match s with [] => None | _ => Some (fgets_chunk (n - 1) s) end.

(** ** Test result types (include/tst_res_flags.h) *)

Inductive ttype := TPASS | TFAIL | TBROK | TWARN | TINFO | TCONF.

#[export] Instance ttype_eq_dec : EqDecision ttype.
Proof. solve_decision. Defined.

Definition ttype_value (t : ttype) : Z :=
  match t with
  | TPASS => 0 | TFAIL => 1 | TBROK => 2 | TWARN => 4 | TINFO => 16 | TCONF => 32
  end.

(** A call either returns or ends the test through tst_brk(). *)
Inductive result (A : Type) : Type :=
  | Ret (a : A)
  | Brk (t : ttype) (msg : string).
Arguments Ret {A} a.
Arguments Brk {A} t msg.

Lemma char_at_app_l s t i : i < length s → char_at (s ++ t) i = char_at s i.
Proof. intros. unfold char_at. by rewrite lookup_app_l. Qed.

Lemma char_at_app_r s t i : char_at (s ++ t) (length s + i) = char_at t i.
Proof. unfold char_at. rewrite lookup_app_r by lia. do 2 f_equal. lia. Qed.

Lemma char_at_cons c s : char_at (c :: s) 0 = c.
Proof. done. Qed.

Lemma drop_while_head (p : ascii → bool) s : 
  drop_while p s = [] ∨ ∃ c t, drop_while p s = c :: t ∧ p c = false.
Proof.
  induction s as [|c s IH]; simpl; [by left|].
  destruct (p c) eqn:E; [done|]. right. eauto.
Qed.

Lemma starts_with_app pat t : starts_with pat (pat ++ t) = true.
Proof. unfold starts_with. rewrite take_app_length. by apply bool_decide_true. Qed.

Lemma strstr_head pat t : strstr (pat ++ t) pat = Some (pat ++ t).
Proof.
  assert (∀ s, starts_with pat s = true → strstr s pat = Some s) as H
    by (intros [|c s] Hs; simpl; by rewrite Hs).
  apply H, starts_with_app.
Qed.

Lemma strstr_skip pat c s : starts_with pat (c :: s) = false → strstr (c :: s) pat = strstr s pat.
Proof. intros H. simpl. by rewrite H. Qed.

Lemma strstr_found s pat t : strstr (s ++ pat ++ t) pat ≠ None.
Proof.
  induction s as [|c s IH]; [by rewrite app_nil_l, strstr_head|].
  simpl. by destruct (starts_with pat _).
Qed.

(** A duplicate-free list inside another one of the same length covers it. *)
Lemma NoDup_covers {A} (l k : list A) :
  NoDup l → l ⊆ k → length k ≤ length l → k ⊆ l.
Proof.
  intros Hnd Hsub Hlen x Hx.
  apply (NoDup_submseteq l k Hnd) in Hsub.
  by rewrite (submseteq_length_Permutation _ _ Hsub Hlen).
Qed.

(** Positions of characters. *)
Lemma index_of_app_l c s t i : index_of c s = Some i → index_of c (s ++ t) = Some i.
Proof.
  revert i. induction s as [|d s IH]; intros i; simpl; [done|]. case_decide; [done|].
  destruct (index_of c s); intros; simplify_eq/=. by rewrite (IH _ eq_refl).
Qed.

Lemma index_of_app_None c s t : index_of c s = None → index_of c (s ++ t) = (λ i, length s + i) <$> index_of c t.
Proof.
  induction s as [|d s IH]; simpl; [by destruct (index_of c t)|]. case_decide; [done|].
  destruct (index_of c s); [done|]. intros _. rewrite IH by done. by destruct (index_of c t).
Qed.

Lemma index_of_length c s i : index_of c s = Some i → i < length s.
Proof.
  revert i. induction s as [|d s IH]; intros i; simpl; [done|]. case_decide; [naive_solver lia|].
  destruct (index_of c s); intros; simplify_eq/=. specialize (IH _ eq_refl). lia.
Qed.

Lemma index_of_first c s t : c ∉ s → index_of c (s ++ c :: t) = Some (length s).
Proof.
  induction s as [|d s IH]; intros Hs; simpl; [by rewrite decide_True|].
  apply not_elem_of_cons in Hs as [Hd Hs]. by rewrite decide_False, IH by auto.
Qed.

Lemma index_of_notin c (a : list ascii) : c ∉ a → index_of c a = None.
Proof.
  induction a as [|c' a IH]; intros Ha; simpl; [done|].
  apply not_elem_of_cons in Ha as [Hne Ha]. rewrite decide_False by congruence.
  by rewrite IH.
Qed.

Lemma index_of_app_notin c (a s : list ascii) :
  c ∉ a → index_of c (a ++ s) = (λ k, (length a + k)%nat) <$> index_of c s.
Proof.
  induction a as [|d a IH]; intros Ha; simpl; [by destruct (index_of c s)|].
  apply not_elem_of_cons in Ha as [Hne Ha]. rewrite decide_False by congruence. rewrite IH by done.
  by destruct (index_of c s).
Qed.

(** A whole line. *)
Lemma fgets_line s t n :
  NEWLINE ∉ s → length s < n → fgets (S n) (s ++ NEWLINE :: t) = Some (s ++ [NEWLINE], t).
Proof.
  intros Hs Hl. unfold fgets.
  assert (fgets_chunk n (s ++ NEWLINE :: t) = (s ++ [NEWLINE], t)) as Hf.
  { revert n Hl. induction s as [|c s IH]; intros n Hl; simpl in *.
    - destruct n; [lia|]. done.
    - destruct n; [lia|]. apply not_elem_of_cons in Hs as [Hc Hs].
      simpl. rewrite decide_False by done. by rewrite IH by (done || lia). }
  rewrite Nat.sub_succ, Nat.sub_0_r, Hf. by destruct s.
Qed.

Lemma fgets_long s t n :
  NEWLINE ∉ s → 0 < n ≤ length s → fgets (S n) (s ++ t) = Some (take n s, drop n s ++ t).
Proof.
  intros Hs Hn. unfold fgets. rewrite Nat.sub_succ, Nat.sub_0_r.
  assert (∀ m, m ≤ length s → fgets_chunk m (s ++ t) = (take m s, drop m s ++ t)) as Hf.
  { clear Hn. induction s as [|c s IH]; intros m Hm; cbn in *.
    - assert (m = 0) as -> by lia. by destruct t.
    - destruct m as [|m]; [done|]. apply not_elem_of_cons in Hs as [Hc Hs]. cbn.
      rewrite decide_False by done. by rewrite IH by (done || lia). }
  rewrite Hf by lia. destruct s; [cbn in Hn; lia|done].
Qed.
