(* ===== verification/CInt.v ===== *)
(** * Machine integers

    The integer types of the C sources on the LP64 data model (int is 32 bits,
    long and long long are 64 bits).  Values are [Z]; signed arithmetic that
    leaves the type is a [Fault], unsigned arithmetic wraps, and a left shift
    discards the bits that leave the type, as the compilers the sources are
    built with define it, but a shift count of the width or more is a [Fault]. *)
From stdpp Require Import base numbers option list.
From S2P Require Import Prelude.

#[local] Open Scope Z_scope.

Definition INT_MIN : Z := -2147483648.
Definition INT_MAX : Z := 2147483647.
Definition UINT_MAX : Z := 4294967295.
Definition LONG_MIN : Z := -9223372036854775808.
Definition LONG_MAX : Z := 9223372036854775807.

(** The result [x] of a signed operation, if the type can represent it. *)
Definition i32 (x : Z) : outcome Z := if decide (INT_MIN ≤ x ≤ INT_MAX) then Done x else Fault.
Definition i64 (x : Z) : outcome Z := if decide (LONG_MIN ≤ x ≤ LONG_MAX) then Done x else Fault.

Definition u32 (x : Z) : Z := x mod 4294967296.
Definition u64 (x : Z) : Z := x mod 18446744073709551616.

(** The signed value with the low bits of [x]. *)
Definition wrap32 (x : Z) : Z := (x + 2147483648) mod 4294967296 - 2147483648.
Definition wrap64 (x : Z) : Z := (x + 9223372036854775808) mod 18446744073709551616 - 9223372036854775808.

Definition shl32 (x n : Z) : outcome Z :=
  if decide (0 ≤ n < 32) then Done (wrap32 (x * 2 ^ n)) else Fault.
Definition shl64 (x n : Z) : outcome Z :=
  if decide (0 ≤ n < 64) then Done (wrap64 (x * 2 ^ n)) else Fault.

Notation is_i32 x := (INT_MIN ≤ x ≤ INT_MAX).
Notation is_i64 x := (LONG_MIN ≤ x ≤ LONG_MAX).
Notation is_u32 x := (0 ≤ x ≤ UINT_MAX).

(** Linear arithmetic with the limits of the types. *)
Ltac climits := unfold INT_MIN, INT_MAX, UINT_MAX, LONG_MIN, LONG_MAX in *.
Ltac clia := climits; lia.

(** Linear arithmetic with division and remainder by constants. *)
Ltac qlia := climits; Z.to_euclidean_division_equations; lia.

Lemma i32_ok x : is_i32 x → i32 x = Done x.
Proof. intros. unfold i32. by rewrite decide_True. Qed.

Lemma i64_ok x : is_i64 x → i64 x = Done x.
Proof. intros. unfold i64. by rewrite decide_True. Qed.

Lemma i32_fault x : ¬ is_i32 x → i32 x = Fault.
Proof. intros. unfold i32. by rewrite decide_False. Qed.

Lemma i32_inv x y : i32 x = Done y → y = x ∧ is_i32 x.
Proof. unfold i32. case_decide; naive_solver. Qed.

Lemma i64_inv x y : i64 x = Done y → y = x ∧ is_i64 x.
Proof. unfold i64. case_decide; naive_solver. Qed.

Lemma u32_range x : is_u32 (u32 x).
Proof. unfold u32. pose proof (Z.mod_pos_bound x 4294967296). clia. Qed.

Lemma u32_small x : is_u32 x → u32 x = x.
Proof. intros. unfold u32. apply Z.mod_small. clia. Qed.

Lemma wrap32_small x : is_i32 x → wrap32 x = x.
Proof. intros. unfold wrap32. rewrite Z.mod_small; clia. Qed.

Lemma wrap32_range x : is_i32 (wrap32 x).
Proof. unfold wrap32. pose proof (Z.mod_pos_bound (x + 2147483648) 4294967296). clia. Qed.

Lemma wrap32_wrap32_add a b : wrap32 (wrap32 a + b) = wrap32 (a + b).
Proof.
  unfold wrap32. f_equal.
  replace ((a + 2147483648) mod 4294967296 - 2147483648 + b + 2147483648)
    with ((a + 2147483648) mod 4294967296 + b) by lia.
  rewrite Zplus_mod_idemp_l. f_equal. lia.
Qed.

Lemma wrap64_small x : is_i64 x → wrap64 x = x.
Proof. intros. unfold wrap64. rewrite Z.mod_small; clia. Qed.

Lemma wrap64_range x : is_i64 (wrap64 x).
Proof. unfold wrap64. pose proof (Z.mod_pos_bound (x + 9223372036854775808) 18446744073709551616). clia. Qed.

(** The side conditions of [cint] rewrites are linear. *)
Create HintDb cint discriminated.
#[export] Hint Rewrite i32_ok i64_ok u32_small wrap32_small wrap64_small using clia : cint.

(** Evaluate the machine operations of the goal whose results are in range. *)
Ltac crun := repeat (progress (autorewrite with cint; cbn [mbind outcome_bind])).

(** The bits of a left shift of one. *)
Lemma wrap64_pow k : 0 ≤ k < 63 → wrap64 (2 ^ k) = 2 ^ k.
Proof.
  intros. apply wrap64_small. pose proof (Z.pow_pos_nonneg 2 k).
  assert (2 ^ k ≤ 2 ^ 62) by (apply Z.pow_le_mono_r; lia). climits. lia.
Qed.

(** The exclusive or of two numbers has no more bits than they have. *)
Lemma lxor_bound n x y : 0 ≤ n → 0 ≤ x < 2 ^ n → 0 ≤ y < 2 ^ n → 0 ≤ Z.lxor x y < 2 ^ n.
Proof.
  intros Hn Hx Hy. assert (0 ≤ Z.lxor x y) as Hpos by (apply Z.lxor_nonneg; lia). split; [done|].
  destruct (decide (Z.lxor x y = 0)) as [->|Hne]; [lia|]. destruct (decide (n = 0)) as [->|Hnz].
  { destruct Hne. by replace x with 0 by lia; replace y with 0 by lia. }
  assert (∀ z, 0 ≤ z < 2 ^ n → Z.log2 z < n) as Hlog.
  { intros z Hz. destruct (decide (z = 0)) as [->|]; [cbn; lia|]. apply Z.log2_lt_pow2; lia. }
  apply Z.log2_lt_pow2; [lia|]. pose proof (Z.log2_lxor x y ltac:(lia) ltac:(lia)).
  pose proof (Hlog x Hx). pose proof (Hlog y Hy). lia.
Qed.
