(* ===== verification/CFloat.v ===== *)
(** * Floating point numbers

    The types float (binary32) and double (binary64) with rounding to nearest, on
    the executable specification of IEEE 754 arithmetic of the standard library.
    Expressions are evaluated in the type C gives them: a float operand meets a
    double one as a double, and an assignment to a float rounds. *)
From Stdlib Require Import SpecFloat.
From stdpp Require Import base numbers option list.
From S2P Require Import Prelude CInt.

#[local] Open Scope Z_scope.

(** ** float *)

Definition fadd : spec_float → spec_float → spec_float := SFadd 24 128.
Definition fsub : spec_float → spec_float → spec_float := SFsub 24 128.
Definition fmul : spec_float → spec_float → spec_float := SFmul 24 128.
Definition fdiv : spec_float → spec_float → spec_float := SFdiv 24 128.

(** ** double *)

Definition dadd : spec_float → spec_float → spec_float := SFadd 53 1024.
Definition dsub : spec_float → spec_float → spec_float := SFsub 53 1024.
Definition dmul : spec_float → spec_float → spec_float := SFmul 53 1024.
Definition ddiv : spec_float → spec_float → spec_float := SFdiv 53 1024.

(** ** Conversions *)

Definition fconv (prec emax : Z) (x : spec_float) : spec_float :=
  match x with
  | S754_finite s m e => binary_round prec emax s m e
  | _ => x
  end.

Definition to_float : spec_float → spec_float := fconv 24 128.
Definition to_double : spec_float → spec_float := fconv 53 1024.

Definition float_of_Z (z : Z) : spec_float := binary_normalize 24 128 z 0 false.
Definition double_of_Z (z : Z) : spec_float := binary_normalize 53 1024 z 0 false.

(** A decimal literal [n / d] of type double. *)
Definition dlit (n d : Z) : spec_float := ddiv (double_of_Z n) (double_of_Z d).

(** The integral part of a number, toward zero. *)
Definition ftrunc (x : spec_float) : option Z :=
  match x with
  | S754_zero _ => Some 0
  | S754_finite s m e =>
      let a := if decide (0 ≤ e) then Z.shiftl (Zpos m) e else Z.shiftr (Zpos m) (- e) in
      Some (if s then - a else a)
  | _ => None
  end.

(** Conversion to int is defined only when the integral part fits. *)
Definition int_of_float (x : spec_float) : outcome Z :=
  match ftrunc x with Some z => i32 z | None => Fault end.

(** Comparisons; a NaN is not less than, and not equal to, anything. *)
Definition flt (x y : spec_float) : bool := SFltb x y.
Definition fle (x y : spec_float) : bool := SFleb x y.

(** Conversion to a truth value: a number that is not zero, NaN included. *)
Definition fnonzero (x : spec_float) : bool := negb (SFeqb x (S754_zero false)).

Lemma int_of_float_range x z : int_of_float x = Done z → is_i32 z.
Proof. unfold int_of_float. destruct (ftrunc x); [|done]. intros [-> ?]%i32_inv. done. Qed.
