(* ===== verification/CMem.v ===== *)
(** * Buffers of bytes

    A buffer is the list of its bytes, each from 0 to 255.  Reading and writing at
    an index or a range outside it is a [Fault]; memcpy(), memset() and memcmp() of
    the C library. *)
From stdpp Require Import base numbers option list.
From S2P Require Import Prelude CInt.

#[local] Open Scope Z_scope.

Definition byte_at (buf : list Z) (i : Z) : outcome Z :=
  if decide (0 ≤ i) then load (buf !! Z.to_nat i) else Fault.

Definition put_byte (buf : list Z) (i b : Z) : outcome (list Z) :=
  if decide (0 ≤ i < Z.of_nat (length buf)) then Done (<[Z.to_nat i := b]> buf) else Fault.

(** The [n] bytes at [buf + off]; a negative [n] is a huge size_t. *)
Definition bytes_at (buf : list Z) (off n : Z) : outcome (list Z) :=
  if decide (0 ≤ off ∧ 0 ≤ n ∧ off + n ≤ Z.of_nat (length buf))
  then Done (take (Z.to_nat n) (drop (Z.to_nat off) buf)) else Fault.

(** memcpy() of the bytes [src] to [buf + off]. *)
Definition memcpy (buf : list Z) (off : Z) (src : list Z) : outcome (list Z) :=
  _ ← bytes_at buf off (Z.of_nat (length src));
  Done (take (Z.to_nat off) buf ++ src ++ drop (Z.to_nat off + length src) buf).

(** memset(buf + off, b, n) *)
Definition memset (buf : list Z) (off b n : Z) : outcome (list Z) :=
  if decide (0 ≤ n) then memcpy buf off (replicate (Z.to_nat n) b) else Fault.

(** memcmp(a, b, n) != 0 on bytes that have been read. *)
Definition memcmp (a b : list Z) : bool := negb (bool_decide (a = b)).

(** ** Lemmas *)

Lemma byte_at_app pre b post : byte_at (pre ++ b :: post) (Z.of_nat (length pre)) = Done b.
Proof. unfold byte_at. rewrite decide_True by lia. by rewrite Nat2Z.id, list_lookup_middle. Qed.

Lemma put_byte_app pre b c post :
  put_byte (pre ++ c :: post) (Z.of_nat (length pre)) b = Done (pre ++ b :: post).
Proof.
  unfold put_byte. rewrite decide_True by (rewrite length_app; cbn; lia).
  rewrite Nat2Z.id. by rewrite insert_app_r_alt, Nat.sub_diag by lia.
Qed.

Lemma memcpy_ok buf off src :
  0 ≤ off → off + Z.of_nat (length src) ≤ Z.of_nat (length buf) →
  memcpy buf off src = Done (take (Z.to_nat off) buf ++ src ++ drop (Z.to_nat off + length src) buf).
Proof. intros. unfold memcpy, bytes_at. by rewrite decide_True by lia. Qed.

Lemma bytes_at_ok buf off n :
  (off + n ≤ length buf)%nat → bytes_at buf (Z.of_nat off) (Z.of_nat n) = Done (take n (drop off buf)).
Proof. intros. unfold bytes_at. rewrite decide_True by lia. by rewrite !Nat2Z.id. Qed.

Lemma bytes_at_start buf n : (n ≤ length buf)%nat → bytes_at buf 0 (Z.of_nat n) = Done (take n buf).
Proof. intros. by apply (bytes_at_ok buf 0 n). Qed.

Lemma memcpy_after a rest src :
  (length src ≤ length rest)%nat →
  memcpy (a ++ rest) (Z.of_nat (length a)) src = Done (a ++ src ++ drop (length src) rest).
Proof.
  intros. rewrite memcpy_ok by (rewrite ?length_app; lia). rewrite Nat2Z.id, take_app_length.
  by rewrite drop_app_add.
Qed.

Lemma memcpy_after' n a rest src :
  (length src ≤ length rest)%nat → n = length a →
  memcpy (a ++ rest) (Z.of_nat n) src = Done (a ++ src ++ drop (length src) rest).
Proof. intros ? ->. by apply memcpy_after. Qed.

Lemma memcpy_start buf src :
  (length src ≤ length buf)%nat → memcpy buf 0 src = Done (src ++ drop (length src) buf).
Proof. apply (memcpy_after []). Qed.

Lemma memcmp_if {A} a b (x y : A) : (if memcmp a b then x else y) = if decide (a = b) then y else x.
Proof. unfold memcmp. by destruct (decide (a = b)); [rewrite bool_decide_true|rewrite bool_decide_false]. Qed.
