(* ===== verification/CText.v ===== *)
(** * Numbers as text

    The conversions of the C library between integers and text that the sources
    use: printing in a base, the scanners behind scanf(), strtoul() and atoi(),
    and the lemmas that relate the two. *)
From stdpp Require Import base strings numbers option list.
From Stdlib Require Import Ascii.
From S2P Require Import Prelude CInt.

#[local] Open Scope Z_scope.

(** ** Digits *)

Definition parse_digit (c : ascii) : option Z :=
  let n := Z.of_N (code c) in
  if isdigit c then Some (n - 48)
  else if islower c then Some (n - 87)
  else if isupper c then Some (n - 55)
  else None.

(** The lower case digit of a value below 36. *)
Definition digit_char (d : Z) : ascii :=
  ascii_of_N (Z.to_N (if decide (d < 10) then d + 48 else d + 87)).

Lemma parse_digit_char d : 0 ≤ d < 36 → parse_digit (digit_char d) = Some d.
Proof.
  intros Hd. assert (∃ n, d = Z.of_nat n ∧ (n < 36)%nat) as (n & -> & Hn)
    by (exists (Z.to_nat d); lia). clear Hd.
  do 36 (destruct n as [|n]; [by vm_compute|]). lia.
Qed.

Lemma digit_char_not_NUL d : 0 ≤ d < 36 → digit_char d ≠ NUL.
Proof. intros Hd E. apply parse_digit_char in Hd. by rewrite E in Hd. Qed.

(** The longest run of digits of the base: its value, its length, the rest. *)
Fixpoint scan_digits (base acc : Z) (n : nat) (s : list ascii) : Z * nat * list ascii :=
  match s with
  | [] => (acc, n, [])
  | c :: s' =>
      match parse_digit c with
      | Some d => if decide (d < base) then scan_digits base (acc * base + d) (S n) s' else (acc, n, s)
      | None => (acc, n, s)
      end
  end.

(** A rest that does not go on with a digit. *)
Definition no_digit (base : Z) (s : list ascii) : Prop :=
  match s with
  | [] => True
  | c :: _ => match parse_digit c with Some d => base ≤ d | None => True end
  end.

Lemma scan_digits_stop base acc n s : no_digit base s → scan_digits base acc n s = (acc, n, s).
Proof.
  destruct s as [|c s]; [done|]. simpl. destruct (parse_digit c); [|done].
  intros. by rewrite decide_False by lia.
Qed.

(** ** Printing *)

(** [k] digits, most significant first: the conversion with a fixed width. *)
Fixpoint fixed_digits (base : Z) (k : nat) (v : Z) : list ascii :=
  match k with
  | O => []
  | S k' => fixed_digits base k' (v / base) ++ [digit_char (v mod base)]
  end.

(** The number of digits of a value. *)
Fixpoint ndigits_loop (fuel : nat) (base v : Z) : nat :=
  match fuel with
  | O => 1
  | S fuel' => if decide (v < base) then 1 else S (ndigits_loop fuel' base (v / base))
  end.
Definition ndigits (base v : Z) : nat := ndigits_loop (Z.to_nat (Z.log2 v)) base v.

(** The conversions %u and %x of a value that is not negative. *)
Definition print_base (base v : Z) : list ascii := fixed_digits base (ndigits base v) v.
Definition print_u : Z → list ascii := print_base 10.

(** The conversion %d. *)
Definition print_d (v : Z) : list ascii := if decide (v < 0) then "-"%char :: print_u (- v) else print_u v.

Lemma fixed_digits_length base k v : length (fixed_digits base k v) = k.
Proof.
  revert v. induction k as [|k IH]; intros v; [done|]. simpl. rewrite length_app, IH. simpl. lia.
Qed.

Lemma fixed_digits_forall (P : ascii → Prop) base k v :
  0 < base → (∀ d, 0 ≤ d < base → P (digit_char d)) → Forall P (fixed_digits base k v).
Proof.
  intros Hb HP. revert v. induction k as [|k IH]; intros v; simpl; [constructor|].
  apply Forall_app_2; [done|]. constructor; [|done]. apply HP. by apply Z.mod_pos_bound.
Qed.

(** Scanning what a fixed number of digits printed. *)
Lemma scan_fixed_digits base k v acc n rest :
  1 < base ≤ 36 → 0 ≤ v < base ^ Z.of_nat k →
  scan_digits base acc n (fixed_digits base k v ++ rest) =
  scan_digits base (acc * base ^ Z.of_nat k + v) (n + k) rest.
Proof.
  intros Hb. revert v acc n rest. induction k as [|k IH]; intros v acc n rest Hv.
  { simpl. rewrite Nat.add_0_r. f_equal. change (Z.of_nat 0) with 0 in Hv. simpl in Hv. lia. }
  replace (Z.of_nat (S k)) with (Z.succ (Z.of_nat k)) in * by lia.
  rewrite Z.pow_succ_r in * by lia. cbn [fixed_digits]. rewrite <-app_assoc.
  rewrite IH by (split; [apply Z.div_pos; lia|apply Z.div_lt_upper_bound; lia]).
  cbn [app scan_digits]. pose proof (Z.mod_pos_bound v base).
  rewrite parse_digit_char, decide_True by lia. f_equal; [|lia].
  pose proof (Z.div_mod v base). nia.
Qed.

Lemma ndigits_loop_bound fuel base v :
  1 < base → 0 ≤ v < 2 ^ (Z.of_nat fuel + 1) → v < base ^ Z.of_nat (ndigits_loop fuel base v).
Proof.
  intros Hb. revert v. induction fuel as [|fuel IH]; intros v Hv; simpl ndigits_loop.
  { change (Z.of_nat 0 + 1) with 1 in Hv. change (Z.of_nat 1) with 1. lia. }
  case_decide; [change (Z.of_nat 1) with 1; lia|].
  replace (Z.of_nat (S (ndigits_loop fuel base (v / base))))
    with (Z.succ (Z.of_nat (ndigits_loop fuel base (v / base)))) by lia.
  rewrite Z.pow_succ_r by lia.
  assert (v / base < base ^ Z.of_nat (ndigits_loop fuel base (v / base))).
  { apply IH. split; [apply Z.div_pos; lia|]. apply Z.div_lt_upper_bound; [lia|].
    replace (Z.of_nat (S fuel) + 1) with (Z.succ (Z.of_nat fuel + 1)) in Hv by lia.
    rewrite Z.pow_succ_r in Hv by lia. nia. }
  pose proof (Z.div_mod v base). pose proof (Z.mod_pos_bound v base). nia.
Qed.

Lemma ndigits_bound base v : 1 < base → 0 ≤ v → v < base ^ Z.of_nat (ndigits base v).
Proof.
  intros Hb Hv. apply ndigits_loop_bound; [done|]. split; [done|].
  pose proof (Z.log2_nonneg v). rewrite Z2Nat.id by done.
  destruct (decide (v = 0)) as [->|Hne]; [done|]. apply Z.log2_spec. lia.
Qed.

Lemma ndigits_pos base v : (0 < ndigits base v)%nat.
Proof. unfold ndigits. destruct (Z.to_nat _); simpl; [lia|]. case_decide; lia. Qed.

Lemma scan_print base v rest :
  1 < base ≤ 36 → 0 ≤ v → no_digit base rest →
  scan_digits base 0 0 (print_base base v ++ rest) = (v, ndigits base v, rest).
Proof.
  intros Hb Hv Hr. unfold print_base.
  rewrite scan_fixed_digits, scan_digits_stop by (done || (split; [done|apply ndigits_bound; lia])).
  done.
Qed.

Lemma print_base_nonempty base v : print_base base v ≠ [].
Proof.
  intros E. apply (f_equal length) in E. unfold print_base in E.
  rewrite fixed_digits_length in E. pose proof (ndigits_pos base v). simpl in E. lia.
Qed.

Lemma print_base_forall (P : ascii → Prop) base v :
  0 < base → (∀ d, 0 ≤ d < base → P (digit_char d)) → Forall P (print_base base v).
Proof. apply fixed_digits_forall. Qed.

(** ** Scanners *)

(** White space and a sign. *)
Definition skip_sign (s : list ascii) : bool * list ascii :=
  match s with
  | c :: s' => if decide (c = "-"%char) then (true, s')
               else if decide (c = "+"%char) then (false, s') else (false, s)
  | [] => (false, [])
  end.

(** What strtoul() makes of a sign and a number. *)
Definition strtoul_value (neg : bool) (v : Z) : Z :=
  if decide (18446744073709551615 < v) then 18446744073709551615 else if neg then - v else v.

(** The conversion %u of scanf() into an unsigned int: the value and the rest,
    [None] if the input does not start with a number. *)
Definition scan_u (s : list ascii) : option (Z * list ascii) :=
  let '(neg, s) := skip_sign (drop_while isspace s) in
  let '(v, n, rest) := scan_digits 10 0 0 s in
  if decide (n = 0%nat) then None else Some (u32 (strtoul_value neg v), rest).

(** A first character that is neither white space nor a sign. *)
Definition plain_head (s : list ascii) : Prop :=
  match s with
  | [] => False
  | c :: _ => isspace c = false ∧ c ≠ "-"%char ∧ c ≠ "+"%char
  end.

Lemma plain_head_skip s : plain_head s → skip_sign (drop_while isspace s) = (false, s).
Proof.
  destruct s as [|c s]; [done|]. intros (Hs & Hm & Hp). simpl. rewrite Hs. simpl.
  by rewrite !decide_False.
Qed.

Lemma digit_char_plain d : 0 ≤ d < 36 →
  isspace (digit_char d) = false ∧ digit_char d ≠ "-"%char ∧ digit_char d ≠ "+"%char.
Proof.
  intros Hd. assert (∃ n, d = Z.of_nat n ∧ (n < 36)%nat) as (n & -> & Hn)
    by (exists (Z.to_nat d); lia). clear Hd.
  do 36 (destruct n as [|n]; [by vm_compute|]). lia.
Qed.

Lemma plain_head_print base v rest : 0 < base ≤ 36 → plain_head (print_base base v ++ rest).
Proof.
  intros Hb.
  pose proof (print_base_forall (λ c, isspace c = false ∧ c ≠ "-"%char ∧ c ≠ "+"%char) base v) as Hf.
  pose proof (print_base_nonempty base v). destruct (print_base base v) as [|c l]; [done|]. simpl.
  apply Forall_cons in Hf as [? _]; [done|lia|]. intros d Hd. apply digit_char_plain. lia.
Qed.

Lemma scan_u_print v rest :
  is_u32 v → no_digit 10 rest → scan_u (print_u v ++ rest) = Some (v, rest).
Proof.
  intros Hv Hr. unfold scan_u, print_u. rewrite plain_head_skip by (apply plain_head_print; lia).
  rewrite scan_print by (done || lia). rewrite decide_False by (pose proof (ndigits_pos 10 v); lia).
  unfold strtoul_value. rewrite decide_False by clia. by rewrite u32_small.
Qed.

(** ** strtol() in base 10 and atoi() *)

(** What strtol() makes of a sign and a number: a long, saturated. *)
Definition strtol_value (neg : bool) (v : Z) : Z :=
  if neg then Z.max LONG_MIN (- v) else Z.min LONG_MAX v.

(** atoi() is strtol() cast to int; text without a number gives 0. *)
Definition atoi (s : list ascii) : Z :=
  let '(neg, s) := skip_sign (drop_while isspace s) in
  let '(v, _, _) := scan_digits 10 0 0 s in
  wrap32 (strtol_value neg v).

Lemma atoi_print_d v rest : is_i32 v → no_digit 10 rest → atoi (print_d v ++ rest) = v.
Proof.
  intros Hv Hr. unfold atoi, print_d, print_u. case_decide.
  - simpl. rewrite scan_print by (done || lia). unfold strtol_value.
    rewrite wrap32_small; clia.
  - rewrite plain_head_skip by (apply plain_head_print; lia). rewrite scan_print by (done || lia).
    unfold strtol_value. rewrite wrap32_small; clia.
Qed.

(** The characters of a printed int. *)
Lemma print_d_forall (P : ascii → Prop) v :
  P "-"%char → (∀ d, 0 ≤ d < 10 → P (digit_char d)) → Forall P (print_d v).
Proof.
  intros. unfold print_d, print_u. case_decide; [constructor; [done|]|]; by apply print_base_forall.
Qed.

Lemma print_d_nonempty v : print_d v ≠ [].
Proof. unfold print_d. case_decide; [done|]. apply print_base_nonempty. Qed.

(** A line end after the text does not change its number. *)
Lemma scan_digits_newline base acc n s :
  (scan_digits base acc n (s ++ [NEWLINE])).1.1 = (scan_digits base acc n s).1.1.
Proof.
  revert acc n. induction s as [|c s IH]; intros acc n; simpl; [done|].
  destruct (parse_digit c); [|done]. case_decide; [apply IH|done].
Qed.

Lemma atoi_newline s : atoi (s ++ [NEWLINE]) = atoi s.
Proof.
  unfold atoi.
  assert (skip_sign (drop_while isspace (s ++ [NEWLINE])) = skip_sign (drop_while isspace s) ∨
    ∃ neg t, skip_sign (drop_while isspace s) = (neg, t) ∧
      skip_sign (drop_while isspace (s ++ [NEWLINE])) = (neg, t ++ [NEWLINE])) as [->|(neg&t&->&->)].
  - induction s as [|c s IH]; simpl; [by left|]. destruct (isspace c); [done|].
    simpl. repeat case_decide; eauto.
  - done.
  - pose proof (scan_digits_newline 10 0 0 t) as H.
    destruct (scan_digits _ _ _ (t ++ _)) as [[v1 ?] ?], (scan_digits _ _ _ t) as [[v2 ?] ?].
    simpl in H. by rewrite H.
Qed.

Lemma print_d_inj v w : is_i32 v → is_i32 w → print_d v = print_d w → v = w.
Proof.
  intros Hv Hw E. rewrite <-(atoi_print_d v []), <-(atoi_print_d w []) by done. by rewrite E.
Qed.

Lemma ndigits_loop_le fuel base v k :
  1 < base → 0 ≤ v < base ^ Z.of_nat k → (0 < k)%nat → (ndigits_loop fuel base v ≤ k)%nat.
Proof.
  intros Hb. revert v k. induction fuel as [|fuel IH]; intros v k Hv Hk; cbn [ndigits_loop]; [lia|].
  case_decide; [lia|]. destruct k as [|[|k]]; [lia|change (Z.of_nat 1) with 1 in Hv; lia|].
  apply le_n_S, IH; [|lia]. split; [apply Z.div_pos; lia|]. apply Z.div_lt_upper_bound; [lia|].
  rewrite <-Z.pow_succ_r by lia. replace (Z.succ (Z.of_nat (S k))) with (Z.of_nat (S (S k))) by lia. lia.
Qed.

(** The number of characters of a printed number. *)
Lemma print_d_length v k : 0 ≤ v < 10 ^ Z.of_nat k → (0 < k)%nat → (length (print_d v) ≤ k)%nat.
Proof.
  intros Hv Hk. unfold print_d, print_u, print_base. rewrite decide_False by lia.
  rewrite fixed_digits_length. by apply ndigits_loop_le.
Qed.
