(* ===== verification/Checksum.v ===== *)
(** * Checksums

    src/lib/tst_checksum.c: the CRC-32C of a buffer, computed byte by byte with a table.
    It is the checksum of the shift register that takes one bit at a time, and it tells
    apart any two buffers that differ in four neighbouring bytes only. *)
From stdpp Require Import base numbers option list.
From S2P Require Import Prelude CInt.

#[local] Open Scope Z_scope.

Definition crc32c_table : list Z := [
    0x00000000; 0xf26b8303; 0xe13b70f7; 0x1350f3f4; 0xc79a971f; 0x35f1141c; 0x26a1e7e8; 0xd4ca64eb;
    0x8ad958cf; 0x78b2dbcc; 0x6be22838; 0x9989ab3b; 0x4d43cfd0; 0xbf284cd3; 0xac78bf27; 0x5e133c24;
    0x105ec76f; 0xe235446c; 0xf165b798; 0x030e349b; 0xd7c45070; 0x25afd373; 0x36ff2087; 0xc494a384;
    0x9a879fa0; 0x68ec1ca3; 0x7bbcef57; 0x89d76c54; 0x5d1d08bf; 0xaf768bbc; 0xbc267848; 0x4e4dfb4b;
    0x20bd8ede; 0xd2d60ddd; 0xc186fe29; 0x33ed7d2a; 0xe72719c1; 0x154c9ac2; 0x061c6936; 0xf477ea35;
    0xaa64d611; 0x580f5512; 0x4b5fa6e6; 0xb93425e5; 0x6dfe410e; 0x9f95c20d; 0x8cc531f9; 0x7eaeb2fa;
    0x30e349b1; 0xc288cab2; 0xd1d83946; 0x23b3ba45; 0xf779deae; 0x05125dad; 0x1642ae59; 0xe4292d5a;
    0xba3a117e; 0x4851927d; 0x5b016189; 0xa96ae28a; 0x7da08661; 0x8fcb0562; 0x9c9bf696; 0x6ef07595;
    0x417b1dbc; 0xb3109ebf; 0xa0406d4b; 0x522bee48; 0x86e18aa3; 0x748a09a0; 0x67dafa54; 0x95b17957;
    0xcba24573; 0x39c9c670; 0x2a993584; 0xd8f2b687; 0x0c38d26c; 0xfe53516f; 0xed03a29b; 0x1f682198;
    0x5125dad3; 0xa34e59d0; 0xb01eaa24; 0x42752927; 0x96bf4dcc; 0x64d4cecf; 0x77843d3b; 0x85efbe38;
    0xdbfc821c; 0x2997011f; 0x3ac7f2eb; 0xc8ac71e8; 0x1c661503; 0xee0d9600; 0xfd5d65f4; 0x0f36e6f7;
    0x61c69362; 0x93ad1061; 0x80fde395; 0x72966096; 0xa65c047d; 0x5437877e; 0x4767748a; 0xb50cf789;
    0xeb1fcbad; 0x197448ae; 0x0a24bb5a; 0xf84f3859; 0x2c855cb2; 0xdeeedfb1; 0xcdbe2c45; 0x3fd5af46;
    0x7198540d; 0x83f3d70e; 0x90a324fa; 0x62c8a7f9; 0xb602c312; 0x44694011; 0x5739b3e5; 0xa55230e6;
    0xfb410cc2; 0x092a8fc1; 0x1a7a7c35; 0xe811ff36; 0x3cdb9bdd; 0xceb018de; 0xdde0eb2a; 0x2f8b6829;
    0x82f63b78; 0x709db87b; 0x63cd4b8f; 0x91a6c88c; 0x456cac67; 0xb7072f64; 0xa457dc90; 0x563c5f93;
    0x082f63b7; 0xfa44e0b4; 0xe9141340; 0x1b7f9043; 0xcfb5f4a8; 0x3dde77ab; 0x2e8e845f; 0xdce5075c;
    0x92a8fc17; 0x60c37f14; 0x73938ce0; 0x81f80fe3; 0x55326b08; 0xa759e80b; 0xb4091bff; 0x466298fc;
    0x1871a4d8; 0xea1a27db; 0xf94ad42f; 0x0b21572c; 0xdfeb33c7; 0x2d80b0c4; 0x3ed04330; 0xccbbc033;
    0xa24bb5a6; 0x502036a5; 0x4370c551; 0xb11b4652; 0x65d122b9; 0x97baa1ba; 0x84ea524e; 0x7681d14d;
    0x2892ed69; 0xdaf96e6a; 0xc9a99d9e; 0x3bc21e9d; 0xef087a76; 0x1d63f975; 0x0e330a81; 0xfc588982;
    0xb21572c9; 0x407ef1ca; 0x532e023e; 0xa145813d; 0x758fe5d6; 0x87e466d5; 0x94b49521; 0x66df1622;
    0x38cc2a06; 0xcaa7a905; 0xd9f75af1; 0x2b9cd9f2; 0xff56bd19; 0x0d3d3e1a; 0x1e6dcdee; 0xec064eed;
    0xc38d26c4; 0x31e6a5c7; 0x22b65633; 0xd0ddd530; 0x0417b1db; 0xf67c32d8; 0xe52cc12c; 0x1747422f;
    0x49547e0b; 0xbb3ffd08; 0xa86f0efc; 0x5a048dff; 0x8ecee914; 0x7ca56a17; 0x6ff599e3; 0x9d9e1ae0;
    0xd3d3e1ab; 0x21b862a8; 0x32e8915c; 0xc083125f; 0x144976b4; 0xe622f5b7; 0xf5720643; 0x07198540;
    0x590ab964; 0xab613a67; 0xb831c993; 0x4a5a4a90; 0x9e902e7b; 0x6cfbad78; 0x7fab5e8c; 0x8dc0dd8f;
    0xe330a81a; 0x115b2b19; 0x020bd8ed; 0xf0605bee; 0x24aa3f05; 0xd6c1bc06; 0xc5914ff2; 0x37faccf1;
    0x69e9f0d5; 0x9b8273d6; 0x88d28022; 0x7ab90321; 0xae7367ca; 0x5c18e4c9; 0x4f48173d; 0xbd23943e;
    0xf36e6f75; 0x0105ec76; 0x12551f82; 0xe03e9c81; 0x34f4f86a; 0xc69f7b69; 0xd5cf889d; 0x27a40b9e;
    0x79b737ba; 0x8bdcb4b9; 0x988c474d; 0x6ae7c44e; 0xbe2da0a5; 0x4c4623a6; 0x5f16d052; 0xad7d5351 ].

Fixpoint crc_loop (crc : Z) (buf : list Z) (buf_len : nat) : outcome Z :=
  match buf_len with
  | O => Done crc
  | S n =>
      b ← load (head buf);
      t ← load (crc32c_table !! Z.to_nat (Z.land (Z.lxor crc b) 255));
      crc_loop (Z.lxor t (Z.shiftr crc 8)) (tail buf) n
  end.

Definition tst_crc32c (buf : list Z) (buf_len : nat) : outcome Z :=
  crc ← crc_loop 0xffffffff buf buf_len; Done (u32 (Z.lnot crc)).

(** ** The shift register *)

(** The polynomial of Castagnoli, its lowest coefficient in the highest bit. *)
Definition POLY : Z := 0x82f63b78.

Definition crc_bit (c : Z) : Z := if Z.odd c then Z.lxor (Z.shiftr c 1) POLY else Z.shiftr c 1.
Fixpoint crc_bits (n : nat) (c : Z) : Z := match n with O => c | S n' => crc_bits n' (crc_bit c) end.
Definition crc_byte (c b : Z) : Z := crc_bits 8 (Z.lxor c b).
Definition crc_spec (buf : list Z) : Z := Z.lxor (foldl crc_byte 0xffffffff buf) 0xffffffff.

Abbreviation byte b := (0 ≤ b < 256).
Abbreviation word c := (0 ≤ c < 2 ^ 32).

Lemma crc_bit_lxor x y : crc_bit (Z.lxor x y) = Z.lxor (crc_bit x) (crc_bit y).
Proof.
  unfold crc_bit. assert (Z.odd (Z.lxor x y) = xorb (Z.odd x) (Z.odd y)) as ->.
  { by rewrite <- !Z.bit0_odd, Z.lxor_spec. }
  rewrite Z.shiftr_lxor. apply Z.bits_inj'. intros i _.
  destruct (Z.odd x), (Z.odd y); cbn; rewrite ?Z.lxor_spec; by repeat destruct (Z.testbit _ _).
Qed.

Lemma crc_bits_lxor n x y : crc_bits n (Z.lxor x y) = Z.lxor (crc_bits n x) (crc_bits n y).
Proof. revert x y. induction n as [|n IH]; intros x y; [done|]. cbn. by rewrite crc_bit_lxor, IH. Qed.

(** Bits that have not reached the end of the register yet. *)
Lemma crc_bits_shiftl n y : crc_bits n (Z.shiftl y (Z.of_nat n)) = y.
Proof.
  induction n as [|n IH]; [by rewrite Z.shiftl_0_r|]. cbn [crc_bits].
  assert (crc_bit (Z.shiftl y (Z.of_nat (S n))) = Z.shiftl y (Z.of_nat n)) as ->; [|done].
  unfold crc_bit. rewrite <- Z.bit0_odd, Z.shiftl_spec_low by lia. rewrite Z.shiftr_shiftl_l by lia. f_equal. lia.
Qed.

Lemma crc_bits_add n k c : crc_bits (n + k) c = crc_bits k (crc_bits n c).
Proof. revert c. induction n as [|n IH]; intros c; [done|]. apply IH. Qed.

Lemma low_high x : x = Z.lxor (Z.land x 255) (Z.shiftl (Z.shiftr x 8) 8).
Proof.
  apply Z.bits_inj'. intros i Hi. rewrite Z.lxor_spec, Z.land_spec. change 255 with (Z.ones 8).
  destruct (decide (i < 8)).
  - rewrite Z.ones_spec_low, Z.shiftl_spec_low by lia. by destruct (Z.testbit x i).
  - rewrite Z.ones_spec_high, Z.shiftl_spec, Z.shiftr_spec by lia. replace (i - 8 + 8) with i by lia. by destruct (Z.testbit x i).
Qed.

(** ** The table *)

Lemma table_entry i : byte i → crc32c_table !! Z.to_nat i = Some (crc_bits 8 i).
Proof.
  intros Hi. assert (crc32c_table = (λ i, crc_bits 8 (Z.of_nat i)) <$> seq 0 256) as -> by (vm_compute; reflexivity).
  rewrite list_lookup_fmap, lookup_seq_lt by lia. cbn [fmap option_fmap option_map]. do 2 f_equal. lia.
Qed.

Lemma land_255 x : byte (Z.land x 255).
Proof. change 255 with (Z.ones 8). rewrite Z.land_ones by lia. apply Z.mod_pos_bound. lia. Qed.

Lemma shiftr_lxor_byte c b : byte b → Z.shiftr (Z.lxor c b) 8 = Z.shiftr c 8.
Proof. intros Hb. rewrite Z.shiftr_lxor, (Z.shiftr_div_pow2 b), Z.div_small by lia. apply Z.lxor_0_r. Qed.

(** One turn of the loop is eight turns of the register. *)
Lemma crc_step c b : byte b → Z.lxor (crc_bits 8 (Z.land (Z.lxor c b) 255)) (Z.shiftr c 8) = crc_byte c b.
Proof.
  intros Hb. unfold crc_byte. rewrite (low_high (Z.lxor c b)) at 2. rewrite crc_bits_lxor, shiftr_lxor_byte by done.
  f_equal. symmetry. apply (crc_bits_shiftl 8).
Qed.

Lemma crc_loop_ok n : ∀ c buf, Forall (λ b, byte b) buf → (n ≤ length buf)%nat → crc_loop c buf n = Done (foldl crc_byte c (take n buf)).
Proof.
  induction n as [|n IH]; intros c buf Hb Hn; [done|]. destruct buf as [|b buf]; [cbn in Hn; lia|].
  apply Forall_cons in Hb as [Hb Hbuf]. cbn [crc_loop head tail load mbind outcome_bind].
  rewrite table_entry by apply land_255. cbn [load mbind outcome_bind]. rewrite crc_step by done. cbn in Hn. rewrite IH by (done || lia). done.
Qed.

(** ** What the checksum tells apart *)

Lemma lxor_word x y : word x → word y → word (Z.lxor x y).
Proof. by apply lxor_bound. Qed.

Lemma crc_bit_word c : word c → word (crc_bit c).
Proof.
  intros Hc. assert (word (Z.shiftr c 1)) as Hs by (rewrite Z.shiftr_div_pow2 by lia; qlia).
  unfold crc_bit. destruct (Z.odd c); [|done]. by apply lxor_word.
Qed.

Lemma testbit_high n x i : 0 ≤ x < 2 ^ n → 0 ≤ n ≤ i → Z.testbit x i = false.
Proof.
  intros Hx Hi. apply Z.testbit_false; [lia|]. rewrite Z.div_small; [done|]. split; [lia|].
  apply Z.lt_le_trans with (2 ^ n); [lia|]. apply Z.pow_le_mono_r; lia.
Qed.

(** The highest bit says which bit was shifted out. *)
Lemma crc_bit_high c : word c → Z.testbit (crc_bit c) 31 = Z.odd c.
Proof.
  intros Hc. assert (Z.testbit (Z.shiftr c 1) 31 = false) as Hs.
  { rewrite Z.shiftr_spec by lia. by apply (testbit_high 32). }
  unfold crc_bit. destruct (Z.odd c); [|done]. rewrite Z.lxor_spec, Hs. done.
Qed.

Lemma crc_bit_inj c c' : word c → word c' → crc_bit c = crc_bit c' → c = c'.
Proof.
  intros Hc Hc' E. assert (Z.odd c = Z.odd c') as Eo by (rewrite <- !crc_bit_high, E by done; done).
  assert (Z.shiftr c 1 = Z.shiftr c' 1) as Es.
  { unfold crc_bit in E. rewrite <- Eo in E. destruct (Z.odd c); [|done].
    apply (f_equal (λ x, Z.lxor x POLY)) in E. by rewrite !Z.lxor_assoc, !Z.lxor_nilpotent, !Z.lxor_0_r in E. }
  rewrite (Z.div2_odd c), (Z.div2_odd c'), Eo, !Z.div2_spec, Es. done.
Qed.

Lemma crc_bits_word n c : word c → word (crc_bits n c).
Proof. revert c. induction n as [|n IH]; intros c Hc; [done|]. apply IH. by apply crc_bit_word. Qed.

Lemma crc_bits_inj n c c' : word c → word c' → crc_bits n c = crc_bits n c' → c = c'.
Proof.
  revert c c'. induction n as [|n IH]; intros c c' Hc Hc' E; [done|].
  apply crc_bit_inj; [done..|]. apply IH; [by apply crc_bit_word..|done].
Qed.

Lemma lxor_cancel_r x y z : Z.lxor x z = Z.lxor y z → x = y.
Proof. intros E. apply (f_equal (λ u, Z.lxor u z)) in E. by rewrite !Z.lxor_assoc, !Z.lxor_nilpotent, !Z.lxor_0_r in E. Qed.
Lemma lxor_cancel_l x y z : Z.lxor z x = Z.lxor z y → x = y.
Proof. rewrite !(Z.lxor_comm z). apply lxor_cancel_r. Qed.

Lemma byte_word b : byte b → word b.
Proof. lia. Qed.

Lemma foldl_crc_word buf c : Forall (λ b, byte b) buf → word c → word (foldl crc_byte c buf).
Proof.
  intros Hb. revert c. induction Hb as [|b buf Hb _ IH]; intros c Hc; [done|]. apply IH, crc_bits_word, lxor_word; [done|by apply byte_word].
Qed.

Lemma foldl_crc_inj buf c c' :
  Forall (λ b, byte b) buf → word c → word c' → foldl crc_byte c buf = foldl crc_byte c' buf → c = c'.
Proof.
  intros Hb. revert c c'. induction Hb as [|b buf Hb _ IH]; intros c c' Hc Hc' E; [done|]. cbn [foldl] in E.
  apply byte_word in Hb. apply IH in E; [|by apply crc_bits_word, lxor_word..]. apply crc_bits_inj in E; [|by apply lxor_word..].
  by apply lxor_cancel_r in E.
Qed.

(** The number that bytes stand for, the first one lowest. *)
Fixpoint le_value (buf : list Z) : Z := match buf with [] => 0 | b :: buf' => Z.lxor b (Z.shiftl (le_value buf') 8) end.

Lemma foldl_crc_value buf c : foldl crc_byte c buf = crc_bits (8 * length buf) (Z.lxor c (le_value buf)).
Proof.
  revert c. induction buf as [|b buf IH]; intros c; [by rewrite Z.lxor_0_r|]. cbn [foldl le_value length].
  rewrite IH. replace (8 * S (length buf))%nat with (8 + 8 * length buf)%nat by lia. rewrite crc_bits_add.
  f_equal. rewrite <- Z.lxor_assoc, crc_bits_lxor. f_equal. symmetry. apply (crc_bits_shiftl 8).
Qed.

Lemma le_value_cons b buf : byte b → le_value (b :: buf) = b + 256 * le_value buf.
Proof.
  intros Hb. cbn. rewrite Z.shiftl_mul_pow2 by lia. rewrite <- Z.add_nocarry_lxor; [lia|].
  apply Z.bits_inj'. intros i Hi. rewrite Z.land_spec, Z.bits_0. destruct (decide (i < 8)).
  - rewrite <- Z.shiftl_mul_pow2, Z.shiftl_spec_low by lia. apply andb_false_r.
  - by rewrite (testbit_high 8 b) by lia.
Qed.

Lemma le_value_range buf : Forall (λ b, byte b) buf → 0 ≤ le_value buf < 2 ^ (8 * Z.of_nat (length buf)).
Proof.
  induction 1 as [|b buf Hb _ IH]; [done|]. rewrite le_value_cons by done.
  replace (8 * Z.of_nat (length (b :: buf))) with (8 + 8 * Z.of_nat (length buf)) by (cbn; lia). rewrite Z.pow_add_r by lia. lia.
Qed.

Lemma le_value_inj buf buf' :
  Forall (λ b, byte b) buf → Forall (λ b, byte b) buf' → length buf = length buf' → le_value buf = le_value buf' → buf = buf'.
Proof.
  intros Hb. revert buf'. induction Hb as [|b buf Hb _ IH]; intros [|b' buf'] Hb' Hl E; [done..|].
  apply Forall_cons in Hb' as [Hb1 Hb']. rewrite !le_value_cons in E by done.
  assert (b = b' ∧ le_value buf = le_value buf') as [-> Ev] by lia. f_equal. apply IH; [done| |done]. by injection Hl.
Qed.

Lemma tst_crc32c_spec buf : Forall (λ b, byte b) buf → tst_crc32c buf (length buf) = Done (crc_spec buf).
Proof.
  intros Hb. unfold tst_crc32c. rewrite crc_loop_ok, firstn_all by done. cbn [mbind outcome_bind]. f_equal.
  unfold crc_spec. pose proof (foldl_crc_word buf 0xffffffff Hb ltac:(lia)). set (c := foldl _ _ _) in *.
  unfold u32. change 4294967296 with (2 ^ 32). rewrite <- Z.land_ones by lia. change 0xffffffff with (Z.ones 32).
  apply Z.bits_inj'. intros i Hi. rewrite Z.land_spec, Z.lnot_spec, Z.lxor_spec by done. destruct (decide (i < 32)).
  - rewrite Z.ones_spec_low by lia. by destruct (Z.testbit c i).
  - rewrite Z.ones_spec_high, (testbit_high 32 c) by lia. apply andb_false_r.
Qed.

(** ** The theorems *)

(** C26: tst_crc32c() computes, from its table of 256 entries, the CRC-32C of the shift
    register that takes the buffer bit by bit. *)
Theorem tst_crc32c_register buf rest :
  Forall (λ b, byte b) (buf ++ rest) → tst_crc32c (buf ++ rest) (length buf) = Done (crc_spec buf).
Proof.
  intros Hb. pose proof Hb as [Hbuf _]%Forall_app. rewrite <- tst_crc32c_spec by done. unfold tst_crc32c.
  rewrite !crc_loop_ok by (done || rewrite ?length_app; lia). by rewrite take_app_length, firstn_all.
Qed.

(** The check value of the checksum: that of the digits from 1 to 9. *)
Lemma tst_crc32c_register_witness : tst_crc32c [49; 50; 51; 52; 53; 54; 55; 56; 57; 0] 9 = Done 0xe3069283.
Proof.
  transitivity (Done (crc_spec [49; 50; 51; 52; 53; 54; 55; 56; 57])); [|vm_compute; reflexivity].
  apply (tst_crc32c_register [49; 50; 51; 52; 53; 54; 55; 56; 57] [0]). by_decide.
Defined.

(** C34: Buffers that differ only inside four neighbouring bytes have different checksums. *)
Theorem tst_crc32c_burst pre w w' post :
  Forall (λ b, byte b) (pre ++ w ++ post) → Forall (λ b, byte b) w' → length w = length w' → (length w ≤ 4)%nat → w ≠ w' →
  ∃ x x', tst_crc32c (pre ++ w ++ post) (length (pre ++ w ++ post)) = Done x ∧
    tst_crc32c (pre ++ w' ++ post) (length (pre ++ w' ++ post)) = Done x' ∧ x ≠ x'.
Proof.
  intros Hb Hw' Hl H4 Hne. pose proof Hb as [Hpre [Hw Hpost]%Forall_app]%Forall_app.
  eexists _, _. split; [by apply tst_crc32c_spec|]. split; [apply tst_crc32c_spec; by rewrite !Forall_app|].
  intros E. unfold crc_spec in E. apply lxor_cancel_r in E. rewrite !foldl_app in E.
  set (c := foldl crc_byte 0xffffffff pre) in *. assert (word c) as Hc by (by apply foldl_crc_word).
  apply foldl_crc_inj in E; [|done|by apply foldl_crc_word..]. rewrite !foldl_crc_value, Hl in E.
  assert (∀ u, Forall (λ b, byte b) u → (length u ≤ 4)%nat → word (Z.lxor c (le_value u))) as Hx.
  { intros u Hu H4u. apply lxor_word; [done|]. pose proof (le_value_range u Hu).
    pose proof (Z.pow_le_mono_r 2 (8 * Z.of_nat (length u)) 32). lia. }
  apply crc_bits_inj in E; [|apply Hx; (done || lia)..]. apply lxor_cancel_l, le_value_inj in E; done.
Qed.

Lemma tst_crc32c_burst_witness :
  ∃ x x', tst_crc32c [1; 2; 3; 4; 5; 6; 7] 7 = Done x ∧ tst_crc32c [1; 2; 3; 132; 69; 6; 7] 7 = Done x' ∧ x ≠ x'.
Proof.
  apply (tst_crc32c_burst [1; 2; 3] [4; 5] [132; 69] [6; 7]).
  - by_decide.
  - by_decide.
  - reflexivity.
  - cbn. lia.
  - discriminate.
Defined.
