(* ===== verification/KernelVersion.v ===== *)
(** * Kernel versions

    src/lib/tst_kvercmp.c: the comparison of the running kernel with a version, by its
    three numbers or, on a known distribution, by the five numbers of the distribution's
    kernel.  The release of uname() and the file /etc/os-release are arguments; of the
    messages only the warning about a version that cannot be read is kept. *)
From stdpp Require Import base strings numbers option list.
From Stdlib Require Import Ascii.
From S2P Require Import Prelude CInt CText.

#[local] Open Scope Z_scope.

(** ** Three numbers *)

(** A number and the rest, [None] for a null pointer. *)
Definition parse_digit (str : list ascii) : option (Z * list ascii) :=
  let '(neg, s) := skip_sign (drop_while isspace str) in
  let '(v, n, rest) := scan_digits 10 0 0 s in
  if decide (n = 0%nat) then None
  else
    let v := u64 (strtoul_value neg v) in
    if decide (INT_MAX < v) then None else Some (v, rest).

(** [if ( *(str++) != c) return 1;] *)
Definition expect (c : ascii) (str : list ascii) : option (list ascii) :=
  match str with d :: str' => if decide (d = c) then Some str' else None | [] => None end.

(** The result and the three numbers, which are zero where they are not reached. *)
Definition tst_parse_kver (str_kver : list ascii) : Z * (Z * Z * Z) :=
  match parse_digit str_kver with
  | None => (1, (0, 0, 0))
  | Some (v1, str) =>
      match expect "." str ≫= parse_digit with
      | None => (1, (v1, 0, 0))
      | Some (v2, str) =>
          if decide (head str = Some " "%char ∨ str = []) then (0, (v1, v2, 0))
          else
            match expect "." str ≫= parse_digit with
            | None => (1, (v1, v2, 0))
            | Some (v3, _) => (0, (v1, v2, v3))
            end
      end
  end.

(** [(a << 16) + (b << 8) + c] *)
Definition version_code (a b c : Z) : outcome Z :=
  x ← shl32 a 16; y ← shl32 b 8; s ← i32 (x + y); i32 (s + c).

(** Whether there is a warning, and the difference. *)
Definition tst_kvcmp (cur_kver : list ascii) (r1 r2 r3 : Z) : outcome (bool * Z) :=
  let '(bad, (a1, a2, a3)) := tst_parse_kver cur_kver in
  testver ← version_code r1 r2 r3;
  currver ← version_code a1 a2 a3;
  d ← i32 (currver - testver);
  Done (bool_decide (bad ≠ 0), d).

Definition tst_kvercmp (release : list ascii) (r1 r2 r3 : Z) : outcome (bool * Z) := tst_kvcmp release r1 r2 r3.

(** ** Five numbers *)

(** The conversion %d of sscanf(). *)
Definition scan_d (s : list ascii) : option (Z * list ascii) :=
  let '(neg, s) := skip_sign (drop_while isspace s) in
  let '(v, n, rest) := scan_digits 10 0 0 s in
  if decide (n = 0%nat) then None else Some (wrap32 (strtol_value neg v), rest).

(** Numbers with the characters between them: the ones that are read. *)
Fixpoint scan_numbers (seps : list ascii) (s : list ascii) : list Z :=
  match scan_d s with
  | None => []
  | Some (v, s) =>
      v :: match seps with
           | [] => []
           | sep :: seps' => match expect sep s with Some s' => scan_numbers seps' s' | None => [] end
           end
  end.

(** [int c1 = 0, ...; sscanf(s, "%d.%d.%d-%d.%d", &c1, ...)] *)
Definition scan_version (s : list ascii) : list Z :=
  let l := scan_numbers ["."; "."; "-"; "."]%char s in l ++ replicate (5 - length l) 0.

(** The first difference that is not zero. *)
Fixpoint compare_numbers (c t : list Z) : outcome Z :=
  match c, t with
  | x :: c', y :: t' => ret ← i32 (x - y); if decide (ret ≠ 0) then Done ret else compare_numbers c' t'
  | _, _ => Done 0
  end.

Definition tst_kvexcmp (tst_exv cur_ver : list ascii) : outcome Z :=
  compare_numbers (scan_version cur_ver) (scan_version tst_exv).

(** ** Distributions *)

Definition toupper (c : ascii) : ascii :=
  if decide (97 ≤ nat_of_ascii c ≤ 122)%nat then ascii_of_nat (nat_of_ascii c - 32) else c.

(** Up to a quotation mark, in upper case. *)
Fixpoint upper_name (p : list ascii) : list ascii :=
  match p with
  | [] => []
  | c :: p' => if decide (c = DQUOTE) then [] else toupper c :: upper_name p'
  end.

(** [sscanf(line, "ID=%s", distname) == 1] *)
Definition scan_id (line : list ascii) : option (list ascii) :=
  if starts_with (chars "ID=") line then
    let w := take_while (λ c, negb (isspace c)) (drop_while isspace (drop 3 line)) in
    if decide (w = []) then None else Some w
  else None.

Definition BUFSIZ : nat := 8192.

(** The first line that matches; [None] is where the test is broken. *)
Fixpoint file_lines_scanf (fuel : nat) (file : list ascii) : outcome (option (list ascii)) :=
  match fuel with
  | O => Timeout
  | S fuel' =>
      match fgets BUFSIZ file with
      | None => Done None
      | Some (line, file') =>
          match scan_id line with Some id => Done (Some id) | None => file_lines_scanf fuel' file' end
      end
  end.

(** Names that the version itself tells. *)
Definition kver_names : list (list ascii * list ascii) :=
  [(chars ".el5uek", chars "OL5UEK"); (chars ".el5", chars "RHEL5"); (chars ".el6uek", chars "OL6UEK");
   (chars ".el6", chars "RHEL6"); (chars ".el7", chars "RHEL7"); (chars ".el8", chars "RHEL8")].

Fixpoint kver_name (names : list (list ascii * list ascii)) (kver : list ascii) : option (list ascii) :=
  match names with
  | [] => None
  | (pat, name) :: names' => if strstr kver pat then Some name else kver_name names' kver
  end.

(** What the library does: give an answer or break the test. *)
Inductive answer (A : Type) := Answer (a : A) | Breaks.
Arguments Answer {A}. Arguments Breaks {A}.

(** [distname] has 64 bytes. *)
Definition tst_kvcmp_distname (os_release : option (list ascii)) (kver : list ascii) : outcome (answer (option (list ascii))) :=
  match kver_name kver_names kver with
  | Some name => Done (Answer (Some name))
  | None =>
      match os_release with
      | None => Done (Answer None)
      | Some file =>
          id ← file_lines_scanf (S (length file)) file;
          match id with
          | None => Done Breaks
          | Some distname =>
              if decide (length distname < 64)%nat then
                Done (Answer (Some (upper_name (if decide (head distname = Some DQUOTE) then tail distname else distname))))
              else Fault
          end
      end
  end.

Record tst_kern_exv := KernExv { dist_name : list ascii; extra_ver : list ascii }.

Fixpoint kvercmp2_loop (vers : list tst_kern_exv) (name kver : list ascii) (r1 r2 r3 : Z) : outcome (answer (bool * Z)) :=
  match vers with
  | [] => d ← tst_kvcmp kver r1 r2 r3; Done (Answer d)
  | v :: vers' =>
      if decide (dist_name v = name) then d ← tst_kvexcmp (extra_ver v) kver; Done (Answer (false, d))
      else kvercmp2_loop vers' name kver r1 r2 r3
  end.

Definition tst_kvercmp2 (os_release : option (list ascii)) (release : list ascii) (r1 r2 r3 : Z) (vers : list tst_kern_exv) :
    outcome (answer (bool * Z)) :=
  cur_dist_name ← tst_kvcmp_distname os_release release;
  match cur_dist_name with
  | Breaks => Done Breaks
  | Answer None => d ← tst_kvercmp release r1 r2 r3; Done (Answer d)
  | Answer (Some name) => kvercmp2_loop vers name release r1 r2 r3
  end.

(** ** Versions as text *)

Lemma scan_print_u v rest : 0 ≤ v → no_digit 10 rest →
  ∃ n, skip_sign (drop_while isspace (print_u v ++ rest)) = (false, print_u v ++ rest) ∧
    scan_digits 10 0 0 (print_u v ++ rest) = (v, n, rest) ∧ n ≠ 0%nat.
Proof.
  intros Hv Hr. exists (ndigits 10 v). split_and!; [by apply plain_head_skip, plain_head_print| |].
  - by apply scan_print.
  - pose proof (ndigits_pos 10 v). lia.
Qed.

Lemma parse_digit_print v rest : 0 ≤ v ≤ INT_MAX → no_digit 10 rest → parse_digit (print_u v ++ rest) = Some (v, rest).
Proof.
  intros Hv Hr. destruct (scan_print_u v rest) as (n & E1 & E2 & Hn); [lia|done|]. unfold parse_digit. rewrite E1, E2.
  rewrite decide_False by done. assert (u64 (strtoul_value false v) = v) as ->.
  { unfold strtoul_value. rewrite decide_False by clia. unfold u64. by rewrite Z.mod_small by clia. }
  by rewrite decide_False by lia.
Qed.

Lemma scan_d_print v rest : 0 ≤ v ≤ INT_MAX → no_digit 10 rest → scan_d (print_u v ++ rest) = Some (v, rest).
Proof.
  intros Hv Hr. destruct (scan_print_u v rest) as (n & E1 & E2 & Hn); [lia|done|]. unfold scan_d. rewrite E1, E2.
  rewrite decide_False by done. unfold strtol_value. rewrite Z.min_r by clia. by rewrite wrap32_small by clia.
Qed.

(** The order of lists of numbers of the same length. *)
Fixpoint lex (l l' : list Z) : comparison :=
  match l, l' with
  | x :: l, y :: l' => match x ?= y with Eq => lex l l' | c => c end
  | _, _ => Eq
  end.

Definition kver_text (v1 v2 v3 : Z) (rest : list ascii) : list ascii :=
  print_u v1 ++ "."%char :: print_u v2 ++ "."%char :: print_u v3 ++ rest.

Lemma parse_kver_text v1 v2 v3 rest :
  0 ≤ v1 ≤ INT_MAX → 0 ≤ v2 ≤ INT_MAX → 0 ≤ v3 ≤ INT_MAX → no_digit 10 rest →
  tst_parse_kver (kver_text v1 v2 v3 rest) = (0, (v1, v2, v3)).
Proof.
  intros H1 H2 H3 Hr. unfold tst_parse_kver, kver_text. rewrite parse_digit_print by done. cbn [expect mbind option_bind].
  rewrite decide_True by done. cbn [mbind option_bind]. rewrite parse_digit_print by done.
  rewrite decide_False by (intros [|]; done). cbn [expect]. rewrite decide_True by done. cbn [mbind option_bind].
  by rewrite parse_digit_print.
Qed.

Lemma version_code_ok a b c : 0 ≤ a < 32768 → 0 ≤ b < 256 → 0 ≤ c < 512 → a * 65536 + b * 256 + c ≤ INT_MAX →
  version_code a b c = Done (a * 65536 + b * 256 + c).
Proof.
  intros Ha Hb Hc Hs. unfold version_code, shl32. rewrite !decide_True by lia. cbn [mbind outcome_bind].
  change (2 ^ 16) with 65536. change (2 ^ 8) with 256. rewrite !wrap32_small by clia. by crun.
Qed.

(** C40: With numbers that fit their bytes, tst_kvcmp() is negative, zero or positive as the
    release of the kernel is older than the version, the same or newer. *)
Theorem tst_kvcmp_order a1 a2 a3 rest r1 r2 r3 :
  0 ≤ a1 < 32768 → 0 ≤ a2 < 256 → 0 ≤ a3 < 256 → no_digit 10 rest →
  0 ≤ r1 < 32768 → 0 ≤ r2 < 256 → 0 ≤ r3 < 256 →
  ∃ d, tst_kvcmp (kver_text a1 a2 a3 rest) r1 r2 r3 = Done (false, d) ∧ (d ?= 0) = lex [a1; a2; a3] [r1; r2; r3].
Proof.
  intros Ha1 Ha2 Ha3 Hr Hr1 Hr2 Hr3. unfold tst_kvcmp. rewrite parse_kver_text by (done || clia).
  rewrite !version_code_ok by clia. cbn [mbind outcome_bind]. rewrite i32_ok by clia. cbn [mbind outcome_bind].
  eexists. split; [done|]. cbn [lex].
  destruct (Z.compare_spec a1 r1) as [->|?|?]; [|apply Z.compare_lt_iff; lia|apply Z.compare_gt_iff; lia].
  destruct (Z.compare_spec a2 r2) as [->|?|?]; [|apply Z.compare_lt_iff; lia|apply Z.compare_gt_iff; lia].
  destruct (Z.compare_spec a3 r3) as [->|?|?]; [apply Z.compare_eq_iff|apply Z.compare_lt_iff|apply Z.compare_gt_iff]; lia.
Qed.

Lemma tst_kvcmp_order_witness :
  ∃ d, tst_kvcmp (chars "4.19.94-rt39") 5 1 0 = Done (false, d) ∧ (d ?= 0) = Lt.
Proof.
  apply (tst_kvcmp_order 4 19 94 (chars "-rt39") 5 1 0); by_decide.
Defined.

(** C37: The third number has one byte only: the release N.M.256, which stable kernels have
    reached, counts as N.(M+1).0, and tests for the newer kernel run on it. *)
Theorem tst_kvcmp_sublevel a1 a2 k rest :
  0 ≤ a1 < 32768 → 0 ≤ a2 < 255 → 0 ≤ k < 256 → no_digit 10 rest →
  tst_kvcmp (kver_text a1 a2 (256 + k) rest) a1 (a2 + 1) k = Done (false, 0) ∧ lex [a1; a2; 256 + k] [a1; a2 + 1; k] = Lt.
Proof.
  intros Ha1 Ha2 Hk Hr. split.
  - unfold tst_kvcmp. rewrite parse_kver_text by (done || clia). rewrite !version_code_ok by clia. cbn [mbind outcome_bind].
    rewrite i32_ok by clia. cbn [mbind outcome_bind]. do 2 f_equal. lia.
  - cbn [lex]. rewrite Z.compare_refl. by destruct (Z.compare_spec a2 (a2 + 1)); [lia| |lia].
Qed.

Lemma tst_kvcmp_sublevel_witness : tst_kvcmp (chars "4.9.256") 4 10 0 = Done (false, 0) ∧ lex [4; 9; 256] [4; 10; 0] = Lt.
Proof. apply (tst_kvcmp_sublevel 4 9 0 []); by_decide. Defined.

(** ** Distributions *)

Definition exv_text (v : list Z) (rest : list ascii) : list ascii :=
  match v with
  | [v1; v2; v3; v4; v5] =>
      print_u v1 ++ "."%char :: print_u v2 ++ "."%char :: print_u v3 ++ "-"%char :: print_u v4 ++ "."%char :: print_u v5 ++ rest
  | _ => []
  end.

Lemma scan_version_text v rest :
  length v = 5%nat → Forall (λ x, 0 ≤ x ≤ INT_MAX) v → no_digit 10 rest → scan_version (exv_text v rest) = v.
Proof.
  intros Hl Hv Hr. destruct v as [|v1 [|v2 [|v3 [|v4 [|v5 []]]]]]; try done. rewrite !Forall_cons in Hv.
  destruct Hv as (H1 & H2 & H3 & H4 & H5 & _). unfold scan_version, exv_text. cbn [scan_numbers].
  do 4 (rewrite scan_d_print by done; cbn [expect]; rewrite decide_True by done). rewrite scan_d_print by done. done.
Qed.

Lemma compare_numbers_lex l l' :
  Forall (λ x, 0 ≤ x ≤ INT_MAX) l → Forall (λ x, 0 ≤ x ≤ INT_MAX) l' → ∃ d, compare_numbers l l' = Done d ∧ (d ?= 0) = lex l l'.
Proof.
  intros Hl. revert l'. induction Hl as [|x l Hx _ IH]; intros l' Hl'; [by exists 0|]. destruct l' as [|y l']; [by exists 0|].
  apply Forall_cons in Hl' as [Hy Hl']. cbn. rewrite i32_ok by clia. cbn [mbind outcome_bind].
  destruct (decide (x - y ≠ 0)) as [Hne|He].
  - exists (x - y). split; [done|]. destruct (Z.compare_spec x y); [lia|apply Z.compare_lt_iff; lia|apply Z.compare_gt_iff; lia].
  - assert (x = y) as -> by lia. rewrite Z.compare_refl. by apply IH.
Qed.

(** The file of the lines. *)
Definition file_of (lines : list (list ascii)) : list ascii := concat ((λ l, l ++ [NEWLINE]) <$> lines).

Definition fine_line (l : list ascii) : Prop := NEWLINE ∉ l ∧ (length l < BUFSIZ - 1)%nat.

Lemma fgets_fine l rest : fine_line l → fgets BUFSIZ (l ++ NEWLINE :: rest) = Some (l ++ [NEWLINE], rest).
Proof.
  intros [Hn Hl]. assert (BUFSIZ = S (BUFSIZ - 1)) as -> by (vm_compute; reflexivity). by apply fgets_line.
Qed.

Lemma file_of_cons l lines : file_of (l :: lines) = l ++ NEWLINE :: file_of lines.
Proof. unfold file_of. cbn. by rewrite <- app_assoc. Qed.

Lemma file_lines_found pre line post id : ∀ fuel,
  Forall (λ l, fine_line l ∧ scan_id (l ++ [NEWLINE]) = None) pre → fine_line line → scan_id (line ++ [NEWLINE]) = Some id →
  (length (file_of (pre ++ line :: post)) < fuel)%nat →
  file_lines_scanf fuel (file_of (pre ++ line :: post)) = Done (Some id).
Proof.
  induction pre as [|l pre IH]; intros [|fuel] Hpre Hline Hid Hfuel; try lia; cbn [file_lines_scanf app].
  - by rewrite file_of_cons, fgets_fine, Hid.
  - apply Forall_cons in Hpre as [[Hl Hnone] Hpre]. rewrite file_of_cons, fgets_fine, Hnone by done. apply IH; [done..|].
    cbn [app] in Hfuel. rewrite file_of_cons, length_app in Hfuel. cbn in Hfuel. lia.
Qed.

(** The line of the name, with or without quotation marks. *)
Definition id_line (quoted : bool) (name : list ascii) : list ascii :=
  chars "ID=" ++ (if quoted then DQUOTE :: name ++ [DQUOTE] else name).

(** A name of ordinary characters. *)
Definition fine_name (name : list ascii) : Prop :=
  name ≠ [] ∧ (length name < 62)%nat ∧ Forall (λ c, isspace c = false ∧ c ≠ DQUOTE) name.

Lemma scan_id_line quoted name : fine_name name →
  scan_id (id_line quoted name ++ [NEWLINE]) = Some (if quoted then DQUOTE :: name ++ [DQUOTE] else name).
Proof.
  intros (Hne & _ & Hf). unfold scan_id, id_line. set (w := if quoted then _ else _).
  assert (Forall (λ c, negb (isspace c)) w) as Hw.
  { assert (Forall (λ c, negb (isspace c)) name) by (eapply Forall_impl; [done|]; by intros c [-> _]).
    destruct quoted; [|done]. apply Forall_cons. split; [done|]. apply Forall_app. by repeat constructor. }
  assert (w ≠ []) as Hwne by (by destruct quoted).
  change (starts_with (chars "ID=") ((chars "ID=" ++ w) ++ [NEWLINE])) with true.
  change (drop 3 ((chars "ID=" ++ w) ++ [NEWLINE])) with (w ++ [NEWLINE]). cbv iota.
  assert (drop_while isspace (w ++ [NEWLINE]) = w ++ [NEWLINE]) as ->.
  { destruct w as [|c w']; [done|]. apply Forall_cons in Hw as [Hc _]. cbn. by destruct (isspace c). }
  destruct (take_while_app (λ c, negb (isspace c)) w NEWLINE []) as [-> _]; [done|done|]. by rewrite decide_False.
Qed.

Lemma id_line_fine quoted name : fine_name name → fine_line (id_line quoted name).
Proof.
  intros (_ & Hl & Hf). split.
  - assert (NEWLINE ∉ name) as Hn.
    { intros Hin. rewrite Forall_forall in Hf. by destruct (Hf _ Hin). }
    unfold id_line. destruct quoted; rewrite !not_elem_of_app, ?not_elem_of_cons, ?not_elem_of_app; (split_and!; [by_decide|..]); done || by_decide.
  - assert (length (id_line quoted name) ≤ 66)%nat by (unfold id_line; destruct quoted; cbn; rewrite ?length_app; cbn; lia).
    assert (66 < BUFSIZ - 1)%nat by (apply Nat.ltb_lt; vm_compute; reflexivity). lia.
Qed.

Lemma upper_name_fine name rest : Forall (λ c, c ≠ DQUOTE) name → upper_name (name ++ rest) = (toupper <$> name) ++ upper_name rest.
Proof. induction 1 as [|c name Hc _ IH]; [done|]. cbn. rewrite decide_False by done. by rewrite IH. Qed.

Lemma distname_os_release pre quoted name post kver :
  kver_name kver_names kver = None → fine_name name → Forall (λ l, fine_line l ∧ scan_id (l ++ [NEWLINE]) = None) pre →
  tst_kvcmp_distname (Some (file_of (pre ++ id_line quoted name :: post))) kver = Done (Answer (Some (toupper <$> name))).
Proof.
  intros Hk Hname Hpre. pose proof Hname as (Hne & Hlen & Hf). unfold tst_kvcmp_distname. rewrite Hk.
  rewrite (file_lines_found pre (id_line quoted name) post (if quoted then DQUOTE :: name ++ [DQUOTE] else name)); [|done| |by apply scan_id_line|lia].
  2:{ apply id_line_fine. done. }
  cbn [mbind outcome_bind].
  assert (Forall (λ c, c ≠ DQUOTE) name) as Hq by (eapply Forall_impl; [done|]; by intros c [_ ?]).
  rewrite decide_True by (destruct quoted; cbn; rewrite ?length_app; cbn; lia). do 3 f_equal. destruct quoted.
  - cbn [head tail]. rewrite decide_True by done. rewrite upper_name_fine by done. apply app_nil_r.
  - destruct name as [|c name]; [done|]. apply Forall_cons in Hq as [Hc Hq]. cbn [head]. rewrite decide_False by congruence.
    rewrite <- (app_nil_r (c :: name)) at 1. rewrite upper_name_fine by (by apply Forall_cons). apply app_nil_r.
Qed.

(** On a distribution that tst_kvercmp2() knows by /etc/os-release and for which the test
    gives a version, the five numbers of the two kernels are compared, and the three
    numbers for other distributions do not count. *)
Theorem tst_kvercmp2_distribution pre quoted name post r1 r2 r3 v1 v2 t trest c crest :
  let release := exv_text c crest in
  kver_name kver_names release = None → fine_name name → Forall (λ l, fine_line l ∧ scan_id (l ++ [NEWLINE]) = None) pre →
  (toupper <$> name) ∉ dist_name <$> v1 → length t = 5%nat → length c = 5%nat →
  Forall (λ x, 0 ≤ x ≤ INT_MAX) t → Forall (λ x, 0 ≤ x ≤ INT_MAX) c → no_digit 10 trest → no_digit 10 crest →
  ∃ d, tst_kvercmp2 (Some (file_of (pre ++ id_line quoted name :: post))) release r1 r2 r3
      (v1 ++ KernExv (toupper <$> name) (exv_text t trest) :: v2) = Done (Answer (false, d)) ∧ (d ?= 0) = lex c t.
Proof.
  intros release Hk Hname Hpre Hv1 Ht5 Hc5 Ht Hc Htr Hcr. unfold tst_kvercmp2. rewrite distname_os_release by done.
  cbn [mbind outcome_bind]. destruct (compare_numbers_lex c t) as (d & Hd & Hlex); [done..|]. exists d. split; [|done].
  induction v1 as [|v v1 IH]; cbn [app kvercmp2_loop].
  - rewrite decide_True by done. unfold tst_kvexcmp, release. cbn [extra_ver]. rewrite !scan_version_text by done. by rewrite Hd.
  - cbn in Hv1. apply not_elem_of_cons in Hv1 as [Hne Hv1]. rewrite decide_False by congruence. by apply IH.
Qed.

Lemma tst_kvercmp2_distribution_witness :
  ∃ d, tst_kvercmp2 (Some (file_of [chars "NAME=Ubuntu"; id_line false (chars "ubuntu")])) (chars "4.4.0-21.37-generic") 4 7 0
      [KernExv (chars "RHEL7") (chars "3.10.0-514.1"); KernExv (chars "UBUNTU") (chars "4.4.0-21.36")] = Done (Answer (false, d)) ∧ (d ?= 0) = Gt.
Proof.
  apply (tst_kvercmp2_distribution [chars "NAME=Ubuntu"] false (chars "ubuntu") [] 4 7 0 [KernExv (chars "RHEL7") (chars "3.10.0-514.1")] []
    [4; 4; 0; 21; 36] [] [4; 4; 0; 21; 37] (chars "-generic")).
  - vm_compute. reflexivity.
  - by_decide.
  - by_decide.
  - by_decide.
  - reflexivity.
  - reflexivity.
  - by_decide.
  - by_decide.
  - exact I.
  - exact I.
Defined.
