(* ===== verification/RandomRange.v ===== *)
(** * Random numbers in ranges: lib/random_range.c

    Parsing lists of ranges, drawing a multiple from a range in three integer
    widths, and drawing a set bit of a mask.  The generator behind lrand48() is
    a parameter: its state and its step. *)
From stdpp Require Import base strings numbers option list.
From Stdlib Require Import Ascii.
From S2P Require Import Prelude CInt CText.

#[local] Open Scope Z_scope.

(** ** Range lists *)

Record range := Range { min : Z; max : Z; mult : Z }.

#[export] Instance range_eq_dec : EqDecision range.
Proof. solve_decision. Defined.

(** A parse function: a failure, or a value for the [int] it points to. *)
Abbreviation parse_fn := (list ascii → option Z).

(** strtok() over the whole string: the maximal runs without a separator. *)
Fixpoint strtok_all (sep : ascii) (s cur : list ascii) : list (list ascii) :=
  match s with
  | [] => match cur with [] => [] | _ => [cur] end
  | c :: s' =>
      if decide (c = sep) then
        match cur with [] => strtok_all sep s' [] | _ => cur :: strtok_all sep s' [] end
      else strtok_all sep s' (cur ++ [c])
  end.

(** Cut a string at the first [c]: what is before, and what is behind if any. *)
Fixpoint cut_at (c : ascii) (s : list ascii) : list ascii * option (list ascii) :=
  match s with
  | [] => ([], None)
  | d :: s' =>
      if decide (d = c) then ([], Some s')
      else let '(a, b) := cut_at c s' in (d :: a, b)
  end.

(** A field that may be empty, with the value it has then. *)
Definition parse_field (parse_func : parse_fn) (str : list ascii) (dflt : Z) : option Z :=
  if decide (0 < length str)%nat then parse_func str else Some dflt.

(** The loop body for one token. *)
Definition parse_token (parse_func : parse_fn) (defmin defmax defmult : Z) (tok : list ascii)
    : option range :=
  let '(n1str, rest) := cut_at ":" tok in
  let '(n2str, multstr) :=
    match rest with
    | None => (None, None)
    | Some n2 => let '(n2, m) := cut_at ":" n2 in (Some n2, m)
    end in
  mn ← parse_field parse_func n1str defmin;
  mx ← match n2str with
       | None => Some mn
       | Some n2 => parse_field parse_func n2 defmax
       end;
  ml ← match multstr with
       | None => Some defmult
       | Some m => parse_field parse_func m defmult
       end;
  Some (Range mn mx ml).

(** The loop over the tokens; [rp] counts the entries already stored in the
    array of [size] entries. *)
Fixpoint parse_tokens (parse_func : parse_fn) (defmin defmax defmult : Z) (size rp : nat)
    (toks : list (list ascii)) : outcome (option (list range)) :=
  match toks with
  | [] => Done (Some [])
  | tok :: toks' =>
      if decide (size ≤ rp)%nat then Fault
      else
        match parse_token parse_func defmin defmax defmult tok with
        | None => Done None
        | Some r =>
            rs ← parse_tokens parse_func defmin defmax defmult size (S rp) toks';
            Done (option_map (cons r) rs)
        end
  end.

Definition count_char (c : ascii) (s : list ascii) : nat := length (filter (c =.) s).

(** The conversion %i: white space, a sign, a prefix that selects the base; the
    value is limited to the range of long before it is stored in an int. *)
Definition scan_i (s : list ascii) : option (Z * list ascii) :=
  let '(neg, s) := skip_sign (drop_while isspace s) in
  let '(base, s) :=
    match s with
    | c :: d :: s' =>
        if decide (c = "0"%char)
        then if decide (d = "x"%char ∨ d = "X"%char) then (16, s') else (8, s)
        else (10, s)
    | _ => (10, s)
    end in
  let '(v, n, rest) := scan_digits base 0 0 s in
  if decide (n = 0%nat) then None
  else
    let v := if neg : bool then Z.max LONG_MIN (- v) else Z.min LONG_MAX v in
    Some (wrap32 v, rest).

(** [sscanf(str, "%i%c", ip, &c) != 1] *)
Definition str_to_int : parse_fn := λ str,
  match scan_i str with Some (v, []) => Some v | _ => None end.

(** The number of ranges and the array, or the error return. *)
Definition parse_ranges (str : list ascii) (defmin defmax defmult : Z)
    (parse_func : option parse_fn) : outcome (option (nat * list range)) :=
  let ncommas := count_char "," str in
  let parse_func := default str_to_int parse_func in
  rs ← parse_tokens parse_func defmin defmax defmult (ncommas + 1) 0 (strtok_all "," str []);
  Done (option_map (λ rs, (length rs, rs)) rs).

Definition range_min (rbuf : list range) (r : nat) : outcome Z := x ← load (rbuf !! r); Done (min x).
Definition range_max (rbuf : list range) (r : nat) : outcome Z := x ← load (rbuf !! r); Done (max x).
Definition range_mult (rbuf : list range) (r : nat) : outcome Z := x ← load (rbuf !! r); Done (mult x).

(** ** Random numbers *)

(** What the static error buffer holds. *)
Inductive range_err :=
  | ErrMult
  | ErrNoMultiple (orig_min orig_max orig_mult : Z).

#[export] Instance range_err_eq_dec : EqDecision range_err.
Proof. solve_decision. Defined.

(** The store through [errp]: none when it is a null pointer. *)
Definition set_errp (errp : bool) (e : option range_err) : option (option range_err) :=
  if errp then Some e else None.

Section random.
(** The generator: lrand48() steps a state and returns a number. *)
Context {G : Type} (lrand48 : G → Z * G).

(** [cnt > 32] ends the recursion, so 34 levels are enough. *)
Fixpoint divider (fuel : nat) (min max cnt rand : Z) (g : G) : outcome (Z * G) :=
  match fuel with
  | O => Timeout
  | S fuel' =>
      if decide (32 < cnt) then Done (-1, g)
      else
        let '(rand, g) := if decide (cnt = 0 ∨ rand < -1) then lrand48 g else (rand, g) in
        diff ← i64 (max - min);
        if decide (diff ≤ 2147483647) then v ← i64 (min + rand); Done (v, g)
        else
          let half := Z.quot diff 2 in
          med ← i64 (min + half);
          if decide (half ≤ 2147483647) then
            b ← shl32 1 cnt;
            if decide (Z.land rand b ≠ 0) then v ← i64 (med + rand); Done (v, g)
            else v ← i64 (min + rand); Done (v, g)
          else
            b ← shl32 1 cnt;
            if decide (Z.land rand b ≠ 0) then divider fuel' med max (cnt + 1) rand g
            else divider fuel' min med (cnt + 1) rand g
  end.

Definition DIVIDER_LEVELS : nat := 34.

(** The part the three functions share, for a type whose arithmetic is [chk]:
    the checks, the swap, the rounding to multiples and their number; [select]
    is what each does with them. *)
Definition random_range_with (chk : Z → outcome Z)
    (select : Z → Z → Z → Z → G → outcome (Z * G))
    (min max mult : Z) (errp : bool) (g : G)
    : outcome (Z * option (option range_err) * G) :=
  if decide (mult < 1) then Done (-1, set_errp errp (Some ErrMult), g)
  else
    let orig_min := min in
    let orig_max := max in
    let orig_mult := mult in
    let '(min, max) := if decide (max < min) then (max, min) else (min, max) in
    let r := Z.rem min mult in
    min ← (if decide (r ≠ 0) then d ← chk (mult - r); chk (min + d) else Done min);
    let r := Z.rem max mult in
    max ← (if decide (r ≠ 0) then chk (max - r) else Done max);
    if decide (max < min) then
      Done (-1, set_errp errp (Some (ErrNoMultiple orig_min orig_max orig_mult)), g)
    else
      d ← chk (max - min);
      nmults ← chk (Z.quot d mult + 1);
      '(v, g) ← select min max nmults mult g;
      Done (v, set_errp errp None, g).

(** [min + ((lrand48() % nmults) * mult)], in long arithmetic. *)
Definition select_lrand48 (min max nmults mult : Z) (g : G) : outcome (Z * G) :=
  let '(x, g) := lrand48 g in
  p ← i64 (Z.rem x nmults * mult);
  v ← i64 (min + p);
  Done (v, g).

Definition select_divider (min max nmults mult : Z) (g : G) : outcome (Z * G) :=
  if decide (max ≤ 2147483647) then select_lrand48 min max nmults mult g
  else
    '(randnum, g) ← divider DIVIDER_LEVELS min max 0 (-1) g;
    p ← i64 (Z.rem randnum nmults * mult);
    v ← i64 (min + p);
    Done (v, g).

Definition random_range := random_range_with i32 select_lrand48.
Definition random_rangel := random_range_with i64 select_lrand48.
Definition random_rangell := random_range_with i64 select_divider.

(** ** Random bits *)

Fixpoint count_bits (n : nat) (mask bit : Z) (nbits : Z) : Z :=
  match n with
  | O => nbits
  | S n' => count_bits n' mask (wrap64 (bit * 2)) (if decide (Z.land mask bit ≠ 0) then nbits + 1 else nbits)
  end.

Fixpoint shift_to (fuel : nat) (mask bit nshift : Z) : outcome Z :=
  if decide (bit = 0) then Done nshift
  else
    match fuel with
    | O => Timeout
    | S fuel' =>
        shift_to fuel' (Z.shiftr mask 1) (if decide (Z.land mask 1 ≠ 0) then bit - 1 else bit)
          (nshift + 1)
    end.

Definition random_bit (mask : Z) (g : G) : outcome (Z * G) :=
  if decide (mask = 0) then Done (0, g)
  else
    let nbits := count_bits 64 mask 1 0 in
    '(bit, _, g) ← random_range 1 nbits 1 false g;
    nshift ← shift_to 64 mask bit 0;
    v ← shl64 1 (nshift - 1);
    Done (v, g).
End random.

Definition random_range_seed {G} (srand48 : Z → G) (s : Z) : G := srand48 s.

(** * Range lists: what the parser returns *)

Lemma strtok_all_length sep s cur :
  (length (strtok_all sep s cur) ≤ count_char sep s + 1)%nat.
Proof.
  unfold count_char. revert cur. induction s as [|c s IH]; intros cur; simpl.
  { destruct cur; simpl; lia. }
  rewrite filter_cons. destruct (decide (c = sep)) as [->|Hc].
  - rewrite (decide_True (P := sep = sep)) by done.
    specialize (IH []). destruct cur; simpl; lia.
  - rewrite (decide_False (P := sep = c)) by congruence. apply IH.
Qed.

(** The array of [ncommas + 1] entries is large enough for every string. *)
Lemma parse_tokens_mapM pf dmin dmax dmult size toks rp :
  (rp + length toks ≤ size)%nat →
  parse_tokens pf dmin dmax dmult size rp toks = Done (mapM (parse_token pf dmin dmax dmult) toks).
Proof.
  revert rp. induction toks as [|t toks IH]; intros rp Hl; [done|]. simpl in *.
  rewrite decide_False by lia.
  destruct (parse_token pf dmin dmax dmult t) as [r|]; [|done].
  rewrite IH by lia. simpl. by destruct (mapM _ toks).
Qed.

Lemma parse_ranges_tokens str dmin dmax dmult pf :
  parse_ranges str dmin dmax dmult pf =
  Done (option_map (λ rs, (length rs, rs))
          (mapM (parse_token (default str_to_int pf) dmin dmax dmult) (strtok_all "," str []))).
Proof.
  unfold parse_ranges. rewrite parse_tokens_mapM; [done|].
  pose proof (strtok_all_length "," str []). lia.
Qed.

(** The forms of a token, and their text. *)
Inductive rspec :=
  | RNum (n : list ascii)
  | RPair (n1 n2 : list ascii)
  | RTriple (n1 n2 m : list ascii).

Definition spec_text (r : rspec) : list ascii :=
  match r with
  | RNum n => n
  | RPair n1 n2 => n1 ++ ":"%char :: n2
  | RTriple n1 n2 m => n1 ++ ":"%char :: n2 ++ ":"%char :: m
  end.

Definition plain (s : list ascii) : Prop := ":"%char ∉ s ∧ ","%char ∉ s.

Definition wf_spec (r : rspec) : Prop :=
  match r with
  | RNum n => n ≠ [] ∧ plain n
  | RPair n1 n2 => plain n1 ∧ plain n2
  | RTriple n1 n2 m => plain n1 ∧ plain n2 ∧ plain m
  end.

(** What a token means: empty fields take the defaults, one number is both ends. *)
Definition spec_range (pf : parse_fn) (dmin dmax dmult : Z) (r : rspec) : option range :=
  let field s d := match s with [] => Some d | _ => pf s end in
  match r with
  | RNum n => v ← pf n; Some (Range v v dmult)
  | RPair n1 n2 =>
      v1 ← field n1 dmin; v2 ← field n2 dmax; Some (Range v1 v2 dmult)
  | RTriple n1 n2 m =>
      v1 ← field n1 dmin; v2 ← field n2 dmax; v3 ← field m dmult; Some (Range v1 v2 v3)
  end.

Definition specs_text (rs : list rspec) : list ascii :=
  match rs with
  | [] => []
  | r :: rs => spec_text r ++ concat ((λ r, ","%char :: spec_text r) <$> rs)
  end.

Lemma cut_at_found c a b : c ∉ a → cut_at c (a ++ c :: b) = (a, Some b).
Proof.
  induction a as [|d a IH]; intros Ha; simpl; [by rewrite decide_True|].
  apply not_elem_of_cons in Ha as [Hne Ha]. rewrite decide_False by congruence. by rewrite IH.
Qed.

Lemma cut_at_none c a : c ∉ a → cut_at c a = (a, None).
Proof.
  induction a as [|d a IH]; intros Ha; simpl; [done|].
  apply not_elem_of_cons in Ha as [Hne Ha]. rewrite decide_False by congruence. by rewrite IH.
Qed.

Lemma parse_field_eq pf s d :
  parse_field pf s d = match s with [] => Some d | _ => pf s end.
Proof. unfold parse_field. by destruct s. Qed.

Lemma parse_token_spec pf dmin dmax dmult r :
  wf_spec r → parse_token pf dmin dmax dmult (spec_text r) = spec_range pf dmin dmax dmult r.
Proof.
  unfold parse_token. destruct r as [n|n1 n2|n1 n2 m]; simpl.
  - intros (Hne & Hc & _). rewrite cut_at_none, parse_field_eq by done. by destruct n.
  - intros ((H1 & _) & H2 & _). rewrite cut_at_found, cut_at_none by done. by rewrite !parse_field_eq.
  - intros ((H1 & _) & (H2 & _) & H3 & _).
    rewrite !cut_at_found by done. by rewrite !parse_field_eq.
Qed.

Lemma spec_text_plain r : wf_spec r → spec_text r ≠ [] ∧ ","%char ∉ spec_text r.
Proof.
  destruct r as [n|n1 n2|n1 n2 m]; simpl.
  - by intros (? & _ & ?).
  - intros ((_ & ?) & _ & ?). split; [by destruct n1|].
    rewrite elem_of_app, elem_of_cons. naive_solver.
  - intros ((_ & ?) & (_ & ?) & _ & ?). split; [by destruct n1|].
    rewrite !elem_of_app, !elem_of_cons, elem_of_app, elem_of_cons. naive_solver.
Qed.

Lemma strtok_all_skip sep a s cur :
  sep ∉ a → strtok_all sep (a ++ s) cur = strtok_all sep s (cur ++ a).
Proof.
  revert cur. induction a as [|c a IH]; intros cur Ha; simpl; [by rewrite app_nil_r|].
  apply not_elem_of_cons in Ha as [Hne Ha]. rewrite decide_False, IH by congruence.
  by rewrite <-app_assoc.
Qed.

Lemma strtok_all_specs rs : Forall wf_spec rs → strtok_all "," (specs_text rs) [] = spec_text <$> rs.
Proof.
  intros Hrs. destruct Hrs as [|r rs Hr Hrs]; [done|].
  revert r Hr. induction Hrs as [|r' rs Hr' _ IH]; intros r Hr;
    destruct (spec_text_plain r Hr) as [Hne Hc]; unfold specs_text in *.
  - rewrite strtok_all_skip by done. simpl. by destruct (spec_text r).
  - rewrite !fmap_cons in *. cbn [concat]. rewrite strtok_all_skip by done. cbn [strtok_all app].
    rewrite decide_True by done. rewrite (IH r' Hr'). by destruct (spec_text r).
Qed.

Lemma parse_ranges_spec rs dmin dmax dmult pf :
  Forall wf_spec rs →
  parse_ranges (specs_text rs) dmin dmax dmult pf =
  Done (option_map (λ l, (length rs, l)) (mapM (spec_range (default str_to_int pf) dmin dmax dmult) rs)).
Proof.
  intros Hrs. rewrite parse_ranges_tokens, strtok_all_specs by done. f_equal.
  assert (mapM (parse_token (default str_to_int pf) dmin dmax dmult) (spec_text <$> rs) =
          mapM (spec_range (default str_to_int pf) dmin dmax dmult) rs) as ->.
  { induction Hrs as [|r rs Hr _ IH]; [done|]. rewrite fmap_cons. simpl.
    rewrite parse_token_spec by done. destruct (spec_range _ _ _ _ r); [|done]. simpl. by rewrite IH. }
  destruct (mapM _ rs) as [l|] eqn:E; [|done]. simpl. apply mapM_Some, Forall2_length in E. by rewrite E.
Qed.

(** * Drawing from a range *)

(** The multiples of [m] next to [x], above and below. *)
Definition up (m x : Z) : Z := x + (- x) mod m.
Definition down (m x : Z) : Z := x - x mod m.

Definition in_range (lo hi m v : Z) : Prop := lo ≤ v ≤ hi ∧ (m | v).

Lemma up_spec m x : 0 < m → x ≤ up m x < x + m ∧ (m | up m x).
Proof.
  intros Hm. unfold up. pose proof (Z.mod_pos_bound (- x) m Hm). split; [lia|].
  exists (- (- x / m)). pose proof (Z.div_mod (- x) m). lia.
Qed.

Lemma down_spec m x : 0 < m → x - m < down m x ≤ x ∧ (m | down m x).
Proof.
  intros Hm. unfold down. pose proof (Z.mod_pos_bound x m Hm). split; [lia|].
  exists (x / m). pose proof (Z.div_mod x m). lia.
Qed.

Lemma in_range_iff lo hi m : 0 < m → (∃ v, in_range lo hi m v) ↔ up m lo ≤ down m hi.
Proof.
  intros Hm. destruct (up_spec m lo Hm) as [Hu [a Ha]]. destruct (down_spec m hi Hm) as [Hd [b Hb]].
  split.
  - intros (v & [Hlo Hhi] & [k Hk]). rewrite Ha, Hb in *. subst v.
    assert (a ≤ k) by nia. assert (k ≤ b) by nia. nia.
  - intros Hle. exists (up m lo). split; [lia|]. by exists a.
Qed.

(** C rounding on numbers that are not negative. *)
Lemma round_up m x : 0 < m → 0 ≤ x → (if decide (Z.rem x m ≠ 0) then x + (m - Z.rem x m) else x) = up m x.
Proof.
  intros Hm Hx. rewrite Z.rem_mod_nonneg by lia. unfold up. case_decide as Hr.
  - rewrite Z.mod_opp_l_nz by lia. lia.
  - rewrite Z.mod_opp_l_z by lia. lia.
Qed.

Lemma round_down m x : 0 < m → 0 ≤ x → (if decide (Z.rem x m ≠ 0) then x - Z.rem x m else x) = down m x.
Proof.
  intros Hm Hx. rewrite Z.rem_mod_nonneg by lia. unfold down. case_decide as Hr; [done|].
  lia.
Qed.

(** The number of multiples between two of them. *)
Definition nmults_of (m a b : Z) : Z := (b - a) / m + 1.

Lemma nmults_pick m a b k :
  0 < m → (m | a) → (m | b) → a ≤ b → 0 ≤ k < nmults_of m a b →
  a ≤ a + k * m ≤ b ∧ (m | a + k * m).
Proof.
  unfold nmults_of. intros Hm [x ->] [y ->] Hab Hk.
  replace (y * m - x * m) with ((y - x) * m) in Hk by lia. rewrite Z.div_mul in Hk by lia.
  split; [nia|]. exists (x + k). lia.
Qed.

Section correctness.
Context {G : Type} (lrand48 : G → Z * G).
Hypothesis lrand48_range : ∀ g, 0 ≤ (lrand48 g).1 ≤ INT_MAX.

(** The shared part, in a type that holds the numbers up to [M]. *)
Lemma random_range_with_ok chk M (select : Z → Z → Z → Z → G → outcome (Z * G)) (mn mx m : Z)
    (errp : bool) (g : G) :
  (∀ x, - M - 1 ≤ x ≤ M → chk x = Done x) →
  1 ≤ m → 0 ≤ mn → 0 ≤ mx → Z.min mn mx + m ≤ M → Z.max mn mx < M →
  let a := up m (Z.min mn mx) in
  let b := down m (Z.max mn mx) in
  random_range_with chk select mn mx m errp g =
  if decide (a ≤ b) then
    '(v, g) ← select a b (nmults_of m a b) m g; Done (v, set_errp errp None, g)
  else Done (-1, set_errp errp (Some (ErrNoMultiple mn mx m)), g).
Proof.
  intros Hchk Hm Hmn Hmx HM1 HM2 a b. unfold random_range_with. rewrite decide_False by lia.
  assert ((if decide (mx < mn) then (mx, mn) else (mn, mx)) = (Z.min mn mx, Z.max mn mx)) as ->.
  { case_decide; f_equal; lia. }
  set (lo := Z.min mn mx) in *. set (hi := Z.max mn mx) in *.
  assert (0 ≤ lo ≤ hi) as Hlohi by (unfold lo, hi; lia). clearbody lo hi.
  destruct (up_spec m lo) as [Hu Hua]; [lia|]. destruct (down_spec m hi) as [Hd Hdb]; [lia|].
  assert ((if decide (Z.rem lo m ≠ 0) then d ← chk (m - Z.rem lo m); chk (lo + d) else Done lo)
          = Done a) as ->.
  { unfold a. rewrite <-round_up by lia. pose proof (Z.rem_bound_pos lo m).
    case_decide; [|done]. rewrite Hchk by lia. simpl. apply Hchk. lia. }
  cbn [mbind outcome_bind].
  assert ((if decide (Z.rem hi m ≠ 0) then chk (hi - Z.rem hi m) else Done hi) = Done b) as ->.
  { unfold b. rewrite <-round_down by lia. pose proof (Z.rem_bound_pos hi m).
    case_decide; [|done]. apply Hchk. lia. }
  cbn [mbind outcome_bind]. fold a in Hu, Hua. fold b in Hd, Hdb. clearbody a b.
  destruct (decide (a ≤ b)) as [Hab|Hab]; [|by rewrite decide_True by lia].
  rewrite decide_False by lia. rewrite Hchk by lia. cbn [mbind outcome_bind].
  rewrite Z.quot_div_nonneg by lia.
  assert (0 ≤ (b - a) / m ≤ b - a) by (split; [apply Z.div_pos; lia|apply Z.div_le_upper_bound; nia]).
  rewrite Hchk by lia. done.
Qed.

(** Multiples up to [LONG_MAX]: the number drawn is one of them. *)
Lemma scale_ok m a b x :
  0 < m → 0 ≤ a → (m | a) → (m | b) → a ≤ b ≤ LONG_MAX → 0 ≤ x →
  let v := a + x mod nmults_of m a b * m in
  (p ← i64 (Z.rem x (nmults_of m a b) * m); i64 (a + p)) = Done v ∧ a ≤ v ≤ b ∧ (m | v).
Proof.
  intros Hm Ha Hda Hdb Hab Hx v.
  assert (0 < nmults_of m a b) as Hn.
  { unfold nmults_of. assert (0 ≤ (b - a) / m) by (apply Z.div_pos; lia). lia. }
  pose proof (Z.mod_pos_bound x _ Hn) as Hk.
  destruct (nmults_pick m a b _ Hm Hda Hdb (proj1 Hab) Hk) as [Hv Hdv].
  rewrite Z.rem_mod_nonneg by lia. fold v in Hv, Hdv.
  rewrite i64_ok by (unfold v in Hv; climits; nia). simpl. by rewrite i64_ok by clia.
Qed.

(** What a selection promises: it ends, with a multiple between the bounds. *)
Definition selects (select : Z → Z → Z → Z → G → outcome (Z * G)) (a b m : Z) (g : G) : Prop :=
  ∃ v g', select a b (nmults_of m a b) m g = Done (v, g') ∧ in_range a b m v.

Lemma select_lrand48_eq m a b g :
  0 < m → 0 ≤ a → (m | a) → (m | b) → a ≤ b ≤ LONG_MAX →
  select_lrand48 lrand48 a b (nmults_of m a b) m g =
  Done (a + (lrand48 g).1 mod nmults_of m a b * m, (lrand48 g).2).
Proof.
  intros Hm Ha Hda Hdb Hab. unfold select_lrand48. pose proof (lrand48_range g) as Hx.
  destruct (lrand48 g) as [x g']. simpl in *.
  destruct (scale_ok m a b x) as (Hs & _); [done..|lia|].
  apply outcome_bind_Done in Hs as (p & -> & Hs). simpl. by rewrite Hs.
Qed.

Lemma select_lrand48_ok m a b g :
  0 < m → 0 ≤ a → (m | a) → (m | b) → a ≤ b ≤ LONG_MAX → selects (select_lrand48 lrand48) a b m g.
Proof.
  intros Hm Ha Hda Hdb Hab. eexists _, _. split; [by apply select_lrand48_eq|].
  apply (scale_ok m a b (lrand48 g).1); try done. apply lrand48_range.
Qed.

Lemma shl32_one k : 0 ≤ k < 32 → ∃ b, shl32 1 k = Done b.
Proof. intros. unfold shl32. rewrite decide_True by lia. eauto. Qed.

(** Every level halves the distance, so the limit on the levels is not reached
    for distances up to 2^62, and the shift counts stay below the width. *)
Lemma divider_ok fuel mn mx cnt rand g :
  0 ≤ cnt ≤ 31 → 31 < cnt + Z.of_nat fuel → 0 ≤ mn → mn ≤ mx → mx + INT_MAX ≤ LONG_MAX →
  mx - mn ≤ 2 ^ (62 - cnt) → (cnt = 0 ∨ 0 ≤ rand ≤ INT_MAX) →
  ∃ v g', divider lrand48 fuel mn mx cnt rand g = Done (v, g') ∧ mn ≤ v.
Proof.
  revert mn mx cnt rand g.
  induction fuel as [|fuel IH]; intros mn mx cnt rand g Hc Hf H0 Hle HM Hd Hr; [lia|]. cbn [divider].
  rewrite decide_False by lia.
  assert (∃ x g', (if decide (cnt = 0 ∨ rand < -1) then lrand48 g else (rand, g)) = (x, g') ∧
                  0 ≤ x ≤ INT_MAX) as (x & g' & -> & Hx).
  { pose proof (lrand48_range g). destruct (lrand48 g) as [x g']. simpl in *. case_decide; eauto.
    exists rand, g. split; [done|]. lia. }
  rewrite (i64_ok (mx - mn)) by clia. cbn [mbind outcome_bind]. case_decide as Hs.
  { rewrite i64_ok by clia. cbn [mbind outcome_bind]. eexists _, _. split; [done|]. lia. }
  rewrite Z.quot_div_nonneg by lia. pose proof (Z.div_mod (mx - mn) 2).
  pose proof (Z.mod_pos_bound (mx - mn) 2). set (h := (mx - mn) / 2) in *. clearbody h.
  rewrite (i64_ok (mn + h)) by clia. cbn [mbind outcome_bind]. destruct (shl32_one cnt) as [b Hb]; [lia|].
  case_decide as Hh; rewrite Hb; cbn [mbind outcome_bind].
  { case_decide; rewrite i64_ok by clia; cbn [mbind outcome_bind]; eexists _, _; (split; [done|]); clia. }
  assert (2 ^ 32 ≤ 2 ^ (62 - cnt)) as Hpow by lia.
  assert (32 ≤ 62 - cnt) as Hcnt.
  { destruct (decide (32 ≤ 62 - cnt)); [done|]. exfalso.
    assert (2 ^ (62 - cnt) < 2 ^ 32) by (apply Z.pow_lt_mono_r; lia). lia. }
  assert (2 ^ (62 - cnt) = 2 * 2 ^ (62 - (cnt + 1))) as Heq.
  { replace (62 - cnt) with (Z.succ (62 - (cnt + 1))) by lia. rewrite Z.pow_succ_r; lia. }
  case_decide.
  - destruct (IH (mn + h) mx (cnt + 1) x g') as (v & g2 & -> & Hv); try lia.
    eexists _, _. split; [done|]. lia.
  - apply IH; lia.
Qed.

Lemma select_divider_ok m a b g :
  0 < m → 0 ≤ a → (m | a) → (m | b) → a ≤ b → b + INT_MAX ≤ LONG_MAX → b - a ≤ 2 ^ 62 →
  selects (select_divider lrand48) a b m g.
Proof.
  intros Hm Ha Hda Hdb Hab HM Hd. unfold selects, select_divider. case_decide.
  { apply select_lrand48_ok; try done. clia. }
  destruct (divider_ok DIVIDER_LEVELS a b 0 (-1) g) as (x & g' & -> & Hx);
    try (unfold DIVIDER_LEVELS; lia); try done. simpl.
  destruct (scale_ok m a b x) as (Hs & Hv); try done; [clia|lia|].
  apply outcome_bind_Done in Hs as (p & -> & Hs). simpl. rewrite Hs. simpl. eauto.
Qed.

(** The three functions, given their selection. *)
Lemma random_range_with_member chk M select (mn mx m : Z) errp g :
  (∀ x, - M - 1 ≤ x ≤ M → chk x = Done x) →
  1 ≤ m → 0 ≤ mn → 0 ≤ mx → Z.min mn mx + m ≤ M → Z.max mn mx < M →
  (∀ a b, Z.min mn mx ≤ a → a ≤ b → b ≤ Z.max mn mx → (m | a) → (m | b) → selects select a b m g) →
  ((∃ v, in_range (Z.min mn mx) (Z.max mn mx) m v) →
   ∃ v g', random_range_with chk select mn mx m errp g = Done (v, set_errp errp None, g') ∧
           in_range (Z.min mn mx) (Z.max mn mx) m v) ∧
  (¬ (∃ v, in_range (Z.min mn mx) (Z.max mn mx) m v) →
   random_range_with chk select mn mx m errp g =
   Done (-1, set_errp errp (Some (ErrNoMultiple mn mx m)), g)).
Proof.
  intros Hchk Hm Hmn Hmx HM1 HM2 Hsel. rewrite in_range_iff by lia.
  rewrite (random_range_with_ok chk M) by done. cbv zeta.
  destruct (up_spec m (Z.min mn mx)) as [Hu Hua]; [lia|].
  destruct (down_spec m (Z.max mn mx)) as [Hd Hdb]; [lia|].
  case_decide as Hab; (split; [|done]); [|done].
  intros _. destruct (Hsel (up m (Z.min mn mx)) (down m (Z.max mn mx))) as (v & g' & -> & [Hv Hdv]);
    try done; try lia.
  simpl. eexists _, _. split; [done|]. split; [lia|done].
Qed.
End correctness.

(** * Bits *)

(** The number of bits set among the lowest [n]. *)
Fixpoint popcount (n : nat) (mask : Z) : Z :=
  match n with
  | O => 0
  | S n' => Z.b2z (Z.testbit mask 0) + popcount n' (Z.shiftr mask 1)
  end.

Lemma popcount_bound n mask : 0 ≤ popcount n mask ≤ Z.of_nat n.
Proof.
  revert mask. induction n as [|n IH]; intros mask; [done|]. cbn [popcount].
  specialize (IH (Z.shiftr mask 1)). destruct (Z.testbit mask 0); simpl; lia.
Qed.

Lemma land_one mask : Z.land mask 1 ≠ 0 ↔ Z.testbit mask 0 = true.
Proof.
  rewrite Z.bit0_odd. change 1 with (Z.ones 1). rewrite Z.land_ones by lia. change (2 ^ 1) with 2.
  rewrite Zmod_odd. by destruct (Z.odd mask).
Qed.

Lemma land_pow mask i : 0 ≤ i → Z.land mask (2 ^ i) ≠ 0 ↔ Z.testbit mask i = true.
Proof.
  intros Hi. split.
  - intros Hne. destruct (Z.testbit mask i) eqn:E; [done|]. destruct Hne.
    apply Z.bits_inj_0. intros n. rewrite Z.land_spec.
    destruct (decide (n = i)) as [->|Hn]; [by rewrite E|].
    rewrite Z.pow2_bits_false by lia. apply andb_false_r.
  - intros E Hz. apply (f_equal (λ z, Z.testbit z i)) in Hz.
    rewrite Z.land_spec, E, Z.pow2_bits_true, Z.bits_0 in Hz by lia. done.
Qed.

(** The sign bit, which the last round of the counting loop tests. *)
Lemma land_sign mask : is_i64 mask → Z.land mask LONG_MIN ≠ 0 ↔ Z.testbit mask 63 = true.
Proof.
  intros Hm. change LONG_MIN with (- 2 ^ 63). rewrite Z.testbit_odd, Z.shiftr_div_pow2 by lia.
  destruct (decide (mask < 0)) as [Hn|Hn].
  - replace (mask / 2 ^ 63) with (-1) by (apply Z.div_unique with (mask + 2 ^ 63); clia).
    split; [done|]. intros _ Hz.
    assert (Z.land mask (- 2 ^ 63) < 0) by (apply Z.land_neg; lia). lia.
  - rewrite Z.div_small by clia. split; [|done]. intros Hne. destruct Hne.
    apply Z.bits_inj_0. intros n. rewrite Z.land_spec.
    destruct (decide (n < 0)) as [Hn0|Hn0]; [by rewrite Z.testbit_neg_r|].
    destruct (decide (n < 63)) as [H63|H63].
    + rewrite Z.bits_opp by lia. change (Z.pred (2 ^ 63)) with (Z.ones 63).
      rewrite Z.ones_spec_low by lia. apply andb_false_r.
    + destruct (decide (mask = 0)) as [->|Hz]; [by rewrite Z.bits_0|].
      rewrite Z.bits_above_log2; [done|lia|].
      apply Z.lt_le_trans with 63; [|lia]. apply Z.log2_lt_pow2; clia.
Qed.

Lemma land_bit mask i :
  is_i64 mask → 0 ≤ i < 64 → Z.land mask (wrap64 (2 ^ i)) ≠ 0 ↔ Z.testbit mask i = true.
Proof.
  intros Hm Hi. destruct (decide (i = 63)) as [->|Hne].
  - change (wrap64 (2 ^ 63)) with LONG_MIN. by apply land_sign.
  - rewrite wrap64_pow by lia. apply land_pow. lia.
Qed.

Lemma wrap64_double x : wrap64 (wrap64 x * 2) = wrap64 (x * 2).
Proof.
  unfold wrap64. f_equal. set (m := 18446744073709551616). set (h := 9223372036854775808).
  rewrite (Z.mod_eq (x + h) m) by done. set (q := (x + h) / m).
  replace ((x + h - m * q - h) * 2 + h) with (x * 2 + h + (- 2 * q) * m) by lia.
  by rewrite Z.mod_add.
Qed.

Lemma count_bits_popcount n mask i nb :
  is_i64 mask → 0 ≤ i → i + Z.of_nat n ≤ 64 →
  count_bits n mask (wrap64 (2 ^ i)) nb = nb + popcount n (Z.shiftr mask i).
Proof.
  intros Hm. revert i nb. induction n as [|n IH]; intros i nb Hi Hn; [simpl; lia|].
  cbn [count_bits popcount]. rewrite wrap64_double.
  replace (2 ^ i * 2) with (2 ^ (i + 1)) by (rewrite Z.pow_add_r by lia; lia).
  rewrite IH by lia. rewrite Z.shiftr_shiftr, Z.shiftr_spec, Z.add_0_l by lia.
  pose proof (land_bit mask i Hm ltac:(lia)) as Hb.
  destruct (decide (Z.land mask (wrap64 (2 ^ i)) ≠ 0)) as [H|H].
  - apply Hb in H. rewrite H. simpl. lia.
  - destruct (Z.testbit mask i); [|simpl; lia]. by destruct H; apply Hb.
Qed.

(** The loop that looks for the bit ends on a set one. *)
Lemma shift_to_ok fuel mask bit ns :
  1 ≤ bit ≤ popcount fuel mask →
  ∃ k, shift_to fuel mask bit ns = Done (ns + Z.of_nat k + 1) ∧ (k < fuel)%nat ∧
       Z.testbit mask (Z.of_nat k) = true ∧ popcount k mask = bit - 1.
Proof.
  revert mask bit ns. induction fuel as [|fuel IH]; intros mask bit ns Hb; [simpl in Hb; lia|].
  cbn [popcount shift_to] in *. rewrite decide_False by lia. pose proof (land_one mask) as H1.
  destruct (decide (Z.land mask 1 ≠ 0)) as [H|H].
  - apply H1 in H. rewrite H in Hb. destruct (decide (bit = 1)) as [->|Hne].
    + exists 0%nat. split; [|split; [lia|split; [done|done]]].
      rewrite Z.sub_diag. destruct fuel; cbn [shift_to]; rewrite decide_True by done; f_equal; lia.
    + destruct (IH (Z.shiftr mask 1) (bit - 1) (ns + 1)) as (k & -> & Hk & Ht & Hp); [simpl in Hb; lia|].
      exists (S k). split; [f_equal; lia|]. split; [lia|].
      rewrite Z.shiftr_spec in Ht by lia. replace (Z.of_nat (S k)) with (Z.of_nat k + 1) by lia.
      split; [done|]. cbn [popcount]. rewrite H, Hp. simpl. lia.
  - assert (Z.testbit mask 0 = false) as H0.
    { destruct (Z.testbit mask 0); [|done]. by destruct H; apply H1. }
    rewrite H0 in Hb. destruct (IH (Z.shiftr mask 1) bit (ns + 1)) as (k & -> & Hk & Ht & Hp);
      [simpl in Hb; lia|].
    exists (S k). split; [f_equal; lia|]. split; [lia|].
    rewrite Z.shiftr_spec in Ht by lia. replace (Z.of_nat (S k)) with (Z.of_nat k + 1) by lia.
    split; [done|]. cbn [popcount]. rewrite H0, Hp. simpl. lia.
Qed.

Lemma popcount_pos n mask k :
  (k < n)%nat → Z.testbit mask (Z.of_nat k) = true → 1 ≤ popcount n mask.
Proof.
  revert mask k. induction n as [|n IH]; intros mask k Hk Ht; [lia|]. cbn [popcount].
  pose proof (popcount_bound n (Z.shiftr mask 1)). destruct k as [|k].
  - change (Z.of_nat 0) with 0 in Ht. rewrite Ht. simpl. lia.
  - assert (1 ≤ popcount n (Z.shiftr mask 1)).
    { apply (IH _ k); [lia|]. rewrite Z.shiftr_spec by lia.
      by replace (Z.of_nat k + 1) with (Z.of_nat (S k)) by lia. }
    destruct (Z.testbit mask 0); simpl; lia.
Qed.

Lemma popcount_nonzero mask : is_i64 mask → mask ≠ 0 → 1 ≤ popcount 64 mask.
Proof.
  intros Hm Hne. destruct (decide (mask < 0)) as [Hn|Hn].
  - apply (popcount_pos 64 mask 63); [lia|]. change (Z.of_nat 63) with 63.
    apply land_sign; [done|]. intros Hz.
    assert (Z.land mask LONG_MIN < 0) by (apply Z.land_neg; clia). lia.
  - apply (popcount_pos 64 mask (Z.to_nat (Z.log2 mask))).
    + assert (Z.log2 mask < 63) by (apply Z.log2_lt_pow2; clia).
      pose proof (Z.log2_nonneg mask). lia.
    + rewrite Z2Nat.id by apply Z.log2_nonneg. apply Z.bit_log2. lia.
Qed.

(** Drawing from 1 to [nb]. *)
Lemma random_range_unit {G} (lrand48 : G → Z * G) nb g :
  (∀ g, 0 ≤ (lrand48 g).1 ≤ INT_MAX) → 1 ≤ nb < INT_MAX →
  random_range lrand48 1 nb 1 false g = Done (1 + (lrand48 g).1 mod nb, None, (lrand48 g).2).
Proof.
  intros Hl Hnb. unfold random_range. rewrite (random_range_with_ok i32 INT_MAX); try clia.
  2: { intros x Hx. apply i32_ok. clia. }
  rewrite Z.min_l, Z.max_r by lia. unfold up, down. rewrite !Z.mod_1_r, Z.add_0_r, Z.sub_0_r.
  rewrite decide_True by lia. rewrite select_lrand48_eq by (done || clia || apply Z.divide_1_l).
  unfold nmults_of. rewrite Z.div_1_r, Z.mul_1_r. by replace (nb - 1 + 1) with nb by lia.
Qed.

(** * Properties *)

(** A draw from [mn], [mx] (in either order): it ends; if the range has a multiple
    of [m] it returns one and clears the error, otherwise it returns -1 and
    reports the range. *)
Definition draws {G} (f : Z → Z → Z → bool → G → outcome (Z * option (option range_err) * G))
    (mn mx m : Z) (errp : bool) (g : G) : Prop :=
  let lo := Z.min mn mx in
  let hi := Z.max mn mx in
  ((∃ v, in_range lo hi m v) →
   ∃ v g', f mn mx m errp g = Done (v, set_errp errp None, g') ∧ in_range lo hi m v) ∧
  (¬ (∃ v, in_range lo hi m v) →
   f mn mx m errp g = Done (-1, set_errp errp (Some (ErrNoMultiple mn mx m)), g)).

(** C19: for ends that are not negative, of which the larger one is below the largest
    int and the smaller one plus mult fits an int, random_range() returns a multiple of
    mult between them whenever there is one and reports an error otherwise, whatever
    lrand48() returns, and no arithmetic overflows. *)
Theorem random_range_in_range {G} (lrand48 : G → Z * G) (mn mx m : Z) (errp : bool) (g : G) :
  (∀ g, 0 ≤ (lrand48 g).1 ≤ INT_MAX) →
  1 ≤ m → 0 ≤ mn → 0 ≤ mx → Z.min mn mx + m ≤ INT_MAX → Z.max mn mx < INT_MAX →
  draws (random_range lrand48) mn mx m errp g.
Proof.
  intros Hl Hm Hmn Hmx H1 H2. unfold draws, random_range. cbv zeta.
  apply (random_range_with_member i32 INT_MAX); try done.
  - intros x Hx. apply i32_ok. clia.
  - intros a b Ha Hab Hb Hda Hdb. apply select_lrand48_ok; try done; clia.
Qed.

Definition ex_rand (g : Z) : Z * Z := (g mod 2147483648, g + 1).

Lemma ex_rand_range g : 0 ≤ (ex_rand g).1 ≤ INT_MAX.
Proof. unfold ex_rand. simpl. pose proof (Z.mod_pos_bound g 2147483648). clia. Qed.

Lemma random_range_in_range_witness : draws (random_range ex_rand) 10 3 4 true 7.
Proof. apply (random_range_in_range ex_rand 10 3 4 true 7 ex_rand_range); clia. Defined.

(** C20: random_rangel() and random_rangell() draw in the same way from ends up to
    2^62; the recursive halving of divider() stays within its 33 levels and its
    shift counts below the width of int. *)
Theorem random_rangell_in_range {G} (lrand48 : G → Z * G) (mn mx m : Z) (errp : bool) (g : G) :
  (∀ g, 0 ≤ (lrand48 g).1 ≤ INT_MAX) →
  1 ≤ m ≤ 2 ^ 62 → 0 ≤ mn ≤ 2 ^ 62 → 0 ≤ mx ≤ 2 ^ 62 → Z.min mn mx + m ≤ LONG_MAX →
  draws (random_rangel lrand48) mn mx m errp g ∧ draws (random_rangell lrand48) mn mx m errp g.
Proof.
  intros Hl Hm Hmn Hmx H1.
  assert (∀ x, - LONG_MAX - 1 ≤ x ≤ LONG_MAX → i64 x = Done x) as Hchk
    by (intros; apply i64_ok; clia).
  change (2 ^ 62) with 4611686018427387904 in *.
  split; unfold draws, random_rangel, random_rangell; cbv zeta;
    (apply (random_range_with_member i64 LONG_MAX); [done|lia|lia|lia|done|clia|]);
    intros a b Ha Hab Hb Hda Hdb.
  - apply select_lrand48_ok; try done; clia.
  - apply select_divider_ok; try done; change (2 ^ 62) with 4611686018427387904; clia.
Qed.

Lemma random_rangell_in_range_witness :
  draws (random_rangell ex_rand) 5 4000000000000000000 4096 true 99.
Proof.
  apply (random_rangell_in_range ex_rand 5 4000000000000000000 4096 true 99 ex_rand_range);
    try (vm_compute; done); split; vm_compute; done.
Defined.

(** random_bit() of a nonzero mask returns the bit of a position that is set
    in the mask, the sign bit included: the one whose number among the set bits
    lrand48() selects. *)
Theorem random_bit_member {G} (lrand48 : G → Z * G) (mask : Z) (g : G) :
  (∀ g, 0 ≤ (lrand48 g).1 ≤ INT_MAX) → is_i64 mask → mask ≠ 0 →
  ∃ k, (k < 64)%nat ∧ Z.testbit mask (Z.of_nat k) = true ∧
       popcount k mask = (lrand48 g).1 mod popcount 64 mask ∧
       random_bit lrand48 mask g = Done (wrap64 (2 ^ Z.of_nat k), (lrand48 g).2).
Proof.
  intros Hl Hm Hne.
  pose proof (popcount_nonzero mask Hm Hne) as Hpos. pose proof (popcount_bound 64 mask) as Hle.
  pose proof (count_bits_popcount 64 mask 0 0 Hm ltac:(done) ltac:(done)) as Hcb.
  assert (wrap64 (2 ^ 0) = 1) as Hone by done. rewrite Hone, Z.shiftr_0_r, Z.add_0_l in Hcb.
  pose proof (λ bit, shift_to_ok 64 mask bit 0) as Hsh.
  unfold random_bit. rewrite decide_False, Hcb by done. clear Hcb.
  generalize dependent (shift_to 64 mask). generalize dependent (popcount 64 mask).
  intros nb Hpos Hle shift Hsh. pose proof (Z.mod_pos_bound (lrand48 g).1 nb) as Hmod.
  rewrite random_range_unit by (done || clia). cbn [mbind outcome_bind].
  destruct (Hsh (1 + (lrand48 g).1 mod nb)) as (k & -> & Hk & Ht & Hp); [lia|].
  exists k. split; [done|]. split; [done|]. split; [lia|]. cbn [mbind outcome_bind].
  unfold shl64. rewrite decide_True by lia. cbn [mbind outcome_bind].
  do 3 f_equal. rewrite Z.mul_1_l. f_equal. lia.
Qed.

Lemma random_bit_member_witness :
  ∃ k, Z.testbit (-9223372036854775808) (Z.of_nat k) = true ∧
       random_bit ex_rand (-9223372036854775808) 5 = Done (wrap64 (2 ^ Z.of_nat k), 6).
Proof.
  destruct (random_bit_member ex_rand (-9223372036854775808) 5 ex_rand_range) as (k & _ & H1 & _ & H2);
    [clia | done |].
  exists k. split; [exact H1 | exact H2].
Defined.

(** parse_ranges() of a list of range tokens joined by commas returns one
    range per token, in order, with the defaults for empty fields and one number
    for both ends, or fails if a field cannot be parsed; the array it fills is
    never overrun. *)
Theorem parse_ranges_tokens_spec (rs : list rspec) (dmin dmax dmult : Z) (pf : option parse_fn) :
  Forall wf_spec rs →
  parse_ranges (specs_text rs) dmin dmax dmult pf =
  Done (option_map (λ l, (length rs, l))
          (mapM (spec_range (default str_to_int pf) dmin dmax dmult) rs)).
Proof. apply parse_ranges_spec. Qed.

Lemma parse_ranges_tokens_spec_witness :
  parse_ranges (chars "5,1:9,:0x10:-2") 0 7 1 None =
  Done (Some (3%nat, [Range 5 5 1; Range 1 9 1; Range 0 16 (-2)])).
Proof.
  apply (parse_ranges_tokens_spec [RNum (chars "5"); RPair (chars "1") (chars "9");
    RTriple [] (chars "0x10") (chars "-2")] 0 7 1 None).
  repeat (apply Forall_cons; split); [..|by constructor]; repeat split; by_decide.
Defined.

(** when the upper end is negative and not a multiple of mult, random_range()
    rounds it up instead of down, because the remainder of a negative number is
    negative: a range whose lower end is a multiple yields numbers above its upper
    end. *)
Theorem random_range_above_max {G} (lrand48 : G → Z * G) (mn mx m : Z) (errp : bool) (g : G) :
  1 ≤ m ≤ 1073741824 → -1073741824 ≤ mn → mn ≤ mx → mx < 0 → (m | mn) → ¬ (m | mx) →
  (lrand48 g).1 = (up m mx - mn) / m →
  random_range lrand48 mn mx m errp g = Done (up m mx, set_errp errp None, (lrand48 g).2) ∧
  mx < up m mx.
Proof.
  intros Hm Hmn Hle Hneg Hdm Hnd Hx.
  destruct (up_spec m mx) as [Hu Hdu]; [lia|].
  assert (mx ≠ up m mx) as Hne by (intros E; by rewrite <-E in Hdu).
  split; [|lia]. unfold random_range, random_range_with.
  rewrite decide_False, (decide_False (P := mx < mn)) by lia.
  rewrite (decide_False (P := Z.rem mn m ≠ 0)).
  2: { intros H. apply H. apply Z.rem_divide; [lia|done]. }
  cbn [mbind outcome_bind].
  assert (mx - Z.rem mx m = up m mx) as Hr.
  { unfold up. pose proof (Z.rem_opp_l mx m ltac:(lia)).
    rewrite <-(Z.rem_mod_nonneg (- mx) m) by lia. lia. }
  rewrite decide_True by (intros E; lia). rewrite Hr, i32_ok by clia. cbn [mbind outcome_bind].
  rewrite decide_False by lia. rewrite i32_ok by clia. cbn [mbind outcome_bind].
  rewrite Z.quot_div_nonneg by lia.
  assert (0 ≤ (up m mx - mn) / m) by (apply Z.div_pos; lia).
  assert ((up m mx - mn) / m ≤ up m mx - mn) by (apply Z.div_le_upper_bound; nia).
  rewrite i32_ok by clia. cbn [mbind outcome_bind]. unfold select_lrand48.
  destruct (lrand48 g) as [x g']. simpl in Hx. subst x.
  rewrite Z.rem_small by lia.
  assert ((up m mx - mn) / m * m = up m mx - mn) as Hmul.
  { destruct Hdm as [a Ha], Hdu as [b Hb]. rewrite Ha, Hb.
    replace (b * m - a * m) with ((b - a) * m) by lia. rewrite Z.div_mul by lia. lia. }
  rewrite Hmul, i64_ok by clia. cbn [mbind outcome_bind]. rewrite i64_ok by clia.
  cbn [mbind outcome_bind snd]. do 3 f_equal. lia.
Qed.

Lemma random_range_above_max_witness :
  random_range ex_rand (-9) (-5) 3 true 2 = Done (-3, Some None, 3).
Proof.
  refine (proj1 (random_range_above_max ex_rand (-9) (-5) 3 true 2 _ _ _ _ _ _ _)); try lia; try done.
  - by exists (-3).
  - intros [k Hk]. lia.
Defined.
