(* ===== verification/BoolExpr.v ===== *)
(** * Boolean expressions: lib/tst_bool_expr.c

    The tokenizer, the shunting-yard transformation to postfix notation with
    its error reporting, and the evaluator.  The token buffer, the two arrays
    the transformation uses as stacks and the evaluation stack are kept as
    arrays with their bounds: an access outside one of them is a [Fault]. *)
From stdpp Require Import base strings numbers option list.
From Stdlib Require Import Ascii.
From S2P Require Import Prelude.

(** ** Data (include/tst_bool_expr.h) *)

Inductive tst_op :=
  | TST_OP_NOT
  | TST_OP_AND
  | TST_OP_OR
  | TST_OP_VAR
  | TST_OP_LPAR
  | TST_OP_RPAR.

#[export] Instance tst_op_eq_dec : EqDecision tst_op.
Proof. solve_decision. Defined.

(** What the [const void *priv] of a token holds: the null pointer, one of the
    error messages of the parser, a kconfig variable (an index of the array
    tst_kconfig.c builds), or whatever malloc() left in the field. *)
Inductive priv_ptr :=
  | PNull
  | PMsg (msg : string)
  | PVar (i : nat)
  | PJunk.

#[export] Instance priv_ptr_eq_dec : EqDecision priv_ptr.
Proof. solve_decision. Defined.

(** [tok_str] is the offset of the token in the expression string; [tok_next]
    is the index in [buf] the [next] pointer refers to. *)
Record tst_expr_tok := Tok {
  tok_op : tst_op;
  tok_str : nat;
  tok_len : nat;
  tok_next : option nat;
  tok_priv : priv_ptr
}.

#[export] Instance tst_expr_tok_eq_dec : EqDecision tst_expr_tok.
Proof. solve_decision. Defined.

Record tst_expr := Expr {
  rpn : option nat;
  buf : list tst_expr_tok
}.

Definition set_next (n : option nat) (t : tst_expr_tok) : tst_expr_tok :=
  Tok (tok_op t) (tok_str t) (tok_len t) n (tok_priv t).

Definition set_priv (p : priv_ptr) (t : tst_expr_tok) : tst_expr_tok :=
  Tok (tok_op t) (tok_str t) (tok_len t) (tok_next t) p.

(** ** Tokenizer *)

Definition char_to_op (c : ascii) : tst_op :=
  if decide (c = "("%char) then TST_OP_LPAR
  else if decide (c = ")"%char) then TST_OP_RPAR
  else if decide (c = "&"%char) then TST_OP_AND
  else if decide (c = "|"%char) then TST_OP_OR
  else if decide (c = "!"%char) then TST_OP_NOT
  else TST_OP_VAR.

(** The [last] pointer: null in the counting pass, otherwise the buffer and
    the index of the entry the next token goes to. *)
Abbreviation tok_cursor := (option (list tst_expr_tok * nat)).

(** Writing a token sets [tok], [tok_len] and [op]; [next] and [priv] keep the
    bytes the allocation had. *)
Definition new_tok (expr : list ascii) (last : tok_cursor) (t tl : nat)
    : outcome (nat * tok_cursor) :=
  if decide (tl = 0) then Done (0, last)
  else match last with
       | None => Done (1, None)
       | Some (b, pos) =>
           old ← load (b !! pos);
           Done (1, Some (<[pos := Tok (char_to_op (char_at expr t)) t tl
                                       (tok_next old) (tok_priv old)]> b,
                          S pos))
       end.

Definition is_op_char (c : ascii) : bool :=
  bool_decide (c ∈ ["("; ")"; "!"; "&"; "|"]%char).

Definition is_blank (c : ascii) : bool :=
  bool_decide (c ∈ ["009"; " "]%char).

(** [while (expr[i+1] != QUOTE && expr[i+1]) i++;
     if (expr[i+1] == QUOTE) i++;] *)
Fixpoint skip_quoted (fuel : nat) (expr : list ascii) (i : nat) : nat :=
  match fuel with
  | O => i
  | S fuel' =>
      let c := char_at expr (S i) in
      if decide (c = DQUOTE) then S i
      else if decide (c = NUL) then i
      else skip_quoted fuel' expr (S i)
  end.

Fixpoint tokenize_loop (fuel : nat) (expr : list ascii) (i j token_cnt : nat)
    (last : tok_cursor) : outcome (nat * tok_cursor) :=
  match fuel with
  | O => Timeout
  | S fuel' =>
      let c := char_at expr i in
      if decide (c = NUL) then
        '(n, last) ← new_tok expr last j (i - j);
        Done (token_cnt + n, last)
      else if is_op_char c then
        '(n1, last) ← new_tok expr last j (i - j);
        '(n2, last) ← new_tok expr last i 1;
        tokenize_loop fuel' expr (S i) (S i) (token_cnt + n1 + n2) last
      else if is_blank c then
        '(n1, last) ← new_tok expr last j (i - j);
        tokenize_loop fuel' expr (S i) (S i) (token_cnt + n1) last
      else if decide (c = DQUOTE) then
        tokenize_loop fuel' expr (S (skip_quoted (length expr) expr i)) j
          token_cnt last
      else tokenize_loop fuel' expr (S i) j token_cnt last
  end.

Definition tokenize (expr : list ascii) (last : tok_cursor)
    : outcome (nat * tok_cursor) :=
  tokenize_loop (S (length expr)) expr 0 0 0 last.

(** ** Shunting yard

    Both stacks hold pointers to tokens, i.e. indices of [buf]; the list is the
    array content in reverse, so its head is the top of the stack. *)

Definition stack_push (cap : nat) (stack : list nat) (op : nat)
    : outcome (list nat) :=
  if decide (length stack < cap) then Done (op :: stack) else Fault.

Definition stack_empty (stack : list nat) : bool := bool_decide (stack = []).

Definition stack_pop (stack : list nat) : option nat * list nat :=
  if stack_empty stack then (None, stack) else (head stack, tail stack).

(** [None] stands for TST_OP_NONE. *)
Definition stack_peek_op (b : list tst_expr_tok) (stack : list nat)
    : outcome (option tst_op) :=
  match stack with
  | [] => Done None
  | o :: _ => t ← load (b !! o); Done (Some (tok_op t))
  end.

Definition check_one (op : option tst_op) : bool :=
  match op with
  | Some TST_OP_AND | Some TST_OP_OR | Some TST_OP_NOT | None
  | Some TST_OP_LPAR => false
  | _ => true
  end.

Definition check_two (op : option tst_op) : bool :=
  match op with
  | Some TST_OP_VAR | Some TST_OP_RPAR => true
  | _ => false
  end.

Record sy_state := Sy {
  op_stack : list nat;
  out : list nat;
  prev_op : option tst_op
}.

(** One round of the loop either goes on or leaves through [err] after storing
    a message in the [priv] field of a token. *)
Inductive sy_result :=
  | Go (s : sy_state)
  | Err (i : nat) (msg : string).

(** [while (stack_peek_op(op_stack) == TST_OP_NOT) stack_push(out, pop)] *)
Fixpoint pop_nots (b : list tst_expr_tok) (cap : nat) (ops out : list nat)
    : outcome (list nat * list nat) :=
  match ops with
  | [] => Done ([], out)
  | o :: ops' =>
      p ← stack_peek_op b ops;
      if decide (p = Some TST_OP_NOT) then
        out' ← stack_push cap out o;
        pop_nots b cap ops' out'
      else Done (ops, out)
  end.

(** The [for (;;)] loop of the closing parenthesis; [None] when the stack ran
    empty before an opening one was found. *)
Fixpoint pop_till_lpar (b : list tst_expr_tok) (cap : nat) (ops out : list nat)
    : outcome (option (list nat * list nat)) :=
  match ops with
  | [] => Done None
  | o :: ops' =>
      t ← load (b !! o);
      if decide (tok_op t = TST_OP_LPAR) then Done (Some (ops', out))
      else
        out' ← stack_push cap out o;
        pop_till_lpar b cap ops' out'
  end.

(** The inner [switch]: a binary operator on top of the stack goes to the
    output before the new one is pushed. *)
Definition pop_binop (b : list tst_expr_tok) (cap : nat) (ops out : list nat)
    : outcome (list nat * list nat) :=
  p ← stack_peek_op b ops;
  match p with
  | Some TST_OP_AND | Some TST_OP_OR =>
      match stack_pop ops with
      | (Some x, ops') => out' ← stack_push cap out x; Done (ops', out')
      | (None, _) => Fault
      end
  | _ => Done (ops, out)
  end.

Definition sy_step (b : list tst_expr_tok) (cnt : nat) (s : sy_state) (i : nat)
    (op : tst_op) : outcome sy_result :=
  match op with
  | TST_OP_VAR =>
      if check_one (prev_op s) then Done (Err i "Expected operation")
      else
        o ← stack_push (S cnt) (out s) i;
        '(ops, o) ← pop_nots b (S cnt) (op_stack s) o;
        Done (Go (Sy ops o (Some op)))
  | TST_OP_LPAR =>
      if check_one (prev_op s) then Done (Err i "Expected operation")
      else
        ops ← stack_push cnt (op_stack s) i;
        Done (Go (Sy ops (out s) (Some op)))
  | TST_OP_RPAR =>
      if negb (check_two (prev_op s)) then
        Done (Err i "Expected variable or )")
      else
        r ← pop_till_lpar b (S cnt) (op_stack s) (out s);
        match r with
        | None => Done (Err i "Missing (")
        | Some (ops, o) =>
            '(ops, o) ← pop_nots b (S cnt) ops o;
            Done (Go (Sy ops o (Some op)))
        end
  | TST_OP_NOT =>
      if check_one (prev_op s) then Done (Err i "Expected operation")
      else
        ops ← stack_push cnt (op_stack s) i;
        Done (Go (Sy ops (out s) (Some op)))
  | TST_OP_AND | TST_OP_OR =>
      if negb (check_two (prev_op s)) then
        Done (Err i "Expected variable or (")
      else
        '(ops, o) ← pop_binop b (S cnt) (op_stack s) (out s);
        ops ← stack_push cnt ops i;
        Done (Go (Sy ops o (Some op)))
  end.

(** The main loop over [buf[i]], [i < cnt]; [todo] is the rest of [buf]. *)
Fixpoint sy_loop (b : list tst_expr_tok) (cnt : nat) (s : sy_state) (i : nat)
    (todo : list tst_expr_tok) : outcome sy_result :=
  match todo with
  | [] => Done (Go s)
  | t :: todo' =>
      r ← sy_step b cnt s i (tok_op t);
      match r with
      | Err k msg => Done (Err k msg)
      | Go s' => sy_loop b cnt s' (S i) todo'
      end
  end.

(** [while ((i = stack_pop(op_stack)))]: what is left goes to the output. *)
Fixpoint pop_remaining (b : list tst_expr_tok) (cap : nat) (ops out : list nat)
    : outcome (sum (nat * string) (list nat)) :=
  match ops with
  | [] => Done (inr out)
  | o :: ops' =>
      t ← load (b !! o);
      if decide (tok_op t = TST_OP_LPAR) then Done (inl (o, "Missing )"))
      else
        out' ← stack_push cap out o;
        pop_remaining b cap ops' out'
  end.

(** [for (j = 0; j < out_pos; j++) out[j]->next = out[j+1]], with
    [out[out_pos] = NULL]; the argument is [out] from index 0 on. *)
Fixpoint link_rpn (b : list tst_expr_tok) (l : list nat)
    : outcome (list tst_expr_tok) :=
  match l with
  | [] => Done b
  | x :: l' =>
      t ← load (b !! x);
      link_rpn (<[x := set_next (head l') t]> b) l'
  end.

(** [i->priv = msg; goto err]. *)
Definition sy_err (b : list tst_expr_tok) (i : nat) (msg : string)
    : outcome (Z * tst_expr) :=
  t ← load (b !! i);
  Done (1%Z, Expr None (<[i := set_priv (PMsg msg) t]> b)).

Definition shunting_yard (b : list tst_expr_tok) (cnt : nat)
    : outcome (Z * tst_expr) :=
  r ← sy_loop b cnt (Sy [] [] None) 0 (take cnt b);
  match r with
  | Err i msg => sy_err b i msg
  | Go s =>
      lst ← load (b !! (cnt - 1));
      if negb (check_two (Some (tok_op lst))) then
        sy_err b (cnt - 1) "Unfinished expression"
      else
        r ← pop_remaining b (S cnt) (op_stack s) (out s);
        match r with
        | inl (i, msg) => sy_err b i msg
        | inr o =>
            let o := rev o in
            _ ← (if decide (length o < S cnt) then Done tt else Fault);
            b' ← link_rpn b o;
            Done (0%Z, Expr (head o) b')
        end
  end.

(** ** Output *)

Definition print_spaces (spaces : nat) : list ascii := replicate spaces " "%char.

(** The index of the first of [buf[0..cnt)] with a non-null [priv]; [cnt] when
    there is none. *)
Fixpoint first_priv (todo : list tst_expr_tok) (i : nat) : nat :=
  match todo with
  | [] => i
  | t :: todo' =>
      if decide (tok_priv t = PNull) then first_priv todo' (S i) else i
  end.

Definition tst_bool_expr_err (expr : list ascii) (e : tst_expr) (cnt : nat)
    : outcome (list ascii) :=
  t0 ← load (buf e !! 0);
  let i := first_priv (take cnt (buf e)) 0 in
  t ← load (buf e !! i);
  let spaces := tok_str t - tok_str t0 in
  err ← match tok_priv t with PMsg m => Done (chars m) | _ => Fault end;
  let err_len := length err in
  Done (drop (tok_str t0) expr ++ [NEWLINE] ++
        print_spaces spaces ++ chars "^" ++ [NEWLINE] ++
        (if decide (err_len < spaces) then print_spaces (spaces - err_len + 1)
         else []) ++
        err ++ [NEWLINE]).

(** [for (j = 0; j < i->tok_len; j++) putc(i->tok[j], f)] *)
Definition tok_text (expr : list ascii) (t : tst_expr_tok) : list ascii :=
  take (tok_len t) (drop (tok_str t) expr).

Fixpoint print_loop (fuel : nat) (expr : list ascii) (b : list tst_expr_tok)
    (i : option nat) : outcome (list ascii) :=
  match i with
  | None => Done []
  | Some k =>
      match fuel with
      | O => Timeout
      | S fuel' =>
          t ← load (b !! k);
          rest ← print_loop fuel' expr b (tok_next t);
          Done (tok_text expr t ++
                (if decide (tok_next t = None) then [] else [" "%char]) ++ rest)
      end
  end.

Definition tst_bool_expr_print (expr : list ascii) (e : tst_expr)
    : outcome (list ascii) :=
  print_loop (length (buf e)) expr (buf e) (rpn e).

(** ** Parsing

    [malloc n] is the allocation of a [struct tst_expr] with [n] tokens: null,
    or a buffer whose content is arbitrary.  The second component of the result
    is what is written to stderr. *)
Definition tst_bool_expr_parse (malloc : nat → option (list tst_expr_tok))
    (expr : list ascii) : outcome (option tst_expr * list ascii) :=
  '(tok_cnt, _) ← tokenize expr None;
  if decide (tok_cnt = 0) then Done (None, [])
  else match malloc tok_cnt with
       | None => Done (None, [])
       | Some mem =>
           '(_, last) ← tokenize expr (Some (mem, 0));
           match last with
           | None => Fault
           | Some (b, _) =>
               '(ret, e) ← shunting_yard b tok_cnt;
               if decide (ret = 0%Z) then Done (Some e, [])
               else
                 msg ← tst_bool_expr_err expr e tok_cnt;
                 Done (None, msg)
           end
       end.

(** ** Evaluation *)

Definition MAX_STACK : nat := 16.

Definition c_not (x : Z) : Z := if decide (x = 0%Z) then 1%Z else 0%Z.
Definition c_or (x y : Z) : Z :=
  if decide (x = 0%Z) then (if decide (y = 0%Z) then 0%Z else 1%Z) else 1%Z.
Definition c_and (x y : Z) : Z :=
  if decide (x = 0%Z) then 0%Z else (if decide (y = 0%Z) then 0%Z else 1%Z).

(** [stack[i]] for a C index that may be negative. *)
Definition stack_get (stack : list Z) (i : Z) : outcome Z :=
  if decide (0 ≤ i)%Z then load (stack !! Z.to_nat i) else Fault.

Definition stack_set (stack : list Z) (i v : Z) : outcome (list Z) :=
  if decide (0 ≤ i < Z.of_nat (length stack))%Z then Done (<[Z.to_nat i := v]> stack)
  else Fault.

Fixpoint eval_loop (map : tst_expr_tok → outcome Z) (fuel : nat)
    (b : list tst_expr_tok) (i : option nat) (stack : list Z) (pos : Z)
    : outcome Z :=
  match i with
  | None => stack_get stack 0
  | Some k =>
      match fuel with
      | O => Timeout
      | S fuel' =>
          t ← load (b !! k);
          match tok_op t with
          | TST_OP_NOT =>
              x ← stack_get stack pos;
              stack ← stack_set stack pos (c_not x);
              eval_loop map fuel' b (tok_next t) stack pos
          | TST_OP_OR =>
              x ← stack_get stack pos;
              y ← stack_get stack (pos - 1);
              stack ← stack_set stack (pos - 1) (c_or x y);
              eval_loop map fuel' b (tok_next t) stack (pos - 1)
          | TST_OP_AND =>
              x ← stack_get stack pos;
              y ← stack_get stack (pos - 1);
              stack ← stack_set stack (pos - 1) (c_and x y);
              eval_loop map fuel' b (tok_next t) stack (pos - 1)
          | TST_OP_VAR =>
              if decide (Z.of_nat MAX_STACK ≤ pos + 1)%Z then Done (-1)%Z
              else
                v ← map t;
                stack ← stack_set stack (pos + 1) v;
                if decide (v = (-1)%Z) then Done (-1)%Z
                else eval_loop map fuel' b (tok_next t) stack (pos + 1)
          | _ => eval_loop map fuel' b (tok_next t) stack pos
          end
      end
  end.

(** [junk] is the initial content of the local array [stack[MAX_STACK]]. *)
Definition tst_bool_expr_eval (map : tst_expr_tok → outcome Z) (junk : list Z)
    (e : tst_expr) : outcome Z :=
  eval_loop map (length (buf e)) (buf e) (rpn e) junk (-1).

(** * Tokenizer: equivalence with a reference lexer

    The reference reads the characters once, from left to right, with the
    characters of the token in progress in [cur]. *)

Definition flush (cur : list ascii) : list (list ascii) :=
  if decide (cur = []) then [] else [cur].

Fixpoint scan (s cur : list ascii) (inq : bool) : list (list ascii) :=
  match s with
  | [] => flush cur
  | c :: s' =>
      if inq then scan s' (cur ++ [c]) (negb (bool_decide (c = DQUOTE)))
      else if is_op_char c then flush cur ++ [[c]] ++ scan s' [] false
      else if is_blank c then flush cur ++ scan s' [] false
      else scan s' (cur ++ [c]) (bool_decide (c = DQUOTE))
  end.

Definition lex (expr : list ascii) : list (list ascii) := scan expr [] false.

(** The tokens of [l], given as offset and length, stored one by one. *)
Fixpoint emit (expr : list ascii) (last : tok_cursor) (l : list (nat * nat))
    : outcome (nat * tok_cursor) :=
  match l with
  | [] => Done (0, last)
  | (t, tl) :: l' =>
      '(n1, last) ← new_tok expr last t tl;
      '(n2, last) ← emit expr last l';
      Done (n1 + n2, last)
  end.

Definition span_text (expr : list ascii) (p : nat * nat) : list ascii :=
  take p.2 (drop p.1 expr).

Lemma emit_app expr last l1 l2 :
  emit expr last (l1 ++ l2) =
  ('(n1, last) ← emit expr last l1;
   '(n2, last) ← emit expr last l2;
   Done (n1 + n2, last)).
Proof.
  revert last. induction l1 as [|[t tl] l1 IH]; intros last; simpl.
  - by destruct (emit expr last l2) as [[]| |].
  - destruct (new_tok expr last t tl) as [[n last']| |]; simpl; [|done..].
    rewrite IH. destruct (emit expr last' l1) as [[n1 last1]| |]; simpl; [|done..].
    destruct (emit expr last1 l2) as [[n2 last2]| |]; simpl; [|done..].
    by rewrite Nat.add_assoc.
Qed.

(** The span a call [new_tok(&last, &expr[j], i - j)] writes: none when empty. *)
Definition span (j i : nat) : list (nat * nat) :=
  if decide (i - j = 0) then [] else [(j, i - j)].

Lemma new_tok_emit expr last j tl :
  new_tok expr last j tl =
  emit expr last (if decide (tl = 0) then [] else [(j, tl)]).
Proof.
  unfold new_tok. destruct (decide (tl = 0)) as [->|?]; simpl; [done|].
  unfold new_tok. rewrite decide_False by done.
  destruct last as [[b pos]|]; [|done]. by destruct (b !! pos).
Qed.

Lemma span_flush expr i j :
  j ≤ i → i ≤ length expr →
  span_text expr <$> span j i = flush (drop j (take i expr)).
Proof.
  intros. unfold span, flush.
  assert (length (drop j (take i expr)) = i - j) as Hl
    by (rewrite length_drop, length_take; lia).
  destruct (decide (i - j = 0)) as [E|E].
  - rewrite decide_True; [done|]. apply nil_length_inv. lia.
  - rewrite decide_False by (intros Heq; rewrite Heq in Hl; simpl in Hl; lia).
    simpl. unfold span_text; simpl. by rewrite firstn_skipn_comm, Nat.add_comm, Nat.sub_add.
Qed.

(** A span is not empty, lies in the string, and unless it is an operator no
    quote follows it. *)
Definition span_ok (expr : list ascii) (p : nat * nat) : Prop :=
  0 < p.2 ∧ p.1 + p.2 ≤ length expr ∧
  (is_op_char (char_at expr p.1) = true ∨ char_at expr (p.1 + p.2) ≠ DQUOTE).

Lemma span_ok_pos expr l : Forall (span_ok expr) l → Forall (λ p, 0 < p.2) l.
Proof. intros H. eapply Forall_impl; [exact H|]. by intros p []. Qed.

Lemma span_pos expr j i :
  j ≤ i → i ≤ length expr → char_at expr i ≠ DQUOTE → Forall (span_ok expr) (span j i).
Proof.
  intros. unfold span. case_decide; [by constructor|]. apply Forall_singleton.
  split; [simpl; lia|]. split; [simpl; lia|]. right. simpl. by replace (j + (i - j)) with i by lia.
Qed.

Lemma is_op_char_not_dquote c : is_op_char c = true → c ≠ DQUOTE.
Proof. by intros H ->. Qed.

Lemma is_blank_not_dquote c : is_blank c = true → c ≠ DQUOTE.
Proof. by intros H ->. Qed.

Lemma skip_quoted_scan fuel expr i j :
  cstring expr → j ≤ S i → i < length expr → length expr ≤ fuel + S i →
  let k := skip_quoted fuel expr i in
  i ≤ k < length expr ∧
  scan (drop (S i) expr) (drop j (take (S i) expr)) true =
  scan (drop (S k) expr) (drop j (take (S k) expr)) false.
Proof.
  revert i. induction fuel as [|fuel IH]; intros i Hs Hj Hi Hf; simpl.
  - split; [lia|]. by rewrite !drop_ge with (l := expr) by lia.
  - destruct (decide (char_at expr (S i) = DQUOTE)) as [E|E].
    + destruct (char_at_drop _ _ _ E) as [Hd Hl]; [done|].
      split; [lia|]. rewrite Hd. simpl.
      rewrite <-window_snoc; [done| |lia]. by apply char_at_lookup.
    + destruct (decide (char_at expr (S i) = NUL)) as [E'|E'].
      * split; [lia|].
        destruct (decide (S i < length expr)) as [Hlt|Hlt].
        { apply char_at_NUL in E'; [lia|done|lia]. }
        by rewrite !drop_ge with (l := expr) by lia.
      * destruct (char_at_drop _ _ _ eq_refl E') as [Hd Hl].
        destruct (IH (S i)) as [Hk Hsc]; [done|lia|lia|lia|].
        split; [lia|]. rewrite Hd. simpl.
        rewrite bool_decide_false, <-window_snoc; try done; try lia.
        by apply char_at_lookup.
Qed.

(** The loop of [tokenize] stores the spans of a list [l] whose texts are what
    the reference lexer produces from the rest of the input. *)
Lemma tokenize_loop_scan fuel expr i j :
  cstring expr → j ≤ i → i ≤ length expr → length expr < fuel + i →
  ∃ l, span_text expr <$> l = scan (drop i expr) (drop j (take i expr)) false ∧
       Forall (span_ok expr) l ∧
       ∀ cnt last, tokenize_loop fuel expr i j cnt last =
                   ('(n, last) ← emit expr last l; Done (cnt + n, last)).
Proof.
  intros Hs. revert i j. induction fuel as [|fuel IH]; intros i j Hj Hi Hf; [lia|].
  simpl. destruct (decide (char_at expr i = NUL)) as [E|E].
  { assert (char_at expr i ≠ DQUOTE) as Hq by (by rewrite E).
    apply char_at_NUL in E as ->; [|done..]. exists (span j (length expr)).
    rewrite drop_all. simpl. split; [by apply span_flush|]. split; [by apply span_pos|].
    intros cnt last. by rewrite new_tok_emit. }
  destruct (char_at_drop _ _ _ eq_refl E) as [Hd Hl].
  pose proof (char_at_lookup _ _ _ eq_refl E) as Hc.
  set (c := char_at expr i) in *. rewrite Hd. simpl.
  destruct (is_op_char c) eqn:Eop.
  { destruct (IH (S i) (S i)) as (l & Hl1 & Hl2 & Hl3); [lia..|].
    exists (span j i ++ [(i, 1)] ++ l). rewrite !fmap_app, span_flush, Hl1, window_empty by lia.
    split; [|split].
    - simpl. unfold span_text at 1; simpl. by rewrite Hd.
    - apply Forall_app_2; [apply span_pos; auto using is_op_char_not_dquote|].
      apply Forall_app_2; [|done]. apply Forall_singleton.
      split; [simpl; lia|]. split; [simpl; lia|by left].
    - intros cnt last. rewrite emit_app, new_tok_emit. fold (span j i).
      destruct (emit expr last (span j i)) as [[n1 last1]| |]; simpl; [|done..].
      destruct (new_tok expr last1 i 1) as [[n2 last2]| |]; simpl; [|done..].
      rewrite Hl3. destruct (emit expr last2 l) as [[n3 last3]| |]; simpl; [|done..].
      do 2 f_equal. lia. }
  destruct (is_blank c) eqn:Ebl.
  { destruct (IH (S i) (S i)) as (l & Hl1 & Hl2 & Hl3); [lia..|].
    exists (span j i ++ l). rewrite fmap_app, span_flush, Hl1, window_empty by lia.
    split; [done|]. split; [by apply Forall_app_2; auto using span_pos, is_blank_not_dquote|].
    intros cnt last. rewrite emit_app, new_tok_emit. fold (span j i).
    destruct (emit expr last (span j i)) as [[n1 last1]| |]; simpl; [|done..].
    rewrite Hl3. destruct (emit expr last1 l) as [[n3 last3]| |]; simpl; [|done..].
    do 2 f_equal. lia. }
  destruct (decide (c = DQUOTE)) as [Eq|Eq].
  - rewrite bool_decide_true, <-window_snoc by done.
    destruct (skip_quoted_scan (length expr) expr i j) as [Hk Hsc]; [done|lia..|].
    rewrite Hsc. apply IH; lia.
  - rewrite bool_decide_false, <-window_snoc by done. apply IH; lia.
Qed.

Lemma emit_None expr l :
  Forall (λ p, 0 < p.2) l → emit expr None l = Done (length l, None).
Proof.
  induction 1 as [|[t tl] l Hp _ IH]; simpl; [done|].
  unfold new_tok. rewrite decide_False by (simpl in Hp; lia). simpl. by rewrite IH.
Qed.

(** What [new_tok] makes of a buffer entry. *)
Definition fill (expr : list ascii) (p : nat * nat) (old : tst_expr_tok)
    : tst_expr_tok :=
  Tok (char_to_op (char_at expr p.1)) p.1 p.2 (tok_next old) (tok_priv old).

Lemma emit_Some expr pre mid post l :
  Forall (λ p, 0 < p.2) l → length mid = length l →
  emit expr (Some (pre ++ mid ++ post, length pre)) l =
  Done (length l, Some (pre ++ zip_with (fill expr) l mid ++ post,
                        length pre + length l)).
Proof.
  intros Hp. revert pre mid.
  induction Hp as [|[t tl] l Hp _ IH]; intros pre [|m mid] Hl; simplify_eq/=.
  - by rewrite Nat.add_0_r.
  - unfold new_tok. rewrite decide_False by (simpl in Hp; lia).
    rewrite lookup_app_r, Nat.sub_diag by lia. simpl.
    rewrite insert_app_r_alt, Nat.sub_diag by lia. simpl.
    specialize (IH (pre ++ [fill expr (t, tl) m]) mid Hl).
    rewrite length_app, <-!(assoc_L (++)) in IH. simpl in IH.
    rewrite Nat.add_1_r in IH. unfold fill at 1 in IH. simpl in IH. rewrite IH. simpl.
    by rewrite Nat.add_succ_r.
Qed.

(** The operation of a token, from its text. *)
Definition text_op (w : list ascii) : tst_op := char_to_op (char_at w 0).

Lemma span_text_op expr p :
  0 < p.2 → text_op (span_text expr p) = char_to_op (char_at expr p.1).
Proof.
  destruct p as [t tl]. unfold text_op, span_text, char_at. simpl. intros Hp.
  rewrite lookup_take_lt by lia. by rewrite lookup_drop, Nat.add_0_r.
Qed.

(** A token lies in the string, and no quote follows a variable. *)
Definition tok_in (expr : list ascii) (t : tst_expr_tok) : Prop :=
  tok_str t + tok_len t ≤ length expr ∧
  (tok_op t = TST_OP_VAR → char_at expr (tok_str t + tok_len t) ≠ DQUOTE).

Lemma fill_in expr l mem :
  Forall (span_ok expr) l → Forall (tok_in expr) (zip_with (fill expr) l mem).
Proof.
  intros Hl. revert mem. induction Hl as [|p l (_ & Hp & Hq) _ IH]; intros [|m mem]; simpl; auto.
  constructor; [|by apply IH]. split; [done|]. simpl. intros Hv.
  destruct Hq as [Hq|Hq]; [|done]. unfold is_op_char in Hq. apply bool_decide_eq_true in Hq.
  repeat (apply elem_of_cons in Hq as [Hq|Hq]; [by rewrite Hq in Hv|]).
  by apply elem_of_nil in Hq.
Qed.

(** Both passes over the string, with the buffer [mem] the second one fills. *)
Lemma tokenize_passes expr mem :
  cstring expr → length mem = length (lex expr) →
  ∃ b, tokenize expr None = Done (length (lex expr), None) ∧
       tokenize expr (Some (mem, 0)) =
         Done (length (lex expr), Some (b, length (lex expr))) ∧
       tok_text expr <$> b = lex expr ∧
       tok_op <$> b = text_op <$> lex expr ∧
       tok_priv <$> b = tok_priv <$> mem ∧ Forall (tok_in expr) b.
Proof.
  intros Hs Hm.
  destruct (tokenize_loop_scan (S (length expr)) expr 0 0) as (l & Ht & Hok & Hl); [done|lia..|].
  pose proof (span_ok_pos _ _ Hok) as Hp.
  rewrite take_0, drop_0 in Ht. simpl in Ht. fold (lex expr) in Ht.
  assert (length l = length (lex expr)) as Hlen by (by rewrite <-Ht, length_fmap).
  exists (zip_with (fill expr) l mem). unfold tokenize. rewrite !Hl. simpl.
  rewrite emit_None by done. simpl. rewrite Hlen.
  pose proof (emit_Some expr [] mem [] l Hp ltac:(lia)) as He.
  rewrite !(right_id_L [] (++)) in He. simpl in He. rewrite He, Hlen. simpl.
  split; [done|]. split; [done|]. rewrite <-Ht.
  rewrite <-list_fmap_compose. split; [|split; [|split]].
  - by apply (fmap_zip_with_left (λ p, 0 < p.2)); [| |lia].
  - apply (fmap_zip_with_left (λ p, 0 < p.2)); [done| |lia].
    intros p m Hp'. simpl. by rewrite span_text_op.
  - by apply fmap_zip_with_right; [|lia].
  - by apply fill_in.
Qed.

(** * Shunting yard: equivalence with a grammar

    The language the parser accepts.  Tokens are pairs of an index of [buf] and
    an operation.  There is no precedence: & and | associate to the left. *)

Abbreviation tk := (nat * tst_op)%type.

Inductive bexp :=
  | BVar (x : nat)
  | BNot (x : nat) (e : bexp)
  | BBin (x : nat) (o : tst_op) (e1 e2 : bexp).

Definition is_bin (o : tst_op) : bool :=
  match o with TST_OP_AND | TST_OP_OR => true | _ => false end.

Inductive g_term : list tk → bexp → Prop :=
  | GT_var x : g_term [(x, TST_OP_VAR)] (BVar x)
  | GT_not x ts e : g_term ts e → g_term ((x, TST_OP_NOT) :: ts) (BNot x e)
  | GT_par l r ts e :
      g_expr ts e → g_term ((l, TST_OP_LPAR) :: ts ++ [(r, TST_OP_RPAR)]) e
with g_expr : list tk → bexp → Prop :=
  | GE_term ts e : g_term ts e → g_expr ts e
  | GE_bin x o ts1 ts2 e1 e2 :
      g_expr ts1 e1 → is_bin o = true → g_term ts2 e2 →
      g_expr (ts1 ++ (x, o) :: ts2) (BBin x o e1 e2).

Scheme g_term_mut := Minimality for g_term Sort Prop
  with g_expr_mut := Minimality for g_expr Sort Prop.
Combined Scheme grammar_ind from g_term_mut, g_expr_mut.

Fixpoint postfix (e : bexp) : list tk :=
  match e with
  | BVar x => [(x, TST_OP_VAR)]
  | BNot x e => postfix e ++ [(x, TST_OP_NOT)]
  | BBin x o e1 e2 => postfix e1 ++ postfix e2 ++ [(x, o)]
  end.

(** ** The transformation on lists of tokens, without array bounds *)

Fixpoint a_nots (ops out : list tk) : list tk * list tk :=
  match ops with
  | (x, TST_OP_NOT) :: ops' => a_nots ops' ((x, TST_OP_NOT) :: out)
  | _ => (ops, out)
  end.

Fixpoint a_till (ops out : list tk) : option (list tk * list tk) :=
  match ops with
  | [] => None
  | (x, TST_OP_LPAR) :: ops' => Some (ops', out)
  | y :: ops' => a_till ops' (y :: out)
  end.

Abbreviation a_state := (list tk * list tk * option tst_op)%type.

Definition a_binop (ops out : list tk) : list tk * list tk :=
  match ops with
  | (x, TST_OP_AND) :: ops' => (ops', (x, TST_OP_AND) :: out)
  | (x, TST_OP_OR) :: ops' => (ops', (x, TST_OP_OR) :: out)
  | _ => (ops, out)
  end.

Definition a_step (s : a_state) (y : tk) : sum (nat * string) a_state :=
  let '(ops, out, prev) := s in
  match y.2 with
  | TST_OP_VAR =>
      if check_one prev then inl (y.1, "Expected operation")
      else inr (a_nots ops (y :: out), Some TST_OP_VAR)
  | TST_OP_LPAR | TST_OP_NOT =>
      if check_one prev then inl (y.1, "Expected operation")
      else inr (y :: ops, out, Some y.2)
  | TST_OP_RPAR =>
      if negb (check_two prev) then inl (y.1, "Expected variable or )")
      else match a_till ops out with
           | None => inl (y.1, "Missing (")
           | Some (ops, out) => inr (a_nots ops out, Some TST_OP_RPAR)
           end
  | TST_OP_AND | TST_OP_OR =>
      if negb (check_two prev) then inl (y.1, "Expected variable or (")
      else let '(ops, out) := a_binop ops out in inr (y :: ops, out, Some y.2)
  end.

Fixpoint a_run (ts : list tk) (s : a_state) : sum (nat * string) a_state :=
  match ts with
  | [] => inr s
  | y :: ts' =>
      match a_step s y with inl e => inl e | inr s' => a_run ts' s' end
  end.

Fixpoint a_flush (ops out : list tk) : sum (nat * string) (list tk) :=
  match ops with
  | [] => inr out
  | (x, TST_OP_LPAR) :: _ => inl (x, "Missing )")
  | y :: ops' => a_flush ops' (y :: out)
  end.

(** Complete transformation; [ts] is not empty. *)
Definition a_yard (ts : list tk) : sum (nat * string) (list tk) :=
  match a_run ts ([], [], None) with
  | inl e => inl e
  | inr (ops, out, _) =>
      match last ts with
      | Some y =>
          if negb (check_two (Some y.2)) then inl (y.1, "Unfinished expression")
          else match a_flush ops out with
               | inl e => inl e
               | inr out => inr (rev out)
               end
      | None => inr []
      end
  end.

#[local] Arguments check_one : simpl never.
#[local] Arguments check_two : simpl never.

(** ** Every word of the grammar is accepted and gives its postfix form *)

(** After an expression [e] was read at a level with stack [ops] and output
    [out]: its last binary operator may still be on the stack. *)
Definition pend (e : bexp) (ops out ops' out' : list tk) : Prop :=
  (ops' = ops ∧ out' = rev (postfix e) ++ out) ∨
  (∃ x o e1 e2, e = BBin x o e1 e2 ∧ is_bin o = true ∧ ops' = (x, o) :: ops ∧
     out' = rev (postfix e1 ++ postfix e2) ++ out).

(** A level starts at the beginning of the input or after a parenthesis. *)
Definition level_top (ops : list tk) : Prop :=
  ops = [] ∨ ∃ x ops', ops = (x, TST_OP_LPAR) :: ops'.

Lemma a_run_app ts1 ts2 s :
  a_run (ts1 ++ ts2) s =
  match a_run ts1 s with inl e => inl e | inr s' => a_run ts2 s' end.
Proof.
  revert s. induction ts1 as [|y ts1 IH]; intros s; simpl; [done|].
  destruct (a_step s y); auto.
Qed.

Lemma a_binop_pend e ops out ops' out' :
  level_top ops → pend e ops out ops' out' →
  a_binop ops' out' = (ops, rev (postfix e) ++ out).
Proof.
  intros Htop [[-> ->]|(x & o & e1 & e2 & -> & Ho & -> & ->)].
  - by destruct Htop as [->|(x & ops' & ->)].
  - simpl. rewrite app_assoc, rev_unit. by destruct o.
Qed.

Lemma a_till_pend e l ops out ops' out' :
  pend e ((l, TST_OP_LPAR) :: ops) out ops' out' →
  a_till ops' out' = Some (ops, rev (postfix e) ++ out).
Proof.
  intros [[-> ->]|(x & o & e1 & e2 & -> & Ho & -> & ->)]; [done|].
  simpl. rewrite (app_assoc (postfix e1)), rev_unit. by destruct o.
Qed.

Lemma a_flush_pend e out ops' out' :
  pend e [] out ops' out' → a_flush ops' out' = inr (rev (postfix e) ++ out).
Proof.
  intros [[-> ->]|(x & o & e1 & e2 & -> & Ho & -> & ->)]; [done|].
  simpl. rewrite (app_assoc (postfix e1)), rev_unit. by destruct o.
Qed.

Lemma g_run :
  (∀ ts e, g_term ts e → ∀ ops out prev, check_one prev = false →
     ∃ o, check_two (Some o) = true ∧
          a_run ts (ops, out, prev) =
            inr (a_nots ops (rev (postfix e) ++ out), Some o)) ∧
  (∀ ts e, g_expr ts e → ∀ ops out prev, check_one prev = false → level_top ops →
     ∃ ops' out' o, check_two (Some o) = true ∧
          a_run ts (ops, out, prev) = inr (ops', out', Some o) ∧
          pend e ops out ops' out').
Proof.
  apply grammar_ind.
  - intros x ops out prev Hp. exists TST_OP_VAR. simpl. by rewrite Hp.
  - intros x ts e _ IH ops out prev Hp.
    destruct (IH ((x, TST_OP_NOT) :: ops) out (Some TST_OP_NOT)) as (o & Ho & Hr); [done|].
    exists o. simpl. rewrite Hp. simpl. rewrite Hr. split; [done|]. simpl. by rewrite rev_unit.
  - intros l r ts e _ IH ops out prev Hp.
    destruct (IH ((l, TST_OP_LPAR) :: ops) out (Some TST_OP_LPAR))
      as (ops' & out' & o & Ho & Hr & Hpend); [done|by right; eauto|].
    exists TST_OP_RPAR. split; [done|]. simpl. rewrite Hp. simpl. rewrite a_run_app, Hr. simpl.
    rewrite Ho. simpl. by rewrite (a_till_pend _ _ _ _ _ _ Hpend).
  - intros ts e _ IH ops out prev Hp Htop.
    destruct (IH ops out prev Hp) as (o & Ho & Hr).
    exists ops, (rev (postfix e) ++ out), o. split; [done|]. rewrite Hr. split; [|by left].
    by destruct Htop as [->|(x & ops' & ->)].
  - intros x o ts1 ts2 e1 e2 _ IH1 Hbin _ IH2 ops out prev Hp Htop.
    destruct (IH1 ops out prev Hp Htop) as (ops1 & out1 & o1 & Ho1 & Hr1 & Hpend).
    destruct (IH2 ((x, o) :: ops) (rev (postfix e1) ++ out) (Some o)) as (o2 & Ho2 & Hr2);
      [by destruct o|].
    exists ((x, o) :: ops), (rev (postfix e1 ++ postfix e2) ++ out), o2. split; [done|]. split.
    + rewrite a_run_app, Hr1. simpl. rewrite Ho1, (a_binop_pend _ _ _ _ _ Htop Hpend).
      rewrite rev_app_distr, <-app_assoc.
      destruct o; try done; simpl; rewrite Hr2; done.
    + right. naive_solver.
Qed.

(** ** Only words of the grammar are accepted

    What has been read when the stack is [ops] and the output [out]: [level]
    at the start of a parenthesised level, [opened] where an operand is
    expected, [closed] after a complete expression of the current level. *)

Inductive level : list tk → list tk → list tk → Prop :=
  | L_start : level [] [] []
  | L_lpar ts ops out l :
      opened ts ops out →
      level (ts ++ [(l, TST_OP_LPAR)]) ((l, TST_OP_LPAR) :: ops) out
with opened : list tk → list tk → list tk → Prop :=
  | O_level ts ops out : level ts ops out → opened ts ops out
  | O_not ts ops out x :
      opened ts ops out →
      opened (ts ++ [(x, TST_OP_NOT)]) ((x, TST_OP_NOT) :: ops) out
  | O_bin ts ops out ts1 e x o :
      level ts ops out → g_expr ts1 e → is_bin o = true →
      opened (ts ++ ts1 ++ [(x, o)]) ((x, o) :: ops) (rev (postfix e) ++ out).

Definition closed (ts ops' out' : list tk) : Prop :=
  ∃ ts0 ts1 e ops out,
    ts = ts0 ++ ts1 ∧ level ts0 ops out ∧ g_expr ts1 e ∧ pend e ops out ops' out'.

Definition sy_inv (ts : list tk) (s : a_state) : Prop :=
  let '(ops, out, prev) := s in
  if check_two prev then closed ts ops out else opened ts ops out.

Lemma level_level_top ts ops out : level ts ops out → level_top ops.
Proof. destruct 1; [by left | right; eauto]. Qed.

Lemma opened_term ts ops out t e :
  opened ts ops out → g_term t e →
  closed (ts ++ t) (a_nots ops (rev (postfix e) ++ out)).1
         (a_nots ops (rev (postfix e) ++ out)).2.
Proof.
  intros Ho. revert t e.
  induction Ho as [ts ops out Hl|ts ops out x Ho IH|ts ops out ts1 e1 x o Hl Hg Hb];
    intros t e Ht.
  - exists ts, t, e, ops, out. split; [done|]. split; [done|].
    split; [by constructor|]. left.
    by destruct (level_level_top _ _ _ Hl) as [->|(x & ops' & ->)].
  - specialize (IH _ _ (GT_not x t e Ht)).
    simpl in *. rewrite rev_unit in IH. simpl in IH. by rewrite <-app_assoc.
  - exists ts, (ts1 ++ (x, o) :: t), (BBin x o e1 e), ops, out.
    rewrite <-!app_assoc. split; [done|]. split; [done|]. split; [by constructor|].
    right. exists x, o, e1, e. rewrite rev_app_distr, <-app_assoc.
    by destruct o.
Qed.

Lemma sy_inv_step ts s y s' :
  sy_inv ts s → a_step s y = inr s' → sy_inv (ts ++ [y]) s'.
Proof.
  destruct s as [[ops out] prev], y as [x o]. unfold a_step. simpl.
  change (check_one prev) with (check_two prev). intros Hinv Hst.
  destruct (check_two prev) eqn:Ep; destruct o; simplify_eq/=.
  - (* and *)
    destruct Hinv as (ts0 & ts1 & e & ops0 & out0 & -> & Hl & Hg & Hp).
    rewrite (a_binop_pend _ _ _ _ _ (level_level_top _ _ _ Hl) Hp) in Hst. simplify_eq.
    rewrite <-app_assoc. by constructor.
  - (* or *)
    destruct Hinv as (ts0 & ts1 & e & ops0 & out0 & -> & Hl & Hg & Hp).
    rewrite (a_binop_pend _ _ _ _ _ (level_level_top _ _ _ Hl) Hp) in Hst. simplify_eq.
    rewrite <-app_assoc. by constructor.
  - (* closing parenthesis *)
    destruct Hinv as (ts0 & ts1 & e & ops0 & out0 & -> & Hl & Hg & Hp).
    destruct Hl as [|ts0 ops0 out0 l Ho].
    { by destruct Hp as [[-> ->]|(x' & [] & e1 & e2 & -> & Hb & -> & ->)]. }
    rewrite (a_till_pend _ _ _ _ _ _ Hp) in Hst. simplify_eq.
    pose proof (opened_term _ _ _ _ _ Ho (GT_par l x ts1 e Hg)) as Hc.
    rewrite <-!app_assoc. simpl. by destruct (a_nots ops0 (rev (postfix e) ++ out0)).
  - (* negation *) by constructor.
  - (* variable *)
    pose proof (opened_term _ _ _ _ _ Hinv (GT_var x)) as Hc. simpl in *.
    by destruct (a_nots ops ((x, TST_OP_VAR) :: out)).
  - (* opening parenthesis *) by do 2 constructor.
Qed.

Lemma sy_inv_run ts ts0 s s' :
  sy_inv ts0 s → a_run ts s = inr s' → sy_inv (ts0 ++ ts) s'.
Proof.
  revert ts0 s. induction ts as [|y ts IH]; intros ts0 s Hi Hr; simplify_eq/=.
  { by rewrite app_nil_r. }
  destruct (a_step s y) as [e|s1] eqn:E; [done|].
  rewrite cons_middle, app_assoc. eauto using sy_inv_step.
Qed.

Lemma a_step_prev s y ops out prev :
  a_step s y = inr (ops, out, prev) → prev = Some y.2.
Proof.
  destruct s as [[ops0 out0] prev0], y as [x o]. unfold a_step. simpl.
  destruct o; repeat case_match; naive_solver.
Qed.

Lemma a_run_prev ts s y ops out prev :
  a_run (ts ++ [y]) s = inr (ops, out, prev) → prev = Some y.2.
Proof.
  rewrite a_run_app. destruct (a_run ts s) as [|s1]; simpl; [done|].
  destruct (a_step s1 y) as [|s2] eqn:E; simpl; [done|].
  intros; simplify_eq. eauto using a_step_prev.
Qed.

Lemma a_yard_spec ts o :
  ts ≠ [] → a_yard ts = inr o ↔ ∃ e, g_expr ts e ∧ o = postfix e.
Proof.
  intros Hne. destruct (exists_last Hne) as (ts' & y & ->). unfold a_yard. rewrite last_snoc.
  split.
  - destruct (a_run (ts' ++ [y]) ([], [], None)) as [|[[ops out] prev]] eqn:E; [done|].
    pose proof (a_run_prev _ _ _ _ _ _ E) as ->.
    apply (sy_inv_run _ [] ([],[],None)) in E; [|by do 2 constructor]. simpl in E.
    destruct (check_two (Some y.2)); simpl; [|done].
    destruct E as (ts0 & ts1 & e & ops0 & out0 & -> & Hl & Hg & Hp).
    destruct Hl as [|ts0 ops0 out0 l Ho].
    + rewrite (a_flush_pend _ _ _ _ Hp), app_nil_r, rev_involutive. naive_solver.
    + destruct Hp as [[-> ->]|(x' & [] & e1 & e2 & -> & Hb & -> & ->)]; done.
  - intros (e & Hg & ->).
    destruct (proj2 g_run _ _ Hg [] [] None) as (ops & out & o & Ho & Hr & Hp); [done|by left|].
    rewrite Hr. pose proof (a_run_prev _ _ _ _ _ _ Hr) as [= ->]. rewrite Ho. simpl.
    by rewrite (a_flush_pend _ _ _ _ Hp), app_nil_r, rev_involutive.
Qed.

(** ** The array version computes the same result without leaving its arrays *)

(** The tokens of a buffer, with their indices. *)
Definition tks (b : list tst_expr_tok) : list tk := imap (λ i t, (i, tok_op t)) b.

Section arrays.
Context (b : list tst_expr_tok) (cnt : nat).

(** [y] is the token the pointer [y.1] refers to. *)
Definition tk_valid (y : tk) : Prop := tok_op <$> b !! y.1 = Some y.2.

Lemma tk_valid_load x o :
  tk_valid (x, o) → ∃ t, b !! x = Some t ∧ load (b !! x) = Done t ∧ tok_op t = o.
Proof. unfold tk_valid. simpl. destruct (b !! x) as [t|]; naive_solver. Qed.

Lemma stack_push_ok cap st (x : nat) :
  length st < cap → stack_push cap st x = Done (x :: st).
Proof. intros. unfold stack_push. by rewrite decide_True. Qed.

Lemma pop_nots_ok cap ops out :
  Forall tk_valid ops → length ops + length out ≤ cap →
  pop_nots b cap (ops.*1) (out.*1) =
  Done ((a_nots ops out).1.*1, (a_nots ops out).2.*1).
Proof.
  intros Hv. revert out. induction Hv as [|[x o] ops Hy _ IH]; intros out Hc; [done|].
  simpl. destruct (tk_valid_load _ _ Hy) as (t & _ & -> & Ht). simpl in *. rewrite Ht.
  destruct o; simpl; try done.
  rewrite stack_push_ok by (rewrite length_fmap; lia). simpl.
  apply (IH ((x, TST_OP_NOT) :: out)). simpl. lia.
Qed.

Lemma pop_till_lpar_ok cap ops out :
  Forall tk_valid ops → length ops + length out ≤ cap →
  pop_till_lpar b cap (ops.*1) (out.*1) =
  Done ((λ r, (r.1.*1, r.2.*1)) <$> a_till ops out).
Proof.
  intros Hv. revert out. induction Hv as [|[x o] ops Hy _ IH]; intros out Hc; [done|].
  simpl. destruct (tk_valid_load _ _ Hy) as (t & _ & -> & Ht). simpl in *. rewrite Ht.
  destruct o; simpl; try done;
    (rewrite stack_push_ok by (rewrite length_fmap; lia); simpl;
     apply (IH ((x, _) :: out)); simpl; lia).
Qed.

Lemma pop_remaining_ok cap ops out :
  Forall tk_valid ops → length ops + length out ≤ cap →
  pop_remaining b cap (ops.*1) (out.*1) =
  Done match a_flush ops out with inl e => inl e | inr o => inr (o.*1) end.
Proof.
  intros Hv. revert out. induction Hv as [|[x o] ops Hy _ IH]; intros out Hc; [done|].
  simpl. destruct (tk_valid_load _ _ Hy) as (t & _ & -> & Ht). simpl in *. rewrite Ht.
  destruct o; simpl; try done;
    (rewrite stack_push_ok by (rewrite length_fmap; lia); simpl;
     apply (IH ((x, _) :: out)); simpl; lia).
Qed.

Definition conc (s : a_state) : sy_state := Sy (s.1.1.*1) (s.1.2.*1) s.2.

Definition conc_result (r : sum (nat * string) a_state) : sy_result :=
  match r with inl (i, m) => Err i m | inr s => Go (conc s) end.

Definition fits (n : nat) (s : a_state) : Prop :=
  Forall tk_valid s.1.1 ∧ length s.1.1 + length s.1.2 ≤ n.

Lemma a_nots_fits ops out n :
  Forall tk_valid ops → length ops + length out ≤ n →
  Forall tk_valid (a_nots ops out).1 ∧
  length (a_nots ops out).1 + length (a_nots ops out).2 ≤ n.
Proof.
  intros Hv. revert out. induction Hv as [|[x o] ops Hy Hv IH]; intros out Hc; simpl in *.
  - by split; [constructor|].
  - destruct o; try (split; [by constructor|simpl; lia]). apply IH. simpl. lia.
Qed.

Lemma a_till_fits ops out n r :
  Forall tk_valid ops → length ops + length out ≤ n → a_till ops out = Some r →
  Forall tk_valid r.1 ∧ length r.1 + length r.2 ≤ n.
Proof.
  intros Hv. revert out. induction Hv as [|[x o] ops Hy Hv IH]; intros out Hc Hr; simpl in *; [done|].
  destruct o; try (eapply (IH (_ :: out)); [|done]; simpl; lia).
  simplify_eq/=. split; [done|lia].
Qed.

Lemma pop_binop_ok cap ops out :
  Forall tk_valid ops → length ops + length out ≤ cap →
  pop_binop b cap (ops.*1) (out.*1) =
  Done ((a_binop ops out).1.*1, (a_binop ops out).2.*1).
Proof.
  intros Hv Hl. destruct Hv as [|[x o] ops Hy Hv]; [done|]. unfold pop_binop. simpl in *.
  destruct (tk_valid_load _ _ Hy) as (t & _ & -> & Ht). simpl. rewrite Ht.
  destruct o; try done; simpl; rewrite stack_push_ok by (rewrite length_fmap; lia); done.
Qed.

Lemma a_binop_fits ops out n :
  Forall tk_valid ops → length ops + length out ≤ n →
  Forall tk_valid (a_binop ops out).1 ∧
  length (a_binop ops out).1 + length (a_binop ops out).2 ≤ n.
Proof.
  intros Hv Hl. destruct Hv as [|[x o] ops Hy Hv]; [by split; [constructor|]|].
  destruct o; simpl in *; (split; [by try constructor|lia]).
Qed.

Lemma sy_step_ok n s y :
  fits n s → n < cnt → tk_valid y →
  sy_step b cnt (conc s) y.1 y.2 = Done (conc_result (a_step s y)) ∧
  match a_step s y with inl _ => True | inr s' => fits (S n) s' end.
Proof.
  destruct s as [[ops out] prev], y as [x o]. unfold fits. simpl. intros [Hv Hl] Hn Hy.
  unfold a_step, sy_step. simpl.
  destruct o; simpl.
  - (* ! *) destruct (check_one prev); [done|].
    rewrite stack_push_ok by (rewrite length_fmap; lia). simpl.
    split; [done|]. split; [by constructor|lia].
  - (* & *) destruct (check_two prev); simpl; [|done].
    rewrite pop_binop_ok by (done || lia). simpl.
    destruct (a_binop_fits ops out n) as [? ?]; [done..|].
    destruct (a_binop ops out) as [ops' out']; simpl in *.
    rewrite stack_push_ok by (rewrite length_fmap; lia). simpl.
    split; [done|]. split; [by constructor|simpl; lia].
  - (* | *) destruct (check_two prev); simpl; [|done].
    rewrite pop_binop_ok by (done || lia). simpl.
    destruct (a_binop_fits ops out n) as [? ?]; [done..|].
    destruct (a_binop ops out) as [ops' out']; simpl in *.
    rewrite stack_push_ok by (rewrite length_fmap; lia). simpl.
    split; [done|]. split; [by constructor|simpl; lia].
  - (* variable *) destruct (check_one prev); [done|].
    rewrite stack_push_ok by (rewrite length_fmap; lia). simpl.
    rewrite (pop_nots_ok _ ops ((x, TST_OP_VAR) :: out)) by (simpl; done || lia). simpl.
    destruct (a_nots_fits ops ((x, TST_OP_VAR) :: out) (S n)) as [? ?]; [done|simpl; lia|].
    by destruct (a_nots ops _).
  - (* ( *) destruct (check_one prev); [done|].
    rewrite stack_push_ok by (rewrite length_fmap; lia). simpl.
    split; [done|]. split; [by constructor|lia].
  - (* ) *) destruct (check_two prev); simpl; [|done].
    rewrite (pop_till_lpar_ok _ ops out) by (done || lia). simpl.
    destruct (a_till ops out) as [[ops' out']|] eqn:E; simpl; [|done].
    apply (a_till_fits _ _ n) in E as [Hv' Hl']; [|done..]. simpl in *.
    rewrite (pop_nots_ok _ ops' out') by (done || lia). simpl.
    destruct (a_nots_fits ops' out' (S n)) as [? ?]; [done|lia|].
    by destruct (a_nots ops' out').
Qed.

Lemma sy_loop_ok pre todo s :
  b = pre ++ todo → cnt = length b → fits (length pre) s →
  let r := a_run (imap (λ k t, (length pre + k, tok_op t)) todo) s in
  sy_loop b cnt (conc s) (length pre) todo = Done (conc_result r) ∧
  match r with inl _ => True | inr s' => fits cnt s' end.
Proof.
  revert pre s. induction todo as [|t todo IH]; intros pre s Hb Hc Hf; simpl.
  { split; [done|]. by rewrite Hc, Hb, app_nil_r. }
  rewrite Nat.add_0_r.
  destruct (sy_step_ok (length pre) s (length pre, tok_op t)) as [Hs Hf']; [done| | |].
  { rewrite Hc, Hb, length_app. simpl. lia. }
  { unfold tk_valid. simpl. by rewrite Hb, lookup_app_r, Nat.sub_diag by done. }
  simpl in Hs. rewrite Hs. simpl.
  destruct (a_step s (length pre, tok_op t)) as [[i m]|s']; simpl; [done|].
  destruct (IH (pre ++ [t]) s') as [H1 H2].
  { by rewrite <-app_assoc. }
  { done. }
  { by rewrite length_app, Nat.add_1_r. }
  rewrite length_app, Nat.add_1_r in H1, H2.
  rewrite (imap_ext _ (λ k t, (S (length pre) + k, tok_op t))); [by rewrite H1|].
  intros k t' _. simpl. f_equal. lia.
Qed.
End arrays.

(** ** Linking the output *)

(** Following [next] from [i] gives the tokens of [l]. *)
Inductive chain (b : list tst_expr_tok) : option nat → list nat → Prop :=
  | chain_nil : chain b None []
  | chain_cons x l t : b !! x = Some t → chain b (tok_next t) l → chain b (Some x) (x :: l).

Lemma link_rpn_chain l b :
  NoDup l → Forall (λ x, x < length b) l →
  ∃ b', link_rpn b l = Done b' ∧ chain b' (head l) l ∧
        (∀ x, x ∉ l → b' !! x = b !! x) ∧
        set_next None <$> b' = set_next None <$> b.
Proof.
  intros Hnd. revert b. induction Hnd as [|x l Hx Hnd IH]; intros b Hlt; simpl.
  { exists b. repeat split; auto. constructor. }
  apply Forall_cons in Hlt as [Hxb Hlt].
  destruct (lookup_lt_is_Some_2 _ _ Hxb) as [t Ht]. rewrite Ht. simpl.
  destruct (IH (<[x := set_next (head l) t]> b)) as (b' & Hl & Hc & Hout & Hf).
  { eapply Forall_impl; [done|]. intros y. simpl. by rewrite length_insert. }
  exists b'. split; [done|]. split; [|split].
  - econstructor; [rewrite Hout by done; by apply list_lookup_insert_eq|done].
  - intros y Hy. apply not_elem_of_cons in Hy as [Hne Hy].
    by rewrite Hout, list_lookup_insert_ne by done.
  - rewrite Hf, list_fmap_insert. apply list_insert_id.
    by rewrite list_lookup_fmap, Ht.
Qed.

(** The operators and variables of an expression are the tokens of the input
    that are not parentheses, each once. *)
Lemma postfix_perm :
  (∀ ts e, g_term ts e →
     postfix e ≡ₚ filter (λ y, y.2 ≠ TST_OP_LPAR ∧ y.2 ≠ TST_OP_RPAR) ts) ∧
  (∀ ts e, g_expr ts e →
     postfix e ≡ₚ filter (λ y, y.2 ≠ TST_OP_LPAR ∧ y.2 ≠ TST_OP_RPAR) ts).
Proof.
  apply grammar_ind; intros; simpl.
  - done.
  - rewrite filter_cons_True by done. rewrite <-H0. by rewrite (comm (++)).
  - rewrite filter_cons_False by (intros [? ?]; done). rewrite filter_app.
    rewrite filter_cons_False by (intros [? ?]; done). rewrite H0. by rewrite filter_nil, app_nil_r.
  - done.
  - rewrite filter_app, filter_cons_True by (by destruct o). rewrite H0, H3. solve_Permutation.
Qed.


Lemma tks_lookup b i t : b !! i = Some t → tks b !! i = Some (i, tok_op t).
Proof. intros Hb. unfold tks. by rewrite list_lookup_imap, Hb. Qed.

Lemma tks_elem b y : y ∈ tks b → tk_valid b y ∧ y.1 < length b.
Proof.
  unfold tks, tk_valid. intros (i & t & -> & Ht)%elem_of_lookup_imap_1. simpl.
  rewrite Ht. split; [done|]. by apply lookup_lt_Some in Ht.
Qed.

Lemma tks_NoDup b : NoDup ((tks b).*1).
Proof.
  unfold tks. rewrite fmap_imap.
  replace (imap _ b) with (seq 0 (length b)); [apply NoDup_seq|].
  apply list_eq. intros i. rewrite list_lookup_imap. simpl.
  destruct (decide (i < length b)) as [Hi|Hi].
  - rewrite lookup_seq_lt by done. by destruct (lookup_lt_is_Some_2 _ _ Hi) as [t ->].
  - rewrite lookup_seq_ge by lia. by rewrite lookup_ge_None_2 by lia.
Qed.

(** The error paths name a token of the input. *)
Lemma a_run_err ts s i m :
  a_run ts s = inl (i, m) → i ∈ ts.*1.
Proof.
  revert s. induction ts as [|y ts IH]; intros s; simpl; [done|].
  destruct (a_step s y) as [e|s'] eqn:E; [|intros; constructor 2; eauto].
  destruct s as [[ops out] prev]. unfold a_step in E. intros; simplify_eq.
  destruct y as [x o], o; simpl in *; repeat case_match; simplify_eq; by constructor.
Qed.

Lemma a_flush_err (P : tk → Prop) ops out i m :
  Forall P ops → a_flush ops out = inl (i, m) → ∃ o, P (i, o).
Proof.
  intros Hv. revert out. induction Hv as [|[x o] ops Hy _ IH]; intros out; simpl; [done|].
  destruct o; naive_solver.
Qed.

Lemma sy_err_ok b i o m :
  tk_valid b (i, o) →
  ∃ t, b !! i = Some t ∧
       sy_err b i m = Done (1%Z, Expr None (<[i := set_priv (PMsg m) t]> b)).
Proof.
  intros (t & Ht & _ & _)%tk_valid_load. exists t. unfold sy_err. by rewrite Ht.
Qed.

Lemma a_yard_linkable b o :
  b ≠ [] → a_yard (tks b) = inr o →
  NoDup (o.*1) ∧ Forall (λ x, x < length b) (o.*1) ∧ length o ≤ length b.
Proof.
  intros Hne Hy. assert (tks b ≠ []) as Hne' by (by destruct b).
  apply a_yard_spec in Hy as (e & Hg & ->); [|done].
  pose proof (proj2 postfix_perm _ _ Hg) as Hp.
  assert (filter (λ y, y.2 ≠ TST_OP_LPAR ∧ y.2 ≠ TST_OP_RPAR) (tks b) `sublist_of` tks b) as Hs
    by apply sublist_filter.
  split; [|split].
  - rewrite Hp. eapply sublist_NoDup; [apply tks_NoDup|]. by apply fmap_sublist.
  - rewrite Hp. apply Forall_fmap, Forall_forall. intros y Hy.
    apply list_elem_of_filter in Hy as [_ Hy]. by apply tks_elem in Hy as [_ ?].
  - rewrite Hp. apply sublist_length in Hs. unfold tks in *. by rewrite length_imap in Hs.
Qed.

Lemma tks_last b t :
  last b = Some t → last (tks b) = Some (length b - 1, tok_op t) ∧ b !! (length b - 1) = Some t.
Proof.
  rewrite !last_lookup. unfold tks. rewrite length_imap, <-Nat.sub_1_r.
  intros Hb. split; [by apply tks_lookup|done].
Qed.

Lemma shunting_yard_a_yard b :
  b ≠ [] →
  match a_yard (tks b) with
  | inl (i, m) =>
      ∃ t, b !! i = Some t ∧
           shunting_yard b (length b) =
             Done (1%Z, Expr None (<[i := set_priv (PMsg m) t]> b))
  | inr o =>
      ∃ b', shunting_yard b (length b) = Done (0%Z, Expr (head (o.*1)) b') ∧
            chain b' (head (o.*1)) (o.*1) ∧ set_next None <$> b' = set_next None <$> b
  end.
Proof.
  intros Hne. pose proof (a_yard_linkable b) as Hlink.
  destruct (proj2 (last_is_Some b) Hne) as [t [Hlt Hlb]%tks_last].
  destruct (sy_loop_ok b (length b) [] b ([], [], None)) as [Hr Hf]; [done..|by repeat constructor|].
  simpl in Hr, Hf. fold (tks b) in Hr, Hf. unfold conc in Hr. simpl in Hr.
  unfold a_yard, shunting_yard in *. rewrite firstn_all, Hr. clear Hr. rewrite Hlt, Hlb in *. simpl.
  destruct (a_run (tks b) ([], [], None)) as [[i m]|[[ops out] prev]] eqn:E; simpl.
  { apply a_run_err, list_elem_of_fmap in E as ([i' o] & -> & Hin).
    apply tks_elem in Hin as [Hv _]. eauto using sy_err_ok. }
  destruct Hf as [Hv Hl]. simpl in *.
  destruct (check_two (Some (tok_op t))) eqn:Ec; simpl.
  2: { apply (sy_err_ok _ _ (tok_op t)). unfold tk_valid. simpl. by rewrite Hlb. }
  rewrite pop_remaining_ok by (done || lia). simpl in *.
  destruct (a_flush ops out) as [[i m]|o] eqn:Ef; simpl.
  { destruct (a_flush_err _ _ _ _ _ Hv Ef). eauto using sy_err_ok. }
  destruct (Hlink (rev o)) as (Hnd & Hlt' & Hle); [done..|].
  destruct (link_rpn_chain _ _ Hnd Hlt') as (b' & Hb' & Hc & _ & Hs).
  rewrite length_rev in Hle. rewrite decide_True by (rewrite length_rev, length_fmap; lia).
  simpl. exists b'. replace (rev o.*1) with ((rev o).*1) by apply map_rev. by rewrite Hb'.
Qed.

(** * Evaluation: equivalence with the value of the expression tree *)

Definition truthy (v : Z) : bool := negb (bool_decide (v = 0%Z)).

(** The value of an expression when the variable at token [x] maps to [f x]. *)
Fixpoint beval (f : nat → Z) (e : bexp) : Z :=
  match e with
  | BVar x => f x
  | BNot _ e => Z.b2z (negb (truthy (beval f e)))
  | BBin _ TST_OP_AND e1 e2 => Z.b2z (truthy (beval f e1) && truthy (beval f e2))
  | BBin _ _ e1 e2 => Z.b2z (truthy (beval f e1) || truthy (beval f e2))
  end.

(** Entries of the evaluation stack the expression needs. *)
Fixpoint depth (e : bexp) : nat :=
  match e with
  | BVar _ => 1
  | BNot _ e => depth e
  | BBin _ _ e1 e2 => depth e1 `max` S (depth e2)
  end.

(** No variable of the expression is reported as undefined. *)
Fixpoint defined (f : nat → Z) (e : bexp) : bool :=
  match e with
  | BVar x => negb (bool_decide (f x = (-1)%Z))
  | BNot _ e => defined f e
  | BBin _ _ e1 e2 => defined f e1 && defined f e2
  end.

Fixpoint wf_ops (e : bexp) : bool :=
  match e with
  | BVar _ => true
  | BNot _ e => wf_ops e
  | BBin _ o e1 e2 => is_bin o && wf_ops e1 && wf_ops e2
  end.

Lemma grammar_wf_ops :
  (∀ ts e, g_term ts e → wf_ops e = true) ∧ (∀ ts e, g_expr ts e → wf_ops e = true).
Proof. apply grammar_ind; simpl; intros; rewrite ?andb_true_iff; auto. Qed.

Lemma c_not_spec x : c_not x = Z.b2z (negb (truthy x)).
Proof. unfold c_not, truthy. repeat case_decide || case_bool_decide; done. Qed.
Lemma c_and_spec x y : c_and x y = Z.b2z (truthy y && truthy x).
Proof. unfold c_and, truthy. repeat case_decide || case_bool_decide; done. Qed.
Lemma c_or_spec x y : c_or x y = Z.b2z (truthy y || truthy x).
Proof. unfold c_or, truthy. repeat case_decide || case_bool_decide; done. Qed.

Lemma chain_inv b i x o l :
  chain b i (x :: l) → tk_valid b (x, o) →
  ∃ t, i = Some x ∧ b !! x = Some t ∧ tok_op t = o ∧ chain b (tok_next t) l.
Proof.
  intros Hc (t' & Ht' & _ & Hop)%tk_valid_load.
  inversion Hc as [|? ? t Ht Hc']; simplify_eq. eauto.
Qed.

Lemma stack_get_nat stack (n : nat) v :
  stack !! n = Some v → stack_get stack (Z.of_nat n) = Done v.
Proof.
  intros Hs. unfold stack_get. rewrite decide_True by lia. by rewrite Nat2Z.id, Hs.
Qed.

Lemma stack_set_nat stack (n : nat) v :
  n < length stack → stack_set stack (Z.of_nat n) v = Done (<[n := v]> stack).
Proof. intros Hs. unfold stack_set. rewrite decide_True by lia. by rewrite Nat2Z.id. Qed.

Section eval.
Context (map : tst_expr_tok → outcome Z) (b : list tst_expr_tok) (f : nat → Z).
Hypothesis map_f : ∀ x t, b !! x = Some t → tok_op t = TST_OP_VAR → map t = Done (f x).

(** Evaluating the postfix form of [e] with [n] entries on the stack. *)
Lemma eval_postfix e : ∀ rest i fuel stack n,
  wf_ops e = true → Forall (tk_valid b) (postfix e) →
  chain b i ((postfix e).*1 ++ rest) → length stack = MAX_STACK →
  if decide (n + depth e ≤ MAX_STACK ∧ defined f e = true) then
    ∃ i' stack', chain b i' rest ∧ length stack' = MAX_STACK ∧
      (∀ k, k < n → stack' !! k = stack !! k) ∧ stack' !! n = Some (beval f e) ∧
      eval_loop map (length (postfix e) + fuel) b i stack (Z.of_nat n - 1) =
      eval_loop map fuel b i' stack' (Z.of_nat n)
  else eval_loop map (length (postfix e) + fuel) b i stack (Z.of_nat n - 1) = Done (-1)%Z.
Proof.
  induction e as [x|x e IH|x o e1 IH1 e2 IH2]; intros rest i fuel stack n Hwf Hv Hc Hlen.
  - simpl in Hc. apply Forall_cons in Hv as [Hvx _].
    destruct (chain_inv _ _ _ _ _ Hc Hvx) as (t & -> & Ht & Hop & Hc'). simpl.
    rewrite Ht. simpl. rewrite Hop.
    replace (Z.of_nat n - 1 + 1)%Z with (Z.of_nat n) by lia.
    destruct (decide (Z.of_nat MAX_STACK ≤ Z.of_nat n)%Z).
    { rewrite decide_False by lia. done. }
    rewrite (map_f _ _ Ht Hop). simpl.
    rewrite stack_set_nat by lia. simpl.
    destruct (decide (f x = (-1)%Z)) as [E|E].
    { rewrite decide_False; [done|]. intros [_ Hd]. by rewrite bool_decide_true in Hd. }
    rewrite decide_True by (rewrite bool_decide_false by done; split; [lia|done]).
    exists (tok_next t), (<[n := f x]> stack). split; [done|].
    rewrite length_insert. split; [done|]. split; [|split; [|done]].
    + intros k Hk. by rewrite list_lookup_insert_ne by lia.
    + by rewrite list_lookup_insert_eq by lia.
  - simpl in *. apply Forall_app in Hv as [Hv Hvx].
    rewrite fmap_app, <-app_assoc in Hc. rewrite length_app, <-Nat.add_assoc. simpl in *.
    specialize (IH _ _ (S fuel) stack n Hwf Hv Hc Hlen).
    destruct (decide _) as [[Hd Hdef]|]; [|done].
    destruct IH as (i' & stack' & Hc' & Hlen' & Hk & Hn & ->).
    apply Forall_cons in Hvx as [Hvx _].
    destruct (chain_inv _ _ _ _ _ Hc' Hvx) as (t & -> & Ht & Hop & Hc''). simpl.
    rewrite Ht. simpl. rewrite Hop, (stack_get_nat _ _ _ Hn). simpl.
    pose proof (lookup_lt_Some _ _ _ Hn).
    rewrite stack_set_nat by done. simpl.
    exists (tok_next t), (<[n := c_not (beval f e)]> stack').
    rewrite length_insert. split; [done|]. split; [done|]. split; [|split; [|done]].
    + intros k Hlt. rewrite list_lookup_insert_ne by lia. auto.
    + by rewrite list_lookup_insert_eq, c_not_spec by done.
  - simpl in *. apply andb_true_iff in Hwf as [[Hb Hwf1]%andb_true_iff Hwf2].
    rewrite !Forall_app in Hv. destruct Hv as (Hv1 & Hv2 & Hvx).
    rewrite !fmap_app, <-!app_assoc in Hc. rewrite !length_app, <-!Nat.add_assoc. simpl in *.
    specialize (IH1 _ _ (length (postfix e2) + S fuel) stack n Hwf1 Hv1 Hc Hlen).
    destruct (decide (n + depth e1 ≤ _ ∧ _)) as [[Hd1 Hdef1]|Hno].
    2: { rewrite decide_False; [done|]. intros [? [? ?]%andb_true_iff]. apply Hno. split; [lia|done]. }
    destruct IH1 as (i1 & st1 & Hc1 & Hlen1 & Hk1 & Hn1 & ->).
    specialize (IH2 _ _ (S fuel) st1 (S n) Hwf2 Hv2 Hc1 Hlen1).
    replace (Z.of_nat (S n) - 1)%Z with (Z.of_nat n) in IH2 by lia.
    destruct (decide (S n + depth e2 ≤ _ ∧ _)) as [[Hd2 Hdef2]|Hno].
    2: { rewrite decide_False; [done|]. intros [? [? ?]%andb_true_iff]. apply Hno. split; [lia|done]. }
    rewrite decide_True by (rewrite Hdef1, Hdef2; split; [lia|done]).
    destruct IH2 as (i2 & st2 & Hc2 & Hlen2 & Hk2 & Hn2 & ->).
    apply Forall_cons in Hvx as [Hvx _].
    destruct (chain_inv _ _ _ _ _ Hc2 Hvx) as (t & -> & Ht & Hop & Hc''). simpl.
    rewrite <-Hk2 in Hn1 by lia. pose proof (lookup_lt_Some _ _ _ Hn1).
    rewrite Ht. simpl. rewrite Hop.
    destruct o; try done; simpl; rewrite (stack_get_nat _ _ _ Hn2); simpl;
      replace (Z.of_nat (S n) - 1)%Z with (Z.of_nat n) by lia;
      rewrite (stack_get_nat _ _ _ Hn1); simpl; rewrite !stack_set_nat by done; simpl;
      rewrite ?c_and_spec, ?c_or_spec;
      (eexists (tok_next t), (<[n := _]> st2); rewrite length_insert;
       split; [done|]; split; [done|]; split; [|split; [|done]];
       [intros k Hlt; rewrite list_lookup_insert_ne, Hk2 by lia; auto
       |by rewrite list_lookup_insert_eq by done]).
Qed.
End eval.

(** * The component's contract *)

(** The tokens of an expression string. *)
Definition tokens_of (expr : list ascii) : list tk := imap (λ i w, (i, text_op w)) (lex expr).

(** [ex] is a parsed form of the string [expr] with expression tree [e]. *)
Definition represents (expr : list ascii) (ex : tst_expr) (e : bexp) : Prop :=
  g_expr (tokens_of expr) e ∧ chain (buf ex) (rpn ex) ((postfix e).*1) ∧
  tok_text expr <$> buf ex = lex expr ∧ tok_op <$> buf ex = text_op <$> lex expr ∧
  Forall (tok_in expr) (buf ex).

Lemma tks_tokens_of expr b : tok_op <$> b = text_op <$> lex expr → tks b = tokens_of expr.
Proof.
  intros Hb. unfold tks, tokens_of.
  rewrite <-(imap_fmap (λ i o, (i, o)) tok_op), Hb.
  apply (imap_fmap (λ i o, (i, o)) text_op).
Qed.

Lemma set_next_fields (b b' : list tst_expr_tok) :
  set_next None <$> b' = set_next None <$> b →
  tok_op <$> b' = tok_op <$> b ∧ tok_priv <$> b' = tok_priv <$> b ∧
  (∀ expr, tok_text expr <$> b' = tok_text expr <$> b) ∧
  (∀ expr, Forall (tok_in expr) b → Forall (tok_in expr) b').
Proof.
  intros H.
  assert (∀ {A} (g : tst_expr_tok → A), (∀ t, g (set_next None t) = g t) →
            g <$> b' = g <$> b) as Hg.
  { intros A g Hgt. apply (f_equal (fmap g)) in H. rewrite <-!list_fmap_compose in H.
    by rewrite !(list_fmap_ext (g ∘ set_next None) g) in H by (intros; apply Hgt). }
  split_and!; [by apply Hg|by apply Hg|intros expr; by apply Hg|]. intros expr Hin.
  apply (Forall_fmap (set_next None) (tok_in expr)) in Hin.
  rewrite <-H in Hin. exact (proj1 (Forall_fmap (set_next None) (tok_in expr) b') Hin).
Qed.

(** Everything [tst_bool_expr_parse] does after a successful allocation. *)
Lemma parse_cases malloc expr mem :
  cstring expr → lex expr ≠ [] → malloc (length (lex expr)) = Some mem →
  length mem = length (lex expr) →
  match a_yard (tokens_of expr) with
  | inr o =>
      ∃ ex, tst_bool_expr_parse malloc expr = Done (Some ex, []) ∧
            chain (buf ex) (rpn ex) (o.*1) ∧
            tok_text expr <$> buf ex = lex expr ∧
            tok_op <$> buf ex = text_op <$> lex expr ∧
            tok_priv <$> buf ex = tok_priv <$> mem ∧ Forall (tok_in expr) (buf ex)
  | inl (i, m) =>
      ∃ b t, tok_text expr <$> b = lex expr ∧ tok_priv <$> b = tok_priv <$> mem ∧
             b !! i = Some t ∧
             tst_bool_expr_parse malloc expr =
               (msg ← tst_bool_expr_err expr
                        (Expr None (<[i := set_priv (PMsg m) t]> b)) (length b);
                Done (None, msg))
  end.
Proof.
  intros Hs Hne Hm Hl. assert (length (lex expr) ≠ 0) as Hne' by (by destruct (lex expr)).
  destruct (tokenize_passes expr mem Hs Hl) as (b & Hp1 & Hp2 & Ht & Ho & Hpr & Hin).
  assert (length b = length (lex expr)) as Hb by (by rewrite <-Ht, length_fmap).
  unfold tst_bool_expr_parse. rewrite Hp1. simpl. rewrite decide_False, Hm, Hp2 by done. simpl.
  rewrite <-Hb. pose proof (shunting_yard_a_yard b) as Hy.
  rewrite (tks_tokens_of _ _ Ho) in Hy.
  destruct (a_yard (tokens_of expr)) as [[i m]|o].
  - destruct Hy as (t & Hbt & ->); [by intros ->|]. exists b, t. repeat split; auto.
  - destruct Hy as (b' & -> & Hc & (Ho' & Hpr' & Ht' & Hin')%set_next_fields); [by intros ->|].
    eexists. split; [done|]. simpl. rewrite Ho', Hpr', Ht'. auto 6.
Qed.

Lemma tokens_of_nil expr : lex expr ≠ [] → tokens_of expr ≠ [].
Proof. unfold tokens_of. by destruct (lex expr). Qed.

Lemma represents_eval expr ex e map f junk :
  represents expr ex e →
  (∀ x t, buf ex !! x = Some t → tok_op t = TST_OP_VAR → map t = Done (f x)) →
  length junk = MAX_STACK →
  tst_bool_expr_eval map junk ex =
  Done (if decide (depth e ≤ MAX_STACK ∧ defined f e = true) then beval f e else (-1)%Z).
Proof.
  intros (Hg & Hc & _ & Ho & _) Hmap Hj. unfold tst_bool_expr_eval.
  assert (Forall (tk_valid (buf ex)) (postfix e)) as Hv.
  { rewrite (proj2 postfix_perm _ _ Hg), <-(tks_tokens_of _ _ Ho).
    apply Forall_forall. intros y [_ Hy]%list_elem_of_filter. by apply tks_elem. }
  assert (length (postfix e) ≤ length (buf ex)) as Hle.
  { rewrite (proj2 postfix_perm _ _ Hg), <-(tks_tokens_of _ _ Ho).
    etrans; [apply length_filter|]. unfold tks. by rewrite length_imap. }
  pose proof (eval_postfix map (buf ex) f Hmap e [] (rpn ex)
    (length (buf ex) - length (postfix e)) junk 0 (proj2 grammar_wf_ops _ _ Hg) Hv) as He.
  rewrite app_nil_r in He.
  replace (length (postfix e) + (length (buf ex) - length (postfix e)))
    with (length (buf ex)) in He by lia.
  specialize (He Hc Hj). change (Z.of_nat 0 - 1)%Z with (-1)%Z in He. simpl in He.
  destruct (decide _) as [Hd|Hd]; [|done].
  destruct He as (i' & st & Hc' & _ & _ & Hst & ->). inversion Hc'; subst.
  destruct (length (buf ex) - length (postfix e)); by apply (stack_get_nat st 0).
Qed.

Lemma grammar_nonempty :
  (∀ ts e, g_term ts e → ts ≠ []) ∧ (∀ ts e, g_expr ts e → ts ≠ []).
Proof. apply grammar_ind; intros; try done. by intros []%app_nil. Qed.

Lemma parse_nil malloc expr :
  cstring expr → lex expr = [] → tst_bool_expr_parse malloc expr = Done (None, []).
Proof.
  intros Hs He. destruct (tokenize_passes expr [] Hs) as (b & Hp & _); [by rewrite He|].
  unfold tst_bool_expr_parse. rewrite Hp, He. done.
Qed.

Lemma parse_accepts malloc expr mem e :
  cstring expr → malloc (length (lex expr)) = Some mem →
  length mem = length (lex expr) → g_expr (tokens_of expr) e →
  ∃ ex, tst_bool_expr_parse malloc expr = Done (Some ex, []) ∧ represents expr ex e ∧
        tok_priv <$> buf ex = tok_priv <$> mem.
Proof.
  intros Hs Hm Hl Hg.
  assert (lex expr ≠ []) as Hne.
  { intros He. apply (proj2 grammar_nonempty _ _ Hg). unfold tokens_of. by rewrite He. }
  pose proof (parse_cases malloc expr mem Hs Hne Hm Hl) as Hc.
  rewrite (proj2 (a_yard_spec (tokens_of expr) (postfix e) (tokens_of_nil _ Hne))) in Hc by eauto.
  destruct Hc as (ex & Hp & Hch & Ht & Ho & Hpr & Hin). exists ex. by repeat split.
Qed.

Lemma parse_sound malloc expr mem ex err :
  cstring expr → malloc (length (lex expr)) = Some mem →
  length mem = length (lex expr) →
  tst_bool_expr_parse malloc expr = Done (Some ex, err) →
  ∃ e, represents expr ex e ∧ err = [].
Proof.
  intros Hs Hm Hl Hp. destruct (decide (lex expr = [])) as [He|Hne].
  { by rewrite parse_nil in Hp. }
  pose proof (parse_cases malloc expr mem Hs Hne Hm Hl) as Hc.
  destruct (a_yard (tokens_of expr)) as [[i m]|o] eqn:Ey.
  - destruct Hc as (b & t & _ & _ & _ & Hp'). rewrite Hp' in Hp. by destruct tst_bool_expr_err.
  - apply a_yard_spec in Ey as (e & Hg & ->); [|by apply tokens_of_nil].
    destruct Hc as (ex' & Hp' & Hch & Ht & Ho & _ & Hin). rewrite Hp' in Hp. simplify_eq.
    exists e. by repeat split.
Qed.

(** The messages [shunting_yard] stores. *)
Definition sy_messages : list string :=
  ["Expected operation"; "Expected variable or )"; "Missing (";
   "Expected variable or ("; "Unfinished expression"; "Missing )"].

Lemma a_yard_message ts i m : a_yard ts = inl (i, m) → m ∈ sy_messages.
Proof.
  assert (∀ s y i m, a_step s y = inl (i, m) → m ∈ sy_messages) as Hst.
  { intros [[ops out] prev] [x o] ? ?. unfold a_step.
    destruct o; repeat case_match; intros; simplify_eq/=; elem_of_literal. }
  assert (∀ ts s i m, a_run ts s = inl (i, m) → m ∈ sy_messages) as Hrun.
  { induction ts0 as [|y ts0 IH]; intros s ? ?; simpl; [done|].
    destruct (a_step s y) as [[]|] eqn:E; [|eauto]. intros; simplify_eq. eauto. }
  assert (∀ ops out i m, a_flush ops out = inl (i, m) → m ∈ sy_messages) as Hfl.
  { induction ops as [|[x []] ops IH]; intros; simplify_eq/=; eauto. elem_of_literal. }
  unfold a_yard. repeat case_match; intros; simplify_eq; eauto. elem_of_literal.
Qed.

Lemma first_priv_spec l i k t :
  l !! k = Some t → tok_priv t ≠ PNull → (∀ j u, j < k → l !! j = Some u → tok_priv u = PNull) →
  first_priv l i = i + k.
Proof.
  revert i k. induction l as [|u l IH]; intros i [|k] Hk Ht Hj; simplify_eq/=.
  - rewrite decide_False by done. lia.
  - rewrite decide_True by (apply (Hj 0); [lia|done]).
    rewrite (IH (S i) k); [lia|done..|]. intros j w Hlt Hw. apply (Hj (S j)); [lia|done].
Qed.

(** Reporting the error at token [i] when no other [priv] field is set. *)
Lemma tst_bool_expr_err_ok expr b i t t0 m :
  b !! i = Some t → b !! 0 = Some t0 → (∀ u, u ∈ b → tok_priv u = PNull) →
  let spaces := tok_str t - tok_str t0 in
  tst_bool_expr_err expr (Expr None (<[i := set_priv (PMsg m) t]> b)) (length b) =
  Done (drop (tok_str t0) expr ++ [NEWLINE] ++ print_spaces spaces ++ chars "^" ++
        [NEWLINE] ++ (if decide (length (chars m) < spaces)
                      then print_spaces (spaces - length (chars m) + 1) else []) ++
        chars m ++ [NEWLINE]).
Proof.
  intros Hi H0 Hnull. pose proof (lookup_lt_Some _ _ _ Hi) as Hlt.
  set (b' := <[i := set_priv (PMsg m) t]> b).
  assert (b' !! i = Some (set_priv (PMsg m) t)) as Hi'
    by (by apply list_lookup_insert_eq).
  assert (∃ t0', b' !! 0 = Some t0' ∧ tok_str t0' = tok_str t0) as (t0' & H0' & Hstr).
  { destruct (decide (i = 0)) as [->|Hne].
    - rewrite Hi'. simplify_eq. eauto.
    - unfold b'. rewrite list_lookup_insert_ne by done. eauto. }
  unfold tst_bool_expr_err. simpl. fold b'. rewrite H0'. simpl.
  rewrite firstn_all2 by (unfold b'; by rewrite length_insert).
  rewrite (first_priv_spec b' 0 i _ Hi'); [|done|].
  2: { intros j u Hj Hu. unfold b' in Hu. rewrite list_lookup_insert_ne in Hu by lia.
       apply Hnull. by eapply list_elem_of_lookup_2. }
  simpl. rewrite Hi'. simpl. by rewrite Hstr.
Qed.

(** ** Properties *)

(** C16: the two passes of tokenize() agree with the reference lexer: the
    counting pass returns the number of tokens, and the second pass fills a
    buffer of exactly that size, without writing outside it, with tokens whose
    texts are those of the lexer and whose operation is given by their first
    character; every token lies in the string; the [priv] fields keep what
    malloc() left there. *)
Theorem tokenize_lex (expr : list ascii) (mem : list tst_expr_tok) :
  cstring expr → length mem = length (lex expr) →
  ∃ b, tokenize expr None = Done (length (lex expr), None) ∧
       tokenize expr (Some (mem, 0)) =
         Done (length (lex expr), Some (b, length (lex expr))) ∧
       tok_text expr <$> b = lex expr ∧
       tok_op <$> b = text_op <$> lex expr ∧
       tok_priv <$> b = tok_priv <$> mem ∧ Forall (tok_in expr) b.
Proof. apply tokenize_passes. Qed.

Definition ex_tok : tst_expr_tok := Tok TST_OP_VAR 0 0 None PNull.
Definition ex_malloc (n : nat) : option (list tst_expr_tok) := Some (replicate n ex_tok).
Definition ex_quoted : list ascii :=
  chars "A=" ++ [DQUOTE] ++ chars "x y" ++ [DQUOTE] ++ chars " &!B".

Lemma tokenize_lex_witness :
  ∃ b, tokenize ex_quoted (Some (replicate 4 ex_tok, 0)) = Done (4, Some (b, 4)) ∧
       tok_op <$> b = [TST_OP_VAR; TST_OP_AND; TST_OP_NOT; TST_OP_VAR].
Proof.
  destruct (tokenize_lex ex_quoted (replicate 4 ex_tok)) as (b & _ & H2 & _ & H4 & _);
    [by_decide | by vm_compute |].
  exists b. split; [exact H2 | exact H4].
Defined.

(** C14: tst_bool_expr_parse() returns an expression exactly for the strings
    whose tokens are a word of the grammar (unary !, the binary operators & and |
    with equal precedence and left associativity, parentheses); the linked list
    it builds in the token buffer is the postfix form of the expression, and
    nothing is printed. *)
Theorem tst_bool_expr_parse_grammar malloc (expr : list ascii) (mem : list tst_expr_tok) :
  cstring expr → malloc (length (lex expr)) = Some mem →
  length mem = length (lex expr) →
  ((∃ ex err, tst_bool_expr_parse malloc expr = Done (Some ex, err)) ↔
   ∃ e, g_expr (tokens_of expr) e) ∧
  (∀ e, g_expr (tokens_of expr) e →
     ∃ ex, tst_bool_expr_parse malloc expr = Done (Some ex, []) ∧ represents expr ex e).
Proof.
  intros Hs Hm Hl. split; [split|].
  - intros (ex & err & Hp). destruct (parse_sound _ _ _ _ _ Hs Hm Hl Hp) as (e & [Hg _] & _). eauto.
  - intros (e & Hg). destruct (parse_accepts _ _ _ _ Hs Hm Hl Hg) as (ex & Hp & _). eauto.
  - intros e Hg. destruct (parse_accepts _ _ _ _ Hs Hm Hl Hg) as (ex & Hp & Hr & _). eauto.
Qed.

Lemma tst_bool_expr_parse_grammar_witness :
  ∃ ex, tst_bool_expr_parse ex_malloc (chars "A|!(B&C)") = Done (Some ex, []) ∧
        represents (chars "A|!(B&C)") ex
          (BBin 1 TST_OP_OR (BVar 0) (BNot 2 (BBin 5 TST_OP_AND (BVar 4) (BVar 6)))).
Proof.
  apply (proj2 (tst_bool_expr_parse_grammar ex_malloc (chars "A|!(B&C)") (replicate 8 ex_tok)
    ltac:(by_decide) eq_refl eq_refl)).
  apply (GE_bin 1 TST_OP_OR [(0, TST_OP_VAR)]); [do 2 constructor|done|].
  apply GT_not, (GT_par 3 7 [(4, TST_OP_VAR); (5, TST_OP_AND); (6, TST_OP_VAR)]).
  apply (GE_bin 5 TST_OP_AND [(4, TST_OP_VAR)]); [do 2 constructor|done|constructor].
Defined.

(** C15: evaluating a parsed expression gives the value of its expression tree
    under the variable mapping, and -1 exactly when a variable is undefined or
    the tree needs more than MAX_STACK entries; the evaluation terminates and
    never indexes the stack outside its bounds. *)
Theorem tst_bool_expr_eval_correct malloc (expr : list ascii) (mem : list tst_expr_tok) ex err :
  cstring expr → malloc (length (lex expr)) = Some mem →
  length mem = length (lex expr) →
  tst_bool_expr_parse malloc expr = Done (Some ex, err) →
  ∃ e, g_expr (tokens_of expr) e ∧
    ∀ map f junk,
      (∀ x t, buf ex !! x = Some t → tok_op t = TST_OP_VAR → map t = Done (f x)) →
      length junk = MAX_STACK →
      tst_bool_expr_eval map junk ex =
      Done (if decide (depth e ≤ MAX_STACK ∧ defined f e = true)
            then beval f e else (-1)%Z).
Proof.
  intros Hs Hm Hl Hp. destruct (parse_sound _ _ _ _ _ Hs Hm Hl Hp) as (e & Hr & _).
  exists e. split; [apply Hr|]. intros. by eapply represents_eval.
Qed.

Definition ex_expr : tst_expr :=
  Expr (Some 1) [Tok TST_OP_NOT 0 1 (Some 3) PNull; Tok TST_OP_VAR 1 1 (Some 0) PNull;
                 Tok TST_OP_AND 2 1 None PNull; Tok TST_OP_VAR 3 1 (Some 2) PNull].

Lemma tst_bool_expr_eval_correct_witness :
  ∃ e, g_expr (tokens_of (chars "!A&B")) e ∧
    tst_bool_expr_eval (λ t, Done (Z.of_nat (tok_str t) - 1)%Z) (replicate 16 0%Z)
      ex_expr =
    Done (if decide (depth e ≤ MAX_STACK ∧ defined (λ x, Z.of_nat x - 1)%Z e = true)
          then beval (λ x, Z.of_nat x - 1)%Z e else (-1)%Z).
Proof.
  destruct (tst_bool_expr_eval_correct ex_malloc (chars "!A&B") (replicate 4 ex_tok)
    ex_expr []
    ltac:(by_decide) eq_refl eq_refl ltac:(by vm_compute)) as (e & Hg & He).
  exists e. split; [exact Hg|]. apply He; [|reflexivity].
  intros [|[|[|[|x]]]] t Ht Ho; simpl in Ht; simplify_eq; try done.
Defined.

(** for a string that is not a word of the grammar the parser returns null
    and reports the expression, a caret and one of its messages, provided the
    [priv] fields of the fresh buffer are null. *)
Theorem tst_bool_expr_parse_error malloc (expr : list ascii) (mem : list tst_expr_tok) :
  cstring expr → malloc (length (lex expr)) = Some mem →
  length mem = length (lex expr) → lex expr ≠ [] →
  (∀ u, u ∈ mem → tok_priv u = PNull) →
  (∀ e, ¬ g_expr (tokens_of expr) e) →
  ∃ m start col pad,
    m ∈ sy_messages ∧
    tst_bool_expr_parse malloc expr =
    Done (None, drop start expr ++ [NEWLINE] ++ print_spaces col ++ chars "^" ++
                [NEWLINE] ++ print_spaces pad ++ chars m ++ [NEWLINE]).
Proof.
  intros Hs Hm Hl Hne Hnull Hno.
  pose proof (parse_cases malloc expr mem Hs Hne Hm Hl) as Hc.
  destruct (a_yard (tokens_of expr)) as [[i m]|o] eqn:Ey.
  2: { apply a_yard_spec in Ey as (e & Hg & _); [by destruct (Hno e)|by apply tokens_of_nil]. }
  destruct Hc as (b & t & Ht & Hpr & Hi & ->).
  destruct b as [|t0 b]; [done|].
  rewrite (tst_bool_expr_err_ok _ (t0 :: b) _ t t0); [|done|done|].
  2: { intros u Hu. apply (list_elem_of_fmap_2 tok_priv) in Hu. rewrite Hpr in Hu.
       apply list_elem_of_fmap in Hu as (v & -> & Hv). auto. }
  exists m, (tok_str t0), (tok_str t - tok_str t0).
  exists (if decide (length (chars m) < tok_str t - tok_str t0)
          then tok_str t - tok_str t0 - length (chars m) + 1 else 0).
  split; [by eapply a_yard_message|]. by case_decide.
Qed.

Lemma no_expr_two_vars e : ¬ g_expr [(0, TST_OP_VAR); (1, TST_OP_VAR)] e.
Proof.
  intros Hg. assert (a_yard [(0, TST_OP_VAR); (1, TST_OP_VAR)] = inr (postfix e)) as Hy
    by (apply a_yard_spec; eauto). by vm_compute in Hy.
Qed.

Lemma tst_bool_expr_parse_error_witness :
  ∃ m start col pad, m ∈ sy_messages ∧
    tst_bool_expr_parse ex_malloc (chars "A B") =
    Done (None, drop start (chars "A B") ++ [NEWLINE] ++ print_spaces col ++ chars "^" ++
                [NEWLINE] ++ print_spaces pad ++ chars m ++ [NEWLINE]).
Proof.
  apply (tst_bool_expr_parse_error ex_malloc (chars "A B") (replicate 2 ex_tok));
    [by_decide|reflexivity|reflexivity|by vm_compute| |apply no_expr_two_vars].
  intros u. simpl. by intros [->|[->|[]%not_elem_of_nil]%elem_of_cons]%elem_of_cons.
Defined.

(** the error report reads uninitialised memory.  tst_bool_expr_err() looks
    for the first token with a non-null [priv], but neither malloc() nor the
    tokenizer initialises that field: with indeterminate bytes in it, every
    error found after the first token makes the report use a wild pointer. *)
Theorem tst_bool_expr_parse_error_junk malloc (expr : list ascii) (mem : list tst_expr_tok) i m :
  cstring expr → malloc (length (lex expr)) = Some mem →
  length mem = length (lex expr) → lex expr ≠ [] →
  (∀ u, u ∈ mem → tok_priv u = PJunk) →
  a_yard (tokens_of expr) = inl (S i, m) →
  tst_bool_expr_parse malloc expr = Fault.
Proof.
  intros Hs Hm Hl Hne Hj Hy.
  pose proof (parse_cases malloc expr mem Hs Hne Hm Hl) as Hc. rewrite Hy in Hc.
  destruct Hc as (b & t & Ht & Hpr & Hi & ->).
  destruct b as [|t0 b]; [done|].
  assert (tok_priv t0 = PJunk) as H0.
  { assert (tok_priv t0 ∈ tok_priv <$> mem) as Hu by (rewrite <-Hpr; by left).
    apply list_elem_of_fmap in Hu as (v & -> & Hv). auto. }
  unfold tst_bool_expr_err. simpl. rewrite H0, decide_False by done. simpl. by rewrite H0.
Qed.

Definition ex_junk_malloc (n : nat) : option (list tst_expr_tok) :=
  Some (replicate n (Tok TST_OP_VAR 0 0 None PJunk)).

Lemma tst_bool_expr_parse_error_junk_witness :
  tst_bool_expr_parse ex_junk_malloc (chars "A B") = Fault.
Proof.
  apply (tst_bool_expr_parse_error_junk ex_junk_malloc (chars "A B")
    (replicate 2 (Tok TST_OP_VAR 0 0 None PJunk)) 0 "Expected operation");
    [by_decide|reflexivity|reflexivity|by vm_compute| |by vm_compute].
  intros u. simpl. by intros [->|[->|[]%not_elem_of_nil]%elem_of_cons]%elem_of_cons.
Defined.
