(* ===== verification/Kconfig.v ===== *)
(** * Kernel config checks: lib/tst_kconfig.c

    Locating and reading the kernel config, parsing its lines into an array of
    variables, validating and collecting the variables of boolean expressions,
    and deciding whether the config satisfies the expressions.  The files, the
    environment and uname() are parameters, collected in [kenv]. *)
From stdpp Require Import base strings numbers option list.
From Stdlib Require Import Ascii.
From S2P Require Import Prelude BoolExpr.

(** ** Data (include/tst_kconfig.h) *)

(** The [char *val] of a variable: indeterminate, null or a duplicated string. *)
Inductive val_ptr :=
  | VJunk
  | VNull
  | VStr (s : list ascii).

Record tst_kconfig_var := KVar {
  id : list ascii;
  id_len : nat;
  choice : ascii;
  val : val_ptr
}.

#[export] Instance val_ptr_eq_dec : EqDecision val_ptr.
Proof. solve_decision. Defined.
#[export] Instance tst_kconfig_var_eq_dec : EqDecision tst_kconfig_var.
Proof. solve_decision. Defined.

(** [sizeof(id)] *)
Definition ID_SIZE : nat := 64.

Definition set_choice (c : ascii) (v : tst_kconfig_var) : tst_kconfig_var :=
  KVar (id v) (id_len v) c (val v).

Definition set_value (s : list ascii) (v : tst_kconfig_var) : tst_kconfig_var :=
  KVar (id v) (id_len v) "v"%char (VStr s).

(** What the code asks the system: the KCONFIG_PATH variable, access(F_OK), the
    kernel release, and the streams popen() and fopen() deliver. *)
Record kenv := KEnv {
  getenv_kconfig_path : option (list ascii);
  access : list ascii → bool;
  un_release : list ascii;
  popen : list ascii → option (list ascii);
  fopen : list ascii → option (list ascii)
}.

Definition log : Type := list (ttype * list ascii).

(** ** Locating the config *)

Definition kconfig_path (env : kenv) (path_buf_len : nat)
    : option (list ascii) * log :=
  let fallback (l : log) :=
    if access env (chars "/proc/config.gz") then
      (Some (chars "/proc/config.gz"), l)
    else
      let debian := snprintf path_buf_len (chars "/boot/config-" ++ un_release env) in
      if access env debian then (Some debian, l)
      else
        let clear := snprintf path_buf_len
                       (chars "/lib/kernel/config-" ++ un_release env) in
        if access env clear then (Some clear, l)
        else (None, l ++ [(TINFO, chars "Couldn't locate kernel config!")]) in
  match getenv_kconfig_path env with
  | Some path =>
      if access env path then (Some path, [])
      else fallback [(TWARN, chars "KCONFIG_PATH='" ++ path ++
                             chars "' does not exist")]
  | None => fallback []
  end.

Definition open_kconfig (env : kenv) : result (option (list ascii)) :=
  match (kconfig_path env 1024).1 with
  | None => Ret None
  | Some path =>
      let is_gzip := bool_decide (is_Some (strstr path (chars ".gz"))) in
      let fp :=
        if is_gzip then popen env (snprintf 1064 (chars "zcat '" ++ path ++ chars "'"))
        else fopen env path in
      match fp with
      | None => Brk TBROK "Failed to open"
      | Some text => Ret (Some text)
      end
  end.

(** ** Parsing a line *)

Definition is_id_char (c : ascii) : bool := isupper c || isdigit c || bool_decide (c = "_"%char).

(** [while (!isspace(val[val_len])) val_len++;]: the length of the value when a
    white space ends it, a read past the terminator otherwise. *)
Fixpoint scan_value (v : list ascii) : outcome nat :=
  match v with
  | [] => Fault
  | c :: v' => if isspace c then Done 0 else n ← scan_value v'; Done (S n)
  end.

(** The loop over [vars], from index [i] on. *)
Fixpoint match_vars (var : list ascii) (var_len : nat) (is_not_set : bool)
    (done todo : list tst_kconfig_var) : outcome (Z * list tst_kconfig_var) :=
  match todo with
  | [] => Done (0%Z, done)
  | v :: todo' =>
      if decide (id_len v ≠ var_len) then
        match_vars var var_len is_not_set (done ++ [v]) todo'
      else if negb (strncmp_eq (id v) var var_len) then
        match_vars var var_len is_not_set (done ++ [v]) todo'
      else if is_not_set then Done (1%Z, done ++ set_choice "n" v :: todo')
      else
        let p := drop_while isspace (drop var_len var) in
        if decide (char_at p 0 ≠ "="%char) then Done (0%Z, done ++ todo)
        else
          let p := drop_while isspace (drop 1 p) in
          val_len ← scan_value p;
          if bool_decide (val_len = 1) && bool_decide (char_at p 0 = "y"%char) then
            Done (1%Z, done ++ set_choice "y" v :: todo')
          else if bool_decide (val_len = 1) && bool_decide (char_at p 0 = "m"%char) then
            Done (1%Z, done ++ set_choice "m" v :: todo')
          else
            match_vars var var_len is_not_set
              (done ++ [set_value (take val_len p) v]) todo'
  end.

Definition kconfig_parse_line (line : list ascii) (vars : list tst_kconfig_var)
    : outcome (Z * list tst_kconfig_var) :=
  let line := drop_while isspace line in
  let comment := bool_decide (char_at line 0 = "#"%char) in
  if comment && bool_decide (strstr line (chars "is not set") = None) then
    Done (0%Z, vars)
  else
    match strstr line (chars "CONFIG_") with
    | None => Done (0%Z, vars)
    | Some var =>
        match_vars var (length (take_while is_id_char var)) comment [] vars
    end.

(** ** Reading the config *)

Definition LINE_SIZE : nat := 128.

Fixpoint read_loop (fuel : nat) (fp : list ascii) (vars_found : nat)
    (vars : list tst_kconfig_var) : outcome (list tst_kconfig_var) :=
  match fuel with
  | O => Timeout
  | S fuel' =>
      match fgets LINE_SIZE fp with
      | None => Done vars
      | Some (line, rest) =>
          '(r, vars) ← kconfig_parse_line line vars;
          let vars_found := if decide (r = 0%Z) then vars_found else S vars_found in
          if decide (vars_found = length vars) then Done vars
          else read_loop fuel' rest vars_found vars
      end
  end.

Definition tst_kconfig_read (env : kenv) (vars : list tst_kconfig_var)
    : outcome (result (list tst_kconfig_var)) :=
  match open_kconfig env with
  | Brk t m => Done (Brk t m)
  | Ret None => Done (Brk TBROK "Cannot parse kernel .config")
  | Ret (Some text) => vars ← read_loop (S (length text)) text 0 vars; Done (Ret vars)
  end.

Definition tst_kconfig_get (env : kenv) (confname : list ascii)
    : outcome (result ascii) :=
  if decide (ID_SIZE ≤ length confname) then Done (Brk TBROK "Kconfig var name too long")
  else
    r ← tst_kconfig_read env [KVar confname (length confname) NUL VNull];
    match r with
    | Brk t m => Done (Brk t m)
    | Ret vars => v ← load (vars !! 0); Done (Ret (choice v))
    end.

(** ** Variables of expressions

    A token is given by the string its [tok] pointer refers to, up to the end of
    the whole expression, and its length. *)

(** [while (kconfigs[++i]);]: the first element is never looked at. *)
Fixpoint array_len_from (l : list (option (list ascii))) (i : nat) : outcome nat :=
  match l with
  | [] => Fault
  | None :: _ => Done i
  | Some _ :: l' => array_len_from l' (S i)
  end.

Definition array_len (kconfigs : list (option (list ascii))) : outcome nat :=
  array_len_from (drop 1 kconfigs) 1.

(** The offset of the character the returned pointer refers to. *)
Definition strnchr (s : list ascii) (c : ascii) (len : nat) : option nat :=
  index_of c (take len s).

Definition get_len (kconfig : list ascii) (len : nat) : nat :=
  match strnchr kconfig "=" len with None => len | Some sep => sep end.

Definition print_err (s : list ascii) (tok_len spaces : nat) (err : string) : list ascii :=
  take tok_len s ++ [NEWLINE] ++ replicate spaces " "%char ++
  chars "^" ++ [NEWLINE] ++ chars err ++ [NEWLINE; NEWLINE].

(** How the first loop of [validate_var] ends. *)
Inductive name_scan :=
  | NsValid
  | NsErr (i : nat)
  | NsBreak (i : nat).

Fixpoint scan_name (fuel : nat) (s : list ascii) (tok_len i : nat) : name_scan :=
  match fuel with
  | O => NsBreak i
  | S fuel' =>
      let c := char_at s i in
      if decide (c = NUL) then NsBreak i
      else if decide (tok_len ≤ i) then NsValid
      else if isupper c || bool_decide (c = "_"%char) then scan_name fuel' s tok_len (S i)
      else if isdigit c then scan_name fuel' s tok_len (S i)
      else if decide (c = "="%char) then NsBreak (S i)
      else NsErr i
  end.

(** [do { i++; } while (i < var->tok_len && p(var->tok[i]));] is
    [scan_to p fuel s tok_len (i + 1)]. *)
Fixpoint scan_to (p : ascii → bool) (fuel : nat) (s : list ascii) (tok_len i : nat) : nat :=
  match fuel with
  | O => i
  | S fuel' =>
      if decide (i < tok_len) then
        if p (char_at s i) then scan_to p fuel' s tok_len (S i) else i
      else i
  end.

(** Returns the verdict and what is printed to stderr. *)
Definition validate_var (s : list ascii) (tok_len : nat) : Z * list ascii :=
  if decide (tok_len < 7) then (1%Z, print_err s tok_len 0 "Expected CONFIG_ prefix")
  else if negb (strncmp_eq s (chars "CONFIG_") 7) then
    (1%Z, print_err s tok_len 0 "Expected CONFIG_ prefix")
  else
    match scan_name (S tok_len) s tok_len 7 with
    | NsValid => (0%Z, [])
    | NsErr i => (1%Z, print_err s tok_len i "Unexpected character in variable name")
    | NsBreak i =>
        if decide (tok_len ≤ i) then
          if decide (char_at s (i - 1) = "="%char) then
            ((-1)%Z, print_err s tok_len i "Missing value")
          else (0%Z, [])
        else if decide (char_at s i = DQUOTE) then
          let i := scan_to (λ c, negb (bool_decide (c = DQUOTE))) tok_len s tok_len (S i) in
          if decide (i < tok_len - 1) then
            (1%Z, print_err s tok_len i "Garbage after a string")
          else if decide (char_at s i ≠ DQUOTE) then
            (1%Z, print_err s tok_len i "Untermianted string")
          else (0%Z, [])
        else
          let i := scan_to isalnum tok_len s tok_len (S i) in
          if decide (i < tok_len) then
            (1%Z, print_err s tok_len i "Invalid character in variable value")
          else (0%Z, [])
    end.

(** An expression of the check: the string and its parsed form. *)
Abbreviation kexpr := (list ascii * tst_expr)%type.

(** The tokens [for (j = rpn; j; j = j->next)] visits; [next] does not change
    during any of the loops below. *)
Fixpoint rpn_list (fuel : nat) (b : list tst_expr_tok) (i : option nat) : outcome (list nat) :=
  match i with
  | None => Done []
  | Some k =>
      match fuel with
      | O => Timeout
      | S fuel' => t ← load (b !! k); l ← rpn_list fuel' b (tok_next t); Done (k :: l)
      end
  end.

Definition rpn_of (e : tst_expr) : outcome (list nat) := rpn_list (length (buf e)) (buf e) (rpn e).

Definition tok_tail (expr : list ascii) (t : tst_expr_tok) : list ascii := drop (tok_str t) expr.

Fixpoint validate_rpn (expr : list ascii) (b : list tst_expr_tok) (l : list nat) (ret : Z)
    : outcome Z :=
  match l with
  | [] => Done ret
  | k :: l' =>
      t ← load (b !! k);
      let ret := if decide (tok_op t = TST_OP_VAR)
                 then Z.lor ret (validate_var (tok_tail expr t) (tok_len t)).1 else ret in
      validate_rpn expr b l' ret
  end.

Fixpoint validate_vars (exprs : list kexpr) (ret : Z) : outcome Z :=
  match exprs with
  | [] => Done ret
  | (s, e) :: exprs' =>
      l ← rpn_of e;
      ret ← validate_rpn s (buf e) l ret;
      validate_vars exprs' ret
  end.

Fixpoint count_rpn (b : list tst_expr_tok) (l : list nat) (cnt : nat) : outcome nat :=
  match l with
  | [] => Done cnt
  | k :: l' =>
      t ← load (b !! k);
      count_rpn b l' (if decide (tok_op t = TST_OP_VAR) then S cnt else cnt)
  end.

Fixpoint get_var_cnt (exprs : list kexpr) (cnt : nat) : outcome nat :=
  match exprs with
  | [] => Done cnt
  | (s, e) :: exprs' =>
      l ← rpn_of e;
      cnt ← count_rpn (buf e) l cnt;
      get_var_cnt exprs' cnt
  end.

(** The index of the first of [vars[0..var_cnt)] with that name. *)
Definition find_var (vars : list tst_kconfig_var) (var_cnt : nat) (var : list ascii)
    : option nat :=
  fst <$> list_find (λ v, id v = var) (take var_cnt vars).

(** The loop body for a variable token: the entry [vars[cnt]] is filled first
    and kept only when the name is new. *)
Definition populate_tok (expr : list ascii) (t : tst_expr_tok)
    (vars : list tst_kconfig_var) (cnt : nat)
    : outcome (result (priv_ptr * list tst_kconfig_var * nat)) :=
  old ← load (vars !! cnt);
  let s := tok_tail expr t in
  let len := get_len s (tok_len t) in
  if decide (ID_SIZE ≤ len + 1) then Done (Brk TBROK "kconfig var id too long!")
  else
    let name := take len s in
    let vars := <[cnt := KVar name len NUL (val old)]> vars in
    match find_var vars cnt name with
    | Some i => Done (Ret (PVar i, vars, cnt))
    | None => Done (Ret (PVar cnt, vars, S cnt))
    end.

Fixpoint populate_rpn (expr : list ascii) (l : list nat) (b : list tst_expr_tok)
    (vars : list tst_kconfig_var) (cnt : nat)
    : outcome (result (list tst_expr_tok * list tst_kconfig_var * nat)) :=
  match l with
  | [] => Done (Ret (b, vars, cnt))
  | k :: l' =>
      t ← load (b !! k);
      if decide (tok_op t ≠ TST_OP_VAR) then populate_rpn expr l' b vars cnt
      else
        r ← populate_tok expr t vars cnt;
        match r with
        | Brk ty m => Done (Brk ty m)
        | Ret (p, vars, cnt) =>
            populate_rpn expr l' (<[k := set_priv p t]> b) vars cnt
        end
  end.

Fixpoint populate_vars (exprs : list kexpr) (vars : list tst_kconfig_var) (cnt : nat)
    : outcome (result (list kexpr * list tst_kconfig_var * nat)) :=
  match exprs with
  | [] => Done (Ret ([], vars, cnt))
  | (s, e) :: exprs' =>
      l ← rpn_of e;
      r ← populate_rpn s l (buf e) vars cnt;
      match r with
      | Brk ty m => Done (Brk ty m)
      | Ret (b, vars, cnt) =>
          r ← populate_vars exprs' vars cnt;
          match r with
          | Brk ty m => Done (Brk ty m)
          | Ret (exprs', vars, cnt) => Done (Ret ((s, Expr (rpn e) b) :: exprs', vars, cnt))
          end
      end
  end.

(** ** The variable mapping *)

Definition map (vars : list tst_kconfig_var) (expr : list ascii) (t : tst_expr_tok) : outcome Z :=
  var ← match tok_priv t with PVar i => load (vars !! i) | _ => Fault end;
  if decide (choice var = NUL) then Done 0%Z
  else
    let s := tok_tail expr t in
    match strnchr s "=" (tok_len t) with
    | None => Done (Z.b2z (bool_decide (choice var = "y"%char) ||
                           bool_decide (choice var = "m"%char)))
    | Some k =>
        let v := drop (S k) s in
        let len := tok_len t - S k in
        let c := "v"%char in
        let c := if strncmp_eq v (chars "n") len then "n"%char else c in
        let c := if strncmp_eq v (chars "y") len then "y"%char else c in
        let c := if strncmp_eq v (chars "m") len then "m"%char else c in
        if decide (c ≠ "v"%char) then Done (Z.b2z (bool_decide (choice var = c)))
        else
          match val var with
          | VStr w => if decide (length w ≠ len) then Done 0%Z
                      else Done (Z.b2z (strncmp_eq v w len))
          | _ => Fault
          end
    end.

(** ** The check *)

Fixpoint dump_rpn (vars : list tst_kconfig_var) (b : list tst_expr_tok) (l : list nat)
    : outcome log :=
  match l with
  | [] => Done []
  | k :: l' =>
      t ← load (b !! k);
      if decide (tok_op t ≠ TST_OP_VAR) then dump_rpn vars b l'
      else
        var ← match tok_priv t with PVar i => load (vars !! i) | _ => Fault end;
        line ←
          (if decide (choice var = NUL) then Done (chars " " ++ id var ++ chars " Undefined")
           else if decide (choice var = "v"%char) then
             match val var with
             | VStr w => Done (chars " " ++ id var ++ chars "=" ++ w)
             | _ => Fault
             end
           else Done (chars " " ++ id var ++ chars "=" ++ [choice var]));
        rest ← dump_rpn vars b l';
        Done ((TINFO, line) :: rest)
  end.

Definition dump_vars (vars : list tst_kconfig_var) (e : tst_expr) : outcome log :=
  l ← rpn_of e;
  rest ← dump_rpn vars (buf e) l;
  Done ((TINFO, chars "Variables:") :: rest).

(** The loop that evaluates the expressions: the flag [abort_test] and what is
    logged.  [stack] is the content of the evaluator's local array. *)
Fixpoint eval_exprs (stack : list Z) (vars : list tst_kconfig_var) (exprs : list kexpr)
    (abort_test : bool) : outcome (bool * log) :=
  match exprs with
  | [] => Done (abort_test, [])
  | (s, e) :: exprs' =>
      v ← tst_bool_expr_eval (map vars s) stack e;
      if decide (v ≠ 1%Z) then
        d ← dump_vars vars e;
        '(a, rest) ← eval_exprs stack vars exprs' true;
        Done (a, (TINFO, chars "Constrain '" ++ s ++ chars "' not satisfied!") :: d ++ rest)
      else eval_exprs stack vars exprs' abort_test
  end.

Fixpoint parse_exprs (malloc : nat → option (list tst_expr_tok)) (ks : list (list ascii))
    : outcome (result (list kexpr)) :=
  match ks with
  | [] => Done (Ret [])
  | s :: ks' =>
      '(e, _) ← tst_bool_expr_parse malloc s;
      match e with
      | None => Done (Brk TBROK "Invalid kconfig expression!")
      | Some e =>
          r ← parse_exprs malloc ks';
          match r with
          | Brk t m => Done (Brk t m)
          | Ret es => Done (Ret ((s, e) :: es))
          end
      end
  end.

(** [vla n] is the content of the variable-length array [vars[n]] on entry. *)
Definition tst_kconfig_check (env : kenv) (malloc : nat → option (list tst_expr_tok))
    (vla : nat → list tst_kconfig_var) (stack : list Z)
    (kconfigs : list (option (list ascii))) : outcome (result log) :=
  expr_cnt ← array_len kconfigs;
  ks ← load (mapM Datatypes.id (take expr_cnt kconfigs));
  r ← parse_exprs malloc ks;
  match r with
  | Brk t m => Done (Brk t m)
  | Ret exprs =>
      bad ← validate_vars exprs 0%Z;
      if decide (bad ≠ 0%Z) then Done (Brk TBROK "Invalid kconfig variables!")
      else
        var_cnt ← get_var_cnt exprs 0;
        r ← populate_vars exprs (vla var_cnt) 0;
        match r with
        | Brk t m => Done (Brk t m)
        | Ret (exprs, vars, var_cnt) =>
            r ← tst_kconfig_read env (take var_cnt vars);
            match r with
            | Brk t m => Done (Brk t m)
            | Ret vars =>
                '(abort_test, l) ← eval_exprs stack vars exprs false;
                if abort_test : bool then
                  Done (Brk TCONF "Aborting due to unsuitable kernel config, see above!")
                else Done (Ret l)
            end
        end
  end.
(** * Validation: the accepted tokens *)

(** The value of an assignment: a quoted string, or one character of any kind
    followed by letters and digits. *)
Definition valid_value (v : list ascii) : Prop :=
  (∃ q, v = DQUOTE :: q ++ [DQUOTE] ∧ DQUOTE ∉ q) ∨
  (∃ c a, v = c :: a ∧ c ≠ DQUOTE ∧ Forall isalnum a).

Definition valid_token (w : list ascii) : Prop :=
  ∃ name, Forall is_id_char name ∧
    (w = chars "CONFIG_" ++ name ∨
     ∃ v, w = chars "CONFIG_" ++ name ++ "="%char :: v ∧ valid_value v).

Section validate.
(** The characters [pre] before position [length pre] have been consumed; [r] is
    the rest of the token and [t] what follows it in the expression. *)
Context (t : list ascii).

Lemma scan_to_spec p pre r fuel :
  length r ≤ fuel →
  scan_to p fuel ((pre ++ r) ++ t) (length (pre ++ r)) (length pre) =
  length pre + length (take_while p r).
Proof.
  revert pre fuel. induction r as [|c r IH]; intros pre fuel Hf; simpl.
  - rewrite app_nil_r. destruct fuel; simpl; [lia|]. rewrite decide_False by lia. lia.
  - destruct fuel as [|fuel]; simpl in *; [lia|].
    rewrite decide_True by (rewrite length_app; simpl; lia).
    rewrite <-app_assoc. pose proof (char_at_app_r pre ((c :: r) ++ t) 0) as Hc.
    rewrite Nat.add_0_r in Hc. rewrite Hc. simpl. unfold char_at; simpl.
    destruct (p c); [|simpl; lia].
    specialize (IH (pre ++ [c]) fuel ltac:(lia)).
    rewrite <-!app_assoc, (length_app pre [c]), Nat.add_1_r in IH. simpl in IH. rewrite IH. simpl. lia.
Qed.

Lemma is_id_char_NUL : is_id_char NUL = false.
Proof. done. Qed.

Lemma scan_name_spec pre r fuel :
  cstring r → length r < fuel →
  scan_name fuel ((pre ++ r) ++ t) (length (pre ++ r)) (length pre) =
  let j := length pre + length (take_while is_id_char r) in
  match drop_while is_id_char r with
  | [] => if decide (char_at t 0 = NUL) then NsBreak j else NsValid
  | c :: _ => if decide (c = "="%char) then NsBreak (S j) else NsErr j
  end.
Proof.
  revert pre fuel. induction r as [|c r IH]; intros pre fuel Hs Hf;
    (destruct fuel as [|fuel]; [simpl in Hf; lia|]); simpl.
  - rewrite app_nil_r, Nat.add_0_r.
    pose proof (char_at_app_r pre t 0) as Hc. rewrite Nat.add_0_r in Hc. rewrite Hc.
    destruct (decide (char_at t 0 = NUL)); [done|]. by rewrite decide_True by lia.
  - assert (char_at ((pre ++ c :: r) ++ t) (length pre) = c) as Hc.
    { pose proof (char_at_app_r pre ((c :: r) ++ t) 0) as Hc.
      rewrite Nat.add_0_r in Hc. by rewrite <-app_assoc, Hc. }
    rewrite Hc. unfold cstring in Hs. apply not_elem_of_cons in Hs as [Hcn Hs].
    rewrite decide_False by done.
    rewrite decide_False by (rewrite length_app; simpl; lia).
    specialize (IH (pre ++ [c]) fuel Hs ltac:(simpl in Hf; lia)).
    rewrite <-!(app_assoc pre), (length_app pre [c]), Nat.add_1_r in IH. simpl in IH. rewrite <-!(app_assoc pre).
    destruct (is_id_char c) eqn:Ec; simpl.
    + assert (isupper c || bool_decide (c = "_"%char) = true ∨
              (isupper c || bool_decide (c = "_"%char) = false ∧ isdigit c = true)) as Hd.
      { unfold is_id_char in Ec. destruct (isupper c), (isdigit c), (bool_decide (c = "_"%char)); naive_solver. }
      rewrite Nat.add_succ_r.
      destruct Hd as [->|[-> ->]]; exact IH.
    + unfold is_id_char in Ec. apply orb_false_iff in Ec as [[-> ->]%orb_false_iff ->]. simpl.
      by rewrite Nat.add_0_r.
Qed.
End validate.

Definition not_dquote (c : ascii) : bool := negb (bool_decide (c = DQUOTE)).

Lemma valid_token_prefix w : valid_token w → take 7 w = chars "CONFIG_".
Proof. by intros (name & _ & [->|(v & -> & _)]). Qed.

Lemma valid_token_iff r :
  valid_token (chars "CONFIG_" ++ r) ↔
  match drop_while is_id_char r with
  | [] => True
  | c :: v => c = "="%char ∧ valid_value v
  end.
Proof.
  split.
  - intros (name & Hn & [Hr|(v & Hr & Hv)]); apply app_inv_head in Hr as ->.
    + by rewrite (proj2 (take_while_all _ _ Hn)).
    + by rewrite (proj2 (take_while_app _ _ "="%char v Hn eq_refl)).
  - intros Hd. exists (take_while is_id_char r). split; [apply take_while_Forall|].
    pose proof (take_drop_while is_id_char r) as Hr.
    destruct (drop_while is_id_char r) as [|c v].
    + left. by rewrite <-Hr, app_nil_r at 1.
    + destruct Hd as [-> Hv]. right. exists v. by rewrite Hr.
Qed.

Lemma valid_value_quoted q :
  valid_value (DQUOTE :: q) ↔ drop_while not_dquote q = [DQUOTE].
Proof.
  split.
  - intros [(q' & [= ->] & Hq)|(c & a & [= <- ->] & Hc & _)]; [|done].
    apply (take_while_app _ _ _ []); [|done].
    apply Forall_forall. intros c Hc. unfold not_dquote.
    rewrite bool_decide_false; [done|]. by intros ->.
  - intros Hd. left. exists (take_while not_dquote q). split.
    + by rewrite <-(take_drop_while not_dquote q) at 1; rewrite Hd.
    + intros Hin. pose proof (take_while_Forall not_dquote q) as Hf.
      rewrite Forall_forall in Hf. by specialize (Hf _ Hin).
Qed.

Lemma valid_value_plain c a :
  c ≠ DQUOTE → valid_value (c :: a) ↔ drop_while isalnum a = [].
Proof.
  intros Hc. split.
  - intros [(q & [= -> ->] & _)|(c' & a' & [= <- <-] & _ & Ha)]; [done|].
    by apply take_while_all.
  - intros Hd. right. exists c, a. split; [done|]. split; [done|].
    rewrite <-(take_drop_while isalnum a), Hd, app_nil_r. apply take_while_Forall.
Qed.

(** The part of [validate_var] after the equal sign. *)
Lemma validate_value_spec pre v t fuel :
  length v ≤ fuel → v ≠ [] → char_at t 0 ≠ DQUOTE →
  let s := (pre ++ v) ++ t in
  let tok_len := length (pre ++ v) in
  let i := length pre in
  (if decide (char_at s i = DQUOTE) then
     let i := scan_to not_dquote fuel s tok_len (S i) in
     ¬ i < tok_len - 1 ∧ char_at s i = DQUOTE
   else ¬ scan_to isalnum fuel s tok_len (S i) < tok_len) ↔ valid_value v.
Proof.
  intros Hf Hv Ht. destruct v as [|c v]; [done|]. simpl.
  pose proof (char_at_app_r pre (c :: v ++ t) 0) as Hc. rewrite Nat.add_0_r in Hc. simpl in Hc.
  rewrite <-app_assoc. simpl. rewrite Hc, char_at_cons.
  assert (∀ p, scan_to p fuel (pre ++ c :: v ++ t) (length (pre ++ c :: v)) (S (length pre)) =
               S (length pre) + length (take_while p v)) as Hscan.
  { intros p. pose proof (scan_to_spec t p (pre ++ [c]) v fuel ltac:(simpl in Hf; lia)) as Hs.
    rewrite <-!(app_assoc pre), (length_app pre [c]), Nat.add_1_r in Hs. exact Hs. }
  rewrite !Hscan, length_app. simpl.
  case_decide as Hq.
  - subst c. rewrite valid_value_quoted.
    pose proof (take_drop_while not_dquote v) as Hd. apply (f_equal length) in Hd as Hl.
    rewrite length_app in Hl.
    destruct (drop_while_head not_dquote v) as [E|(d & r & E & Hp)]; rewrite E in *.
    + split; [|done]. intros [_ Hx]. exfalso. apply Ht. rewrite <-Hx.
      simpl in Hl. replace (S (length pre + length (take_while not_dquote v)))
        with (length (pre ++ DQUOTE :: v) + 0) by (rewrite length_app; simpl; lia).
      pose proof (char_at_app_r (pre ++ DQUOTE :: v) t 0) as Hx'.
      by rewrite <-app_assoc in Hx'.
    + unfold not_dquote in Hp. apply negb_false_iff, bool_decide_eq_true in Hp as ->.
      simpl in Hl. split.
      * intros [Hx _]. destruct r; [done|]. simpl in Hl. lia.
      * intros [= ->]. simpl in Hl. split; [lia|].
        replace (S (length pre + length (take_while not_dquote v)))
          with (length (pre ++ DQUOTE :: take_while not_dquote v) + 0) by (rewrite length_app; simpl; lia).
        pose proof (char_at_app_r (pre ++ DQUOTE :: take_while not_dquote v) ([DQUOTE] ++ t) 0) as Hx.
        rewrite <-app_assoc in Hx. simpl in Hx.
        rewrite <-Hd at 1. rewrite <-app_assoc. exact Hx.
  - rewrite valid_value_plain by done.
    pose proof (take_drop_while isalnum v) as Hd. apply (f_equal length) in Hd.
    rewrite length_app in Hd. split; intros Hx.
    + apply nil_length_inv. lia.
    + rewrite Hx in Hd. simpl in Hd. lia.
Qed.

(** The last character of a name is not an equal sign. *)
Lemma last_char_name name t :
  Forall is_id_char name →
  char_at ((chars "CONFIG_" ++ name) ++ t) (length (chars "CONFIG_") + length name - 1) ≠ "="%char.
Proof.
  intros Hname Hx.
  assert (∃ d, last (chars "CONFIG_" ++ name) = Some d ∧ is_id_char d = true) as (d & Hlast & Hd).
  { destruct name as [|x name] using rev_ind; [by exists "_"%char|].
    rewrite app_assoc, last_snoc. exists x. split; [done|].
    apply Forall_app in Hname as [_ Hx']. inversion Hx'. by destruct (is_id_char x). }
  rewrite last_lookup in Hlast.
  replace (pred (length (chars "CONFIG_" ++ name)))
    with (length (chars "CONFIG_") + length name - 1) in Hlast by (rewrite length_app; simpl; lia).
  unfold char_at in Hx. rewrite lookup_app_l in Hx by (rewrite length_app; simpl; lia).
  rewrite Hlast in Hx. simpl in Hx. by subst d.
Qed.

Lemma char_at_snoc (pre t : list ascii) c : char_at ((pre ++ [c]) ++ t) (length pre) = c.
Proof. unfold char_at. rewrite <-app_assoc. simpl. by rewrite list_lookup_middle. Qed.

Lemma validate_var_valid w t :
  cstring w → char_at t 0 ≠ DQUOTE →
  (validate_var (w ++ t) (length w)).1 = 0%Z ↔ valid_token w.
Proof.
  intros Hs Ht. unfold validate_var.
  destruct (decide (length w < 7)) as [Hl|Hl].
  { split; [done|]. intros Hp%valid_token_prefix. apply (f_equal length) in Hp.
    rewrite length_take in Hp. change (length (chars "CONFIG_")) with 7 in Hp. lia. }
  unfold strncmp_eq. rewrite take_app_le by lia.
  case_bool_decide as Hp; cbn [negb].
  2: { split; [done|]. intros Hv%valid_token_prefix. by rewrite Hv in Hp. }
  rewrite take_ge with (l := chars "CONFIG_") in Hp by done.
  assert (w = chars "CONFIG_" ++ drop 7 w) as Hw by (by rewrite <-Hp, take_drop).
  set (r := drop 7 w) in *. clearbody r. subst w. clear Hp Hl.
  assert (cstring r) as Hr by (unfold cstring in *; by rewrite elem_of_app in Hs; naive_solver).
  change 7 with (length (chars "CONFIG_")).
  rewrite (scan_name_spec t (chars "CONFIG_") r) by (done || (rewrite length_app; simpl; lia)).
  rewrite valid_token_iff. cbv zeta. pose proof (take_drop_while is_id_char r) as Hd.
  set (name := take_while is_id_char r) in *.
  assert (Forall is_id_char name) as Hname by apply take_while_Forall.
  destruct (drop_while is_id_char r) as [|c v].
  - (* no value *)
    rewrite app_nil_r in Hd. clearbody name. subst r.
    destruct (decide (char_at t 0 = NUL)); [|done]. cbv iota beta.
    rewrite decide_True by (rewrite length_app; lia).
    by rewrite decide_False by (by apply last_char_name).
  - destruct (decide (c = "="%char)) as [->|Hc]; [|naive_solver].
    cbv iota beta. rewrite <-Hd. set (pre := chars "CONFIG_" ++ name ++ ["="%char]).
    assert (chars "CONFIG_" ++ name ++ "="%char :: v = pre ++ v) as ->
      by (unfold pre; by rewrite <-!app_assoc).
    assert (S (length (chars "CONFIG_") + length name) = length pre) as ->
      by (unfold pre; rewrite !length_app; simpl; lia).
    destruct v as [|d v].
    + rewrite app_nil_r, decide_True by done. rewrite decide_True.
      { split; [done|]. intros [_ Hv]. by destruct Hv as [(q & ? & _)|(? & ? & ? & _)]. }
      replace (length pre - 1) with (length (chars "CONFIG_" ++ name))
        by (unfold pre; rewrite !length_app; simpl; lia).
      unfold pre. rewrite app_assoc. apply char_at_snoc.
    + clearbody pre. rewrite decide_False by (rewrite length_app; simpl; lia).
      pose proof (validate_value_spec pre (d :: v) t (length (pre ++ d :: v))
        ltac:(rewrite length_app; lia) ltac:(done) Ht) as Hval.
      cbv zeta in Hval. unfold not_dquote in Hval.
      destruct (decide (char_at ((pre ++ d :: v) ++ t) (length pre) = DQUOTE)).
      * rewrite <-Hval. case_decide; [by split; [|intros (_ & ? & _)]|].
        case_decide; [by split; [|intros (_ & _ & ?)]|].
        split; [intros _; split; [done|]; split; [done|done]|done].
      * rewrite <-Hval. case_decide; [by split; [|intros [_ ?]]|done].
Qed.

(** * Reading a kernel config

    The lines a kernel config consists of; [name] is the part after CONFIG_, and the
    value is followed by a blank and the rest of the line where it contains blanks. *)

Inductive centry :=
  | CSet (name value rest : list ascii)
  | CUnset (name : list ascii)
  | COther (text : list ascii).

Definition config_id (name : list ascii) : list ascii := chars "CONFIG_" ++ name.

Definition line_of (e : centry) : list ascii :=
  match e with
  | CSet n v r => config_id n ++ "="%char :: v ++ r
  | CUnset n => chars "# " ++ config_id n ++ chars " is not set"
  | COther t => t
  end.

Definition render (e : centry) : list ascii := line_of e ++ [NEWLINE].

Definition is_graph (c : ascii) : bool := negb (isspace c).

(** What the calls of fgets() make of a line: pieces of the size of the buffer. *)
Fixpoint pieces (fuel : nat) (s : list ascii) : list (list ascii) :=
  match fuel with
  | O => []
  | S fuel' =>
      if decide (length s < LINE_SIZE - 1) then [s ++ [NEWLINE]]
      else take (LINE_SIZE - 1) s :: pieces fuel' (drop (LINE_SIZE - 1) s)
  end.

Definition pieces_of (e : centry) : list (list ascii) := pieces (S (length (line_of e))) (line_of e).

(** A piece that says nothing about a variable: a comment, or without CONFIG_. *)
Definition silent (p : list ascii) : Prop :=
  let l := drop_while isspace p in
  char_at l 0 = "#"%char ∧ strstr l (chars "is not set") = None ∨ strstr l (chars "CONFIG_") = None.

(** The lines that occur in a config: a value, up to its first blank, fits into the
    line buffer, and what is left of a longer line says nothing about a variable. *)
Definition wf_entry (e : centry) : Prop :=
  NEWLINE ∉ line_of e ∧ cstring (line_of e) ∧
  match e with
  | CSet n v r =>
      Forall is_id_char n ∧ v ≠ [] ∧ Forall is_graph v ∧ (r = [] ∨ isspace (char_at r 0) = true) ∧
      length (config_id n) + 1 + length v < LINE_SIZE - 1 ∧ Forall silent (tail (pieces_of e))
  | CUnset n => Forall is_id_char n ∧ length (line_of e) < LINE_SIZE - 1
  | COther t => Forall silent (pieces_of e)
  end.

Definition entry_key (e : centry) : option (list ascii) :=
  match e with
  | CSet n _ _ | CUnset n => Some (config_id n)
  | COther _ => None
  end.

(** The effect of a line on the variable it names: its value ends at the first blank. *)
Definition entry_effect (e : centry) (v : tst_kconfig_var) : tst_kconfig_var :=
  match e with
  | CSet _ w _ =>
      if decide (w = chars "y") then set_choice "y" v
      else if decide (w = chars "m") then set_choice "m" v
      else set_value w v
  | CUnset _ => set_choice "n" v
  | COther _ => v
  end.

Definition apply_entry (e : centry) (v : tst_kconfig_var) : tst_kconfig_var :=
  if decide (entry_key e = Some (id v)) then entry_effect e v else v.

(** The lines kconfig_parse_line() returns 1 for. *)
Definition entry_counts (e : centry) : bool :=
  match e with
  | CSet _ w _ => bool_decide (w = chars "y" ∨ w = chars "m")
  | CUnset _ => true
  | COther _ => false
  end.

Definition hits (e : centry) (vars : list tst_kconfig_var) : bool :=
  entry_counts e && bool_decide (entry_key e ∈ (Some ∘ id) <$> vars).

Definition wf_vars (vars : list tst_kconfig_var) : Prop :=
  NoDup (id <$> vars) ∧ Forall (λ v, id_len v = length (id v)) vars.

Section parse_line.
Context (idn tl : list ascii).
Let var : list ascii := idn ++ tl.

(** The test at the top of the loop over [vars] compares the whole name. *)
Lemma match_vars_skip b dn v todo :
  id_len v = length (id v) → id v ≠ idn →
  match_vars var (length idn) b dn (v :: todo) = match_vars var (length idn) b (dn ++ [v]) todo.
Proof.
  intros Hl Hid. simpl. case_decide as Hlen; [done|].
  unfold strncmp_eq, var. rewrite take_app_length, bool_decide_false; [done|].
  rewrite take_ge by lia. done.
Qed.

Lemma match_vars_miss b dn todo :
  Forall (λ v, id_len v = length (id v)) todo → idn ∉ id <$> todo →
  match_vars var (length idn) b dn todo = Done (0%Z, dn ++ todo).
Proof.
  intros Hl. revert dn. induction Hl as [|v todo Hv _ IH]; intros dn Hid; simpl in *.
  - by rewrite app_nil_r.
  - apply not_elem_of_cons in Hid as [Hne Hid].
    pose proof (match_vars_skip b dn v todo Hv ltac:(done)) as Hs. simpl in Hs. rewrite Hs.
    rewrite IH by done. by rewrite <-app_assoc.
Qed.

Lemma match_vars_hit b dn v todo :
  id_len v = length (id v) → id v = idn →
  match_vars var (length idn) b dn (v :: todo) =
  if b then Done (1%Z, dn ++ set_choice "n" v :: todo)
  else
    let p := drop_while isspace tl in
    if decide (char_at p 0 ≠ "="%char) then Done (0%Z, dn ++ v :: todo)
    else
      let p := drop_while isspace (drop 1 p) in
      val_len ← scan_value p;
      if bool_decide (val_len = 1) && bool_decide (char_at p 0 = "y"%char) then
        Done (1%Z, dn ++ set_choice "y" v :: todo)
      else if bool_decide (val_len = 1) && bool_decide (char_at p 0 = "m"%char) then
        Done (1%Z, dn ++ set_choice "m" v :: todo)
      else match_vars var (length idn) b (dn ++ [set_value (take val_len p) v]) todo.
Proof.
  intros Hl Hid. simpl. rewrite decide_False by (rewrite Hl, Hid; tauto).
  unfold strncmp_eq, var. rewrite take_app_length, drop_app_length, bool_decide_true.
  2: { rewrite Hid. by rewrite take_ge. }
  by destruct b.
Qed.
End parse_line.

Lemma scan_value_graph v c t :
  Forall is_graph v → isspace c = true → scan_value (v ++ c :: t) = Done (length v).
Proof.
  intros Hv Hc. induction Hv as [|d v Hd _ IH]; simpl; [by rewrite Hc|].
  unfold is_graph in Hd. destruct (isspace d); [done|]. by rewrite IH.
Qed.

Lemma drop_while_graph v t :
  v ≠ [] → Forall is_graph v → drop_while isspace (v ++ t) = v ++ t.
Proof.
  intros Hne Hv. destruct Hv as [|d v Hd _]; [done|]. simpl.
  unfold is_graph in Hd. by destruct (isspace d).
Qed.

Lemma apply_entry_hit e v : entry_key e = Some (id v) → apply_entry e v = entry_effect e v.
Proof. intros. unfold apply_entry. by rewrite decide_True. Qed.

Lemma apply_entry_miss e v : entry_key e ≠ Some (id v) → apply_entry e v = v.
Proof. intros. unfold apply_entry. by rewrite decide_False. Qed.

Lemma apply_entry_miss_all e (vars : list tst_kconfig_var) :
  entry_key e ∉ (Some ∘ id) <$> vars → apply_entry e <$> vars = vars.
Proof.
  intros He. rewrite <-(list_fmap_id vars) at 2. apply list_fmap_ext. intros i u Hu.
  apply apply_entry_miss. intros Heq. apply He, list_elem_of_fmap. exists u.
  split; [done|]. by eapply list_elem_of_lookup_2.
Qed.

Lemma hits_cons_hit e v vars : entry_key e = Some (id v) → hits e (v :: vars) = entry_counts e.
Proof. intros He. unfold hits. rewrite bool_decide_true by (rewrite He; by left). apply andb_true_r. Qed.

Lemma hits_cons_miss e v vars : entry_key e ≠ Some (id v) → hits e (v :: vars) = hits e vars.
Proof.
  intros He. unfold hits. f_equal. apply bool_decide_ext. simpl. rewrite elem_of_cons.
  split; [by intros [|]|by right].
Qed.

Lemma elem_of_keys k (vars : list tst_kconfig_var) : Some k ∈ (Some ∘ id) <$> vars ↔ k ∈ id <$> vars.
Proof. rewrite list_fmap_compose. apply list_elem_of_fmap_inj. apply _. Qed.

(** A line [CONFIG_n=v]. *)
Lemma match_vars_set n w r c t vars dn :
  w ≠ [] → Forall is_graph w → isspace c = true → wf_vars vars →
  match_vars (config_id n ++ "="%char :: w ++ c :: t) (length (config_id n)) false dn vars =
  Done (if hits (CSet n w r) vars then 1%Z else 0%Z, dn ++ (apply_entry (CSet n w r) <$> vars)).
Proof.
  intros Hw Hg Hc [Hnd Hl]. revert dn.
  induction Hl as [|v vars Hv Hl IH]; intros dn; simpl in Hnd.
  { unfold hits. rewrite bool_decide_false by apply not_elem_of_nil.
    by rewrite andb_false_r, app_nil_r. }
  apply NoDup_cons in Hnd as [Hnin Hnd]. rewrite fmap_cons.
  destruct (decide (id v = config_id n)) as [E|E].
  2: { rewrite match_vars_skip, IH by done.
       rewrite hits_cons_miss, apply_entry_miss by (simpl; congruence). by rewrite <-app_assoc. }
  rewrite match_vars_hit by done. cbv zeta.
  change (drop_while isspace ("="%char :: w ++ c :: t)) with ("="%char :: w ++ c :: t).
  rewrite decide_False by (by intros []).
  change (drop 1 ("="%char :: w ++ c :: t)) with (w ++ c :: t).
  rewrite drop_while_graph, scan_value_graph by done. cbn [mbind outcome_bind]. rewrite take_app_length.
  rewrite hits_cons_hit, apply_entry_hit by (simpl; congruence).
  rewrite apply_entry_miss_all by (simpl; by rewrite elem_of_keys, <-E).
  rewrite match_vars_miss, <-app_assoc by (done || (by rewrite <-E)).
  unfold entry_counts, entry_effect. clear -Hw. destruct w as [|d [|d' w]]; [done| |].
  2: { cbn [length app]. rewrite (bool_decide_false (_ = 1)), (bool_decide_false (_ ∨ _)) by naive_solver.
       by rewrite !decide_False by done. }
  cbn [length app]. rewrite char_at_cons, (bool_decide_true (1 = 1)) by done.
  destruct (decide (d = "y"%char)) as [->|Hy]; [done|].
  destruct (decide (d = "m"%char)) as [->|Hm]; [done|].
  rewrite !(bool_decide_false (d = _)), (bool_decide_false (_ ∨ _)) by naive_solver.
  by rewrite !decide_False by naive_solver.
Qed.

(** A line [# CONFIG_n is not set]. *)
Lemma match_vars_unset n tl vars dn :
  wf_vars vars →
  match_vars (config_id n ++ tl) (length (config_id n)) true dn vars =
  Done (if hits (CUnset n) vars then 1%Z else 0%Z, dn ++ (apply_entry (CUnset n) <$> vars)).
Proof.
  intros [Hnd Hl]. revert dn. induction Hl as [|v vars Hv Hl IH]; intros dn; simpl in Hnd.
  { unfold hits. rewrite bool_decide_false by apply not_elem_of_nil. by rewrite app_nil_r. }
  apply NoDup_cons in Hnd as [Hnin Hnd]. rewrite fmap_cons.
  destruct (decide (id v = config_id n)) as [E|E].
  - rewrite match_vars_hit by done. rewrite hits_cons_hit, apply_entry_hit by (simpl; congruence).
    by rewrite apply_entry_miss_all by (simpl; by rewrite elem_of_keys, <-E).
  - rewrite match_vars_skip, IH by done.
    rewrite hits_cons_miss, apply_entry_miss by (simpl; congruence). by rewrite <-app_assoc.
Qed.

Lemma take_while_config_id n c t :
  Forall is_id_char n → is_id_char c = false →
  take_while is_id_char (config_id n ++ c :: t) = config_id n.
Proof.
  intros Hn Hc. apply take_while_app; [|done]. apply Forall_app. split; [by repeat constructor|done].
Qed.

Lemma parse_line_silent p vars : silent p → kconfig_parse_line p vars = Done (0%Z, vars).
Proof.
  intros Hp. unfold kconfig_parse_line. cbv zeta. destruct Hp as [[Hc Hs]|Hs].
  - by rewrite !bool_decide_true.
  - rewrite Hs. by destruct (_ && _).
Qed.

Lemma parse_line_set n w r c t vars :
  Forall is_id_char n → w ≠ [] → Forall is_graph w → isspace c = true → wf_vars vars →
  kconfig_parse_line (config_id n ++ "="%char :: w ++ c :: t) vars =
  Done (if hits (CSet n w r) vars then 1%Z else 0%Z, apply_entry (CSet n w r) <$> vars).
Proof.
  intros Hn Hw Hg Hc Hv. unfold kconfig_parse_line. cbv zeta.
  change (drop_while isspace (config_id n ++ "="%char :: w ++ c :: t))
    with (config_id n ++ "="%char :: w ++ c :: t).
  rewrite (bool_decide_false (char_at _ 0 = _)) by done. cbn [andb].
  pose proof (strstr_head (chars "CONFIG_") (n ++ "="%char :: w ++ c :: t)) as Hs.
  rewrite (app_assoc (chars _)) in Hs. fold (config_id n) in Hs. rewrite Hs.
  rewrite take_while_config_id by done. by apply match_vars_set.
Qed.

Lemma parse_line_unset n vars :
  Forall is_id_char n → wf_vars vars →
  kconfig_parse_line (render (CUnset n)) vars =
  Done (if hits (CUnset n) vars then 1%Z else 0%Z, apply_entry (CUnset n) <$> vars).
Proof.
  intros Hn Hv. unfold kconfig_parse_line, render. cbn [line_of]. cbv zeta. rewrite <-!app_assoc.
  set (tl := " "%char :: chars "is not set" ++ [NEWLINE]).
  change (chars " is not set" ++ [NEWLINE]) with tl.
  change (drop_while isspace (chars "# " ++ config_id n ++ tl)) with (chars "# " ++ config_id n ++ tl).
  rewrite (bool_decide_true (char_at _ 0 = _)) by done.
  rewrite (bool_decide_false (strstr _ (chars "is not set") = None)).
  2: { pose proof (strstr_found (chars "# " ++ config_id n ++ chars " ") (chars "is not set") [NEWLINE]) as Hs.
       by rewrite <-!app_assoc in Hs. }
  cbn [andb].
  change (strstr (chars "# " ++ config_id n ++ tl) (chars "CONFIG_"))
    with (strstr (config_id n ++ tl) (chars "CONFIG_")).
  pose proof (strstr_head (chars "CONFIG_") (n ++ tl)) as Hs.
  rewrite (app_assoc (chars _)) in Hs. fold (config_id n) in Hs. rewrite Hs.
  unfold tl at 2. rewrite take_while_config_id by done.
  by apply match_vars_unset.
Qed.

(** The first piece of a line decides what it says. *)
Lemma parse_line_first e p ps vars :
  wf_entry e → pieces_of e = p :: ps → wf_vars vars →
  kconfig_parse_line p vars = Done (if hits e vars then 1%Z else 0%Z, apply_entry e <$> vars) ∧ Forall silent ps.
Proof.
  intros (_ & _ & He) Hp Hv. unfold pieces_of in *. cbn [pieces] in *. destruct e as [n w r|n|t].
  - destruct He as (Hn & Hw & Hg & Hr & Hl & Hs). assert (∃ c t, p = config_id n ++ "="%char :: w ++ c :: t ∧ isspace c = true) as (c & t & -> & Hc).
    { set (l := config_id n ++ "="%char :: w). assert (length l < LINE_SIZE - 1) as Hll by (unfold l; rewrite length_app; cbn [length]; lia).
      replace (line_of (CSet n w r)) with (l ++ r) in Hp by (unfold l; cbn; by rewrite <-app_assoc).
      assert (∀ c t, config_id n ++ "="%char :: w ++ c :: t = l ++ c :: t) as Hassoc by (intros; unfold l; by rewrite <-app_assoc).
      clearbody l. destruct Hr as [->|Hr].
      - rewrite app_nil_r, decide_True in Hp by done. exists NEWLINE, []. rewrite Hassoc. by injection Hp as <- _.
      - destruct r as [|c r]; [done|]. exists c. cbn in Hr. destruct (decide (length (l ++ c :: r) < LINE_SIZE - 1)) as [Hd|Hd]; injection Hp as <- _.
        + exists (r ++ [NEWLINE]). by rewrite Hassoc, <-app_assoc.
        + change 127 with (LINE_SIZE - 1). rewrite (take_app_ge l) by lia. destruct (LINE_SIZE - 1 - length l) as [|k] eqn:Ek; [lia|]. exists (take k r). by rewrite Hassoc. }
    split; [by apply parse_line_set|]. by rewrite Hp in Hs.
  - destruct He as [Hn Hl]. rewrite decide_True in Hp by done. injection Hp as <- <-. split; [by apply parse_line_unset|done].
  - rewrite Hp in He. apply Forall_cons in He as [Hsil Hs]. split; [|done]. rewrite parse_line_silent by done. unfold hits. cbn.
    do 2 f_equal. symmetry. apply apply_entry_miss_all. cbn. by intros (? & ? & _)%list_elem_of_fmap.
Qed.

Lemma pieces_length fuel : ∀ s, length (pieces fuel s) ≤ S (length s).
Proof.
  induction fuel as [|fuel IH]; intros s; cbn [pieces]; [cbn; lia|]. case_decide as Hs; [cbn; lia|].
  cbn [length]. specialize (IH (drop (LINE_SIZE - 1) s)). rewrite length_drop in IH. unfold LINE_SIZE in *. lia.
Qed.

Lemma not_elem_of_drop (c : ascii) n s : c ∉ s → c ∉ drop n s.
Proof. intros Hs Hin. apply Hs. rewrite <-(take_drop n s). apply elem_of_app. by right. Qed.

(** The pieces are what fgets() returns. *)
Lemma fgets_piece fuel s t :
  NEWLINE ∉ s → length s < fuel →
  ∃ p ps r, pieces fuel s = p :: ps ∧ fgets LINE_SIZE (s ++ NEWLINE :: t) = Some (p, r) ∧
    (ps = [] ∧ r = t ∨ ∃ fuel', fuel = S fuel' ∧ ps = pieces fuel' (drop (LINE_SIZE - 1) s) ∧
       length (drop (LINE_SIZE - 1) s) < fuel' ∧ r = drop (LINE_SIZE - 1) s ++ NEWLINE :: t).
Proof.
  intros Hs Hf. destruct fuel as [|fuel]; [lia|]. cbn [pieces]. case_decide as Hl.
  - eexists _, [], t. split; [done|]. change LINE_SIZE with (S (LINE_SIZE - 1)) at 1. rewrite fgets_line by done. auto.
  - eexists _, _, _. split; [done|]. change LINE_SIZE with (S (LINE_SIZE - 1)) at 1.
    rewrite fgets_long by (done || unfold LINE_SIZE in *; lia). split; [done|]. right. exists fuel. split_and!; [done|done| |done].
    rewrite length_drop. unfold LINE_SIZE in *. lia.
Qed.

Lemma read_loop_silent vars k t fuel' : k ≠ length vars → ∀ fuel s,
  NEWLINE ∉ s → length s < fuel → Forall silent (pieces fuel s) →
  read_loop (length (pieces fuel s) + fuel') (s ++ NEWLINE :: t) k vars = read_loop fuel' t k vars.
Proof.
  intros Hk. induction fuel as [|fuel IH]; intros s Hs Hf Hsil; [lia|].
  destruct (fgets_piece (S fuel) s t Hs Hf) as (p & ps & r & Hp & Hg & Hr). rewrite Hp in *. apply Forall_cons in Hsil as [Hsp Hsil].
  cbn [length Nat.add read_loop]. rewrite Hg, parse_line_silent by done. cbn [mbind outcome_bind].
  rewrite (decide_True (P := 0%Z = 0%Z)), (decide_False (P := k = length vars)) by done. destruct Hr as [[-> ->]|(f & [= <-] & -> & Hlt & ->)]; [done|].
  by apply IH; [apply not_elem_of_drop| |].
Qed.

Lemma apply_entry_id e v : id (apply_entry e v) = id v ∧ id_len (apply_entry e v) = id_len v.
Proof.
  unfold apply_entry. case_decide; [|done]. destruct e; simpl; repeat case_decide; done.
Qed.

Lemma apply_entry_ids e (vars : list tst_kconfig_var) :
  id <$> (apply_entry e <$> vars) = id <$> vars.
Proof. rewrite <-list_fmap_compose. apply list_fmap_ext. intros. apply apply_entry_id. Qed.

Lemma wf_vars_apply e vars : wf_vars vars → wf_vars (apply_entry e <$> vars).
Proof.
  intros [Hnd Hl]. split; [by rewrite apply_entry_ids|].
  apply Forall_fmap. eapply Forall_impl; [done|]. intros v Hv. simpl.
  destruct (apply_entry_id e v) as [-> ->]. done.
Qed.

(** The config as a whole. *)
Definition config_text (es : list centry) : list ascii := concat (render <$> es).
Definition config_keys (es : list centry) : list (list ascii) := omap entry_key es.
Definition apply_config (es : list centry) (vars : list tst_kconfig_var) : list tst_kconfig_var :=
  foldl (λ vs e, apply_entry e <$> vs) vars es.

Lemma apply_config_miss es vars :
  (∀ k, k ∈ config_keys es → k ∉ id <$> vars) → apply_config es vars = vars.
Proof.
  revert vars. induction es as [|e es IH]; intros vars Hk; [done|]. simpl.
  assert (apply_entry e <$> vars = vars) as ->.
  { apply apply_entry_miss_all. destruct (entry_key e) as [k|] eqn:E.
    - rewrite elem_of_keys. apply Hk. unfold config_keys. simpl. rewrite E. by left.
    - intros (? & ? & _)%list_elem_of_fmap. done. }
  apply IH. intros k Hin. apply Hk. unfold config_keys. simpl.
  destruct (entry_key e); [by right|done].
Qed.

(** The number of pieces of a config. *)
Definition piece_count (es : list centry) : nat := sum_list_with (λ e, length (pieces_of e)) es.

(** After [k] hits on distinct names of [vars]. *)
Lemma read_loop_config es : ∀ fuel vars hk,
  Forall wf_entry es → wf_vars vars → NoDup (config_keys es) → piece_count es < fuel →
  NoDup hk → hk ⊆ id <$> vars → (∀ k, k ∈ hk → k ∉ config_keys es) →
  read_loop fuel (config_text es) (length hk) vars = Done (apply_config es vars).
Proof.
  induction es as [|e es IH]; intros fuel vars hk Hwf Hv Hnd Hf Hnk Hsub Hdis.
  { destruct fuel as [|fuel]; [cbn in Hf; lia|done]. }
  apply Forall_cons in Hwf as [He Hwf]. cbn [piece_count sum_list_with] in Hf. fold (piece_count es) in Hf.
  unfold config_text. cbn [fmap list_fmap concat]. fold (config_text es). unfold render. rewrite <-app_assoc. cbn [app].
  pose proof He as (Hnl & _ & _). destruct (fgets_piece (S (length (line_of e))) (line_of e) (config_text es)) as (p & ps & r & Hp & Hg & Hr);
    [done|lia|]. destruct (parse_line_first e p ps vars He Hp Hv) as [Hparse Hsil]. unfold pieces_of in Hf. rewrite Hp in Hf.
  destruct fuel as [|fuel]; [lia|]. cbn [read_loop length] in *. rewrite Hg, Hparse.
  cbn [mbind outcome_bind].
  set (vars' := apply_entry e <$> vars).
  set (k' := if decide ((if hits e vars then 1%Z else 0%Z) = 0%Z) then length hk else S (length hk)).
  set (hk' := if hits e vars then from_option (λ k, k :: hk) hk (entry_key e) else hk).
  assert (NoDup (config_keys es) ∧ ∀ k, entry_key e = Some k → k ∉ config_keys es) as [Hnd' Hke].
  { unfold config_keys in *. simpl in Hnd. destruct (entry_key e); [|done].
    apply NoDup_cons in Hnd as [? ?]. split; [done|]. by intros kk [= <-]. }
  assert (config_keys es ⊆ config_keys (e :: es)) as Hinc.
  { intros k Hk. unfold config_keys. simpl. destruct (entry_key e); [by right|done]. }
  assert (length hk' = k' ∧ NoDup hk' ∧ hk' ⊆ id <$> vars' ∧ ∀ k, k ∈ hk' → k ∉ config_keys es)
    as (Hlen & Hnk' & Hsub' & Hdis').
  { unfold hk', k', vars'. rewrite apply_entry_ids. unfold hits.
    destruct (entry_counts e); simpl; [|by naive_solver].
    case_bool_decide as Hin; simpl; [|by naive_solver].
    destruct (entry_key e) as [k|] eqn:Ek; [|by apply list_elem_of_fmap in Hin as (? & ? & _)].
    simpl. apply elem_of_keys in Hin. split; [done|]. split; [|split].
    - apply NoDup_cons. split; [|done]. intros Hk. apply (Hdis k Hk).
      unfold config_keys. simpl. rewrite Ek. by left.
    - intros x [->|Hx]%elem_of_cons; auto.
    - intros x [->|Hx]%elem_of_cons; [by apply Hke|].
      intros Hc. by apply (Hdis x Hx), Hinc. }
  change (apply_config (e :: es) vars) with (apply_config es vars').
  case_decide as Hall.
  - rewrite apply_config_miss; [done|]. intros k Hk Hin.
    assert (id <$> vars' ⊆ hk') as Hback
      by (apply NoDup_covers; [done..|]; by rewrite Hlen, Hall, length_fmap).
    by apply (Hdis' k); [apply Hback|].
  - assert (read_loop (fuel - length ps) (config_text es) k' vars' = Done (apply_config es vars')) as Hrest
      by (rewrite <-Hlen; apply IH; try done; [by apply wf_vars_apply|lia]).
    destruct Hr as [[-> ->]|(f & [= <-] & -> & Hlt & ->)]; [by rewrite Nat.sub_0_r in Hrest|].
    replace fuel with (length (pieces (length (line_of e)) (drop (LINE_SIZE - 1) (line_of e))) +
      (fuel - length (pieces (length (line_of e)) (drop (LINE_SIZE - 1) (line_of e))))) by lia.
    rewrite read_loop_silent by (done || by apply not_elem_of_drop). exact Hrest.
Qed.

(** The line for a name, if the config has one. *)
Definition config_lookup (es : list centry) (k : list ascii) : option centry :=
  snd <$> list_find (λ e, entry_key e = Some k) es.

Definition config_var (es : list centry) (v : tst_kconfig_var) : tst_kconfig_var :=
  match config_lookup es (id v) with Some e => entry_effect e v | None => v end.

Lemma config_lookup_cons e es k :
  config_lookup (e :: es) k = if decide (entry_key e = Some k) then Some e else config_lookup es k.
Proof.
  unfold config_lookup. simpl. case_decide; [done|].
  by destruct (list_find _ es) as [[]|].
Qed.

Lemma config_keys_cons e es :
  config_keys (e :: es) =
  match entry_key e with Some k => k :: config_keys es | None => config_keys es end.
Proof. done. Qed.

Lemma config_lookup_None es k : k ∉ config_keys es → config_lookup es k = None.
Proof.
  induction es as [|e es IH]; intros Hk; [done|]. rewrite config_lookup_cons.
  rewrite config_keys_cons in Hk. destruct (entry_key e) as [k'|].
  - apply not_elem_of_cons in Hk as [? ?]. rewrite decide_False by congruence. auto.
  - rewrite decide_False by done. auto.
Qed.

Lemma apply_config_lookup es vars :
  NoDup (config_keys es) → apply_config es vars = config_var es <$> vars.
Proof.
  revert vars. induction es as [|e es IH]; intros vars Hnd.
  { symmetry. rewrite <-(list_fmap_id vars) at 2. by apply list_fmap_ext. }
  rewrite config_keys_cons in Hnd.
  assert (NoDup (config_keys es)) as Hnd'.
  { destruct (entry_key e); [by apply NoDup_cons in Hnd as [_ ?]|done]. }
  change (apply_config es (apply_entry e <$> vars) = config_var (e :: es) <$> vars).
  rewrite IH, <-list_fmap_compose by done. apply list_fmap_ext. intros i v _. simpl.
  unfold config_var. rewrite (proj1 (apply_entry_id e v)), config_lookup_cons.
  unfold apply_entry. case_decide as He; [|done].
  rewrite config_lookup_None; [done|].
  rewrite He in Hnd. by apply NoDup_cons in Hnd as [? _].
Qed.

(** * The value of a variable *)

(** What a variable token, with the value after its equal sign if it has one,
    evaluates to; [None] where the code compares with a string the variable does
    not have. *)
Definition var_truth (e : option centry) (value : option (list ascii)) : option bool :=
  match e with
  | None | Some (COther _) => Some false
  | Some (CUnset _) =>
      match value with
      | None => Some false
      | Some w => if decide (w ∈ [chars "n"; chars "y"; chars "m"])
                  then Some (bool_decide (w = chars "n")) else None
      end
  | Some (CSet _ x _) =>
      let tri := bool_decide (x ∈ [chars "y"; chars "m"]) in
      match value with
      | None => Some tri
      | Some w => if decide (w ∈ [chars "n"; chars "y"; chars "m"])
                  then Some (tri && bool_decide (x = w))
                  else if tri then None else Some (bool_decide (x = w))
      end
  end.

(** The name and the value of a token text. *)
Definition tok_name (w : list ascii) : list ascii :=
  match index_of "=" w with None => w | Some k => take k w end.
Definition tok_value (w : list ascii) : option (list ascii) :=
  (λ k, drop (S k) w) <$> index_of "=" w.

Lemma get_len_name s len :
  take (get_len s len) s = tok_name (take len s).
Proof.
  unfold get_len, strnchr, tok_name. destruct (index_of "=" (take len s)) as [k|] eqn:E; [|done].
  assert (∀ l k, index_of "=" l = Some k → k < length l) as Hlt.
  { intros l. induction l as [|c l IH]; intros j Hj; simpl in *; [done|]. case_decide; simplify_eq; [lia|].
    destruct (index_of "=" l); simplify_eq/=. specialize (IH _ eq_refl). lia. }
  apply Hlt in E. rewrite length_take in E. rewrite take_take. f_equal. lia.
Qed.

Lemma strncmp_value (v w : list ascii) c len :
  w = take len v → length w = len → w ≠ [] →
  strncmp_eq v [c] len = bool_decide (w = [c]).
Proof.
  intros -> Hl Hne. unfold strncmp_eq. destruct len as [|[|len]]; [by destruct v| |].
  - done.
  - apply bool_decide_ext. rewrite take_ge with (l := [c]) by (simpl; lia). done.
Qed.

(** The mapping function as a function of the variable and of the token's value. *)
Definition var_value (var : tst_kconfig_var) (value : option (list ascii)) : outcome Z :=
  if decide (choice var = NUL) then Done 0%Z
  else
    match value with
    | None => Done (Z.b2z (bool_decide (choice var = "y"%char ∨ choice var = "m"%char)))
    | Some u =>
        if decide (u ∈ [chars "n"; chars "y"; chars "m"])
        then Done (Z.b2z (bool_decide (u = [choice var])))
        else match val var with
             | VStr x => Done (Z.b2z (bool_decide (x = u)))
             | _ => Fault
             end
    end.

Lemma elem_of_nym (u : list ascii) :
  u ∈ [chars "n"; chars "y"; chars "m"] ↔ u = ["n"%char] ∨ u = ["y"%char] ∨ u = ["m"%char].
Proof. rewrite !elem_of_cons, elem_of_nil. naive_solver. Qed.

Lemma map_value vars expr t i v :
  tok_priv t = PVar i → vars !! i = Some v →
  tok_str t + tok_len t ≤ length expr →
  (∀ w, tok_value (tok_text expr t) = Some w → w ≠ []) →
  map vars expr t = var_value v (tok_value (tok_text expr t)).
Proof.
  intros Hp Hv Hlen Hne. unfold map. rewrite Hp, Hv. cbn [load mbind outcome_bind].
  unfold strnchr, tok_tail, var_value. case_decide; [done|].
  change (take (tok_len t) (drop (tok_str t) expr)) with (tok_text expr t).
  unfold tok_value in *. destruct (index_of "=" (tok_text expr t)) as [k|] eqn:Ek; simpl in *.
  2: { do 2 f_equal. by rewrite bool_decide_or. }
  set (u := drop (S k) (drop (tok_str t) expr)). set (len := tok_len t - S k).
  assert (drop (S k) (tok_text expr t) = take len u) as Hwu.
  { unfold tok_text, u, len. by rewrite skipn_firstn_comm. }
  assert (length (take len u) = len) as Hl.
  { rewrite <-Hwu, length_drop. unfold tok_text. rewrite length_take, length_drop. unfold len. lia. }
  specialize (Hne _ eq_refl). rewrite Hwu in *. clearbody u len. clear Hwu Ek.
  rewrite !(strncmp_value u (take len u)) by done.
  remember (take len u) as w eqn:Hw. change (chars "n") with ["n"%char].
  change (chars "y") with ["y"%char]. change (chars "m") with ["m"%char].
  destruct (decide (w ∈ _)) as [Hin|Hin]; rewrite elem_of_nym in Hin.
  - destruct Hin as [->|[->| ->]]; simpl; do 2 f_equal; apply bool_decide_ext; split; congruence.
  - rewrite !bool_decide_false by naive_solver. rewrite decide_False by naive_solver.
    destruct (val v) as [| |x]; try done. case_decide as Hx.
    + rewrite bool_decide_false; [done|]. intros ->. lia.
    + do 2 f_equal. unfold strncmp_eq. rewrite <-Hw.
      rewrite <-Hx, firstn_all. apply bool_decide_ext. split; congruence.
Qed.

(** The value of a variable that the config defines. *)
Lemma var_value_truth es v0 value :
  choice v0 = NUL → val v0 = VJunk → (∀ x, config_lookup es (id v0) ≠ Some (COther x)) →
  var_value (config_var es v0) value =
  match var_truth (config_lookup es (id v0)) value with
  | Some b => Done (Z.b2z b)
  | None => Fault
  end.
Proof.
  intros Hc Hj Hno. unfold config_var, var_value, var_truth.
  destruct (config_lookup es (id v0)) as [[n x r|n|x]|]; [| |by destruct (Hno x)|by rewrite decide_True].
  - destruct (decide (x = chars "y")) as [->|Hy]; [|destruct (decide (x = chars "m")) as [->|Hm]].
    + change (entry_effect (CSet n (chars "y") r) v0) with (set_choice "y" v0).
      destruct value as [u|]; [|done]. simpl. case_decide; [|by rewrite Hj].
      do 2 f_equal. apply bool_decide_ext. split; congruence.
    + change (entry_effect (CSet n (chars "m") r) v0) with (set_choice "m" v0).
      destruct value as [u|]; [|done]. simpl. case_decide; [|by rewrite Hj].
      do 2 f_equal. apply bool_decide_ext. split; congruence.
    + replace (entry_effect (CSet n x r) v0) with (set_value x v0)
        by (unfold entry_effect; by rewrite !decide_False).
      rewrite (bool_decide_false (x ∈ _)) by (rewrite !elem_of_cons, elem_of_nil; naive_solver).
      destruct value as [u|]; simpl; [|done].
      case_decide as Hu; [|done]. apply elem_of_nym in Hu. rewrite bool_decide_false; [done|].
      by intros ->; destruct Hu as [?|[?|?]].
  - simpl. destruct value as [u|]; [|done]. case_decide; [done|by rewrite Hj].
Qed.
