(* ===== verification/KconfigCheck.v ===== *)
(** tst_kconfig_check() of lib/tst_kconfig.c as a whole: the lemmas that compose
    the parsing, the validation, the table of variables, the reading of the kernel
    configuration and the evaluation of the constraints, and the properties of the
    component.  The definitions are those of [Kconfig]. *)

From stdpp Require Import base strings numbers option list.
From Stdlib Require Import Ascii.
From S2P Require Import Prelude.
From S2P Require Import BoolExpr.
From S2P Require Import Kconfig.

#[local] Open Scope nat_scope.

(** * The loops over a parsed expression *)

(** The list the loops over an expression visit: every token once at most, and
    all the variables. *)
Record walk (ex : tst_expr) (l : list nat) : Prop := {
  walk_rpn : rpn_of ex = Done l;
  walk_nodup : NoDup l;
  walk_lt : Forall (λ k, k < length (buf ex)) l;
  walk_vars : ∀ k t, buf ex !! k = Some t → tok_op t = TST_OP_VAR → k ∈ l;
}.

Lemma chain_rpn_list b i l fuel :
  chain b i l → length l ≤ fuel → rpn_list fuel b i = Done l.
Proof.
  intros Hc. revert fuel. induction Hc as [|x l t Ht _ IH]; intros fuel Hf; [by destruct fuel|].
  destruct fuel as [|fuel]; simpl in Hf; [lia|]. simpl. rewrite Ht. simpl.
  rewrite IH by lia. done.
Qed.

Lemma represents_walk s ex e : represents s ex e → walk ex ((postfix e).*1).
Proof.
  intros (Hg & Hc & _ & Ho & _). pose proof (proj2 postfix_perm _ _ Hg) as Hp.
  rewrite <-(tks_tokens_of _ _ Ho) in Hp.
  assert (filter (λ y, y.2 ≠ TST_OP_LPAR ∧ y.2 ≠ TST_OP_RPAR) (tks (buf ex))
            `sublist_of` tks (buf ex)) as Hs by apply sublist_filter.
  split.
  - apply chain_rpn_list; [done|]. rewrite length_fmap, Hp.
    apply sublist_length in Hs. etrans; [exact Hs|]. unfold tks. by rewrite length_imap.
  - rewrite Hp. eapply sublist_NoDup; [apply tks_NoDup|]. by apply fmap_sublist.
  - rewrite Hp. apply Forall_fmap, Forall_forall. intros y Hy.
    apply list_elem_of_filter in Hy as [_ Hy]. by apply tks_elem in Hy as [_ ?].
  - intros k t Ht Hv. rewrite Hp. apply list_elem_of_fmap. exists (k, TST_OP_VAR). split; [done|].
    apply list_elem_of_filter. split; [done|].
    unfold tks. apply elem_of_lookup_imap. exists k, t. by rewrite Hv.
Qed.

(** A token that passes the checks of validate_var() and of populate_vars(). *)
Definition tok_ok (s : list ascii) (t : tst_expr_tok) : Prop :=
  tok_in s t ∧
  (tok_op t = TST_OP_VAR →
   valid_token (tok_text s t) ∧ length (tok_name (tok_text s t)) + 1 < ID_SIZE).

Lemma tok_ok_validate s t :
  cstring s → tok_ok s t → tok_op t = TST_OP_VAR →
  (validate_var (tok_tail s t) (tok_len t)).1 = 0%Z.
Proof.
  intros Hs [[Hin Hq] Hv] Hop. specialize (Hq Hop). destruct (Hv Hop) as [Hval _].
  unfold tok_tail. rewrite <-(take_drop (tok_len t) (drop (tok_str t) s)).
  fold (tok_text s t).
  replace (tok_len t) with (length (tok_text s t)) at 2
    by (unfold tok_text; rewrite length_take, length_drop; lia).
  apply validate_var_valid; [| |done].
  - intros [i Hi]%list_elem_of_lookup. apply Hs. unfold tok_text in Hi.
    apply lookup_take_Some in Hi as [Hi _]. rewrite lookup_drop in Hi.
    by eapply list_elem_of_lookup_2.
  - unfold char_at in *. by rewrite drop_drop, lookup_drop, Nat.add_0_r.
Qed.

Lemma validate_rpn_ok s b l :
  cstring s → Forall (tok_ok s) b → Forall (λ k, k < length b) l →
  validate_rpn s b l 0 = Done 0%Z.
Proof.
  intros Hs Hb. induction 1 as [|k l Hk _ IH]; [done|].
  apply lookup_lt_is_Some_2 in Hk as [t Ht]. simpl. rewrite Ht. simpl.
  case_decide as Hop; [|done].
  by rewrite (tok_ok_validate s t Hs (Forall_lookup_1 _ _ _ _ Hb Ht) Hop).
Qed.

(** The variables on a list of tokens. *)
Definition nvars (b : list tst_expr_tok) (l : list nat) : nat :=
  length (filter (λ k, tok_op <$> b !! k = Some TST_OP_VAR) l).

Lemma nvars_cons b k l t :
  b !! k = Some t →
  nvars b (k :: l) = (if decide (tok_op t = TST_OP_VAR) then 1 else 0) + nvars b l.
Proof.
  intros Ht. unfold nvars. rewrite filter_cons, Ht. simpl.
  destruct (decide (tok_op t = TST_OP_VAR)) as [H|H].
  - by rewrite decide_True by (by rewrite H).
  - by rewrite decide_False by congruence.
Qed.

Lemma count_rpn_nvars b l cnt :
  Forall (λ k, k < length b) l → count_rpn b l cnt = Done (cnt + nvars b l).
Proof.
  intros Hl. revert cnt. induction Hl as [|k l Hk _ IH]; intros cnt; simpl.
  { by rewrite Nat.add_0_r. }
  apply lookup_lt_is_Some_2 in Hk as [t Ht]. rewrite Ht. simpl.
  rewrite IH, (nvars_cons _ _ _ _ Ht). f_equal. case_decide; lia.
Qed.

(** * The table of variables *)

(** The first [cnt] entries are filled: different names, not looked up yet. *)
Record table (vars : list tst_kconfig_var) (cnt : nat) : Prop := {
  table_cnt : cnt ≤ length vars;
  table_wf : wf_vars (take cnt vars);
  table_new : Forall (λ v, choice v = NUL) (take cnt vars);
  table_val : Forall (λ v, val v = VJunk) vars;
}.

(** The private pointer of a token names the entry of its variable. *)
Definition bound (vars : list tst_kconfig_var) (s : list ascii) (t : tst_expr_tok) : Prop :=
  ∃ i v, tok_priv t = PVar i ∧ vars !! i = Some v ∧ id v = tok_name (tok_text s t).

Lemma bound_mono vars vars' s t : vars `prefix_of` vars' → bound vars s t → bound vars' s t.
Proof. intros Hp (i & v & Hi & Hv & Hid). exists i, v. eauto using prefix_lookup_Some. Qed.

Lemma index_of_lt c l k : index_of c l = Some k → k < length l.
Proof.
  revert k. induction l as [|c' l IH]; intros k Hk; simpl in *; [done|].
  case_decide; simplify_eq; [lia|].
  destruct (index_of c l); simplify_eq/=. specialize (IH _ eq_refl). lia.
Qed.

Lemma get_len_le s len : get_len s len ≤ len.
Proof.
  unfold get_len, strnchr. destruct (index_of "=" (take len s)) as [k|] eqn:E; [|done].
  apply index_of_lt in E. rewrite length_take in E. lia.
Qed.

Lemma find_var_None vars cnt v : find_var vars cnt v = None → v ∉ id <$> take cnt vars.
Proof.
  unfold find_var. rewrite fmap_None. intros Hf Hin.
  apply list_elem_of_fmap in Hin as (u & -> & Hu).
  apply list_find_None in Hf. rewrite Forall_forall in Hf. by apply (Hf u Hu).
Qed.

Lemma find_var_Some vars cnt v i :
  find_var vars cnt v = Some i → ∃ u, take cnt vars !! i = Some u ∧ id u = v.
Proof.
  unfold find_var. intros ([j u] & Hf & ->)%fmap_Some.
  apply list_find_Some in Hf as (Hj & Hid & _). eauto.
Qed.

Lemma table_insert vars cnt v :
  cnt < length vars → table vars cnt → val v = VJunk → table (<[cnt:=v]> vars) cnt.
Proof.
  intros Hlt [H1 H2 H3 H4] Hv. split; rewrite ?length_insert, ?take_insert_ge by lia; [done..|].
  by apply Forall_insert.
Qed.

Lemma table_snoc vars cnt v :
  cnt < length vars → table vars cnt → val v = VJunk → choice v = NUL →
  id_len v = length (id v) → id v ∉ id <$> take cnt vars →
  table (<[cnt:=v]> vars) (S cnt).
Proof.
  intros Hlt Ht Hv Hc Hlen Hid. pose proof (table_insert _ _ _ Hlt Ht Hv) as [_ [Hnd Hl] Hn Hval].
  assert (take (S cnt) (<[cnt:=v]> vars) = take cnt (<[cnt:=v]> vars) ++ [v]) as Hsn.
  { apply take_S_r. by apply list_lookup_insert_eq. }
  split; [by rewrite length_insert| |rewrite Hsn; by apply Forall_app_2; [|constructor]|done].
  rewrite Hsn. split; [|by apply Forall_app_2; [|constructor]].
  rewrite fmap_app. apply NoDup_app. split; [done|]. split; [|apply NoDup_singleton].
  rewrite take_insert_ge by lia. intros x Hx ->%list_elem_of_singleton. done.
Qed.

Lemma populate_tok_ok s t vars cnt :
  table vars cnt → cnt < length vars → tok_ok s t → tok_op t = TST_OP_VAR →
  ∃ p vars' cnt',
    populate_tok s t vars cnt = Done (Ret (p, vars', cnt')) ∧ table vars' cnt' ∧
    length vars' = length vars ∧ cnt' ≤ S cnt ∧
    take cnt vars `prefix_of` take cnt' vars' ∧ bound (take cnt' vars') s (set_priv p t).
Proof.
  intros Ht Hlt [[Hin _] Hok] Hop. destruct (Hok Hop) as [_ Hshort]. unfold populate_tok.
  destruct (lookup_lt_is_Some_2 _ _ Hlt) as [old Hold]. rewrite Hold. cbn [load mbind outcome_bind].
  assert (take (get_len (tok_tail s t) (tok_len t)) (tok_tail s t) = tok_name (tok_text s t)) as Hn
    by apply get_len_name.
  assert (length (tok_name (tok_text s t)) = get_len (tok_tail s t) (tok_len t)) as Hlen.
  { rewrite <-Hn, length_take. pose proof (get_len_le (tok_tail s t) (tok_len t)).
    unfold tok_tail in *. rewrite length_drop. lia. }
  rewrite Hn. rewrite <-Hlen. rewrite decide_False by lia.
  pose proof (Forall_lookup_1 _ _ _ _ (table_val _ _ Ht) Hold) as Hj. simpl in Hj.
  set (v := KVar (tok_name (tok_text s t)) _ NUL (val old)).
  assert (take cnt (<[cnt:=v]> vars) = take cnt vars) as Htk by (by rewrite take_insert_ge).
  destruct (find_var (<[cnt:=v]> vars) cnt _) as [i|] eqn:Ef.
  - apply find_var_Some in Ef as (u & Hu & Hid).
    exists (PVar i), (<[cnt:=v]> vars), cnt. split; [done|]. split; [by apply table_insert|].
    split; [by rewrite length_insert|]. split; [lia|]. split; [by rewrite Htk|].
    exists i, u. done.
  - apply find_var_None in Ef. rewrite Htk in Ef.
    exists (PVar cnt), (<[cnt:=v]> vars), (S cnt). split; [done|]. split; [by apply table_snoc|].
    split; [by rewrite length_insert|]. split; [lia|].
    split; [rewrite <-Htk; exists [v]; apply take_S_r, list_lookup_insert_eq; done|].
    exists cnt, v. split; [done|]. split; [|done].
    rewrite lookup_take_lt by lia. by apply list_lookup_insert_eq.
Qed.

Lemma nvars_insert b k t p l :
  b !! k = Some t → nvars (<[k:=set_priv p t]> b) l = nvars b l.
Proof.
  intros Ht. unfold nvars. f_equal. apply list_filter_iff. intros i.
  destruct (decide (i = k)) as [->|Hne].
  - rewrite list_lookup_insert_eq, Ht by (by eapply lookup_lt_Some). done.
  - by rewrite list_lookup_insert_ne.
Qed.

(** What populating does to a token buffer: only the private pointers change,
    and those of the visited variables are bound. *)
Record populated (s : list ascii) (l : list nat) (vars : list tst_kconfig_var)
    (b b' : list tst_expr_tok) : Prop := {
  pop_same : set_priv PNull <$> b' = set_priv PNull <$> b;
  pop_out : ∀ k, k ∉ l → b' !! k = b !! k;
  pop_bound : ∀ k t, k ∈ l → b' !! k = Some t → tok_op t = TST_OP_VAR → bound vars s t;
}.

(** How the table grows. *)
Record grows (n : nat) (vars : list tst_kconfig_var) (cnt : nat)
    (vars' : list tst_kconfig_var) (cnt' : nat) : Prop := {
  grows_table : table vars' cnt';
  grows_length : length vars' = length vars;
  grows_cnt : cnt' ≤ cnt + n;
  grows_prefix : take cnt vars `prefix_of` take cnt' vars';
}.

Lemma grows_trans n1 n2 v1 c1 v2 c2 v3 c3 :
  grows n1 v1 c1 v2 c2 → grows n2 v2 c2 v3 c3 → grows (n1 + n2) v1 c1 v3 c3.
Proof. intros [] []. split; [done|congruence|lia|by etrans]. Qed.

Lemma populated_mono s l vars vars' b b' :
  vars `prefix_of` vars' → populated s l vars b b' → populated s l vars' b b'.
Proof. intros Hp [H1 H2 H3]. split; eauto using bound_mono. Qed.

Lemma populated_skip s k l vars b b' t :
  b !! k = Some t → tok_op t ≠ TST_OP_VAR → k ∉ l →
  populated s l vars b b' → populated s (k :: l) vars b b'.
Proof.
  intros Ht Hop Hk [H1 H2 H3]. split; [done|by intros ? [??]%not_elem_of_cons; auto|].
  intros k' t' [->|Hin]%elem_of_cons Ht' Hv; [|eauto].
  rewrite H2 in Ht' by done. congruence.
Qed.

Lemma populated_cons s k l vars b b' t p :
  b !! k = Some t → k ∉ l → bound vars s (set_priv p t) →
  populated s l vars (<[k:=set_priv p t]> b) b' → populated s (k :: l) vars b b'.
Proof.
  intros Ht Hk Hb [H1 H2 H3]. split.
  - rewrite H1, list_fmap_insert. apply list_insert_id. by rewrite list_lookup_fmap, Ht.
  - intros k' [Hne Hl]%not_elem_of_cons. rewrite H2 by done. by rewrite list_lookup_insert_ne.
  - intros k' t' [->|Hin]%elem_of_cons Ht' Hv; [|eauto].
    rewrite H2, list_lookup_insert_eq in Ht' by (done || by eapply lookup_lt_Some).
    by simplify_eq.
Qed.

Lemma populate_rpn_ok s l b vars cnt :
  NoDup l → Forall (λ k, k < length b) l → Forall (tok_ok s) b → table vars cnt →
  cnt + nvars b l ≤ length vars →
  ∃ b' vars' cnt',
    populate_rpn s l b vars cnt = Done (Ret (b', vars', cnt')) ∧
    grows (nvars b l) vars cnt vars' cnt' ∧ populated s l (take cnt' vars') b b'.
Proof.
  intros Hnd. revert b vars cnt. induction Hnd as [|k l Hk _ IH]; intros b vars cnt Hl Hb Ht Hc.
  { exists b, vars, cnt. split; [done|]. split; [split; auto; lia|]. split; [done..|].
    intros k t Hk%elem_of_nil. done. }
  apply Forall_cons in Hl as [Hkl Hl]. apply lookup_lt_is_Some_2 in Hkl as [t Hkt].
  rewrite (nvars_cons _ _ _ _ Hkt) in *. simpl. rewrite Hkt. cbn [load mbind outcome_bind].
  destruct (decide (tok_op t = TST_OP_VAR)) as [Hop|Hop].
  - rewrite decide_False by auto.
    destruct (populate_tok_ok s t vars cnt) as (p & v1 & c1 & -> & Ht1 & Hl1 & Hc1 & Hp1 & Hb1);
      [done|lia|by eapply Forall_lookup_1|done|]. simpl.
    destruct (IH (<[k:=set_priv p t]> b) v1 c1) as (b' & v' & c' & -> & Hg & Hpop).
    { by rewrite length_insert. }
    { apply Forall_insert; [done|]. exact (Forall_lookup_1 _ _ _ _ Hb Hkt). }
    { done. }
    { rewrite nvars_insert by done. lia. }
    rewrite nvars_insert in Hg by done.
    exists b', v', c'. split; [done|]. split.
    + eapply (grows_trans 1); [|exact Hg]. split; auto; lia.
    + eapply populated_cons; [done..| |exact Hpop].
      eapply bound_mono; [apply Hg|done].
  - rewrite decide_True by done. destruct (IH b vars cnt) as (b' & v' & c' & -> & Hg & Hpop); [done..|].
    exists b', v', c'. split; [done|]. split; [done|]. by eapply populated_skip.
Qed.

Lemma set_priv_lookup (b b' : list tst_expr_tok) k t' :
  set_priv PNull <$> b' = set_priv PNull <$> b → b' !! k = Some t' →
  ∃ t, b !! k = Some t ∧ t' = set_priv (tok_priv t') t.
Proof.
  intros H Hk. apply (f_equal (lookup k)) in H. rewrite !list_lookup_fmap, Hk in H. simpl in H.
  destruct (b !! k) as [t|]; simplify_eq/=. exists t. split; [done|].
  destruct t, t'; unfold set_priv in *; simpl in *. by simplify_eq.
Qed.

Lemma set_priv_fields {A} (g : tst_expr_tok → A) (b b' : list tst_expr_tok) :
  (∀ t, g (set_priv PNull t) = g t) →
  set_priv PNull <$> b' = set_priv PNull <$> b → g <$> b' = g <$> b.
Proof.
  intros Hg H. apply (f_equal (fmap g)) in H. rewrite <-!list_fmap_compose in H.
  by rewrite !(list_fmap_ext (g ∘ set_priv PNull) g) in H by (intros; apply Hg).
Qed.

Lemma set_priv_chain (b b' : list tst_expr_tok) i l :
  set_priv PNull <$> b' = set_priv PNull <$> b → chain b i l → chain b' i l.
Proof.
  intros H. symmetry in H. induction 1 as [|x l t Ht _ IH]; [constructor|].
  destruct (set_priv_lookup b' b x t H Ht) as (t' & Ht' & Heq).
  econstructor; [exact Ht'|]. by rewrite Heq in IH.
Qed.

Lemma represents_set_priv s r b b' e :
  set_priv PNull <$> b' = set_priv PNull <$> b →
  represents s (Expr r b) e → represents s (Expr r b') e.
Proof.
  intros H (Hg & Hc & Ht & Ho & Hin). simpl in *. split; [done|]. simpl.
  split; [by eapply set_priv_chain|].
  rewrite (set_priv_fields (tok_text s) b b'), (set_priv_fields tok_op b b') by done.
  split; [done|]. split; [done|]. apply Forall_lookup_2. intros k t Hk.
  destruct (set_priv_lookup _ _ _ _ H Hk) as (t' & Ht' & ->).
  exact (Forall_lookup_1 _ _ _ _ Hin Ht').
Qed.

(** * The expressions along the check *)

Abbreviation checked := (λ (x : kexpr) (e : bexp),
  cstring x.1 ∧ represents x.1 x.2 e ∧ Forall (tok_ok x.1) (buf x.2)).

(** The expression after populate_vars(). *)
Definition ready (vars : list tst_kconfig_var) (x : kexpr) (e : bexp) : Prop :=
  checked x e ∧
  ∀ k t, buf x.2 !! k = Some t → tok_op t = TST_OP_VAR → bound vars x.1 t.

Lemma ready_mono vars vars' x e : vars `prefix_of` vars' → ready vars x e → ready vars' x e.
Proof. intros Hp [Hc Hb]. split; eauto using bound_mono. Qed.

Lemma populated_ready s r b b' e vars l :
  walk (Expr r b) l → checked (s, Expr r b) e → populated s l vars b b' →
  ready vars (s, Expr r b') e.
Proof.
  intros Hw (Hs & Hr & Hok) Hp. pose proof (pop_same _ _ _ _ _ Hp) as Hsame. simpl in *. split.
  - split; [done|]. split; [by eapply represents_set_priv|]. simpl.
    apply Forall_lookup_2. intros k t Hk.
    destruct (set_priv_lookup _ _ _ _ Hsame Hk) as (t' & Ht' & ->).
    exact (Forall_lookup_1 _ _ _ _ Hok Ht').
  - simpl. intros k t Hk Hop. eapply pop_bound; [done| |done|done].
    destruct (set_priv_lookup _ _ _ _ Hsame Hk) as (t' & Ht' & Heq).
    eapply walk_vars; [done|exact Ht'|]. by rewrite Heq in Hop.
Qed.

Lemma validate_vars_ok exprs es :
  Forall2 checked exprs es → validate_vars exprs 0 = Done 0%Z.
Proof.
  induction 1 as [|[s ex] e exprs es (Hs & Hr & Hok) _ IH]; [done|]. simpl in *.
  apply represents_walk in Hr as [-> _ Hlt _]. simpl. by rewrite validate_rpn_ok.
Qed.

(** The counting pass gives a size that is enough for the second one. *)
Lemma populate_vars_ok exprs es :
  Forall2 checked exprs es →
  ∃ n, (∀ cnt, get_var_cnt exprs cnt = Done (cnt + n)) ∧
    ∀ vars cnt, table vars cnt → cnt + n ≤ length vars →
      ∃ exprs' vars' cnt',
        populate_vars exprs vars cnt = Done (Ret (exprs', vars', cnt')) ∧
        grows n vars cnt vars' cnt' ∧ exprs'.*1 = exprs.*1 ∧
        Forall2 (ready (take cnt' vars')) exprs' es.
Proof.
  induction 1 as [|[s [r b]] e exprs es Hch _ (n & Hn & IH)].
  { exists 0. split; [intros; simpl; by rewrite Nat.add_0_r|]. intros vars cnt Ht _.
    exists [], vars, cnt. split; [done|]. split; [split; auto; lia|]. by split; [|constructor]. }
  pose proof Hch as (Hs & Hr & Hok). simpl in Hs, Hr, Hok.
  pose proof (represents_walk _ _ _ Hr) as Hw. pose proof Hw as [Hrpn Hnd Hlt _].
  set (l := (postfix e).*1) in *. simpl in Hlt.
  exists (nvars b l + n). split.
  { intros cnt. simpl. rewrite Hrpn. simpl. rewrite count_rpn_nvars by done. simpl.
    rewrite Hn. f_equal. lia. }
  intros vars cnt Ht Hc. cbn [populate_vars]. rewrite Hrpn. cbn [mbind outcome_bind buf rpn].
  destruct (populate_rpn_ok s l b vars cnt) as (b' & v1 & c1 & -> & Hg1 & Hp1); [done..|lia|].
  cbn [mbind outcome_bind].
  destruct (IH v1 c1) as (exprs' & v2 & c2 & -> & Hg2 & Hf & Hready).
  { apply Hg1. } { rewrite (grows_length _ _ _ _ _ Hg1). pose proof (grows_cnt _ _ _ _ _ Hg1). lia. }
  eexists _, _, _. split; [done|]. split; [by eapply grows_trans|]. split; [by rewrite !fmap_cons, Hf|].
  constructor; [|done]. eapply ready_mono; [apply Hg2|]. by eapply populated_ready.
Qed.

(** * Parsing *)

(** A constraint that is accepted: a word of the grammar whose variables are
    valid and have names that fit, and which the evaluator's stack can hold. *)
Definition wf_expr (s : list ascii) (e : bexp) : Prop :=
  cstring s ∧ g_expr (tokens_of s) e ∧ depth e ≤ MAX_STACK ∧
  ∀ w, w ∈ lex s → text_op w = TST_OP_VAR →
       valid_token w ∧ length (tok_name w) + 1 < ID_SIZE.

Definition allocates (malloc : nat → option (list tst_expr_tok)) : Prop :=
  ∀ n, ∃ mem, malloc n = Some mem ∧ length mem = n.

Lemma parse_exprs_ok malloc ks es :
  allocates malloc → Forall2 wf_expr ks es →
  ∃ exprs, parse_exprs malloc ks = Done (Ret exprs) ∧ exprs.*1 = ks ∧ Forall2 checked exprs es.
Proof.
  intros Hm. induction 1 as [|s e ks es (Hs & Hg & _ & Hw) _ (exprs & Hp & Hf & Hc)].
  { by exists []. }
  destruct (Hm (length (lex s))) as (mem & Ha & Hl).
  destruct (parse_accepts malloc s mem e Hs Ha Hl Hg) as (ex & Hpe & Hr & _).
  exists ((s, ex) :: exprs). split; [simpl; rewrite Hpe; simpl; by rewrite Hp|].
  split; [by rewrite !fmap_cons, Hf|]. constructor; [|done]. simpl. split; [done|]. split; [done|].
  destruct Hr as (_ & _ & Ht & Ho & Hin). apply Forall_lookup_2. intros k t Hk.
  split; [exact (Forall_lookup_1 _ _ _ _ Hin Hk)|]. intros Hop. apply Hw.
  - rewrite <-Ht. apply list_elem_of_fmap. exists t. by split; [|eapply list_elem_of_lookup_2].
  - apply (f_equal (lookup k)) in Ho, Ht. rewrite !list_lookup_fmap, Hk in *. simpl in *.
    rewrite <-Ht in Ho. simpl in Ho. congruence.
Qed.

(** * Evaluation *)

(** The value of token [x] of a constraint under a config. *)
Definition token_truth (cfg : list centry) (s : list ascii) (x : nat) : option bool :=
  w ← lex s !! x; var_truth (config_lookup cfg (tok_name w)) (tok_value w).

Definition token_value (cfg : list centry) (s : list ascii) (x : nat) : Z :=
  Z.b2z (default false (token_truth cfg s x)).

(** Every variable of the constraint has a value under the config. *)
Definition comparable (cfg : list centry) (s : list ascii) : Prop :=
  ∀ x w, lex s !! x = Some w → text_op w = TST_OP_VAR → token_truth cfg s x ≠ None.

Lemma config_lookup_other cfg k x : config_lookup cfg k ≠ Some (COther x).
Proof.
  unfold config_lookup. intros ([i e] & Hf & He)%fmap_Some. simpl in He. subst e.
  by apply list_find_Some in Hf as (_ & ? & _).
Qed.

Lemma valid_token_value w u : valid_token w → tok_value w = Some u → u ≠ [].
Proof.
  intros (name & Hn & Hw). unfold tok_value.
  assert ("="%char ∉ chars "CONFIG_" ++ name) as Hnot.
  { assert ("="%char ∉ chars "CONFIG_") as H0 by by_decide.
    intros [Hin|Hin]%elem_of_app; [done|]. rewrite Forall_forall in Hn. by apply Hn in Hin. }
  destruct Hw as [->|(v & -> & Hv)].
  - by rewrite index_of_notin.
  - rewrite (assoc_L (++)). set (a := chars "CONFIG_" ++ name) in *. clearbody a.
    rewrite index_of_first by done. simpl. intros [= <-].
    rewrite cons_middle, (assoc_L (++)), drop_app_length' by (rewrite length_app; simpl; lia).
    by destruct Hv as [(q & -> & _)|(c & a' & -> & _)].
Qed.

Section evaluation.
Context (cfg : list centry) (vars : list tst_kconfig_var).
Hypothesis Hnew : Forall (λ v, choice v = NUL ∧ val v = VJunk) vars.

Lemma ready_map s ex e x t :
  ready vars (s, ex) e → comparable cfg s →
  buf ex !! x = Some t → tok_op t = TST_OP_VAR →
  map (config_var cfg <$> vars) s t = Done (token_value cfg s x).
Proof.
  intros [(Hs & Hr & Hok) Hb] Hcmp Hx Hop. simpl in *.
  destruct (Hb _ _ Hx Hop) as (i & v & Hi & Hv & Hid).
  destruct (Forall_lookup_1 _ _ _ _ Hok Hx) as [[Hin _] Hval].
  destruct (Hval Hop) as [Hvalid _].
  pose proof (Forall_lookup_1 _ _ _ _ Hnew Hv) as [Hc Hj].
  rewrite (map_value _ _ _ i (config_var cfg v)); [|done| |done|].
  2: { by rewrite list_lookup_fmap, Hv. }
  2: { intros w. by apply valid_token_value. }
  rewrite var_value_truth by (done || apply config_lookup_other).
  destruct Hr as (_ & _ & Ht & Ho & _).
  apply (f_equal (lookup x)) in Ht, Ho. rewrite list_lookup_fmap, Hx in Ht.
  rewrite !list_lookup_fmap, Hx in Ho. simpl in Ht, Ho.
  rewrite <-Ht in Ho. simpl in Ho.
  pose proof (Hcmp x (tok_text s t) (eq_sym Ht)) as Hdef. unfold token_value, token_truth in *.
  rewrite <-Ht in *. simpl in *. rewrite Hid.
  destruct (var_truth _ _); [done|]. destruct Hdef; [congruence|done].
Qed.

Lemma token_value_defined s e : defined (token_value cfg s) e = true.
Proof.
  induction e as [x|x e IH|x o e1 IH1 e2 IH2]; simpl; [|done|by rewrite IH1, IH2].
  rewrite bool_decide_false; [done|]. unfold token_value. by destruct (default _ _).
Qed.

Lemma ready_eval s ex e stack :
  ready vars (s, ex) e → comparable cfg s → depth e ≤ MAX_STACK → length stack = MAX_STACK →
  tst_bool_expr_eval (map (config_var cfg <$> vars) s) stack ex = Done (beval (token_value cfg s) e).
Proof.
  intros Hr Hc Hd Hl. pose proof Hr as [(_ & Hrep & _) _]. simpl in Hrep.
  rewrite (represents_eval s ex e _ (token_value cfg s)); [|done| |done].
  - by rewrite decide_True by (split; [done|apply token_value_defined]).
  - intros x t. by apply ready_map with e.
Qed.

Lemma config_var_dump v :
  v ∈ vars → choice (config_var cfg v) = "v"%char → ∃ w, val (config_var cfg v) = VStr w.
Proof.
  rewrite Forall_forall in Hnew. intros [Hc Hj]%Hnew. unfold config_var, entry_effect.
  destruct (config_lookup cfg (id v)) as [[n w r|n|x]|]; simpl; [|done|by rewrite Hc..].
  repeat case_decide; simpl; eauto; done.
Qed.

Lemma dump_rpn_ok s b l :
  Forall (λ k, k < length b) l →
  (∀ k t, b !! k = Some t → tok_op t = TST_OP_VAR → bound vars s t) →
  ∃ out, dump_rpn (config_var cfg <$> vars) b l = Done out.
Proof.
  intros Hl Hb. induction Hl as [|k l Hk _ (out & IH)]; [by eexists|].
  apply lookup_lt_is_Some_2 in Hk as [t Ht]. simpl. rewrite Ht. simpl.
  destruct (decide (tok_op t = TST_OP_VAR)) as [Hop|Hop].
  2: { rewrite decide_True by done. eauto. }
  rewrite decide_False by auto. destruct (Hb _ _ Ht Hop) as (i & v & -> & Hv & _).
  rewrite list_lookup_fmap, Hv. simpl. rewrite IH.
  case_decide; simpl; [eauto|]. case_decide as Hc; simpl; [|eauto].
  destruct (config_var_dump v) as [w ->]; [by eapply list_elem_of_lookup_2|done|]. simpl. eauto.
Qed.

Lemma eval_exprs_ok stack exprs es a :
  Forall2 (ready vars) exprs es → Forall (comparable cfg) (exprs.*1) →
  Forall (λ e, depth e ≤ MAX_STACK) es → length stack = MAX_STACK →
  ∃ out, eval_exprs stack (config_var cfg <$> vars) exprs a =
         Done (a || bool_decide (¬ Forall2 (λ s e, beval (token_value cfg s) e = 1%Z) (exprs.*1) es),
               out) ∧
         (Forall2 (λ s e, beval (token_value cfg s) e = 1%Z) (exprs.*1) es → out = []).
Proof.
  intros Hr. revert a. induction Hr as [|[s ex] e exprs es Hr _ IH]; intros a Hc Hd Hl.
  { exists []. simpl. by rewrite orb_false_r. }
  rewrite fmap_cons in *. simpl in Hc. apply Forall_cons in Hc as [Hc1 Hc].
  apply Forall_cons in Hd as [Hd1 Hd]. simpl. rewrite (ready_eval s ex e) by done. simpl.
  destruct (decide (beval (token_value cfg s) e = 1%Z)) as [Hv|Hv].
  - rewrite decide_False by auto. destruct (IH a Hc Hd Hl) as (out & -> & Ho).
    exists out. split.
    + do 3 f_equal. apply bool_decide_ext. rewrite Forall2_cons. naive_solver.
    + rewrite Forall2_cons. naive_solver.
  - rewrite decide_True by done. destruct (IH true Hc Hd Hl) as (out & -> & Ho).
    pose proof Hr as [(_ & Hrep & _) Hb]. simpl in Hrep, Hb.
    apply represents_walk in Hrep as [Hw _ Hlt _].
    destruct (dump_rpn_ok s (buf ex) _ Hlt Hb) as [d Hdump].
    unfold dump_vars. rewrite Hw. simpl. rewrite Hdump. simpl. eexists. split.
    + rewrite (bool_decide_true (¬ _)); [by rewrite orb_true_r|].
      rewrite Forall2_cons. naive_solver.
    + rewrite Forall2_cons. naive_solver.
Qed.
End evaluation.

(** * The composed check *)

Lemma piece_count_length es : piece_count es ≤ length (config_text es).
Proof.
  induction es as [|e es IH]; [done|].
  unfold config_text, piece_count in *. cbn [sum_list_with fmap list_fmap concat]. rewrite length_app.
  pose proof (pieces_length (S (length (line_of e))) (line_of e)). unfold render at 1. rewrite length_app. fold (pieces_of e) in *. cbn [length]. lia.
Qed.

Lemma tst_kconfig_read_lookup env cfg vars :
  open_kconfig env = Ret (Some (config_text cfg)) →
  Forall wf_entry cfg → NoDup (config_keys cfg) → wf_vars vars →
  tst_kconfig_read env vars = Done (Ret (config_var cfg <$> vars)).
Proof.
  intros Ho Hwf Hnd Hv. unfold tst_kconfig_read. rewrite Ho.
  pose proof (piece_count_length cfg).
  rewrite (read_loop_config cfg _ vars []); try done; try lia; [|constructor|by intros ? ?%elem_of_nil|by intros ? ?%elem_of_nil].
  simpl. by rewrite apply_config_lookup.
Qed.

Lemma array_len_kconfigs (ks : list (list ascii)) :
  ks ≠ [] → array_len ((Some <$> ks) ++ [None]) = Done (length ks).
Proof.
  assert (∀ l i, array_len_from ((Some <$> l : list (option (list ascii))) ++ [None]) i
                 = Done (i + length l)) as Hfrom.
  { induction l as [|k l IH]; intros i; simpl; [by rewrite Nat.add_0_r|].
    rewrite IH. f_equal. lia. }
  destruct ks as [|k ks]; [done|]. intros _.
  change (array_len_from ((Some <$> ks) ++ [None]) 1 = Done (S (length ks))). apply Hfrom.
Qed.

Lemma mapM_id_Some {A} (l : list A) : mapM Datatypes.id (Some <$> l) = Some l.
Proof. apply mapM_Some. induction l; by constructor. Qed.

(** The variables of the array declared in the check: the contents are what the
    stack frame held. *)
Definition junk_vla (vla : nat → list tst_kconfig_var) : Prop :=
  ∀ n, length (vla n) = n ∧ Forall (λ v, val v = VJunk) (vla n).

Lemma junk_table vla n : junk_vla vla → table (vla n) 0.
Proof. intros H. destruct (H n). split; rewrite ?take_0; try done; [lia|]. split; constructor. Qed.

Lemma kconfig_check_verdict env malloc vla stack cfg ks es :
  open_kconfig env = Ret (Some (config_text cfg)) →
  Forall wf_entry cfg → NoDup (config_keys cfg) →
  allocates malloc → junk_vla vla → length stack = MAX_STACK →
  ks ≠ [] → Forall2 wf_expr ks es → Forall (comparable cfg) ks →
  tst_kconfig_check env malloc vla stack ((Some <$> ks) ++ [None]) =
  Done (if decide (Forall2 (λ s e, beval (token_value cfg s) e = 1%Z) ks es) then Ret []
        else Brk TCONF "Aborting due to unsuitable kernel config, see above!").
Proof.
  intros Ho Hwf Hnd Hm Hvla Hst Hne Hks Hcmp. unfold tst_kconfig_check.
  rewrite array_len_kconfigs by done. cbn [mbind outcome_bind].
  rewrite take_app_length' by (by rewrite length_fmap). rewrite mapM_id_Some. cbn [load mbind outcome_bind].
  destruct (parse_exprs_ok malloc ks es Hm Hks) as (exprs & -> & Hf & Hch). cbn [mbind outcome_bind].
  rewrite (validate_vars_ok exprs es Hch). cbn [mbind outcome_bind]. rewrite decide_False by auto.
  destruct (populate_vars_ok exprs es Hch) as (n & Hn & Hpop). rewrite Hn. cbn [mbind outcome_bind].
  destruct (Hpop (vla n) 0) as (exprs' & vars' & cnt' & Hp & [Ht _ _ _] & Hf' & Hready);
    [by apply junk_table|by rewrite (proj1 (Hvla n))|].
  simpl Nat.add. rewrite Hp. cbn [mbind outcome_bind].
  rewrite (tst_kconfig_read_lookup env cfg) by (done || apply Ht). cbn [mbind outcome_bind].
  assert (Forall (λ v, choice v = NUL ∧ val v = VJunk) (take cnt' vars')) as Hnew.
  { apply Forall_and. split; [apply Ht|]. apply Forall_take, Ht. }
  rewrite Hf in Hf'.
  destruct (eval_exprs_ok cfg _ Hnew stack exprs' es false) as (out & -> & Hout);
    [done|by rewrite Hf'| |done|].
  { eapply Forall2_Forall_r; [exact Hks|]. apply Forall_true. intros s e (_ & _ & ? & _). done. }
  rewrite Hf' in *. cbn [mbind outcome_bind orb].
  destruct (decide _) as [Hall|Hall].
  - rewrite (bool_decide_false (¬ _)) by auto. by rewrite Hout.
  - by rewrite bool_decide_true.
Qed.

Lemma scan_value_open w : Forall is_graph w → scan_value w = Fault.
Proof.
  induction 1 as [|c w Hc _ IH]; [done|]. simpl. unfold is_graph in Hc.
  destruct (isspace c); [done|]. by rewrite IH.
Qed.

Lemma drop_while_space sp w :
  Forall isspace sp → Forall is_graph w → drop_while isspace (sp ++ w) = w.
Proof.
  intros Hsp Hw. induction Hsp as [|c sp Hc _ IH]; simpl.
  - destruct Hw as [|c w Hc _]; [done|]. simpl. unfold is_graph in Hc. by destruct (isspace c).
  - apply Is_true_true in Hc. by rewrite Hc.
Qed.

Lemma match_vars_open n sp w vars dn :
  Forall isspace sp → Forall is_graph w → Forall (λ v, id_len v = length (id v)) vars →
  config_id n ∈ id <$> vars →
  match_vars (config_id n ++ "="%char :: sp ++ w) (length (config_id n)) false dn vars = Fault.
Proof.
  intros Hsp Hw Hl. revert dn. induction Hl as [|v vars Hv _ IH]; intros dn Hin.
  { by apply elem_of_nil in Hin. }
  destruct (decide (id v = config_id n)) as [E|E].
  - rewrite match_vars_hit by done. cbv zeta.
    change (drop_while isspace ("="%char :: sp ++ w)) with ("="%char :: sp ++ w).
    rewrite decide_False by (by intros []).
    change (drop 1 ("="%char :: sp ++ w)) with (sp ++ w).
    rewrite drop_while_space by done.
    by rewrite scan_value_open.
  - rewrite match_vars_skip by done. apply IH.
    rewrite fmap_cons in Hin. apply elem_of_cons in Hin as [?|?]; [by destruct E|done].
Qed.

Lemma kconfig_parse_line_open n sp w vars :
  Forall is_id_char n → Forall isspace sp → Forall is_graph w → wf_vars vars →
  config_id n ∈ id <$> vars →
  kconfig_parse_line (config_id n ++ "="%char :: sp ++ w) vars = Fault.
Proof.
  intros Hn Hsp Hw [_ Hl] Hin. unfold kconfig_parse_line. cbv zeta.
  change (drop_while isspace (config_id n ++ "="%char :: sp ++ w))
    with (config_id n ++ "="%char :: sp ++ w).
  rewrite (bool_decide_false (char_at _ 0 = _)) by done. cbn [andb].
  pose proof (strstr_head (chars "CONFIG_") (n ++ "="%char :: sp ++ w)) as Hs.
  rewrite (app_assoc (chars _)) in Hs. fold (config_id n) in Hs. rewrite Hs.
  rewrite take_while_config_id by done. by apply match_vars_open.
Qed.

(** * Properties *)

(** A system whose config is readable at the path of the environment variable. *)
Definition ex_env (text : list ascii) : kenv :=
  KEnv (Some (chars "/tmp/config")) (λ _, true) (chars "5.8") (λ _, None) (λ _, Some text).

Definition ex_vla (n : nat) : list tst_kconfig_var := replicate n (KVar [] 0 "?"%char VJunk).

Definition ex_cfg : list centry :=
  [COther (chars "# Linux, CONFIG_ lines follow"); CSet (chars "MMU") (chars "y") []; CUnset (chars "NUMA");
   CSet (chars "CMDLINE") (DQUOTE :: chars "quiet") (chars " console=tty0" ++ replicate 200 "x"%char ++ [DQUOTE]);
   CSet (chars "HZ") (chars "250") []].

Definition ex_constraint : list ascii := chars "CONFIG_MMU & CONFIG_HZ=250".
Definition ex_tree : bexp := BBin 1 TST_OP_AND (BVar 0) (BVar 2).

#[local] Instance silent_dec p : Decision (silent p).
Proof. unfold silent. apply _. Defined.

#[local] Instance wf_entry_dec e : Decision (wf_entry e).
Proof. unfold wf_entry. destruct e; apply _. Defined.

Lemma ex_cfg_wf : Forall wf_entry ex_cfg.
Proof. by_decide. Qed.

Lemma ex_constraint_wf : wf_expr ex_constraint ex_tree.
Proof.
  split; [by_decide|]. split.
  { assert (tokens_of ex_constraint = [(0, TST_OP_VAR); (1, TST_OP_AND); (2, TST_OP_VAR)]) as ->
      by (by vm_compute).
    apply (GE_bin 1 TST_OP_AND [(0, TST_OP_VAR)]); [do 2 constructor|done|constructor]. }
  split; [by_decide|].
  apply (Forall_forall (λ w, text_op w = TST_OP_VAR →
                             valid_token w ∧ length (tok_name w) + 1 < ID_SIZE)).
  assert (lex ex_constraint = [chars "CONFIG_MMU"; chars "&"; chars "CONFIG_HZ=250"]) as ->
    by (by vm_compute).
  repeat (apply Forall_cons; split); [| |  |constructor]; intros Hop; [|by vm_compute in Hop|].
  - split; [|by_decide]. apply (validate_var_valid _ []); [by_decide|by_decide|by vm_compute].
  - split; [|by_decide]. apply (validate_var_valid _ []); [by_decide|by_decide|by vm_compute].
Qed.

Lemma ex_comparable : comparable ex_cfg ex_constraint.
Proof.
  intros x w Hx _.
  assert (x < 3) as Hlt by (apply lookup_lt_Some in Hx; exact Hx).
  destruct x as [|[|[|x]]]; [by vm_compute..|lia].
Qed.

Lemma ex_vla_junk : junk_vla ex_vla.
Proof. intros n. unfold ex_vla. rewrite length_replicate. split; [done|]. by apply Forall_replicate. Qed.

Lemma ex_malloc_allocates : allocates ex_malloc.
Proof. intros n. exists (replicate n ex_tok). by rewrite length_replicate. Qed.

(** validate_var() returns 0 for a token exactly when the token is CONFIG_
    followed by upper case letters, digits and underscores, alone or with an equal
    sign and a value: a quoted string that ends with the token, or any one
    character that is not a quote followed by letters and digits. *)
Theorem validate_var_accepts (w rest : list ascii) :
  cstring w → char_at rest 0 ≠ DQUOTE →
  (validate_var (w ++ rest) (length w)).1 = 0%Z ↔ valid_token w.
Proof. apply validate_var_valid. Qed.

Lemma validate_var_accepts_witness : valid_token (chars "CONFIG_HZ=250").
Proof.
  apply (validate_var_accepts (chars "CONFIG_HZ=250") (chars " &CONFIG_A"));
    [by_decide | by_decide | by vm_compute].
Defined.

(** C18: tst_kconfig_read() on a config of well-formed lines, each variable on one
    line at most, gives every entry of the array the choice and the value of its
    line and leaves the other entries as they were: the value is the text after the
    equal sign up to its first blank, so that a quoted value with blanks is cut.  It
    terminates, and stopping as soon as the counted lines reach the size of the array
    loses nothing.  A line may be longer than the buffer when the value, up to its
    first blank, fits and the pieces left say nothing about a variable. *)
Theorem tst_kconfig_read_config env cfg (vars : list tst_kconfig_var) :
  open_kconfig env = Ret (Some (config_text cfg)) →
  Forall wf_entry cfg → NoDup (config_keys cfg) → wf_vars vars →
  tst_kconfig_read env vars = Done (Ret (config_var cfg <$> vars)).
Proof. apply tst_kconfig_read_lookup. Qed.

Lemma tst_kconfig_read_config_witness :
  tst_kconfig_read (ex_env (config_text ex_cfg))
    [KVar (chars "CONFIG_HZ") 9 NUL VNull; KVar (chars "CONFIG_NUMA") 11 NUL VNull;
     KVar (chars "CONFIG_CMDLINE") 14 NUL VNull] =
  Done (Ret [KVar (chars "CONFIG_HZ") 9 "v" (VStr (chars "250"));
             KVar (chars "CONFIG_NUMA") 11 "n" VNull;
             KVar (chars "CONFIG_CMDLINE") 14 "v" (VStr (DQUOTE :: chars "quiet"))]).
Proof.
  rewrite (tst_kconfig_read_config (ex_env (config_text ex_cfg)) ex_cfg);
    [by vm_compute | by vm_compute | by_decide | by_decide |].
  split; by_decide.
Defined.

(** populate_vars() on parsed and validated expressions, with an array of the
    size get_var_cnt() returns, stores nothing outside the array, gives every
    variable token the entry with its name, and leaves no two entries with the
    same name. *)
Theorem populate_vars_table (exprs : list kexpr) (es : list bexp) vla :
  Forall2 checked exprs es → junk_vla vla →
  ∃ n exprs' vars cnt,
    get_var_cnt exprs 0 = Done n ∧
    populate_vars exprs (vla n) 0 = Done (Ret (exprs', vars, cnt)) ∧
    length vars = n ∧ cnt ≤ n ∧ NoDup (id <$> take cnt vars) ∧
    Forall2 (ready (take cnt vars)) exprs' es.
Proof.
  intros Hch Hvla. destruct (populate_vars_ok exprs es Hch) as (n & Hn & Hp).
  destruct (Hp (vla n) 0) as (exprs' & vars & cnt & Hpop & [[Hc [Hnd _] _ _] Hl Hcnt _] & _ & Hr);
    [by apply junk_table | by rewrite (proj1 (Hvla n)) |].
  exists n, exprs', vars, cnt. rewrite (proj1 (Hvla n)) in Hl. simpl in *. auto 8.
Qed.

Lemma populate_vars_table_witness :
  ∃ exprs n exprs' vars cnt,
    parse_exprs ex_malloc [ex_constraint] = Done (Ret exprs) ∧
    get_var_cnt exprs 0 = Done n ∧
    populate_vars exprs (ex_vla n) 0 = Done (Ret (exprs', vars, cnt)) ∧
    Forall2 (ready (take cnt vars)) exprs' [ex_tree].
Proof.
  destruct (parse_exprs_ok ex_malloc [ex_constraint] [ex_tree]) as (exprs & Hp & _ & Hch).
  { exact ex_malloc_allocates. } { constructor; [exact ex_constraint_wf | constructor]. }
  destruct (populate_vars_table exprs [ex_tree] ex_vla Hch ex_vla_junk)
    as (n & exprs' & vars & cnt & H1 & H2 & _ & _ & _ & H3).
  exists exprs, n, exprs', vars, cnt. auto.
Defined.

(** C17: tst_kconfig_check() returns normally exactly when the config, of well-formed
    lines, satisfies every constraint and aborts with TCONF otherwise: the constraints
    are words of the grammar with valid variables.  A plain variable is true when the
    config sets it to y or m, and not when it sets it to another value; a variable that
    is compared is true when the value, up to its first blank, is the one it is
    compared with.  No constraint compares a variable that is y, m or not set with
    something else than n, y and m, for there is no string to compare with then. *)
Theorem tst_kconfig_check_verdict env malloc vla stack cfg (ks : list (list ascii)) (es : list bexp) :
  open_kconfig env = Ret (Some (config_text cfg)) →
  Forall wf_entry cfg → NoDup (config_keys cfg) →
  allocates malloc → junk_vla vla → length stack = MAX_STACK →
  ks ≠ [] → Forall2 wf_expr ks es → Forall (comparable cfg) ks →
  tst_kconfig_check env malloc vla stack ((Some <$> ks) ++ [None]) =
  Done (if decide (Forall2 (λ s e, beval (token_value cfg s) e = 1%Z) ks es) then Ret []
        else Brk TCONF "Aborting due to unsuitable kernel config, see above!").
Proof. apply kconfig_check_verdict. Qed.

Lemma tst_kconfig_check_verdict_witness :
  tst_kconfig_check (ex_env (config_text ex_cfg)) ex_malloc ex_vla (replicate 16 7%Z)
    [Some ex_constraint; None] = Done (Ret []).
Proof.
  refine (eq_trans (tst_kconfig_check_verdict (ex_env (config_text ex_cfg)) ex_malloc ex_vla
    (replicate 16 7%Z) ex_cfg [ex_constraint] [ex_tree] _ ex_cfg_wf _ ex_malloc_allocates
    ex_vla_junk _ _ _ _) _).
  - by vm_compute.
  - by_decide.
  - done.
  - done.
  - constructor; [exact ex_constraint_wf | constructor].
  - constructor; [exact ex_comparable | constructor].
  - by vm_compute.
Defined.

(** a constraint that compares a variable with a value other than y, m and n
    makes the evaluation read the [val] pointer of an entry whose config line is y,
    m or not set; populate_vars() never sets that field, and only lines with another
    value do, so the comparison goes through an uninitialised pointer. *)
Theorem map_uninitialised_val cfg (vars : list tst_kconfig_var) (s : list ascii)
    (t : tst_expr_tok) (i : nat) (v : tst_kconfig_var) (u : list ascii) :
  tok_in s t → valid_token (tok_text s t) →
  tok_priv t = PVar i → vars !! i = Some v → choice v = NUL → val v = VJunk →
  choice (config_var cfg v) ∈ ["y"; "m"; "n"]%char →
  tok_value (tok_text s t) = Some u → u ∉ [chars "n"; chars "y"; chars "m"] →
  map (config_var cfg <$> vars) s t = Fault.
Proof.
  intros [Hin _] Hw Hp Hv Hc Hj Hch Hu Hn.
  rewrite (map_value _ _ _ i (config_var cfg v)); [|done|by rewrite list_lookup_fmap, Hv|done|].
  2: { intros w. by apply valid_token_value. }
  rewrite Hu. unfold var_value. rewrite decide_False by (intros E; rewrite E in Hch; revert Hch; by_decide).
  rewrite decide_False by done. revert Hch. unfold config_var, entry_effect.
  destruct (config_lookup cfg (id v)) as [[n x|n|x]|]; simpl; try (by rewrite Hj).
  repeat case_decide; simpl; try (by rewrite Hj). by_decide.
Qed.

Lemma map_uninitialised_val_witness :
  map (config_var ex_cfg <$> [KVar (chars "CONFIG_MMU") 10 NUL VJunk]) (chars "CONFIG_MMU=123")
    (Tok TST_OP_VAR 0 14 None (PVar 0)) = Fault.
Proof.
  apply (map_uninitialised_val ex_cfg [KVar (chars "CONFIG_MMU") 10 NUL VJunk]
    (chars "CONFIG_MMU=123") (Tok TST_OP_VAR 0 14 None (PVar 0)) 0
    (KVar (chars "CONFIG_MMU") 10 NUL VJunk) (chars "123")); try done; try by_decide.
  apply (validate_var_valid _ []); [by_decide | by_decide | by vm_compute].
Defined.

(** kconfig_parse_line() reads past the end of a line that assigns a wanted
    variable and has no white space after the value: a line cut at the size of
    the line buffer, a last line without newline, or an empty value (whose newline
    is skipped before the value is scanned). *)
Theorem kconfig_parse_line_overread (n sp w : list ascii) (vars : list tst_kconfig_var) :
  Forall is_id_char n → Forall isspace sp → Forall is_graph w → wf_vars vars →
  config_id n ∈ id <$> vars →
  kconfig_parse_line (config_id n ++ "="%char :: sp ++ w) vars = Fault.
Proof. apply kconfig_parse_line_open. Qed.

Lemma kconfig_parse_line_overread_witness :
  kconfig_parse_line (chars "CONFIG_CMDLINE=" ++ [NEWLINE]) [KVar (chars "CONFIG_CMDLINE") 14 NUL VNull]
  = Fault.
Proof.
  apply (kconfig_parse_line_overread (chars "CMDLINE") [NEWLINE] []
    [KVar (chars "CONFIG_CMDLINE") 14 NUL VNull]); [by_decide.. | | by_decide].
  split; by_decide.
Defined.
