(* ===== verification/Bitmask.v ===== *)
(** * Bit masks: testcases/kernel/controllers/cpuset/cpuset_lib/libbitmask.c

    Only _getbit() and _setbit() know the layout of a mask, so the rest of the
    file is defined over an interface with these two operations and the laws they
    obey; the array of unsigned longs is an instance.  Operations that write take a
    store of masks and pointers into it, since their arguments may be the same
    mask. *)
From stdpp Require Import base strings numbers option list gmap.
From Stdlib Require Import Ascii.
From S2P Require Import Prelude CInt CText.

#[local] Open Scope Z_scope.

(** ** The interface of the layout *)

Class BitLayout (B : Type) := {
  bm_size : B → Z;
  get_bit : B → Z → outcome Z;
  set_bit : B → Z → Z → outcome B;
  (** The well-formed masks, and the bits they hold. *)
  bm_ok : B → Prop;
  bm_bit : B → Z → bool;
  bm_size_pos : ∀ b, bm_ok b → 0 ≤ bm_size b;
  bm_get : ∀ b n, bm_ok b → 0 ≤ n → get_bit b n = Done (Z.b2z (bm_bit b n));
  bm_outside : ∀ b n, bm_ok b → bm_size b ≤ n → bm_bit b n = false;
  bm_set : ∀ b n v, bm_ok b → 0 ≤ n →
    ∃ b', set_bit b n v = Done b' ∧ bm_ok b' ∧ bm_size b' = bm_size b ∧
      ∀ k, 0 ≤ k → bm_bit b' k =
        if decide (k = n ∧ n < bm_size b) then bool_decide (v ≠ 0) else bm_bit b k;
}.

(** ** Operations over any layout *)

Section operations.
Context {B : Type} `{BitLayout B}.

(** The masks by their address. *)
Abbreviation store := (gmap nat B).

Definition get_at (h : store) (p : nat) (n : Z) : outcome Z :=
  b ← load (h !! p); get_bit b n.

Definition set_at (h : store) (p : nat) (n v : Z) : outcome store :=
  b ← load (h !! p); b' ← set_bit b n v; Done (<[p:=b']> h).

(** [for (i in ix) _setbit(p, i, f(i))], where [f] reads the current store. *)
Fixpoint for_set (ix : list Z) (p : nat) (f : store → Z → outcome Z) (h : store) : outcome store :=
  match ix with
  | [] => Done h
  | i :: ix' => v ← f h i; h ← set_at h p i v; for_set ix' p f h
  end.

(** [for (i in ix) if (test(i)) break;]: the index of the break. *)
Fixpoint find_loop (ix : list Z) (test : Z → outcome bool) : outcome (option Z) :=
  match ix with
  | [] => Done None
  | i :: ix' => t ← test i; if t : bool then Done (Some i) else find_loop ix' test
  end.

Fixpoint count_loop (ix : list Z) (test : Z → outcome bool) (w : Z) : outcome Z :=
  match ix with
  | [] => Done w
  | i :: ix' => t ← test i; count_loop ix' test (if t : bool then w + 1 else w)
  end.

Definition is_set (b : B) (i : Z) : outcome bool := x ← get_bit b i; Done (bool_decide (x ≠ 0)).

Definition loop_all (h : store) (p : nat) (f : store → Z → outcome Z) : outcome store :=
  b ← load (h !! p); for_set (seqZ 0 (bm_size b)) p f h.

Definition bitmask_copy (h : store) (p1 p2 : nat) : outcome store :=
  loop_all h p1 (λ h i, get_at h p2 i).

Definition bitmask_setall (h : store) (p : nat) : outcome store := loop_all h p (λ _ _, Done 1).
Definition bitmask_clearall (h : store) (p : nat) : outcome store := loop_all h p (λ _ _, Done 0).

Definition bitmask_nbits (b : B) : Z := bm_size b.

Definition bitmask_weight (b : B) : outcome Z := count_loop (seqZ 0 (bm_size b)) (is_set b) 0.

Definition bitmask_isbitset (b : B) (i : Z) : outcome Z := get_bit b i.
Definition bitmask_isbitclear (b : B) (i : Z) : outcome Z :=
  x ← get_bit b i; Done (if decide (x = 0) then 1 else 0).

(** The value of a loop that returns at the first hit. *)
Definition loop_result (hit miss : Z) (r : option Z) : Z :=
  match r with Some _ => hit | None => miss end.

Definition bitmask_isallset (b : B) : outcome Z :=
  r ← find_loop (seqZ 0 (bm_size b)) (λ i, x ← get_bit b i; Done (bool_decide (x = 0)));
  Done (loop_result 0 1 r).

Definition bitmask_isallclear (b : B) : outcome Z :=
  r ← find_loop (seqZ 0 (bm_size b)) (is_set b); Done (loop_result 0 1 r).

Definition bitmask_setbit (h : store) (p : nat) (i : Z) : outcome store := set_at h p i 1.
Definition bitmask_clearbit (h : store) (p : nat) (i : Z) : outcome store := set_at h p i 0.

(** The tests of a pair of bits. *)
Definition test2 (f : Z → Z → bool) (b1 b2 : B) (i : Z) : outcome bool :=
  x ← get_bit b1 i; y ← get_bit b2 i; Done (f x y).

Definition bitmask_equal (b1 b2 : B) : outcome Z :=
  r ← find_loop (seqZ 0 (Z.max (bm_size b1) (bm_size b2))) (test2 (λ x y, bool_decide (x ≠ y)) b1 b2);
  Done (loop_result 0 1 r).

Definition bitmask_subset (b1 b2 : B) : outcome Z :=
  r ← find_loop (seqZ 0 (bm_size b1)) (test2 (λ x y, bool_decide (y < x)) b1 b2);
  Done (loop_result 0 1 r).

Definition bitmask_disjoint (b1 b2 : B) : outcome Z :=
  r ← find_loop (seqZ 0 (bm_size b1)) (test2 (λ x y, bool_decide (Z.land x y ≠ 0)) b1 b2);
  Done (loop_result 0 1 r).

Definition bitmask_intersects (b1 b2 : B) : outcome Z :=
  r ← find_loop (seqZ 0 (bm_size b1)) (test2 (λ x y, bool_decide (Z.land x y ≠ 0)) b1 b2);
  Done (loop_result 1 0 r).

Definition bitmask_setrange (h : store) (p : nat) (i j : Z) : outcome store :=
  for_set (seqZ i (j - i)) p (λ _ _, Done 1) h.
Definition bitmask_clearrange (h : store) (p : nat) (i j : Z) : outcome store :=
  for_set (seqZ i (j - i)) p (λ _ _, Done 0) h.

Definition bitmask_keeprange (h : store) (p : nat) (i j : Z) : outcome store :=
  h ← bitmask_clearrange h p 0 i;
  b ← load (h !! p);
  bitmask_clearrange h p j (bm_size b).

Definition bitmask_complement (h : store) (p1 p2 : nat) : outcome store :=
  loop_all h p1 (λ h i, x ← get_at h p2 i; Done (if decide (x = 0) then 1 else 0)).

Definition bitmask_shiftright (h : store) (p1 p2 : nat) (n : Z) : outcome store :=
  loop_all h p1 (λ h i, get_at h p2 (u32 (i + n))).

(** The index is an int and runs down from [size - 1]. *)
Definition bitmask_shiftleft (h : store) (p1 p2 : nat) (n : Z) : outcome store :=
  b ← load (h !! p1);
  for_set (reverse (seqZ 0 (wrap32 (bm_size b - 1) + 1))) p1 (λ h i, get_at h p2 (u32 (i - n))) h.

Definition loop2 (f : Z → Z → Z) (h : store) (p1 p2 p3 : nat) : outcome store :=
  loop_all h p1 (λ h i, x ← get_at h p2 i; y ← get_at h p3 i; Done (f x y)).

Definition bitmask_and := loop2 Z.land.
Definition bitmask_andnot := loop2 (λ x y, Z.land x (UINT_MAX - y)).
Definition bitmask_or := loop2 Z.lor.
Definition bitmask_eor := loop2 Z.lxor.

Definition bitmask_next (b : B) (i : Z) : outcome Z :=
  r ← find_loop (seqZ i (bm_size b - i)) (is_set b);
  Done (match r with Some n => n | None => Z.max i (bm_size b) end).

Definition bitmask_first (b : B) : outcome Z := bitmask_next b 0.

(** [for (i in ix) if (_getbit(i)) if (n-- == 0) break;] *)
Fixpoint rel_loop (b : B) (ix : list Z) (n dflt : Z) : outcome Z :=
  match ix with
  | [] => Done dflt
  | i :: ix' =>
      t ← is_set b i;
      if t : bool then if decide (n = 0) then Done i else rel_loop b ix' (u32 (n - 1)) dflt
      else rel_loop b ix' n dflt
  end.

Definition bitmask_rel_to_abs_pos (b : B) (n : Z) : outcome Z :=
  rel_loop b (seqZ 0 (bm_size b)) n (bm_size b).

Definition bitmask_abs_to_rel_pos (b : B) (n : Z) : outcome Z :=
  x ← get_bit b n;
  if decide (x = 0) then Done (bm_size b) else count_loop (seqZ 0 n) (is_set b) 0.

Fixpoint last_loop (b : B) (ix : list Z) (m : Z) : outcome Z :=
  match ix with
  | [] => Done m
  | i :: ix' => t ← is_set b i; last_loop b ix' (if t : bool then i else m)
  end.

Definition bitmask_last (b : B) : outcome Z := last_loop b (seqZ 0 (bm_size b)) (bm_size b).

(** ** Text *)

Definition HEXCHUNKSZ : Z := 32.
Definition HEXCHARSZ : nat := 8.
Definition howmany (x y : Z) : Z := u32 (x + (y - 1)) / y.

(** snprintf(buf + cnt, MAX(buflen - cnt, 0), ...) and the update of [cnt]; the
    state is the string in the buffer and the count. *)
Definition snprintf_at (buflen : Z) (st : list ascii * Z) (text : list ascii) : list ascii * Z :=
  let '(buf, cnt) := st in
  (if decide (cnt < buflen)
   then take (Z.to_nat cnt) buf ++ take (Z.to_nat (buflen - cnt - 1)) text else buf,
   cnt + Z.of_nat (length text)).

(** The inner loop: the bits of a chunk, from the highest. *)
Fixpoint hex_val (b : B) (chunk : Z) (bits : list Z) (val : Z) : outcome Z :=
  match bits with
  | [] => Done val
  | bit :: bits' =>
      x ← get_bit b (u32 (chunk * HEXCHUNKSZ + bit));
      hex_val b chunk bits' (Z.lor (u32 (Z.shiftl val 1)) x)
  end.

Fixpoint hex_chunks (b : B) (buflen : Z) (chunks : list Z) (sep : list ascii)
    (st : list ascii * Z) : outcome (list ascii * Z) :=
  match chunks with
  | [] => Done st
  | chunk :: chunks' =>
      val ← hex_val b chunk (reverse (seqZ 0 HEXCHUNKSZ)) 0;
      hex_chunks b buflen chunks' (chars ",")
        (snprintf_at buflen st (sep ++ fixed_digits 16 HEXCHARSZ val))
  end.

(** The string left in the buffer of [buflen] bytes and the value returned. *)
Definition bitmask_displayhex (buflen : Z) (b : B) : outcome (list ascii * Z) :=
  if decide (buflen < 1) then Done ([], 0)
  else hex_chunks b buflen (reverse (seqZ 0 (howmany (bm_size b) HEXCHUNKSZ))) [] ([], 0).

Definition emit (buflen rbot rtop : Z) (st : list ascii * Z) : list ascii * Z :=
  let st := if decide (0 < st.2) then snprintf_at buflen st (chars ",") else st in
  if decide (rbot = rtop) then snprintf_at buflen st (print_d rbot)
  else snprintf_at buflen st (print_d rbot ++ "-"%char :: print_d rtop).

Fixpoint displaylist_loop (fuel : nat) (b : B) (buflen cur rbot : Z) (st : list ascii * Z)
    : outcome (list ascii * Z) :=
  if decide (cur < bm_size b) then
    match fuel with
    | O => Timeout
    | S fuel' =>
        let rtop := cur in
        cur ← bitmask_next b (u32 (cur + 1));
        if decide (bm_size b ≤ cur ∨ u32 (rtop + 1) < cur)
        then displaylist_loop fuel' b buflen cur cur (emit buflen (wrap32 rbot) (wrap32 rtop) st)
        else displaylist_loop fuel' b buflen cur rbot st
    end
  else Done st.

Definition bitmask_displaylist (buflen : Z) (b : B) : outcome (list ascii * Z) :=
  cur ← bitmask_first b;
  displaylist_loop (Z.to_nat (bm_size b)) b buflen cur cur ([], 0).

(** A pointer into the input is the rest of the string from there on. *)
Definition nexttoken (q : option (list ascii)) (sep : ascii) : option (list ascii) :=
  match q with
  | None => None
  | Some s => match index_of sep s with Some k => Some (drop (S k) s) | None => None end
  end.

(** strtoul(p, &endptr, 16): the value as a uint32_t and the rest at endptr. *)
Definition strtoul16 (p : list ascii) : Z * list ascii :=
  let '(neg, s) := skip_sign (drop_while isspace p) in
  let s' := match s with
            | c :: d :: e :: t =>
                if bool_decide (c = "0"%char) && bool_decide (d = "x"%char ∨ d = "X"%char) &&
                   bool_decide (is_Some (parse_digit e)) &&
                   bool_decide (default 16 (parse_digit e) < 16)
                then e :: t else s
            | _ => s
            end in
  let '(v, n, rest) := scan_digits 16 0 0 s' in
  if decide (n = 0%nat) then (0, p) else (u32 (strtoul_value neg v), rest).

Fixpoint count_chunks (fuel : nat) (q : option (list ascii)) (nchunks : Z) : outcome Z :=
  match q with
  | None => Done nchunks
  | Some _ =>
      match fuel with
      | O => Timeout
      | S fuel' => count_chunks fuel' (nexttoken q ",") (nchunks + 1)
      end
  end.

(** The bits of a chunk; [false] is the jump to the error exit. *)
Fixpoint set_chunk (h : store) (p : nat) (size chunk val : Z) (bits : list Z) : outcome (bool * store) :=
  match bits with
  | [] => Done (true, h)
  | bit :: bits' =>
      let n := u32 (chunk * HEXCHUNKSZ + bit) in
      if decide (size ≤ n) then Done (false, h)
      else h ← set_at h p n (Z.land (Z.shiftr val bit) 1); set_chunk h p size chunk val bits'
  end.

Fixpoint parsehex_loop (fuel : nat) (h : store) (p : nat) (size : Z) (q : option (list ascii))
    (chunk : Z) : outcome (bool * store) :=
  match q with
  | None => Done (true, h)
  | Some s =>
      match fuel with
      | O => Timeout
      | S fuel' =>
          let q' := nexttoken q "," in
          let '(val, endptr) := strtoul16 s in
          let nchars_read := (length s - length endptr)%nat in
          if decide (nchars_read < 1 ∨ HEXCHARSZ < nchars_read)%nat then Done (false, h)
          else if decide (is_Some q' ∧ length endptr - length (default [] q') ≠ 1)%nat then Done (false, h)
          else
            '(ok, h) ← set_chunk h p size chunk val (reverse (seqZ 0 HEXCHUNKSZ));
            if ok : bool then parsehex_loop fuel' h p size q' (chunk - 1) else Done (false, h)
      end
  end.

(** The mask is cleared on the error exit. *)
Definition finish (p : nat) (r : bool * store) : outcome (Z * store) :=
  if r.1 then Done (0, r.2) else h ← bitmask_clearall r.2 p; Done (-1, h).

Definition bitmask_parsehex (h : store) (buf : list ascii) (p : nat) : outcome (Z * store) :=
  h ← bitmask_clearall h p;
  b ← load (h !! p);
  let size := u32 ((bm_size b + 63) / 64 * 8 * 8) in
  nchunks ← count_chunks (S (length buf)) (Some buf) 0;
  r ← parsehex_loop (S (length buf)) h p size (Some buf) (nchunks - 1);
  finish p r.

(** sscanf(s, "%u%c", ...): how many conversions matched, the number, and the
    character after it. *)
Definition sscanf_uc (s : list ascii) : Z * Z * ascii :=
  match scan_u s with
  | None => (if decide (drop_while isspace s = []) then -1 else 0, 0, NUL)
  | Some (v, []) => (1, v, NUL)
  | Some (v, c :: _) => (2, v, c)
  end.

Definition scan_was_ok (sret : Z) (nextc : ascii) (ok_next_chars : list ascii) : bool :=
  bool_decide (sret = 1) || (bool_decide (sret = 2) && bool_decide (nextc ∈ ok_next_chars)).

(** A number followed by one of the allowed characters, or the error exit. *)
Definition scan_term (s : list ascii) (ok_next_chars : list ascii) : option Z :=
  let '(sret, v, nextc) := sscanf_uc s in
  if scan_was_ok sret nextc ok_next_chars then Some v else None.

(** [c1 != NULL && (c2 == NULL || c1 < c2)] for pointers into the same string. *)
Definition before (c1 c2 : option (list ascii)) : option (list ascii) :=
  match c1, c2 with
  | Some s1, Some s2 => if decide (length s2 < length s1)%nat then Some s1 else None
  | c1, _ => c1
  end.

(** The terms of one element: begin, end and stride. *)
Definition parse_elem (p : list ascii) : option (Z * Z * Z) :=
  a ← scan_term p (chars ",-");
  let c1 := nexttoken (Some p) "-" in
  let c2 := nexttoken (Some p) "," in
  match before c1 c2 with
  | None => Some (a, a, 1)
  | Some s1 =>
      b ← scan_term s1 (chars ",:");
      match before (nexttoken (Some s1) ":") c2 with
      | None => Some (a, b, 1)
      | Some s2 => s ← scan_term s2 (chars ","); Some (a, b, s)
      end
  end.

(** [while (a <= b) { _setbit(bmp, a, 1); a += s; }] *)
Fixpoint stride_loop (fuel : nat) (h : store) (p : nat) (a b s : Z) : outcome store :=
  if decide (a ≤ b) then
    match fuel with
    | O => Timeout
    | S fuel' => h ← set_at h p a 1; stride_loop fuel' h p (u32 (a + s)) b s
    end
  else Done h.

Fixpoint parselist_loop (fuel steps : nat) (h : store) (p : nat) (q : option (list ascii))
    : outcome (bool * store) :=
  match q with
  | None => Done (true, h)
  | Some str =>
      match fuel with
      | O => Timeout
      | S fuel' =>
          let q' := nexttoken q "," in
          match parse_elem str with
          | None => Done (false, h)
          | Some (a, b, s) =>
              bm ← load (h !! p);
              if decide (¬ a ≤ b) then Done (false, h)
              else if decide (bm_size bm ≤ b) then Done (false, h)
              else h ← stride_loop steps h p a b s; parselist_loop fuel' steps h p q'
          end
      end
  end.

(** [steps] bounds the rounds of each inner loop. *)
Definition bitmask_parselist (steps : nat) (h : store) (buf : list ascii) (p : nat)
    : outcome (Z * store) :=
  h ← bitmask_clearall h p;
  r ← parselist_loop (S (length buf)) steps h p (Some buf);
  finish p r.
End operations.

(** ** The layout: an array of unsigned longs *)

Definition bitsperlong : Z := 64.
Definition longsperbits (n : Z) : Z := (n + (bitsperlong - 1)) / bitsperlong.

Record bitmask := Bitmask { size : Z; maskp : list Z }.

#[export] Instance bitmask_eq_dec : EqDecision bitmask.
Proof. solve_decision. Defined.

Definition _getbit (bmp : bitmask) (n : Z) : outcome Z :=
  if decide (n < size bmp) then
    w ← load (maskp bmp !! Z.to_nat (n / bitsperlong));
    Done (Z.land (Z.shiftr w (n mod bitsperlong)) 1)
  else Done 0.

Definition _setbit (bmp : bitmask) (n v : Z) : outcome bitmask :=
  if decide (n < size bmp) then
    let k := Z.to_nat (n / bitsperlong) in
    w ← load (maskp bmp !! k);
    let bit := Z.shiftl 1 (n mod bitsperlong) in
    let w' := if decide (v ≠ 0) then Z.lor w bit else Z.land w (18446744073709551615 - bit) in
    Done (Bitmask (size bmp) (<[k := w']> (maskp bmp)))
  else Done bmp.

(** The two allocations succeed or not. *)
Definition bitmask_alloc (malloc calloc : bool) (n : Z) : option bitmask :=
  if malloc then
    if calloc then Some (Bitmask n (replicate (Z.to_nat (longsperbits n)) 0)) else None
  else None.

Definition bitmask_free (h : gmap nat bitmask) (p : option nat) : gmap nat bitmask :=
  match p with None => h | Some p => delete p h end.

Definition bitmask_nbytes (bmp : bitmask) : Z := u32 (longsperbits (size bmp) * 8).
Definition bitmask_mask (bmp : bitmask) : list Z := maskp bmp.

(** * The array implements the interface *)

Lemma land_1 x : Z.land x 1 = Z.b2z (Z.testbit x 0).
Proof.
  change 1 with (Z.ones 1). rewrite Z.land_ones by lia. change (2 ^ 1) with 2.
  by rewrite Z.bit0_odd, Zmod_odd.
Qed.

Definition word (w : Z) : Prop := 0 ≤ w < 2 ^ 64.

Record bitmask_wf (bmp : bitmask) : Prop := {
  wf_size : is_u32 (size bmp);
  wf_length : length (maskp bmp) = Z.to_nat (longsperbits (size bmp));
  wf_words : Forall word (maskp bmp);
}.

Definition bitmask_bit (bmp : bitmask) (n : Z) : bool :=
  if decide (n < size bmp)
  then Z.testbit (default 0 (maskp bmp !! Z.to_nat (n / bitsperlong))) (n mod bitsperlong)
  else false.

Lemma longs_index s n : 0 ≤ n < s → (Z.to_nat (n / bitsperlong) < Z.to_nat (longsperbits s))%nat.
Proof.
  intros Hn. unfold longsperbits, bitsperlong.
  assert (0 ≤ n / 64) by (apply Z.div_pos; lia).
  assert (n / 64 < (s + (64 - 1)) / 64).
  { apply Z.lt_le_trans with ((n + 64) / 64); [|apply Z.div_le_mono; lia].
    replace (n + 64) with (n + 1 * 64) by lia. rewrite Z.div_add; lia. }
  lia.
Qed.

Lemma wf_lookup bmp n :
  bitmask_wf bmp → 0 ≤ n < size bmp →
  ∃ w, maskp bmp !! Z.to_nat (n / bitsperlong) = Some w ∧ word w.
Proof.
  intros [_ Hl Hw] Hn.
  destruct (lookup_lt_is_Some_2 (maskp bmp) (Z.to_nat (n / bitsperlong))) as [w Hlk].
  { rewrite Hl. by apply longs_index. }
  exists w. split; [done|]. by eapply Forall_lookup_1 in Hlk.
Qed.

Lemma getbit_bit bmp n :
  bitmask_wf bmp → 0 ≤ n → _getbit bmp n = Done (Z.b2z (bitmask_bit bmp n)).
Proof.
  intros Hwf Hn. unfold _getbit, bitmask_bit. case_decide as Hs; [|done].
  destruct (wf_lookup bmp n) as (w & -> & _); [done..|]. simpl. f_equal.
  pose proof (Z.mod_pos_bound n bitsperlong).
  rewrite land_1, Z.shiftr_spec by lia. by rewrite Z.add_0_l.
Qed.

(** A bit of a word, set or cleared. *)
Definition set_word (w k v : Z) : Z :=
  if decide (v ≠ 0) then Z.lor w (Z.shiftl 1 k)
  else Z.land w (18446744073709551615 - Z.shiftl 1 k).

Lemma testbit_one k j : 0 ≤ k → 0 ≤ j → Z.testbit (Z.shiftl 1 k) j = bool_decide (j = k).
Proof.
  intros. rewrite Z.shiftl_1_l, Z.pow2_bits_eqb by lia.
  destruct (Z.eqb_spec k j); case_bool_decide; try done; lia.
Qed.

Lemma mask_complement k : 0 ≤ k < 64 →
  18446744073709551615 - Z.shiftl 1 k = Z.ldiff (Z.ones 64) (Z.shiftl 1 k).
Proof.
  intros Hk. change 18446744073709551615 with (Z.ones 64). apply Z.sub_nocarry_ldiff.
  apply Z.bits_inj_0. intros j. destruct (decide (j < 0)); [by rewrite Z.testbit_neg_r|].
  rewrite Z.ldiff_spec, testbit_one by lia. case_bool_decide; [|done]. subst.
  rewrite Z.ones_spec_low by lia. done.
Qed.

Lemma set_word_bit w k v j :
  word w → 0 ≤ k < 64 → 0 ≤ j < 64 →
  Z.testbit (set_word w k v) j = if decide (j = k) then bool_decide (v ≠ 0) else Z.testbit w j.
Proof.
  intros Hw Hk Hj. unfold set_word. destruct (decide (v ≠ 0)) as [Hv|Hv].
  - rewrite Z.lor_spec, testbit_one by lia. case_decide; case_bool_decide; try done.
    + rewrite orb_true_r. by rewrite bool_decide_true.
    + by rewrite orb_false_r.
  - rewrite mask_complement by lia.
    rewrite Z.land_spec, Z.ldiff_spec, Z.ones_spec_low, testbit_one by lia.
    case_decide; case_bool_decide; try done.
    + rewrite andb_false_r. by rewrite bool_decide_false.
    + by rewrite andb_true_r.
Qed.

Lemma word_bits w : 0 ≤ w → (∀ j, 64 ≤ j → Z.testbit w j = false) → word w.
Proof.
  intros Hw Hj. split; [done|]. destruct (decide (w = 0)) as [->|Hne]; [done|].
  apply Z.log2_lt_pow2; [lia|]. destruct (decide (Z.log2 w < 64)); [done|].
  pose proof (Hj (Z.log2 w) ltac:(lia)) as Hb. by rewrite Z.bit_log2 in Hb by lia.
Qed.

Lemma word_high w j : word w → 64 ≤ j → Z.testbit w j = false.
Proof.
  intros [H0 Hw] Hj. destruct (decide (w = 0)) as [->|Hne]; [by rewrite Z.bits_0|].
  apply Z.bits_above_log2; [done|]. assert (Z.log2 w < 64) by (apply Z.log2_lt_pow2; lia). lia.
Qed.

Lemma set_word_word w k v : word w → 0 ≤ k < 64 → word (set_word w k v).
Proof.
  intros Hw Hk. pose proof Hw as [H0 _]. unfold set_word. case_decide.
  - apply word_bits.
    + apply Z.lor_nonneg. split; [done|]. rewrite Z.shiftl_nonneg. lia.
    + intros j Hj. rewrite Z.lor_spec, testbit_one, word_high by (done || lia).
      by rewrite bool_decide_false by lia.
  - apply word_bits.
    + apply Z.land_nonneg. by left.
    + intros j Hj. by rewrite Z.land_spec, word_high.
Qed.

Lemma setbit_bit bmp n v :
  bitmask_wf bmp → 0 ≤ n →
  ∃ b', _setbit bmp n v = Done b' ∧ bitmask_wf b' ∧ size b' = size bmp ∧
    ∀ k, 0 ≤ k → bitmask_bit b' k =
      if decide (k = n ∧ n < size bmp) then bool_decide (v ≠ 0) else bitmask_bit bmp k.
Proof.
  intros Hwf Hn. unfold _setbit. case_decide as Hs.
  2: { exists bmp. split_and!; [done..|]. intros k Hk. by rewrite decide_False by naive_solver. }
  destruct (wf_lookup bmp n) as (w & Hw & Hword); [done..|]. rewrite Hw. simpl.
  fold (set_word w (n mod bitsperlong) v).
  pose proof (Z.mod_pos_bound n bitsperlong ltac:(done)) as Hm.
  eexists. split; [done|]. split; [|split; [done|]].
  - destruct Hwf as [H1 H2 H3]. split; simpl; [done|by rewrite length_insert|].
    apply Forall_insert; [done|]. by apply set_word_word.
  - intros k Hk. unfold bitmask_bit. simpl. case_decide as Hks.
    2: { by rewrite decide_False by lia. }
    pose proof (Z.mod_pos_bound k bitsperlong ltac:(done)) as Hmk.
    destruct (decide (Z.to_nat (k / bitsperlong) = Z.to_nat (n / bitsperlong))) as [E|E].
    + rewrite E, list_lookup_insert_eq, Hw by (by eapply lookup_lt_Some). simpl.
      rewrite set_word_bit by done.
      assert (k mod bitsperlong = n mod bitsperlong ↔ k = n ∧ n < size bmp) as Hiff.
      { assert (0 ≤ k / bitsperlong) by (apply Z.div_pos; done).
        assert (0 ≤ n / bitsperlong) by (apply Z.div_pos; done).
        split; [|by intros [-> _]]. intros Hmod. split; [|done].
        pose proof (Z.div_mod k bitsperlong ltac:(done)).
        pose proof (Z.div_mod n bitsperlong ltac:(done)). unfold bitsperlong in *. lia. }
      destruct (decide (k mod _ = _)); destruct (decide (k = n ∧ _)); tauto.
    + rewrite list_lookup_insert_ne by done. rewrite decide_False; [done|]. by intros [-> _].
Qed.

#[export] Instance bitmask_layout : BitLayout bitmask.
Proof.
  refine {| bm_size := size; get_bit := _getbit; set_bit := _setbit;
            bm_ok := bitmask_wf; bm_bit := bitmask_bit |}.
  - intros b Hb. apply Hb.
  - intros. by apply getbit_bit.
  - intros b n Hb Hn. unfold bitmask_bit. by rewrite decide_False by lia.
  - intros. by apply setbit_bit.
Defined.

Lemma bitmask_alloc_wf n b :
  is_u32 n → bitmask_alloc true true n = Some b → bitmask_wf b ∧ size b = n ∧ ∀ k, bitmask_bit b k = false.
Proof.
  intros Hn [= <-]. split; [|split; [done|]].
  - split; simpl; [done|by rewrite length_replicate|]. by apply Forall_replicate.
  - intros k. unfold bitmask_bit. case_decide; [|done]. simpl.
    destruct (decide (Z.to_nat (k / bitsperlong) < Z.to_nat (longsperbits n))%nat).
    + rewrite lookup_replicate_2 by done. apply Z.bits_0.
    + rewrite lookup_ge_None_2 by (rewrite length_replicate; lia). apply Z.bits_0.
Qed.
