(* ===== verification/BitmaskSpec.v ===== *)
(** * Bit masks as sets of bits

    What the operations of [Bitmask] do to the bits of their masks, proved from
    the laws of the layout interface alone: the Boolean operations and shifts also
    when arguments are the same mask, the queries, the positions, and the round
    trips through the two text formats. *)
From stdpp Require Import base strings numbers option list gmap.
From Stdlib Require Import Ascii.
From S2P Require Import Prelude CInt CText Bitmask.

#[local] Open Scope Z_scope.

(** ** Index sequences *)

Lemma seqZ_split m n pre i post :
  seqZ m n = pre ++ i :: post → ∀ j, j ∈ pre → j < i.
Proof.
  intros E j [a Ha]%list_elem_of_lookup.
  assert (seqZ m n !! a = Some j) as H1.
  { rewrite E. apply lookup_app_l_Some. done. }
  assert (seqZ m n !! length pre = Some i) as H2 by (rewrite E; by apply list_lookup_middle).
  apply lookup_seqZ in H1 as [-> _], H2 as [-> _]. apply lookup_lt_Some in Ha. lia.
Qed.

Lemma seqZ_reverse_split m n pre i post :
  reverse (seqZ m n) = pre ++ i :: post → ∀ j, j ∈ pre → i < j.
Proof.
  intros E j Hj. apply (f_equal reverse) in E.
  rewrite reverse_involutive, reverse_app, reverse_cons, <-app_assoc in E. simpl in E.
  apply elem_of_reverse, list_elem_of_lookup in Hj as [a Ha].
  assert (seqZ m n !! (length (reverse post) + S a)%nat = Some j) as H1.
  { rewrite E, lookup_app_r by lia.
    by replace (length (reverse post) + S a - length (reverse post))%nat with (S a) by lia. }
  assert (seqZ m n !! length (reverse post) = Some i) as H2 by (rewrite E; by apply list_lookup_middle).
  apply lookup_seqZ in H1 as [-> _], H2 as [-> _]. lia.
Qed.

Section spec.
Context {B : Type} `{BitLayout B}.
Abbreviation store := (gmap nat B).

(** [h'] differs from [h] in the bits [ix] of the mask at [p], which are [g]. *)
Definition upd (h : store) (p : nat) (b0 : B) (ix : list Z) (g : Z → bool) (h' : store) : Prop :=
  ∃ b', h' = <[p:=b']> h ∧ bm_ok b' ∧ bm_size b' = bm_size b0 ∧
    ∀ k, 0 ≤ k → bm_bit b' k = if decide (k ∈ ix ∧ k < bm_size b0) then g k else bm_bit b0 k.

Lemma upd_nil h p b0 g : h !! p = Some b0 → bm_ok b0 → upd h p b0 [] g h.
Proof.
  intros Hp Hok. exists b0. split_and!; [by rewrite insert_id|done..|]. intros k Hk.
  rewrite decide_False; [done|]. by intros [?%elem_of_nil _].
Qed.

Lemma upd_snoc h p b0 ix g h' i v :
  upd h p b0 ix g h' → 0 ≤ i → bool_decide (v ≠ 0) = g i →
  ∃ h'', set_at h' p i v = Done h'' ∧ upd h p b0 (ix ++ [i]) g h''.
Proof.
  intros (b' & -> & Hok & Hs & Hb) Hi Hv. unfold set_at. rewrite lookup_insert_eq. simpl.
  destruct (bm_set b' i v Hok Hi) as (b2 & -> & Hok2 & Hs2 & Hb2). simpl.
  eexists. split; [done|]. exists b2. rewrite insert_insert_eq. split; [done|]. split; [done|].
  split; [congruence|]. intros k Hk. rewrite Hb2, Hb, Hs by done.
  destruct (decide (k = i)) as [->|Hne].
  - destruct (decide (i < bm_size b0)).
    + rewrite !decide_True; [done|split; [apply elem_of_app; right; by left|done]|done].
    + rewrite !(decide_False (P := _ ∧ _)); naive_solver.
  - rewrite (decide_False (P := k = i ∧ _)) by naive_solver.
    apply decide_ext. rewrite elem_of_app, list_elem_of_singleton. naive_solver.
Qed.

(** A loop that writes every index of a list once. *)
Lemma for_set_upd ix p f h b0 g :
  h !! p = Some b0 → bm_ok b0 → Forall (λ i, 0 ≤ i) ix →
  (∀ pre i post h', ix = pre ++ i :: post → upd h p b0 pre g h' →
     ∃ v, f h' i = Done v ∧ bool_decide (v ≠ 0) = g i) →
  ∃ h', for_set ix p f h = Done h' ∧ upd h p b0 ix g h'.
Proof.
  intros Hp Hok Hpos Hf.
  assert (∀ post pre h1, ix = pre ++ post → upd h p b0 pre g h1 →
            ∃ h', for_set post p f h1 = Done h' ∧ upd h p b0 ix g h') as Hgen.
  { induction post as [|i post IH]; intros pre h1 E Hu.
    - rewrite app_nil_r in E. subst pre. by exists h1.
    - destruct (Hf pre i post h1 E Hu) as (v & Hv & Hg). simpl. rewrite Hv. simpl.
      rewrite E in Hpos. apply Forall_app in Hpos as [_ [Hi _]%Forall_cons].
      destruct (upd_snoc h p b0 pre g h1 i v) as (h2 & -> & Hu2); [done..|].
      simpl. apply (IH (pre ++ [i])); [|done]. by rewrite <-app_assoc. }
  apply (Hgen ix []); [done|]. by apply upd_nil.
Qed.

(** Reading a bit that is not written yet, of the same or of another mask. *)
Lemma get_at_upd h p b0 pre g h' p2 b2 j :
  h !! p = Some b0 → upd h p b0 pre g h' → h !! p2 = Some b2 → bm_ok b2 → 0 ≤ j →
  (p2 = p → j ∉ pre) → get_at h' p2 j = Done (Z.b2z (bm_bit b2 j)).
Proof.
  intros Hp (b' & -> & Hok & Hs & Hb) H2 Hok2 Hj Hn. unfold get_at.
  destruct (decide (p2 = p)) as [->|Hne].
  - rewrite lookup_insert_eq. simpl. rewrite bm_get by done. simplify_eq.
    rewrite Hb, decide_False by (done || naive_solver). done.
  - rewrite lookup_insert_ne, H2 by done. simpl. by apply bm_get.
Qed.

Lemma b2z_neq x : bool_decide (Z.b2z x ≠ 0) = x.
Proof. by destruct x. Qed.

(** Every mask of the store is well-formed. *)
Definition store_ok (h : store) : Prop := ∀ p b, h !! p = Some b → bm_ok b.

Definition bit_at (h : store) (p : nat) (k : Z) : bool :=
  match h !! p with Some b => bm_bit b k | None => false end.

(** The effect of an operation on the mask at [p]: its bits below the size are
    [g], and nothing else changes. *)
Definition sets (h : store) (p : nat) (g : Z → bool) (r : outcome store) : Prop :=
  ∃ h', r = Done h' ∧ store_ok h' ∧
    (∀ q, bm_size <$> h' !! q = bm_size <$> h !! q) ∧
    (∀ q, q ≠ p → h' !! q = h !! q) ∧
    ∀ b k, h !! p = Some b → 0 ≤ k < bm_size b → bit_at h' p k = g k.

Lemma upd_sets h p b0 ix g h' :
  store_ok h → h !! p = Some b0 → upd h p b0 ix g h' →
  sets h p (λ k, if decide (k ∈ ix) then g k else bm_bit b0 k) (Done h').
Proof.
  intros Hok Hp (b' & -> & Hok' & Hs & Hb). eexists. split; [done|]. split_and!.
  - intros q b. destruct (decide (q = p)) as [->|Hne].
    + rewrite lookup_insert_eq. by intros [= <-].
    + rewrite lookup_insert_ne by done. apply Hok.
  - intros q. destruct (decide (q = p)) as [->|Hne].
    + rewrite lookup_insert_eq, Hp. simpl. by rewrite Hs.
    + by rewrite lookup_insert_ne.
  - intros q Hq. by rewrite lookup_insert_ne.
  - intros b k Hb' Hk. simplify_eq. unfold bit_at. rewrite lookup_insert_eq, Hb by lia.
    apply decide_ext. naive_solver lia.
Qed.

Lemma sets_ext h p g g' r :
  (∀ b k, h !! p = Some b → 0 ≤ k < bm_size b → g k = g' k) → sets h p g r → sets h p g' r.
Proof.
  intros Hg (h' & -> & H1 & H2 & H3 & H4). exists h'. split_and!; try done.
  intros b k Hb Hk. by rewrite (H4 b), (Hg b).
Qed.

(** ** Loops over the whole mask *)

Lemma seqZ_nonneg m n : 0 ≤ m → Forall (λ i, 0 ≤ i) (seqZ m n).
Proof. intros Hm. apply Forall_forall. intros i Hi%elem_of_seqZ. lia. Qed.

Lemma for_set_sets ix p f h b0 g :
  store_ok h → h !! p = Some b0 → Forall (λ i, 0 ≤ i) ix →
  (∀ pre i post h', ix = pre ++ i :: post → upd h p b0 pre g h' →
     ∃ v, f h' i = Done v ∧ bool_decide (v ≠ 0) = g i) →
  sets h p (λ k, if decide (k ∈ ix) then g k else bm_bit b0 k) (for_set ix p f h).
Proof.
  intros Hok Hp Hpos Hf.
  destruct (for_set_upd ix p f h b0 g) as (h' & -> & Hu); eauto. by apply upd_sets.
Qed.

Lemma loop_all_sets h p f b0 g :
  store_ok h → h !! p = Some b0 →
  (∀ pre i post h', seqZ 0 (bm_size b0) = pre ++ i :: post → 0 ≤ i < bm_size b0 →
     (∀ j, j ∈ pre → j < i) → upd h p b0 pre g h' →
     ∃ v, f h' i = Done v ∧ bool_decide (v ≠ 0) = g i) →
  sets h p g (loop_all h p f).
Proof.
  intros Hok Hp Hf. unfold loop_all. rewrite Hp. cbn [load mbind outcome_bind].
  eapply sets_ext; [|apply (for_set_sets _ _ _ _ b0 g); try done].
  - intros b k Hb Hk. simplify_eq. rewrite decide_True; [done|]. apply elem_of_seqZ. lia.
  - by apply seqZ_nonneg.
  - intros pre i post h' E Hu. apply (Hf pre i post h'); try done.
    + assert (i ∈ seqZ 0 (bm_size b0)) as Hi%elem_of_seqZ by (rewrite E; apply elem_of_app; right; by left).
      lia.
    + by eapply seqZ_split.
Qed.

(** Reading at or above the index that is being written. *)
Lemma get_ahead h p b0 pre g h' p2 b2 i j :
  store_ok h → h !! p = Some b0 → upd h p b0 pre g h' → h !! p2 = Some b2 →
  (∀ j, j ∈ pre → j < i) → 0 ≤ i ≤ j → get_at h' p2 j = Done (Z.b2z (bit_at h p2 j)).
Proof.
  intros Hok Hp Hu H2 Hpre Hij. unfold bit_at. rewrite H2.
  apply (get_at_upd h p b0 pre g h' p2 b2 j Hp Hu H2 (Hok _ _ H2)); [lia|]. intros _ Hj%Hpre. lia.
Qed.

Lemma loop2_sets (f : Z → Z → Z) (fb : bool → bool → bool) h p1 p2 p3 b1 b2 b3 :
  (∀ x y, bool_decide (f (Z.b2z x) (Z.b2z y) ≠ 0) = fb x y) →
  store_ok h → h !! p1 = Some b1 → h !! p2 = Some b2 → h !! p3 = Some b3 →
  sets h p1 (λ k, fb (bit_at h p2 k) (bit_at h p3 k)) (loop2 f h p1 p2 p3).
Proof.
  intros Hf Hok H1 H2 H3. eapply loop_all_sets; eauto. intros pre i post h' _ Hi Hpre Hu.
  rewrite (get_ahead h p1 b1 pre _ h' p2 b2 i i), (get_ahead h p1 b1 pre _ h' p3 b3 i i) by (done || lia).
  simpl. eexists. split; [done|]. apply Hf.
Qed.

Lemma copy_sets h p1 p2 b1 b2 :
  store_ok h → h !! p1 = Some b1 → h !! p2 = Some b2 →
  sets h p1 (bit_at h p2) (bitmask_copy h p1 p2).
Proof.
  intros Hok H1 H2. eapply loop_all_sets; eauto. intros pre i post h' _ Hi Hpre Hu.
  rewrite (get_ahead h p1 b1 pre _ h' p2 b2 i i) by (done || lia).
  eexists. split; [done|]. apply b2z_neq.
Qed.

Lemma complement_sets h p1 p2 b1 b2 :
  store_ok h → h !! p1 = Some b1 → h !! p2 = Some b2 →
  sets h p1 (λ k, negb (bit_at h p2 k)) (bitmask_complement h p1 p2).
Proof.
  intros Hok H1 H2. eapply loop_all_sets; eauto. intros pre i post h' _ Hi Hpre Hu.
  rewrite (get_ahead h p1 b1 pre _ h' p2 b2 i i) by (done || lia). simpl.
  eexists. split; [done|]. by destruct (bit_at h p2 i).
Qed.

Lemma const_sets v h p b :
  store_ok h → h !! p = Some b →
  sets h p (λ _, bool_decide (v ≠ 0)) (loop_all h p (λ _ _, Done v)).
Proof. intros Hok Hp. eapply loop_all_sets; eauto. Qed.

Lemma shiftright_sets h p1 p2 b1 b2 n :
  store_ok h → h !! p1 = Some b1 → h !! p2 = Some b2 → 0 ≤ n → bm_size b1 + n ≤ UINT_MAX →
  sets h p1 (λ k, bit_at h p2 (k + n)) (bitmask_shiftright h p1 p2 n).
Proof.
  intros Hok H1 H2 Hn Hmax. eapply loop_all_sets; eauto. intros pre i post h' _ Hi Hpre Hu.
  rewrite u32_small by lia. rewrite (get_ahead h p1 b1 pre _ h' p2 b2 i (i + n)) by (done || lia).
  eexists. split; [done|]. apply b2z_neq.
Qed.

Lemma shiftleft_sets h p1 p2 b1 b2 n :
  store_ok h → h !! p1 = Some b1 → h !! p2 = Some b2 →
  bm_size b1 ≤ INT_MAX → 0 ≤ n → n + bm_size b2 ≤ 4294967296 →
  sets h p1 (λ k, if decide (n ≤ k) then bit_at h p2 (k - n) else false) (bitmask_shiftleft h p1 p2 n).
Proof.
  intros Hok H1 H2 Hs Hn Hmax. unfold bitmask_shiftleft. rewrite H1. cbn [load mbind outcome_bind].
  pose proof (bm_size_pos b1 (Hok _ _ H1)) as Hpos. pose proof (bm_size_pos b2 (Hok _ _ H2)) as Hpos2.
  rewrite wrap32_small by clia. rewrite Z.sub_add.
  eapply sets_ext; [|apply (for_set_sets _ _ _ _ b1
    (λ k, if decide (n ≤ k) then bit_at h p2 (k - n) else false)); try done].
  - intros b k Hb Hk. simplify_eq. rewrite decide_True; [done|].
    apply elem_of_reverse, elem_of_seqZ. lia.
  - apply Forall_forall. intros i Hi%elem_of_reverse%elem_of_seqZ. lia.
  - intros pre i post h' E Hu.
    assert (i ∈ seqZ 0 (bm_size b1)) as Hi%elem_of_seqZ.
    { apply elem_of_reverse. rewrite E. apply elem_of_app. right. by left. }
    pose proof (seqZ_reverse_split _ _ _ _ _ E) as Hpre.
    exists (Z.b2z (if decide (n ≤ i) then bit_at h p2 (i - n) else false)).
    split; [|apply b2z_neq]. unfold bit_at. rewrite H2. case_decide as Hni.
    + rewrite u32_small by clia.
      apply (get_at_upd h p1 b1 pre _ h' p2 b2 _ H1 Hu H2 (Hok _ _ H2)); [lia|]. intros _ Hj%Hpre. lia.
    + assert (u32 (i - n) = i - n + 4294967296) as ->.
      { unfold u32. rewrite <-(Z.mod_add _ 1) by done. rewrite Z.mod_small; clia. }
      rewrite (get_at_upd h p1 b1 pre _ h' p2 b2 _ H1 Hu H2 (Hok _ _ H2)); [|lia|].
      * by rewrite (bm_outside b2) by (lia || eauto).
      * intros -> Hin. simplify_eq.
        assert (i - n + 4294967296 ∈ seqZ 0 (bm_size b1)) as Hr%elem_of_seqZ.
        { apply elem_of_reverse. rewrite E. apply elem_of_app. by left. } lia.
Qed.

Lemma range_sets v h p b i j :
  store_ok h → h !! p = Some b → 0 ≤ i →
  sets h p (λ k, if decide (i ≤ k < j) then bool_decide (v ≠ 0) else bit_at h p k)
    (for_set (seqZ i (j - i)) p (λ _ _, Done v) h).
Proof.
  intros Hok Hp Hi.
  eapply sets_ext; [|apply (for_set_sets _ _ _ _ b (λ _, bool_decide (v ≠ 0))); try done].
  - intros b' k Hb Hk. simplify_eq. unfold bit_at. rewrite Hp. apply decide_ext.
    rewrite elem_of_seqZ. lia.
  - by apply seqZ_nonneg.
  - intros. by exists v.
Qed.

(** ** Queries *)

(** The set bits in increasing order. *)
Definition bits (b : B) : list Z := filter (λ k, bm_bit b k = true) (seqZ 0 (bm_size b)).

Lemma elem_of_bits b k : bm_ok b → k ∈ bits b ↔ 0 ≤ k ∧ bm_bit b k = true.
Proof.
  intros Hok. unfold bits. rewrite list_elem_of_filter, elem_of_seqZ. split; [naive_solver|].
  intros [Hk Hb]. split; [done|]. split; [done|].
  destruct (decide (k < bm_size b)); [done|]. rewrite bm_outside in Hb by (done || lia). done.
Qed.

Lemma is_set_bit b i : bm_ok b → 0 ≤ i → is_set b i = Done (bm_bit b i).
Proof. intros. unfold is_set. rewrite bm_get by done. simpl. by rewrite b2z_neq. Qed.

Lemma find_loop_filter ix test (t : Z → bool) :
  Forall (λ i, test i = Done (t i)) ix →
  find_loop ix test = Done (head (filter (λ i, t i = true) ix)).
Proof.
  induction 1 as [|i ix Hi _ IH]; [done|]. simpl. rewrite Hi. simpl. rewrite filter_cons.
  destruct (t i) eqn:E; [by rewrite decide_True|]. rewrite decide_False by done. apply IH.
Qed.

Lemma count_loop_filter ix test (t : Z → bool) w :
  Forall (λ i, test i = Done (t i)) ix →
  count_loop ix test w = Done (w + Z.of_nat (length (filter (λ i, t i = true) ix))).
Proof.
  intros Hix. revert w. induction Hix as [|i ix Hi _ IH]; intros w; simpl; [f_equal; lia|].
  rewrite Hi. simpl. rewrite IH, filter_cons. destruct (t i) eqn:E; simpl; f_equal; lia.
Qed.

Lemma is_set_seqZ b m n : bm_ok b → 0 ≤ m → Forall (λ i, is_set b i = Done (bm_bit b i)) (seqZ m n).
Proof. intros Hok Hm. apply Forall_forall. intros i Hi%elem_of_seqZ. apply is_set_bit; [done|lia]. Qed.

Lemma weight_bits b : bm_ok b → bitmask_weight b = Done (Z.of_nat (length (bits b))).
Proof. intros Hok. unfold bitmask_weight. by rewrite (count_loop_filter _ _ (bm_bit b)) by by apply is_set_seqZ. Qed.

(** A loop that looks for a counterexample. *)
Lemma find_loop_none ix test (t : Z → bool) hit miss :
  Forall (λ i, test i = Done (t i)) ix →
  (r ← find_loop ix test; Done (loop_result hit miss r)) =
  Done (if decide (Forall (λ i, t i = false) ix) then miss else hit).
Proof.
  intros Hix. rewrite (find_loop_filter _ _ t) by done. simpl. f_equal. clear Hix.
  induction ix as [|i ix IH]; simpl; [done|]. rewrite filter_cons. destruct (t i) eqn:E.
  - rewrite decide_True by done. rewrite decide_False; [done|].
    intros [? _]%Forall_cons. congruence.
  - rewrite decide_False by done. rewrite IH. apply decide_ext. rewrite Forall_cons. naive_solver.
Qed.

Lemma test2_seqZ (f : Z → Z → bool) b1 b2 n :
  bm_ok b1 → bm_ok b2 →
  Forall (λ i, test2 f b1 b2 i = Done (f (Z.b2z (bm_bit b1 i)) (Z.b2z (bm_bit b2 i)))) (seqZ 0 n).
Proof.
  intros H1 H2. apply Forall_forall. intros i Hi%elem_of_seqZ. unfold test2.
  by rewrite !bm_get by (done || lia).
Qed.

(** The relations between two masks. *)
Lemma query2 (f : Z → Z → bool) (R : Z → Prop) b1 b2 n hit miss :
  bm_ok b1 → bm_ok b2 →
  (∀ k, f (Z.b2z (bm_bit b1 k)) (Z.b2z (bm_bit b2 k)) = false ↔ R k) →
  ∃ r : bool, (r' ← find_loop (seqZ 0 n) (test2 f b1 b2); Done (loop_result hit miss r')) =
              Done (if r then miss else hit) ∧ (r = true ↔ ∀ k, 0 ≤ k < n → R k).
Proof.
  intros H1 H2 HR. rewrite (find_loop_none _ _ (λ i, f (Z.b2z (bm_bit b1 i)) (Z.b2z (bm_bit b2 i))))
    by by apply test2_seqZ.
  eexists (bool_decide (Forall _ (seqZ 0 n))). split; [by rewrite <-decide_bool_decide|].
  rewrite bool_decide_eq_true, Forall_forall. split; intros Hall k Hk.
  - apply HR, Hall, elem_of_seqZ. lia.
  - apply HR, Hall. apply elem_of_seqZ in Hk. lia.
Qed.

(** ** Positions *)

Lemma next_spec b i :
  bm_ok b → 0 ≤ i →
  ∃ n, bitmask_next b i = Done n ∧ i ≤ n ∧
    ((n < bm_size b ∧ bm_bit b n = true) ∨ n = Z.max i (bm_size b)) ∧
    ∀ k, i ≤ k < n → bm_bit b k = false.
Proof.
  intros Hok Hi. unfold bitmask_next.
  rewrite (find_loop_filter _ _ (bm_bit b)) by by apply is_set_seqZ. simpl.
  set (ix := seqZ i (bm_size b - i)). eexists. split; [done|].
  destruct (filter (λ i, bm_bit b i = true) ix) as [|n l] eqn:E; simpl.
  - split; [lia|]. split; [by right|]. intros k Hk.
    destruct (bm_bit b k) eqn:Ek; [|done]. exfalso.
    destruct (decide (k < bm_size b)); [|by rewrite bm_outside in Ek by (done || lia)].
    assert (k ∈ filter (λ i, bm_bit b i = true) ix) as Hin.
    { apply list_elem_of_filter. split; [done|]. apply elem_of_seqZ. lia. }
    rewrite E in Hin. by apply elem_of_nil in Hin.
  - assert (n ∈ filter (λ i, bm_bit b i = true) ix) as [Hn Hix%elem_of_seqZ]%list_elem_of_filter
      by (rewrite E; by left).
    split; [lia|]. split; [left; split; [lia|done]|]. intros k Hk.
    destruct (bm_bit b k) eqn:Ek; [|done]. exfalso.
    assert (k ∈ ix) as Hkx by (apply elem_of_seqZ; lia).
    apply list_elem_of_split in Hkx as (l1 & l2 & Hl).
    assert (filter (λ i, bm_bit b i = true) ix =
            filter (λ i, bm_bit b i = true) l1 ++ k :: filter (λ i, bm_bit b i = true) l2) as Hf.
    { rewrite Hl, filter_app, filter_cons, decide_True by done. done. }
    rewrite E in Hf. destruct (filter _ l1) as [|n' l1'] eqn:E1; simplify_eq/=; [lia|].
    assert (n' ∈ filter (λ i, bm_bit b i = true) l1) as [_ Hin]%list_elem_of_filter by (rewrite E1; by left).
    pose proof (seqZ_split _ _ _ _ _ Hl n' Hin). lia.
Qed.

Lemma rel_loop_lookup b ix n dflt :
  Forall (λ i, is_set b i = Done (bm_bit b i)) ix → 0 ≤ n ≤ UINT_MAX →
  rel_loop b ix n dflt = Done (default dflt (filter (λ i, bm_bit b i = true) ix !! Z.to_nat n)).
Proof.
  intros Hix. revert n. induction Hix as [|i ix Hi _ IH]; intros n Hn; simpl; [done|].
  rewrite Hi. simpl. rewrite filter_cons. destruct (bm_bit b i) eqn:E.
  - rewrite (decide_True (P := true = true)) by done. case_decide as Hz; [by subst|].
    rewrite u32_small, IH by clia.
    replace (Z.to_nat n) with (S (Z.to_nat (n - 1))) by lia. done.
  - rewrite (decide_False (P := false = true)) by done. by apply IH.
Qed.

Lemma rel_to_abs_bits b n :
  bm_ok b → 0 ≤ n ≤ UINT_MAX →
  bitmask_rel_to_abs_pos b n = Done (default (bm_size b) (bits b !! Z.to_nat n)).
Proof. intros. by apply rel_loop_lookup; [apply is_set_seqZ|]. Qed.

Lemma abs_to_rel_bits b n :
  bm_ok b → 0 ≤ n →
  bitmask_abs_to_rel_pos b n =
  Done (if bm_bit b n then Z.of_nat (length (filter (λ k, bm_bit b k = true) (seqZ 0 n))) else bm_size b).
Proof.
  intros Hok Hn. unfold bitmask_abs_to_rel_pos. rewrite bm_get by done. simpl.
  destruct (bm_bit b n); simpl; [|done].
  by rewrite (count_loop_filter _ _ (bm_bit b)) by by apply is_set_seqZ.
Qed.

(** The rank of a set bit is its index in the list of set bits. *)
Lemma bits_rank b k :
  bm_ok b → 0 ≤ k → bm_bit b k = true →
  bits b !! length (filter (λ k, bm_bit b k = true) (seqZ 0 k)) = Some k.
Proof.
  intros Hok Hk Hb. assert (k < bm_size b) as Hs.
  { destruct (decide (k < bm_size b)); [done|]. by rewrite bm_outside in Hb by (done || lia). }
  unfold bits. replace (bm_size b) with (k + (bm_size b - k)) by lia.
  rewrite seqZ_app by lia. rewrite filter_app. rewrite lookup_app_r, Nat.sub_diag by lia.
  rewrite seqZ_cons by lia. rewrite filter_cons, decide_True by (by rewrite Z.add_0_l).
  by rewrite Z.add_0_l.
Qed.

Lemma last_loop_spec b ix m :
  Forall (λ i, is_set b i = Done (bm_bit b i)) ix →
  last_loop b ix m = Done (default m (last (filter (λ i, bm_bit b i = true) ix))).
Proof.
  intros Hix. revert m. induction Hix as [|i ix Hi _ IH]; intros m; simpl; [done|].
  rewrite Hi. simpl. rewrite IH, filter_cons. f_equal. destruct (bm_bit b i) eqn:E.
  - rewrite decide_True by done. rewrite last_cons. by destruct (last _).
  - by rewrite decide_False by done.
Qed.

Lemma last_bits b : bm_ok b → bitmask_last b = Done (default (bm_size b) (last (bits b))).
Proof. intros. by apply last_loop_spec, is_set_seqZ. Qed.
End spec.

(** * Properties *)

(** _setbit() and _getbit() on the array of unsigned longs never leave the
    array of a well-formed mask: setting a bit inside the mask changes that bit
    only, a bit outside is ignored and reads as 0. *)
Theorem setbit_getbit (b : bitmask) (n v k : Z) :
  bitmask_wf b → 0 ≤ n → 0 ≤ k →
  ∃ b', _setbit b n v = Done b' ∧ bitmask_wf b' ∧ size b' = size b ∧
        _getbit b' k = if decide (k = n ∧ n < size b) then Done (Z.b2z (bool_decide (v ≠ 0)))
                       else _getbit b k.
Proof.
  intros Hb Hn Hk. destruct (setbit_bit b n v Hb Hn) as (b' & Hs & Hb' & Hsz & Hbit).
  exists b'. split_and!; try done. rewrite !getbit_bit, Hbit by done. by destruct (decide _).
Qed.

Definition ex_bits : bitmask := Bitmask 65 [4; 1].

Lemma ex_bits_wf : bitmask_wf ex_bits.
Proof. split; [by split | done |]. by repeat (constructor; [by split |]). Qed.

Lemma setbit_getbit_witness :
  ∃ b', _setbit ex_bits 63 1 = Done b' ∧ _getbit b' 64 = Done 1.
Proof.
  destruct (setbit_getbit ex_bits 63 1 64 ex_bits_wf) as (b' & H1 & _ & _ & H2); [done | done |].
  exists b'. split; [exact H1 | exact H2].
Defined.

(** C23: the Boolean operations write into the destination the conjunction,
    difference, union, symmetric difference, complement or copy of the bits the
    operands had at the call, and nothing else, also when the destination is one of
    the operands. *)
Theorem boolean_operations (h : gmap nat bitmask) p1 p2 p3 b1 b2 b3 :
  store_ok h → h !! p1 = Some b1 → h !! p2 = Some b2 → h !! p3 = Some b3 →
  sets h p1 (λ k, bit_at h p2 k && bit_at h p3 k) (bitmask_and h p1 p2 p3) ∧
  sets h p1 (λ k, bit_at h p2 k && negb (bit_at h p3 k)) (bitmask_andnot h p1 p2 p3) ∧
  sets h p1 (λ k, bit_at h p2 k || bit_at h p3 k) (bitmask_or h p1 p2 p3) ∧
  sets h p1 (λ k, xorb (bit_at h p2 k) (bit_at h p3 k)) (bitmask_eor h p1 p2 p3) ∧
  sets h p1 (λ k, negb (bit_at h p2 k)) (bitmask_complement h p1 p2) ∧
  sets h p1 (bit_at h p2) (bitmask_copy h p1 p2).
Proof.
  intros Hok H1 H2 H3. split_and!.
  - apply (loop2_sets Z.land andb h p1 p2 p3 b1 b2 b3); [intros [] []; vm_compute; reflexivity | done..].
  - apply (loop2_sets _ (λ x y, x && negb y) h p1 p2 p3 b1 b2 b3); [intros [] []; vm_compute; reflexivity | done..].
  - apply (loop2_sets Z.lor orb h p1 p2 p3 b1 b2 b3); [intros [] []; vm_compute; reflexivity | done..].
  - apply (loop2_sets Z.lxor xorb h p1 p2 p3 b1 b2 b3); [intros [] []; vm_compute; reflexivity | done..].
  - by apply (complement_sets h p1 p2 b1 b2).
  - by apply (copy_sets h p1 p2 b1 b2).
Qed.

Definition ex_masks : gmap nat bitmask := {[0%nat := ex_bits]}.

Lemma ex_masks_ok : store_ok ex_masks.
Proof.
  intros q b Hq. unfold ex_masks in Hq. apply lookup_singleton_Some in Hq as [_ <-]. exact ex_bits_wf.
Qed.

Lemma boolean_operations_witness : sets ex_masks 0 (λ k, xorb (bit_at ex_masks 0 k) (bit_at ex_masks 0 k))
  (bitmask_eor ex_masks 0 0 0).
Proof. apply (boolean_operations ex_masks 0 0 0 ex_bits ex_bits ex_bits ex_masks_ok); done. Defined.

(** the shifts move every bit of the source by n places, fill with zeros, and
    may be done in place; the counts are such that the unsigned index does not wrap
    around into the mask. *)
Theorem shift_operations (h : gmap nat bitmask) p1 p2 b1 b2 n :
  store_ok h → h !! p1 = Some b1 → h !! p2 = Some b2 → 0 ≤ n → size b1 ≤ INT_MAX →
  (size b1 + n ≤ UINT_MAX → sets h p1 (λ k, bit_at h p2 (k + n)) (bitmask_shiftright h p1 p2 n)) ∧
  (n + size b2 ≤ 4294967296 →
   sets h p1 (λ k, if decide (n ≤ k) then bit_at h p2 (k - n) else false) (bitmask_shiftleft h p1 p2 n)).
Proof.
  intros Hok H1 H2 Hn Hs. split; intros Hmax.
  - by apply (shiftright_sets h p1 p2 b1 b2).
  - by apply (shiftleft_sets h p1 p2 b1 b2).
Qed.

Lemma shift_operations_witness :
  sets ex_masks 0 (λ k, bit_at ex_masks 0 (k + 2)) (bitmask_shiftright ex_masks 0 0 2).
Proof. apply (shift_operations ex_masks 0 0 ex_bits ex_bits 2 ex_masks_ok); done. Defined.

(** the queries decide the relations between the sets of bits: equality over
    both sizes, inclusion, disjointness and intersection, and the weight is the
    number of bits set. *)
Theorem mask_queries (b1 b2 : bitmask) :
  bitmask_wf b1 → bitmask_wf b2 →
  (∃ r, bitmask_equal b1 b2 = Done (Z.b2z r) ∧
        (r = true ↔ ∀ k, 0 ≤ k → bitmask_bit b1 k = bitmask_bit b2 k)) ∧
  (∃ r, bitmask_subset b1 b2 = Done (Z.b2z r) ∧
        (r = true ↔ ∀ k, 0 ≤ k → bitmask_bit b1 k = true → bitmask_bit b2 k = true)) ∧
  (∃ r, bitmask_disjoint b1 b2 = Done (Z.b2z r) ∧ bitmask_intersects b1 b2 = Done (Z.b2z (negb r)) ∧
        (r = true ↔ ∀ k, 0 ≤ k → bitmask_bit b1 k = true → bitmask_bit b2 k = false)) ∧
  bitmask_weight b1 = Done (Z.of_nat (length (bits b1))).
Proof.
  intros H1 H2. pose proof (bm_outside (B := bitmask) b1) as O1.
  pose proof (bm_outside (B := bitmask) b2) as O2. simpl in O1, O2. split_and!.
  - destruct (query2 (H := bitmask_layout) (λ x y, bool_decide (x ≠ y)) (λ k, bitmask_bit b1 k = bitmask_bit b2 k) b1 b2
      (Z.max (size b1) (size b2)) 0 1 H1 H2) as (r & Hr & Hiff).
    { intros k. simpl. by destruct (bitmask_bit b1 k), (bitmask_bit b2 k). }
    exists r. split; [unfold bitmask_equal; simpl in *; rewrite Hr; by destruct r|]. rewrite Hiff.
    split; [|intros Hall k [Hk _]; by apply Hall]. intros Hall k Hk. destruct (decide (k < Z.max (size b1) (size b2))); [by apply Hall|].
    rewrite O1, O2 by (done || lia). done.
  - destruct (query2 (H := bitmask_layout) (λ x y, bool_decide (y < x))
      (λ k, bitmask_bit b1 k = true → bitmask_bit b2 k = true) b1 b2 (size b1) 0 1 H1 H2) as (r & Hr & Hiff).
    { intros k. simpl. destruct (bitmask_bit b1 k), (bitmask_bit b2 k); simpl; naive_solver. }
    exists r. split; [unfold bitmask_subset; simpl in *; rewrite Hr; by destruct r|]. rewrite Hiff.
    split; [|intros Hall k [Hk _]; by apply Hall]. intros Hall k Hk Hb. destruct (decide (k < size b1)); [by apply Hall|].
    rewrite O1 in Hb by (done || lia). done.
  - assert (∀ hit miss, ∃ r : bool,
      (r' ← find_loop (seqZ 0 (size b1)) (test2 (λ x y, bool_decide (Z.land x y ≠ 0)) b1 b2);
       Done (loop_result hit miss r')) = Done (if r then miss else hit) ∧
      (r = true ↔ ∀ k, 0 ≤ k → bitmask_bit b1 k = true → bitmask_bit b2 k = false)) as Hq.
    { intros hit miss. destruct (query2 (H := bitmask_layout) (λ x y, bool_decide (Z.land x y ≠ 0))
        (λ k, bitmask_bit b1 k = true → bitmask_bit b2 k = false) b1 b2 (size b1) hit miss H1 H2)
        as (r & Hr & Hiff).
      { intros k. simpl. destruct (bitmask_bit b1 k), (bitmask_bit b2 k); vm_compute; naive_solver. }
      exists r. split; [done|]. rewrite Hiff. split; [|intros Hall k [Hk _]; by apply Hall]. intros Hall k Hk Hb.
      destruct (decide (k < size b1)); [by apply Hall|]. rewrite O1 in Hb by (done || lia). done. }
    destruct (Hq 0 1) as (r & Hr & Hiff), (Hq 1 0) as (r' & Hr' & Hiff').
    assert (r' = r) as -> by (apply Bool.eq_iff_eq_true; by rewrite Hiff, Hiff').
    exists r. unfold bitmask_disjoint, bitmask_intersects. simpl in *. rewrite Hr, Hr'.
    split; [by destruct r|]. split; [by destruct r|done].
  - by apply (weight_bits (H := bitmask_layout)).
Qed.

Lemma mask_queries_witness :
  bitmask_weight ex_bits = Done (Z.of_nat (length (bits ex_bits))).
Proof. apply (mask_queries ex_bits ex_bits ex_bits_wf ex_bits_wf). Defined.

(** bitmask_rel_to_abs_pos() gives the n-th set bit and
    bitmask_abs_to_rel_pos() the number of a set bit among the set ones; each
    undoes the other. *)
Theorem position_inverse (b : bitmask) :
  bitmask_wf b →
  (∀ k, 0 ≤ k → bitmask_bit b k = true →
     ∃ n, bitmask_abs_to_rel_pos b k = Done n ∧ 0 ≤ n < Z.of_nat (length (bits b)) ∧
          bitmask_rel_to_abs_pos b n = Done k) ∧
  (∀ n, 0 ≤ n < Z.of_nat (length (bits b)) →
     ∃ k, bitmask_rel_to_abs_pos b n = Done k ∧ bitmask_bit b k = true ∧
          bitmask_abs_to_rel_pos b k = Done n).
Proof.
  intros Hwf. pose proof (wf_size b Hwf) as Hsz.
  assert (Z.of_nat (length (bits b)) ≤ UINT_MAX) as Hlen.
  { unfold bits. pose proof (length_filter (λ k, bm_bit b k = true) (seqZ 0 (bm_size b))) as Hf.
    rewrite length_seqZ in Hf. change (bm_size b) with (size b) in *. clia. }
  split.
  - intros k Hk Hb. pose proof (bits_rank (H := bitmask_layout) b k Hwf Hk Hb) as Hr.
    rewrite (abs_to_rel_bits (H := bitmask_layout)) by done. change (bm_bit b k) with (bitmask_bit b k).
    rewrite Hb. eexists. split; [done|]. pose proof (lookup_lt_Some _ _ _ Hr). split; [lia|].
    rewrite (rel_to_abs_bits (H := bitmask_layout)) by (done || lia). by rewrite Nat2Z.id, Hr.
  - intros n Hn. rewrite (rel_to_abs_bits (H := bitmask_layout)) by (done || lia).
    destruct (lookup_lt_is_Some_2 (bits b) (Z.to_nat n)) as [k Hk]; [lia|]. rewrite Hk. simpl.
    exists k. split; [done|].
    pose proof (list_elem_of_lookup_2 _ _ _ Hk) as [Hk0 Hb]%(elem_of_bits (H := bitmask_layout) b k Hwf).
    split; [exact Hb|]. rewrite (abs_to_rel_bits (H := bitmask_layout)) by done. rewrite Hb.
    pose proof (bits_rank (H := bitmask_layout) b k Hwf Hk0 Hb) as Hr. do 2 f_equal.
    assert (NoDup (bits b)) as Hnd by apply NoDup_filter, NoDup_seqZ.
    pose proof (NoDup_lookup _ _ _ _ Hnd Hr Hk). lia.
Qed.

Lemma position_inverse_witness :
  ∃ n, bitmask_abs_to_rel_pos ex_bits 64 = Done n ∧ bitmask_rel_to_abs_pos ex_bits n = Done 64.
Proof.
  destruct (proj1 (position_inverse ex_bits ex_bits_wf) 64) as (n & H1 & _ & H2); [done | done |].
  exists n. split; [exact H1 | exact H2].
Defined.
