(* ===== verification/BitmaskText.v ===== *)
(** * Bit masks as text

    The two text formats of libbitmask.c: what the display functions write into a
    buffer of any size, and that the parsers read it back.  Proved from the laws
    of the layout interface. *)
From stdpp Require Import base strings numbers option list gmap.
From Stdlib Require Import Ascii.
From S2P Require Import Prelude CInt CText Bitmask BitmaskSpec.

#[local] Open Scope Z_scope.

(** ** The output buffer *)

(** The buffer of [buflen] bytes after printing the text [t]. *)
Definition shows (buflen : Z) (t : list ascii) : list ascii * Z :=
  (take (Z.to_nat (buflen - 1)) t, Z.of_nat (length t)).

Lemma snprintf_at_shows buflen t x :
  snprintf_at buflen (shows buflen t) x = shows buflen (t ++ x).
Proof.
  unfold snprintf_at, shows. rewrite length_app. f_equal; [|lia]. case_decide as Hc.
  - rewrite Nat2Z.id, take_app. rewrite (take_ge t) by lia. rewrite (take_ge t) by lia. f_equal.
    f_equal. lia.
  - by rewrite take_app_le by lia.
Qed.

Lemma shows_nil buflen : shows buflen [] = ([], 0).
Proof. unfold shows. by rewrite take_nil. Qed.

(** An element of the list format: begin, end and stride. *)
Abbreviation elem := (Z * Z * Z)%type.

Section text.
Context {B : Type} `{BitLayout B}.
Abbreviation store := (gmap nat B).

(** ** The hex format *)

Lemma lor_bit v x : 0 ≤ v → Z.lor (Z.shiftl v 1) (Z.b2z x) = 2 * v + Z.b2z x.
Proof.
  intros Hv. rewrite Z.shiftl_mul_pow2 by lia.
  replace (v * 2 ^ 1) with (Z.double v) by (rewrite Z.double_spec; lia).
  by destruct x, v as [|q|q].
Qed.

(** The value of a chunk. *)
Lemma hex_val_bits b chunk n val :
  bm_ok b → 0 ≤ chunk → chunk * 32 + 32 ≤ UINT_MAX → (n ≤ 32)%nat → 0 ≤ val < 2 ^ (32 - Z.of_nat n) →
  ∃ v, hex_val b chunk (reverse (seqZ 0 (Z.of_nat n))) val = Done v ∧ 0 ≤ v < 2 ^ 32 ∧
    ∀ j, 0 ≤ j → Z.testbit v j =
      if decide (j < Z.of_nat n) then bm_bit b (chunk * 32 + j) else Z.testbit val (j - Z.of_nat n).
Proof.
  intros Hok Hc Hmax. revert val. induction n as [|n IH]; intros val Hn Hv.
  { exists val. simpl. change (Z.of_nat 0) with 0 in *. rewrite Z.sub_0_r in Hv.
    split; [done|]. split; [done|]. intros j Hj. rewrite decide_False by lia. by rewrite Z.sub_0_r. }
  replace (Z.of_nat (S n)) with (Z.of_nat n + 1) in * by lia.
  rewrite seqZ_app by lia. change (seqZ (0 + Z.of_nat n) 1) with [0 + Z.of_nat n].
  rewrite reverse_snoc, Z.add_0_l. cbn [hex_val]. change HEXCHUNKSZ with 32.
  rewrite (u32_small (chunk * 32 + Z.of_nat n)) by lia. rewrite bm_get by (done || lia).
  cbn [mbind outcome_bind].
  assert (2 ^ (32 - Z.of_nat n) = 2 * 2 ^ (32 - (Z.of_nat n + 1))) as Hp.
  { rewrite <-Z.pow_succ_r by lia. f_equal. lia. }
  assert (2 ^ (32 - Z.of_nat n) ≤ 2 ^ 32) by (apply Z.pow_le_mono_r; lia).
  rewrite u32_small by (rewrite Z.shiftl_mul_pow2 by lia; change (2 ^ 32) with 4294967296 in *; clia).
  set (x := bm_bit b (chunk * 32 + Z.of_nat n)).
  destruct (IH (Z.lor (Z.shiftl val 1) (Z.b2z x))) as (v & -> & Hv32 & Hbits); [lia| |].
  { rewrite lor_bit by lia. destruct x; simpl; lia. }
  exists v. split; [done|]. split; [done|]. intros j Hj. rewrite Hbits by done.
  destruct (decide (j < Z.of_nat n)); [by rewrite decide_True by lia|].
  rewrite Z.lor_spec, Z.shiftl_spec by lia.
  destruct (decide (j = Z.of_nat n)) as [->|Hne].
  - rewrite decide_True by lia. rewrite Z.sub_diag, Z.b2z_bit0, Z.testbit_neg_r by lia. done.
  - rewrite decide_False by lia. replace (Z.testbit (Z.b2z x) (j - Z.of_nat n)) with false.
    + rewrite orb_false_r. f_equal. lia.
    + symmetry. destruct x; [|apply Z.bits_0]. apply Z.bits_above_log2; [done|]. simpl. lia.
Qed.

(** The 32-bit word of a chunk. *)
Definition word_of (b : B) (c w : Z) : Prop :=
  0 ≤ w < 2 ^ 32 ∧ ∀ j, 0 ≤ j < 32 → Z.testbit w j = bm_bit b (c * 32 + j).

(** The text of a list of words, the highest first. *)
Fixpoint words_text (ws : list Z) : list ascii :=
  match ws with
  | [] => []
  | w :: ws' =>
      fixed_digits 16 HEXCHARSZ w ++ match ws' with [] => [] | _ => ","%char :: words_text ws' end
  end.

Lemma hex_chunks_text b buflen cs :
  bm_ok b → Forall (λ c, 0 ≤ c ∧ c * 32 + 32 ≤ UINT_MAX) cs →
  ∃ ws, Forall2 (word_of b) cs ws ∧ ∀ t sep,
    hex_chunks b buflen cs sep (shows buflen t) =
    Done (shows buflen (t ++ match ws with [] => [] | _ => sep ++ words_text ws end)).
Proof.
  intros Hok. induction 1 as [|c cs [Hc Hmax] _ (ws & Hws & IH)].
  { exists []. split; [constructor|]. intros t sep. simpl. by rewrite app_nil_r. }
  destruct (hex_val_bits b c 32 0) as (v & Hv & Hr & Hb); [done..|].
  exists (v :: ws). split.
  { constructor; [|done]. split; [done|]. intros j Hj. rewrite Hb by lia. by rewrite decide_True by lia. }
  intros t sep. cbn [hex_chunks]. change HEXCHUNKSZ with (Z.of_nat 32). rewrite Hv. cbn [mbind outcome_bind].
  rewrite snprintf_at_shows, IH. do 2 f_equal. cbn [words_text]. rewrite <-!app_assoc. by destruct ws.
Qed.

(** ** Reading words back *)

Lemma nexttoken_found sep a t : sep ∉ a → nexttoken (Some (a ++ sep :: t)) sep = Some t.
Proof.
  intros Ha. simpl. rewrite index_of_app_notin by done. simpl. rewrite decide_True by done. simpl.
  rewrite Nat.add_0_r, cons_middle, (assoc_L (++)).
  by rewrite drop_app_length' by (rewrite length_app; simpl; lia).
Qed.

Lemma nexttoken_none sep a : sep ∉ a → nexttoken (Some a) sep = None.
Proof.
  intros Ha. simpl. pose proof (index_of_app_notin sep a [] Ha) as E.
  rewrite app_nil_r in E. by rewrite E.
Qed.

Lemma fixed_digits_notin c base k v :
  0 < base ≤ 36 → parse_digit c = None → c ∉ fixed_digits base k v.
Proof.
  intros Hb Hc Hin.
  pose proof (fixed_digits_forall (λ d, parse_digit d ≠ None) base k v ltac:(lia)) as Hf.
  rewrite Forall_forall in Hf. apply (Hf) in Hin; [done|]. intros d Hd.
  by rewrite parse_digit_char by lia.
Qed.

Lemma hex_no_x d : 0 ≤ d < 16 → digit_char d ≠ "x"%char ∧ digit_char d ≠ "X"%char.
Proof.
  intros Hd. assert (∃ n, d = Z.of_nat n ∧ (n < 16)%nat) as (n & -> & Hn)
    by (exists (Z.to_nat d); lia). clear Hd.
  do 16 (destruct n as [|n]; [by vm_compute|]). lia.
Qed.

Lemma strtoul16_word w rest :
  0 ≤ w < 2 ^ 32 → no_digit 16 rest →
  strtoul16 (fixed_digits 16 HEXCHARSZ w ++ rest) = (w, rest).
Proof.
  intros Hw Hr. unfold strtoul16.
  assert (Forall (λ c, (isspace c = false ∧ c ≠ "-"%char ∧ c ≠ "+"%char) ∧ c ≠ "x"%char ∧ c ≠ "X"%char)
            (fixed_digits 16 HEXCHARSZ w)) as Hf.
  { apply fixed_digits_forall; [lia|]. intros d Hd. split; [apply digit_char_plain; lia|by apply hex_no_x]. }
  pose proof (fixed_digits_length 16 HEXCHARSZ w) as Hl.
  pose proof (scan_fixed_digits 16 HEXCHARSZ w 0 0 rest ltac:(lia) ltac:(done)) as Hsc.
  rewrite (scan_digits_stop _ _ _ rest Hr) in Hsc.
  destruct (fixed_digits 16 HEXCHARSZ w) as [|c [|d [|e l]]]; [done..|].
  apply Forall_cons in Hf as [[Hc _] [[_ Hd] _]%Forall_cons].
  rewrite plain_head_skip by done. cbn [app].
  rewrite (bool_decide_false (d = "x"%char ∨ d = "X"%char)) by naive_solver.
  rewrite andb_false_r. cbn [andb]. cbn [app] in Hsc. rewrite Hsc.
  rewrite decide_False by done. unfold strtoul_value. change (2 ^ 32) with 4294967296 in Hw.
  rewrite decide_False by lia. rewrite u32_small by clia. done.
Qed.

Lemma words_text_next w ws :
  nexttoken (Some (words_text (w :: ws))) "," =
  match ws with [] => None | _ => Some (words_text ws) end.
Proof.
  assert (","%char ∉ fixed_digits 16 HEXCHARSZ w) as Hn by (by apply fixed_digits_notin).
  cbn [words_text]. destruct ws as [|w' ws].
  - rewrite app_nil_r. by apply nexttoken_none.
  - by apply nexttoken_found.
Qed.

Lemma words_text_length ws : (8 * length ws ≤ length (words_text ws))%nat.
Proof.
  induction ws as [|w ws IH]; [done|]. cbn [words_text length].
  rewrite length_app, fixed_digits_length. unfold HEXCHARSZ. destruct ws; simpl in *; lia.
Qed.

Lemma count_chunks_words ws fuel k :
  ws ≠ [] → (length ws ≤ fuel)%nat →
  count_chunks fuel (Some (words_text ws)) k = Done (k + Z.of_nat (length ws)).
Proof.
  revert fuel k. induction ws as [|w ws IH]; intros fuel k Hne Hf; [done|].
  destruct fuel as [|fuel]; simpl in Hf; [lia|]. cbn [count_chunks]. rewrite words_text_next.
  destruct ws as [|w' ws]; [by destruct fuel|]. rewrite IH by (done || lia). f_equal. simpl. lia.
Qed.

(** The bits of one word. *)
Lemma set_chunk_upd h p b0 g sz c w bl ix h' :
  upd h p b0 ix g h' → 0 ≤ c → c * 32 + 32 ≤ sz → sz ≤ UINT_MAX →
  (∀ j, j ∈ bl → 0 ≤ j < 32 ∧ Z.testbit w j = g (c * 32 + j)) →
  ∃ h'', set_chunk h' p sz c w bl = Done (true, h'') ∧
         upd h p b0 (ix ++ ((λ j, c * 32 + j) <$> bl)) g h''.
Proof.
  intros Hu Hc Hsz Hmax. revert ix h' Hu.
  induction bl as [|j bl IH]; intros ix h' Hu Hbl.
  { exists h'. simpl. by rewrite app_nil_r. }
  destruct (Hbl j) as (Hj32 & Hg); [by left|]. cbn [set_chunk]. change HEXCHUNKSZ with 32.
  rewrite u32_small by lia. rewrite decide_False by lia.
  destruct (upd_snoc h p b0 ix g h' (c * 32 + j) (Z.land (Z.shiftr w j) 1)) as (h2 & -> & Hu2);
    [done|lia| |].
  { rewrite land_1, Z.shiftr_spec, Z.add_0_l by lia. by rewrite b2z_neq. }
  cbn [mbind outcome_bind]. destruct (IH (ix ++ [c * 32 + j]) h2 Hu2) as (h3 & -> & Hu3).
  { intros i Hi. apply Hbl. by right. }
  exists h3. split; [done|]. by rewrite <-app_assoc in Hu3.
Qed.

(** One word of the loop. *)
Lemma parsehex_step b h p b0 sz c w ws fuel ix h' :
  word_of b c w → 0 ≤ c → c * 32 + 32 ≤ sz → sz ≤ UINT_MAX →
  upd h p b0 ix (bm_bit b) h' →
  ∃ h'', parsehex_loop (S fuel) h' p sz (Some (words_text (w :: ws))) c =
         parsehex_loop fuel h'' p sz (match ws with [] => None | _ => Some (words_text ws) end) (c - 1) ∧
    upd h p b0 (ix ++ ((λ j, c * 32 + j) <$> reverse (seqZ 0 32))) (bm_bit b) h''.
Proof.
  intros [Hw Hbits] Hc Hsz Hmax Hu.
  destruct (set_chunk_upd h p b0 (bm_bit b) sz c w (reverse (seqZ 0 32)) ix h')
    as (h2 & Hset & Hu2); try done.
  { intros j Hj%elem_of_reverse%elem_of_seqZ. split; [lia|apply Hbits; lia]. }
  exists h2. split; [|done]. cbn [parsehex_loop]. rewrite words_text_next.
  assert (no_digit 16 (match ws with [] => [] | _ => ","%char :: words_text ws end)) as Hnd
    by (by destruct ws).
  cbn [words_text]. rewrite strtoul16_word by done.
  rewrite length_app, fixed_digits_length, Nat.add_sub.
  rewrite decide_False by (unfold HEXCHARSZ; lia).
  rewrite decide_False.
  2: { destruct ws as [|w' ws]; [by intros [[? ?] _]|]. intros [_ Hx]. apply Hx. cbn [length default from_option]. unfold id. lia. }
  change HEXCHUNKSZ with 32. rewrite Hset. done.
Qed.

Lemma parsehex_words b h p b0 sz n : ∀ ws fuel ix h',
  Forall2 (word_of b) (reverse (seqZ 0 (Z.of_nat (S n)))) ws → (S n ≤ fuel)%nat →
  Z.of_nat (S n) * 32 ≤ sz → sz ≤ UINT_MAX →
  upd h p b0 ix (bm_bit b) h' →
  ∃ h'' ix', parsehex_loop fuel h' p sz (Some (words_text ws)) (Z.of_nat n) = Done (true, h'') ∧
    upd h p b0 ix' (bm_bit b) h'' ∧ (∀ k, k ∈ ix → k ∈ ix') ∧
    ∀ k, 0 ≤ k < Z.of_nat (S n) * 32 → k ∈ ix'.
Proof.
  induction n as [|n IH]; intros ws fuel ix h' Hws Hf Hsz Hmax Hu;
    (destruct fuel as [|fuel]; [lia|]).
  - inversion Hws as [|? w ? ws' Hw Hnil]; subst. inversion Hnil; subst. change (Z.of_nat 0) with 0.
    destruct (parsehex_step b h p b0 sz 0 w [] fuel ix h') as (h2 & -> & Hu2); try done; [lia..|].
    eexists h2, _. split; [by destruct fuel|]. split; [exact Hu2|].
    split; [intros; apply elem_of_app; by left|]. intros k Hk. apply elem_of_app. right.
    apply list_elem_of_fmap. exists k. split; [lia|]. apply elem_of_reverse, elem_of_seqZ. lia.
  - replace (Z.of_nat (S (S n))) with (Z.of_nat (S n) + 1) in Hws by lia.
    rewrite seqZ_app in Hws by lia.
    change (seqZ (0 + Z.of_nat (S n)) 1) with [0 + Z.of_nat (S n)] in Hws.
    rewrite reverse_snoc, Z.add_0_l in Hws. inversion Hws as [|? w ? ws' Hw Hws']; subst.
    destruct (parsehex_step b h p b0 sz (Z.of_nat (S n)) w ws' fuel ix h') as (h2 & -> & Hu2);
      try done; [lia..|].
    assert (ws' ≠ []) as Hne.
    { intros ->. apply Forall2_length in Hws'. rewrite length_reverse, length_seqZ in Hws'. simpl in Hws'. lia. }
    assert ((match ws' with [] => None | _ => Some (words_text ws') end) = Some (words_text ws')) as ->
      by (by destruct ws').
    replace (Z.of_nat (S n) - 1) with (Z.of_nat n) by lia.
    destruct (IH ws' fuel _ h2 Hws' ltac:(lia) ltac:(lia) Hmax Hu2) as (h3 & ix' & -> & Hu3 & Hsub & Hcov).
    exists h3, ix'. split; [done|]. split; [done|]. split.
    + intros k Hk. apply Hsub, elem_of_app. by left.
    + intros k Hk. destruct (decide (k < Z.of_nat (S n) * 32)); [apply Hcov; lia|].
      apply Hsub, elem_of_app. right. apply list_elem_of_fmap. exists (k - Z.of_nat (S n) * 32).
      split; [lia|]. apply elem_of_reverse, elem_of_seqZ. lia.
Qed.

(** The number of words of a mask, and the limit the parser computes. *)
Lemma chunks_size sz :
  0 < sz ≤ INT_MAX →
  ∃ n, howmany sz HEXCHUNKSZ = Z.of_nat (S n) ∧ Z.of_nat n * 32 < sz ≤ Z.of_nat (S n) * 32 ∧
       Z.of_nat (S n) * 32 ≤ u32 ((sz + 63) / 64 * 8 * 8) ≤ UINT_MAX.
Proof.
  intros Hs. unfold howmany, HEXCHUNKSZ. rewrite u32_small by clia.
  set (q := (sz + (32 - 1)) / 32).
  assert (q * 32 ≤ sz + 31 < q * 32 + 32) as Hq.
  { pose proof (Z.div_mod (sz + (32 - 1)) 32). pose proof (Z.mod_pos_bound (sz + (32 - 1)) 32).
    unfold q. lia. }
  set (r := (sz + 63) / 64).
  assert (r * 64 ≤ sz + 63 < r * 64 + 64) as Hr.
  { pose proof (Z.div_mod (sz + 63) 64). pose proof (Z.mod_pos_bound (sz + 63) 64). unfold r. lia. }
  clearbody q r. exists (Z.to_nat (q - 1)). rewrite u32_small by clia.
  replace (Z.of_nat (S (Z.to_nat (q - 1)))) with q by lia. clia.
Qed.

Lemma displayhex_text b :
  bm_ok b → 0 < bm_size b ≤ INT_MAX →
  ∃ n ws, Forall2 (word_of b) (reverse (seqZ 0 (Z.of_nat (S n)))) ws ∧
    Z.of_nat n * 32 < bm_size b ≤ Z.of_nat (S n) * 32 ∧
    ∀ buflen, 1 ≤ buflen → bitmask_displayhex buflen b = Done (shows buflen (words_text ws)).
Proof.
  intros Hok Hs. destruct (chunks_size _ Hs) as (n & Hn & Hsz & _). exists n.
  assert (Forall (λ c, 0 ≤ c ∧ c * 32 + 32 ≤ UINT_MAX) (reverse (seqZ 0 (Z.of_nat (S n))))) as Hcs.
  { apply Forall_forall. intros c Hc%elem_of_reverse%elem_of_seqZ. clia. }
  destruct (hex_chunks_text b 1 _ Hok Hcs) as (ws & Hws & _). exists ws. split; [done|]. split; [done|].
  intros buflen Hb. unfold bitmask_displayhex. rewrite decide_False by lia. rewrite Hn.
  destruct (hex_chunks_text b buflen _ Hok Hcs) as (ws' & Hws' & Hd).
  assert (ws' = ws) as ->.
  { clear -Hws Hws'. revert ws' Hws'. induction Hws as [|c w cs ws [Hw Hb] _ IH]; intros ws' Hws';
      inversion Hws' as [|? w' ? ws2 [Hw' Hb'] Hws2]; subst; [done|]. f_equal; [|by apply IH].
    apply Z.bits_inj'. intros j Hj. destruct (decide (j < 32)); [by rewrite Hb, Hb' by lia|].
    assert (∀ v, 0 ≤ v < 2 ^ 32 → Z.testbit v j = false) as Hhi.
    { intros v Hv. destruct (decide (v = 0)) as [->|]; [by rewrite Z.bits_0|].
      apply Z.bits_above_log2; [lia|]. assert (Z.log2 v < 32) by (apply Z.log2_lt_pow2; lia). lia. }
    by rewrite !Hhi. }
  rewrite <-(shows_nil buflen), Hd. by destruct ws.
Qed.

Lemma clearall_sets h p b :
  store_ok h → h !! p = Some b →
  ∃ h1 b1, bitmask_clearall h p = Done h1 ∧ store_ok h1 ∧ h1 !! p = Some b1 ∧
    bm_size b1 = bm_size b ∧ (∀ q, q ≠ p → h1 !! q = h !! q) ∧ ∀ k, 0 ≤ k → bm_bit b1 k = false.
Proof.
  intros Hok Hp. destruct (const_sets 0 h p b Hok Hp) as (h1 & Hr & Hok1 & Hs & Hq & Hb).
  specialize (Hs p) as Hsp. rewrite Hp in Hsp. simpl in Hsp.
  destruct (h1 !! p) as [b1|] eqn:E; simplify_eq/=. exists h1, b1. split_and!; try done.
  intros k Hk. destruct (decide (k < bm_size b)).
  - specialize (Hb b k Hp ltac:(lia)). unfold bit_at in Hb. by rewrite E in Hb.
  - apply bm_outside; [by eapply Hok1|lia].
Qed.

(** A mask written by the parser, compared with the mask that was displayed. *)
Definition reads_back (h : store) (p : nat) (b : B) (r : outcome (Z * store)) : Prop :=
  ∃ h', r = Done (0, h') ∧ (∀ q, q ≠ p → h' !! q = h !! q) ∧ is_Some (h' !! p) ∧
        ∀ k, 0 ≤ k → bit_at h' p k = bm_bit b k.

Lemma upd_reads_back h h1 p b b1 ix h2 :
  bm_ok b → bm_size b1 = bm_size b → (∀ q, q ≠ p → h1 !! q = h !! q) →
  upd h1 p b1 ix (bm_bit b) h2 →
  (∀ k, 0 ≤ k < bm_size b → k ∈ ix ∨ bm_bit b1 k = bm_bit b k) →
  reads_back h p b (Done (0, h2)).
Proof.
  intros Hok Hs Hq (b2 & -> & Hok2 & Hs2 & Hb2) Hcov. eexists. split; [done|]. split_and!.
  - intros q Hne. rewrite lookup_insert_ne by done. by apply Hq.
  - rewrite lookup_insert_eq. eauto.
  - intros k Hk. unfold bit_at. rewrite lookup_insert_eq. destruct (decide (k < bm_size b)) as [Hlt|Hge].
    + rewrite Hb2 by done. destruct (Hcov k ltac:(lia)) as [Hin|Heq].
      * by rewrite decide_True by (split; [done|lia]).
      * by case_decide.
    + rewrite !bm_outside by (done || lia). done.
Qed.

Lemma parsehex_reads_back h p b b0 n ws :
  store_ok h → h !! p = Some b0 → bm_ok b → bm_size b0 = bm_size b → 0 < bm_size b ≤ INT_MAX →
  Forall2 (word_of b) (reverse (seqZ 0 (Z.of_nat (S n)))) ws →
  Z.of_nat n * 32 < bm_size b ≤ Z.of_nat (S n) * 32 →
  reads_back h p b (bitmask_parsehex h (words_text ws) p).
Proof.
  intros Hok Hp Hokb Hs Hsz Hws Hn.
  destruct (clearall_sets h p b0 Hok Hp) as (h1 & b1 & Hcl & Hok1 & Hp1 & Hs1 & Hq1 & Hb1).
  unfold bitmask_parsehex. rewrite Hcl. cbn [mbind outcome_bind]. rewrite Hp1. cbn [load mbind outcome_bind].
  assert (length ws = S n) as Hlen.
  { apply Forall2_length in Hws. rewrite length_reverse, length_seqZ in Hws. lia. }
  pose proof (words_text_length ws) as Htl.
  rewrite count_chunks_words by (lia || (by intros ->)). cbn [mbind outcome_bind].
  rewrite Hs1, Hs, Hlen. replace (0 + Z.of_nat (S n) - 1) with (Z.of_nat n) by lia.
  destruct (chunks_size _ Hsz) as (n' & _ & Hn' & Hlim). assert (n' = n) as -> by lia.
  destruct (parsehex_words b h1 p b1 (u32 ((bm_size b + 63) / 64 * 8 * 8)) n ws
              (S (length (words_text ws))) [] h1)
    as (h2 & ix & -> & Hu & _ & Hcov); try done; [lia..| |].
  { apply upd_nil; [done|by eapply Hok1]. }
  cbn [mbind outcome_bind finish fst snd].
  eapply upd_reads_back; [done|by rewrite Hs1|done|done|]. intros k Hk. left. apply Hcov. lia.
Qed.

(** ** The list format *)

Definition elem_text (e : elem) : list ascii :=
  let '(a, b, s) := e in
  print_u a ++
  if decide (a = b ∧ s = 1) then []
  else "-"%char :: print_u b ++ if decide (s = 1) then [] else ":"%char :: print_u s.

Definition tail_text (es : list elem) : list ascii := concat ((λ e, ","%char :: elem_text e) <$> es).
Definition elems_text (es : list elem) : list ascii :=
  match es with [] => [] | e :: es' => elem_text e ++ tail_text es' end.

(** The elements the parser accepts for a mask of [sz] bits, when no addition of
    a stride wraps around. *)
Definition wf_elem (sz : Z) (e : elem) : Prop :=
  let '(a, b, s) := e in 0 ≤ a ≤ b ∧ b < sz ∧ 1 ≤ s ∧ b + s ≤ UINT_MAX.

Definition in_elem (k : Z) (e : elem) : Prop :=
  let '(a, b, s) := e in a ≤ k ≤ b ∧ (k - a) mod s = 0.

Lemma print_u_notin c v : parse_digit c = None → c ∉ print_u v.
Proof. intros. by apply fixed_digits_notin. Qed.

Lemma nexttoken_skip sep a t :
  sep ∉ a → nexttoken (Some (a ++ t)) sep = nexttoken (Some t) sep.
Proof.
  intros Ha. simpl. rewrite index_of_app_notin by done.
  destruct (index_of sep t) as [k|]; [|done]. simpl. f_equal.
  replace (S (length a + k)) with (length a + S k)%nat by lia. by rewrite <-drop_drop, drop_app_length.
Qed.

Lemma nexttoken_shorter sep t s : nexttoken (Some t) sep = Some s → (length s < length t)%nat.
Proof.
  simpl. destruct (index_of sep t) as [k|] eqn:E; [|done]. intros [= <-].
  rewrite length_drop. destruct t; [done|]. simpl. lia.
Qed.

(** A token that starts behind the next element is ignored. *)
Lemma before_later sep a t :
  sep ∉ a → ","%char ∉ a → sep ≠ ","%char → (t = [] ∨ head t = Some ","%char) →
  before (nexttoken (Some (a ++ t)) sep) (nexttoken (Some (a ++ t)) ",") = None.
Proof.
  intros Hs Hc Hne Ht. rewrite !nexttoken_skip by done.
  destruct Ht as [->|Ht]; [done|]. destruct t as [|c t]; [done|]. injection Ht as ->.
  unfold nexttoken. cbn [index_of]. rewrite decide_False by congruence. rewrite decide_True by done.
  destruct (index_of sep t) as [k|]; [|done]. simpl. rewrite drop_0.
  rewrite decide_False; [done|]. rewrite length_drop. lia.
Qed.

Lemma before_first sep a x t :
  sep ∉ a → ","%char ∉ a → ","%char ∉ x → sep ≠ ","%char →
  (t = [] ∨ head t = Some ","%char) →
  before (nexttoken (Some (a ++ sep :: x ++ t)) sep) (nexttoken (Some (a ++ sep :: x ++ t)) ",") =
  Some (x ++ t).
Proof.
  intros Hs Hc Hx Hne Ht. rewrite nexttoken_found by done.
  rewrite nexttoken_skip by done. change (sep :: x ++ t) with ([sep] ++ (x ++ t)).
  rewrite nexttoken_skip by (intros E%list_elem_of_singleton; congruence). rewrite nexttoken_skip by done.
  destruct (nexttoken (Some t) ",") as [s|] eqn:E; [|done]. apply nexttoken_shorter in E. simpl.
  rewrite decide_True; [done|]. rewrite length_app. lia.
Qed.

Lemma scan_term_print v t ok :
  is_u32 v → no_digit 10 t → (t = [] ∨ ∃ c, head t = Some c ∧ c ∈ ok) →
  scan_term (print_u v ++ t) ok = Some v.
Proof.
  intros Hv Hn Ht. unfold scan_term, sscanf_uc. rewrite scan_u_print by done.
  destruct Ht as [->|(c & Hc & Hok)]; [done|]. destruct t as [|c' t]; simplify_eq/=.
  unfold scan_was_ok. by rewrite (bool_decide_true (c ∈ ok)).
Qed.

Lemma tail_text_head es : tail_text es = [] ∨ head (tail_text es) = Some ","%char.
Proof. destruct es; [by left|by right]. Qed.

Lemma tail_no_digit es : no_digit 10 (tail_text es).
Proof. by destruct es. Qed.

(** Reading one element back. *)
Lemma parse_elem_text a b s es :
  is_u32 a → is_u32 b → is_u32 s →
  parse_elem (elem_text (a, b, s) ++ tail_text es) = Some (a, b, s).
Proof.
  intros Ha Hb Hs. unfold parse_elem, elem_text.
  pose proof (print_u_notin "-" a eq_refl) as Hda. pose proof (print_u_notin "," a eq_refl) as Hca.
  pose proof (print_u_notin "," b eq_refl) as Hcb. pose proof (print_u_notin ":" b eq_refl) as Hcol.
  pose proof (print_u_notin "," s eq_refl) as Hcs.
  pose proof (tail_text_head es) as Ht. pose proof (tail_no_digit es) as Hnd.
  case_decide as Hsingle.
  - destruct Hsingle as [-> ->]. rewrite app_nil_r. rewrite scan_term_print; [|clia|done|].
    2: { destruct Ht as [Ht|Ht]; [by left|]. right. eexists. split; [done|]. by left. }
    cbn [mbind option_bind]. rewrite before_later by done. done.
  - set (r := if decide (s = 1) then [] else ":"%char :: print_u s).
    assert (","%char ∉ print_u b ++ r) as Hcr.
    { rewrite not_elem_of_app. split; [done|]. unfold r. case_decide; [by intros ?%elem_of_nil|].
      by rewrite not_elem_of_cons. }
    assert ((print_u a ++ "-"%char :: print_u b ++ r) ++ tail_text es =
            print_u a ++ "-"%char :: (print_u b ++ r) ++ tail_text es) as ->
      by (by rewrite <-app_assoc).
    rewrite scan_term_print; [|clia|done|]. 2: { right. eexists. split; [done|]. right. by left. }
    cbn [mbind option_bind]. rewrite before_first by done.
    assert (nexttoken (Some (print_u a ++ "-"%char :: (print_u b ++ r) ++ tail_text es)) "," =
            nexttoken (Some (print_u b ++ r ++ tail_text es)) ",") as ->.
    { rewrite nexttoken_skip by done. rewrite <-app_assoc.
      by apply (nexttoken_skip "," ["-"%char]); intros ?%list_elem_of_singleton. }
    rewrite <-app_assoc. rewrite scan_term_print; [|clia| |].
    2: { unfold r. by case_decide; [exact Hnd|]. }
    2: { unfold r. case_decide; simpl; [|right; eexists; split; [done|right; by left]].
         destruct Ht as [Ht|Ht]; [by left|]. right. eexists. split; [done|]. by left. }
    cbn [mbind option_bind]. unfold r. case_decide as H1; cbn [app].
    + subst s. by rewrite before_later.
    + rewrite before_first by done. rewrite scan_term_print; [done|clia|exact Hnd|].
      destruct Ht as [Ht|Ht]; [by left|]. right. eexists. split; [done|]. by left.
Qed.

(** The inner loop sets the bits of the stride. *)
Lemma stride_upd h p b0 g b s : 1 ≤ s → b + s ≤ UINT_MAX → ∀ fuel a ix h',
  0 ≤ a → b - a < Z.of_nat fuel → upd h p b0 ix g h' →
  (∀ k, in_elem k (a, b, s) → g k = true) →
  ∃ h'' ix', stride_loop fuel h' p a b s = Done h'' ∧ upd h p b0 ix' g h'' ∧
    (∀ k, k ∈ ix → k ∈ ix') ∧ ∀ k, in_elem k (a, b, s) → k ∈ ix'.
Proof.
  intros Hs Hw. induction fuel as [|fuel IH]; intros a ix h' Ha Hf Hu Hg.
  { simpl. rewrite decide_False by lia. exists h', ix. split_and!; try done. intros k [? _]. lia. }
  simpl. case_decide as Hab.
  2: { exists h', ix. split_and!; try done. intros k [? _]. lia. }
  destruct (upd_snoc h p b0 ix g h' a 1) as (h2 & -> & Hu2); try done.
  { symmetry. apply Hg. split; [lia|]. by rewrite Z.sub_diag. }
  cbn [mbind outcome_bind]. rewrite u32_small by lia.
  assert (∀ k, (k - a) mod s = (k - (a + s)) mod s) as Hmod.
  { intros k. replace (k - a) with (k - (a + s) + 1 * s) by lia. apply Z.mod_add. lia. }
  destruct (IH (a + s) (ix ++ [a]) h2) as (h3 & ix' & -> & Hu3 & Hsub & Hcov); try done; [lia..| |].
  { intros k [Hk Hm]. apply Hg. split; [lia|]. by rewrite Hmod. }
  exists h3, ix'. split_and!; try done.
  - intros k Hk. apply Hsub, elem_of_app. by left.
  - intros k [Hk Hm]. destruct (decide (k = a)) as [->|Hne].
    + apply Hsub, elem_of_app. right. by left.
    + destruct (decide (k < a + s)) as [Hlt|Hge].
      * rewrite Z.mod_small in Hm by lia. lia.
      * apply Hcov. split; [lia|]. by rewrite <-Hmod.
Qed.

Lemma elem_text_no_comma e : ","%char ∉ elem_text e.
Proof.
  destruct e as [[a b] s]. unfold elem_text. rewrite not_elem_of_app. split; [by apply print_u_notin|].
  case_decide; [by intros ?%elem_of_nil|]. rewrite not_elem_of_cons, not_elem_of_app.
  split_and!; [done|by apply print_u_notin|]. case_decide; [by intros ?%elem_of_nil|].
  rewrite not_elem_of_cons. split; [done|by apply print_u_notin].
Qed.

Lemma elems_text_next e es :
  nexttoken (Some (elems_text (e :: es))) "," = match es with [] => None | _ => Some (elems_text es) end.
Proof.
  cbn [elems_text]. rewrite nexttoken_skip by apply elem_text_no_comma.
  destruct es as [|e' es]; [done|]. by apply (nexttoken_found "," [] (elems_text (e' :: es))), not_elem_of_nil.
Qed.

Lemma upd_lookup h p b0 ix g h' : upd h p b0 ix g h' → ∃ b', h' !! p = Some b' ∧ bm_size b' = bm_size b0.
Proof. intros (b' & -> & _ & Hs & _). exists b'. by rewrite lookup_insert_eq. Qed.

Lemma parselist_elems h p b0 g steps es : ∀ fuel ix h' e,
  Forall (wf_elem (bm_size b0)) (e :: es) → bm_size b0 ≤ INT_MAX → bm_size b0 ≤ Z.of_nat steps →
  (S (length es) ≤ fuel)%nat → upd h p b0 ix g h' →
  (∀ k e', e' ∈ e :: es → in_elem k e' → g k = true) →
  ∃ h'' ix', parselist_loop fuel steps h' p (Some (elems_text (e :: es))) = Done (true, h'') ∧
    upd h p b0 ix' g h'' ∧ (∀ k, k ∈ ix → k ∈ ix') ∧
    ∀ k e', e' ∈ e :: es → in_elem k e' → k ∈ ix'.
Proof.
  induction es as [|e2 es IH]; intros fuel ix h' [[a b] s] Hwf Hmax Hst Hf Hu Hg;
    (destruct fuel as [|fuel]; [simpl in Hf; lia|]);
    apply Forall_cons in Hwf as [He Hwf];
    pose proof He as (Ha & Hb & Hs & Hw);
    pose proof (λ es, parse_elem_text a b s es ltac:(clia) ltac:(clia) ltac:(clia)) as Hpe;
    destruct (upd_lookup _ _ _ _ _ _ Hu) as (b' & Hb' & Hs');
    (destruct (stride_upd h p b0 g b s Hs Hw steps a ix h') as (h2 & ix2 & Hstr & Hu2 & Hsub & Hcov);
      [lia|lia|done|intros k Hk; eapply Hg; [by left|done]|]);
    cbn [parselist_loop]; rewrite elems_text_next; cbn [elems_text]; rewrite Hpe, Hb';
    cbn [load mbind outcome_bind]; rewrite decide_False by lia; rewrite decide_False by lia;
    rewrite Hstr; cbn [mbind outcome_bind].
  - exists h2, ix2. split; [by destruct fuel|]. split_and!; try done.
    intros k e' [->|?%elem_of_nil]%elem_of_cons Hk; [by apply Hcov|done].
  - destruct (IH fuel ix2 h2 e2) as (h3 & ix3 & Hl & Hu3 & Hsub3 & Hcov3); try done; [simpl in Hf; lia| |].
    { intros k e' He' Hk. eapply Hg; [by right|done]. }
    exists h3, ix3. split; [exact Hl|]. split; [done|]. split; [auto|].
    intros k e' [->|He']%elem_of_cons Hk; [by apply Hsub3, Hcov|by eapply Hcov3].
Qed.

(** The parser gives a mask exactly the bits of the elements. *)
Lemma parselist_sets h p b steps e es :
  store_ok h → h !! p = Some b → bm_size b ≤ INT_MAX → bm_size b ≤ Z.of_nat steps →
  Forall (wf_elem (bm_size b)) (e :: es) →
  ∃ h', bitmask_parselist steps h (elems_text (e :: es)) p = Done (0, h') ∧
    (∀ q, q ≠ p → h' !! q = h !! q) ∧ is_Some (h' !! p) ∧
    ∀ k, 0 ≤ k → bit_at h' p k = true ↔ ∃ e', e' ∈ e :: es ∧ in_elem k e'.
Proof.
  intros Hok Hp Hmax Hst Hwf.
  destruct (clearall_sets h p b Hok Hp) as (h1 & b1 & Hcl & Hok1 & Hp1 & Hs1 & Hq1 & Hb1).
  unfold bitmask_parselist. rewrite Hcl. cbn [mbind outcome_bind].
  assert (∀ k, Decision (Exists (in_elem k) (e :: es))) as Hdec.
  { intros k. apply Exists_dec. intros [[x y] z]. unfold in_elem. apply _. }
  set (g := λ k, bool_decide (Exists (in_elem k) (e :: es))).
  assert (∀ l : list elem, (length l ≤ length (tail_text l))%nat) as Hlen.
  { induction l as [|e' l IH]; [done|]. unfold tail_text in *. rewrite fmap_cons. cbn [concat].
    rewrite length_app. simpl. lia. }
  destruct (parselist_elems h1 p b1 g steps es (S (length (elems_text (e :: es)))) [] h1 e)
    as (h2 & ix & -> & (b2 & -> & Hok2 & Hs2 & Hb2) & _ & Hcov).
  - by rewrite Hs1.
  - lia.
  - lia.
  - cbn [elems_text]. rewrite length_app. specialize (Hlen es). lia.
  - apply upd_nil; [done|by eapply Hok1].
  - intros k e' He' Hk. unfold g. rewrite bool_decide_true; [done|]. apply Exists_exists. eauto.
  - cbn [mbind outcome_bind finish fst snd]. eexists. split; [done|]. split_and!.
    + intros q Hq. rewrite lookup_insert_ne by done. by apply Hq1.
    + rewrite lookup_insert_eq. eauto.
    + intros k Hk. unfold bit_at. rewrite lookup_insert_eq, Hb2 by done. rewrite <-Exists_exists.
      case_decide as Hin; [unfold g; apply bool_decide_eq_true|]. rewrite Hb1 by done.
      split; [done|]. intros (e' & He' & Hke)%Exists_exists. destruct Hin. split; [by eapply Hcov|].
      rewrite Forall_forall in Hwf. pose proof (Hwf e' He') as Hwe.
      destruct e' as [[x y] z], Hwe as (? & ? & ?), Hke as [? _]. lia.
Qed.

(** ** Displaying the list format *)

Definition run (r : Z * Z) : elem := (r.1, r.2, 1).

(** The text grows by one element, with a comma unless it is the first. *)
Definition add_elem (t : list ascii) (e : elem) : list ascii :=
  t ++ (match t with [] => [] | _ => [","%char] end) ++ elem_text e.

Lemma foldl_add_elem t es : t ≠ [] → foldl add_elem t es = t ++ tail_text es.
Proof.
  revert t. induction es as [|e es IH]; intros t Ht; [by rewrite app_nil_r|]. simpl.
  rewrite IH by (unfold add_elem; by destruct t). unfold add_elem.
  destruct t as [|c t]; [done|]. by rewrite <-app_assoc.
Qed.

Lemma elem_text_nonempty e : elem_text e ≠ [].
Proof.
  destruct e as [[a b] s]. unfold elem_text. intros E%app_nil. by apply (print_base_nonempty 10 a), E.
Qed.

Lemma foldl_elems_text es : foldl add_elem [] es = elems_text es.
Proof. destruct es as [|e es]; [done|]. simpl. by rewrite foldl_add_elem by apply elem_text_nonempty. Qed.

Lemma emit_shows buflen a b t :
  0 ≤ a ≤ b → emit buflen a b (shows buflen t) = shows buflen (add_elem t (a, b, 1)).
Proof.
  intros Hab. unfold emit, add_elem, elem_text, print_d.
  rewrite !(decide_False (P := _ < 0)) by lia.
  assert ((if decide (0 < (shows buflen t).2) then snprintf_at buflen (shows buflen t) (chars ",")
           else shows buflen t) = shows buflen (t ++ match t with [] => [] | _ => [","%char] end)) as ->.
  { destruct t as [|c t]; [done|]. rewrite decide_True by (simpl; lia). apply snprintf_at_shows. }
  case_decide as E.
  - subst. rewrite decide_True by done. by rewrite app_nil_r, snprintf_at_shows, <-app_assoc.
  - rewrite (decide_False (P := _ ∧ _)) by naive_solver. rewrite (decide_True (P := 1 = 1)) by done.
    by rewrite app_nil_r, snprintf_at_shows, <-app_assoc.
Qed.

Lemma displaylist_loop_runs b :
  bm_ok b → bm_size b ≤ INT_MAX → ∀ fuel cur rbot,
  0 ≤ rbot ≤ cur → bm_size b - cur ≤ Z.of_nat fuel →
  (cur < bm_size b → ∀ k, rbot ≤ k ≤ cur → bm_bit b k = true) →
  (bm_size b ≤ cur → rbot = cur) →
  ∃ rs, (∀ buflen t, displaylist_loop fuel b buflen cur rbot (shows buflen t) =
                     Done (shows buflen (foldl add_elem t (run <$> rs)))) ∧
    Forall (wf_elem (bm_size b)) (run <$> rs) ∧
    ∀ k, (∃ r, r ∈ rs ∧ r.1 ≤ k ≤ r.2) ↔ rbot ≤ k ∧ bm_bit b k = true.
Proof.
  intros Hok Hmax. induction fuel as [|fuel IH]; intros cur rbot Hr Hf Hset Hend.
  all: destruct (decide (cur < bm_size b)) as [Hlt|Hge].
  1: lia.
  1, 3: exists []; split; [intros; simpl; by rewrite decide_False by lia|]; split; [by apply Forall_nil|];
    intros k; split; [by intros (? & ?%elem_of_nil & _)|];
    intros [Hk Hb]; specialize (Hend ltac:(lia)); by rewrite bm_outside in Hb by (done || lia).
  destruct (next_spec b (cur + 1) Hok) as (n & Hn & Hle & Hor & Hno); [lia|].
  destruct (decide (bm_size b ≤ n ∨ cur + 1 < n)) as [Hbreak|Hcont].
  - destruct (IH n n) as (rs & Hloop & Hwf & Hrs); [lia|lia| |done|].
    { intros Hns k Hk. replace k with n by lia. destruct Hor as [[_ ?]|?]; [done|lia]. }
    exists ((rbot, cur) :: rs). split; [|split].
    + intros buflen t. simpl. rewrite decide_True by done. rewrite u32_small by clia.
      rewrite Hn. cbn [mbind outcome_bind]. rewrite decide_True by done.
      rewrite !wrap32_small by clia. rewrite emit_shows by lia. apply Hloop.
    + constructor; [|done]. simpl. clia.
    + intros k. split.
      * intros (r & [->|Hin]%elem_of_cons & Hk); simpl in Hk.
        -- split; [lia|]. by apply Hset.
        -- destruct (proj1 (Hrs k)) as [? ?]; [eauto|]. split; [lia|done].
      * intros [Hk Hb]. destruct (decide (k ≤ cur)) as [Hkc|Hkc].
        -- exists (rbot, cur). split; [by left|]. simpl. lia.
        -- destruct (decide (k < n)); [by rewrite Hno in Hb by lia|].
           destruct (proj2 (Hrs k)) as (r & ? & ?); [split; [lia|done]|].
           exists r. split; [by right|done].
  - destruct (IH n rbot) as (rs & Hloop & Hwf & Hrs); [lia|lia| |lia|].
    { intros Hns k Hk. assert (n = cur + 1) as -> by lia.
      destruct (decide (k = cur + 1)) as [->|]; [|apply Hset; lia]. destruct Hor as [[_ ?]|?]; [done|lia]. }
    exists rs. split; [|done].
    intros buflen t. simpl. rewrite decide_True by done. rewrite u32_small by clia.
    rewrite Hn. cbn [mbind outcome_bind]. rewrite decide_False by done. apply Hloop.
Qed.

Lemma displaylist_text b :
  bm_ok b → bm_size b ≤ INT_MAX →
  ∃ rs, (∀ buflen, bitmask_displaylist buflen b = Done (shows buflen (elems_text (run <$> rs)))) ∧
    Forall (wf_elem (bm_size b)) (run <$> rs) ∧
    ∀ k, 0 ≤ k → (∃ r, r ∈ rs ∧ r.1 ≤ k ≤ r.2) ↔ bm_bit b k = true.
Proof.
  intros Hok Hmax. unfold bitmask_displaylist, bitmask_first.
  destruct (next_spec b 0 Hok) as (n & Hn & Hle & Hor & Hno); [lia|].
  destruct (displaylist_loop_runs b Hok Hmax (Z.to_nat (bm_size b)) n n)
    as (rs & Hloop & Hwf & Hrs); [lia|lia| |done|].
  { intros Hns k Hk. replace k with n by lia. destruct Hor as [[_ ?]|?]; [done|lia]. }
  exists rs. split; [|split; [done|]].
  - intros buflen. rewrite Hn. cbn [mbind outcome_bind]. rewrite <-(shows_nil buflen), Hloop.
    by rewrite foldl_elems_text.
  - intros k Hk. rewrite Hrs. split; [by intros [_ ?]|]. intros Hb. split; [|done].
    destruct (decide (n ≤ k)); [done|]. by rewrite Hno in Hb by lia.
Qed.

Lemma displaylist_reads_back h p b b0 steps rs :
  store_ok h → h !! p = Some b0 → bm_ok b → bm_size b0 = bm_size b → bm_size b ≤ INT_MAX →
  bm_size b ≤ Z.of_nat steps → rs ≠ [] → Forall (wf_elem (bm_size b)) (run <$> rs) →
  (∀ k, 0 ≤ k → (∃ r, r ∈ rs ∧ r.1 ≤ k ≤ r.2) ↔ bm_bit b k = true) →
  reads_back h p b (bitmask_parselist steps h (elems_text (run <$> rs)) p).
Proof.
  intros Hok Hp Hokb Hs Hmax Hst Hne Hwf Hrs. destruct rs as [|r rs]; [done|]. rewrite fmap_cons in *.
  destruct (parselist_sets h p b0 steps (run r) (run <$> rs)) as (h' & Hr & Hq & Hsome & Hb);
    [done..|lia|lia|by rewrite Hs|].
  exists h'. split_and!; try done. intros k Hk.
  apply Bool.eq_iff_eq_true. rewrite Hb, <-Hrs by done. rewrite <-fmap_cons. split.
  - intros (e & (r' & -> & Hr')%list_elem_of_fmap & Hin & _). eauto.
  - intros (r' & Hr' & Hin). exists (run r'). split; [by apply list_elem_of_fmap_2|].
    split; [done|]. simpl. apply Z.mod_1_r.
Qed.

(** ** Strides *)

(** A stride of zero never leaves the inner loop. *)
Lemma stride_zero h p a b fuel :
  store_ok h → is_Some (h !! p) → 0 ≤ a ≤ b → is_u32 a → stride_loop fuel h p a b 0 = Timeout.
Proof.
  revert h. induction fuel as [|fuel IH]; intros h Hok [b0 Hp] Hab Hu; simpl; rewrite decide_True by lia; [done|].
  unfold set_at. rewrite Hp. cbn [load mbind outcome_bind].
  destruct (bm_set b0 a 1 (Hok _ _ Hp)) as (b' & -> & Hok' & _); [lia|]. cbn [mbind outcome_bind].
  rewrite Z.add_0_r, u32_small by done. apply IH; [|by rewrite lookup_insert_eq|done|done].
  intros q bq. destruct (decide (q = p)) as [->|Hne].
  - rewrite lookup_insert_eq. by intros [= <-].
  - rewrite lookup_insert_ne by done. apply Hok.
Qed.
End text.

(** * Properties *)

(** C21: for a mask of up to INT_MAX bits, not all of size zero, bitmask_displayhex()
    writes one text, cut off at the size of the buffer, and returns its full length;
    bitmask_parsehex() of that text gives any mask of the same size exactly the bits
    of the displayed one. *)
Theorem displayhex_parsehex (b : bitmask) :
  bitmask_wf b → 0 < size b ≤ INT_MAX →
  ∃ text,
    (∀ buflen, 1 ≤ buflen →
       bitmask_displayhex buflen b = Done (take (Z.to_nat (buflen - 1)) text, Z.of_nat (length text))) ∧
    ∀ (h : gmap nat bitmask) p b0, store_ok h → h !! p = Some b0 → size b0 = size b →
      reads_back h p b (bitmask_parsehex h text p).
Proof.
  intros Hwf Hs. destruct (displayhex_text (H := bitmask_layout) b Hwf Hs) as (n & ws & Hws & Hn & Hd).
  exists (words_text ws). split; [exact Hd|]. intros h p b0 Hok Hp Hs0.
  by eapply parsehex_reads_back.
Qed.

Definition ex_mask : bitmask := Bitmask 70 [9223372036854775813; 33].

Lemma ex_mask_wf : bitmask_wf ex_mask.
Proof. split; [by split | done |]. by repeat (constructor; [by split |]). Qed.

Lemma displayhex_parsehex_witness :
  ∃ text, bitmask_displayhex 100 ex_mask = Done (text, 26) ∧
    reads_back {[0%nat := Bitmask 70 [0; 0]]} 0 ex_mask
      (bitmask_parsehex {[0%nat := Bitmask 70 [0; 0]]} text 0).
Proof.
  destruct (displayhex_parsehex ex_mask ex_mask_wf) as (text & Hd & Hp); [by split |].
  pose proof (Hd 100 ltac:(lia)) as Hd100.
  assert (take (Z.to_nat (100 - 1)) text = text ∧ Z.of_nat (length text) = 26) as [Ht Hl].
  { assert (Z.of_nat (length text) = 26) as Hl.
    { assert (snd <$> bitmask_displayhex 100 ex_mask = Done 26) as E by (by vm_compute).
      rewrite Hd100 in E. by injection E. }
    split; [apply take_ge; lia | done]. }
  exists text. rewrite Hd100, Ht, Hl. split; [done |]. apply (Hp _ _ (Bitmask 70 [0; 0])); [| done | done].
  intros q bq Hq. apply lookup_singleton_Some in Hq as [_ <-].
  split; [by split | done |]. by repeat (constructor; [by split |]).
Defined.

(** bitmask_parselist() of a list of elements a, a-b and a-b:s, whose ends lie
    in the mask and whose strides are positive and do not wrap around, ends and
    leaves exactly the bits of the elements set. *)
Theorem parselist_elements (h : gmap nat bitmask) p b steps (e : elem) (es : list elem) :
  store_ok h → h !! p = Some b → size b ≤ INT_MAX → size b ≤ Z.of_nat steps →
  Forall (wf_elem (size b)) (e :: es) →
  ∃ h', bitmask_parselist steps h (elems_text (e :: es)) p = Done (0, h') ∧
    (∀ q, q ≠ p → h' !! q = h !! q) ∧ is_Some (h' !! p) ∧
    ∀ k, 0 ≤ k → bit_at h' p k = true ↔ ∃ e', e' ∈ e :: es ∧ in_elem k e'.
Proof. intros Hok Hp Hs Hst Hwf. exact (parselist_sets (H := bitmask_layout) h p b steps e es Hok Hp Hs Hst Hwf). Qed.

Definition ex_store : gmap nat bitmask := {[0%nat := ex_mask]}.

Lemma ex_store_ok : store_ok ex_store.
Proof. intros q bq Hq. unfold ex_store in Hq. apply lookup_singleton_Some in Hq as [_ <-]. exact ex_mask_wf. Qed.

Lemma parselist_elements_witness :
  ∃ h', bitmask_parselist 70 ex_store (chars "0-3:2,8,60-69") 0 = Done (0, h') ∧
        bit_at h' 0 2 = true.
Proof.
  destruct (parselist_elements ex_store 0 ex_mask 70 (0, 3, 2) [(8, 8, 1); (60, 69, 1)])
    as (h' & H1 & _ & _ & H2); [exact ex_store_ok | done | done | done | |].
  { repeat (apply Forall_cons; split); [.. | by constructor]; split_and!; by vm_compute. }
  assert (elems_text [(0, 3, 2); (8, 8, 1); (60, 69, 1)] = chars "0-3:2,8,60-69") as E by (by vm_compute).
  rewrite E in H1. exists h'. split; [exact H1 |]. apply H2; [lia |]. exists (0, 3, 2).
  split; [by left |]. clear. split; [lia | reflexivity].
Defined.

(** C22: the list format reads back: for a mask with at least one bit set the text
    of bitmask_displaylist(), which is cut off at the size of the buffer, makes
    bitmask_parselist() reproduce the mask. *)
Theorem displaylist_parselist (b : bitmask) :
  bitmask_wf b → size b ≤ INT_MAX → (∃ k, 0 ≤ k ∧ bitmask_bit b k = true) →
  ∃ text,
    (∀ buflen, bitmask_displaylist buflen b =
               Done (take (Z.to_nat (buflen - 1)) text, Z.of_nat (length text))) ∧
    ∀ (h : gmap nat bitmask) p b0 steps,
      store_ok h → h !! p = Some b0 → size b0 = size b → size b ≤ Z.of_nat steps →
      reads_back h p b (bitmask_parselist steps h text p).
Proof.
  intros Hwf Hs (k & Hk & Hb). destruct (displaylist_text (H := bitmask_layout) b Hwf Hs) as (rs & Hd & Hrs & Hbits).
  exists (elems_text (run <$> rs)). split; [exact Hd|]. intros h p b0 steps Hok Hp Hs0 Hst.
  eapply displaylist_reads_back; try done.
  intros ->. destruct (proj2 (Hbits k Hk) Hb) as (r & ?%elem_of_nil & _). done.
Qed.

Lemma displaylist_parselist_witness :
  ∃ text, bitmask_displaylist 4 ex_mask = Done (take 3 text, 12) ∧
    reads_back ex_store 0 ex_mask (bitmask_parselist 70 ex_store text 0).
Proof.
  destruct (displaylist_parselist ex_mask ex_mask_wf) as (text & Hd & Hp); [done | by exists 0 |].
  exists text. split.
  - pose proof (Hd 4) as H4.
    assert (snd <$> bitmask_displaylist 4 ex_mask = Done 12) as E by (by vm_compute).
    rewrite H4 in E. rewrite H4. injection E as ->. done.
  - apply (Hp _ _ ex_mask); [exact ex_store_ok | done | done | done].
Defined.

(** an element whose stride is 0 keeps bitmask_parselist() in its inner loop
    for ever: no number of rounds is enough. *)
Theorem parselist_stride_zero (h : gmap nat bitmask) p b steps a c :
  store_ok h → h !! p = Some b → 0 ≤ a ≤ c → c < size b → size b ≤ INT_MAX →
  bitmask_parselist steps h (print_u a ++ chars "-" ++ print_u c ++ chars ":0") p = Timeout.
Proof.
  intros Hok Hp Ha Hc Hs.
  destruct (clearall_sets h p b Hok Hp) as (h1 & b1 & Hcl & Hok1 & Hp1 & Hs1 & _).
  unfold bitmask_parselist. rewrite Hcl. cbn [mbind outcome_bind parselist_loop].
  assert (print_u a ++ chars "-" ++ print_u c ++ chars ":0" = elem_text (a, c, 0) ++ tail_text []) as ->.
  { unfold elem_text, tail_text. rewrite (decide_False (P := _ ∧ _)), decide_False by naive_solver.
    cbn [fmap list_fmap concat]. by rewrite app_nil_r. }
  rewrite parse_elem_text by clia. rewrite Hp1. cbn [load mbind outcome_bind].
  rewrite decide_False by lia. rewrite decide_False by (change (bm_size b1) with (size b1) in *;
    change (bm_size b) with (size b) in *; lia).
  rewrite stride_zero; [done | done | by eexists | done | clia].
Qed.

Lemma parselist_stride_zero_witness :
  bitmask_parselist 1000 ex_store (chars "0-3:0") 0 = Timeout.
Proof.
  assert (chars "0-3:0" = print_u 0 ++ chars "-" ++ print_u 3 ++ chars ":0") as -> by (by vm_compute).
  apply (parselist_stride_zero ex_store 0 ex_mask 1000 0 3 ex_store_ok); [done | lia | done | done].
Defined.
