(* ===== verification/Timer.v ===== *)
(** * Time arithmetic (src/include/tst_timer.h)

    Conversions between time stamps and numbers of nano-, micro- and milliseconds,
    and the sum, the difference and the comparison of time stamps.  The members of
    the unions are pairs of 64-bit integers on LP64, so a [tst_ts] is a tag with
    one pair; long long arithmetic that overflows is a [Fault].  The theorems
    interpret a time stamp as its number of nanoseconds. *)
From stdpp Require Import base strings numbers option list.
From S2P Require Import Prelude CInt.

#[local] Open Scope Z_scope.


(** ** Data *)

Record timespec := Timespec { tv_sec : Z; tv_nsec : Z }.
Record timeval := Timeval { tval_sec : Z; tv_usec : Z }.

Inductive tst_ts_type := TST_LIBC_TIMESPEC | TST_KERN_OLD_TIMESPEC | TST_KERN_TIMESPEC.

Record tst_ts := Ts { ts_type : tst_ts_type; ts_ts : timespec }.

Record itimerspec := Itimerspec { it_interval : timespec; it_value : timespec }.
Record tst_its := Its { its_type : tst_ts_type; its_ts : itimerspec }.

#[export] Instance timespec_eq_dec : EqDecision timespec.
Proof. solve_decision. Defined.
#[export] Instance tst_ts_type_eq_dec : EqDecision tst_ts_type.
Proof. solve_decision. Defined.
#[export] Instance tst_ts_eq_dec : EqDecision tst_ts.
Proof. solve_decision. Defined.

(** ** struct timeval *)

Definition tst_timeval_to_us (t : timeval) : outcome Z :=
  s ← i64 (tval_sec t * 1000000); i64 (s + tv_usec t).

Definition tst_timeval_to_ms (t : timeval) : outcome Z :=
  s ← i64 (tval_sec t * 1000);
  u ← i64 (tv_usec t + 500);
  i64 (s + Z.quot u 1000).

Definition tst_ms_to_timeval (ms : Z) : timeval :=
  Timeval (Z.quot ms 1000) (Z.rem ms 1000 * 1000).

Definition tst_us_to_timeval (us : Z) : timeval :=
  Timeval (Z.quot us 1000000) (Z.rem us 1000000).

Definition tst_timeval_diff (t1 t2 : timeval) : outcome timeval :=
  sec ← i64 (tval_sec t1 - tval_sec t2);
  if decide (tv_usec t1 < tv_usec t2) then
    sec ← i64 (sec - 1);
    d ← i64 (tv_usec t2 - tv_usec t1);
    u ← i64 (1000000 - d);
    Done (Timeval sec u)
  else
    u ← i64 (tv_usec t1 - tv_usec t2);
    Done (Timeval sec u).

Definition tst_timeval_diff_us (t1 t2 : timeval) : outcome Z :=
  d ← tst_timeval_diff t1 t2; tst_timeval_to_us d.

Definition tst_timeval_diff_ms (t1 t2 : timeval) : outcome Z :=
  d ← tst_timeval_diff t1 t2; tst_timeval_to_ms d.

(** ** Accessors of struct tst_ts and struct tst_its *)

Definition tst_ts_get_sec (t : tst_ts) : Z :=
  match ts_type t with
  | TST_LIBC_TIMESPEC | TST_KERN_OLD_TIMESPEC | TST_KERN_TIMESPEC => tv_sec (ts_ts t)
  end.

Definition tst_ts_get_nsec (t : tst_ts) : Z :=
  match ts_type t with
  | TST_LIBC_TIMESPEC | TST_KERN_OLD_TIMESPEC | TST_KERN_TIMESPEC => tv_nsec (ts_ts t)
  end.

Definition tst_ts_set_sec (t : tst_ts) (sec : Z) : tst_ts :=
  match ts_type t with
  | TST_LIBC_TIMESPEC | TST_KERN_OLD_TIMESPEC | TST_KERN_TIMESPEC =>
      Ts (ts_type t) (Timespec sec (tv_nsec (ts_ts t)))
  end.

Definition tst_ts_set_nsec (t : tst_ts) (nsec : Z) : tst_ts :=
  match ts_type t with
  | TST_LIBC_TIMESPEC | TST_KERN_OLD_TIMESPEC | TST_KERN_TIMESPEC =>
      Ts (ts_type t) (Timespec (tv_sec (ts_ts t)) nsec)
  end.

(** struct tst_its has no libc member: that tag ends the test. *)
Definition its_get (f : itimerspec → Z) (its : tst_its) : result Z :=
  match its_type its with
  | TST_KERN_OLD_TIMESPEC | TST_KERN_TIMESPEC => Ret (f (its_ts its))
  | TST_LIBC_TIMESPEC => Brk TBROK "Invalid type"%string
  end.

Definition its_set (f : itimerspec → itimerspec) (its : tst_its) : result tst_its :=
  match its_type its with
  | TST_KERN_OLD_TIMESPEC | TST_KERN_TIMESPEC => Ret (Its (its_type its) (f (its_ts its)))
  | TST_LIBC_TIMESPEC => Brk TBROK "Invalid type"%string
  end.

Definition tst_its_get_interval_sec := its_get (λ t, tv_sec (it_interval t)).
Definition tst_its_get_interval_nsec := its_get (λ t, tv_nsec (it_interval t)).
Definition tst_its_get_value_sec := its_get (λ t, tv_sec (it_value t)).
Definition tst_its_get_value_nsec := its_get (λ t, tv_nsec (it_value t)).

Definition tst_its_set_interval_sec (its : tst_its) (sec : Z) : result tst_its :=
  its_set (λ t, Itimerspec (Timespec sec (tv_nsec (it_interval t))) (it_value t)) its.
Definition tst_its_set_interval_nsec (its : tst_its) (nsec : Z) : result tst_its :=
  its_set (λ t, Itimerspec (Timespec (tv_sec (it_interval t)) nsec) (it_value t)) its.
Definition tst_its_set_value_sec (its : tst_its) (sec : Z) : result tst_its :=
  its_set (λ t, Itimerspec (it_interval t) (Timespec sec (tv_nsec (it_value t)))) its.
Definition tst_its_set_value_nsec (its : tst_its) (nsec : Z) : result tst_its :=
  its_set (λ t, Itimerspec (it_interval t) (Timespec (tv_sec (it_value t)) nsec)) its.

Definition tst_ts_valid (t : tst_ts) : Z :=
  let nsec := tst_ts_get_nsec t in
  if decide (nsec < 0 ∨ 1000000000 ≤ nsec) then -2
  else if decide (tst_ts_get_sec t = 0 ∧ tst_ts_get_nsec t = 0) then -1
  else 0.

(** ** Conversions *)

Definition tst_ts_from_timespec (ts : timespec) : tst_ts :=
  Ts TST_LIBC_TIMESPEC (Timespec (tv_sec ts) (tv_nsec ts)).

Definition tst_ts_to_timespec (t : tst_ts) : timespec := ts_ts t.

Definition tst_ts_to_ns (t : tst_ts) : outcome Z :=
  s ← i64 (tst_ts_get_sec t * 1000000000); i64 (s + tst_ts_get_nsec t).

Definition tst_ts_to_us (t : tst_ts) : outcome Z :=
  s ← i64 (tst_ts_get_sec t * 1000000);
  n ← i64 (tst_ts_get_nsec t + 500);
  i64 (s + Z.quot n 1000).

Definition tst_timespec_to_us (ts : timespec) : outcome Z :=
  tst_ts_to_us (tst_ts_from_timespec ts).

Definition tst_ts_to_ms (t : tst_ts) : outcome Z :=
  s ← i64 (tst_ts_get_sec t * 1000);
  n ← i64 (tst_ts_get_nsec t + 500000);
  i64 (s + Z.quot n 1000000).

Definition tst_timespec_to_ms (ts : timespec) : outcome Z :=
  tst_ts_to_ms (tst_ts_from_timespec ts).

(** [struct tst_ts ret = {.type = type}] clears the time stamp. *)
Definition zero_ts (type : tst_ts_type) : tst_ts := Ts type (Timespec 0 0).

Definition tst_ts_from_ns (type : tst_ts_type) (ns : Z) : tst_ts :=
  tst_ts_set_nsec (tst_ts_set_sec (zero_ts type) (Z.quot ns 1000000000)) (Z.rem ns 1000000000).

Definition tst_ts_from_us (type : tst_ts_type) (us : Z) : tst_ts :=
  tst_ts_set_nsec (tst_ts_set_sec (zero_ts type) (Z.quot us 1000000)) (Z.rem us 1000000 * 1000).

Definition tst_timespec_from_us (us : Z) : timespec :=
  tst_ts_to_timespec (tst_ts_from_us TST_LIBC_TIMESPEC us).

Definition tst_ts_from_ms (type : tst_ts_type) (ms : Z) : tst_ts :=
  tst_ts_set_nsec (tst_ts_set_sec (zero_ts type) (Z.quot ms 1000)) (Z.rem ms 1000 * 1000000).

Definition tst_timespec_from_ms (ms : Z) : timespec :=
  tst_ts_to_timespec (tst_ts_from_ms TST_LIBC_TIMESPEC ms).

Definition result_bind {A B} (m : result A) (f : A → result B) : result B :=
  match m with Ret a => f a | Brk t msg => Brk t msg end.

Definition tst_its_set_interval_from_us (its : tst_its) (usec : Z) : result tst_its :=
  let tp := tst_timespec_from_us usec in
  result_bind (tst_its_set_interval_sec its (tv_sec tp)) (λ its, tst_its_set_interval_nsec its (tv_nsec tp)).

Definition tst_its_set_value_from_us (its : tst_its) (usec : Z) : result tst_its :=
  let tp := tst_timespec_from_us usec in
  result_bind (tst_its_set_value_sec its (tv_sec tp)) (λ its, tst_its_set_value_nsec its (tv_nsec tp)).

Definition tst_its_set_interval_from_ts (its : tst_its) (ts : tst_ts) : result tst_its :=
  result_bind (tst_its_set_interval_sec its (tst_ts_get_sec ts))
    (λ its, tst_its_set_interval_nsec its (tst_ts_get_nsec ts)).

Definition tst_its_set_value_from_ts (its : tst_its) (ts : tst_ts) : result tst_its :=
  result_bind (tst_its_set_value_sec its (tst_ts_get_sec ts))
    (λ its, tst_its_set_value_nsec its (tst_ts_get_nsec ts)).

(** ** Comparison and arithmetic *)

Definition tst_ts_lt (t1 t2 : tst_ts) : bool :=
  if decide (tst_ts_get_sec t1 = tst_ts_get_sec t2)
  then bool_decide (tst_ts_get_nsec t1 < tst_ts_get_nsec t2)
  else bool_decide (tst_ts_get_sec t1 < tst_ts_get_sec t2).

Definition tst_timespec_lt (ts1 ts2 : timespec) : bool :=
  tst_ts_lt (tst_ts_from_timespec ts1) (tst_ts_from_timespec ts2).

Definition tst_ts_normalize (t : tst_ts) : outcome tst_ts :=
  let sec := tst_ts_get_sec t in
  let nsec := tst_ts_get_nsec t in
  t ← (if decide (1000000000 ≤ nsec) then
         s ← i64 (sec + 1); Done (tst_ts_set_nsec (tst_ts_set_sec t s) (nsec - 1000000000))
       else Done t);
  if decide (nsec < 0) then
    s ← i64 (sec - 1); Done (tst_ts_set_nsec (tst_ts_set_sec t s) (nsec + 1000000000))
  else Done t.

Definition tst_ts_add_us (t : tst_ts) (us : Z) : outcome tst_ts :=
  s ← i64 (tst_ts_get_sec t + Z.quot us 1000000);
  n ← i64 (tst_ts_get_nsec t + Z.rem us 1000000 * 1000);
  tst_ts_normalize (tst_ts_set_nsec (tst_ts_set_sec (zero_ts (ts_type t)) s) n).

Definition tst_timespec_add_us (ts : timespec) (us : Z) : outcome timespec :=
  tst_ts_to_timespec <$> tst_ts_add_us (tst_ts_from_timespec ts) us.

Definition tst_ts_sub_us (t : tst_ts) (us : Z) : outcome tst_ts :=
  s ← i64 (tst_ts_get_sec t - Z.quot us 1000000);
  n ← i64 (tst_ts_get_nsec t - Z.rem us 1000000 * 1000);
  tst_ts_normalize (tst_ts_set_nsec (tst_ts_set_sec (zero_ts (ts_type t)) s) n).

Definition tst_timespec_sub_us (ts : timespec) (us : Z) : outcome timespec :=
  tst_ts_to_timespec <$> tst_ts_sub_us (tst_ts_from_timespec ts) us.

Definition tst_ts_add (t1 t2 : tst_ts) : outcome tst_ts :=
  s ← i64 (tst_ts_get_sec t1 + tst_ts_get_sec t2);
  n ← i64 (tst_ts_get_nsec t1 + tst_ts_get_nsec t2);
  tst_ts_normalize (tst_ts_set_nsec (tst_ts_set_sec (zero_ts (ts_type t1)) s) n).

Definition tst_timespec_add (ts1 ts2 : timespec) : outcome timespec :=
  tst_ts_to_timespec <$> tst_ts_add (tst_ts_from_timespec ts1) (tst_ts_from_timespec ts2).

Definition tst_ts_diff (t1 t2 : tst_ts) : outcome tst_ts :=
  s ← i64 (tst_ts_get_sec t1 - tst_ts_get_sec t2);
  n ← i64 (tst_ts_get_nsec t1 - tst_ts_get_nsec t2);
  tst_ts_normalize (tst_ts_set_nsec (tst_ts_set_sec (zero_ts (ts_type t1)) s) n).

Definition tst_timespec_diff (ts1 ts2 : timespec) : outcome timespec :=
  tst_ts_to_timespec <$> tst_ts_diff (tst_ts_from_timespec ts1) (tst_ts_from_timespec ts2).

Definition tst_ts_diff_ns (t1 t2 : tst_ts) : outcome Z := d ← tst_ts_diff t1 t2; tst_ts_to_ns d.

Definition tst_timespec_diff_ns (ts1 ts2 : timespec) : outcome Z :=
  tst_ts_diff_ns (tst_ts_from_timespec ts1) (tst_ts_from_timespec ts2).

Definition tst_ts_diff_us (t1 t2 : tst_ts) : outcome Z := d ← tst_ts_diff t1 t2; tst_ts_to_us d.

Definition tst_timespec_diff_us (ts1 ts2 : timespec) : outcome Z :=
  tst_ts_diff_us (tst_ts_from_timespec ts1) (tst_ts_from_timespec ts2).

Definition tst_ts_diff_ms (t1 t2 : tst_ts) : outcome Z := d ← tst_ts_diff t1 t2; tst_ts_to_ms d.

Definition tst_timespec_diff_ms (ts1 ts2 : timespec) : outcome Z :=
  tst_ts_diff_ms (tst_ts_from_timespec ts1) (tst_ts_from_timespec ts2).

Definition tst_ts_abs_diff (t1 t2 : tst_ts) : outcome tst_ts :=
  if tst_ts_lt t1 t2 then tst_ts_diff t2 t1 else tst_ts_diff t1 t2.

Definition tst_ts_abs_diff_us (t1 t2 : tst_ts) : outcome Z :=
  d ← tst_ts_abs_diff t1 t2; tst_ts_to_us d.

Definition tst_timespec_abs_diff_us (ts1 ts2 : timespec) : outcome Z :=
  tst_ts_abs_diff_us (tst_ts_from_timespec ts1) (tst_ts_from_timespec ts2).

Definition tst_ts_abs_diff_ms (t1 t2 : tst_ts) : outcome Z :=
  d ← tst_ts_abs_diff t1 t2; tst_ts_to_ms d.

(** ** Time stamps as numbers of nanoseconds *)

Definition ns (t : timespec) : Z := tv_sec t * 1000000000 + tv_nsec t.
Definition ts_ns (t : tst_ts) : Z := ns (ts_ts t).
Definition normalized (t : timespec) : Prop := 0 ≤ tv_nsec t < 1000000000.

(** The seconds leave room for a sum (about 73 billion years). *)
Definition small (t : timespec) : Prop := -2305843009213693952 ≤ tv_sec t ≤ 2305843009213693952.

(** The seconds leave room for the count in nanoseconds (about 285 years). *)
Definition short (t : timespec) : Prop := -9000000000 ≤ tv_sec t ≤ 9000000000.

(** The computation succeeds with the normalized time stamp of [n] nanoseconds. *)
Definition yields (m : outcome tst_ts) (type : tst_ts_type) (n : Z) : Prop :=
  ∃ r, m = Done r ∧ ts_type r = type ∧ normalized (ts_ts r) ∧ ts_ns r = n.

#[export] Instance normalized_dec t : Decision (normalized t).
Proof. unfold normalized. apply _. Defined.
#[export] Instance small_dec t : Decision (small t).
Proof. unfold small. apply _. Defined.
#[export] Instance short_dec t : Decision (short t).
Proof. unfold short. apply _. Defined.

Lemma get_sec_ts t : tst_ts_get_sec t = tv_sec (ts_ts t).
Proof. by destruct t as [[] ?]. Qed.
Lemma get_nsec_ts t : tst_ts_get_nsec t = tv_nsec (ts_ts t).
Proof. by destruct t as [[] ?]. Qed.
Lemma set_both_ts t s n : tst_ts_set_nsec (tst_ts_set_sec t s) n = Ts (ts_type t) (Timespec s n).
Proof. by destruct t as [[] ?]. Qed.

Create HintDb timer discriminated.
#[export] Hint Rewrite get_sec_ts get_nsec_ts set_both_ts : timer.

(** Time stamps compared by their fields. *)
Ltac timer_unfold :=
  autorewrite with timer in *; unfold ts_ns, ns, normalized, small, short in *; cbn [tv_sec tv_nsec ts_ts ts_type zero_ts] in *.

Ltac qrun := repeat (rewrite i64_ok by qlia; cbn [mbind outcome_bind]).

Lemma normalize_yields type s n :
  LONG_MIN < s < LONG_MAX → -1000000000 ≤ n < 2000000000 →
  yields (tst_ts_normalize (Ts type (Timespec s n))) type (s * 1000000000 + n).
Proof.
  intros Hs Hn. unfold yields, tst_ts_normalize. timer_unfold.
  destruct (decide (1000000000 ≤ n)), (decide (n < 0)); try lia; crun; timer_unfold;
    (eexists; split; [reflexivity|]); timer_unfold; repeat split; lia.
Qed.

Lemma yields_eq m type n n' : yields m type n → n = n' → yields m type n'.
Proof. by intros ? <-. Qed.

Lemma ts_add_yields t1 t2 :
  normalized (ts_ts t1) → normalized (ts_ts t2) → small (ts_ts t1) → small (ts_ts t2) →
  yields (tst_ts_add t1 t2) (ts_type t1) (ts_ns t1 + ts_ns t2).
Proof.
  intros. unfold tst_ts_add. timer_unfold. crun. timer_unfold.
  eapply yields_eq; [apply normalize_yields; clia|lia].
Qed.

Lemma ts_diff_yields t1 t2 :
  normalized (ts_ts t1) → normalized (ts_ts t2) → small (ts_ts t1) → small (ts_ts t2) →
  yields (tst_ts_diff t1 t2) (ts_type t1) (ts_ns t1 - ts_ns t2).
Proof.
  intros. unfold tst_ts_diff. timer_unfold. crun. timer_unfold.
  eapply yields_eq; [apply normalize_yields; clia|lia].
Qed.

Lemma ts_lt_ns t1 t2 :
  normalized (ts_ts t1) → normalized (ts_ts t2) →
  tst_ts_lt t1 t2 = bool_decide (ts_ns t1 < ts_ns t2).
Proof.
  intros. unfold tst_ts_lt. timer_unfold. case_decide; apply bool_decide_ext; lia.
Qed.

(** Sums, differences and comparisons of normalized time stamps are those of
    their nanoseconds, the results are normalized, and adding or subtracting
    microseconds, negative ones included, moves the time stamp by that amount. *)
Theorem ts_arithmetic t1 t2 us :
  normalized (ts_ts t1) → normalized (ts_ts t2) → small (ts_ts t1) → small (ts_ts t2) → is_i64 us →
  yields (tst_ts_add t1 t2) (ts_type t1) (ts_ns t1 + ts_ns t2) ∧
  yields (tst_ts_diff t1 t2) (ts_type t1) (ts_ns t1 - ts_ns t2) ∧
  yields (tst_ts_add_us t1 us) (ts_type t1) (ts_ns t1 + us * 1000) ∧
  yields (tst_ts_sub_us t1 us) (ts_type t1) (ts_ns t1 - us * 1000) ∧
  yields (tst_ts_abs_diff t1 t2) (ts_type (if tst_ts_lt t1 t2 then t2 else t1)) (Z.abs (ts_ns t1 - ts_ns t2)) ∧
  tst_ts_lt t1 t2 = bool_decide (ts_ns t1 < ts_ns t2).
Proof.
  intros N1 N2 S1 S2 Hus. pose proof (ts_lt_ns t1 t2 N1 N2) as Hlt.
  split_and!; [by apply ts_add_yields|by apply ts_diff_yields| | | |done].
  - unfold tst_ts_add_us. timer_unfold. qrun. timer_unfold.
    eapply yields_eq; [apply normalize_yields; qlia|qlia].
  - unfold tst_ts_sub_us. timer_unfold. qrun. timer_unfold.
    eapply yields_eq; [apply normalize_yields; qlia|qlia].
  - unfold tst_ts_abs_diff. rewrite Hlt. case_bool_decide; cbn.
    + rewrite Z.abs_neq, Z.opp_sub_distr, Z.add_comm by lia. by apply ts_diff_yields.
    + rewrite Z.abs_eq by lia. by apply ts_diff_yields.
Qed.

Lemma ts_arithmetic_witness :
  let t1 := Ts TST_KERN_TIMESPEC (Timespec 5 100) in
  let t2 := Ts TST_KERN_TIMESPEC (Timespec 7 999999999) in
  yields (tst_ts_diff t1 t2) TST_KERN_TIMESPEC (-2999999899) ∧
  tst_ts_diff t1 t2 = Done (Ts TST_KERN_TIMESPEC (Timespec (-3) 101)%Z).
Proof.
  split; [|by vm_compute].
  pose proof (ts_arithmetic (Ts TST_KERN_TIMESPEC (Timespec 5 100))
    (Ts TST_KERN_TIMESPEC (Timespec 7 999999999)) (-1)) as H.
  destruct H as (_ & H & _); try by_decide. exact H.
Defined.

Lemma ts_to_ns_short t : normalized (ts_ts t) → short (ts_ts t) → tst_ts_to_ns t = Done (ts_ns t).
Proof. intros. unfold tst_ts_to_ns. timer_unfold. crun. done. Qed.

(** Conversion of a normalized time stamp: nanoseconds are exact, micro- and
    milliseconds are rounded to the nearest, halves up, for times before the
    epoch too. *)
Theorem ts_rounding t :
  normalized (ts_ts t) → short (ts_ts t) →
  tst_ts_to_ns t = Done (ts_ns t) ∧
  tst_ts_to_us t = Done ((ts_ns t + 500) / 1000) ∧
  tst_ts_to_ms t = Done ((ts_ns t + 500000) / 1000000).
Proof.
  intros Hn Hs. split; [by apply ts_to_ns_short|].
  unfold tst_ts_to_us, tst_ts_to_ms. timer_unfold. split; qrun; f_equal; qlia.
Qed.

Lemma ts_rounding_witness :
  tst_ts_to_us (Ts TST_LIBC_TIMESPEC (Timespec (-1) 999999400)) = Done (-1) ∧
  tst_ts_to_us (Ts TST_LIBC_TIMESPEC (Timespec (-1) 999999500)) = Done 0.
Proof.
  split; [|by vm_compute].
  by destruct (ts_rounding (Ts TST_LIBC_TIMESPEC (Timespec (-1) 999999400))) as (_ & -> & _); try by_decide.
Defined.

(** Durations survive the conversion to a time stamp and back: nanoseconds of
    either sign, micro- and milliseconds that are not negative; the time stamp of
    a duration that is not negative is normalized. *)
Theorem ts_roundtrip type n :
  is_i64 n →
  tst_ts_to_ns (tst_ts_from_ns type n) = Done n ∧
  (0 ≤ n → tst_ts_to_us (tst_ts_from_us type n) = Done n ∧ tst_ts_to_ms (tst_ts_from_ms type n) = Done n ∧
           normalized (ts_ts (tst_ts_from_ns type n)) ∧ normalized (ts_ts (tst_ts_from_us type n)) ∧
           normalized (ts_ts (tst_ts_from_ms type n))).
Proof.
  intros Hn. unfold tst_ts_to_ns, tst_ts_from_ns, tst_ts_to_us, tst_ts_from_us, tst_ts_to_ms, tst_ts_from_ms.
  timer_unfold. climits.
  split; [|intros Hp; split_and!]; qrun; try f_equal; qlia.
Qed.

Lemma ts_roundtrip_witness :
  tst_ts_to_ns (tst_ts_from_ns TST_LIBC_TIMESPEC (-1500000000)) = Done (-1500000000) ∧
  tst_ts_to_us (tst_ts_from_us TST_LIBC_TIMESPEC (-1)) = Done 0.
Proof. split; [by apply ts_roundtrip|by vm_compute]. Defined.

Lemma timeval_diff_us_exact t1 t2 :
  0 ≤ tv_usec t1 < 1000000 → 0 ≤ tv_usec t2 < 1000000 →
  -1000000000000 ≤ tval_sec t1 ≤ 1000000000000 → -1000000000000 ≤ tval_sec t2 ≤ 1000000000000 →
  tst_timeval_diff_us t1 t2 =
    Done ((tval_sec t1 * 1000000 + tv_usec t1) - (tval_sec t2 * 1000000 + tv_usec t2)).
Proof.
  intros. unfold tst_timeval_diff_us, tst_timeval_diff, tst_timeval_to_us.
  crun. case_decide; crun; cbn [tval_sec tv_usec]; crun; cbn [tval_sec tv_usec]; f_equal; lia.
Qed.

(** The difference of two time stamps in nanoseconds. *)
Lemma timespec_diff_ns_exact t1 t2 :
  normalized t1 → normalized t2 → -4000000000 ≤ tv_sec t1 ≤ 4000000000 → -4000000000 ≤ tv_sec t2 ≤ 4000000000 →
  tst_timespec_diff_ns t1 t2 = Done (ns t1 - ns t2).
Proof.
  intros N1 N2 S1 S2. unfold tst_timespec_diff_ns, tst_ts_diff_ns.
  destruct (ts_diff_yields (tst_ts_from_timespec t1) (tst_ts_from_timespec t2)) as (r & -> & _ & Hn & He);
    [done|done|unfold small; cbn; lia..|]. cbn [mbind outcome_bind].
  rewrite ts_to_ns_short; [by rewrite He|done|]. timer_unfold. cbn in He. lia.
Qed.
