(* ===== verification/TimerTest.v ===== *)
(** * Tests of timers

    src/lib/tst_timer_test.c: do_timer_test() takes samples of a call that sleeps, sorts
    them and judges them: a sample below the time asked for is a call that woke up early,
    and the mean without the largest samples has a threshold.  The function that takes a
    sample is a parameter; it records times with tst_timer_sample().  The plot is left out. *)
From stdpp Require Import base numbers option list sorting.
From S2P Require Import Prelude CInt.

#[local] Open Scope Z_scope.

(** The variables that timer_setup() sets. *)
Record timer_env := TimerEnv { monotonic_resolution : Z; timerslack : Z; virt_env : bool }.

(** The messages of a test, in order. *)
Inductive message :=
  | Sleeping (usec nsamples threshold keep : Z)
  | SamplingFailed
  | Outliners (i first last : Z)
  | WokenEarly (times first last : Z)
  | Stats (min max median trunc_mean keep discard : Z)
  | Virtual
  | SleptTooLong
  | WithinThresholds.

(** ** The samples *)

(** The array and cur_sample. *)
Definition tst_timer_sample (elapsed : Z) (st : list Z * nat) : outcome (list Z * nat) :=
  let '(samples, cur) := st in
  if decide (cur < length samples)%nat then Done (<[cur := elapsed]> samples, S cur) else Fault.

Fixpoint record_samples (times : list Z) (st : list Z * nat) : outcome (list Z * nat) :=
  match times with
  | [] => Done st
  | t :: times' => st ← tst_timer_sample t st; record_samples times' st
  end.

(** The difference of two long long as an int. *)
Definition cmp (a b : Z) : Z := wrap32 (b - a).

Definition before (a b : Z) : Prop := cmp a b ≤ 0.
#[export] Instance before_dec a b : Decision (before a b) := decide (cmp a b ≤ 0).

(** qsort() with cmp(); the differences must fit. *)
Definition qsort (l : list Z) : outcome (list Z) :=
  if decide (Forall (λ a, Forall (λ b, LONG_MIN ≤ b - a ≤ LONG_MAX) l) l) then Done (merge_sort before l) else Fault.

(** ** The thresholds *)

Definition compute_threshold (env : timer_env) (requested_us nsamples : Z) : outcome Z :=
  let slack_per_scall := u32 (Z.min 100000 (Z.quot requested_us 1000)) in
  let slack_per_scall := Z.max slack_per_scall (timerslack env) in
  if decide (nsamples = 0) then Fault
  else Done (u32 (u32 (u32 (u32 (400 + u32 (2 * monotonic_resolution env)) + slack_per_scall) * nsamples) + 3000 / nsamples)).

Definition compute_discard (nsamples : Z) : Z := if decide (nsamples = 1) then 0 else Z.max 1 (nsamples / 20).

(** ** The judgement *)

(** The number of samples at the front that are far too long. *)
Fixpoint outliners (fuel : nat) (env : timer_env) (samples : list Z) (usec nsamples : Z) (i : nat) : outcome nat :=
  match fuel with
  | O => Timeout
  | S fuel' =>
      x ← load (samples !! i);
      lim ← i64 (10 * usec);
      if decide (lim < x ∧ Z.of_nat i < nsamples) then
        if decide (x ≤ u32 (3 * monotonic_resolution env)) then Done i
        else outliners fuel' env samples usec nsamples (S i)
      else Done i
  end.

(** [for (i = k - 1; samples\[i\] < usec && i > -1; i--);]: the final i. *)
Fixpoint last_late (k : nat) (samples : list Z) (usec : Z) : outcome Z :=
  match k with
  | O => Fault
  | S i => x ← load (samples !! i); if decide (x < usec) then last_late i samples usec else Done (Z.of_nat i)
  end.

Fixpoint sum_samples (l : list Z) (sum : Z) : outcome Z :=
  match l with [] => Done sum | x :: l' => sum ← i64 (sum + x); sum_samples l' sum end.

(** [trunc_mean > n * usec + threshold] *)
Definition exceeds (trunc_mean n usec threshold : Z) : outcome bool :=
  allowed ← i64 (n * usec);
  allowed ← i64 (allowed + threshold);
  Done (bool_decide (allowed < trunc_mean)).

(** The samples are sorted in the first [nsamples] elements. *)
Definition judge (env : timer_env) (samples : list Z) (usec nsamples discard keep_samples threshold : Z) : outcome (list message) :=
  let n := Z.to_nat nsamples in
  i ← outliners (S n) env samples usec nsamples 0;
  o ← (if decide (0 < i)%nat then
         a ← load (samples !! 0%nat); b ← load (samples !! (i - 1)%nat); Done [Outliners (Z.of_nat i) a b]
       else Done []);
  j ← last_late n samples usec;
  e ← (if decide (j < nsamples - 1) then
         a ← load (samples !! Z.to_nat (j + 1)); b ← load (samples !! (n - 1)%nat); Done [WokenEarly (nsamples - 1 - j) a b]
       else Done []);
  median ← load (samples !! Z.to_nat (nsamples / 2));
  trunc_mean ← sum_samples (drop (Z.to_nat discard) (take n samples)) 0;
  smin ← load (samples !! (n - 1)%nat);
  smax ← load (samples !! 0%nat);
  long ← (if virt_env env then Done false else exceeds trunc_mean (u32 (nsamples - discard)) usec threshold);
  let late := if virt_env env then [Virtual] else if (long : bool) then [SleptTooLong] else [] in
  let failed := bool_decide (j < nsamples - 1) || long in
  Done (o ++ e ++ Stats smin smax median trunc_mean keep_samples discard :: late ++ (if failed then [] else [WithinThresholds])).

(** ** The test *)

Section timer.
Context {W : Type}.
(** sample(): its result and the times it records. *)
Context (sample : Z → W → Z * list Z * W).

(** [false] when the function failed. *)
Fixpoint sample_loop (n : nat) (usec : Z) (st : list Z * nat) (w : W) : outcome (bool * (list Z * nat) * W) :=
  match n with
  | O => Done (true, st, w)
  | S n' =>
      let '(r, times, w') := sample usec w in
      st ← record_samples times st;
      if decide (r ≠ 0) then Done (false, st, w') else sample_loop n' usec st w'
  end.

Definition do_timer_test (env : timer_env) (usec nsamples : Z) (samples : list Z) (w : W) :
    outcome (list message * list Z * W) :=
  let discard := compute_discard nsamples in
  let keep_samples := u32 (nsamples - discard) in
  threshold ← compute_threshold env usec keep_samples;
  let m := Sleeping usec nsamples threshold keep_samples in
  '(ok, (samples, _), w) ← sample_loop (Z.to_nat nsamples) usec (samples, 0%nat) w;
  if negb ok then Done ([m; SamplingFailed], samples, w)
  else
    sorted ← qsort (take (Z.to_nat nsamples) samples);
    let samples := sorted ++ drop (Z.to_nat nsamples) samples in
    l ← judge env samples usec nsamples discard keep_samples threshold;
    Done (m :: l, samples, w).
End timer.

(** ** The array after sampling *)

(** A function that behaves as the header of the library says: it returns zero and
    records one time. *)
Definition one_sample {W} (sample : Z → W → Z * list Z * W) (usec : Z) : Prop :=
  ∀ w, ∃ t w', sample usec w = (0, [t], w').

(** The times that [n] calls record. *)
Fixpoint times {W} (sample : Z → W → Z * list Z * W) (usec : Z) (n : nat) (w : W) : list Z :=
  match n with O => [] | S n' => (sample usec w).1.2 ++ times sample usec n' (sample usec w).2 end.

Lemma length_times {W} (sample : Z → W → Z * list Z * W) usec n : one_sample sample usec → ∀ w, length (times sample usec n w) = n.
Proof.
  intros Hs. induction n as [|n IH]; intros w; [done|]. cbn. destruct (Hs w) as (t & w' & ->). cbn. by rewrite IH.
Qed.

Lemma sample_loop_ok {W} (sample : Z → W → Z * list Z * W) usec : one_sample sample usec → ∀ n done rest w,
  (n ≤ length rest)%nat →
  ∃ w', sample_loop sample n usec (done ++ rest, length done) w =
    Done (true, (done ++ times sample usec n w ++ drop n rest, (length done + n)%nat), w').
Proof.
  intros Hs. induction n as [|n IH]; intros done rest w Hn.
  { exists w. cbn. by rewrite Nat.add_0_r, drop_0. }
  destruct rest as [|x rest]; [cbn in Hn; lia|]. cbn [sample_loop times]. destruct (Hs w) as (t & w' & E). rewrite E.
  cbn [record_samples tst_timer_sample]. rewrite decide_True by (rewrite length_app; cbn; lia). cbn [mbind outcome_bind].
  rewrite decide_False by lia. rewrite insert_app_r_alt, Nat.sub_diag by lia. cbn [insert list_insert fst snd].
  destruct (IH (done ++ [t]) rest w') as (w2 & E2); [cbn in Hn; lia|]. exists w2.
  rewrite length_app in E2. cbn in E2. replace (length done + 1)%nat with (S (length done)) in E2 by lia.
  rewrite <- !app_assoc in E2. cbn in E2. rewrite E2. cbn. do 4 f_equal. lia.
Qed.

(** ** Sorting *)

(** The samples from the largest to the smallest. *)
Definition descending (l : list Z) : list Z := merge_sort Z.ge l.

#[local] Instance ge_trans : Transitive Z.ge.
Proof. intros x y z. lia. Qed.
#[local] Instance ge_antisymm : AntiSymm (=) Z.ge.
Proof. intros x y. lia. Qed.
#[local] Instance ge_total : Total Z.ge.
Proof. intros x y. lia. Qed.
#[local] Instance before_total : Total before.
Proof.
  intros x y. unfold before, cmp, wrap32. replace (x - y) with (- (y - x)) by lia. generalize (y - x). intros d. qlia.
Qed.

(** Samples below 2^31 microseconds are sorted. *)
Lemma qsort_ok l : Forall (λ x, 0 ≤ x < 2147483648) l → qsort l = Done (descending l).
Proof.
  intros Hl. unfold qsort. rewrite decide_True.
  2:{ apply Forall_forall. intros a Ha. apply Forall_forall. intros b Hb. rewrite Forall_forall in Hl.
      pose proof (Hl a Ha). pose proof (Hl b Hb). clia. }
  f_equal. apply (Sorted_unique Z.ge); [|apply (Sorted_merge_sort Z.ge)|unfold descending; by rewrite !merge_sort_Permutation].
  assert (Forall (λ x, 0 ≤ x < 2147483648) (merge_sort before l)) as Hf by (by rewrite merge_sort_Permutation).
  pose proof (Sorted_merge_sort before l) as Hs. induction Hs as [|x l' Hs IH Hd]; [constructor|].
  apply Forall_cons in Hf as [Hx Hf]. constructor; [by apply IH|]. destruct Hd as [|y l' Hxy]; constructor.
  apply Forall_cons in Hf as [Hy _]. unfold before, cmp in Hxy. rewrite wrap32_small in Hxy by clia. lia.
Qed.

(** ** The judgement *)

Lemma descending_elem l x : x ∈ descending l ↔ x ∈ l.
Proof. unfold descending. by rewrite merge_sort_Permutation. Qed.

Lemma length_descending l : length (descending l) = length l.
Proof. unfold descending. by rewrite merge_sort_Permutation. Qed.

Lemma descending_lookup l i j x y : descending l !! i = Some x → descending l !! j = Some y → (i ≤ j)%nat → y ≤ x.
Proof.
  intros Hi Hj Hij. pose proof (StronglySorted_merge_sort Z.ge l) as Hs. fold (descending l) in Hs.
  destruct (decide (i = j)) as [->|Hne]; [rewrite Hi in Hj; injection Hj as <-; lia|].
  rewrite <- (take_drop j (descending l)) in Hs. apply Z.ge_le.
  apply (StronglySorted_app_1_elem_of _ _ _ _ _ Hs); [apply (list_elem_of_lookup_2 _ i)|apply (list_elem_of_lookup_2 _ 0%nat)].
  - by rewrite lookup_take_lt by lia.
  - by rewrite lookup_drop, Nat.add_0_r.
Qed.

Lemma outliners_ok env samples usec nsamples : 0 ≤ usec ≤ INT_MAX →
  ((Z.to_nat nsamples < length samples)%nat ∨
    (Z.to_nat nsamples ≤ length samples)%nat ∧ ∃ i x, (i < Z.to_nat nsamples)%nat ∧ samples !! i = Some x ∧ x ≤ 10 * usec) →
  ∃ k, outliners (S (Z.to_nat nsamples)) env samples usec nsamples 0 = Done k ∧ (k ≤ Z.to_nat nsamples)%nat.
Proof.
  intros Hu Hlen. set (n := Z.to_nat nsamples) in *.
  assert (∀ fuel i, (i + fuel = S n)%nat → (i ≤ n)%nat →
    ((n < length samples)%nat ∨ (n ≤ length samples)%nat ∧ ∃ i' x, (i ≤ i' < n)%nat ∧ samples !! i' = Some x ∧ x ≤ 10 * usec) →
    ∃ k, outliners fuel env samples usec nsamples i = Done k ∧ (k ≤ n)%nat) as Hgen.
  2:{ apply (Hgen (S n) 0%nat); [done|lia|]. destruct Hlen as [?|(? & i & x & ? & ? & ?)]; [by left|]. right. split; [done|]. exists i, x. split_and!; (done || lia). }
  clear Hlen. induction fuel as [|fuel IH]; intros i Hf Hi Hlen; [lia|]. cbn [outliners].
  assert (i < length samples)%nat as Hil by (destruct Hlen as [?|(? & i' & x & ? & ? & ?)]; lia).
  destruct (lookup_lt_is_Some_2 samples i Hil) as [x Hx]. rewrite Hx. cbn [load mbind outcome_bind]. rewrite i64_ok by clia.
  cbn [mbind outcome_bind]. destruct (decide _) as [[Hlim Hn]|]; [|by exists i]. case_decide; [by exists i|].
  apply IH; [lia|lia|]. destruct Hlen as [?|(Hle & i' & y & Hi' & Hy & Hyu)]; [by left|]. right. split; [done|].
  exists i', y. split_and!; [|lia|done|done]. assert (i ≠ i') by (intros ->; rewrite Hx in Hy; injection Hy as <-; lia). lia.
Qed.

(** The loop stops at the last sample that is late enough. *)
Lemma last_late_ok samples usec : ∀ k i x,
  (i < k)%nat → samples !! i = Some x → usec ≤ x → (k ≤ length samples)%nat →
  ∃ j y, last_late k samples usec = Done (Z.of_nat j) ∧ (j < k)%nat ∧ samples !! j = Some y ∧ usec ≤ y ∧
    ∀ m z, (j < m < k)%nat → samples !! m = Some z → z < usec.
Proof.
  induction k as [|k IH]; intros i x Hi Hx Hux Hk; [lia|]. cbn [last_late].
  destruct (lookup_lt_is_Some_2 samples k) as [y Hy]; [lia|]. rewrite Hy. cbn [load mbind outcome_bind].
  destruct (decide (y < usec)) as [Hlt|Hge].
  - destruct (IH i x) as (j & z & E & Hj & Hz & Huz & Hafter); [|done|done|lia|].
    { assert (i ≠ k) by (intros ->; rewrite Hx in Hy; injection Hy as <-; lia). lia. }
    exists j, z. split_and!; [done|lia|done|done|]. intros m z' Hm Hz'. destruct (decide (m = k)) as [->|].
    + rewrite Hy in Hz'. by injection Hz' as <-.
    + apply (Hafter m); [lia|done].
  - exists k, y. split_and!; [done|lia|done|lia|]. lia.
Qed.

Definition zsum (l : list Z) : Z := foldr Z.add 0 l.

Lemma zsum_bound l : Forall (λ x, 0 ≤ x < 2147483648) l → 0 ≤ zsum l ≤ Z.of_nat (length l) * 2147483648.
Proof. induction 1 as [|x l Hx _ IH]; [done|]. cbn [length]. change (zsum (x :: l)) with (x + zsum l). lia. Qed.

Lemma sum_samples_ok l : Forall (λ x, 0 ≤ x < 2147483648) l → ∀ s, 0 ≤ s → s + Z.of_nat (length l) * 2147483648 ≤ LONG_MAX →
  sum_samples l s = Done (s + zsum l).
Proof.
  induction 1 as [|x l Hx Hl IH]; intros s Hs Hb; cbn [sum_samples length] in *; [cbn; by rewrite Z.add_0_r|].
  rewrite i64_ok by clia. cbn [mbind outcome_bind]. rewrite IH by lia. f_equal. cbn. unfold zsum. lia.
Qed.

(** How many samples are early. *)
Definition early (usec : Z) (l : list Z) : nat := length (filter (λ x, x < usec) l).

Lemma filter_split (P : Z → Prop) `{∀ x, Decision (P x)} l l' :
  Forall (λ x, ¬ P x) l → Forall P l' → filter P (l ++ l') = l'.
Proof.
  intros Hl Hl'. induction Hl as [|x l Hx _ IH]; cbn [app].
  - induction Hl' as [|x l' Hx _ IH]; [done|]. by rewrite filter_cons_True, IH.
  - by rewrite filter_cons_False.
Qed.

Lemma early_descending usec l j y : descending l !! j = Some y → usec ≤ y →
  (∀ m z, (j < m < length l)%nat → descending l !! m = Some z → z < usec) → early usec l = (length l - S j)%nat.
Proof.
  intros Hj Hy Hafter. unfold early. assert (filter (λ x, x < usec) l ≡ₚ filter (λ x, x < usec) (descending l)) as ->.
  { apply filter_Permutation. unfold descending. by rewrite merge_sort_Permutation. }
  rewrite <- (take_drop (S j) (descending l)), filter_split.
  - by rewrite length_drop, length_descending.
  - apply Forall_lookup. intros i x [Hx Hi]%lookup_take_Some. pose proof (descending_lookup l i j x y Hx Hj). lia.
  - apply Forall_lookup. intros i x Hx. rewrite lookup_drop in Hx. apply (Hafter (S j + i)%nat); [|done].
    apply lookup_lt_Some in Hx. rewrite length_descending in Hx. lia.
Qed.

Lemma discard_range n : 1 ≤ n → 0 ≤ compute_discard n < n ∨ compute_discard n = 0.
Proof. intros Hn. unfold compute_discard. case_decide; [by right|]. left. qlia. Qed.

(** What is reported about samples [l] that are kept in descending order. *)
Definition verdict (virt : bool) (usec : Z) (l : list Z) (allowed kept : Z) (msgs : list message) : Prop :=
  (WithinThresholds ∈ msgs ↔ early usec l = 0%nat ∧ (virt = true ∨ kept ≤ allowed)) ∧
  (SleptTooLong ∈ msgs ↔ virt = false ∧ allowed < kept) ∧
  (∀ k, (∃ a b, WokenEarly k a b ∈ msgs) ↔ k = Z.of_nat (early usec l) ∧ early usec l ≠ 0%nat).

(** The messages of a verdict. *)
Lemma verdict_messages virt usec l allowed kept o e stats :
  (∀ m, m ∈ o → ∃ i a b, m = Outliners i a b) →
  (e = [] ∧ early usec l = 0%nat ∨ ∃ a b, e = [WokenEarly (Z.of_nat (early usec l)) a b] ∧ early usec l ≠ 0%nat) →
  (∃ a b c d k x, stats = Stats a b c d k x) →
  let long := if virt : bool then false else bool_decide (allowed < kept) in
  verdict virt usec l allowed kept (o ++ e ++ stats :: (if virt then [Virtual] else if long then [SleptTooLong] else []) ++
    (if negb (bool_decide (early usec l = 0%nat)) || long then [] else [WithinThresholds])).
Proof.
  intros Ho He (? & ? & ? & ? & ? & ? & ->) long.
  assert (∀ m, m ∈ o → m ≠ WithinThresholds ∧ m ≠ SleptTooLong ∧ ∀ k a b, m ≠ WokenEarly k a b) as Ho'.
  { intros m Hm. by destruct (Ho m Hm) as (? & ? & ? & ->). }
  assert (WithinThresholds ∉ o) as Ho1 by (intros H; by destruct (Ho' _ H)).
  assert (SleptTooLong ∉ o) as Ho2 by (intros H; by destruct (Ho' _ H) as (_ & ? & _)).
  assert (∀ k a b, WokenEarly k a b ∉ o) as Ho3 by (intros k a b H; by destruct (Ho' _ H) as (_ & _ & Hk); destruct (Hk k a b)).
  clear Ho Ho'. unfold verdict, long.
  destruct He as [[-> Hz]|(a & b & -> & Hz)];
    [rewrite (bool_decide_true (early usec l = 0%nat)) by done|rewrite (bool_decide_false (early usec l = 0%nat)) by done];
    destruct virt; try (case_bool_decide); cbn [negb orb]; split_and!; try intros k'; repeat setoid_rewrite elem_of_app; repeat setoid_rewrite elem_of_cons; repeat setoid_rewrite elem_of_nil;
    naive_solver lia.
Qed.

Lemma judge_outliners (samples : list Z) k n :
  (0 < n)%nat → (k ≤ n)%nat → (n ≤ length samples)%nat →
  ∃ o, (if decide (0 < k)%nat then
          a ← load (samples !! 0%nat); b ← load (samples !! (k - 1)%nat); Done [Outliners (Z.of_nat k) a b]
        else Done []) = Done o ∧ ∀ m, m ∈ o → ∃ i a b, m = Outliners i a b.
Proof.
  intros Hn Hk Hl. destruct (lookup_lt_is_Some_2 samples 0%nat) as [a Ha]; [lia|].
  destruct (lookup_lt_is_Some_2 samples (k - 1)%nat) as [b Hb]; [lia|]. rewrite Ha, Hb. case_decide.
  - eexists. split; [done|]. intros m ->%list_elem_of_singleton. eauto.
  - exists []. split; [done|]. by intros m ?%elem_of_nil.
Qed.

Lemma judge_early (samples : list Z) nsamples j k :
  let n := Z.to_nat nsamples in
  (j < n)%nat → (n ≤ length samples)%nat → k = (n - S j)%nat →
  ∃ e, (if decide (Z.of_nat j < nsamples - 1) then
          a ← load (samples !! Z.to_nat (Z.of_nat j + 1)); b ← load (samples !! (n - 1)%nat);
          Done [WokenEarly (nsamples - 1 - Z.of_nat j) a b]
        else Done []) = Done e ∧ (e = [] ∧ k = 0%nat ∨ ∃ a b, e = [WokenEarly (Z.of_nat k) a b] ∧ k ≠ 0%nat).
Proof.
  intros n Hj Hl ->. case_decide.
  - destruct (lookup_lt_is_Some_2 samples (Z.to_nat (Z.of_nat j + 1))) as [a Ha]; [lia|].
    destruct (lookup_lt_is_Some_2 samples (n - 1)%nat) as [b Hb]; [lia|]. rewrite Ha, Hb. cbn [load mbind outcome_bind].
    eexists. split; [done|]. right. exists a, b. split; [do 2 f_equal|]; lia.
  - exists []. split; [done|]. left. split; [done|lia].
Qed.

Lemma late_sample usec l : (early usec l < length l)%nat → ∃ i x, descending l !! i = Some x ∧ usec ≤ x.
Proof.
  intros He. destruct (decide (Forall (λ x, x < usec) l)) as [Hall|Hex].
  - unfold early in He. rewrite <- (app_nil_l l) in He at 1. rewrite filter_split in He by done. lia.
  - apply not_Forall_Exists in Hex; [|apply _]. apply Exists_exists in Hex as (x & Hx & Hlt).
    rewrite <- descending_elem in Hx. apply list_elem_of_lookup_1 in Hx as [i Hi]. exists i, x. split; [done|]. cbn in Hlt. lia.
Qed.

Lemma judge_ok env l rest usec nsamples threshold :
  let n := Z.to_nat nsamples in
  let discard := compute_discard nsamples in
  let keep := nsamples - discard in
  let kept := zsum (drop (Z.to_nat discard) (descending l)) in
  1 ≤ nsamples ≤ INT_MAX → length l = n → 0 ≤ usec ≤ INT_MAX → 0 ≤ threshold ≤ UINT_MAX →
  Forall (λ x, 0 ≤ x < 2147483648) l → (early usec l < n)%nat → (rest ≠ [] ∨ ∃ x, x ∈ l ∧ x ≤ 10 * usec) →
  ∃ msgs, judge env (descending l ++ rest) usec nsamples discard keep threshold = Done msgs ∧
    verdict (virt_env env) usec l (keep * usec + threshold) kept msgs.
Proof.
  intros n discard keep kept Hn Hl Hu Ht Hf Hearly Hrest.
  assert (0 ≤ discard < nsamples) as Hd by (destruct (discard_range nsamples); unfold discard; lia).
  assert (length (descending l) = n) as HlD by (by rewrite length_descending).
  assert (∀ i, (i < n)%nat → (descending l ++ rest) !! i = descending l !! i) as HD by (intros i Hi; rewrite lookup_app_l by lia; done).
  assert (Forall (λ x, 0 ≤ x < 2147483648) (descending l)) as HfD.
  { apply Forall_forall. intros x Hx. rewrite descending_elem in Hx. rewrite Forall_forall in Hf. by apply Hf. }
  assert (n ≤ length (descending l ++ rest))%nat as Hlen by (rewrite length_app; lia).
  unfold judge. cbv zeta. fold n.
  destruct (outliners_ok env (descending l ++ rest) usec nsamples) as (k & Ek & Hk); [done| |].
  { fold n. rewrite length_app. destruct Hrest as [Hr|(x & Hx & Hxu)].
    - left. destruct rest; [done|]. cbn. lia.
    - right. split; [lia|]. rewrite <- descending_elem in Hx. apply list_elem_of_lookup_1 in Hx as [i Hi]. exists i, x.
      pose proof (lookup_lt_Some _ _ _ Hi). rewrite HD by lia. split_and!; [lia|done|done]. }
  fold n in Ek, Hk. rewrite Ek. cbn [mbind outcome_bind].
  destruct (judge_outliners (descending l ++ rest) k n) as (o & Eo & Ho); [lia|done|done|].
  destruct (late_sample usec l) as (i & x & Hi & Hux); [lia|]. pose proof (lookup_lt_Some _ _ _ Hi).
  destruct (last_late_ok (descending l ++ rest) usec n i x) as (j & y & Ej & Hj & Hy & Huy & Hafter); [lia|by rewrite HD by lia|done|done|].
  assert (early usec l = (n - S j)%nat) as He.
  { rewrite <- Hl. apply (early_descending usec l j y); [by rewrite <- HD|done|]. intros m z Hm Hz.
    apply (Hafter m); [lia|]. by rewrite HD by lia. }
  destruct (judge_early (descending l ++ rest) nsamples j (early usec l)) as (e & Ee & He'); [done|done|done|].
  fold n in Ee. rewrite Eo, Ej. cbn [mbind outcome_bind]. rewrite Ee. cbn [mbind outcome_bind].
  destruct (lookup_lt_is_Some_2 (descending l ++ rest) (Z.to_nat (nsamples / 2))) as [med ->]; [rewrite length_app; qlia|].
  destruct (lookup_lt_is_Some_2 (descending l ++ rest) (n - 1)%nat) as [smin ->]; [lia|].
  destruct (lookup_lt_is_Some_2 (descending l ++ rest) 0%nat) as [smax ->]; [lia|]. cbn [load mbind outcome_bind].
  rewrite <- HlD, take_app_length. rewrite sum_samples_ok; [|by apply Forall_drop|lia|rewrite length_drop; clia].
  rewrite Z.add_0_l. fold kept. cbn [load mbind outcome_bind]. rewrite (u32_small (nsamples - discard)) by clia. fold keep.
  assert ((if virt_env env then Done false else exceeds kept keep usec threshold) =
    Done (if virt_env env then false else bool_decide (keep * usec + threshold < kept))) as ->.
  { destruct (virt_env env); [done|]. unfold exceeds. assert (0 ≤ keep * usec ≤ INT_MAX * INT_MAX) by (unfold keep; nia).
    rewrite !i64_ok by clia. cbn. by rewrite i64_ok by clia. }
  assert (bool_decide (Z.of_nat j < nsamples - 1) = negb (bool_decide (early usec l = 0%nat))) as Eb.
  { rewrite He, <- bool_decide_not. apply bool_decide_ext. lia. }
  eexists. split; [reflexivity|]. rewrite Eb. apply verdict_messages; [done|done|repeat eexists].
Qed.

(** The threshold, without overflow. *)
Lemma compute_threshold_ok env usec keep :
  let slack := Z.max (Z.min 100000 (usec / 1000)) (timerslack env) in
  0 ≤ usec → 0 < keep → 0 ≤ monotonic_resolution env → 0 ≤ timerslack env →
  (400 + 2 * monotonic_resolution env + slack) * keep + 3000 / keep ≤ UINT_MAX →
  compute_threshold env usec keep = Done ((400 + 2 * monotonic_resolution env + slack) * keep + 3000 / keep) ∧
  0 ≤ (400 + 2 * monotonic_resolution env + slack) * keep + 3000 / keep.
Proof.
  intros slack Hu Hk Hres Hts Hle. assert (0 ≤ usec / 1000) as Hq by qlia.
  assert (0 ≤ slack) as Hs by (unfold slack; lia).
  assert (0 ≤ 3000 / keep) as Hq' by (by apply Z.div_pos).
  assert (400 + 2 * monotonic_resolution env + slack ≤ UINT_MAX) as Hsum by nia.
  unfold compute_threshold. rewrite decide_False by lia. rewrite Z.quot_div_nonneg by lia.
  rewrite (u32_small (Z.min _ _)) by clia. fold slack. rewrite (u32_small (2 * _)) by clia.
  rewrite (u32_small (400 + _)) by clia. rewrite (u32_small (400 + _ + slack)) by clia.
  rewrite (u32_small (_ * keep)) by clia. rewrite u32_small by clia. split; [done|clia].
Qed.

(** The steps of the test before the judgement. *)
Lemma do_timer_test_judge {W} (sample : Z → W → Z * list Z * W) env usec nsamples samples w threshold :
  let n := Z.to_nat nsamples in
  let l := times sample usec n w in
  let d := compute_discard nsamples in
  one_sample sample usec → 1 ≤ nsamples ≤ INT_MAX → (n ≤ length samples)%nat → Forall (λ x, 0 ≤ x < 2147483648) l →
  compute_threshold env usec (nsamples - d) = Done threshold →
  ∃ w', do_timer_test sample env usec nsamples samples w =
    (l' ← judge env (descending l ++ drop n samples) usec nsamples d (nsamples - d) threshold;
     Done (Sleeping usec nsamples threshold (nsamples - d) :: l', descending l ++ drop n samples, w')).
Proof.
  intros n l d Hs Hn Hlen Hf Et.
  assert (0 ≤ d < nsamples) as Hd by (destruct (discard_range nsamples); unfold d; lia).
  destruct (sample_loop_ok sample usec Hs n [] samples w Hlen) as (w' & El). cbn [app length] in El. fold l in El.
  assert (length l = n) as Hl by (by apply length_times).
  exists w'. unfold do_timer_test. fold d. rewrite (u32_small (nsamples - d)) by clia. rewrite Et. cbn [mbind outcome_bind].
  fold n. rewrite El. cbn [mbind outcome_bind negb]. rewrite <- Hl, take_app_length, drop_app_length, qsort_ok by done. done.
Qed.

(** C35: When the times fit and not every sample is early, do_timer_test() passes exactly
    when no sample is below the time asked for and, unless it runs in a virtual machine,
    the kept samples together stay below their threshold; otherwise it says how many
    calls woke up early, and whether the call slept for too long, which a virtual
    machine is never said to have done.  The search for outliers ends inside the array:
    it has room behind the samples, or one of them is not an outlier. *)
Theorem do_timer_test_verdict {W} (sample : Z → W → Z * list Z * W) env usec nsamples samples w :
  let n := Z.to_nat nsamples in
  let l := times sample usec n w in
  let discard := compute_discard nsamples in
  let keep := nsamples - discard in
  let per_call := 400 + 2 * monotonic_resolution env + Z.max (Z.min 100000 (usec / 1000)) (timerslack env) in
  one_sample sample usec → 1 ≤ nsamples ≤ INT_MAX → (n ≤ length samples)%nat → 0 ≤ usec ≤ INT_MAX →
  0 ≤ monotonic_resolution env → 0 ≤ timerslack env → per_call * keep + 3000 / keep ≤ UINT_MAX →
  Forall (λ x, 0 ≤ x < 2147483648) l → (early usec l < n)%nat →
  ((n < length samples)%nat ∨ ∃ x, x ∈ l ∧ x ≤ 10 * usec) →
  ∃ msgs samples' w', do_timer_test sample env usec nsamples samples w = Done (msgs, samples', w') ∧
    verdict (virt_env env) usec l (keep * usec + (per_call * keep + 3000 / keep)) (zsum (drop (Z.to_nat discard) (descending l))) msgs.
Proof.
  intros n l discard keep per_call Hs Hn Hlen Hu Hres Hts Hper Hf Hearly Hroom.
  assert (0 ≤ discard < nsamples) as Hd by (destruct (discard_range nsamples); unfold discard; lia).
  destruct (compute_threshold_ok env usec keep) as [Et Ht]; [lia|unfold keep; lia|done|done|done|]. fold per_call in Et, Ht.
  assert (length l = n) as Hl by (by apply length_times).
  destruct (judge_ok env l (drop n samples) usec nsamples (per_call * keep + 3000 / keep)) as (msgs & Ej & Hv); [done..| |].
  { destruct Hroom as [Hr|]; [left|by right]. intros E%(f_equal length). rewrite length_drop in E. cbn in E. lia. }
  destruct (do_timer_test_judge sample env usec nsamples samples w _ Hs Hn Hlen Hf Et) as [w' E].
  cbv zeta in E, Ej. fold n l discard keep in E, Ej. rewrite Ej in E. eexists _, _, _. split; [exact E|]. destruct Hv as (H1 & H2 & H3). split_and!.
  - rewrite elem_of_cons, H1. naive_solver.
  - rewrite elem_of_cons, H2. naive_solver.
  - intros k. rewrite <- H3. setoid_rewrite elem_of_cons. naive_solver.
Qed.

(** A function that plays back times. *)
Definition playback (usec : Z) (w : list Z) : Z * list Z * list Z :=
  match w with t :: w' => (0, [t], w') | [] => (0, [usec], []) end.

Lemma playback_one usec : one_sample playback usec.
Proof. intros [|t w]; cbn; eauto. Qed.

Definition desk : timer_env := TimerEnv 1 50 false.

Lemma do_timer_test_verdict_witness :
  ∃ msgs samples' w', do_timer_test playback desk 1000 4 (replicate 500 0) [1060; 990; 9000; 1055] = Done (msgs, samples', w') ∧
    verdict false 1000 [1060; 990; 9000; 1055] 5356 3105 msgs.
Proof.
  apply (do_timer_test_verdict playback desk 1000 4 (replicate 500 0) [1060; 990; 9000; 1055]).
  - apply playback_one.
  - clia.
  - rewrite length_replicate. cbn. lia.
  - clia.
  - cbn. lia.
  - cbn. lia.
  - by vm_compute.
  - by_decide.
  - by_decide.
  - left. rewrite length_replicate. cbn. lia.
Defined.

(** ** What goes wrong *)


Lemma compute_threshold_done env usec keep : keep ≠ 0 → ∃ t, compute_threshold env usec keep = Done t.
Proof. intros Hk. unfold compute_threshold. rewrite decide_False by done. eauto. Qed.

(** C36: When every call wakes up early, the search for the last one that did not reads the
    element before the array. *)
Theorem all_early_faults {W} (sample : Z → W → Z * list Z * W) env usec nsamples samples w :
  let n := Z.to_nat nsamples in
  let l := times sample usec n w in
  one_sample sample usec → 1 ≤ nsamples ≤ INT_MAX → (n ≤ length samples)%nat → usec ≤ INT_MAX →
  Forall (λ x, 0 ≤ x < usec) l → do_timer_test sample env usec nsamples samples w = Fault.
Proof.
  intros n l Hs Hn Hlen Hu Hf. assert (length l = n) as Hl by (by apply length_times).
  assert (Forall (λ x, 0 ≤ x < 2147483648) l) as Hf' by (eapply Forall_impl; [done|]; cbn; clia).
  destruct (compute_threshold_done env usec (nsamples - compute_discard nsamples)) as [t Et].
  { destruct (discard_range nsamples); lia. }
  destruct (do_timer_test_judge sample env usec nsamples samples w t Hs Hn Hlen Hf' Et) as [w' E]. rewrite E. clear E.
  fold n l. set (D := descending l ++ drop n samples).
  assert (∀ i x, (i < n)%nat → D !! i = Some x → 0 ≤ x < usec) as HD.
  { intros i x Hi Hx. unfold D in Hx. rewrite lookup_app_l in Hx by (rewrite length_descending; lia).
    apply list_elem_of_lookup_2 in Hx. rewrite descending_elem in Hx. rewrite Forall_forall in Hf. by apply Hf. }
  assert (n ≤ length D)%nat as HlD by (unfold D; rewrite length_app, length_descending; lia).
  assert (∀ k, (k ≤ n)%nat → last_late k D usec = Fault) as Hlate.
  { induction k as [|k IH]; intros Hk; [done|]. cbn. destruct (lookup_lt_is_Some_2 D k) as [x Hx]; [lia|]. rewrite Hx.
    cbn [load mbind outcome_bind]. destruct (HD k x) as [_ ?]; [lia|done|]. rewrite decide_True by done. apply IH. lia. }
  unfold judge. cbv zeta. fold n. cbn [outliners]. destruct (lookup_lt_is_Some_2 D 0%nat) as [x Hx]; [lia|]. rewrite Hx.
  destruct (HD 0%nat x) as [Hx0 Hxu]; [lia|done|]. cbn [load mbind outcome_bind]. rewrite i64_ok by clia. cbn [mbind outcome_bind].
  rewrite decide_False by lia. cbn [mbind outcome_bind]. rewrite decide_False by lia. cbn [mbind outcome_bind]. by rewrite Hlate.
Qed.

Lemma all_early_faults_witness : do_timer_test playback desk 1000 2 (replicate 500 0) [900; 850] = Fault.
Proof.
  apply (all_early_faults playback desk 1000 2 (replicate 500 0) [900; 850]).
  - apply playback_one.
  - clia.
  - rewrite length_replicate. cbn. lia.
  - clia.
  - by_decide.
Defined.

(** When the samples fill the array and all of them are outliners, the search for the
    first one that is not reads the element behind the array. *)
Theorem all_outliners_fault {W} (sample : Z → W → Z * list Z * W) env usec nsamples samples w :
  let n := Z.to_nat nsamples in
  let l := times sample usec n w in
  one_sample sample usec → 1 ≤ nsamples ≤ INT_MAX → length samples = n → 0 ≤ usec ≤ INT_MAX →
  Forall (λ x, 10 * usec < x < 2147483648 ∧ u32 (3 * monotonic_resolution env) < x) l →
  do_timer_test sample env usec nsamples samples w = Fault.
Proof.
  intros n l Hs Hn Hlen Hu Hf. assert (length l = n) as Hl by (by apply length_times).
  assert (Forall (λ x, 0 ≤ x < 2147483648) l) as Hf' by (eapply Forall_impl; [done|]; cbn; lia).
  destruct (compute_threshold_done env usec (nsamples - compute_discard nsamples)) as [t Et].
  { destruct (discard_range nsamples); lia. }
  destruct (do_timer_test_judge sample env usec nsamples samples w t Hs Hn) as [w' E]; [lia|done|done|]. rewrite E. clear E.
  fold n l. rewrite drop_ge, app_nil_r by lia. unfold judge. cbv zeta. fold n.
  assert (∀ fuel i, (i + fuel = S n)%nat → (i ≤ n)%nat → outliners fuel env (descending l) usec nsamples i = Fault) as Hout.
  2:{ by rewrite Hout by lia. }
  induction fuel as [|fuel IH]; intros i Hi Hin; [lia|cbn [outliners]].
  destruct (decide (i < n)%nat) as [Hlt|Hge].
  - destruct (lookup_lt_is_Some_2 (descending l) i) as [x Hx]; [rewrite length_descending; lia|]. rewrite Hx.
    apply list_elem_of_lookup_2 in Hx. rewrite descending_elem in Hx. rewrite Forall_forall in Hf. destruct (Hf x Hx) as [Hx1 Hx2].
    cbn [load mbind outcome_bind]. rewrite i64_ok by clia. cbn [mbind outcome_bind]. rewrite decide_True by lia.
    rewrite decide_False by lia. apply IH; lia.
  - by rewrite lookup_ge_None_2 by (rewrite length_descending; lia).
Qed.

Lemma all_outliners_fault_witness : do_timer_test playback desk 1000 2 [0; 0] [30000; 20000] = Fault.
Proof.
  apply (all_outliners_fault playback desk 1000 2 [0; 0] [30000; 20000]).
  - apply playback_one.
  - clia.
  - reflexivity.
  - clia.
  - by_decide.
Defined.
