(* ===== verification/RtcTime.v ===== *)
(** * The real-time clock calendar (src/lib/tst_rtctime.c)

    The conversions between seconds since 1970 and the Gregorian date of the
    real-time clock, with the unsigned 32-bit arithmetic of the code.  The
    reference is the calendar itself: the lengths of the years and months before
    the date are added up.  The theorems show that tst_rtc_tm_to_time() counts as
    the calendar does and that tst_rtc_time_to_tm() is its inverse. *)
From stdpp Require Import base numbers option list.
From S2P Require Import Prelude CInt.

#[local] Open Scope Z_scope.

(** ** The code *)

Record rtc_time := RtcTm {
  tm_sec : Z; tm_min : Z; tm_hour : Z; tm_mday : Z; tm_mon : Z; tm_year : Z;
  tm_wday : Z; tm_yday : Z; tm_isdst : Z
}.

Definition LEAPS_THRU_END_OF (y : Z) : Z := y / 4 - y / 100 + y / 400.

Definition rtc_days_in_month : list Z := [31; 28; 31; 30; 31; 30; 31; 31; 30; 31; 30; 31].

Definition is_leap_year (year : Z) : bool :=
  (bool_decide (year mod 4 = 0) && bool_decide (year mod 100 ≠ 0)) || bool_decide (year mod 400 = 0).

Definition tst_mktime (year0 mon0 day hour min sec : Z) : Z :=
  let mon := u32 (mon0 - 2) in
  let '(mon, year) :=
    if decide (wrap32 mon ≤ 0) then (u32 (mon + 12), u32 (year0 - 1)) else (mon, year0) in
  (((u32 (u32 (year / 4 - year / 100) + year / 400 + u32 (367 * mon) / 12 + day)
     + u32 (year * 365) - 719499) * 24 + hour) * 60 + min) * 60 + sec.

Definition rtc_month_days (month : nat) (year : Z) : outcome Z :=
  d ← load (rtc_days_in_month !! month);
  Done (d + Z.b2z (is_leap_year year && bool_decide (month = 1%nat))).

(** while (days < 0) *)
Fixpoint year_loop (fuel : nat) (year days : Z) : outcome (Z * Z) :=
  if decide (days < 0) then
    match fuel with
    | O => Timeout
    | S fuel' =>
        let year := u32 (year - 1) in
        days ← i32 (days + (365 + Z.b2z (is_leap_year year)));
        year_loop fuel' year days
    end
  else Done (year, days).

(** for (month = 0; month < 11; month++), with [n] turns left *)
Fixpoint month_loop (n month : nat) (year days : Z) : outcome (nat * Z) :=
  match n with
  | O => Done (month, days)
  | S n' =>
      len ← rtc_month_days month year;
      newdays ← i32 (days - len);
      if decide (newdays < 0) then Done (month, days) else month_loop n' (S month) year newdays
  end.

Definition tst_rtc_time_to_tm (time : Z) : outcome rtc_time :=
  let days := wrap32 (Z.quot time 86400) in
  let secs := u32 (Z.rem time 86400) in
  d4 ← i32 (days + 4);
  y ← i32 (1970 + Z.quot days 365);
  let year := u32 y in
  let days := wrap32 (days - u32 ((year - 1970) * 365 + LEAPS_THRU_END_OF (u32 (year - 1))
                                  - LEAPS_THRU_END_OF (1970 - 1))) in
  '(year, days) ← year_loop (Z.to_nat (- days)) year days;
  '(month, mdays) ← month_loop 11 0 year days;
  let hour := secs / 3600 in
  let secs := u32 (secs - hour * 3600) in
  let min := secs / 60 in
  Done (RtcTm (secs - min * 60) min hour (mdays + 1) (Z.of_nat month) (wrap32 (u32 (year - 1900)))
              (Z.rem d4 7) (days + 1) 0).

Definition tst_rtc_tm_to_time (tm : rtc_time) : Z :=
  tst_mktime (u32 (tm_year tm + 1900)) (u32 (tm_mon tm + 1)) (u32 (tm_mday tm)) (u32 (tm_hour tm))
             (u32 (tm_min tm)) (u32 (tm_sec tm)).

(** ** The calendar *)

Definition year_days (y : Z) : Z := 365 + Z.b2z (is_leap_year y).
Definition month_len (y : Z) (m : nat) : Z :=
  nth m rtc_days_in_month 0 + Z.b2z (is_leap_year y && bool_decide (m = 1%nat)).

(** The lengths of the first [n] items of a sequence, added up. *)
Fixpoint total (f : nat → Z) (n : nat) : Z :=
  match n with O => 0 | S n' => total f n' + f n' end.

(** Days from 1 January 1970 to the first day of a year and of a month in it. *)
Definition year_start (y : Z) : Z := total (λ i, year_days (1970 + Z.of_nat i)) (Z.to_nat (y - 1970)).
Definition month_start (y : Z) (m : nat) : Z := total (month_len y) m.

Definition day_number (y : Z) (m : nat) (d : Z) : Z := year_start y + month_start y m + (d - 1).

Definition valid_date (y : Z) (m : nat) (d : Z) : Prop :=
  1970 ≤ y ∧ (m < 12)%nat ∧ 1 ≤ d ≤ month_len y m.

(** A date and a time of day, up to the year 5 million, where a count of days
    no longer fits an int. *)
Definition valid_tm (tm : rtc_time) : Prop :=
  valid_date (tm_year tm + 1900) (Z.to_nat (tm_mon tm)) (tm_mday tm) ∧ 0 ≤ tm_mon tm ∧
  tm_year tm + 1900 ≤ 5000000 ∧
  0 ≤ tm_hour tm < 24 ∧ 0 ≤ tm_min tm < 60 ∧ 0 ≤ tm_sec tm < 60.

Definition tm_day (tm : rtc_time) : Z :=
  day_number (tm_year tm + 1900) (Z.to_nat (tm_mon tm)) (tm_mday tm).

Definition tm_seconds (tm : rtc_time) : Z :=
  tm_day tm * 86400 + tm_hour tm * 3600 + tm_min tm * 60 + tm_sec tm.

(** ** Closed forms *)

Lemma leap_step y : 0 ≤ y → LEAPS_THRU_END_OF y = LEAPS_THRU_END_OF (y - 1) + Z.b2z (is_leap_year y).
Proof.
  intros Hy. unfold is_leap_year, LEAPS_THRU_END_OF.
  repeat case_bool_decide; cbn; qlia.
Qed.

Lemma leaps_bound y : 0 ≤ y → 0 ≤ LEAPS_THRU_END_OF y ∧ 4 * LEAPS_THRU_END_OF y ≤ y.
Proof. unfold LEAPS_THRU_END_OF. qlia. Qed.

Lemma year_start_closed y :
  1970 ≤ y → year_start y = 365 * (y - 1970) + LEAPS_THRU_END_OF (y - 1) - 477.
Proof.
  intros Hy. unfold year_start.
  assert (∀ n : nat, total (λ i, year_days (1970 + Z.of_nat i)) n
                     = 365 * Z.of_nat n + LEAPS_THRU_END_OF (1969 + Z.of_nat n) - 477) as H.
  { induction n as [|n IH]; [done|]. cbn [total]. rewrite IH. unfold year_days.
    pose proof (leap_step (1970 + Z.of_nat n) ltac:(lia)) as Hl.
    replace (1970 + Z.of_nat n - 1) with (1969 + Z.of_nat n) in Hl by lia.
    replace (1969 + Z.of_nat (S n)) with (1970 + Z.of_nat n) by lia. lia. }
  rewrite H. replace (1969 + Z.of_nat (Z.to_nat (y - 1970))) with (y - 1) by lia. lia.
Qed.

Lemma leaps_since_1970 q : 0 ≤ q → 477 ≤ LEAPS_THRU_END_OF (1969 + q).
Proof.
  intros Hq. pose proof (year_start_closed (1970 + q) ltac:(lia)) as H.
  replace (1970 + q - 1) with (1969 + q) in H by lia.
  assert (365 * q ≤ year_start (1970 + q)); [|lia].
  unfold year_start. rewrite Z.add_simpl_l. clear H. rewrite <- (Z2Nat.id q) at 1 by done.
  induction (Z.to_nat q) as [|n IH]; cbn [total]; [lia|].
  unfold year_days at 2. destruct (is_leap_year (1970 + Z.of_nat n)); cbn [Z.b2z]; lia.
Qed.

Lemma year_start_S y : 1970 ≤ y → year_start (y + 1) = year_start y + year_days y.
Proof.
  intros. rewrite !year_start_closed by lia. unfold year_days.
  pose proof (leap_step y ltac:(lia)). replace (y + 1 - 1) with y by lia. lia.
Qed.

Lemma month_days_len y m : (m < 12)%nat → rtc_month_days m y = Done (month_len y m).
Proof. intros Hm. unfold rtc_month_days, month_len. by do 12 (destruct m as [|m]; [done|]); lia. Qed.

Lemma month_len_bound y m : (m < 12)%nat → 28 ≤ month_len y m ≤ 31.
Proof.
  intros Hm. unfold month_len. destruct (is_leap_year y);
  do 12 (destruct m as [|m]; [by_decide|]); lia.
Qed.

Lemma month_start_S y m : month_start y (S m) = month_start y m + month_len y m.
Proof. done. Qed.

Lemma month_start_year y : month_start y 12 = year_days y.
Proof. unfold month_start, year_days, total, month_len. by destruct (is_leap_year y). Qed.

(** ** tst_rtc_tm_to_time() counts as the calendar does *)

(** Replace a closed subterm of the goal by its value. *)
Tactic Notation "vm_value" open_constr(p) :=
  match goal with |- context [?t] => unify t p; let v := eval vm_compute in t in change t with v end.

(** The year starts in March: month [m] is month [mon] of year [y] or [y - 1],
    and the days before it follow the 367/12 rule. *)
Lemma mktime_month y m :
  1970 ≤ y ≤ 5000000 → (m < 12)%nat →
  let mon := u32 (Z.of_nat m + 1 - 2) in
  ∃ mon' year', (if decide (wrap32 mon ≤ 0) then (u32 (mon + 12), u32 (y - 1)) else (mon, y)) = (mon', year') ∧
    y - 1 ≤ year' ≤ y ∧ 0 ≤ u32 (367 * mon') / 12 ≤ 367 ∧
    LEAPS_THRU_END_OF year' + 365 * year' + u32 (367 * mon') / 12 =
      LEAPS_THRU_END_OF (y - 1) + 365 * y + month_start y m - 29.
Proof.
  intros Hy Hm. pose proof (leap_step y ltac:(lia)) as Hl. unfold month_start, month_len.
  destruct (is_leap_year y); cbn [Z.b2z] in Hl;
  do 12 (destruct m as [|m]; [eexists _, _;
    (split; [by (rewrite decide_True by by_decide) || by (rewrite decide_False by by_decide)|]);
    rewrite ?(u32_small (y - 1)) by clia; split_and!; [lia|lia|by_decide..|];
    vm_value (u32 (367 * _) / 12); vm_value (total _ _); lia|]); lia.
Qed.

Lemma mktime_days y m d h mi s :
  valid_date y m d → y ≤ 5000000 →
  tst_mktime y (Z.of_nat m + 1) d h mi s = ((day_number y m d * 24 + h) * 60 + mi) * 60 + s.
Proof.
  intros (Hy & Hm & Hd) Hy'. pose proof (month_len_bound y m Hm).
  unfold day_number. rewrite year_start_closed by done. unfold tst_mktime.
  destruct (mktime_month y m) as (mon & year & -> & Hyear & Hdays & He); [done..|].
  pose proof (leaps_bound year ltac:(lia)). unfold LEAPS_THRU_END_OF in *.
  assert (year / 4 ≤ year) by qlia. assert (year / 100 ≤ year / 4) by qlia. assert (year / 400 ≤ year) by qlia.
  assert (0 ≤ year / 400) by qlia.
  rewrite (u32_small (year / 4 - _)), (u32_small (year * 365)) by clia.
  rewrite u32_small by clia. lia.
Qed.

Lemma tm_to_time_calendar tm : valid_tm tm → tst_rtc_tm_to_time tm = tm_seconds tm.
Proof.
  intros ((Hy & Hm & Hd) & Hmon & Hmax & Hh & Hmi & Hs).
  pose proof (month_len_bound (tm_year tm + 1900) _ Hm).
  unfold tst_rtc_tm_to_time, tm_seconds, tm_day. rewrite !u32_small by clia.
  rewrite <- (Z2Nat.id (tm_mon tm)) at 1 by done. rewrite mktime_days by done. lia.
Qed.

(** ** tst_rtc_time_to_tm() *)

Lemma year_days_bound y : 365 ≤ year_days y ≤ 366.
Proof. unfold year_days. destruct (is_leap_year y); cbn; lia. Qed.

Lemma year_loop_spec fuel y days :
  1970 ≤ y ≤ 10000000 → 0 ≤ year_start y + days → days < year_days y → -2000000000 ≤ days →
  (Z.to_nat (- days) ≤ fuel)%nat →
  ∃ y' d', year_loop fuel y days = Done (y', d') ∧ 1970 ≤ y' ≤ y ∧
    year_start y + days = year_start y' + d' ∧ 0 ≤ d' < year_days y'.
Proof.
  revert y days. induction fuel as [|fuel IH]; intros y days Hy Hd Hlt Hmin Hf; cbn [year_loop].
  { rewrite decide_False by lia. exists y, days. by repeat split; try lia. }
  case_decide as Hneg; [|exists y, days; by repeat split; try lia].
  assert (1970 < y) as Hy'.
  { destruct (decide (y = 1970)) as [->|]; [|lia]. change (year_start 1970) with 0 in Hd. lia. }
  pose proof (year_start_S (y - 1) ltac:(lia)) as HS. replace (y - 1 + 1) with y in HS by lia.
  pose proof (year_days_bound (y - 1)). rewrite u32_small by clia.
  fold (year_days (y - 1)). rewrite i32_ok by clia. cbn [mbind outcome_bind].
  destruct (IH (y - 1) (days + year_days (y - 1))) as (y' & d' & -> & ? & ? & ?); try lia.
  exists y', d'. repeat split; lia.
Qed.

Lemma month_loop_spec n m y d :
  (m + n = 11)%nat → 0 ≤ d → month_start y m + d < year_days y →
  ∃ m' d', month_loop n m y d = Done (m', d') ∧ (m' < 12)%nat ∧
    month_start y m + d = month_start y m' + d' ∧ 0 ≤ d' < month_len y m'.
Proof.
  revert m d. induction n as [|n IH]; intros m d Hm Hd Hlt; cbn [month_loop].
  { exists m, d. assert (m = 11%nat) as -> by lia. rewrite <- month_start_year in Hlt.
    rewrite (month_start_S y 11) in Hlt. repeat split; lia. }
  rewrite month_days_len by lia. cbn [mbind outcome_bind].
  pose proof (month_len_bound y m ltac:(lia)). pose proof (year_days_bound y).
  assert (0 ≤ month_start y m).
  { unfold month_start. assert (m ≤ 12)%nat as Hle by lia. clear -Hle. induction m as [|m IH]; cbn [total]; [lia|].
    pose proof (month_len_bound y m ltac:(lia)). specialize (IH ltac:(lia)). lia. }
  rewrite i32_ok by clia. cbn [mbind outcome_bind]. case_decide; [exists m, d; repeat split; lia|].
  pose proof (month_start_S y m).
  destruct (IH (S m) (d - month_len y m)) as (m' & d' & -> & ? & ? & ?); try lia.
  exists m', d'. repeat split; lia.
Qed.

(** The first guess of the year is not too small. *)
Lemma first_year D :
  0 ≤ D < 1824000000 →
  let y := 1970 + D / 365 in
  D - year_start y < year_days y ∧ -2000000000 ≤ D - year_start y ∧ 0 ≤ year_start y ≤ 2 * UINT_MAX `div` 3.
Proof.
  intros HD. pose proof (Z.div_mod D 365 ltac:(lia)). pose proof (Z.mod_pos_bound D 365 ltac:(lia)).
  set (q := D / 365) in *. cbv zeta. pose proof (year_days_bound (1970 + q)).
  rewrite year_start_closed by lia. replace (1970 + q - 1) with (1969 + q) by lia.
  pose proof (leaps_bound (1969 + q) ltac:(lia)). pose proof (leaps_since_1970 q ltac:(lia)).
  change (2 * UINT_MAX `div` 3) with 2863311530. lia.
Qed.

Lemma time_to_tm_spec time :
  0 ≤ time < 1824000000 * 86400 →
  ∃ tm, tst_rtc_time_to_tm time = Done tm ∧ valid_tm tm ∧ tm_seconds tm = time ∧
    tm_wday tm = (time / 86400 + 4) mod 7 ∧
    tm_yday tm = tm_day tm - year_start (tm_year tm + 1900) + 1 ∧ tm_isdst tm = 0.
Proof.
  intros Ht. unfold tst_rtc_time_to_tm.
  rewrite Z.quot_div_nonneg, Z.rem_mod_nonneg by lia.
  pose proof (Z.div_mod time 86400 ltac:(lia)) as HD. pose proof (Z.mod_pos_bound time 86400 ltac:(lia)) as Hr.
  set (D := time / 86400) in *. set (r := time mod 86400) in *.
  rewrite (wrap32_small D), (u32_small r), (i32_ok (D + 4)) by clia. cbn [mbind outcome_bind].
  rewrite Z.quot_div_nonneg by lia. destruct (first_year D) as (H1 & H2 & H3); [lia|].
  pose proof (Z.div_le_upper_bound D 365 5000000 ltac:(lia) ltac:(lia)). pose proof (Z.div_pos D 365 ltac:(lia) ltac:(lia)).
  rewrite i32_ok by clia. cbn [mbind outcome_bind]. rewrite (u32_small (1970 + _)) by clia.
  rewrite (u32_small (1970 + D / 365 - 1)) by clia. change (LEAPS_THRU_END_OF (1970 - 1)) with 477.
  rewrite (Z.mul_comm (1970 + D / 365 - 1970)), <- year_start_closed by lia.
  rewrite (u32_small (year_start _)), wrap32_small by clia.
  destruct (year_loop_spec (Z.to_nat (- (D - year_start (1970 + D / 365)))) (1970 + D / 365)
              (D - year_start (1970 + D / 365))) as (y & d & -> & Hy & HyD & Hd); [lia..|]. cbn [mbind outcome_bind].
  destruct (month_loop_spec 11 0 y d) as (m & md & -> & Hm & Hms & Hmd); [done|lia|change (month_start y 0) with 0; lia|].
  change (month_start y 0) with 0 in Hms. cbn [mbind outcome_bind].
  rewrite (u32_small (r - _)), (u32_small (y - 1900)), wrap32_small by (clia || qlia).
  eexists; split; [done|]. unfold valid_tm, valid_date, tm_seconds, tm_day, day_number; cbn.
  replace (y - 1900 + 1900) with y by lia. rewrite Nat2Z.id, Z.rem_mod_nonneg by lia.
  split_and!; try lia; qlia.
Qed.

(** ** A day has one date *)

Lemma month_start_mono y m m' : (m < m' ≤ 12)%nat → month_start y m + month_len y m ≤ month_start y m'.
Proof.
  intros [Hlt Hle]. rewrite <- month_start_S. induction m' as [|m' IH]; [lia|].
  destruct (decide (m = m')) as [->|]; [done|]. specialize (IH ltac:(lia) ltac:(lia)).
  rewrite (month_start_S y m'). pose proof (month_len_bound y m' ltac:(lia)). lia.
Qed.

Lemma year_start_mono y y' : 1970 ≤ y < y' → year_start y + year_days y ≤ year_start y'.
Proof.
  intros [Hy Hlt]. rewrite <- year_start_S by done.
  assert (∀ n : nat, year_start (y + 1) ≤ year_start (y + 1 + Z.of_nat n)) as H.
  { induction n as [|n IH]; [by rewrite Z.add_0_r|]. rewrite Nat2Z.inj_succ, <- Z.add_1_r, Z.add_assoc.
    rewrite (year_start_S (y + 1 + Z.of_nat n)) by lia. pose proof (year_days_bound (y + 1 + Z.of_nat n)). lia. }
  specialize (H (Z.to_nat (y' - (y + 1)))). by replace (y + 1 + Z.of_nat (Z.to_nat (y' - (y + 1)))) with y' in H by lia.
Qed.

Lemma day_number_in_year y m d :
  valid_date y m d → year_start y ≤ day_number y m d < year_start y + year_days y.
Proof.
  intros (Hy & Hm & Hd). unfold day_number. rewrite <- month_start_year.
  pose proof (month_start_mono y m 12 ltac:(lia)).
  destruct m as [|m]; [change (month_start y 0) with 0 in *; lia|].
  pose proof (month_start_mono y 0 (S m) ltac:(lia)). pose proof (month_len_bound y 0 ltac:(lia)).
  change (month_start y 0) with 0 in *. lia.
Qed.

Lemma day_number_inj y m d y' m' d' :
  valid_date y m d → valid_date y' m' d' → day_number y m d = day_number y' m' d' →
  y = y' ∧ m = m' ∧ d = d'.
Proof.
  intros V V' E. pose proof (day_number_in_year _ _ _ V). pose proof (day_number_in_year _ _ _ V').
  destruct V as (Hy & Hm & Hd), V' as (Hy' & Hm' & Hd').
  assert (y = y') as <-.
  { destruct (Z.lt_trichotomy y y') as [?|[?|?]]; [|done|].
    - pose proof (year_start_mono y y' ltac:(lia)). lia.
    - pose proof (year_start_mono y' y ltac:(lia)). lia. }
  unfold day_number in E. assert (m = m') as <-.
  { destruct (Nat.lt_trichotomy m m') as [?|[?|?]]; [|done|].
    - pose proof (month_start_mono y m m' ltac:(lia)). lia.
    - pose proof (month_start_mono y m' m ltac:(lia)). lia. }
  repeat split; lia.
Qed.

(** The date and the time of day, without the fields that follow from them. *)
Definition civil (tm : rtc_time) : Z * Z * Z * Z * Z * Z :=
  (tm_year tm, tm_mon tm, tm_mday tm, tm_hour tm, tm_min tm, tm_sec tm).

Lemma tm_seconds_inj tm tm' : valid_tm tm → valid_tm tm' → tm_seconds tm = tm_seconds tm' → civil tm = civil tm'.
Proof.
  intros (V & M & _ & H) (V' & M' & _ & H') E. unfold tm_seconds in E.
  assert (tm_day tm = tm_day tm') as Ed by lia.
  destruct (day_number_inj _ _ _ _ _ _ V V' Ed) as (? & Hm & ?). unfold civil.
  assert (tm_year tm = tm_year tm' ∧ tm_mon tm = tm_mon tm' ∧ tm_hour tm = tm_hour tm' ∧
          tm_min tm = tm_min tm' ∧ tm_sec tm = tm_sec tm') as (? & ? & ? & ? & ?) by lia.
  congruence.
Qed.

(** tst_rtc_tm_to_time() is the number of seconds that the Gregorian calendar
    counts from 1 January 1970 to the date, and tst_rtc_time_to_tm() gives the
    date back, for every valid date up to the year 4995000. *)
Theorem rtc_tm_time_tm tm :
  valid_tm tm → tm_year tm + 1900 < 4995000 →
  tst_rtc_tm_to_time tm = tm_seconds tm ∧
  ∃ tm', tst_rtc_time_to_tm (tst_rtc_tm_to_time tm) = Done tm' ∧ civil tm' = civil tm.
Proof.
  intros V Hmax. rewrite tm_to_time_calendar by done. split; [done|].
  assert (0 ≤ tm_day tm < 1824000000) as Hd.
  { destruct V as (V & _). pose proof (day_number_in_year _ _ _ V) as Hn. fold (tm_day tm) in Hn.
    destruct V as (Hy & _). rewrite year_start_closed in Hn by done.
    pose proof (leaps_bound (tm_year tm + 1900 - 1) ltac:(lia)).
    pose proof (leaps_since_1970 (tm_year tm + 1900 - 1970) ltac:(lia)) as Hl.
    replace (1969 + (tm_year tm + 1900 - 1970)) with (tm_year tm + 1900 - 1) in Hl by lia.
    pose proof (year_days_bound (tm_year tm + 1900)). lia. }
  destruct (time_to_tm_spec (tm_seconds tm)) as (tm' & E & V' & Es & _).
  { destruct V as (_ & _ & _ & H). unfold tm_seconds. lia. }
  exists tm'. split; [done|]. by apply tm_seconds_inj.
Qed.

Lemma rtc_tm_time_tm_witness :
  let tm := RtcTm 59 59 23 29 1 100 0 0 0 in
  tst_rtc_tm_to_time tm = 951868799 ∧
  ∃ tm', tst_rtc_time_to_tm (tst_rtc_tm_to_time tm) = Done tm' ∧ civil tm' = civil tm.
Proof.
  split; [by vm_compute|]. apply (rtc_tm_time_tm (RtcTm 59 59 23 29 1 100 0 0 0)); [|cbn; lia].
  unfold valid_tm, valid_date. split_and!; by_decide.
Defined.

(** tst_rtc_time_to_tm() ends for every time that is not negative, up to the
    year 4995000, with a valid date that tst_rtc_tm_to_time() maps back to the
    time; the day of the week and of the year are those of the calendar. *)
Theorem rtc_time_tm_time time :
  0 ≤ time < 1824000000 * 86400 →
  ∃ tm, tst_rtc_time_to_tm time = Done tm ∧ valid_tm tm ∧ tst_rtc_tm_to_time tm = time ∧
    tm_wday tm = (time / 86400 + 4) mod 7 ∧
    tm_yday tm = tm_day tm - year_start (tm_year tm + 1900) + 1 ∧ tm_isdst tm = 0.
Proof.
  intros Ht. destruct (time_to_tm_spec time Ht) as (tm & ? & V & E & Hrest). exists tm.
  by rewrite tm_to_time_calendar.
Qed.

Lemma rtc_time_tm_time_witness :
  ∃ tm, tst_rtc_time_to_tm 1709251199 = Done tm ∧ tst_rtc_tm_to_time tm = 1709251199 ∧
    civil tm = (124, 1, 29, 23, 59, 59).
Proof.
  destruct (rtc_time_tm_time 1709251199) as (tm & E & _ & Et & _); [lia|].
  exists tm. split_and!; [done|done|]. vm_compute in E. by simplify_eq/=.
Defined.
