(* ===== verification/Fzsync.v ===== *)
(** * Fuzzy synchronisation of two threads (src/include/tst_fuzzy_sync.h)

    The state of a pair of threads, the statistics with their float arithmetic,
    and the two threads as programs over the shared pair: one step is one access
    to an atomic variable or one stretch of code between two of them, so a
    schedule is an interleaving.  The accesses are sequentially consistent
    (src/include/tst_atomic.h).  sched_yield() changes nothing that is modelled,
    so both values of yield_in_wait have the same steps.  The environment answers
    each step with the remaining time, the clock, drand48() and the change of the
    bias that the test asks for. *)
From Stdlib Require Import SpecFloat.
From stdpp Require Import base strings numbers option list.
From S2P Require Import Prelude CInt CFloat Timer.

#[local] Open Scope Z_scope.

(** ** The pair *)

Record tst_fzsync_stat := Stat { avg : spec_float; avg_dev : spec_float; dev_ratio : spec_float }.

(** The fields a test may configure. *)
Record fz_params := FzParams {
  avg_alpha : spec_float; min_samples : Z; max_dev_ratio : spec_float;
  exec_time_p : spec_float; exec_loops : Z; yield_in_wait : bool
}.
Record fz_times := FzTimes { a_start : timespec; b_start : timespec; a_end : timespec; b_end : timespec }.
Record fz_stats := FzStats {
  diff_ss : tst_fzsync_stat; diff_sa : tst_fzsync_stat; diff_sb : tst_fzsync_stat;
  diff_ab : tst_fzsync_stat; spins_avg : tst_fzsync_stat
}.

Record tst_fzsync_pair := FzPair {
  params : fz_params; times : fz_times; stats : fz_stats;
  spins : Z; delay : Z; delay_bias : Z; sampling : Z;
  a_cntr : Z; b_cntr : Z; exit : Z;
  exec_time_start : spec_float; exec_loop : Z; thread_b : bool
}.

Definition set_times (t : fz_times) (p : tst_fzsync_pair) : tst_fzsync_pair :=
  FzPair (params p) t (stats p) (spins p) (delay p) (delay_bias p) (sampling p) (a_cntr p) (b_cntr p)
    (exit p) (exec_time_start p) (exec_loop p) (thread_b p).
Definition set_stats (st : fz_stats) (dl smp : Z) (p : tst_fzsync_pair) : tst_fzsync_pair :=
  FzPair (params p) (times p) st 0 dl (delay_bias p) smp (a_cntr p) (b_cntr p)
    (exit p) (exec_time_start p) (exec_loop p) (thread_b p).
Definition set_cntrs (a b spn : Z) (p : tst_fzsync_pair) : tst_fzsync_pair :=
  FzPair (params p) (times p) (stats p) spn (delay p) (delay_bias p) (sampling p) a b
    (exit p) (exec_time_start p) (exec_loop p) (thread_b p).
Definition set_loop (smp lp ex : Z) (p : tst_fzsync_pair) : tst_fzsync_pair :=
  FzPair (params p) (times p) (stats p) (spins p) (delay p) (delay_bias p) smp (a_cntr p) (b_cntr p)
    ex (exec_time_start p) lp (thread_b p).
Definition set_thread (ex : Z) (th : bool) (p : tst_fzsync_pair) : tst_fzsync_pair :=
  FzPair (params p) (times p) (stats p) (spins p) (delay p) (delay_bias p) (sampling p) (a_cntr p) (b_cntr p)
    ex (exec_time_start p) (exec_loop p) th.
Definition set_bias (bias : Z) (p : tst_fzsync_pair) : tst_fzsync_pair :=
  FzPair (params p) (times p) (stats p) (spins p) (delay p) bias (sampling p) (a_cntr p) (b_cntr p)
    (exit p) (exec_time_start p) (exec_loop p) (thread_b p).

(** ** Parameters *)

Definition rbind {A B} (m : result A) (f : A → result B) : result B :=
  match m with Ret a => f a | Brk t msg => Brk t msg end.

(** The macro CHK for a float field, with a default of type double. *)
Definition CHK_float (x : spec_float) (low hi : Z) (def : spec_float) (what : string) : result spec_float :=
  let x := if fnonzero x then x else to_float def in
  if flt x (float_of_Z low) then Brk TBROK (what +:+ " is less than the lower bound")
  else if flt (float_of_Z hi) x then Brk TBROK (what +:+ " is more than the upper bound")
  else Ret x.

Definition CHK_int (x low hi def : Z) (what : string) : result Z :=
  let x := if decide (x ≠ 0) then x else def in
  if decide (x < low) then Brk TBROK (what +:+ " is less than the lower bound")
  else if decide (hi < x) then Brk TBROK (what +:+ " is more than the upper bound")
  else Ret x.

Definition tst_fzsync_pair_init (ncpus : Z) (p : fz_params) : result fz_params :=
  rbind (CHK_float (avg_alpha p) 0 1 (dlit 25 100) "avg_alpha") (λ alpha,
  rbind (CHK_int (min_samples p) 20 INT_MAX 1024 "min_samples") (λ samples,
  rbind (CHK_float (max_dev_ratio p) 0 1 (dlit 1 10) "max_dev_ratio") (λ ratio,
  rbind (CHK_float (exec_time_p p) 0 1 (dlit 5 10) "exec_time_p") (λ time_p,
  rbind (CHK_int (exec_loops p) 20 INT_MAX 3000000 "exec_loops") (λ loops,
  Ret (FzParams alpha samples ratio time_p loops (if decide (ncpus ≤ 1) then true else yield_in_wait p))))))).

(** ** Statistics *)

Definition fzero : spec_float := S754_zero false.

Definition tst_init_stat (s : tst_fzsync_stat) : tst_fzsync_stat := Stat fzero fzero (dev_ratio s).

Definition tst_exp_moving_avg (alpha sample prev_avg : spec_float) : spec_float :=
  to_float (dadd (to_double (fmul alpha sample))
                 (dmul (dsub (double_of_Z 1) (to_double alpha)) (to_double prev_avg))).

Definition tst_upd_stat (s : tst_fzsync_stat) (alpha sample : spec_float) : tst_fzsync_stat :=
  let avg' := tst_exp_moving_avg alpha sample (avg s) in
  let dev' := tst_exp_moving_avg alpha (to_float (SFabs (to_double (fsub avg' sample)))) (avg_dev s) in
  Stat avg' dev' (to_float (SFabs (to_double (if fnonzero avg' then fdiv dev' avg' else float_of_Z 0)))).

Definition tst_upd_diff_stat (s : tst_fzsync_stat) (alpha : spec_float) (t1 t2 : timespec) : outcome tst_fzsync_stat :=
  d ← tst_timespec_diff_ns t1 t2; Done (tst_upd_stat s alpha (float_of_Z d)).

Definition over_max_dev (p : tst_fzsync_pair) : bool :=
  let max_dev := max_dev_ratio (params p) in
  let st := stats p in
  flt max_dev (dev_ratio (diff_ss st)) || flt max_dev (dev_ratio (diff_sa st)) ||
  flt max_dev (dev_ratio (diff_sb st)) || flt max_dev (dev_ratio (diff_ab st)) ||
  flt max_dev (dev_ratio (spins_avg st)).

(** The samples of one iteration. *)
Definition upd_stats (p : tst_fzsync_pair) : outcome fz_stats :=
  let alpha := avg_alpha (params p) in
  let t := times p in
  let st := stats p in
  ss ← tst_upd_diff_stat (diff_ss st) alpha (a_start t) (b_start t);
  sa ← tst_upd_diff_stat (diff_sa st) alpha (a_end t) (a_start t);
  sb ← tst_upd_diff_stat (diff_sb st) alpha (b_end t) (b_start t);
  ab ← tst_upd_diff_stat (diff_ab st) alpha (a_end t) (b_end t);
  Done (FzStats ss sa sb ab (tst_upd_stat (spins_avg st) alpha (float_of_Z (spins p)))).

(** The random delay, a number of spins. *)
Definition random_delay (p : tst_fzsync_pair) (drand48 : spec_float) : outcome Z :=
  let st := stats p in
  let spn := avg (spins_avg st) in
  let per_spin_time := fdiv (SFabs (avg (diff_ab st))) (if flt (float_of_Z 1) spn then spn else float_of_Z 1) in
  let time_delay := to_float (dsub (dmul drand48 (to_double (fadd (avg (diff_sa st)) (avg (diff_sb st)))))
                                   (to_double (avg (diff_sb st)))) in
  c ← int_of_float (ddiv (dmul (dlit 11 10) (to_double time_delay)) (to_double per_spin_time));
  dl ← i32 (delay_bias p + c);
  (* the range is printed when the first delay is introduced *)
  _ ← (if decide (sampling p = 0) then
         lo ← int_of_float (fdiv (avg (diff_sb st)) per_spin_time);
         lo ← i32 (- lo);
         _ ← i32 (lo + delay_bias p);
         hi ← int_of_float (fdiv (avg (diff_sa st)) per_spin_time);
         i32 (hi + delay_bias p)
       else Done 0);
  Done dl.

Definition tst_fzsync_pair_update (drand48 : spec_float) (p : tst_fzsync_pair) : outcome tst_fzsync_pair :=
  let smp := sampling p in
  if bool_decide (0 < smp) || over_max_dev p then
    st ← upd_stats p;
    Done (set_stats st (delay_bias p) (if decide (0 < smp) then smp - 1 else smp) p)
  else if fle (float_of_Z 1) (SFabs (avg (diff_ab (stats p)))) then
    dl ← random_delay p drand48;
    Done (set_stats (stats p) dl (if decide (smp = 0) then -1 else smp) p)
  else Done (set_stats (stats p) (delay_bias p) (if decide (smp = 0) then -1 else smp) p).

Definition tst_fzsync_pair_add_bias (change : Z) (p : tst_fzsync_pair) : outcome tst_fzsync_pair :=
  if decide (0 < sampling p) then b ← i32 (delay_bias p + change); Done (set_bias b p) else Done p.

(** ** tst_fzsync_pair_wait()

    The places in the function where a shared variable is accessed next. *)
Inductive wpc :=
  | W_inc                (* tst_atomic_inc(other_cntr) *)
  | W_full_gt            (* tst_atomic_load(our_cntr) > 0 *)
  | W_full_lt            (* tst_atomic_load(our_cntr) < INT_MAX *)
  | W_full_spin          (* if (spins) ( *spins)++, first loop *)
  | W_reset              (* tst_atomic_store(0, other_cntr) *)
  | W_drain              (* tst_atomic_load(our_cntr) > 1 *)
  | W_our                (* the left operand of our < other *)
  | W_other (our : Z)    (* the right operand *)
  | W_spin.              (* if (spins) ( *spins)++, last loop *)

Definition count_spin (count : bool) (spn : Z) : outcome Z := if count then i32 (spn + 1) else Done spn.

(** One step: the next place, or [None] when the function returns, and the new
    values of *other_cntr and *spins; [count] is [spins != NULL]. *)
Definition wait_step (w : wpc) (our other spn : Z) (count : bool) : outcome (option wpc * Z * Z) :=
  match w with
  | W_inc =>
      let v := wrap32 (other + 1) in
      Done (Some (if decide (v = INT_MAX) then W_full_gt else W_our), v, spn)
  | W_full_gt => Done (Some (if decide (0 < our) then W_full_lt else W_reset), other, spn)
  | W_full_lt => Done (Some (if decide (our < INT_MAX) then W_full_spin else W_reset), other, spn)
  | W_full_spin => spn ← count_spin count spn; Done (Some W_full_gt, other, spn)
  | W_reset => Done (Some W_drain, 0, spn)
  | W_drain => Done (if decide (1 < our) then Some W_drain else None, other, spn)
  | W_our => Done (Some (W_other our), other, spn)
  | W_other x => Done (if decide (x < other) then Some W_spin else None, other, spn)
  | W_spin => spn ← count_spin count spn; Done (Some W_our, other, spn)
  end.

(** ** The two threads

    Thread A: while (tst_fzsync_run_a(pair)) (tst_fzsync_start_race_a(pair); the
    racing code; tst_fzsync_end_race_a(pair); the rest of the iteration). *)
Inductive apc :=
  | A_run                        (* tst_fzsync_run_a() up to its wait *)
  | A_run_wait (ex : Z) (w : wpc)
  | A_cleanup                    (* tst_fzsync_pair_cleanup() *)
  | A_update                     (* tst_fzsync_start_race_a(): tst_fzsync_pair_update() *)
  | A_start_wait (w : wpc)
  | A_delay                      (* delay = pair->delay *)
  | A_delaying (d : Z)           (* while (delay < 0) delay++ *)
  | A_start                      (* tst_fzsync_time(&pair->a_start) *)
  | A_race                       (* the racing code *)
  | A_end                        (* tst_fzsync_end_race_a(): a_end *)
  | A_end_wait (w : wpc)
  | A_body                       (* the rest of the iteration *)
  | A_done.

(** Thread B: while (tst_fzsync_run_b(pair)) (start; the racing code; end). *)
Inductive bpc :=
  | B_run_wait (w : wpc)
  | B_exit                       (* tst_atomic_load(&pair->exit) *)
  | B_start_wait (w : wpc)
  | B_delay
  | B_delaying (d : Z)
  | B_start
  | B_race
  | B_end
  | B_end_wait (w : wpc)
  | B_done.

(** The system of both threads.  The four counters are ghost state that no step
    reads: the waits each thread has begun (incremented the counter of the other
    one) and has returned from. *)
Record sys := Sys {
  pair : tst_fzsync_pair; pa : apc; pb : bpc;
  begun_a : Z; returned_a : Z; begun_b : Z; returned_b : Z
}.

(** Who makes the next step, and the answers of the environment. *)
Inductive tid := ThreadA | ThreadB.
#[export] Instance tid_eq_dec : EqDecision tid.
Proof. solve_decision. Defined.

Record event := Ev { who : tid; remaining : Z; now : timespec; drand48 : spec_float; bias : Z }.

Definition is_inc (w : wpc) : bool := match w with W_inc => true | _ => false end.

(** One step of a wait in thread A and in thread B; [k] places the thread. *)
Definition wait_a (count : bool) (w : wpc) (k : option wpc → apc) (s : sys) : outcome sys :=
  let p := pair s in
  '(w', c, spn) ← wait_step w (a_cntr p) (b_cntr p) (spins p) count;
  Done (Sys (set_cntrs (a_cntr p) c spn p) (k w') (pb s)
            (begun_a s + Z.b2z (is_inc w)) (returned_a s + Z.b2z (bool_decide (w' = None)))
            (begun_b s) (returned_b s)).

Definition wait_b (count : bool) (w : wpc) (k : option wpc → bpc) (s : sys) : outcome sys :=
  let p := pair s in
  '(w', c, spn) ← wait_step w (b_cntr p) (a_cntr p) (spins p) count;
  Done (Sys (set_cntrs c (b_cntr p) spn p) (pa s) (k w')
            (begun_a s) (returned_a s)
            (begun_b s + Z.b2z (is_inc w)) (returned_b s + Z.b2z (bool_decide (w' = None)))).

Definition go_a (p : tst_fzsync_pair) (pc : apc) (s : sys) : sys :=
  Sys p pc (pb s) (begun_a s) (returned_a s) (begun_b s) (returned_b s).
Definition go_b (p : tst_fzsync_pair) (pc : bpc) (s : sys) : sys :=
  Sys p (pa s) pc (begun_a s) (returned_a s) (begun_b s) (returned_b s).

(** tst_fzsync_run_a() up to its wait: the decision to exit, stored for thread B. *)
Definition run_a_decide (rem : Z) (p : tst_fzsync_pair) : outcome (Z * tst_fzsync_pair) :=
  let rem_p := fsub (float_of_Z 1) (fdiv (float_of_Z rem) (exec_time_start p)) in
  let time_p := exec_time_p (params p) in
  let smp := if flt (fmul time_p (to_float (dlit 5 10))) rem_p && bool_decide (0 < sampling p)
             then 0 else sampling p in
  let ex := if flt time_p rem_p then 1 else 0 in
  lp ← i32 (exec_loop p + 1);
  let ex := if decide (exec_loops (params p) < lp) then 1 else ex in
  Done (ex, set_loop smp lp ex p).

Definition step_a (e : event) (s : sys) : outcome sys :=
  let p := pair s in
  match pa s with
  | A_run =>
      '(ex, p) ← run_a_decide (remaining e) p; Done (go_a p (A_run_wait ex W_inc) s)
  | A_run_wait ex w =>
      wait_a false w (λ o, match o with
                           | Some w' => A_run_wait ex w'
                           | None => if decide (ex ≠ 0) then A_cleanup else A_update
                           end) s
  | A_cleanup =>
      if thread_b p then
        if decide (exit p = 0) then
          (* pthread_cancel() and join *)
          Done (Sys (set_thread 1 false p) A_done B_done (begun_a s) (returned_a s) (begun_b s) (returned_b s))
        else match pb s with
             | B_done => Done (go_a (set_thread (exit p) false p) A_done s)
             | _ => Done s
             end
      else Done (go_a p A_done s)
  | A_update => p ← tst_fzsync_pair_update (drand48 e) p; Done (go_a p (A_start_wait W_inc) s)
  | A_start_wait w => wait_a false w (λ o, match o with Some w' => A_start_wait w' | None => A_delay end) s
  | A_delay => Done (go_a p (A_delaying (delay p)) s)
  | A_delaying d => Done (go_a p (if decide (d < 0) then A_delaying (d + 1) else A_start) s)
  | A_start =>
      let t := times p in
      Done (go_a (set_times (FzTimes (now e) (b_start t) (a_end t) (b_end t)) p) A_race s)
  | A_race => Done (go_a p A_end s)
  | A_end =>
      let t := times p in
      Done (go_a (set_times (FzTimes (a_start t) (b_start t) (now e) (b_end t)) p) (A_end_wait W_inc) s)
  | A_end_wait w => wait_a true w (λ o, match o with Some w' => A_end_wait w' | None => A_body end) s
  | A_body => p ← tst_fzsync_pair_add_bias (bias e) p; Done (go_a p A_run s)
  | A_done => Done s
  end.

Definition step_b (e : event) (s : sys) : outcome sys :=
  let p := pair s in
  match pb s with
  | B_run_wait w => wait_b false w (λ o, match o with Some w' => B_run_wait w' | None => B_exit end) s
  | B_exit => Done (go_b p (if decide (exit p = 0) then B_start_wait W_inc else B_done) s)
  | B_start_wait w => wait_b false w (λ o, match o with Some w' => B_start_wait w' | None => B_delay end) s
  | B_delay => Done (go_b p (B_delaying (delay p)) s)
  | B_delaying d => Done (go_b p (if decide (0 < d) then B_delaying (d - 1) else B_start) s)
  | B_start =>
      let t := times p in
      Done (go_b (set_times (FzTimes (a_start t) (now e) (a_end t) (b_end t)) p) B_race s)
  | B_race => Done (go_b p B_end s)
  | B_end =>
      let t := times p in
      Done (go_b (set_times (FzTimes (a_start t) (b_start t) (a_end t) (now e)) p) (B_end_wait W_inc) s)
  | B_end_wait w =>
      wait_b true w (λ o, match o with Some w' => B_end_wait w' | None => B_run_wait W_inc end) s
  | B_done => Done s
  end.

Definition step (e : event) (s : sys) : outcome sys :=
  match who e with ThreadA => step_a e s | ThreadB => step_b e s end.

(** A run of the system under a schedule. *)
Fixpoint run (evs : list event) (s : sys) : outcome sys :=
  match evs with
  | [] => Done s
  | e :: evs' => s ← step e s; run evs' s
  end.

(** tst_fzsync_pair_reset() of a pair whose thread B is not running, which starts
    thread B. *)
Definition tst_fzsync_pair_reset (rem : Z) (p : tst_fzsync_pair) : tst_fzsync_pair :=
  let st := stats p in
  FzPair (params p) (times p)
    (FzStats (tst_init_stat (diff_ss st)) (tst_init_stat (diff_sa st)) (tst_init_stat (diff_sb st))
             (tst_init_stat (diff_ab st)) (tst_init_stat (spins_avg st)))
    (spins p) 0 0 (min_samples (params p)) 0 0 0 (float_of_Z rem) 0 true.

(** Both threads at their beginning. *)
Definition start (rem : Z) (p : tst_fzsync_pair) : sys :=
  Sys (tst_fzsync_pair_reset rem p) A_run (B_run_wait W_inc) 0 0 0 0.

(** ** The sampling phase *)

(** The clock readings of an iteration: normalized and within 126 years of zero. *)
Definition reading (t : timespec) : Prop := normalized t ∧ -4000000000 ≤ tv_sec t ≤ 4000000000.
Definition readings (t : fz_times) : Prop :=
  reading (a_start t) ∧ reading (b_start t) ∧ reading (a_end t) ∧ reading (b_end t).

Lemma upd_diff_stat_total s alpha t1 t2 :
  reading t1 → reading t2 →
  tst_upd_diff_stat s alpha t1 t2 = Done (tst_upd_stat s alpha (float_of_Z (ns t1 - ns t2))).
Proof. intros [] []. unfold tst_upd_diff_stat. by rewrite timespec_diff_ns_exact. Qed.

Lemma upd_stats_total p : readings (times p) → ∃ st, upd_stats p = Done st.
Proof.
  intros (? & ? & ? & ?). unfold upd_stats. eexists.
  rewrite !upd_diff_stat_total by done. reflexivity.
Qed.

(** While samples are due, an update always succeeds, takes one sample, clears
    the spins and leaves the bias as the delay; afterwards an update never starts
    a new sampling phase, and a delay other than the bias is chosen only when
    every deviation is within its bound, which ends the sampling state for good. *)
Theorem fzsync_sampling r p :
  readings (times p) →
  (0 < sampling p → ∃ p', tst_fzsync_pair_update r p = Done p' ∧ delay p' = delay_bias p ∧
                          sampling p' = sampling p - 1 ∧ spins p' = 0) ∧
  (∀ p', tst_fzsync_pair_update r p = Done p' → sampling p ≤ 0 →
     sampling p' ≤ 0 ∧ spins p' = 0 ∧
     (over_max_dev p = true → delay p' = delay_bias p ∧ sampling p' = sampling p) ∧
     (delay p' ≠ delay_bias p → over_max_dev p = false ∧ sampling p' < 0)).
Proof.
  intros Hr. unfold tst_fzsync_pair_update. split.
  - intros Hs. rewrite bool_decide_true by done. destruct (upd_stats_total p Hr) as [st ->].
    eexists. split; [reflexivity|]. cbn. by rewrite decide_True.
  - intros p' Hu Hs. rewrite bool_decide_false in Hu by lia. cbn [orb] in Hu.
    destruct (over_max_dev p); [|destruct (fle _ _)].
    + apply outcome_bind_Done in Hu as (st & _ & Hu). injection Hu as <-. cbn. rewrite decide_False by lia.
      split_and!; [lia|done|done|by intros ?].
    + apply outcome_bind_Done in Hu as (dl & _ & Hu). injection Hu as <-. cbn.
      split_and!; [case_decide; lia|done|done|intros _; split; [done|case_decide; lia]].
    + injection Hu as <-. cbn. split_and!; [case_decide; lia|done|done|by intros ?].
Qed.

Lemma fzsync_sampling_witness :
  let z := Stat fzero fzero fzero in
  let t := Timespec 1 0 in
  let p := FzPair (FzParams (to_float (dlit 25 100)) 1024 (to_float (dlit 1 10)) (to_float (dlit 5 10)) 1 false)
             (FzTimes t t t t) (FzStats z z z z z) 7 0 3 5 0 0 0 fzero 0 true in
  ∃ p', tst_fzsync_pair_update fzero p = Done p' ∧ delay p' = 3 ∧ sampling p' = 4 ∧ spins p' = 0.
Proof.
  intros z t p. destruct (fzsync_sampling fzero p) as [H _].
  - unfold readings, reading. split_and!; by_decide.
  - by apply H.
Defined.
