(* ===== verification/FzsyncBarrier.v ===== *)
(** * The wait of fuzzy synchronisation is a barrier

    The invariant of tst_fzsync_pair_wait(), stated for one thread against the
    other, so that every step is verified once for both threads. *)
From Stdlib Require Import SpecFloat.
From stdpp Require Import base strings numbers option list.
From S2P Require Import Prelude CInt CFloat Timer Fzsync.

#[local] Open Scope Z_scope.

(** ** The view of one thread *)

(** Where the thread is inside a wait it has begun, the waits begun and returned
    from, and the counter it increments. *)
Record view := View { vw : option wpc; vn : Z; vr : Z; vc : Z }.

Definition inside (w : wpc) : option wpc := if is_inc w then None else Some w.

Definition a_wait (pc : apc) : option wpc :=
  match pc with A_run_wait _ w | A_start_wait w | A_end_wait w => inside w | _ => None end.
Definition b_wait (pc : bpc) : option wpc :=
  match pc with B_run_wait w | B_start_wait w | B_end_wait w => inside w | _ => None end.

Definition view_a (s : sys) : view := View (a_wait (pa s)) (begun_a s) (returned_a s) (b_cntr (pair s)).
Definition view_b (s : sys) : view := View (b_wait (pb s)) (begun_b s) (returned_b s) (a_cntr (pair s)).

(** The INT_MAX-th wait, in which the counter is set back, before the reset. *)
Definition prereset (w : wpc) : bool :=
  match w with W_full_gt | W_full_lt | W_full_spin | W_reset => true | _ => false end.
Definition low (w : wpc) : bool := match w with W_our | W_other _ | W_spin => true | _ => false end.

Definition prereset_v (X : view) : bool := match vw X with Some w => prereset w | None => false end.

(** The value of the counter of a thread. *)
Definition counter_ok (X : view) : Prop :=
  vc X = if prereset_v X then INT_MAX else vn X mod INT_MAX.

(** The thread is in the branch of its wait. *)
Definition branch_ok (X : view) : Prop :=
  match vw X with
  | None => vn X = vr X
  | Some w => vn X = vr X + 1 ∧ (if low w then vn X mod INT_MAX ≠ 0 else is_inc w = false ∧ vn X mod INT_MAX = 0)
  end.

(** What a thread knows about the other one from the value it has read. *)
Definition known (X Y : view) : Prop :=
  match vw X with
  | Some (W_other x) => vc X ≤ x → vn X ≤ vn Y
  | Some W_reset | Some W_drain => vn X ≤ vn Y
  | _ => True
  end.

(** A thread that has left a wait in which the counters are set back has seen the
    counter of the other thread set back. *)
Definition drained (X Y : view) : Prop := vn Y ≤ vr X → prereset_v Y = false.

Definition half (X Y : view) : Prop :=
  0 ≤ vr X ∧ counter_ok X ∧ branch_ok X ∧ vr X ≤ vn Y ∧ drained X Y ∧ known X Y.

(** The thread will count a spin before it reads the counter again. *)
Definition spinning (X : view) : Prop :=
  match vw X with
  | Some W_spin | Some W_full_spin => True
  | Some (W_other x) => x < vc X
  | _ => False
  end.

Definition barrier (X Y : view) : Prop :=
  half X Y ∧ half Y X ∧ (vn X = vn Y → spinning X → spinning Y → False).

Lemma barrier_sym X Y : barrier X Y → barrier Y X.
Proof. intros (? & ? & H). split_and!; [done..|]. intros E ? ?. by apply H. Qed.

Ltac view_unfold :=
  unfold barrier, half, counter_ok, branch_ok, known, drained, spinning, prereset_v in *;
  cbn [vw vn vr vc] in *.

(** Beginning a wait. *)
Lemma barrier_begin X Y w' c' spn spn' count :
  barrier X Y → vw X = None →
  wait_step W_inc (vc Y) (vc X) spn count = Done (w', c', spn') →
  barrier (View w' (vn X + 1) (vr X) c') Y ∧ w' ≠ None ∧ w' ≠ Some W_inc.
Proof.
  intros HB HX Hs. cbn in Hs. injection Hs as <- <- <-. split; [|by case_decide].
  destruct X as [wX nX rX cX], Y as [wY nY rY cY]. cbn [vw vn vr vc] in *. subst wX.
  view_unfold. destruct HB as ((? & HcX & HbX & ? & Hdr & _) & (? & HcY & HbY & ? & HdY & HkY) & Hsp).
  subst cX nX. unfold INT_MAX in *. rewrite wrap32_small by qlia.
  case_decide as HM; cbn [prereset low is_inc].
  - split_and!; try qlia; destruct wY as [[]|]; cbn in *; try qlia; try done.
  - split_and!; try qlia; destruct wY as [[]|]; cbn in *; try qlia; try done.
Qed.

(** A step inside a wait. *)
Lemma barrier_move X Y w w' c' spn spn' count :
  barrier X Y → vw X = Some w →
  wait_step w (vc Y) (vc X) spn count = Done (w', c', spn') →
  barrier (View w' (vn X) (vr X + Z.b2z (bool_decide (w' = None))) c') Y.
Proof.
  intros HB HX Hs.
  destruct X as [wX nX rX cX], Y as [wY nY rY cY]. cbn [vw vn vr vc] in *. subst wX.
  view_unfold. destruct HB as ((? & HcX & HbX & ? & Hdr & HkX) & (? & HcY & HbY & ? & HdY & HkY) & Hsp).
  subst cX. destruct HbX as [-> HbX]. unfold INT_MAX in *.
  destruct w; cbn in Hs, HbX, HkX, Hdr, Hsp |- *; try (by destruct HbX);
    try (apply outcome_bind_Done in Hs as (spn1 & _ & Hs)); try case_decide; simplify_eq/=;
    split_and!; try qlia; destruct wY as [[]|]; cbn in *; try qlia; done.
Qed.

(** ** Progress

    A thread is blocked in a wait as long as the other thread has not begun the
    same wait, or, when it has set its counter back, as long as the other thread
    has not.  The rank of a thread is a bound on the steps it needs to return
    once it is no longer blocked. *)
Definition blocked (X Y : view) : bool :=
  match vw X with
  | None | Some W_reset => false
  | Some W_drain => bool_decide (1 < vc Y)
  | Some _ => bool_decide (vn Y < vn X)
  end.

Definition rank (X Y : view) : Z :=
  match vw X with
  | None => 0
  | Some W_reset => 2
  | Some W_drain => 1
  | Some w =>
      if decide (vn Y < vn X) then 8
      else match w with
           | W_full_gt => if decide (0 < vc Y) then 6 else 3
           | W_full_spin => if decide (0 < vc Y) then 7 else 4
           | W_full_lt => 5
           | W_our => 2
           | W_other x => if decide (x < vc X) then 4 else 1
           | _ => 3
           end
  end.

Lemma rank_range X Y : 0 ≤ rank X Y ≤ 8.
Proof. unfold rank. repeat case_match; lia. Qed.

(** A step of one thread: the rank of the other one does not grow and it stays
    free; the own rank falls, unless the thread is blocked and stays so. *)
Definition settles (X X' Y : view) : Prop :=
  rank Y X' ≤ rank Y X ∧ (blocked Y X = false → blocked Y X' = false).

Ltac rank_cases :=
  unfold settles, rank, blocked in *; cbn [vw vn vr vc] in *;
  repeat (case_bool_decide || case_decide); split_and!; intros; try done; try qlia.

Lemma settles_begin X Y w' c' spn spn' count :
  barrier X Y → vw X = None →
  wait_step W_inc (vc Y) (vc X) spn count = Done (w', c', spn') →
  settles X (View w' (vn X + 1) (vr X) c') Y.
Proof.
  intros HB HX Hs. cbn in Hs. injection Hs as <- <- <-.
  destruct X as [wX nX rX cX], Y as [wY nY rY cY]. cbn [vw vn vr vc] in *. subst wX.
  view_unfold. destruct HB as ((? & HcX & HbX & ? & Hdr & _) & (? & HcY & HbY & ? & HdY & HkY) & _).
  subst cX nX. unfold INT_MAX in *. rewrite wrap32_small by qlia.
  destruct wY as [[]|]; cbn [prereset low is_inc] in *; rank_cases.
Qed.

Lemma settles_move X Y w w' c' spn spn' count :
  barrier X Y → vw X = Some w →
  wait_step w (vc Y) (vc X) spn count = Done (w', c', spn') →
  settles X (View w' (vn X) (vr X + Z.b2z (bool_decide (w' = None))) c') Y.
Proof.
  intros HB HX Hs.
  destruct X as [wX nX rX cX], Y as [wY nY rY cY]. cbn [vw vn vr vc] in *. subst wX.
  view_unfold. destruct HB as ((? & HcX & HbX & ? & Hdr & HkX) & (? & HcY & HbY & ? & HdY & HkY) & _).
  subst cX. destruct HbX as [-> HbX]. unfold INT_MAX in *.
  destruct w; cbn in Hs, HbX, HkX, Hdr |- *; try (by destruct HbX);
    try (apply outcome_bind_Done in Hs as (spn1 & _ & Hs)); try (case_decide; simplify_eq/=); simplify_eq/=;
    destruct wY as [[]|]; cbn [prereset low is_inc] in *; rank_cases.
Qed.

(** The own rank of a step. *)
Lemma rank_move X Y w w' c' spn spn' count :
  barrier X Y → vw X = Some w →
  wait_step w (vc Y) (vc X) spn count = Done (w', c', spn') →
  let X' := View w' (vn X) (vr X + Z.b2z (bool_decide (w' = None))) c' in
  if blocked X Y then w' ≠ None ∧ rank X' Y = rank X Y else w' = None ∨ rank X' Y < rank X Y.
Proof.
  intros HB HX Hs.
  destruct X as [wX nX rX cX], Y as [wY nY rY cY]. cbn [vw vn vr vc] in *. subst wX.
  view_unfold. destruct HB as ((? & HcX & HbX & ? & Hdr & HkX) & (? & HcY & HbY & ? & HdY & HkY) & _).
  subst cX. destruct HbX as [-> HbX]. unfold INT_MAX in *.
  destruct w; cbn in Hs, HbX, HkX, Hdr |- *; try (by destruct HbX);
    try (apply outcome_bind_Done in Hs as (spn1 & _ & Hs)); try (case_decide; simplify_eq/=); simplify_eq/=;
    unfold rank, blocked; cbn [vw vn vr vc];
    repeat (case_bool_decide || case_decide); try (by left); try (right; lia); try (split; [done|lia]); try lia;
    exfalso; destruct wY as [[]|]; cbn [prereset low is_inc] in *; qlia.
Qed.

(** Two threads never block each other, and a thread that is not in a wait blocks
    the other one only by not having begun the same wait. *)
Lemma not_both_blocked X Y : barrier X Y → blocked X Y = true → blocked Y X = true → False.
Proof.
  intros HB. destruct X as [wX nX rX cX], Y as [wY nY rY cY].
  view_unfold. destruct HB as ((? & HcX & HbX & ? & Hdr & HkX) & (? & HcY & HbY & ? & HdY & HkY) & _).
  unfold blocked; cbn [vw vn vr vc]. unfold INT_MAX in *.
  destruct wX as [[]|], wY as [[]|]; cbn in *; repeat case_bool_decide; intros; try done; qlia.
Qed.

Lemma blocked_by_outside X Y : barrier X Y → vw Y = None → blocked X Y = true → vn Y < vn X.
Proof.
  intros HB HY. destruct X as [wX nX rX cX], Y as [wY nY rY cY]. cbn in HY. subst wY.
  view_unfold. destruct HB as ((? & HcX & HbX & ? & Hdr & HkX) & (? & HcY & HbY & ? & HdY & HkY) & _).
  unfold blocked; cbn [vw vn vr vc]. unfold INT_MAX in *.
  destruct wX as [[]|]; cbn in *; repeat case_bool_decide; intros; try done; qlia.
Qed.
