(* ===== verification/FzsyncProtocol.v ===== *)
(** * The protocol of the two threads of fuzzy synchronisation

    The iterations of both threads on top of the barrier, and the theorems: the
    barrier, the freedom from data races, the agreement on the exit, and the
    termination of both threads under every fair schedule. *)
From Stdlib Require Import SpecFloat.
From stdpp Require Import base strings numbers option list.
From S2P Require Import Prelude CInt CFloat Timer Fzsync FzsyncBarrier.

#[local] Open Scope Z_scope.

(** ** Steps of the threads *)

(** The place a wait continues at is inside it. *)
Lemma wait_step_inside w our other spn count w' c spn' :
  wait_step w our other spn count = Done (Some w', c, spn') → is_inc w' = false.
Proof.
  destruct w; cbn; try (intros (? & _ & ?)%outcome_bind_Done); try case_decide; naive_solver.
Qed.

(** The places a continuation puts the thread at. *)
Definition places {pc} (wait_of : pc → option wpc) (k : option wpc → pc) : Prop :=
  ∀ o, (∀ w, o = Some w → is_inc w = false) → wait_of (k o) = o.

(** The parts of the pair that control the threads. *)
Definition same_control (p p' : tst_fzsync_pair) : Prop :=
  params p' = params p ∧ exit p' = exit p ∧ exec_loop p' = exec_loop p ∧ thread_b p' = thread_b p.

Lemma wait_a_spec count w k s s' :
  barrier (view_a s) (view_b s) → a_wait (pa s) = inside w → places a_wait k →
  wait_a count w k s = Done s' →
  barrier (view_a s') (view_b s') ∧ same_control (pair s) (pair s') ∧ delay (pair s') = delay (pair s) ∧ pb s' = pb s ∧
  begun_b s' = begun_b s ∧ returned_b s' = returned_b s ∧ a_cntr (pair s') = a_cntr (pair s) ∧
  ∃ o, pa s' = k o ∧ (∀ w', o = Some w' → is_inc w' = false) ∧
    begun_a s' = begun_a s + Z.b2z (is_inc w) ∧
    returned_a s' = returned_a s + Z.b2z (bool_decide (o = None)).
Proof.
  intros HB Hw Hk Hs. unfold wait_a in Hs.
  apply outcome_bind_Done in Hs as ([[o c] spn] & Hs & E). injection E as <-.
  assert (∀ w', o = Some w' → is_inc w' = false) as Ho.
  { intros w' ->. by eapply wait_step_inside. }
  split; [|split_and!; try done; exists o; done].
  unfold view_a, view_b in *; cbn [pa pb pair begun_a returned_a begun_b returned_b a_cntr b_cntr set_cntrs].
  rewrite Hk by done. unfold inside in Hw. destruct (is_inc w) eqn:Ew; cbn [Z.b2z].
  - destruct w; try done. destruct (barrier_begin _ _ _ _ _ _ _ HB Hw Hs) as (H & Hn & _). cbn in H.
    rewrite bool_decide_false by done. cbn. by rewrite Z.add_0_r.
  - rewrite Z.add_0_r. by apply (barrier_move _ _ _ _ _ _ _ _ HB Hw Hs).
Qed.

Lemma wait_b_spec count w k s s' :
  barrier (view_a s) (view_b s) → b_wait (pb s) = inside w → places b_wait k →
  wait_b count w k s = Done s' →
  barrier (view_a s') (view_b s') ∧ same_control (pair s) (pair s') ∧ delay (pair s') = delay (pair s) ∧ pa s' = pa s ∧
  begun_a s' = begun_a s ∧ returned_a s' = returned_a s ∧ b_cntr (pair s') = b_cntr (pair s) ∧
  ∃ o, pb s' = k o ∧ (∀ w', o = Some w' → is_inc w' = false) ∧
    begun_b s' = begun_b s + Z.b2z (is_inc w) ∧
    returned_b s' = returned_b s + Z.b2z (bool_decide (o = None)).
Proof.
  intros HB Hw Hk Hs. unfold wait_b in Hs. apply barrier_sym in HB.
  apply outcome_bind_Done in Hs as ([[o c] spn] & Hs & E). injection E as <-.
  assert (∀ w', o = Some w' → is_inc w' = false) as Ho.
  { intros w' ->. by eapply wait_step_inside. }
  split; [|split_and!; try done; exists o; done]. apply barrier_sym.
  unfold view_a, view_b in *; cbn [pa pb pair begun_a returned_a begun_b returned_b a_cntr b_cntr set_cntrs].
  rewrite Hk by done. unfold inside in Hw. destruct (is_inc w) eqn:Ew; cbn [Z.b2z].
  - destruct w; try done. destruct (barrier_begin _ _ _ _ _ _ _ HB Hw Hs) as (H & Hn & _). cbn in H.
    rewrite bool_decide_false by done. cbn. by rewrite Z.add_0_r.
  - rewrite Z.add_0_r. by apply (barrier_move _ _ _ _ _ _ _ _ HB Hw Hs).
Qed.

(** ** The protocol *)

(** The waits thread A has returned from in iteration [k] (counted by exec_loop),
    and what it has decided. *)
Definition phase_a (s : sys) : Prop :=
  let k := exec_loop (pair s) in
  let n := exec_loops (params (pair s)) in
  0 ≤ k ≤ n + 1 ∧
  match pa s with
  | A_run => returned_a s = 3 * k ∧ k ≤ n ∧ exit (pair s) = 0
  | A_run_wait ex _ => returned_a s = 3 * (k - 1) ∧ 1 ≤ k ∧ exit (pair s) = ex ∧ (ex = 0 → k ≤ n)
  | A_cleanup | A_done => returned_a s = 3 * (k - 1) + 1 ∧ 1 ≤ k ∧ exit (pair s) ≠ 0
  | A_update | A_start_wait _ => returned_a s = 3 * (k - 1) + 1 ∧ 1 ≤ k ≤ n ∧ exit (pair s) = 0
  | A_delay | A_delaying _ | A_start | A_race | A_end | A_end_wait _ =>
      returned_a s = 3 * (k - 1) + 2 ∧ 1 ≤ k ≤ n ∧ exit (pair s) = 0
  | A_body => returned_a s = 3 * k ∧ 1 ≤ k ≤ n ∧ exit (pair s) = 0
  end.

Definition phase_b (s : sys) : Prop :=
  match pb s with
  | B_run_wait _ => returned_b s mod 3 = 0
  | B_exit => returned_b s mod 3 = 1
  | B_done => returned_b s mod 3 = 1 ∧ exit (pair s) ≠ 0
  | B_start_wait _ => returned_b s mod 3 = 1 ∧ exit (pair s) = 0
  | B_delay | B_delaying _ | B_start | B_race | B_end => returned_b s mod 3 = 2 ∧ exit (pair s) = 0
  | B_end_wait w => returned_b s mod 3 = 2 ∧ (w = W_inc → exit (pair s) = 0)
  end.

Definition joined (s : sys) : Prop :=
  thread_b (pair s) = (match pa s with A_done => false | _ => true end) ∧ (pa s = A_done → pb s = B_done).

Definition protocol (s : sys) : Prop :=
  barrier (view_a s) (view_b s) ∧ phase_a s ∧ phase_b s ∧ joined s.

Lemma barrier_counts X Y :
  barrier X Y →
  vr X ≤ vn Y ∧ vr Y ≤ vn X ∧ 0 ≤ vr X ∧ 0 ≤ vr Y ∧
  vr X ≤ vn X ≤ vr X + 1 ∧ vr Y ≤ vn Y ≤ vr Y + 1 ∧
  vn X = vr X + (if vw X then 1 else 0) ∧ vn Y = vr Y + (if vw Y then 1 else 0).
Proof.
  intros ((? & _ & HX & ? & _) & (? & _ & HY & ? & _) & _). unfold branch_ok in *.
  destruct (vw X), (vw Y); naive_solver lia.
Qed.

Lemma update_keeps r p p' :
  tst_fzsync_pair_update r p = Done p' → ∃ st dl smp, p' = set_stats st dl smp p.
Proof.
  unfold tst_fzsync_pair_update. repeat case_match; intros Hu; try (apply outcome_bind_Done in Hu as (? & _ & Hu));
    simplify_eq; eauto.
Qed.

Lemma add_bias_keeps c p p' : tst_fzsync_pair_add_bias c p = Done p' → ∃ b, p' = set_bias b p.
Proof.
  unfold tst_fzsync_pair_add_bias. case_decide; intros Hu; [apply outcome_bind_Done in Hu as (b & _ & Hu)|];
    simplify_eq; [by eauto|]. exists (delay_bias p'). by destruct p'.
Qed.

Lemma run_a_decide_spec rem p ex p' :
  run_a_decide rem p = Done (ex, p') →
  exec_loop p + 1 ≤ INT_MAX ∧ (ex = 0 → exec_loop p + 1 ≤ exec_loops (params p)) ∧ (ex = 0 ∨ ex = 1) ∧
  ∃ smp, p' = set_loop smp (exec_loop p + 1) ex p.
Proof.
  unfold run_a_decide. intros (lp & [-> Hlp]%i32_inv & E)%outcome_bind_Done. injection E as <- <-.
  split_and!; [lia| | |eauto].
  - case_decide; [done|lia].
  - repeat case_match; auto.
Qed.

(** Reduce the system after a step of one thread that is not in a wait. *)
Ltac sys_cbn :=
  unfold view_a, view_b, phase_a, phase_b, joined in *;
  cbn [pa pb pair begun_a returned_a begun_b returned_b go_a go_b
       set_stats set_bias set_loop set_thread set_times set_cntrs
       params exit exec_loop thread_b a_cntr b_cntr delay a_wait b_wait inside is_inc vw vn vr vc] in *.

Lemma places_a : ∀ ex,
  places a_wait (λ o, match o with Some w' => A_run_wait ex w' | None => if decide (ex ≠ 0) then A_cleanup else A_update end) ∧
  places a_wait (λ o, match o with Some w' => A_start_wait w' | None => A_delay end) ∧
  places a_wait (λ o, match o with Some w' => A_end_wait w' | None => A_body end).
Proof.
  intros ex. split_and!; intros [w|] H; cbn; try case_decide; try done; unfold inside; by rewrite H.
Qed.

Lemma places_b :
  places b_wait (λ o, match o with Some w' => B_run_wait w' | None => B_exit end) ∧
  places b_wait (λ o, match o with Some w' => B_start_wait w' | None => B_delay end) ∧
  places b_wait (λ o, match o with Some w' => B_end_wait w' | None => B_run_wait W_inc end).
Proof. split_and!; intros [w|] H; cbn; try done; unfold inside; by rewrite H. Qed.

(** A step of thread A that is not in a wait and keeps the counters and the exit. *)
Lemma protocol_go_a p' pc s :
  protocol s → a_wait (pa s) = None → a_wait pc = None → same_control (pair s) p' →
  a_cntr p' = a_cntr (pair s) → b_cntr p' = b_cntr (pair s) →
  (phase_a s → phase_a (go_a p' pc s)) → pa s ≠ A_done → pc ≠ A_done →
  protocol (go_a p' pc s).
Proof.
  intros (HB & HA & HBp & HJ) Hw Hw' (Hp & He & Hl & Ht) Ha Hb Hph Hn Hn'.
  split_and!; [|by apply Hph| |].
  - sys_cbn. rewrite Hw in HB. by rewrite Hw', Ha, Hb.
  - unfold phase_b in *. cbn. by rewrite He.
  - unfold joined in *. cbn. rewrite Ht. destruct HJ as [-> _]. by destruct (pa s), pc.
Qed.

Lemma protocol_go_b p' pc s :
  protocol s → b_wait (pb s) = None → b_wait pc = None → same_control (pair s) p' →
  a_cntr p' = a_cntr (pair s) → b_cntr p' = b_cntr (pair s) →
  (phase_b s → phase_b (go_b p' pc s)) → pb s ≠ B_done →
  protocol (go_b p' pc s).
Proof.
  intros (HB & HA & HBp & HJ) Hw Hw' (Hp & He & Hl & Ht) Ha Hb Hph Hn.
  split_and!; [| |by apply Hph|].
  - sys_cbn. rewrite Hw in HB. by rewrite Hw', Ha, Hb.
  - unfold phase_a in *. cbn. by rewrite He, Hl, Hp.
  - unfold joined in *. cbn. rewrite Ht. destruct HJ as [-> HJ]. split; [done|]. naive_solver.
Qed.

(** A wait of thread A inside the protocol. *)
Lemma protocol_wait_a count w k s s' :
  protocol s → a_wait (pa s) = inside w → places a_wait k → wait_a count w k s = Done s' →
  pa s ≠ A_done → (∀ o, k o ≠ A_done) →
  (∀ o, pa s' = k o → same_control (pair s) (pair s') →
        returned_a s' = returned_a s + Z.b2z (bool_decide (o = None)) → phase_a s') →
  protocol s'.
Proof.
  intros (HB & HA & HBp & HJ) Hw Hk Hs Hn Hn' Hph.
  destruct (wait_a_spec _ _ _ _ _ HB Hw Hk Hs) as (HB' & Hc & _ & Hpb & _ & Hrb & _ & o & Ho & _ & _ & Hr).
  split_and!; [done|by eapply Hph| |].
  - destruct Hc as (_ & He & _). unfold phase_b in *. by rewrite Hpb, Hrb, He.
  - destruct Hc as (_ & _ & _ & Ht). unfold joined in *. rewrite Ht, Ho. destruct HJ as [-> _].
    specialize (Hn' o). by destruct (pa s), (k o).
Qed.

Lemma protocol_wait_b count w k s s' :
  protocol s → b_wait (pb s) = inside w → places b_wait k → wait_b count w k s = Done s' →
  pb s ≠ B_done →
  (∀ o, pb s' = k o → same_control (pair s) (pair s') →
        (∀ w', o = Some w' → is_inc w' = false) →
        returned_b s' = returned_b s + Z.b2z (bool_decide (o = None)) → phase_b s') →
  protocol s'.
Proof.
  intros (HB & HA & HBp & HJ) Hw Hk Hs Hn Hph.
  destruct (wait_b_spec _ _ _ _ _ HB Hw Hk Hs) as (HB' & Hc & _ & Hpa & _ & Hra & _ & o & Ho & Hi & _ & Hr).
  split_and!; [done| |by eapply Hph|].
  - destruct Hc as (Hp & He & Hl & _). unfold phase_a in *. by rewrite Hpa, Hra, He, Hp, Hl.
  - destruct Hc as (_ & _ & _ & Ht). unfold joined in *. rewrite Ht, Hpa. destruct HJ as [-> HJ].
    split; [done|]. naive_solver.
Qed.

(** When thread A decides, thread B has not passed the wait of the decision. *)
Lemma protocol_decide rem s ex p' :
  protocol s → pa s = A_run → run_a_decide rem (pair s) = Done (ex, p') →
  protocol (go_a p' (A_run_wait ex W_inc) s).
Proof.
  intros (HB & HA & HBp & HJ) Hpa Hd.
  destruct (run_a_decide_spec _ _ _ _ Hd) as (_ & Hex & Hex' & smp & ->).
  pose proof (barrier_counts _ _ HB) as HC. unfold protocol. sys_cbn. rewrite Hpa in *. sys_cbn.
  destruct HA as (? & Hr & ? & He).
  split_and!; try done; try lia; [|by destruct HJ].
  destruct (pb s) as [| | | | | | | |[]|]; cbn in *; try qlia;
    (split; [lia|intros ?; (done || qlia)]).
Qed.

Lemma protocol_cleanup s : protocol s → pa s = A_cleanup → thread_b (pair s) = true ∧ exit (pair s) ≠ 0.
Proof.
  intros (_ & HA & _ & [HJ _]) Hpa. unfold phase_a in HA. rewrite Hpa in *. by destruct HA as (_ & _ & _ & ?).
Qed.

Lemma protocol_join s :
  protocol s → pa s = A_cleanup → pb s = B_done →
  protocol (go_a (set_thread (exit (pair s)) false (pair s)) A_done s).
Proof.
  intros (HB & HA & HBp & _) Hpa Hpb. unfold phase_a in HA. rewrite Hpa in HA.
  split_and!; [|done|done|done]. unfold view_a, view_b in *. by rewrite Hpa in HB.
Qed.

(** The steps of a thread that stay outside the waits and keep the control. *)
Ltac stay_a Hpa := apply protocol_go_a; rewrite ?Hpa; try done; unfold phase_a; rewrite Hpa; cbn; lia.
Ltac stay_b Hpb := apply protocol_go_b; rewrite ?Hpb; try done; unfold phase_b; rewrite Hpb; cbn; lia.

Lemma step_a_protocol e s s' : protocol s → step_a e s = Done s' → protocol s'.
Proof.
  intros HP. unfold step_a. destruct (pa s) as [|ex w| | |w| |d| | | |w| |] eqn:Hpa; intros Hs.
  - apply outcome_bind_Done in Hs as ([ex p'] & Hd & Hs). injection Hs as <-. by eapply protocol_decide.
  - eapply protocol_wait_a in Hs; [done|done|by rewrite Hpa|apply places_a|by rewrite Hpa| |].
    { intros []; [done|]. by case_decide. }
    intros o Ho (Hp & He & Hl & _) Hr. destruct HP as (_ & HA & _).
    unfold phase_a in *. rewrite Ho, Hp, He, Hl, Hr. rewrite Hpa in HA.
    destruct o; [cbn; lia|]. case_decide; cbn; lia.
  - destruct (protocol_cleanup s HP Hpa) as [Ht He]. rewrite Ht, decide_False in Hs by done.
    destruct (pb s) eqn:Hpb; injection Hs as <-; try done. by apply protocol_join.
  - apply outcome_bind_Done in Hs as (p' & Hu & Hs). injection Hs as <-.
    apply update_keeps in Hu as (st & dl & smp & ->).
    stay_a Hpa.
  - eapply protocol_wait_a in Hs; [done|done|by rewrite Hpa|apply (places_a 0)|by rewrite Hpa|by intros []|].
    intros o Ho (Hp & He & Hl & _) Hr. destruct HP as (_ & HA & _).
    unfold phase_a in *. rewrite Ho, Hp, He, Hl, Hr. rewrite Hpa in HA. destruct o; cbn; lia.
  - injection Hs as <-. stay_a Hpa.
  - injection Hs as <-. case_decide; stay_a Hpa.
  - injection Hs as <-. stay_a Hpa.
  - injection Hs as <-. stay_a Hpa.
  - injection Hs as <-. stay_a Hpa.
  - eapply protocol_wait_a in Hs; [done|done|by rewrite Hpa|apply (places_a 0)|by rewrite Hpa|by intros []|].
    intros o Ho (Hp & He & Hl & _) Hr. destruct HP as (_ & HA & _).
    unfold phase_a in *. rewrite Ho, Hp, He, Hl, Hr. rewrite Hpa in HA. destruct o; cbn; lia.
  - apply outcome_bind_Done in Hs as (p' & Hu & Hs). injection Hs as <-.
    apply add_bias_keeps in Hu as (b & ->).
    stay_a Hpa.
  - by injection Hs as <-.
Qed.


Lemma step_b_protocol e s s' : protocol s → step_b e s = Done s' → protocol s'.
Proof.
  intros HP. unfold step_b. destruct (pb s) as [w| |w| |d| | | |w|] eqn:Hpb; intros Hs.
  - eapply protocol_wait_b in Hs; [done|done|by rewrite Hpb|apply places_b|by rewrite Hpb|].
    intros o Ho _ _ Hr. destruct HP as (_ & _ & HBp & _). unfold phase_b in *. rewrite Ho, Hr. rewrite Hpb in HBp.
    destruct o; cbn; qlia.
  - injection Hs as <-. case_decide; stay_b Hpb.
  - eapply protocol_wait_b in Hs; [done|done|by rewrite Hpb|apply places_b|by rewrite Hpb|].
    intros o Ho (_ & He & _) _ Hr. destruct HP as (_ & _ & HBp & _). unfold phase_b in *. rewrite Ho, He, Hr.
    rewrite Hpb in HBp. destruct o; cbn; qlia.
  - injection Hs as <-. stay_b Hpb.
  - injection Hs as <-. case_decide; stay_b Hpb.
  - injection Hs as <-. stay_b Hpb.
  - injection Hs as <-. stay_b Hpb.
  - injection Hs as <-. stay_b Hpb.
  - eapply protocol_wait_b in Hs; [done|done|by rewrite Hpb|apply places_b|by rewrite Hpb|].
    intros o Ho (_ & He & _) Hi Hr. destruct HP as (_ & _ & HBp & _). unfold phase_b in *. rewrite Ho, ?He, Hr.
    rewrite Hpb in HBp. destruct o as [w'|]; cbn; [|qlia]. split; [qlia|]. intros ->. by specialize (Hi _ eq_refl).
  - by injection Hs as <-.
Qed.

Lemma step_protocol e s s' : protocol s → step e s = Done s' → protocol s'.
Proof. unfold step. destruct (who e); [apply step_a_protocol|apply step_b_protocol]. Qed.

Lemma run_protocol evs s s' : protocol s → run evs s = Done s' → protocol s'.
Proof.
  revert s. induction evs as [|e evs IH]; cbn; intros s HP Hr; [by injection Hr as <-|].
  apply outcome_bind_Done in Hr as (s1 & Hs & Hr). eapply IH; [|done]. by eapply step_protocol.
Qed.

Lemma start_protocol rem p : 0 ≤ exec_loops (params p) → protocol (start rem p).
Proof.
  intros Hn. split_and!; try done; cbn; try lia.
  split_and!; try done; cbn; try lia; unfold half, counter_ok, branch_ok, drained, known; cbn; split_and!; try done; lia.
Qed.

(** ** The barrier *)

Lemma barrier_cntr_range X Y : barrier X Y → 0 ≤ vc X ≤ INT_MAX.
Proof.
  intros ((_ & Hc & _) & _). rewrite Hc. case_match; [clia|]. unfold INT_MAX. qlia.
Qed.

(** C5: Under every interleaving, a thread that returns from its n-th wait knows
    that the other thread has begun its n-th wait; when both threads run the
    racing code they are in the same iteration; the counters stay in the range of
    an int, though every wait increments one of them. *)
Theorem fzsync_barrier rem p evs s :
  0 ≤ exec_loops (params p) → run evs (start rem p) = Done s →
  returned_a s ≤ begun_b s ∧ returned_b s ≤ begun_a s ∧
  (pa s = A_race → pb s = B_race → returned_a s = returned_b s) ∧
  0 ≤ a_cntr (pair s) ≤ INT_MAX ∧ 0 ≤ b_cntr (pair s) ≤ INT_MAX.
Proof.
  intros Hn Hr. eapply run_protocol in Hr as (HB & HA & HBp & _); [|by apply start_protocol].
  pose proof (barrier_counts _ _ HB) as HC.
  pose proof (barrier_cntr_range _ _ HB) as Hb. pose proof (barrier_cntr_range _ _ (barrier_sym _ _ HB)) as Ha.
  split_and!; try apply HC; try apply Ha; try apply Hb.
  intros Ea Eb. unfold phase_a, phase_b in *. rewrite Ea, Eb in *. cbn in *. qlia.
Qed.

(** A pair with the default parameters and one iteration; the threads alternate. *)
Definition ex_pair : tst_fzsync_pair :=
  let z := Stat fzero fzero fzero in
  let t := Timespec 0 0 in
  FzPair (FzParams (to_float (dlit 25 100)) 1024 (to_float (dlit 1 10)) (to_float (dlit 5 10)) 1 false)
    (FzTimes t t t t) (FzStats z z z z z) 0 0 0 0 0 0 0 fzero 0 false.
Definition ex_ev (t : tid) : event := Ev t 300 (Timespec 1 0) fzero 0.
Definition ex_run (n : nat) : list event := concat (replicate n [ex_ev ThreadA; ex_ev ThreadB]).

Lemma fzsync_barrier_witness :
  ∃ s, run (ex_run 10 ++ [ex_ev ThreadA]) (start 300 ex_pair) = Done s ∧
    pa s = A_race ∧ pb s = B_race ∧ returned_a s = returned_b s.
Proof.
  destruct (run (ex_run 10 ++ [ex_ev ThreadA]) (start 300 ex_pair)) as [s| |] eqn:E; [|by vm_compute in E..].
  assert (pa s = A_race ∧ pb s = B_race) as [Ha Hb] by (vm_compute in E; by simplify_eq).
  exists s. split_and!; [done..|]. by apply (fzsync_barrier 300 ex_pair (ex_run 10 ++ [ex_ev ThreadA]) s).
Defined.

(** ** Freedom from data races *)

(** The fields of the pair that are accessed without an atomic operation. *)
Inductive field := F_spins | F_delay | F_a_start | F_b_start | F_a_end | F_b_end.
#[export] Instance field_eq_dec : EqDecision field.
Proof. solve_decision. Defined.

Definition spin_access (w : wpc) : list (field * bool) :=
  match w with W_spin | W_full_spin => [(F_spins, true)] | _ => [] end.

(** The fields the next step of a thread accesses, and whether it writes them. *)
Definition access_a (pc : apc) : list (field * bool) :=
  match pc with
  | A_update => [(F_a_start, false); (F_b_start, false); (F_a_end, false); (F_b_end, false);
                 (F_spins, true); (F_delay, true)]
  | A_delay => [(F_delay, false)]
  | A_start => [(F_a_start, true)]
  | A_end => [(F_a_end, true)]
  | A_end_wait w => spin_access w
  | _ => []
  end.
Definition access_b (pc : bpc) : list (field * bool) :=
  match pc with
  | B_delay => [(F_delay, false)]
  | B_start => [(F_b_start, true)]
  | B_end => [(F_b_end, true)]
  | B_end_wait w => spin_access w
  | _ => []
  end.

(** Two accesses to one field, one of them a write. *)
Definition conflict (l k : list (field * bool)) : bool :=
  existsb (λ '(f, w), existsb (λ '(g, v), bool_decide (f = g) && (w || v)) k) l.

(** C30: The fields that are not atomic are never accessed by both threads at the
    same time with a write among the accesses: the statistics and the delay are
    separated by the waits, and at most one thread counts its spins. *)
Theorem fzsync_race_free rem p evs s :
  0 ≤ exec_loops (params p) → run evs (start rem p) = Done s →
  conflict (access_a (pa s)) (access_b (pb s)) = false.
Proof.
  intros Hn Hr. eapply run_protocol in Hr as (HB & HA & HBp & _); [|by apply start_protocol].
  pose proof (barrier_counts _ _ HB) as HC. destruct HB as (_ & _ & Hsp). unfold spinning in Hsp.
  sys_cbn. destruct (pa s) as [| | | | | | | | | |[]| |]; try done;
    destruct (pb s) as [| | | | | | | |[]|]; try done; cbn in *; exfalso; try qlia; apply Hsp; (done || qlia).
Qed.

Lemma fzsync_race_free_witness :
  ∃ s, run (ex_run 7) (start 300 ex_pair) = Done s ∧ conflict (access_a (pa s)) (access_b (pb s)) = false.
Proof.
  destruct (run (ex_run 7) (start 300 ex_pair)) as [s| |] eqn:E; [|by vm_compute in E..].
  exists s. split; [done|]. by apply (fzsync_race_free 300 ex_pair (ex_run 7) s).
Defined.
