(* ===== verification/FzsyncLive.v ===== *)
(** * Both threads of fuzzy synchronisation terminate

    A measure on the system that no step increases and that a thread that is not
    blocked decreases; one thread is never blocked until both are done, and a
    thread that is not blocked stays so until it moves.  So every schedule that
    lets both threads move often enough ends both of them. *)
From Stdlib Require Import SpecFloat.
From stdpp Require Import base strings numbers option list.
From S2P Require Import Prelude CInt CFloat Timer Fzsync FzsyncBarrier FzsyncProtocol.

#[local] Open Scope Z_scope.

(** ** Steps that overflow *)

(** The next step adds one to spins. *)
Definition counting (w : wpc) : bool := match w with W_spin | W_full_spin => true | _ => false end.

(** An integer of the step leaves its type, or the statistics do. *)
Definition overflow (e : event) (s : sys) : Prop :=
  match who e with
  | ThreadA =>
      match pa s with
      | A_run => ¬ is_i32 (exec_loop (pair s) + 1)
      | A_update => ∀ p', tst_fzsync_pair_update (drand48 e) (pair s) ≠ Done p'
      | A_end_wait w => counting w = true ∧ ¬ is_i32 (spins (pair s) + 1)
      | A_body => 0 < sampling (pair s) ∧ ¬ is_i32 (delay_bias (pair s) + bias e)
      | _ => False
      end
  | ThreadB =>
      match pb s with
      | B_end_wait w => counting w = true ∧ ¬ is_i32 (spins (pair s) + 1)
      | _ => False
      end
  end.

Lemma i32_total x : i32 x = Done x ∨ ¬ is_i32 x.
Proof. unfold i32. case_decide; auto. Qed.

Lemma wait_step_total w our other spn count :
  (∃ r, wait_step w our other spn count = Done r) ∨ (count = true ∧ counting w = true ∧ ¬ is_i32 (spn + 1)).
Proof.
  destruct w; cbn; eauto; unfold count_spin; destruct count; cbn; eauto;
    destruct (i32_total (spn + 1)) as [->|]; cbn; eauto.
Qed.

Lemma step_total e s : (∃ s', step e s = Done s') ∨ overflow e s.
Proof.
  unfold step, overflow. destruct (who e).
  - unfold step_a. destruct (pa s) as [|ex w| | |w| |d| | | |w| |]; try (left; eexists; reflexivity).
    + unfold run_a_decide. destruct (i32_total (exec_loop (pair s) + 1)) as [->|]; cbn; eauto.
    + left. unfold wait_a. destruct (wait_step_total w (a_cntr (pair s)) (b_cntr (pair s)) (spins (pair s)) false)
        as [[[[o c] spn] ->]|(? & _)]; [cbn; eauto|done].
    + left. repeat case_match; eauto.
    + destruct (tst_fzsync_pair_update (drand48 e) (pair s)) as [p'| |]; cbn; [eauto|by right..].
    + left. unfold wait_a. destruct (wait_step_total w (a_cntr (pair s)) (b_cntr (pair s)) (spins (pair s)) false)
        as [[[[o c] spn] ->]|(? & _)]; [cbn; eauto|done].
    + unfold wait_a. destruct (wait_step_total w (a_cntr (pair s)) (b_cntr (pair s)) (spins (pair s)) true)
        as [[[[o c] spn] ->]|(_ & ? & ?)]; [cbn; eauto|by right].
    + unfold tst_fzsync_pair_add_bias. case_decide; cbn; [|eauto].
      destruct (i32_total (delay_bias (pair s) + bias e)) as [->|]; cbn; eauto.
  - unfold step_b. destruct (pb s) as [w| |w| |d| | | |w|]; try (left; eexists; reflexivity).
    + left. unfold wait_b. destruct (wait_step_total w (b_cntr (pair s)) (a_cntr (pair s)) (spins (pair s)) false)
        as [[[[o c] spn] ->]|(? & _)]; [cbn; eauto|done].
    + left. unfold wait_b. destruct (wait_step_total w (b_cntr (pair s)) (a_cntr (pair s)) (spins (pair s)) false)
        as [[[[o c] spn] ->]|(? & _)]; [cbn; eauto|done].
    + unfold wait_b. destruct (wait_step_total w (b_cntr (pair s)) (a_cntr (pair s)) (spins (pair s)) true)
        as [[[[o c] spn] ->]|(_ & ? & ?)]; [cbn; eauto|by right].
Qed.

(** ** The delays are ints *)

Definition delays_ok (s : sys) : Prop :=
  is_i32 (delay (pair s)) ∧ is_i32 (delay_bias (pair s)) ∧
  (∀ d, pa s = A_delaying d → INT_MIN ≤ d) ∧ (∀ d, pb s = B_delaying d → d ≤ INT_MAX).

Lemma random_delay_range p r dl : random_delay p r = Done dl → is_i32 dl.
Proof.
  intros (c & _ & Hx)%outcome_bind_Done. apply outcome_bind_Done in Hx as (d & [-> Hd]%i32_inv & Hx).
  apply outcome_bind_Done in Hx as (? & _ & Hx). by injection Hx as <-.
Qed.

Lemma update_delay r p p' :
  tst_fzsync_pair_update r p = Done p' → is_i32 (delay_bias p) → is_i32 (delay p') ∧ delay_bias p' = delay_bias p.
Proof.
  unfold tst_fzsync_pair_update. intros Hu Hb.
  destruct (bool_decide _ || _); [|destruct (fle _ _)].
  - apply outcome_bind_Done in Hu as (st & _ & Hu). by injection Hu as <-.
  - apply outcome_bind_Done in Hu as (dl & Hdl%random_delay_range & Hu). by injection Hu as <-.
  - by injection Hu as <-.
Qed.

Lemma add_bias_delay c p p' :
  tst_fzsync_pair_add_bias c p = Done p' → is_i32 (delay_bias p) →
  is_i32 (delay_bias p') ∧ delay p' = delay p.
Proof.
  unfold tst_fzsync_pair_add_bias. case_decide; [|by intros [= <-]].
  intros (b & [-> Hb]%i32_inv & E)%outcome_bind_Done. by simplify_eq.
Qed.

(** A wait changes no delay and ends in the continuation. *)
Lemma wait_a_delays count w k s s' :
  wait_a count w k s = Done s' → delay (pair s') = delay (pair s) ∧ delay_bias (pair s') = delay_bias (pair s) ∧
  pb s' = pb s ∧ ∃ o, pa s' = k o.
Proof. intros ([[o c] spn] & _ & E)%outcome_bind_Done. simplify_eq/=. eauto. Qed.

Lemma wait_b_delays count w k s s' :
  wait_b count w k s = Done s' → delay (pair s') = delay (pair s) ∧ delay_bias (pair s') = delay_bias (pair s) ∧
  pa s' = pa s ∧ ∃ o, pb s' = k o.
Proof. intros ([[o c] spn] & _ & E)%outcome_bind_Done. simplify_eq/=. eauto. Qed.

(** The delays after a step. *)
Ltac delays_done := cbn; split_and!; intros; simplify_eq/=; first [lia|done|congruence|match goal with H : _ |- _ => apply H; congruence end].

Lemma step_delays e s s' : delays_ok s → step e s = Done s' → delays_ok s'.
Proof.
  intros (Hd & Hb & HA & HB). unfold step, delays_ok. destruct (who e).
  - unfold step_a. destruct (pa s) as [|ex w| | |w| |d| | | |w| |] eqn:Hpa; intros Hs;
      try (apply wait_a_delays in Hs as (-> & -> & -> & o & ->); destruct o; try case_decide; delays_done).
    + apply outcome_bind_Done in Hs as ([ex p'] & Hr & Hs). simplify_eq/=.
      apply run_a_decide_spec in Hr as (_ & _ & _ & smp & ->). delays_done.
    + repeat case_match; simplify_eq/=; delays_done.
    + apply outcome_bind_Done in Hs as (p' & Hu & Hs). simplify_eq/=. apply update_delay in Hu as [? ->]; [|done].
      delays_done.
    + simplify_eq/=. delays_done.
    + specialize (HA d eq_refl). simplify_eq/=. case_decide; delays_done.
    + simplify_eq/=. delays_done.
    + simplify_eq/=. delays_done.
    + simplify_eq/=. delays_done.
    + apply outcome_bind_Done in Hs as (p' & Hu & Hs). simplify_eq/=. apply add_bias_delay in Hu as [? ->]; [|done].
      delays_done.
    + simplify_eq/=. delays_done.
  - unfold step_b. destruct (pb s) as [w| |w| |d| | | |w|] eqn:Hpb; intros Hs;
      try (apply wait_b_delays in Hs as (-> & -> & -> & o & ->); destruct o; try case_decide; delays_done).
    + simplify_eq/=. case_decide; delays_done.
    + simplify_eq/=. delays_done.
    + specialize (HB d eq_refl). simplify_eq/=. case_decide; delays_done.
    + simplify_eq/=. delays_done.
    + simplify_eq/=. delays_done.
    + simplify_eq/=. delays_done.
    + simplify_eq/=. delays_done.
Qed.

(** ** The measure *)

Definition wait_weight (w : wpc) (X Y : view) : Z := if is_inc w then 9 else rank X Y.

(** A bound on the steps of a thread up to the return from its next wait. *)
Definition weight_a (s : sys) : Z :=
  match pa s with
  | A_run_wait _ w | A_start_wait w | A_end_wait w => wait_weight w (view_a s) (view_b s)
  | A_run | A_update | A_end => 10
  | A_delay => 2147483662
  | A_delaying d => 13 + Z.max 0 (- d)
  | A_start => 12
  | A_race | A_body => 11
  | A_cleanup => 1
  | A_done => 0
  end.

Definition weight_b (s : sys) : Z :=
  match pb s with
  | B_run_wait w | B_start_wait w | B_end_wait w => wait_weight w (view_b s) (view_a s)
  | B_exit | B_end => 10
  | B_delay => 2147483662
  | B_delaying d => 13 + Z.max 0 d
  | B_start => 12
  | B_race => 11
  | B_done => 0
  end.

(** The waits of a complete run with [n] iterations, and the cost of one. *)
Definition rounds (n : Z) : Z := 3 * n + 1.
Definition cost : Z := 2147483668.

Definition measure (s : sys) : Z :=
  let n := rounds (exec_loops (params (pair s))) in
  (n - returned_a s) * cost + weight_a s + (n - returned_b s) * cost + weight_b s.

Definition blocked_a (s : sys) : bool :=
  match pa s with
  | A_done => true
  | A_cleanup => match pb s with B_done => false | _ => true end
  | _ => blocked (view_a s) (view_b s)
  end.
Definition blocked_b (s : sys) : bool :=
  match pb s with B_done => true | _ => blocked (view_b s) (view_a s) end.

Definition finished (s : sys) : Prop := pa s = A_done ∧ pb s = B_done.
#[export] Instance finished_dec s : Decision (finished s).
Proof.
  unfold Decision, finished. destruct (pa s); try (right; by intros [? _]);
    destruct (pb s); try (right; by intros [_ ?]). by left.
Defined.

(** The progress a wait makes, for either thread. *)
Definition advances (w : wpc) (o : option wpc) (X X' Y : view) : Prop :=
  settles X X' Y ∧
  if is_inc w then o ≠ None
  else if blocked X Y then o ≠ None ∧ rank X' Y = rank X Y else o = None ∨ rank X' Y < rank X Y.

Lemma wait_advances w X Y our spn count o c spn' :
  barrier X Y → vw X = inside w → our = vc Y →
  wait_step w our (vc X) spn count = Done (o, c, spn') →
  advances w o X (View o (vn X + Z.b2z (is_inc w)) (vr X + Z.b2z (bool_decide (o = None))) c) Y.
Proof.
  intros HB Hw -> Hs. unfold advances, inside in *. destruct (is_inc w) eqn:Ew; cbn [Z.b2z].
  - destruct w; try done. destruct (barrier_begin _ _ _ _ _ _ _ HB Hw Hs) as (_ & Hn & _).
    rewrite bool_decide_false by done. cbn [Z.b2z]. rewrite Z.add_0_r. split; [|done]. by eapply settles_begin.
  - rewrite Z.add_0_r. split; [by eapply settles_move|by eapply rank_move].
Qed.

Lemma wait_a_advances count w k s s' :
  barrier (view_a s) (view_b s) → a_wait (pa s) = inside w → places a_wait k → wait_a count w k s = Done s' →
  view_b s' = view_b s ∧ pb s' = pb s ∧ params (pair s') = params (pair s) ∧
  returned_b s' = returned_b s ∧
  ∃ o, pa s' = k o ∧ (∀ w', o = Some w' → is_inc w' = false) ∧
    returned_a s' = returned_a s + Z.b2z (bool_decide (o = None)) ∧ advances w o (view_a s) (view_a s') (view_b s).
Proof.
  intros HB Hw Hk ([[o c] spn] & Hs & E)%outcome_bind_Done. injection E as <-.
  assert (∀ w', o = Some w' → is_inc w' = false) as Ho by (intros w' ->; by eapply wait_step_inside).
  do 4 (split; [done|]). exists o. do 3 (split; [done|]).
  unfold view_a at 2. cbn. rewrite Hk by done. by eapply wait_advances.
Qed.

Lemma wait_b_advances count w k s s' :
  barrier (view_a s) (view_b s) → b_wait (pb s) = inside w → places b_wait k → wait_b count w k s = Done s' →
  view_a s' = view_a s ∧ pa s' = pa s ∧ params (pair s') = params (pair s) ∧
  returned_a s' = returned_a s ∧
  ∃ o, pb s' = k o ∧ (∀ w', o = Some w' → is_inc w' = false) ∧
    returned_b s' = returned_b s + Z.b2z (bool_decide (o = None)) ∧ advances w o (view_b s) (view_b s') (view_a s).
Proof.
  intros HB%barrier_sym Hw Hk ([[o c] spn] & Hs & E)%outcome_bind_Done. injection E as <-.
  assert (∀ w', o = Some w' → is_inc w' = false) as Ho by (intros w' ->; by eapply wait_step_inside).
  do 4 (split; [done|]). exists o. do 3 (split; [done|]).
  unfold view_b at 2. cbn. rewrite Hk by done. by eapply wait_advances.
Qed.

(** The weight of the other thread falls or stays. *)
Lemma weight_b_settles s s' :
  pb s' = pb s → view_b s' = view_b s → settles (view_a s) (view_a s') (view_b s) →
  weight_b s' ≤ weight_b s ∧ (blocked_b s = false → blocked_b s' = false).
Proof.
  intros Hp Hv [Hr Hb]. unfold weight_b, blocked_b, wait_weight. rewrite Hp, Hv.
  split; [destruct (pb s); try lia; destruct (is_inc _); lia|by destruct (pb s)].
Qed.

Lemma weight_a_settles s s' :
  pa s' = pa s → (pb s = B_done → pb s' = B_done) → view_a s' = view_a s →
  settles (view_b s) (view_b s') (view_a s) →
  weight_a s' ≤ weight_a s ∧ (blocked_a s = false → blocked_a s' = false).
Proof.
  intros Hp Hd Hv [Hr Hb]. unfold weight_a, blocked_a, wait_weight. rewrite Hp, Hv.
  split; [destruct (pa s); try lia; destruct (is_inc _); lia|].
  destruct (pa s); try done. destruct (pb s); try done. by rewrite Hd.
Qed.

Lemma settles_refl X Y : settles X X Y.
Proof. by split. Qed.

(** A step of a thread that is blocked or not. *)
Definition progresses (blk : bool) (s s' : sys) : Prop :=
  if blk then measure s' ≤ measure s else measure s' < measure s.

(** The weight of a thread after a step of its wait. *)
Lemma advances_weight w o X X' Y new :
  advances w o X X' Y → vw X = inside w → (∀ w', o = Some w' → is_inc w' = false) →
  (∀ w', o = Some w' → new = wait_weight w' X' Y) → (o = None → 0 ≤ new ≤ 2147483662) →
  if blocked X Y then o ≠ None ∧ new = wait_weight w X Y
  else new - Z.b2z (bool_decide (o = None)) * cost < wait_weight w X Y.
Proof.
  intros [_ Ha] Hw Hi Hs Hn. unfold cost. pose proof (rank_range X Y). pose proof (rank_range X' Y).
  unfold wait_weight, blocked in *. rewrite Hw in *. unfold inside in *.
  destruct o as [w'|].
  - rewrite (Hs _ eq_refl), (Hi _ eq_refl). cbn. destruct (is_inc w) eqn:Ew; [lia|].
    destruct w; repeat case_bool_decide; try done; naive_solver lia.
  - specialize (Hn eq_refl). destruct (is_inc w) eqn:Ew; [done|].
    destruct w; repeat case_bool_decide; try done; cbn; naive_solver lia.
Qed.

Lemma wait_a_measure count w k s s' :
  barrier (view_a s) (view_b s) → a_wait (pa s) = inside w → places a_wait k → wait_a count w k s = Done s' →
  weight_a s = wait_weight w (view_a s) (view_b s) → blocked_a s = blocked (view_a s) (view_b s) →
  (∀ w', pa s' = k (Some w') → weight_a s' = wait_weight w' (view_a s') (view_b s')) →
  (pa s' = k None → 0 ≤ weight_a s' ≤ 2147483662) →
  progresses (blocked_a s) s s' ∧ (blocked_b s = false → blocked_b s' = false).
Proof.
  intros HB Hw Hk Hs Hwt Hblk Hsome Hnone.
  destruct (wait_a_advances _ _ _ _ _ HB Hw Hk Hs) as (Hv & Hpb & Hp & Hrb & o & Hpa & Hi & Hra & Hadv).
  destruct (weight_b_settles s s') as [Hwb Hbb]; [done..|by destruct Hadv|]. split; [|done].
  pose proof (advances_weight w o _ _ _ (weight_a s') Hadv) as Hnew. rewrite Hblk.
  unfold progresses, measure. rewrite Hp, Hrb, Hra, Hwt.
  destruct (blocked (view_a s) (view_b s)).
  - destruct Hnew as [Ho ->]; [done|done|intros w' ->; rewrite <- Hv; auto|intros ->; auto|].
    rewrite bool_decide_false by done. cbn. lia.
  - assert (weight_a s' - Z.b2z (bool_decide (o = None)) * cost < wait_weight w (view_a s) (view_b s)); [|lia].
    apply Hnew; [done|done|intros w' ->; rewrite <- Hv; auto|intros ->; auto].
Qed.

Lemma wait_b_measure count w k s s' :
  barrier (view_a s) (view_b s) → b_wait (pb s) = inside w → places b_wait k → wait_b count w k s = Done s' →
  pb s ≠ B_done →
  weight_b s = wait_weight w (view_b s) (view_a s) → blocked_b s = blocked (view_b s) (view_a s) →
  (∀ w', pb s' = k (Some w') → weight_b s' = wait_weight w' (view_b s') (view_a s')) →
  (pb s' = k None → 0 ≤ weight_b s' ≤ 2147483662) →
  progresses (blocked_b s) s s' ∧ (blocked_a s = false → blocked_a s' = false).
Proof.
  intros HB Hw Hk Hs Hnd Hwt Hblk Hsome Hnone.
  destruct (wait_b_advances _ _ _ _ _ HB Hw Hk Hs) as (Hv & Hpa & Hp & Hra & o & Hpb & Hi & Hrb & Hadv).
  destruct (weight_a_settles s s') as [Hwb Hbb]; [done..|by destruct Hadv|]. split; [|done].
  pose proof (advances_weight w o _ _ _ (weight_b s') Hadv) as Hnew. rewrite Hblk.
  unfold progresses, measure. rewrite Hp, Hrb, Hra, Hwt.
  destruct (blocked (view_b s) (view_a s)).
  - destruct Hnew as [Ho ->]; [done|done|intros w' ->; rewrite <- Hv; auto|intros ->; auto|].
    rewrite bool_decide_false by done. cbn. lia.
  - assert (weight_b s' - Z.b2z (bool_decide (o = None)) * cost < wait_weight w (view_b s) (view_a s)); [|lia].
    apply Hnew; [done|done|intros w' ->; rewrite <- Hv; auto|intros ->; auto].
Qed.

(** A step outside the waits that makes the thread lighter. *)
Lemma go_a_measure p' pc s :
  a_wait (pa s) = None → a_wait pc = None → params p' = params (pair s) →
  a_cntr p' = a_cntr (pair s) → b_cntr p' = b_cntr (pair s) →
  weight_a (go_a p' pc s) < weight_a s →
  progresses (blocked_a s) s (go_a p' pc s) ∧ (blocked_b s = false → blocked_b (go_a p' pc s) = false).
Proof.
  intros Hw Hw' Hp Ha Hb Hlt.
  destruct (weight_b_settles s (go_a p' pc s)) as [Hwb Hbb]; [done| | |split; [|done]].
  - unfold view_b. cbn. by rewrite Ha.
  - replace (view_a (go_a p' pc s)) with (view_a s) by (unfold view_a; cbn; by rewrite Hb, Hw, Hw').
    apply settles_refl.
  - unfold progresses, measure in *. cbn. rewrite Hp. destruct (blocked_a s); cbn in *; lia.
Qed.

Lemma go_b_measure p' pc s :
  b_wait (pb s) = None → b_wait pc = None → params p' = params (pair s) → pb s ≠ B_done →
  a_cntr p' = a_cntr (pair s) → b_cntr p' = b_cntr (pair s) →
  weight_b (go_b p' pc s) < weight_b s →
  progresses (blocked_b s) s (go_b p' pc s) ∧ (blocked_a s = false → blocked_a (go_b p' pc s) = false).
Proof.
  intros Hw Hw' Hp Hnd Ha Hb Hlt.
  destruct (weight_a_settles s (go_b p' pc s)) as [Hwb Hbb]; [done|done| | |split; [|done]].
  - unfold view_a. cbn. by rewrite Hb.
  - replace (view_b (go_b p' pc s)) with (view_b s) by (unfold view_b; cbn; by rewrite Ha, Hw, Hw').
    apply settles_refl.
  - unfold progresses, measure in *. cbn. rewrite Hp. destruct (blocked_b s); cbn in *; lia.
Qed.

(** The weights around a step outside the waits. *)
Ltac lighter H := unfold weight_a, weight_b; cbn [pa pb go_a go_b wait_weight is_inc]; rewrite ?H; clia.
Ltac free_a Hpa := apply go_a_measure; rewrite ?Hpa; try done; lighter Hpa.
Ltac free_b Hpb := apply go_b_measure; rewrite ?Hpb; try done; lighter Hpb.
Ltac in_wait_a Hpa Hs :=
  apply wait_a_measure in Hs; [done|done|by rewrite Hpa|first [apply (places_a 0)|apply places_a]|by unfold weight_a; rewrite Hpa
    |by unfold blocked_a; rewrite Hpa|by intros w' Hw'; unfold weight_a; rewrite Hw'
    |intros Hw'; unfold weight_a; rewrite Hw'; try case_decide; lia].
Ltac in_wait_b Hpb Hs :=
  apply wait_b_measure in Hs; [done|done|by rewrite Hpb|apply places_b|by rewrite Hpb|by unfold weight_b; rewrite Hpb
    |by unfold blocked_b; rewrite Hpb|by intros w' Hw'; unfold weight_b; rewrite Hw'
    |intros Hw'; unfold weight_b; rewrite Hw'; cbn; try case_decide; lia].

Lemma step_a_measure e s s' :
  protocol s → delays_ok s → step_a e s = Done s' →
  progresses (blocked_a s) s s' ∧ (blocked_b s = false → blocked_b s' = false).
Proof.
  intros HP (Hd & _ & HD & _). pose proof HP as (HB & _). unfold step_a.
  destruct (pa s) as [|ex w| | |w| |d| | | |w| |] eqn:Hpa; intros Hs.
  - apply outcome_bind_Done in Hs as ([ex p'] & Hr & Hs). injection Hs as <-.
    apply run_a_decide_spec in Hr as (_ & _ & _ & smp & ->). free_a Hpa.
  - in_wait_a Hpa Hs.
  - destruct (protocol_cleanup s HP Hpa) as [Ht He]. rewrite Ht, decide_False in Hs by done.
    destruct (pb s) eqn:Hpb; injection Hs as <-;
      try (unfold blocked_a; rewrite Hpa, Hpb; split; [unfold progresses; lia|done]).
    free_a Hpa.
  - apply outcome_bind_Done in Hs as (p' & Hu & Hs). injection Hs as <-.
    apply update_keeps in Hu as (st & dl & smp & ->). free_a Hpa.
  - in_wait_a Hpa Hs.
  - injection Hs as <-. free_a Hpa.
  - injection Hs as <-. case_decide; free_a Hpa.
  - injection Hs as <-. free_a Hpa.
  - injection Hs as <-. free_a Hpa.
  - injection Hs as <-. free_a Hpa.
  - in_wait_a Hpa Hs.
  - apply outcome_bind_Done in Hs as (p' & Hu & Hs). injection Hs as <-.
    apply add_bias_keeps in Hu as (b & ->). free_a Hpa.
  - injection Hs as <-. unfold blocked_a. rewrite Hpa. split; [unfold progresses; lia|done].
Qed.

Lemma step_b_measure e s s' :
  protocol s → delays_ok s → step_b e s = Done s' →
  progresses (blocked_b s) s s' ∧ (blocked_a s = false → blocked_a s' = false).
Proof.
  intros HP (Hd & _ & _ & HD). pose proof HP as (HB & _). unfold step_b.
  destruct (pb s) as [w| |w| |d| | | |w|] eqn:Hpb; intros Hs.
  - in_wait_b Hpb Hs.
  - injection Hs as <-. case_decide; free_b Hpb.
  - in_wait_b Hpb Hs.
  - injection Hs as <-. free_b Hpb.
  - injection Hs as <-. case_decide; free_b Hpb.
  - injection Hs as <-. free_b Hpb.
  - injection Hs as <-. free_b Hpb.
  - injection Hs as <-. free_b Hpb.
  - in_wait_b Hpb Hs.
  - injection Hs as <-. unfold blocked_b. rewrite Hpb. split; [unfold progresses; lia|done].
Qed.

(** Until both threads are done, one of them is not blocked. *)
Lemma someone_free s : protocol s → ¬ finished s → blocked_a s = false ∨ blocked_b s = false.
Proof.
  intros (HB & HA & HBp & [_ HJ]) Hnf. apply dec_stable. intros Hno.
  assert (blocked_a s = true) as Ha by (destruct (blocked_a s); naive_solver).
  assert (blocked_b s = true) as Hb by (destruct (blocked_b s); naive_solver). clear Hno.
  pose proof (barrier_counts _ _ HB) as HC. pose proof (not_both_blocked _ _ HB) as Hnb.
  pose proof (blocked_by_outside _ _ (barrier_sym _ _ HB)) as HoB. pose proof (blocked_by_outside _ _ HB) as HoA.
  assert (pa s ≠ A_done) as Hnd by (intros E; apply Hnf; split; auto).
  unfold blocked_a, blocked_b, phase_a, phase_b in *.
  destruct (pb s) eqn:Hpb; destruct (pa s) eqn:Hpa; try done; try (by apply Hnb);
    unfold view_a, view_b in *; rewrite Hpa, Hpb in *; cbn [vw vn vr vc a_wait b_wait] in *;
    try (specialize (HoB eq_refl Hb)); try (specialize (HoA eq_refl Ha)); try qlia.
Qed.

Definition free (t : tid) (s : sys) : Prop :=
  match t with ThreadA => blocked_a s = false | ThreadB => blocked_b s = false end.

Lemma step_measure e s s' :
  protocol s → delays_ok s → step e s = Done s' →
  measure s' ≤ measure s ∧ (free (who e) s → measure s' < measure s) ∧
  (∀ t, t ≠ who e → free t s → free t s').
Proof.
  intros HP HD. unfold step, free. destruct (who e); intros Hs.
  - destruct (step_a_measure e s s' HP HD Hs) as [Hp Hb]. unfold progresses in Hp.
    split_and!; [destruct (blocked_a s); lia|intros E; rewrite E in Hp; lia|by intros []].
  - destruct (step_b_measure e s s' HP HD Hs) as [Hp Hb]. unfold progresses in Hp.
    split_and!; [destruct (blocked_b s); lia|intros E; rewrite E in Hp; lia|by intros []].
Qed.

(** The parts of the invariant that hold in every state of a run. *)
Definition sane (s : sys) : Prop := protocol s ∧ delays_ok s.

Lemma step_sane e s s' : sane s → step e s = Done s' → sane s'.
Proof. intros [HP HD] Hs. split; [by eapply step_protocol|by eapply step_delays]. Qed.

Lemma run_sane evs s s' : sane s → run evs s = Done s' → sane s' ∧ measure s' ≤ measure s.
Proof.
  revert s. induction evs as [|e evs IH]; cbn; intros s Hs Hr; [by injection Hr as <-|].
  apply outcome_bind_Done in Hr as (s1 & Hs1 & Hr). pose proof (step_sane _ _ _ Hs Hs1) as Hsane.
  destruct Hs as [HP HD]. destruct (step_measure _ _ _ HP HD Hs1) as (Hm & _).
  destruct (IH _ Hsane Hr). split; [done|lia].
Qed.

(** A free thread that moves makes progress, whatever the other one does first. *)
Lemma free_moves t evs s s' :
  sane s → free t s → t ∈ who <$> evs → run evs s = Done s' → measure s' < measure s.
Proof.
  revert s. induction evs as [|e evs IH]; cbn; intros s Hs Hf Hin Hr; [by apply not_elem_of_nil in Hin|].
  apply outcome_bind_Done in Hr as (s1 & Hs1 & Hr). pose proof (step_sane _ _ _ Hs Hs1) as Hsane.
  destruct Hs as [HP HD]. destruct (step_measure _ _ _ HP HD Hs1) as (Hm & Hlt & Hst).
  destruct (decide (t = who e)) as [->|Hne].
  - destruct (run_sane _ _ _ Hsane Hr) as [_ ?]. specialize (Hlt Hf). lia.
  - apply elem_of_cons in Hin as [?|Hin]; [done|]. specialize (IH s1 Hsane (Hst t Hne Hf) Hin Hr). lia.
Qed.

Lemma finished_run evs s s' : sane s → finished s → run evs s = Done s' → s' = s.
Proof.
  intros Hs [Ha Hb]. revert s Hs Ha Hb. induction evs as [|e evs IH]; cbn; intros s Hs Ha Hb Hr; [by injection Hr|].
  apply outcome_bind_Done in Hr as (s1 & Hs1 & Hr). unfold step, step_a, step_b in Hs1.
  rewrite Ha, Hb in Hs1. destruct (who e); injection Hs1 as <-; by apply IH.
Qed.

Definition fair (seg : list event) : Prop := ThreadA ∈ who <$> seg ∧ ThreadB ∈ who <$> seg.
#[export] Instance fair_dec seg : Decision (fair seg).
Proof. unfold fair. apply _. Defined.

Lemma run_app evs1 evs2 s : run (evs1 ++ evs2) s = run evs1 s ≫= run evs2.
Proof.
  revert s. induction evs1 as [|e evs1 IH]; intros s; cbn; [done|]. destruct (step e s); cbn; auto.
Qed.

Lemma fair_run segs s s' :
  sane s → Forall fair segs → run (concat segs) s = Done s' →
  finished s' ∨ measure s' + Z.of_nat (length segs) ≤ measure s.
Proof.
  revert s. induction segs as [|seg segs IH]; cbn; intros s Hs Hf Hr.
  { injection Hr as <-. right. lia. }
  rewrite run_app in Hr. apply outcome_bind_Done in Hr as (s1 & Hr1 & Hr).
  apply Forall_cons in Hf as [[HfA HfB] Hf]. destruct (run_sane _ _ _ Hs Hr1) as [Hs1 _].
  destruct (decide (finished s)) as [Hfin|Hnf].
  { left. rewrite (finished_run _ _ _ Hs Hfin Hr1) in Hr. by rewrite (finished_run _ _ _ Hs Hfin Hr). }
  assert (measure s1 < measure s).
  { destruct (someone_free s (proj1 Hs) Hnf); [by eapply (free_moves ThreadA)|by eapply (free_moves ThreadB)]. }
  destruct (IH _ Hs1 Hf Hr); [by left|right; lia].
Qed.

(** Until a step overflows, a run goes on. *)
Lemma run_total evs s :
  (∃ s', run evs s = Done s') ∨
  ∃ evs1 e evs2 s1, evs = evs1 ++ e :: evs2 ∧ run evs1 s = Done s1 ∧ overflow e s1.
Proof.
  revert s. induction evs as [|e evs IH]; intros s; cbn; [eauto|].
  destruct (step_total e s) as [[s1 Hs]|Ho]; [|right; by exists [], e, evs, s].
  destruct (IH s1) as [[s' Hr]|(evs1 & e1 & evs2 & s2 & -> & Hr & Ho)].
  - left. exists s'. by rewrite Hs.
  - right. exists (e :: evs1), e1, evs2, s2. cbn. by rewrite Hs.
Qed.

Lemma start_sane rem p : 0 ≤ exec_loops (params p) → sane (start rem p).
Proof. intros Hn. split; [by apply start_protocol|]. by repeat split. Qed.

Lemma start_measure rem p : measure (start rem p) = 2 * rounds (exec_loops (params p)) * cost + 19.
Proof. unfold measure. cbn -[rounds cost Z.mul]. lia. Qed.

Lemma measure_nonneg s : sane s → 0 ≤ measure s.
Proof.
  intros [(HB & HA & _ & _) (Hd & _ & HA' & HB')]. pose proof (barrier_counts _ _ HB) as HC.
  assert (0 ≤ weight_a s).
  { unfold weight_a, wait_weight. pose proof (rank_range (view_a s) (view_b s)). destruct (pa s); try lia; destruct (is_inc _); lia. }
  assert (0 ≤ weight_b s).
  { unfold weight_b, wait_weight. pose proof (rank_range (view_b s) (view_a s)). destruct (pb s); try lia; destruct (is_inc _); lia. }
  assert (returned_a s ≤ rounds (exec_loops (params (pair s))) ∧
          begun_a s ≤ rounds (exec_loops (params (pair s)))) as [? ?].
  { unfold rounds, phase_a, view_a, view_b in *. cbn [vw vn vr vc] in *. destruct (pa s); cbn [a_wait] in *; lia. }
  unfold measure, view_a, view_b in *. cbn [vw vn vr vc] in *. unfold cost. nia.
Qed.

(** C4: Both threads end under every fair schedule: when the schedule consists of
    enough segments in each of which both threads move, either some step
    overflows an integer, or thread A has joined thread B, they have made the same
    number of waits, and no more iterations than exec_loops have been run. *)
Theorem fzsync_terminates rem p segs :
  0 ≤ exec_loops (params p) → Forall fair segs →
  2 * rounds (exec_loops (params p)) * cost + 19 < Z.of_nat (length segs) →
  (∃ evs1 e evs2 s, concat segs = evs1 ++ e :: evs2 ∧ run evs1 (start rem p) = Done s ∧ overflow e s) ∨
  ∃ s, run (concat segs) (start rem p) = Done s ∧ pa s = A_done ∧ pb s = B_done ∧
    returned_a s = returned_b s ∧ returned_a s = 3 * (exec_loop (pair s) - 1) + 1 ∧
    1 ≤ exec_loop (pair s) ≤ exec_loops (params (pair s)) + 1.
Proof.
  intros Hn Hf Hlen. destruct (run_total (concat segs) (start rem p)) as [[s Hr]|Ho]; [right|by left].
  pose proof (start_sane rem p Hn) as Hs. destruct (run_sane _ _ _ Hs Hr) as [Hs' _].
  exists s. split; [done|].
  destruct (fair_run segs _ s Hs Hf Hr) as [[Ha Hb]|Hm].
  - destruct Hs' as [(HB & HA & HBp & _) _]. pose proof (barrier_counts _ _ HB) as HC.
    unfold phase_a, phase_b, view_a, view_b in *. rewrite Ha, Hb in *. cbn [vw vn vr vc a_wait b_wait] in *.
    split_and!; try done; qlia.
  - rewrite start_measure in Hm. pose proof (measure_nonneg _ Hs'). lia.
Qed.

Lemma fzsync_terminates_witness :
  let segs := replicate (Z.to_nat 20000000000) [ex_ev ThreadA; ex_ev ThreadB] in
  ((∃ evs1 e evs2 s, concat segs = evs1 ++ e :: evs2 ∧ run evs1 (start 300 ex_pair) = Done s ∧ overflow e s) ∨
   ∃ s, run (concat segs) (start 300 ex_pair) = Done s ∧ pa s = A_done ∧ pb s = B_done) ∧
  ∃ s, run (ex_run 30) (start 300 ex_pair) = Done s ∧ pa s = A_done ∧ pb s = B_done ∧ exec_loop (pair s) = 2.
Proof.
  split.
  - destruct (fzsync_terminates 300 ex_pair (replicate (Z.to_nat 20000000000) [ex_ev ThreadA; ex_ev ThreadB]))
      as [H|(s & H1 & H2 & H3 & _)]; [by_decide| | |left; exact H|right; exists s; exact (conj H1 (conj H2 H3))].
    + apply Forall_replicate. by_decide.
    + rewrite length_replicate, Z2Nat.id by lia. by_decide.
  - eexists. split; [vm_compute; reflexivity|]. done.
Defined.
