(* ===== verification/TestRun.v ===== *)
(** * The test runner (src/lib/tst_test.c)

    The library process that runs the variants of a test, one forked test process
    at a time, and the test process with its iterations, its clean-up and the
    results both share.  What the functions of a test do is a parameter: a call
    gives the actions the code takes, in order, its own and those of the children
    it starts, and the runner decides what follows.  A timeout is a test process
    that dies from SIGKILL.  The heart beat of the test process, the alarm, the
    capabilities, printf() output other than the reported results, and the file
    system, mount and device work of do_setup() and do_cleanup() are not modelled. *)
From stdpp Require Import base strings numbers option list.
From S2P Require Import Prelude CInt.

#[local] Open Scope Z_scope.

(** ** Results *)

Record results := Results { passed : Z; skipped : Z; failed : Z; warnings : Z; broken : Z }.

#[export] Instance results_eq_dec : EqDecision results.
Proof. solve_decision. Defined.

Definition update_results (t : ttype) (r : results) : results :=
  match t with
  | TCONF => Results (passed r) (wrap32 (skipped r + 1)) (failed r) (warnings r) (broken r)
  | TPASS => Results (wrap32 (passed r + 1)) (skipped r) (failed r) (warnings r) (broken r)
  | TWARN => Results (passed r) (skipped r) (failed r) (wrap32 (warnings r + 1)) (broken r)
  | TFAIL => Results (passed r) (skipped r) (wrap32 (failed r + 1)) (warnings r) (broken r)
  | TBROK => Results (passed r) (skipped r) (failed r) (warnings r) (wrap32 (broken r + 1))
  | TINFO => r
  end.

Definition results_equal (a b : results) : bool :=
  bool_decide (passed a = passed b) && bool_decide (failed a = failed b) &&
  bool_decide (skipped a = skipped b) && bool_decide (broken a = broken b).

(** ** Processes *)

Inductive status := Exited (code : Z) | Signaled (sig : Z).
#[export] Instance status_eq_dec : EqDecision status.
Proof. solve_decision. Defined.

(** What the code of a test does: report a result (its own or that of a child),
    call tst_brk(), call exit(), die from a signal, or leave a child that ends
    with a status and is waited for later. *)
Inductive act := Res (t : ttype) | Break (t : ttype) | CallExit (code : Z) | Die (sig : Z) | Child (st : status).

(** The functions of a test. *)
Inductive call := Setup | Test (i : Z) | TestAll | Cleanup.
#[export] Instance call_eq_dec : EqDecision call.
Proof. solve_decision. Defined.

(** struct tst_test, as far as the runner uses it, with the options -i and -I. *)
Record tst_test := TstTest {
  has_test : bool; tcnt : Z; has_setup : bool; has_cleanup : bool;
  all_filesystems : bool; skip_filesystems : bool; test_variants : Z; taint_check : bool;
  timeout : Z; iterations : Z; duration_ms : Z
}.

(** What can be seen of a run: the functions called, with the variant and the file
    system, and the results printed. *)
Inductive tev := Called (variant : nat) (fs : option string) (c : call) | Printed (t : ttype).

(** The state the processes share or that the outside sees: the results, the
    children that have ended, the trace, and the world. *)
Record pst (W : Type) := Pst { res : results; zombies : list status; trace : list tev; world : W }.
Arguments Pst {W}. Arguments res {W}. Arguments zombies {W}. Arguments trace {W}. Arguments world {W}.

(** A process goes on with a value or has ended. *)
Inductive flow (A : Type) := Goes (a : A) | Ends (st : status).
Arguments Goes {A}. Arguments Ends {A}.

Definition T (W A : Type) : Type := pst W → outcome (flow A * pst W).

#[export] Instance T_ret {W} : MRet (T W) := λ A a s, Done (Goes a, s).
#[export] Instance T_bind {W} : MBind (T W) := λ A B f m s,
  match m s with
  | Done (Goes a, s') => f a s'
  | Done (Ends st, s') => Done (Ends st, s')
  | Fault => Fault
  | Timeout => Timeout
  end.

(** The functions of a test, for a variant and a file system, and the answers of
    the system: the clock in milliseconds, fork(), the check for a tainted kernel,
    whether the file system is one the test skips, and whether LTP_TIMEOUT_MUL is
    unset or a number from 1 to 10000. *)
Class TestWorld (W : Type) := {
  code : nat → option string → call → W → list act * W;
  time_ms : W → Z * W;
  fork_ok : W → bool * W;
  is_tainted : W → bool * W;
  fs_skipped : W → bool * W;
  timeout_mul_ok : W → bool * W
}.

Section runner.
Context {W : Type} `{TestWorld W} (test : tst_test).

Definition get {A} (f : pst W → A) : T W A := λ s, Done (Goes (f s), s).
Definition put (f : pst W → pst W) : T W () := λ s, Done (Goes (), f s).
Definition ask {A} (f : W → A * W) : T W A := λ s,
  let '(a, w) := f (world s) in Done (Goes a, Pst (res s) (zombies s) (trace s) w).
Definition exit {A} (c : Z) : T W A := λ s, Done (Ends (Exited (Z.land c 255)), s).
Definition die {A} (sig : Z) : T W A := λ s, Done (Ends (Signaled sig), s).
Definition diverge {A} : T W A := λ s, Timeout.

(** print_result() and update_results(). *)
Definition report (t : ttype) : T W () :=
  put (λ s, Pst (update_results t (res s)) (zombies s) (trace s ++ [Printed t]) (world s)).

Definition leave_child (st : status) : T W () :=
  put (λ s, Pst (res s) (zombies s ++ [st]) (trace s) (world s)).

(** A function of the test is called: the actions it takes. *)
Definition call_code (variant : nat) (fs : option string) (c : call) : T W (list act) :=
  _ ← put (λ s, Pst (res s) (zombies s) (trace s ++ [Called variant fs c]) (world s));
  ask (code variant fs c).

(** ** Clean-up and tst_brk() *)

(** tst_cvres() *)
Definition cvres_type (t : ttype) : ttype := match t with TBROK => TWARN | _ => t end.

(** Actions under the handler tst_cvres(), where tst_brk() returns. *)
Fixpoint cleanup_acts (acts : list act) : T W () :=
  match acts with
  | [] => mret ()
  | Res t :: acts' => _ ← report t; cleanup_acts acts'
  | Break t :: acts' => _ ← report (cvres_type t); cleanup_acts acts'
  | CallExit c :: _ => exit c
  | Die sig :: _ => die sig
  | Child st :: acts' => _ ← leave_child st; cleanup_acts acts'
  end.

Definition do_test_cleanup (variant : nat) (fs : option string) : T W () :=
  if has_cleanup test then acts ← call_code variant fs Cleanup; cleanup_acts acts else mret ().

(** tst_vbrk_() in the test process. *)
Definition tst_vbrk (variant : nat) (fs : option string) {A} (t : ttype) : T W A :=
  _ ← report t;
  _ ← do_test_cleanup variant fs;
  exit (ttype_value t).

(** Actions under the handler tst_vbrk_(). *)
Fixpoint run_acts (variant : nat) (fs : option string) (acts : list act) : T W () :=
  match acts with
  | [] => mret ()
  | Res t :: acts' => _ ← report t; run_acts variant fs acts'
  | Break t :: _ => tst_vbrk variant fs t
  | CallExit c :: _ => exit c
  | Die sig :: _ => die sig
  | Child st :: acts' => _ ← leave_child st; run_acts variant fs acts'
  end.

(** ** The test process *)

Section process.
Context (variant : nat) (fs : option string).

Definition run_code (c : call) : T W () := acts ← call_code variant fs c; run_acts variant fs acts.

Definition check_child_status (st : status) : T W () :=
  match st with
  | Signaled _ => tst_vbrk variant fs TBROK
  | Exited c =>
      if decide (c = ttype_value TPASS ∨ c = ttype_value TBROK ∨ c = ttype_value TCONF) then mret ()
      else tst_vbrk variant fs TBROK
  end.

(** tst_reap_children(): wait() until there is no child left. *)
Fixpoint reap_loop (l : list status) : T W () :=
  match l with
  | [] => mret ()
  | st :: l' =>
      _ ← put (λ s, Pst (res s) l' (trace s) (world s));
      _ ← check_child_status st;
      reap_loop l'
  end.

Definition tst_reap_children : T W () := l ← get zombies; reap_loop l.

Definition do_test_setup : T W () :=
  _ ← (if negb (all_filesystems test) && skip_filesystems test then
         skip ← ask fs_skipped;
         if (skip : bool) then tst_vbrk variant fs TCONF else report TINFO
       else mret ());
  if has_setup test then run_code Setup else mret ().

(** One call of a test function with the checks that follow it. *)
Definition run_one (c : call) : T W () :=
  saved ← get res;
  _ ← run_code c;
  _ ← tst_reap_children;
  r ← get res;
  if results_equal saved r then tst_vbrk variant fs TBROK else mret ().

(** for (i = 0; i < tcnt; i++), with [n] turns left. *)
Fixpoint tests_loop (n : nat) (i : Z) : T W () :=
  match n with
  | O => mret ()
  | S n' => _ ← run_one (Test i); tests_loop n' (i + 1)
  end.

Definition run_tests : T W () :=
  if negb (has_test test) then run_one TestAll else tests_loop (Z.to_nat (tcnt test)) 0.

(** The loop of testrun(): the iterations of -i, and more until the time of -I. *)
Fixpoint iterate (fuel : nat) (i stop_time : Z) : T W () :=
  match fuel with
  | O => diverge
  | S fuel' =>
      let more := bool_decide (i < u32 (iterations test)) in
      let i := if more then i + 1 else i in
      cont ← (if decide (stop_time ≠ 0) then t ← ask time_ms; mret (more || bool_decide (t < stop_time)) else mret more);
      if (cont : bool) then _ ← run_tests; iterate fuel' i stop_time else mret ()
  end.

Definition testrun (fuel : nat) : T W () :=
  _ ← do_test_setup;
  stop_time ← (if decide (0 < duration_ms test) then t ← ask time_ms; mret (t + duration_ms test) else mret 0);
  _ ← iterate fuel 0 stop_time;
  _ ← do_test_cleanup variant fs;
  exit 0.
End process.

(** ** The library process *)

(** do_exit(): the exit status from the results. *)
Definition exit_code (r : results) (ret : Z) : Z :=
  let ret := if bool_decide (passed r ≠ 0) && bool_decide (ret = ttype_value TCONF) then 0 else ret in
  let ret := if decide (failed r ≠ 0) then Z.lor ret (ttype_value TFAIL) else ret in
  let ret := if bool_decide (skipped r ≠ 0) && bool_decide (passed r = 0) then Z.lor ret (ttype_value TCONF) else ret in
  let ret := if decide (warnings r ≠ 0) then Z.lor ret (ttype_value TWARN) else ret in
  if decide (broken r ≠ 0) then Z.lor ret (ttype_value TBROK) else ret.

Definition do_exit {A} (ret : Z) : T W A := r ← get res; exit (exit_code r ret).

(** tst_vbrk_() in the library process. *)
Definition lib_brk {A} (t : ttype) : T W A := _ ← report t; do_exit (ttype_value t).

(** fork() and waitpid(): the test process runs to its end; children it has not
    waited for are left to init. *)
Definition run_process (fuel : nat) (variant : nat) (fs : option string) : T W status := λ s,
  match testrun variant fs fuel (Pst (res s) [] (trace s) (world s)) with
  | Done (Goes _, s') => Done (Goes (Exited 0), Pst (res s') [] (trace s') (world s'))
  | Done (Ends st, s') => Done (Goes st, Pst (res s') [] (trace s') (world s'))
  | Fault => Fault
  | Timeout => Timeout
  end.

Definition SIGKILL : Z := 9.

(** tst_set_timeout() with tst_multiply_timeout(), without the alarm. *)
Definition tst_set_timeout (t : Z) : T W () :=
  if decide (t = -1) then report TINFO
  else if decide (t < 1) then lib_brk TBROK
  else
    ok ← ask timeout_mul_ok;
    if (ok : bool) then report TINFO else lib_brk TBROK.

(** The end of fork_testrun(): what the status of the test process means. *)
Definition judge (st : status) : T W Z :=
  tainted ← (if taint_check test then ask is_tainted else mret false);
  if (tainted : bool) then _ ← report TFAIL; mret (ttype_value TFAIL)
  else match st with
       | Exited c => mret c
       | Signaled sig => _ ← (if decide (sig = SIGKILL) then report TINFO else mret ()); lib_brk TBROK
       end.

Definition fork_testrun (fuel : nat) (variant : nat) (fs : option string) : T W Z :=
  _ ← tst_set_timeout (if decide (timeout test ≠ 0) then timeout test else 300);
  ok ← ask fork_ok;
  if negb ok then lib_brk TBROK
  else
    st ← run_process fuel variant fs;
    judge st.

(** The loop of run_tcases_per_fs() over the file systems. *)
Fixpoint fs_loop (fuel : nat) (variant : nat) (fss : list string) (ret : Z) : T W Z :=
  match fss with
  | [] => mret ret
  | fs :: fss' =>
      _ ← report TINFO;
      ret ← fork_testrun fuel variant (Some fs);
      if decide (ret = ttype_value TCONF ∨ ret = 0) then fs_loop fuel variant fss' ret
      else do_exit ret
  end.

Definition run_tcases_per_fs (fuel : nat) (variant : nat) (fss : list string) : T W Z :=
  match fss with
  | [] => lib_brk TCONF
  | _ => fs_loop fuel variant fss 0
  end.

(** for (tst_variant = 0; ...), with [n] turns left. *)
Fixpoint variants_loop (fuel : nat) (fss : list string) (n variant : nat) (ret : Z) : T W Z :=
  match n with
  | O => mret ret
  | S n' =>
      r ← (if all_filesystems test then run_tcases_per_fs fuel variant fss else fork_testrun fuel variant None);
      let ret := Z.lor ret r in
      if decide (Z.ldiff ret (ttype_value TCONF) ≠ 0) then mret ret
      else variants_loop fuel fss n' (S variant) ret
  end.

Definition tst_run_tcases (fuel : nat) (fss : list string) : T W () :=
  let n := if decide (test_variants test ≠ 0) then Z.to_nat (test_variants test) else 1%nat in
  ret ← variants_loop fuel fss n 0 0;
  do_exit ret.

(** A run of a test that has been set up. *)
Definition start (w : W) : pst W := Pst (Results 0 0 0 0 0) [] [] w.
End runner.
