(* ===== verification/TestRunSpec.v ===== *)
(** * What the exit status of a test means

    Properties of the runner in [TestRun]: an exit status of zero means that every
    test function reported a result and that none of them was bad; the clean-up
    runs exactly once; a test that behaves runs all its variants, iterations and
    test cases in order, and its exit status follows from the results it reports. *)
From stdpp Require Import base strings numbers option list.
From S2P Require Import Prelude CInt TestRun.

#[local] Open Scope Z_scope.

(** ** Postconditions

    [twp m s Q E]: from [s], the process goes on with a value and a state in [Q] or
    ends with a status and a state in [E]. *)
Definition twp {W A} (m : T W A) (s : pst W) (Q : A → pst W → Prop) (E : status → pst W → Prop) : Prop :=
  match m s with
  | Done (Goes a, s') => Q a s'
  | Done (Ends st, s') => E st s'
  | Fault => False
  | Timeout => True
  end.

Section twp.
Context {W : Type}.
Implicit Types (s : pst W) (E : status → pst W → Prop).

Lemma twp_ret {A} (a : A) s (Q : A → pst W → Prop) E : Q a s → twp (mret a) s Q E.
Proof. done. Qed.

Lemma twp_bind {A B} (m : T W A) (f : A → T W B) s Q E :
  twp m s (λ a s', twp (f a) s' Q E) E → twp (m ≫= f) s Q E.
Proof. unfold twp, mbind, T_bind. destruct (m s) as [[[a|st] s']| |]; done. Qed.

Lemma twp_mono {A} (m : T W A) s (Q Q' : A → pst W → Prop) E E' :
  twp m s Q E → (∀ a s', Q a s' → Q' a s') → (∀ st s', E st s' → E' st s') → twp m s Q' E'.
Proof. unfold twp. destruct (m s) as [[[a|st] s']| |]; auto. Qed.

Lemma twp_get {A} (f : pst W → A) s (Q : A → pst W → Prop) E : Q (f s) s → twp (get f) s Q E.
Proof. done. Qed.

Lemma twp_put (f : pst W → pst W) s (Q : () → pst W → Prop) E : Q () (f s) → twp (put f) s Q E.
Proof. done. Qed.

Lemma twp_ask {A} (f : W → A * W) s (Q : A → pst W → Prop) E :
  (∀ a w, f (world s) = (a, w) → Q a (Pst (res s) (zombies s) (trace s) w)) → twp (ask f) s Q E.
Proof. unfold twp, ask. destruct (f (world s)) eqn:Ef. auto. Qed.

Lemma twp_exit {A} c s (Q : A → pst W → Prop) E : E (Exited (Z.land c 255)) s → twp (exit c) s Q E.
Proof. done. Qed.

Lemma twp_die {A} sig s (Q : A → pst W → Prop) E : E (Signaled sig) s → twp (die sig) s Q E.
Proof. done. Qed.

Lemma twp_report t s (Q : () → pst W → Prop) E :
  Q () (Pst (update_results t (res s)) (zombies s) (trace s ++ [Printed t]) (world s)) → twp (report t) s Q E.
Proof. done. Qed.
End twp.

Create HintDb testrun discriminated.

(** ** The results are the tally of what was printed *)

Definition zero_results : results := Results 0 0 0 0 0.

Definition count_event (r : results) (e : tev) : results :=
  match e with Printed t => update_results t r | Called _ _ _ => r end.
Definition tally (l : list tev) : results := foldl count_event zero_results l.

Definition acct {W} (s : pst W) : Prop := res s = tally (trace s).

Lemma tally_snoc l e : tally (l ++ [e]) = count_event (tally l) e.
Proof. unfold tally. by rewrite foldl_app. Qed.

(** ** Every call of a test function is followed by a result *)

(** The results that count for results_equal(). *)
Definition counts (t : ttype) : bool :=
  match t with TPASS | TFAIL | TCONF | TBROK => true | TWARN | TINFO => false end.
Definition is_test (c : call) : bool := match c with Test _ | TestAll => true | _ => false end.

(** A result that counts is printed before the next call. *)
Definition answered (l : list tev) : Prop :=
  ∀ l1 v fs c l2, l = l1 ++ Called v fs c :: l2 → is_test c = true →
  ∃ ts l3, l2 = (Printed <$> ts) ++ l3 ∧ existsb counts ts = true.

(** The same as a scan of the trace from left to right. *)
Inductive scanst := Clear | Pending | Bad.

Definition next (st : scanst) (e : tev) : scanst :=
  match e, st with
  | Printed t, Pending => if counts t then Clear else Pending
  | Printed _, _ => st
  | Called _ _ c, Clear => if is_test c then Pending else Clear
  | Called _ _ _, _ => Bad
  end.
Definition scan (l : list tev) : scanst := foldl next Clear l.

Lemma scan_snoc l e : scan (l ++ [e]) = next (scan l) e.
Proof. unfold scan. by rewrite foldl_app. Qed.

Lemma foldl_bad l : foldl next Bad l = Bad.
Proof. induction l as [|[] l IH]; cbn; auto. Qed.

Lemma pending_answered l : foldl next Pending l = Clear → ∃ ts l3, l = (Printed <$> ts) ++ l3 ∧ existsb counts ts = true.
Proof.
  induction l as [|[v fs c|t] l IH]; cbn; [done|by rewrite foldl_bad|].
  destruct (counts t) eqn:Et.
  - intros _. exists [t], l. cbn. by rewrite Et.
  - intros (ts & l3 & -> & Hts)%IH. exists (t :: ts), l3. cbn. by rewrite Et.
Qed.

Lemma scan_answered l : scan l = Clear → answered l.
Proof.
  intros Hs l1 v fs c l2 -> Hc. unfold scan in Hs. rewrite foldl_app in Hs. cbn in Hs. rewrite Hc in Hs.
  destruct (foldl next Clear l1); rewrite ?foldl_bad in Hs; [|done..]. by apply pending_answered.
Qed.

(** While the result is pending, results_equal() notices. *)
Lemma pending_equal r l : foldl next Pending (Printed <$> l) = Pending →
  results_equal r (foldl count_event r (Printed <$> l)) = true.
Proof.
  assert (∀ r', passed r' = passed r → failed r' = failed r → skipped r' = skipped r → broken r' = broken r →
    foldl next Pending (Printed <$> l) = Pending →
    results_equal r (foldl count_event r' (Printed <$> l)) = true) as H; [|by apply H].
  induction l as [|t l IH]; cbn; intros r' Hp Hf Hs Hb Hl.
  { unfold results_equal. by rewrite Hp, Hf, Hs, Hb, !bool_decide_true by done. }
  assert (counts t = false) as Ht.
  { destruct (counts t); [|done]. exfalso. clear -Hl.
    assert (foldl next Clear (Printed <$> l) = Clear) as E by (clear; induction l; auto). congruence. }
  rewrite Ht in Hl. apply IH; destruct t; done.
Qed.

Lemma pending_or_clear l st : st ≠ Bad → foldl next st (Printed <$> l) ≠ Bad.
Proof. revert st. induction l as [|t l IH]; intros st Hst; cbn; [done|]. apply IH. by destruct st, (counts t). Qed.

Lemma clear_clear l : foldl next Clear (Printed <$> l) = Clear.
Proof. induction l; auto. Qed.

(** ** No silent pass *)

(** The code of a test that does not call exit() itself. *)
Definition no_exit (acts : list act) : Prop := ∀ c, CallExit c ∉ acts.

Lemma no_exit_cons a acts : no_exit (a :: acts) → no_exit acts ∧ ∀ c, a ≠ CallExit c.
Proof. intros H. split; intros c Hc; apply (H c); [by right|subst; by left]. Qed.

Section silent.
Context {W : Type} `{TestWorld W} (test : tst_test).
Context (Hexit : ∀ v fs c w, no_exit (code v fs c w).1).
Implicit Types s : pst W.

(** The end of a test process: its calls are answered, or the status says that
    something went wrong. *)
Definition end_ok (st : status) s : Prop :=
  acct s ∧ match st with Signaled _ => True | Exited c => 0 ≤ c ≤ 255 ∧ (scan (trace s) = Clear ∨ (c ≠ 0 ∧ c ≠ 32)) end.

Definition clear s : Prop := acct s ∧ scan (trace s) = Clear.

Lemma acct_report s t z (w : W) : acct s → acct (Pst (update_results t (res s)) z (trace s ++ [Printed t]) w).
Proof. unfold acct. cbn. intros ->. by rewrite tally_snoc. Qed.

Lemma clear_report s t z (w : W) : clear s → clear (Pst (update_results t (res s)) z (trace s ++ [Printed t]) w).
Proof. intros [Ha Hs]. split; [by apply acct_report|]. cbn. by rewrite scan_snoc, Hs. Qed.

Lemma acct_called s v fs c z (w : W) : acct s → acct (Pst (res s) z (trace s ++ [Called v fs c]) w).
Proof. unfold acct. cbn. intros ->. by rewrite tally_snoc. Qed.

(** Clean-up code keeps the accounts and a clear scan; it ends the process only
    by dying. *)
Lemma cleanup_acts_twp acts s :
  no_exit acts → acct s →
  twp (cleanup_acts acts) s (λ _ s', acct s' ∧ (scan (trace s) = Clear → scan (trace s') = Clear))
     (λ st s', acct s' ∧ ∃ sig, st = Signaled sig).
Proof.
  revert s. induction acts as [|a acts IH]; intros s Hne Ha; [by apply twp_ret|].
  apply no_exit_cons in Hne as [Hne Hn]. destruct a as [t|t|c|sig|st]; cbn [cleanup_acts]; [| |by destruct (Hn c)| |].
  - apply twp_bind, twp_report. eapply twp_mono; [apply IH; [done|by apply acct_report]| |done].
    intros [] s' [? Hc]. split; [done|]. intros E. apply Hc. cbn. by rewrite scan_snoc, E.
  - apply twp_bind, twp_report. eapply twp_mono; [apply IH; [done|by apply acct_report]| |done].
    intros [] s' [? Hc]. split; [done|]. intros E. apply Hc. cbn. by rewrite scan_snoc, E.
  - apply twp_die. eauto.
  - apply twp_bind, twp_put. eapply twp_mono; [by apply IH|done|done].
Qed.

Lemma do_test_cleanup_twp v fs s :
  acct s →
  twp (do_test_cleanup test v fs) s (λ _ s', acct s' ∧ (scan (trace s) = Clear → scan (trace s') = Clear))
     (λ st s', acct s' ∧ ∃ sig, st = Signaled sig).
Proof.
  intros Ha. unfold do_test_cleanup. destruct (has_cleanup test); [|by apply twp_ret].
  apply twp_bind. unfold call_code. apply twp_bind, twp_put, twp_ask. cbn. intros acts w Hc.
  eapply twp_mono; [apply cleanup_acts_twp| |done].
  - specialize (Hexit v fs Cleanup (world s)). by rewrite Hc in Hexit.
  - by apply acct_called.
  - cbn. intros [] s' [? Hs]. split; [done|]. intros E. apply Hs. by rewrite scan_snoc, E.
Qed.

Lemma tst_vbrk_twp {A} v fs t s (Q : A → pst W → Prop) :
  acct s → scan (trace s) ≠ Bad → twp (tst_vbrk test v fs t) s Q end_ok.
Proof.
  intros Ha Hs. unfold tst_vbrk. apply twp_bind, twp_report, twp_bind.
  eapply twp_mono; [apply do_test_cleanup_twp; by apply acct_report| |].
  - intros [] s' [? Hc]. apply twp_exit. cbn [trace] in Hc. split; [done|]. split; [by destruct t|].
    rewrite scan_snoc in Hc. destruct (scan (trace s)), t; cbn in *; auto; right; split; discriminate.
  - intros st s' [? [sig ->]]. done.
Qed.

Lemma run_acts_twp v fs acts s :
  no_exit acts → acct s → scan (trace s) ≠ Bad →
  twp (run_acts test v fs acts) s (λ _ s', acct s' ∧ ∃ ts, trace s' = trace s ++ (Printed <$> ts)) end_ok.
Proof.
  revert s. induction acts as [|a acts IH]; intros s Hne Ha Hs; cbn [run_acts].
  { apply twp_ret. split; [done|]. exists []. by rewrite app_nil_r. }
  apply no_exit_cons in Hne as [Hne Hn]. destruct a as [t|t|c|sig|st]; [| |by destruct (Hn c)| |].
  - apply twp_bind, twp_report. eapply twp_mono; [apply IH; [done|by apply acct_report|]| |done].
    + cbn. rewrite scan_snoc. destruct (scan (trace s)), (counts t) eqn:Et; cbn; rewrite ?Et; done.
    + intros [] s' [? [ts Ht]]. split; [done|]. exists (t :: ts). rewrite Ht. cbn. by rewrite <- app_assoc.
  - by apply tst_vbrk_twp.
  - apply twp_die. by split.
  - apply twp_bind, twp_put. eapply twp_mono; [by apply IH|done|done].
Qed.

Lemma reap_loop_twp v fs l s :
  acct s → scan (trace s) ≠ Bad →
  twp (reap_loop test v fs l) s (λ _ s', acct s' ∧ trace s' = trace s) end_ok.
Proof.
  revert s. induction l as [|st l IH]; intros s Ha Hs; cbn [reap_loop]; [by apply twp_ret|].
  apply twp_bind, twp_put, twp_bind. unfold check_child_status.
  destruct st as [c|sig]; [case_decide|]; [|by apply tst_vbrk_twp..].
  apply twp_ret. eapply twp_mono; [by apply IH|done|done].
Qed.

Lemma run_code_twp v fs c s :
  clear s →
  twp (run_code test v fs c) s
     (λ _ s', acct s' ∧ ∃ ts, trace s' = trace s ++ Called v fs c :: (Printed <$> ts)) end_ok.
Proof.
  intros [Ha Hs]. unfold run_code, call_code. apply twp_bind, twp_bind, twp_put, twp_ask. cbn. intros acts w Hc.
  eapply twp_mono; [apply run_acts_twp| |done].
  - specialize (Hexit v fs c (world s)). by rewrite Hc in Hexit.
  - by apply acct_called.
  - cbn. rewrite scan_snoc, Hs. cbn. by destruct (is_test c).
  - cbn. intros [] s' [? [ts ->]]. split; [done|]. exists ts. by rewrite <- app_assoc.
Qed.

Lemma tally_app l k : tally (l ++ k) = foldl count_event (tally l) k.
Proof. unfold tally. by rewrite foldl_app. Qed.

Lemma run_one_twp v fs c s :
  clear s → is_test c = true → twp (run_one test v fs c) s (λ _ s', clear s') end_ok.
Proof.
  intros Hcl Hc. pose proof Hcl as [Ha Hs]. unfold run_one. apply twp_bind, twp_get, twp_bind.
  eapply twp_mono; [by apply run_code_twp| |done]. intros [] s1 [Ha1 [ts Ht]].
  assert (scan (trace s1) = foldl next Pending (Printed <$> ts)) as Hsc.
  { rewrite Ht. unfold scan. rewrite foldl_app. cbn. fold (scan (trace s)). by rewrite Hs, Hc. }
  assert (scan (trace s1) ≠ Bad) as Hnb by (rewrite Hsc; by apply pending_or_clear).
  apply twp_bind. unfold tst_reap_children. apply twp_bind, twp_get.
  eapply twp_mono; [by apply reap_loop_twp| |done]. intros [] s2 [Ha2 Ht2].
  apply twp_bind, twp_get. destruct (results_equal (res s) (res s2)) eqn:Eq.
  { apply tst_vbrk_twp; [done|by rewrite Ht2]. }
  apply twp_ret. split; [done|]. rewrite Ht2.
  destruct (scan (trace s1)) eqn:E; [done| |done]. exfalso. symmetry in Hsc.
  pose proof (pending_equal (res s) ts Hsc) as He. unfold acct in *.
  rewrite Ha2, Ht2, Ht, tally_app, <- Ha in Eq. cbn in Eq. by rewrite He in Eq.
Qed.

Lemma tests_loop_twp v fs n i s : clear s → twp (tests_loop test v fs n i) s (λ _ s', clear s') end_ok.
Proof.
  revert i s. induction n as [|n IH]; intros i s Hcl; cbn [tests_loop]; [by apply twp_ret|].
  apply twp_bind. eapply twp_mono; [by apply run_one_twp| |done]. intros [] s' Hcl'. by apply IH.
Qed.

Lemma run_tests_twp v fs s : clear s → twp (run_tests test v fs) s (λ _ s', clear s') end_ok.
Proof.
  intros Hcl. unfold run_tests. destruct (has_test test); cbn [negb]; [by apply tests_loop_twp|by apply run_one_twp].
Qed.

Lemma clear_world s z (w : W) : clear s → clear (Pst (res s) z (trace s) w).
Proof. done. Qed.

Lemma iterate_twp v fs fuel i stop s : clear s → twp (iterate test v fs fuel i stop) s (λ _ s', clear s') end_ok.
Proof.
  revert i s. induction fuel as [|fuel IH]; intros i s Hcl; cbn [iterate]; [done|].
  apply twp_bind. assert (∀ (b : bool) s', clear s' →
    twp (if b then _ ← run_tests test v fs;
        iterate test v fs fuel (if bool_decide (i < u32 (iterations test)) then i + 1 else i) stop else mret ())
       s' (λ _ s', clear s') end_ok) as Hgo.
  { intros [] s' Hcl'; [|by apply twp_ret]. apply twp_bind.
    eapply twp_mono; [by apply run_tests_twp| |done]. intros [] s'' Hcl''. by apply IH. }
  destruct (decide (stop ≠ 0)); [|by apply twp_ret, Hgo].
  apply twp_bind, twp_ask. intros t w _. by apply twp_ret, Hgo.
Qed.

Lemma do_test_setup_twp v fs s : clear s → twp (do_test_setup test v fs) s (λ _ s', clear s') end_ok.
Proof.
  intros Hcl. unfold do_test_setup. apply twp_bind.
  assert (∀ s', clear s' → twp (if has_setup test then run_code test v fs Setup else mret ()) s' (λ _ s', clear s') end_ok) as Hgo.
  { intros s' [Ha Hs]. destruct (has_setup test); [|by apply twp_ret].
    eapply twp_mono; [by apply run_code_twp| |done]. intros [] s'' [? [ts Ht]]. split; [done|].
    rewrite Ht. unfold scan. rewrite foldl_app. cbn. fold (scan (trace s')). rewrite Hs. apply clear_clear. }
  destruct (_ && _); [|by apply twp_ret, Hgo].
  apply twp_bind, twp_ask. intros [] w _.
  - destruct Hcl as [Ha Hs]. apply tst_vbrk_twp; [done|]. cbn [trace]. by rewrite Hs.
  - apply twp_report, Hgo. by apply clear_report.
Qed.

Lemma testrun_twp v fs fuel s : clear s → twp (testrun test v fs fuel) s (λ _ _, False) end_ok.
Proof.
  intros Hcl. unfold testrun. apply twp_bind.
  eapply twp_mono; [by apply do_test_setup_twp| |done]. intros [] s1 Hcl1. apply twp_bind.
  assert (∀ stop s', clear s' →
    twp (A := ()) (_ ← iterate test v fs fuel 0 stop; _ ← do_test_cleanup test v fs; exit 0) s' (λ _ _, False) end_ok) as Hgo.
  { intros stop s' Hcl'. apply twp_bind. eapply twp_mono; [by apply iterate_twp| |done]. intros [] s2 [Ha2 Hs2].
    apply twp_bind. eapply twp_mono; [by apply do_test_cleanup_twp| |].
    - intros [] s3 [Ha3 Hs3]. apply twp_exit. split; [done|]. split; [done|]. left. auto.
    - intros st s3 [Ha3 [sig ->]]. by split. }
  destruct (decide (0 < duration_ms test)); [|by apply twp_ret, Hgo].
  apply twp_bind, twp_ask. intros t w _. by apply twp_ret, Hgo.
Qed.

Lemma run_process_twp v fs fuel s E : clear s → twp (run_process test fuel v fs) s end_ok E.
Proof.
  intros Hcl. pose proof (testrun_twp v fs fuel (Pst (res s) [] (trace s) (world s)) Hcl) as Ht.
  unfold twp, run_process in *. destruct (testrun _ _ _ _ _) as [[[u|st] s']| |]; done.
Qed.

(** ** The exit status *)

Lemma lor_zero a b : 0 ≤ a → 0 ≤ b → Z.lor a b = 0 ↔ a = 0 ∧ b = 0.
Proof. intros. apply Z.lor_eq_0_iff. Qed.

Lemma lor_byte a b : 0 ≤ a ≤ 255 → 0 ≤ b ≤ 255 → 0 ≤ Z.lor a b ≤ 255.
Proof.
  intros Ha Hb. split; [apply Z.lor_nonneg; lia|].
  assert (Z.lor a b < 2 ^ 8); [|lia].
  destruct (decide (Z.lor a b = 0)) as [->|]; [lia|].
  assert (0 ≤ Z.lor a b) by (apply Z.lor_nonneg; lia).
  apply Z.log2_lt_pow2; [lia|]. rewrite Z.log2_lor by lia.
  assert (∀ x, 0 ≤ x ≤ 255 → Z.log2 x < 8) as Hl.
  { intros x Hx. destruct (decide (x = 0)) as [->|]; [done|]. apply Z.log2_lt_pow2; lia. }
  pose proof (Hl a Ha). pose proof (Hl b Hb). lia.
Qed.

Lemma ldiff_tconf x : 0 ≤ x ≤ 255 → Z.ldiff x 32 = 0 → x = 0 ∨ x = 32.
Proof.
  intros Hx. assert (Forall (λ x, Z.ldiff x 32 = 0 → x = 0 ∨ x = 32) (seqZ 0 256)) as Hall by by_decide.
  rewrite Forall_forall in Hall. apply Hall, elem_of_seqZ. lia.
Qed.

Lemma exit_code_byte r ret : 0 ≤ ret ≤ 255 → 0 ≤ exit_code r ret ≤ 255.
Proof.
  intros Hr. unfold exit_code. set (r0 := if _ && _ then 0 else ret).
  assert (0 ≤ r0 ≤ 255) as H0 by (unfold r0; case_match; lia). clearbody r0.
  repeat first [case_decide|case_match]; repeat (apply lor_byte); done.
Qed.

Lemma exit_code_zero r ret :
  0 ≤ ret ≤ 255 → exit_code r ret = 0 →
  failed r = 0 ∧ warnings r = 0 ∧ broken r = 0 ∧ (skipped r ≠ 0 → passed r ≠ 0) ∧ (ret = 0 ∨ ret = 32).
Proof.
  intros Hr. unfold exit_code. set (r0 := if _ && _ then 0 else ret).
  assert (r0 = 0 → ret = 0 ∨ ret = 32) as H0.
  { unfold r0. repeat case_bool_decide; cbn; auto. }
  assert (0 ≤ r0) by (unfold r0; case_match; lia). clearbody r0.
  repeat case_decide; repeat case_bool_decide; cbn [andb ttype_value];
    rewrite ?Z.lor_eq_0_iff; intros; split_and!; naive_solver lia.
Qed.

(** The end of the library process. *)
Definition final (st : status) s : Prop :=
  acct s ∧ ∃ c, st = Exited c ∧
    (c = 0 → scan (trace s) = Clear ∧ failed (res s) = 0 ∧ warnings (res s) = 0 ∧ broken (res s) = 0 ∧
             (skipped (res s) ≠ 0 → passed (res s) ≠ 0)).

(** The value of a test process, or of several, in the library process. *)
Definition verdict (ret : Z) s : Prop :=
  acct s ∧ 0 ≤ ret ≤ 255 ∧ (scan (trace s) = Clear ∨ (ret ≠ 0 ∧ ret ≠ 32)).

Lemma do_exit_twp {A} ret s (Q : A → pst W → Prop) : verdict ret s → twp (do_exit ret) s Q final.
Proof.
  intros (Ha & Hr & Hs). unfold do_exit. apply twp_bind, twp_get, twp_exit. split; [done|].
  pose proof (exit_code_byte (res s) ret Hr) as Hb.
  assert (Z.land (exit_code (res s) ret) 255 = exit_code (res s) ret) as ->.
  { change 255 with (Z.ones 8). rewrite Z.land_ones by lia. apply Z.mod_small. lia. }
  eexists. split; [done|]. intros (? & ? & ? & ? & Hret)%exit_code_zero; [|done].
  split_and!; try done. destruct Hs as [|[]]; [done|naive_solver].
Qed.

Lemma lib_brk_twp {A} t s (Q : A → pst W → Prop) :
  acct s → (t = TBROK ∨ t = TCONF ∧ scan (trace s) = Clear) → twp (lib_brk t) s Q final.
Proof.
  intros Ha Ht. unfold lib_brk. apply twp_bind, twp_report, do_exit_twp.
  split; [by apply acct_report|]. destruct Ht as [->|[-> Hs]]; cbn [trace ttype_value].
  - split; [done|]. by right.
  - split; [done|]. left. by rewrite scan_snoc, Hs.
Qed.

Lemma judge_twp st s : end_ok st s → twp (judge test st) s verdict final.
Proof.
  intros [Ha Hst]. unfold judge. apply twp_bind.
  assert (∀ (b : bool) s', trace s' = trace s → acct s' →
    twp (if b then _ ← report TFAIL; mret (ttype_value TFAIL)
        else match st with
             | Exited c => mret c
             | Signaled sig => _ ← (if decide (sig = SIGKILL) then report TINFO else mret ()); lib_brk TBROK
             end) s' verdict final) as Hend.
  { intros [] s' Ht Ha'.
    - apply twp_bind, twp_report, twp_ret. split; [by apply acct_report|]. split; [done|]. by right.
    - destruct st as [c|sig].
      + apply twp_ret. split; [done|]. by rewrite Ht.
      + apply twp_bind. destruct (decide (sig = SIGKILL)).
        * apply twp_report, lib_brk_twp; [by apply acct_report|by left].
        * apply twp_ret, lib_brk_twp; [done|by left]. }
  destruct (taint_check test); [|by apply twp_ret, (Hend false)].
  apply twp_ask. intros b w _. by apply (Hend b).
Qed.

Lemma tst_set_timeout_twp t s : clear s → twp (tst_set_timeout t) s (λ _ s', clear s') final.
Proof.
  intros Hcl. pose proof Hcl as [Ha _]. unfold tst_set_timeout.
  destruct (decide (t = -1)); [apply twp_report; by apply clear_report|].
  destruct (decide (t < 1)); [apply lib_brk_twp; [done|by left]|].
  apply twp_bind, twp_ask. intros [] w _; [apply twp_report; by apply clear_report|].
  apply lib_brk_twp; [done|by left].
Qed.

Lemma fork_testrun_twp fuel v fs s : clear s → twp (fork_testrun test fuel v fs) s verdict final.
Proof.
  intros Hcl. unfold fork_testrun. apply twp_bind.
  eapply twp_mono; [by apply tst_set_timeout_twp| |done]. intros [] s1 Hcl1.
  apply twp_bind, twp_ask. intros [] w _; cbn [negb].
  - apply twp_bind. eapply twp_mono; [by apply (run_process_twp _ _ _ _ final)| |done].
    intros st s2 Hst. by apply judge_twp.
  - destruct Hcl1 as [Ha1 _]. apply lib_brk_twp; [done|by left].
Qed.

Lemma fs_loop_twp fuel v fss ret s :
  verdict ret s → scan (trace s) = Clear → twp (fs_loop test fuel v fss ret) s verdict final.
Proof.
  revert ret s. induction fss as [|fs fss IH]; intros ret s Hv Hs; cbn [fs_loop]; [by apply twp_ret|].
  destruct Hv as (Ha & _). apply twp_bind, twp_report, twp_bind.
  eapply twp_mono; [apply fork_testrun_twp; by apply clear_report| |done].
  intros ret' s' Hv'. case_decide as Hc; [|by apply do_exit_twp].
  apply IH; [done|]. destruct Hv' as (_ & _ & [|[]]); [done|naive_solver].
Qed.

Lemma variants_loop_twp fuel fss n v ret s :
  verdict ret s → scan (trace s) = Clear → twp (variants_loop test fuel fss n v ret) s verdict final.
Proof.
  revert v ret s. induction n as [|n IH]; intros v ret s Hv Hs; cbn [variants_loop]; [by apply twp_ret|].
  pose proof Hv as (Ha & Hret & _). apply twp_bind.
  assert (twp (if all_filesystems test then run_tcases_per_fs test fuel v fss else fork_testrun test fuel v None)
             s verdict final) as Hone.
  { destruct (all_filesystems test); [|by apply fork_testrun_twp].
    unfold run_tcases_per_fs. destruct fss as [|fs fss']; [apply lib_brk_twp; [done|by right]|].
    apply fs_loop_twp; [|done]. split; [done|]. split; [lia|by left]. }
  eapply twp_mono; [exact Hone| |done]. intros r s' (Ha' & Hr & Hsc).
  assert (0 ≤ Z.lor ret r ≤ 255) as Hl by by apply lor_byte.
  case_decide as Hd.
  - apply twp_ret. split; [done|]. split; [done|]. right. split; intros E; rewrite E in Hd; done.
  - assert (r = 0 ∨ r = 32) as Hr'.
    { apply ldiff_tconf; [done|]. change (ttype_value TCONF) with 32 in Hd.
      apply Z.bits_inj'. intros k Hk. apply (f_equal (λ x, Z.testbit x k)) in Hd.
      rewrite Z.ldiff_spec, Z.lor_spec, Z.bits_0 in *. destruct (Z.testbit r k), (Z.testbit 32 k), (Z.testbit ret k); done. }
    assert (scan (trace s') = Clear) as Hs' by (destruct Hsc as [|[]]; [done|naive_solver]).
    apply IH; [|done]. split; [done|]. split; [done|by left].
Qed.

Lemma tst_run_tcases_twp fuel fss (w : W) : twp (tst_run_tcases test fuel fss) (start w) (λ _ _, False) final.
Proof.
  unfold tst_run_tcases. apply twp_bind. eapply twp_mono; [apply variants_loop_twp| |done].
  - split; [done|]. split; [done|by left].
  - done.
  - intros ret s Hv. by apply do_exit_twp.
Qed.
End silent.

(** ** Counting without a wrap *)

Definition printed (l : list tev) : list ttype := omap (λ e, match e with Printed t => Some t | _ => None end) l.

Definition field (t : ttype) (r : results) : Z :=
  match t with TPASS => passed r | TFAIL => failed r | TBROK => broken r | TWARN => warnings r
             | TCONF => skipped r | TINFO => 0 end.

(** The number of results of one type. *)
Definition number (t : ttype) (l : list tev) : Z := Z.of_nat (length (filter (λ x, x = t) (printed l))).

Lemma number_snoc t l e : number t (l ++ [e]) = number t l + match e with Printed x => Z.b2z (bool_decide (x = t)) | _ => 0 end.
Proof.
  unfold number, printed. rewrite omap_app, filter_app, length_app, Nat2Z.inj_add. f_equal.
  destruct e as [|x]; [done|]. cbn.
  destruct (decide (x = t)); [by rewrite bool_decide_true|by rewrite bool_decide_false].
Qed.

Lemma number_bound t l : 0 ≤ number t l ≤ Z.of_nat (length l).
Proof.
  unfold number, printed. split; [lia|].
  etrans; [apply inj_le, length_filter|]. induction l as [|[] l IH]; cbn; lia.
Qed.

(** The counters are the numbers of results as long as an int can hold them. *)
Lemma tally_number t l : t ≠ TINFO → Z.of_nat (length l) ≤ INT_MAX → field t (tally l) = number t l.
Proof.
  intros Ht. induction l as [|e l IH] using rev_ind; intros Hlen; [by destruct t|].
  rewrite length_app in Hlen; cbn in Hlen. specialize (IH ltac:(lia)).
  rewrite tally_snoc, number_snoc, <- IH. pose proof (number_bound t l) as Hb. rewrite <- IH in Hb.
  destruct e as [v fs c|x]; cbn; [lia|].
  destruct t, x; cbn in *; try done; rewrite ?bool_decide_false by done; cbn; try lia;
    rewrite ?bool_decide_true by done; cbn; rewrite wrap32_small by clia; done.
Qed.

Lemma number_zero t l : number t l = 0 ↔ Printed t ∉ l.
Proof.
  unfold number. split.
  - intros Hn Hin. assert (t ∈ filter (λ x, x = t) (printed l)) as Ht.
    { apply list_elem_of_filter. split; [done|]. apply list_elem_of_omap. by exists (Printed t). }
    destruct (filter _ _); [by apply not_elem_of_nil in Ht|cbn in Hn; lia].
  - intros Hin. destruct (filter (λ x, x = t) (printed l)) as [|x k] eqn:E; [done|]. exfalso.
    assert (x ∈ filter (λ x, x = t) (printed l)) as Hx by (rewrite E; by left).
    apply list_elem_of_filter in Hx as [-> ([] & ? & ?)%list_elem_of_omap]; simplify_eq. done.
Qed.

(** C6: A test passes only for a reason: when the runner exits with status zero
    and the test code does not call exit() itself, every call of a test function
    was answered by a result before the next call, no failure, breakage or
    warning was printed by anyone, and if something was skipped then something
    else passed. *)
Theorem no_silent_pass {W} `{TestWorld W} (test : tst_test) fuel fss (w : W) s :
  (∀ v fs c w, no_exit (code v fs c w).1) →
  tst_run_tcases test fuel fss (start w) = Done (Ends (Exited 0), s) →
  Z.of_nat (length (trace s)) ≤ INT_MAX →
  answered (trace s) ∧ Printed TFAIL ∉ trace s ∧ Printed TBROK ∉ trace s ∧ Printed TWARN ∉ trace s ∧
  (Printed TCONF ∈ trace s → Printed TPASS ∈ trace s).
Proof.
  intros Hne Hr Hlen. pose proof (tst_run_tcases_twp test Hne fuel fss w) as Hw. unfold twp in Hw. rewrite Hr in Hw.
  destruct Hw as (Ha & c & Hc & Hz). injection Hc as <-. destruct (Hz eq_refl) as (Hs & Hf & Hwn & Hb & Hsk).
  unfold acct in Ha. rewrite Ha in *.
  assert (∀ t, t ≠ TINFO → field t (tally (trace s)) = 0 ↔ Printed t ∉ trace s) as Hn.
  { intros t Ht. by rewrite tally_number, number_zero. }
  split_and!; [by apply scan_answered|by apply (Hn TFAIL)|by apply (Hn TBROK)|by apply (Hn TWARN)|].
  intros Hconf. destruct (decide (number TPASS (trace s) = 0)) as [E|E].
  - exfalso. rewrite <- (tally_number TPASS) in E by done. apply Hsk; [|done].
    intros E'. by apply (Hn TCONF) in E'.
  - rewrite number_zero in E. destruct (decide (TPASS ∈ printed (trace s))) as [Hin|Hin].
    + apply list_elem_of_omap in Hin as ([] & ? & ?); by simplify_eq.
    + exfalso. apply E. intros Hp. apply Hin, list_elem_of_omap. by exists (Printed TPASS).
Qed.

(** ** Runs of tests that behave *)

(** The ends of a child that tst_reap_children() accepts. *)
Definition good_status (st : status) : Prop := st = Exited 0 ∨ st = Exited 2 ∨ st = Exited 32.

(** Code that only reports and starts children. *)
Definition plain (a : act) : Prop :=
  match a with Res _ => True | Child st => good_status st | _ => False end.

Definition reports (acts : list act) : list ttype :=
  omap (λ a, match a with Res t => Some t | _ => None end) acts.

Definition in_range (r : results) : Prop :=
  is_i32 (passed r) ∧ is_i32 (skipped r) ∧ is_i32 (failed r) ∧ is_i32 (warnings r) ∧ is_i32 (broken r).

Lemma count_event_range r e : in_range r → in_range (count_event r e).
Proof.
  intros (? & ? & ? & ? & ?). destruct e as [|[]]; cbn; repeat split; cbn; auto; apply wrap32_range || lia.
Qed.

Lemma foldl_count_range r l : in_range r → in_range (foldl count_event r l).
Proof. revert r. induction l as [|e l IH]; intros r Hr; cbn; [done|]. by apply IH, count_event_range. Qed.

(** What a list of results adds to a counter. *)
Lemma foldl_count_field t r ts :
  t ≠ TINFO → in_range r →
  field t (foldl count_event r (Printed <$> ts)) = wrap32 (field t r + Z.of_nat (length (filter (λ x, x = t) ts))).
Proof.
  intros Ht. revert r. induction ts as [|x ts IH]; intros r Hr.
  { cbn. rewrite Z.add_0_r, wrap32_small; [done|]. destruct Hr as (? & ? & ? & ? & ?). by destruct t. }
  cbn [fmap list_fmap foldl count_event]. rewrite IH by (by apply (count_event_range r (Printed x))).
  destruct (decide (x = t)) as [->|Hne].
  - rewrite filter_cons_True by done. cbn [length].
    destruct t; try done; cbn [field update_results passed failed broken warnings skipped];
      rewrite wrap32_wrap32_add; apply f_equal; lia.
  - rewrite filter_cons_False by done.
    by replace (field t (update_results x r)) with (field t r) by (destruct x, t; done).
Qed.

(** A test that reports a result that counts is noticed by results_equal(). *)
Lemma reported_differs r ts :
  in_range r → existsb counts ts = true → Z.of_nat (length ts) ≤ INT_MAX →
  results_equal r (foldl count_event r (Printed <$> ts)) = false.
Proof.
  intros Hr Hc Hlen. apply existsb_exists in Hc as (t & Hin%list_elem_of_In & Ht).
  assert (field t (foldl count_event r (Printed <$> ts)) ≠ field t r) as Hne.
  { rewrite foldl_count_field by (by destruct t).
    assert (is_i32 (field t r)) as Hf by (destruct Hr as (? & ? & ? & ? & ?), t; done).
    pose proof (length_filter (λ x, x = t) ts) as Hl.
    assert (filter (λ x, x = t) ts ≠ []) as Hn.
    { intros E. assert (t ∈ filter (λ x, x = t) ts) as Hi by (by apply list_elem_of_filter). rewrite E in Hi.
      by apply not_elem_of_nil in Hi. }
    destruct (filter _ ts) as [|y k]; [done|]. unfold wrap32. cbn in *. climits. qlia. }
  unfold results_equal. destruct t; cbn in Ht, Hne; try done;
    rewrite ?(bool_decide_false _ (not_eq_sym Hne)), ?andb_false_r; done.
Qed.

Lemma u32_nonneg x : 0 ≤ u32 x.
Proof. unfold u32. apply Z.mod_pos_bound. lia. Qed.

Section behaved.
Context {W : Type} `{TestWorld W}.
Implicit Types s : pst W.

(** From every state without bad children, the computation goes on with the value
    [a] and adds the events [l] to the trace and to the results. *)
Definition emits {A} (m : T W A) (a : A) (l : list tev) : Prop :=
  ∀ s, Forall good_status (zombies s) → in_range (res s) →
  ∃ s', m s = Done (Goes a, s') ∧ trace s' = trace s ++ l ∧ res s' = foldl count_event (res s) l ∧
        Forall good_status (zombies s').

Lemma emits_ret {A} (a : A) : emits (mret a) a [].
Proof. intros s Hz _. exists s. by rewrite app_nil_r. Qed.

Lemma emits_bind {A B} (m : T W A) (f : A → T W B) a b l k :
  emits m a l → emits (f a) b k → emits (m ≫= f) b (l ++ k).
Proof.
  intros Hm Hf s Hz Hr. destruct (Hm s Hz Hr) as (s1 & E1 & Ht1 & Hr1 & Hz1).
  destruct (Hf s1 Hz1) as (s2 & E2 & Ht2 & Hr2 & Hz2); [rewrite Hr1; by apply foldl_count_range|].
  exists s2. split_and!; [|by rewrite Ht2, Ht1, app_assoc|by rewrite Hr2, Hr1, foldl_app|done].
  unfold mbind, T_bind. by rewrite E1.
Qed.

Lemma emits_bind_l {A B} (m : T W A) (f : A → T W B) a b l :
  emits m a l → emits (f a) b [] → emits (m ≫= f) b l.
Proof. intros Hm Hf. rewrite <- (app_nil_r l). by apply (emits_bind m f a). Qed.

Lemma emits_report t : emits (report t) () [Printed t].
Proof. intros s Hz _. eexists. split; [reflexivity|]. done. Qed.

Lemma emits_ask {A} (f : W → A * W) a : (∀ w, ∃ w', f w = (a, w')) → emits (ask f) a [].
Proof.
  intros Hf s Hz _. destruct (Hf (world s)) as [w' E]. eexists. unfold ask. rewrite E.
  split; [reflexivity|]. cbn. by rewrite app_nil_r.
Qed.

Lemma emits_child st : good_status st → emits (leave_child st) () [].
Proof.
  intros Hst s Hz _. eexists. split; [reflexivity|]. cbn. rewrite app_nil_r. split_and!; [done|done|].
  by apply Forall_app_2; [|apply Forall_singleton].
Qed.

Context (test : tst_test) (script : nat → option string → call → list act).
Context (Hcode : ∀ v fs c w, ∃ w', code v fs c w = (script v fs c, w')).
Context (Hplain : ∀ v fs c, Forall plain (script v fs c)).
Context (Hanswer : ∀ v fs c, is_test c = true → existsb counts (reports (script v fs c)) = true).
Context (Hshort : ∀ v fs c, Z.of_nat (length (reports (script v fs c))) ≤ INT_MAX).

(** ** The trace a test is meant to have *)

Definition call_trace (v : nat) (fs : option string) (c : call) : list tev :=
  Called v fs c :: (Printed <$> reports (script v fs c)).

Definition tests_trace (v : nat) (fs : option string) : list tev :=
  if has_test test then concat ((λ i, call_trace v fs (Test i)) <$> seqZ 0 (tcnt test))
  else call_trace v fs TestAll.

(** One test process, after the message about the timeout. *)
Definition process_trace (v : nat) (fs : option string) : list tev :=
  Printed TINFO :: (if has_setup test then call_trace v fs Setup else [])
  ++ concat (replicate (Z.to_nat (u32 (iterations test))) (tests_trace v fs))
  ++ (if has_cleanup test then call_trace v fs Cleanup else []).

Definition variant_trace (fss : list string) (v : nat) : list tev :=
  if all_filesystems test then concat ((λ fs, Printed TINFO :: process_trace v (Some fs)) <$> fss)
  else process_trace v None.

Definition variants : nat := if decide (test_variants test ≠ 0) then Z.to_nat (test_variants test) else 1%nat.

Definition full_trace (fss : list string) : list tev := concat (variant_trace fss <$> seq 0 variants).

(** ** The code emits it *)

Lemma emits_acts v fs acts : Forall plain acts → emits (run_acts test v fs acts) () (Printed <$> reports acts).
Proof.
  induction 1 as [|a acts Ha _ IH]; [apply emits_ret|].
  destruct a as [t|t|c|sig|st]; try done; cbn [run_acts].
  - apply (emits_bind _ _ () () [Printed t]); [apply emits_report|exact IH].
  - apply (emits_bind _ _ () () []); [by apply emits_child|exact IH].
Qed.

Lemma emits_cleanup_acts acts : Forall plain acts → emits (cleanup_acts acts) () (Printed <$> reports acts).
Proof.
  induction 1 as [|a acts Ha _ IH]; [apply emits_ret|].
  destruct a as [t|t|c|sig|st]; try done; cbn [cleanup_acts].
  - apply (emits_bind _ _ () () [Printed t]); [apply emits_report|exact IH].
  - apply (emits_bind _ _ () () []); [by apply emits_child|exact IH].
Qed.

Lemma emits_call v fs c : emits (call_code v fs c) (script v fs c) [Called v fs c].
Proof.
  unfold call_code. apply (emits_bind _ _ () _ [Called v fs c] []).
  - intros s Hz _. eexists. split; [reflexivity|]. done.
  - apply emits_ask. apply Hcode.
Qed.

Lemma emits_run_code v fs c : emits (run_code test v fs c) () (call_trace v fs c).
Proof. apply (emits_bind _ _ (script v fs c) () [Called v fs c]); [apply emits_call|by apply emits_acts]. Qed.

Lemma emits_do_test_cleanup v fs :
  emits (do_test_cleanup test v fs) () (if has_cleanup test then call_trace v fs Cleanup else []).
Proof.
  unfold do_test_cleanup. destruct (has_cleanup test); [|apply emits_ret].
  apply (emits_bind _ _ (script v fs Cleanup) () [Called v fs Cleanup]); [apply emits_call|by apply emits_cleanup_acts].
Qed.

Lemma emits_reap_loop v fs l : Forall good_status l → emits (reap_loop test v fs l) () [].
Proof.
  induction 1 as [|st l Hst Hl IH]; [apply emits_ret|]. cbn [reap_loop].
  apply (emits_bind _ _ () () []); [|apply (emits_bind _ _ () () []); [|exact IH]].
  - intros s Hz _. eexists. split; [reflexivity|]. cbn. by rewrite app_nil_r.
  - destruct Hst as [->|[->| ->]]; cbn; apply emits_ret.
Qed.

Lemma emits_reap v fs : emits (tst_reap_children test v fs) () [].
Proof. intros s Hz Hr. exact (emits_reap_loop v fs (zombies s) Hz s Hz Hr). Qed.

(** A test function that reports is not taken for a silent one. *)
Lemma emits_run_one v fs c : is_test c = true → emits (run_one test v fs c) () (call_trace v fs c).
Proof.
  intros Hc s Hz Hr.
  destruct (emits_bind _ (λ _, tst_reap_children test v fs) () () (call_trace v fs c) []
              (emits_run_code v fs c) (emits_reap v fs) s Hz Hr) as (s' & E & Ht & Hs & Hz').
  rewrite app_nil_r in Ht, Hs. exists s'. split; [|done].
  unfold run_one. unfold mbind, T_bind, get in *. destruct (run_code test v fs c s) as [[[[]|] s1]| |]; try done.
  rewrite E. rewrite Hs. cbn [call_trace foldl count_event]. by rewrite reported_differs by auto.
Qed.

Lemma emits_tests_loop v fs n i :
  emits (tests_loop test v fs n i) () (concat ((λ i, call_trace v fs (Test i)) <$> seqZ i (Z.of_nat n))).
Proof.
  revert i. induction n as [|n IH]; intros i; [apply emits_ret|]. cbn [tests_loop].
  rewrite seqZ_cons by lia. replace (Z.pred (Z.of_nat (S n))) with (Z.of_nat n) by lia.
  apply (emits_bind _ _ () () (call_trace v fs (Test i))); [by apply emits_run_one|]. apply IH.
Qed.

Lemma emits_run_tests v fs : emits (run_tests test v fs) () (tests_trace v fs).
Proof.
  unfold run_tests, tests_trace. destruct (has_test test); [|by apply emits_run_one].
  cbn [negb]. pose proof (emits_tests_loop v fs (Z.to_nat (tcnt test)) 0) as Ht.
  destruct (decide (0 ≤ tcnt test)); [by rewrite Z2Nat.id in Ht|].
  replace (Z.to_nat (tcnt test)) with 0%nat in * by lia. by rewrite (seqZ_nil 0 (tcnt test)) by lia.
Qed.

Lemma emits_iterate v fs n fuel i :
  (n < fuel)%nat → u32 (iterations test) - i = Z.of_nat n →
  emits (iterate test v fs fuel i 0) () (concat (replicate n (tests_trace v fs))).
Proof.
  revert fuel i. induction n as [|n IH]; intros [|fuel] i Hf Hi; try lia; cbn [iterate].
  - rewrite bool_decide_false by lia. apply (emits_bind _ _ false () []); apply emits_ret.
  - rewrite bool_decide_true by lia. apply (emits_bind _ _ true () []); [apply emits_ret|].
    apply (emits_bind _ _ () () (tests_trace v fs)); [apply emits_run_tests|]. apply IH; lia.
Qed.

(** ** The processes *)

Context (Hfork : ∀ w, (fork_ok w).1 = true) (Hmul : ∀ w, (timeout_mul_ok w).1 = true).
Context (Htaint : taint_check test = true → ∀ w, (is_tainted w).1 = false).
Context (Hskip : skip_filesystems test = false) (Hdur : duration_ms test ≤ 0).
Context (Htime : timeout test = 0 ∨ timeout test = -1 ∨ 1 ≤ timeout test).
Context (fuel : nat) (Hfuel : (Z.to_nat (u32 (iterations test)) < fuel)%nat).

Lemma emits_answer {A} (f : W → A * W) a : (∀ w, (f w).1 = a) → emits (ask f) a [].
Proof. intros Hf. apply emits_ask. intros w. specialize (Hf w). destruct (f w) as [b w']. cbn in Hf. subst. eauto. Qed.

Lemma emits_process v fs : emits (run_process test fuel v fs) (Exited 0) (tail (process_trace v fs)).
Proof.
  assert (emits (_ ← do_test_setup test v fs; _ ← iterate test v fs fuel 0 0; do_test_cleanup test v fs) ()
    (tail (process_trace v fs))) as Hp.
  { apply (emits_bind _ _ () ()).
    - unfold do_test_setup. rewrite Hskip, andb_false_r. apply (emits_bind _ _ () () []); [apply emits_ret|].
      destruct (has_setup test); [apply emits_run_code|apply emits_ret].
    - apply (emits_bind _ _ () ()); [|apply emits_do_test_cleanup]. apply emits_iterate; [done|].
      pose proof (u32_nonneg (iterations test)). lia. }
  intros s Hz Hr. destruct (Hp (Pst (res s) [] (trace s) (world s)) (Forall_nil_2 _) Hr) as (s' & E & Ht & Hs & _).
  unfold run_process, testrun. unfold mbind, T_bind in *.
  destruct (do_test_setup test v fs _) as [[[[]|] s1]| |]; try done.
  rewrite decide_False by lia. cbn. destruct (iterate test v fs fuel 0 0 s1) as [[[[]|] s2]| |]; try done.
  rewrite E. eexists. split; [reflexivity|]. done.
Qed.

Lemma emits_timeout t : t = -1 ∨ 1 ≤ t → emits (tst_set_timeout t) () [Printed TINFO].
Proof.
  intros Ht. unfold tst_set_timeout. destruct (decide (t = -1)); [apply emits_report|]. rewrite decide_False by lia.
  apply (emits_bind _ _ true () []); [by apply emits_answer|apply emits_report].
Qed.

Lemma emits_fork v fs : emits (fork_testrun test fuel v fs) 0 (process_trace v fs).
Proof.
  apply (emits_bind _ _ () 0 [Printed TINFO]).
  { apply emits_timeout. destruct (decide (timeout test ≠ 0)); lia. }
  apply (emits_bind _ _ true 0 []); [by apply emits_answer|]. cbn [negb].
  apply (emits_bind_l _ _ (Exited 0)); [apply emits_process|].
  unfold judge. apply (emits_bind _ _ false 0 []); [|apply emits_ret].
  destruct (taint_check test); [|apply emits_ret]. apply emits_answer. auto.
Qed.

Lemma emits_fs_loop v fss :
  emits (fs_loop test fuel v fss 0) 0 (concat ((λ fs, Printed TINFO :: process_trace v (Some fs)) <$> fss)).
Proof.
  induction fss as [|fs fss IH]; [apply emits_ret|]. cbn [fs_loop fmap list_fmap concat].
  apply (emits_bind _ _ () 0 [Printed TINFO]); [apply emits_report|].
  apply (emits_bind _ _ 0 0 (process_trace v (Some fs))); [apply emits_fork|]. by rewrite decide_True by auto.
Qed.

Context (fss : list string) (Hfss : all_filesystems test = true → fss ≠ []).

Lemma emits_variants n v : emits (variants_loop test fuel fss n v 0) 0 (concat (variant_trace fss <$> seq v n)).
Proof.
  revert v. induction n as [|n IH]; intros v; [apply emits_ret|]. cbn [variants_loop seq fmap list_fmap concat].
  apply (emits_bind _ _ 0 0 (variant_trace fss v)).
  - unfold variant_trace. destruct (all_filesystems test); [|apply emits_fork].
    unfold run_tcases_per_fs. destruct fss as [|fs fss'] eqn:E; [by destruct Hfss|]. apply emits_fs_loop.
  - cbn. rewrite decide_False by (intros E; by apply E). apply IH.
Qed.

Lemma emits_tcases : emits (variants_loop test fuel fss variants 0 0) 0 (full_trace fss).
Proof. apply emits_variants. Qed.
End behaved.

(** C8: a test behaves when its functions only report results and leave children
    that end well, and each test function reports a result that counts.  The run of
    such a test ends; it calls the set-up, every test case in every iteration and
    the clean-up, in this order, in a process of its own for each file system of
    each variant; the shared results are exactly the results reported; and the exit
    status is computed from them by do_exit(). *)
Theorem well_behaved_run {W} `{TestWorld W} (test : tst_test) (script : nat → option string → call → list act)
    (fuel : nat) (fss : list string) (w : W) :
  (∀ v fs c w, ∃ w', code v fs c w = (script v fs c, w')) →
  (∀ v fs c, Forall plain (script v fs c)) →
  (∀ v fs c, is_test c = true → existsb counts (reports (script v fs c)) = true) →
  (∀ v fs c, Z.of_nat (length (reports (script v fs c))) ≤ INT_MAX) →
  (∀ w, (fork_ok w).1 = true) → (∀ w, (timeout_mul_ok w).1 = true) →
  (taint_check test = true → ∀ w, (is_tainted w).1 = false) →
  skip_filesystems test = false → duration_ms test ≤ 0 →
  timeout test = 0 ∨ timeout test = -1 ∨ 1 ≤ timeout test →
  (Z.to_nat (u32 (iterations test)) < fuel)%nat →
  (all_filesystems test = true → fss ≠ []) →
  ∃ s, tst_run_tcases test fuel fss (start w) = Done (Ends (Exited (Z.land (exit_code (res s) 0) 255)), s) ∧
       trace s = full_trace test script fss ∧ res s = tally (full_trace test script fss).
Proof.
  intros Hcode Hplain Hanswer Hshort Hfork Hmul Htaint Hskip Hdur Htime Hfuel Hfss.
  destruct (emits_tcases test script Hcode Hplain Hanswer Hshort Hfork Hmul Htaint Hskip Hdur Htime fuel Hfuel fss Hfss
              (start w)) as (s & E & Ht & Hr & _); [by apply Forall_nil_2|by repeat split|].
  exists s. split; [|done]. unfold tst_run_tcases, mbind, T_bind. unfold variants in E. by rewrite E.
Qed.

(** ** The clean-up runs once, and last *)

(** Computations that always reach their end. *)
Definition halts {W A} (m : T W A) : Prop := ∀ s, ∃ r, m s = Done r.

Section halts.
Context {W : Type} `{TestWorld W} (test : tst_test).

Lemma halts_ret {A} (a : A) : halts (W := W) (mret a).
Proof. intros s. by eexists. Qed.

Lemma halts_bind {A B} (m : T W A) (f : A → T W B) : halts m → (∀ a, halts (f a)) → halts (m ≫= f).
Proof.
  intros Hm Hf s. destruct (Hm s) as [[[a|st] s'] E]; unfold mbind, T_bind; rewrite E; [apply Hf|by eexists].
Qed.

Lemma halts_get {A} (f : pst W → A) : halts (get f).
Proof. intros s. by eexists. Qed.
Lemma halts_put (f : pst W → pst W) : halts (put f).
Proof. intros s. by eexists. Qed.
Lemma halts_ask {A} (f : W → A * W) : halts (ask f).
Proof. intros s. unfold ask. destruct (f (world s)). by eexists. Qed.
Lemma halts_exit {A} c : halts (W := W) (exit (A := A) c).
Proof. intros s. by eexists. Qed.
Lemma halts_die {A} c : halts (W := W) (die (A := A) c).
Proof. intros s. by eexists. Qed.

Lemma halts_report t : halts (W := W) (report t).
Proof. apply halts_put. Qed.
Lemma halts_leave_child st : halts (W := W) (leave_child st).
Proof. apply halts_put. Qed.

#[local] Hint Resolve halts_ret halts_bind halts_get halts_put halts_ask halts_exit halts_die : testrun.
#[local] Hint Resolve halts_report halts_leave_child : testrun.

Lemma halts_call v fs c : halts (call_code v fs c).
Proof. unfold call_code. auto with testrun. Qed.

Lemma halts_cleanup v fs : halts (do_test_cleanup test v fs).
Proof.
  unfold do_test_cleanup. destruct (has_cleanup test); [|auto with testrun].
  apply halts_bind; [apply halts_call|]. intros acts.
  induction acts as [|[] acts IH]; cbn [cleanup_acts]; auto with testrun.
Qed.
#[local] Hint Resolve halts_call halts_cleanup : testrun.

Lemma halts_vbrk {A} v fs t : halts (tst_vbrk test v fs (A := A) t).
Proof. unfold tst_vbrk. auto with testrun. Qed.
#[local] Hint Resolve halts_vbrk : testrun.

Lemma halts_run_code v fs c : halts (run_code test v fs c).
Proof.
  apply halts_bind; [apply halts_call|]. intros acts.
  induction acts as [|[] acts IH]; cbn [run_acts]; auto with testrun.
Qed.

Lemma halts_reap v fs : halts (tst_reap_children test v fs).
Proof.
  apply halts_bind; [auto with testrun|]. intros l.
  induction l as [|st l IH]; cbn [reap_loop]; [auto with testrun|].
  apply halts_bind; [auto with testrun|]. intros _. apply halts_bind; [|done].
  unfold check_child_status. destruct st; [|auto with testrun]. destruct (decide _); auto with testrun.
Qed.
#[local] Hint Resolve halts_run_code halts_reap : testrun.

Lemma halts_run_one v fs c : halts (run_one test v fs c).
Proof. unfold run_one. repeat (apply halts_bind; [auto with testrun|]; intros ?). destruct (results_equal _ _); auto with testrun. Qed.

Lemma halts_run_tests v fs : halts (run_tests test v fs).
Proof.
  unfold run_tests. destruct (negb _); [apply halts_run_one|]. generalize 0.
  induction (Z.to_nat (tcnt test)) as [|n IH]; intros i; cbn [tests_loop]; auto using halts_run_one with testrun.
Qed.

Lemma halts_iterate v fs n fuel i :
  (n < fuel)%nat → u32 (iterations test) - i = Z.of_nat n → halts (iterate test v fs fuel i 0).
Proof.
  revert fuel i. induction n as [|n IH]; intros [|fuel] i Hf Hi; try lia; cbn [iterate].
  - rewrite bool_decide_false by lia. intros s. by eexists.
  - rewrite bool_decide_true by lia. apply (halts_bind (run_tests test v fs)); [apply halts_run_tests|].
    intros _. apply IH; lia.
Qed.

Lemma halts_testrun v fs fuel :
  duration_ms test ≤ 0 → (Z.to_nat (u32 (iterations test)) < fuel)%nat → halts (testrun test v fs fuel).
Proof.
  intros Hd Hf. unfold testrun. rewrite decide_False by lia. apply halts_bind; [|intros _].
  { unfold do_test_setup. apply halts_bind; [|intros _; destruct (has_setup test); auto with testrun].
    destruct (negb _ && _); [|auto with testrun]. apply halts_bind; [auto with testrun|].
    intros []; auto with testrun. }
  apply (halts_bind (iterate test v fs fuel 0 0)); [|auto with testrun].
  eapply (halts_iterate _ _ (Z.to_nat (u32 (iterations test)))); [done|]. pose proof (u32_nonneg (iterations test)). lia.
Qed.
End halts.

(** Code that neither exits nor dies on its own. *)
Definition stays (a : act) : Prop := match a with CallExit _ | Die _ => False | _ => True end.

Section once.
Context {W : Type} `{TestWorld W} (test : tst_test) (Hclean : has_cleanup test = true).
Context (Hstay : ∀ v fs c w, Forall stays (code v fs c w).1).
Context (v : nat) (fs : option string).
Implicit Types s : pst W.

Definition not_cleanup (e : tev) : Prop := match e with Called _ _ Cleanup => False | _ => True end.

(** The clean-up has not run since [s]; it has run once, and last. *)
Definition before s s' : Prop := ∃ l, trace s' = trace s ++ l ∧ Forall not_cleanup l.
Definition cleaned s s' : Prop :=
  ∃ l ts, trace s' = trace s ++ l ++ Called v fs Cleanup :: (Printed <$> ts) ∧ Forall not_cleanup l.
Definition ended s (st : status) s' : Prop := (∃ c, st = Exited c) ∧ cleaned s s'.

Lemma before_same s s' : trace s' = trace s → before s s'.
Proof. intros E. exists []. by rewrite app_nil_r. Qed.

Lemma before_trans s1 s2 s3 : before s1 s2 → before s2 s3 → before s1 s3.
Proof.
  intros (l & E & Hl) (k & E' & Hk). exists (l ++ k). rewrite E', E, app_assoc. split; [done|]. by apply Forall_app.
Qed.

Lemma before_ended s1 s2 st s3 : before s1 s2 → ended s2 st s3 → ended s1 st s3.
Proof.
  intros (l & E & Hl) (Hst & k & ts & E' & Hk). split; [done|]. exists (l ++ k), ts.
  rewrite E', E, !app_assoc. split; [done|]. by apply Forall_app.
Qed.

(** A step that keeps the invariant; such steps compose. *)
Definition tidy {A} (m : T W A) : Prop := ∀ s, twp m s (λ _ s', before s s') (ended s).

Lemma tidy_bind {A B} (m : T W A) (f : A → T W B) : tidy m → (∀ a, tidy (f a)) → tidy (m ≫= f).
Proof.
  intros Hm Hf s. apply twp_bind. eapply twp_mono; [apply Hm| |done]. cbn. intros a s1 H1.
  eapply twp_mono; [apply Hf| |]; cbn.
  - intros b s2. by apply before_trans.
  - intros st s2. by apply before_ended.
Qed.

Lemma tidy_ret {A} (a : A) : tidy (mret a).
Proof. intros s. by apply twp_ret, before_same. Qed.
Lemma tidy_get {A} (f : pst W → A) : tidy (get f).
Proof. intros s. by apply twp_get, before_same. Qed.
Lemma tidy_ask {A} (f : W → A * W) : tidy (ask f).
Proof. intros s. apply twp_ask. intros a w _. by apply before_same. Qed.
Lemma tidy_put f : (∀ s, before s (f s)) → tidy (put f).
Proof. intros Hf s. apply twp_put, Hf. Qed.
Lemma tidy_report t : tidy (report t).
Proof. apply tidy_put. intros s. exists [Printed t]. split; [done|]. by repeat constructor. Qed.
Lemma tidy_leave_child st : tidy (leave_child st).
Proof. apply tidy_put. intros s. by apply before_same. Qed.
Lemma tidy_zombies f : tidy (put (λ s, Pst (res s) (f s) (trace s) (world s))).
Proof. apply tidy_put. intros s. by apply before_same. Qed.

#[local] Hint Resolve tidy_ret tidy_bind tidy_get tidy_ask tidy_report tidy_leave_child tidy_zombies : testrun.

(** The clean-up itself, from its call. *)
Lemma cleanup_acts_printed acts s :
  Forall stays acts →
  twp (cleanup_acts acts) s (λ _ s', ∃ ts, trace s' = trace s ++ (Printed <$> ts)) (λ _ _, False).
Proof.
  intros Ha. revert s. induction Ha as [|a acts Ha _ IH]; intros s.
  { apply twp_ret. exists []. by rewrite app_nil_r. }
  destruct a as [t|t|c|sig|st]; try done; cbn [cleanup_acts]; apply twp_bind, twp_put;
    (eapply twp_mono; [apply IH| |done]); cbn; intros [] s' [ts E]; [exists (t :: ts)|exists (cvres_type t :: ts)|by exists ts];
    by rewrite E, <- app_assoc.
Qed.

Lemma do_test_cleanup_once s : twp (do_test_cleanup test v fs) s (λ _ s', cleaned s s') (λ _ _, False).
Proof.
  unfold do_test_cleanup. rewrite Hclean. apply twp_bind. unfold call_code. apply twp_bind, twp_put, twp_ask.
  intros acts w E. eapply twp_mono; [apply cleanup_acts_printed| |done].
  - specialize (Hstay v fs Cleanup (world s)). cbn in E. by rewrite E in Hstay.
  - cbn. intros [] s' [ts Ht]. exists [], ts. by rewrite Ht, <- app_assoc.
Qed.

(** Computations that end the process with the clean-up. *)
Definition stops {A} (m : T W A) : Prop := ∀ s, twp m s (λ _ _, False) (ended s).

Lemma stops_tidy {A} (m : T W A) : stops m → tidy m.
Proof. intros Hm s. by eapply twp_mono; [apply Hm| |]. Qed.

Lemma stops_bind {A B} (m : T W A) (f : A → T W B) : tidy m → (∀ a, stops (f a)) → stops (m ≫= f).
Proof.
  intros Hm Hf s. apply twp_bind. eapply twp_mono; [apply Hm| |done]. cbn. intros a s1 H1.
  eapply twp_mono; [apply Hf|done|]. cbn. intros st s2. by apply before_ended.
Qed.

Lemma cleanup_exit_stops {A} c : stops (A := A) (_ ← do_test_cleanup test v fs; exit c).
Proof.
  intros s. apply twp_bind. eapply twp_mono; [apply do_test_cleanup_once| |done]. cbn. intros [] s' Hs.
  change (ended s (Exited (Z.land c 255)) s'). split; [by eexists|done].
Qed.
#[local] Hint Resolve stops_tidy cleanup_exit_stops : testrun.

Lemma tidy_vbrk {A} t : tidy (tst_vbrk test v fs (A := A) t).
Proof. unfold tst_vbrk. auto with testrun. Qed.
#[local] Hint Resolve tidy_vbrk : testrun.

Lemma tidy_run_code c : c ≠ Cleanup → tidy (run_code test v fs c).
Proof.
  intros Hc s. unfold run_code, call_code. apply twp_bind, twp_bind, twp_put, twp_ask. intros acts w E.
  pose proof (Hstay v fs c (world s)) as Ha. cbn in E. rewrite E in Ha. cbn in Ha.
  assert (tidy (run_acts test v fs acts)) as Hk.
  { clear E. induction Ha as [|a acts Ha _ IH]; cbn [run_acts]; [auto with testrun|].
    destruct a; try done; cbn [run_acts]; auto with testrun. }
  eapply twp_mono; [apply Hk| |]; cbn.
  - intros [] s'. apply before_trans. exists [Called v fs c]. split; [done|]. repeat constructor. by destruct c.
  - intros st s'. apply before_ended. exists [Called v fs c]. split; [done|]. repeat constructor. by destruct c.
Qed.
#[local] Hint Resolve tidy_run_code : testrun.

Lemma tidy_reap : tidy (tst_reap_children test v fs).
Proof.
  apply tidy_bind; [auto with testrun|]. intros l. induction l as [|st l IH]; cbn [reap_loop]; [auto with testrun|].
  apply tidy_bind; [apply (tidy_zombies (λ _, l))|]. intros _. apply tidy_bind; [|done].
  unfold check_child_status. destruct st; [|auto with testrun]. destruct (decide _); auto with testrun.
Qed.
#[local] Hint Resolve tidy_reap : testrun.

Lemma tidy_run_one c : c ≠ Cleanup → tidy (run_one test v fs c).
Proof.
  intros Hc. unfold run_one. repeat (apply tidy_bind; [auto with testrun|]; intros ?).
  destruct (results_equal _ _); auto with testrun.
Qed.

Lemma tidy_run_tests : tidy (run_tests test v fs).
Proof.
  unfold run_tests. destruct (negb _); [by apply tidy_run_one|]. generalize 0.
  induction (Z.to_nat (tcnt test)) as [|n IH]; intros i; cbn [tests_loop]; [auto with testrun|].
  apply tidy_bind; [by apply tidy_run_one|auto].
Qed.

Lemma tidy_iterate fuel i stop : tidy (iterate test v fs fuel i stop).
Proof.
  revert i. induction fuel as [|fuel IH]; intros i; cbn [iterate]; [by intros s|].
  apply tidy_bind; [destruct (decide _); auto with testrun|].
  intros []; [|auto with testrun]. apply tidy_bind; [apply tidy_run_tests|auto].
Qed.

Lemma testrun_stops fuel : stops (testrun test v fs fuel).
Proof.
  unfold testrun. apply stops_bind.
  { unfold do_test_setup. apply tidy_bind.
    - destruct (negb _ && _); [|auto with testrun]. apply tidy_bind; [auto with testrun|]. intros []; auto with testrun.
    - intros _. destruct (has_setup test); auto with testrun. }
  intros _. apply stops_bind; [destruct (decide _); auto with testrun|].
  intros stop. apply stops_bind; [apply tidy_iterate|]. intros _. apply cleanup_exit_stops.
Qed.
End once.

(** C7: The clean-up of a test runs exactly once in each test process and nothing
    is called after it, on every path: a normal end, tst_brk() in the set-up or in
    a test function, a child that fails, a test function without a result, or a
    file system that is skipped.  The process ends by exit().  The test code is
    arbitrary except that it does not call exit() or die itself. *)
Theorem cleanup_once {W} `{TestWorld W} (test : tst_test) (v : nat) (fs : option string) (fuel : nat) (s : pst W) :
  has_cleanup test = true →
  (∀ v fs c w, Forall stays (code v fs c w).1) →
  duration_ms test ≤ 0 → (Z.to_nat (u32 (iterations test)) < fuel)%nat →
  ∃ c s' l ts, testrun test v fs fuel s = Done (Ends (Exited c), s') ∧
    trace s' = trace s ++ l ++ Called v fs Cleanup :: (Printed <$> ts) ∧ Forall not_cleanup l.
Proof.
  intros Hc Hs Hd Hf. destruct (halts_testrun test v fs fuel Hd Hf s) as [[r s'] E].
  pose proof (testrun_stops test Hc Hs v fs fuel s) as Hw. unfold twp in Hw. rewrite E in Hw. destruct r as [[]|st]; [done|].
  destruct Hw as ([c ->] & l & ts & Ht & Hl). by exists c, s', l, ts.
Qed.

(** ** A small test for the theorems *)

(** Two test cases that pass, the second with a child; the set-up prints a message
    and the clean-up warns when [warn] is set. *)
Definition small_script (warn : bool) (v : nat) (fs : option string) (c : call) : list act :=
  match c with
  | Setup => [Res TINFO]
  | Test 1 => [Child (Exited 0); Res TPASS; Res TPASS]
  | Test _ | TestAll => [Res TPASS]
  | Cleanup => if warn then [Res TWARN] else []
  end.

Definition script_world (script : nat → option string → call → list act) : TestWorld () := {|
  code v fs c w := (script v fs c, w);
  time_ms w := (0, w);
  fork_ok w := (true, w);
  is_tainted w := (false, w);
  fs_skipped w := (false, w);
  timeout_mul_ok w := (true, w)
|}.

#[local] Instance small_world (warn : bool) : TestWorld () := script_world (small_script warn).

Definition small_test : tst_test := TstTest true 2 true true true false 2 true 0 3 0.

Lemma small_plain warn v fs c : Forall plain (small_script warn v fs c).
Proof.
  destruct c as [|[|[]|]| |], warn; cbn; repeat (apply Forall_cons; split); try apply Forall_nil_2; cbn; try done; by left.
Qed.

Lemma small_counts warn v fs c : is_test c = true → existsb counts (reports (small_script warn v fs c)) = true.
Proof. destruct c as [|[|[]|]| |]; done. Qed.

Lemma small_short warn v fs c : Z.of_nat (length (reports (small_script warn v fs c))) ≤ INT_MAX.
Proof. destruct c as [|[|[]|]| |], warn; done. Qed.

Lemma small_no_exit warn v fs c : no_exit (small_script warn v fs c).
Proof.
  intros x Hx. pose proof (small_plain warn v fs c) as Hp. rewrite Forall_forall in Hp. by apply (Hp _ Hx).
Qed.

Lemma well_behaved_run_witness :
  let H := small_world true in
  ∃ s, tst_run_tcases small_test 4 ["ext4"; "xfs"]%string (start ()) = Done (Ends (Exited 4), s) ∧
       length (trace s) = 84%nat ∧ res s = Results 36 0 0 4 0.
Proof.
  cbv zeta.
  destruct (@well_behaved_run () (small_world true) small_test (small_script true) 4 ["ext4"; "xfs"]%string ())
    as (s & E & Ht & Hr).
  - intros v fs c w. by exists w.
  - apply small_plain.
  - apply small_counts.
  - apply small_short.
  - done.
  - done.
  - done.
  - done.
  - done.
  - by left.
  - vm_compute. lia.
  - done.
  - exists s. rewrite E, Ht, Hr. split_and!; vm_compute; reflexivity.
Defined.

Lemma no_silent_pass_witness :
  let H := small_world false in
  ∃ s, tst_run_tcases small_test 4 ["ext4"]%string (start ()) = Done (Ends (Exited 0), s) ∧ answered (trace s).
Proof.
  cbv zeta. destruct (tst_run_tcases small_test 4 ["ext4"]%string (start ())) as [[[|st] s]| |] eqn:E;
    [exfalso; vm_compute in E; discriminate| |exfalso; vm_compute in E; discriminate..].
  exists s. assert (st = Exited 0 ∧ length (trace s) = 40%nat) as [-> Hl].
  { vm_compute in E. injection E as <- <-. done. }
  split; [done|]. apply (@no_silent_pass () (small_world false) small_test 4 ["ext4"]%string () s).
  - intros v fs c w. apply small_no_exit.
  - exact E.
  - rewrite Hl. climits. lia.
Defined.

(** A test whose second case breaks after a child was left, and whose clean-up
    breaks too. *)
Definition breaking_script (v : nat) (fs : option string) (c : call) : list act :=
  match c with
  | Setup => []
  | Test 0 => [Res TPASS]
  | Test _ | TestAll => [Child (Signaled 11); Break TBROK]
  | Cleanup => [Break TBROK; Res TINFO]
  end.

Lemma cleanup_once_witness :
  let H := script_world breaking_script in
  ∃ s, testrun small_test 0 None 4 (start ()) = Done (Ends (Exited 2), s) ∧
       trace s = [Called 0 None Setup; Called 0 None (Test 0); Printed TPASS; Called 0 None (Test 1); Printed TBROK;
                  Called 0 None Cleanup; Printed TWARN; Printed TINFO] ∧
       ∃ l ts, trace s = l ++ Called 0 None Cleanup :: (Printed <$> ts) ∧ Forall not_cleanup l.
Proof.
  cbv zeta.
  destruct (@cleanup_once () (script_world breaking_script) small_test 0 None 4 (start ()))
    as (c & s & l & ts & E & Ht & Hl).
  - done.
  - intros v fs c w. destruct c as [|[]| |]; cbn; repeat constructor.
  - done.
  - vm_compute. lia.
  - exists s. split_and!; [| |by exists l, ts].
    + rewrite E. vm_compute in E. by injection E as <- <-.
    + vm_compute in E. by injection E as <- <-.
Defined.
