(* ===== verification/DataPattern.v ===== *)
(** * Data patterns of the file system tests

    The routines that fill a buffer with data determined by the file offset and
    check it after it was read back: src/testcases/kernel/fs/doio/dataascii.c,
    databin.c and pattern.c.  The class [DataSource] states what a pattern promises
    to the programs that write with it; the theorems on windows of a file are
    proved against it.  A buffer is the list of its bytes; access outside it is a
    [Fault].  The text of the error messages is left out. *)
From stdpp Require Import base strings numbers option list.
From Stdlib Require Import Ascii.
From S2P Require Import Prelude CInt CMem.

#[local] Open Scope Z_scope.

(** a % b for ints. *)
Definition rem32 (a b : Z) : outcome Z :=
  if decide (b = 0) then Fault else _ ← i32 (Z.quot a b); Done (Z.rem a b).

(** ** dataascii.c *)

Definition CHARS : list Z :=
  (λ c, Z.of_N (code c)) <$> chars "ABCDEFGHIJKLMNOPQRSTUVWXYZabcdefghjiklmnopqrstuvwxyz" ++ [NEWLINE].

(** The characters and their number; sizeof(CHARS) counts the terminator. *)
Definition charlist (listofchars : option (list Z)) : list Z :=
  match listofchars with None => CHARS ++ [0] | Some l => l end.

(** for (cnt = offset; cnt < total; cnt++), with [n] turns left; [chr] is an index. *)
Fixpoint asciigen_loop (n : nat) (cl : list Z) (cnt chr : Z) (buffer : list Z) : outcome (list Z) :=
  match n with
  | O => Done buffer
  | S n' =>
      ind ← rem32 cnt (Z.of_nat (length cl));
      b ← byte_at cl ind;
      buffer ← put_byte buffer chr b;
      asciigen_loop n' cl (cnt + 1) (chr + 1) buffer
  end.

Definition dataasciigen (listofchars : option (list Z)) (buffer : list Z) (bsize offset : Z) : outcome (list Z * Z) :=
  total ← i32 (offset + bsize);
  buffer ← asciigen_loop (Z.to_nat (total - offset)) (charlist listofchars) offset 0 buffer;
  Done (buffer, bsize).

Fixpoint asciichk_loop (n : nat) (cl : list Z) (cnt chr : Z) (buffer : list Z) : outcome Z :=
  match n with
  | O => Done (-1)
  | S n' =>
      ind ← rem32 cnt (Z.of_nat (length cl));
      act ← byte_at buffer chr;
      b ← byte_at cl ind;
      if decide (act ≠ b) then Done cnt else asciichk_loop n' cl (cnt + 1) (chr + 1) buffer
  end.

Definition dataasciichk (listofchars : option (list Z)) (buffer : list Z) (bsize offset : Z) : outcome Z :=
  total ← i32 (offset + bsize);
  asciichk_loop (Z.to_nat (total - offset)) (charlist listofchars) offset 0 buffer.

(** ** databin.c *)

Section databin.
(** rand() *)
Context {G : Type} (rand : G → Z * G).

Fixpoint counting_loop (n : nat) (ind offset : Z) (buffer : list Z) : outcome (list Z) :=
  match n with
  | O => Done buffer
  | S n' =>
      s ← i32 (offset + ind);
      buffer ← put_byte buffer ind (Z.land (Z.rem s 8) 127);
      counting_loop n' (ind + 1) offset buffer
  end.

Fixpoint random_loop (n : nat) (ind : Z) (buffer : list Z) (g : G) : outcome (list Z * G) :=
  match n with
  | O => Done (buffer, g)
  | S n' =>
      let '(r, g) := rand g in
      buffer ← put_byte buffer ind (Z.lor (Z.land r 127) 64);
      random_loop n' (ind + 1) buffer g
  end.

Definition databingen (mode : ascii) (buffer : list Z) (bsize offset : Z) (g : G) : outcome (list Z * G) :=
  if decide (mode = "c"%char) then b ← memset buffer 0 240 bsize; Done (b, g)
  else if decide (mode = "C"%char) then b ← counting_loop (Z.to_nat bsize) 0 offset buffer; Done (b, g)
  else if decide (mode = "o"%char) then b ← memset buffer 0 255 bsize; Done (b, g)
  else if decide (mode = "z"%char) then b ← memset buffer 0 0 bsize; Done (b, g)
  else if decide (mode = "r"%char) then random_loop (Z.to_nat bsize) 0 buffer g
  else b ← memset buffer 0 85 bsize; Done (b, g).
End databin.

Fixpoint countingchk_loop (n : nat) (cnt offset : Z) (buffer : list Z) : outcome Z :=
  match n with
  | O => Done (-1)
  | S n' =>
      s ← i32 (offset + cnt);
      act ← byte_at buffer cnt;
      if decide (act ≠ Z.land (Z.rem s 8) 127) then Done s else countingchk_loop n' (cnt + 1) offset buffer
  end.

Fixpoint constchk_loop (n : nat) (expbits cnt offset : Z) (buffer : list Z) : outcome Z :=
  match n with
  | O => Done (-1)
  | S n' =>
      actbits ← byte_at buffer cnt;
      if decide (actbits ≠ expbits) then i32 (offset + cnt) else constchk_loop n' expbits (cnt + 1) offset buffer
  end.

Definition databinchk (mode : ascii) (buffer : list Z) (bsize offset : Z) : outcome Z :=
  let n := Z.to_nat bsize in
  if decide (mode = "c"%char) then constchk_loop n 240 0 offset buffer
  else if decide (mode = "C"%char) then countingchk_loop n 0 offset buffer
  else if decide (mode = "o"%char) then constchk_loop n 255 0 offset buffer
  else if decide (mode = "z"%char) then constchk_loop n 0 0 offset buffer
  else if decide (mode = "r"%char) then Done (-1)
  else constchk_loop n 85 0 offset buffer.

(** ** pattern.c *)

(** patshift % patlen, when patlen is not zero. *)
Definition shift_of (patlen patshift : Z) : outcome Z :=
  if decide (patlen ≠ 0) then rem32 patshift patlen else Done patshift.

(** The loop over the rest of the buffer: compare with what was compared before. *)
Fixpoint check_rest (fuel : nat) (buf : list Z) (buflen ncmp nleft : Z) : outcome Z :=
  match fuel with
  | O => Timeout
  | S fuel' =>
      if decide (ncmp < buflen) then
        let nb := if decide (ncmp < nleft) then ncmp else nleft in
        a ← bytes_at buf 0 nb;
        b ← bytes_at buf ncmp nb;
        if memcmp a b then Done (-1) else check_rest fuel' buf buflen (ncmp + nb) (nleft - nb)
      else Done 0
  end.

Definition pattern_check (fuel : nat) (buf : list Z) (buflen : Z) (pat : list Z) (patlen patshift : Z) : outcome Z :=
  patshift ← shift_of patlen patshift;
  nb ← i32 (patlen - patshift);
  if decide (buflen < nb) then
    a ← bytes_at buf 0 buflen; b ← bytes_at pat patshift buflen;
    Done (if memcmp a b then -1 else 0)
  else
    a ← bytes_at buf 0 nb; b ← bytes_at pat patshift nb;
    if memcmp a b then Done (-1)
    else
      nleft ← i32 (buflen - nb);
      if decide (0 < patshift) then
        if decide (nleft < patshift) then
          a ← bytes_at buf nb nleft; b ← bytes_at pat 0 nleft;
          Done (if memcmp a b then -1 else 0)
        else
          a ← bytes_at buf nb patshift; b ← bytes_at pat 0 patshift;
          if memcmp a b then Done (-1) else check_rest fuel buf buflen (nb + patshift) (nleft - patshift)
      else check_rest fuel buf buflen nb nleft.

(** The loop over the rest of the buffer: copy what was filled before. *)
Fixpoint fill_rest (fuel : nat) (buf : list Z) (buflen ncopied nleft : Z) : outcome (list Z) :=
  match fuel with
  | O => Timeout
  | S fuel' =>
      if decide (ncopied < buflen) then
        let trans := if decide (ncopied < nleft) then ncopied else nleft in
        a ← bytes_at buf 0 trans;
        buf ← memcpy buf ncopied a;
        fill_rest fuel' buf buflen (ncopied + trans) (nleft - trans)
      else Done buf
  end.

Definition pattern_fill (fuel : nat) (buf : list Z) (buflen : Z) (pat : list Z) (patlen patshift : Z) : outcome (list Z) :=
  patshift ← shift_of patlen patshift;
  trans ← i32 (patlen - patshift);
  if decide (buflen < trans) then a ← bytes_at pat patshift buflen; memcpy buf 0 a
  else
    a ← bytes_at pat patshift trans;
    buf ← memcpy buf 0 a;
    nleft ← i32 (buflen - trans);
    if decide (0 < patshift) then
      if decide (nleft < patshift) then a ← bytes_at pat 0 nleft; memcpy buf trans a
      else
        a ← bytes_at pat 0 patshift;
        buf ← memcpy buf trans a;
        fill_rest fuel buf buflen (trans + patshift) (nleft - patshift)
    else fill_rest fuel buf buflen trans nleft.

(** ** What the routines compute *)

(** The bytes a file should have from offset [off], when [f] gives the byte at an
    offset. *)
Definition file_bytes (f : Z → Z) (off : Z) (n : nat) : list Z := f <$> seqZ off (Z.of_nat n).

(** A list of bytes repeated from offset 0. *)
Definition repeated (l : list Z) (o : Z) : Z := l !!! Z.to_nat (o mod Z.of_nat (length l)).

(** The byte of databingen(), except for random data. *)
Definition bin_byte (mode : ascii) (o : Z) : Z :=
  if decide (mode = "c"%char) then 240
  else if decide (mode = "C"%char) then o mod 8
  else if decide (mode = "o"%char) then 255
  else if decide (mode = "z"%char) then 0
  else 85.

(** The first position where two lists differ. *)
Fixpoint first_diff (a b : list Z) : option nat :=
  match a, b with
  | x :: a', y :: b' => if decide (x = y) then S <$> first_diff a' b' else Some 0%nat
  | _, _ => None
  end.

(** The return value of the checks. *)
Definition verdict (off : Z) (d : option nat) : Z :=
  match d with None => -1 | Some i => off + Z.of_nat i end.

Lemma file_bytes_length f off n : length (file_bytes f off n) = n.
Proof. unfold file_bytes. rewrite length_fmap, length_seqZ. lia. Qed.

Lemma file_bytes_S f off n : file_bytes f off (S n) = f off :: file_bytes f (off + 1) n.
Proof.
  unfold file_bytes. rewrite seqZ_cons by lia. rewrite fmap_cons, <- Z.add_1_r.
  by replace (Z.pred (Z.of_nat (S n))) with (Z.of_nat n) by lia.
Qed.

Lemma file_bytes_app f off n m : file_bytes f off (n + m) = file_bytes f off n ++ file_bytes f (off + Z.of_nat n) m.
Proof. unfold file_bytes. rewrite Nat2Z.inj_add, seqZ_app by lia. by rewrite fmap_app. Qed.

Lemma file_bytes_ext f g off n : (∀ o, off ≤ o < off + Z.of_nat n → f o = g o) → file_bytes f off n = file_bytes g off n.
Proof. intros Hfg. apply list_fmap_ext. intros i o Hi%lookup_seqZ. apply Hfg. lia. Qed.

Lemma file_bytes_shift f off k n :
  (∀ o, f (o + k) = f o) → file_bytes f (off + k) n = file_bytes f off n.
Proof.
  intros Hf. revert off. induction n as [|n IH]; intros off; [done|].
  rewrite !file_bytes_S, Hf, <- (IH (off + 1)). by replace (off + k + 1) with (off + 1 + k) by lia.
Qed.

Lemma file_bytes_lookup f off n j : file_bytes f off n !! j = if decide (j < n)%nat then Some (f (off + Z.of_nat j)) else None.
Proof.
  unfold file_bytes. rewrite list_lookup_fmap. case_decide as Hj.
  - by rewrite lookup_seqZ_lt by lia.
  - by rewrite lookup_seqZ_ge by lia.
Qed.

(** A window of the bytes of a file after one of them was changed. *)
Lemma window_change f off n k m i b rest :
  (k + m ≤ n)%nat → (i < n)%nat →
  take m (drop k (<[i := b]> (file_bytes f off n ++ rest))) = file_bytes f (off + Z.of_nat k) m ↔
  ((k ≤ i < k + m)%nat → b = f (off + Z.of_nat i)).
Proof.
  intros Hk Hi. assert (∀ j, (j < m)%nat → take m (drop k (<[i := b]> (file_bytes f off n ++ rest))) !! j =
    Some (if decide (i = k + j)%nat then b else f (off + Z.of_nat (k + j)))) as Hat.
  { intros j Hj. rewrite lookup_take_lt, lookup_drop, list_lookup_insert by done. rewrite length_app, file_bytes_length.
    destruct (decide (i = k + j)%nat) as [E|E].
    - by rewrite decide_True by lia.
    - rewrite decide_False by lia. rewrite lookup_app_l by (rewrite file_bytes_length; lia). by rewrite file_bytes_lookup, decide_True by lia. }
  split.
  - intros E Hin. specialize (Hat (i - k)%nat ltac:(lia)). rewrite E, file_bytes_lookup, !decide_True in Hat by lia.
    injection Hat as <-. f_equal. lia.
  - intros Hb. apply list_eq. intros j. rewrite file_bytes_lookup. case_decide as Hj.
    + rewrite Hat by done. f_equal. case_decide as E; [subst i; rewrite Hb by lia|]; f_equal; lia.
    + apply lookup_ge_None. rewrite length_take. lia.
Qed.

Lemma first_diff_None a b : length a = length b → first_diff a b = None ↔ b = a.
Proof.
  revert b. induction a as [|x a IH]; intros [|y b] Hl; try done. cbn in *.
  destruct (decide (x = y)) as [<-|Hne]; [|split; [done|congruence]].
  specialize (IH b ltac:(lia)). destruct (first_diff a b); cbn; naive_solver.
Qed.

Lemma verdict_ok off a b :
  0 ≤ off → length a = length b → bool_decide (verdict off (first_diff a b) = -1) = bool_decide (b = a).
Proof.
  intros Hoff Hl. apply bool_decide_ext. rewrite <- first_diff_None by done.
  destruct (first_diff a b); cbn; split; try done; lia.
Qed.

Lemma verdict_cons off e a c b :
  verdict off (first_diff (e :: a) (c :: b)) = if decide (c ≠ e) then off else verdict (off + 1) (first_diff a b).
Proof.
  cbn. destruct (decide (e = c)) as [<-|Hne].
  - rewrite decide_False by naive_solver. destruct (first_diff a b); cbn; lia.
  - rewrite decide_True by congruence. cbn. lia.
Qed.

Lemma byte_at_repeated l o : 0 ≤ o ≤ INT_MAX → l ≠ [] →
  ∃ ind, rem32 o (Z.of_nat (length l)) = Done ind ∧ byte_at l ind = Done (repeated l o).
Proof.
  intros Ho Hl. assert (0 < Z.of_nat (length l)) as Hpos by (destruct l; [done|cbn; lia]).
  exists (Z.rem o (Z.of_nat (length l))). split.
  - unfold rem32. rewrite decide_False by lia. pose proof (Z.quot_pos o (Z.of_nat (length l)) ltac:(lia) Hpos).
    pose proof (Z.quot_le_upper_bound o (Z.of_nat (length l)) o Hpos ltac:(nia)).
    by rewrite i32_ok by clia.
  - rewrite Z.rem_mod_nonneg by lia. pose proof (Z.mod_pos_bound o _ Hpos).
    unfold byte_at, repeated. rewrite decide_True by lia.
    destruct (lookup_lt_is_Some_2 l (Z.to_nat (o mod Z.of_nat (length l)))) as [b Hb]; [lia|].
    by rewrite Hb, (list_lookup_total_correct _ _ _ Hb).
Qed.

Lemma succ_length {A} (pre : list A) b : Z.of_nat (length pre) + 1 = Z.of_nat (length (pre ++ [b])).
Proof. rewrite length_app. cbn. lia. Qed.

(** ** The loops

    A loop that has dealt with [pre] goes on with the rest of the buffer. *)
Lemma asciigen_loop_spec cl n cnt pre rest :
  cl ≠ [] → 0 ≤ cnt → cnt + Z.of_nat n ≤ INT_MAX → (n ≤ length rest)%nat →
  asciigen_loop n cl cnt (Z.of_nat (length pre)) (pre ++ rest) = Done (pre ++ file_bytes (repeated cl) cnt n ++ drop n rest).
Proof.
  intros Hcl. revert cnt pre rest. induction n as [|n IH]; intros cnt pre rest Hc Hm Hn; [done|].
  destruct rest as [|c rest]; [cbn in Hn; lia|]. cbn [asciigen_loop].
  destruct (byte_at_repeated cl cnt ltac:(lia) Hcl) as (ind & -> & Hb). cbn. rewrite Hb. cbn. rewrite put_byte_app. cbn.
  rewrite (succ_length pre (repeated cl cnt)), (cons_middle _ pre rest), (app_assoc pre), IH by (cbn in *; lia).
  by rewrite file_bytes_S, <- app_assoc.
Qed.

Lemma asciichk_loop_spec cl n cnt pre rest :
  cl ≠ [] → 0 ≤ cnt → cnt + Z.of_nat n ≤ INT_MAX → (n ≤ length rest)%nat →
  asciichk_loop n cl cnt (Z.of_nat (length pre)) (pre ++ rest) =
  Done (verdict cnt (first_diff (file_bytes (repeated cl) cnt n) (take n rest))).
Proof.
  intros Hcl. revert cnt pre rest. induction n as [|n IH]; intros cnt pre rest Hc Hm Hn; [done|].
  destruct rest as [|c rest]; [cbn in Hn; lia|]. cbn [asciichk_loop].
  destruct (byte_at_repeated cl cnt ltac:(lia) Hcl) as (ind & -> & Hb). cbn. rewrite byte_at_app. cbn. rewrite Hb. cbn.
  rewrite file_bytes_S. cbn [take]. rewrite verdict_cons. destruct (decide (c ≠ _)); [done|].
  by rewrite (succ_length pre c), (cons_middle _ pre rest), (app_assoc pre), IH by (cbn in *; lia).
Qed.

(** The byte of the counting pattern. *)
Lemma counting_byte o : 0 ≤ o → Z.land (Z.rem o 8) 127 = o mod 8.
Proof.
  intros Ho. rewrite Z.rem_mod_nonneg by lia. pose proof (Z.mod_pos_bound o 8).
  change 127 with (Z.ones 7). rewrite Z.land_ones by lia. apply Z.mod_small. cbn. lia.
Qed.

Lemma counting_loop_spec n offset pre rest :
  0 ≤ offset → offset + Z.of_nat (length pre + n) ≤ INT_MAX → (n ≤ length rest)%nat →
  counting_loop n (Z.of_nat (length pre)) offset (pre ++ rest) =
  Done (pre ++ file_bytes (λ o, o mod 8) (offset + Z.of_nat (length pre)) n ++ drop n rest).
Proof.
  intros Ho. revert pre rest. induction n as [|n IH]; intros pre rest Hm Hn; [done|].
  destruct rest as [|c rest]; [cbn in Hn; lia|]. cbn [counting_loop]. rewrite i32_ok by clia. cbn.
  rewrite put_byte_app, counting_byte by lia. cbn. set (b := _ mod 8).
  rewrite (succ_length pre b), (cons_middle _ pre rest), (app_assoc pre), IH by (rewrite ?length_app; cbn in *; lia).
  rewrite <- succ_length, file_bytes_S, <- app_assoc, Z.add_assoc. done.
Qed.

Lemma countingchk_loop_spec n offset pre rest :
  0 ≤ offset → offset + Z.of_nat (length pre + n) ≤ INT_MAX → (n ≤ length rest)%nat →
  let off := offset + Z.of_nat (length pre) in
  countingchk_loop n (Z.of_nat (length pre)) offset (pre ++ rest) =
  Done (verdict off (first_diff (file_bytes (λ o, o mod 8) off n) (take n rest))).
Proof.
  intros Ho. revert pre rest. induction n as [|n IH]; intros pre rest Hm Hn off; [done|].
  destruct rest as [|c rest]; [cbn in Hn; lia|]. cbn [countingchk_loop]. rewrite i32_ok by clia. cbn.
  rewrite byte_at_app, counting_byte by lia. cbn. fold off. rewrite file_bytes_S. cbn [take]. rewrite verdict_cons.
  destruct (decide (c ≠ _)); [done|].
  rewrite (succ_length pre c), (cons_middle _ pre rest), (app_assoc pre), IH by (rewrite ?length_app; cbn in *; lia).
  rewrite <- succ_length, Z.add_assoc. done.
Qed.

Lemma constchk_loop_spec n e offset pre rest :
  0 ≤ offset → offset + Z.of_nat (length pre + n) ≤ INT_MAX → (n ≤ length rest)%nat →
  let off := offset + Z.of_nat (length pre) in
  constchk_loop n e (Z.of_nat (length pre)) offset (pre ++ rest) =
  Done (verdict off (first_diff (file_bytes (λ _, e) off n) (take n rest))).
Proof.
  intros Ho. revert pre rest. induction n as [|n IH]; intros pre rest Hm Hn off; [done|].
  destruct rest as [|c rest]; [cbn in Hn; lia|]. cbn [constchk_loop].
  rewrite byte_at_app. cbn. rewrite file_bytes_S. cbn [take]. rewrite verdict_cons.
  destruct (decide (c ≠ _)); [rewrite i32_ok by clia; done|].
  rewrite (succ_length pre c), (cons_middle _ pre rest), (app_assoc pre), IH by (rewrite ?length_app; cbn in *; lia).
  rewrite <- succ_length, Z.add_assoc. done.
Qed.

Lemma memset_spec buf b off n :
  0 ≤ n ≤ Z.of_nat (length buf) → memset buf 0 b n = Done (file_bytes (λ _, b) off (Z.to_nat n) ++ drop (Z.to_nat n) buf).
Proof.
  intros Hn. unfold memset. rewrite decide_True by lia. rewrite memcpy_ok by (rewrite ?length_replicate; lia).
  rewrite length_replicate. unfold file_bytes. rewrite (const_fmap _ _ b) by done.
  by rewrite length_seqZ, Nat2Z.id, Z2Nat.inj_0.
Qed.

(** ** pattern_fill() and pattern_check() *)

Lemma min_nat k n :
  (k < n)%nat →
  (if decide (Z.of_nat k < Z.of_nat n - Z.of_nat k) then Z.of_nat k else Z.of_nat n - Z.of_nat k)
  = Z.of_nat (Nat.min k (n - k)).
Proof. intros. case_decide; lia. Qed.

Section repeated.
Context (pat : list Z) (Hpat : pat ≠ []).
Notation L := (length pat).
Notation expected := (file_bytes (repeated pat)).

Lemma L_pos : (0 < L)%nat.
Proof. destruct pat; [done|cbn; lia]. Qed.

Lemma repeated_period o k : repeated pat (o + k * Z.of_nat L) = repeated pat o.
Proof. unfold repeated. by rewrite Z_mod_plus_full. Qed.

Lemma expected_period s k n : expected (s + k * Z.of_nat L) n = expected s n.
Proof. apply file_bytes_shift. intros o. apply repeated_period. Qed.

(** Inside one copy of the pattern. *)
Lemma expected_inside s n : (s + n ≤ L)%nat → expected (Z.of_nat s) n = take n (drop s pat).
Proof.
  intros Hs. apply list_eq_same_length with n; [by rewrite length_take, length_drop; lia|apply file_bytes_length|].
  intros i x y Hi Hx Hy. unfold file_bytes in Hx. apply list_lookup_fmap_Some in Hx as (o & -> & Ho%lookup_seqZ).
  rewrite lookup_take in Hy. rewrite decide_True in Hy by lia. rewrite lookup_drop in Hy.
  unfold repeated. apply list_lookup_total_correct. rewrite Z.mod_small by lia.
  by replace (Z.to_nat o) with (s + i)%nat by lia.
Qed.

Lemma expected_start n : (n ≤ L)%nat → expected 0 n = take n pat.
Proof. intros. by apply (expected_inside 0 n). Qed.

(** The bytes after a whole number of copies are those at the start. *)
Lemma expected_double s k t :
  (L | k)%nat → (t ≤ k)%nat → expected s (k + t) = expected s k ++ take t (expected s k).
Proof.
  intros [q ->] Ht. rewrite file_bytes_app. f_equal.
  rewrite Nat2Z.inj_mul, expected_period.
  replace (q * L)%nat with (t + (q * L - t))%nat by lia. rewrite file_bytes_app.
  by rewrite take_app_length' by (by rewrite file_bytes_length).
Qed.

Lemma expected_prefix s buf m n : take n buf = expected s n → (m ≤ n)%nat → take m buf = expected s m.
Proof.
  intros Hn Hm. replace (take m buf) with (take m (take n buf)) by (rewrite take_take; f_equal; lia). rewrite Hn.
  replace n with (m + (n - m))%nat by lia. rewrite file_bytes_app.
  by rewrite take_app_length' by (by rewrite file_bytes_length).
Qed.

Lemma fill_rest_spec s n k fuel rest :
  (n - k < fuel)%nat → (0 < k ≤ n)%nat → (L | k)%nat ∨ k = n → (n - k ≤ length rest)%nat →
  fill_rest fuel (expected s k ++ rest) (Z.of_nat n) (Z.of_nat k) (Z.of_nat n - Z.of_nat k) =
  Done (expected s n ++ drop (n - k) rest).
Proof.
  revert k rest. induction fuel as [|fuel IH]; intros k rest Hf Hk Hd Hl; [lia|]. cbn [fill_rest].
  destruct (decide (Z.of_nat k < Z.of_nat n)) as [Hlt|]; [|by replace k with n by lia; rewrite Nat.sub_diag].
  destruct Hd as [Hd|]; [|lia]. set (t := Nat.min k (n - k)).
  rewrite (min_nat k n) by lia. fold t.
  rewrite bytes_at_start by (rewrite length_app, file_bytes_length; lia). cbn [mbind outcome_bind].
  rewrite take_app_le by (rewrite file_bytes_length; lia).
  rewrite memcpy_ok by (rewrite ?length_app, ?length_take, ?file_bytes_length; lia). cbn [mbind outcome_bind].
  rewrite Nat2Z.id, take_app_length' by (by rewrite file_bytes_length).
  rewrite drop_app_ge by (rewrite file_bytes_length; lia).
  rewrite length_take, file_bytes_length, app_assoc, <- expected_double by (done || lia).
  replace (k + t `min` k - k)%nat with t by lia.
  replace (Z.of_nat k + Z.of_nat t) with (Z.of_nat (k + t)) by lia.
  replace (Z.of_nat n - Z.of_nat k - Z.of_nat t) with (Z.of_nat n - Z.of_nat (k + t)) by lia.
  rewrite IH; [by rewrite drop_drop; do 3 f_equal; lia|lia|lia| |rewrite length_drop; lia].
  destruct (decide (k ≤ n - k)%nat); [left|right; lia]. replace (k + t)%nat with (k + k)%nat by lia.
  by apply Nat.divide_add_r.
Qed.

Lemma check_rest_spec s n k fuel buf :
  (n - k < fuel)%nat → (0 < k ≤ n)%nat → (L | k)%nat ∨ k = n → (n ≤ length buf)%nat → take k buf = expected s k →
  check_rest fuel buf (Z.of_nat n) (Z.of_nat k) (Z.of_nat n - Z.of_nat k) =
  Done (if decide (take n buf = expected s n) then 0 else -1).
Proof.
  revert k. induction fuel as [|fuel IH]; intros k Hf Hk Hd Hl Hp; [lia|]. cbn [check_rest].
  destruct (decide (Z.of_nat k < Z.of_nat n)) as [Hlt|]; [|replace n with k by lia; by rewrite decide_True].
  destruct Hd as [Hd|]; [|lia]. set (t := Nat.min k (n - k)).
  rewrite (min_nat k n) by lia. fold t.
  rewrite bytes_at_start, bytes_at_ok by lia. cbn [mbind outcome_bind].
  assert (take (k + t) buf = expected s (k + t) ↔ take t buf = take t (drop k buf)) as Hkt.
  { rewrite expected_double by (done || lia). rewrite <- Hp, take_take, Nat.min_l by lia.
    rewrite <- take_take_drop. split; [intros E; by apply app_inv_head in E|by intros ->]. }
  unfold memcmp. destruct (decide (take t buf = take t (drop k buf))) as [E|E].
  - rewrite bool_decide_true by done. cbn [negb].
    replace (Z.of_nat k + Z.of_nat t) with (Z.of_nat (k + t)) by lia.
    replace (Z.of_nat n - Z.of_nat k - Z.of_nat t) with (Z.of_nat n - Z.of_nat (k + t)) by lia.
    apply IH; [lia|lia| |lia|by apply Hkt].
    destruct (decide (k ≤ n - k)%nat); [left|right; lia]. replace (k + t)%nat with (k + k)%nat by lia.
    by apply Nat.divide_add_r.
  - rewrite bool_decide_false by done. cbn [negb]. rewrite decide_False; [done|]. intros E'. apply E, Hkt.
    apply (expected_prefix _ _ _ n); [done|lia].
Qed.

(** The rotation of the pattern. *)
Lemma shift_of_spec shift :
  0 ≤ shift ≤ INT_MAX →
  ∃ s, (s < L)%nat ∧ shift_of (Z.of_nat L) shift = Done (Z.of_nat s) ∧ ∀ n, expected shift n = expected (Z.of_nat s) n.
Proof.
  intros Hs. pose proof L_pos. exists (Z.to_nat (shift mod Z.of_nat L)).
  pose proof (Z.mod_pos_bound shift (Z.of_nat L) ltac:(lia)). split_and!; [lia| |].
  - unfold shift_of, rem32. rewrite decide_True, decide_False by lia.
    pose proof (Z.quot_pos shift (Z.of_nat L)). pose proof (Z.quot_le_upper_bound shift (Z.of_nat L) shift ltac:(lia) ltac:(nia)).
    rewrite i32_ok by clia. cbn. rewrite Z.rem_mod_nonneg by lia. f_equal. lia.
  - intros n. rewrite Z2Nat.id by lia. rewrite <- (expected_period (shift mod _) (shift / Z.of_nat L)).
    f_equal. pose proof (Z.div_mod shift (Z.of_nat L)). lia.
Qed.

Context (HL : Z.of_nat L ≤ INT_MAX).

(** The start of the pattern follows its end. *)
Lemma expected_wrap s n : (s ≤ L)%nat → expected (Z.of_nat s) (L - s + n) = expected (Z.of_nat s) (L - s) ++ expected 0 n.
Proof.
  intros Hs. rewrite file_bytes_app, <- (expected_period 0 1 n). by replace (_ + Z.of_nat (L - s)) with (0 + 1 * Z.of_nat L) by lia.
Qed.

Lemma pattern_fill_spec buf n shift fuel :
  (n ≤ length buf)%nat → Z.of_nat n ≤ INT_MAX → 0 ≤ shift ≤ INT_MAX → (n < fuel)%nat →
  pattern_fill fuel buf (Z.of_nat n) pat (Z.of_nat L) shift = Done (expected shift n ++ drop n buf).
Proof.
  intros Hn Hm Hs Hf. unfold pattern_fill. destruct (shift_of_spec shift Hs) as (s & Hsl & -> & ->).
  cbn [mbind outcome_bind]. rewrite i32_ok by clia. cbn [mbind outcome_bind].
  replace (Z.of_nat L - Z.of_nat s) with (Z.of_nat (L - s)) by lia.
  destruct (decide (Z.of_nat n < Z.of_nat (L - s))).
  { rewrite bytes_at_ok by lia. cbn [mbind outcome_bind]. rewrite <- expected_inside by lia.
    rewrite memcpy_start by (rewrite file_bytes_length; lia). by rewrite file_bytes_length. }
  rewrite bytes_at_ok by lia. cbn [mbind outcome_bind]. rewrite <- expected_inside by lia.
  rewrite memcpy_start by (rewrite file_bytes_length; lia). rewrite file_bytes_length.
  cbn [mbind outcome_bind app]. rewrite i32_ok by clia. cbn [mbind outcome_bind].
  replace (Z.of_nat n - Z.of_nat (L - s)) with (Z.of_nat (n - (L - s))) by lia.
  destruct (decide (0 < Z.of_nat s)).
  - destruct (decide (Z.of_nat (n - (L - s)) < Z.of_nat s)).
    + rewrite bytes_at_start by lia. cbn [mbind outcome_bind]. rewrite <- expected_start by lia.
      rewrite memcpy_after' by (rewrite ?length_drop, ?file_bytes_length; lia).
      rewrite app_assoc, <- expected_wrap, file_bytes_length, drop_drop by lia. do 3 f_equal; lia.
    + rewrite bytes_at_start by lia. cbn [mbind outcome_bind]. rewrite <- expected_start by lia.
      rewrite memcpy_after' by (rewrite ?length_drop, ?file_bytes_length; lia). cbn [mbind outcome_bind].
      rewrite app_assoc, <- expected_wrap, file_bytes_length, drop_drop by lia.
      replace (L - s + s)%nat with L by lia.
      replace (Z.of_nat (L - s) + Z.of_nat s) with (Z.of_nat L) by lia.
      replace (Z.of_nat (n - (L - s)) - Z.of_nat s) with (Z.of_nat n - Z.of_nat L) by lia.
      rewrite fill_rest_spec; [|lia..|by left; exists 1%nat; lia|rewrite length_drop; lia].
      rewrite drop_drop. do 3 f_equal. lia.
  - replace s with 0%nat by lia. replace (L - 0)%nat with L by lia.
    replace (Z.of_nat (n - L)) with (Z.of_nat n - Z.of_nat L) by lia.
    rewrite fill_rest_spec; [|lia..|by left; exists 1%nat; lia|rewrite length_drop; lia].
    rewrite drop_drop. do 3 f_equal. lia.
Qed.

Lemma expected_next s buf a b :
  (s + a = L)%nat → take a buf = expected (Z.of_nat s) a →
  take (a + b) buf = expected (Z.of_nat s) (a + b) ↔ take b (drop a buf) = expected 0 b.
Proof.
  intros Hs Ha. replace a with (L - s)%nat in * by lia. rewrite expected_wrap by lia. rewrite <- take_take_drop, Ha.
  split; [intros E; by apply app_inv_head in E|by intros ->].
Qed.

Lemma pattern_check_spec buf n shift fuel :
  (n ≤ length buf)%nat → Z.of_nat n ≤ INT_MAX → 0 ≤ shift ≤ INT_MAX → (n < fuel)%nat →
  pattern_check fuel buf (Z.of_nat n) pat (Z.of_nat L) shift =
  Done (if decide (take n buf = expected shift n) then 0 else -1).
Proof.
  intros Hn Hm Hs Hf. unfold pattern_check. destruct (shift_of_spec shift Hs) as (s & Hsl & -> & ->).
  cbn [mbind outcome_bind]. rewrite i32_ok by clia. cbn [mbind outcome_bind].
  replace (Z.of_nat L - Z.of_nat s) with (Z.of_nat (L - s)) by lia.
  destruct (decide (Z.of_nat n < Z.of_nat (L - s))).
  { rewrite bytes_at_start, bytes_at_ok by lia. cbn [mbind outcome_bind]. rewrite <- expected_inside by lia.
    by rewrite memcmp_if. }
  rewrite (bytes_at_start buf (L - s)), (bytes_at_ok pat s (L - s)) by lia. cbn [mbind outcome_bind].
  rewrite <- expected_inside, memcmp_if by lia.
  destruct (decide (take (L - s) buf = _)) as [E|E].
  2: { rewrite decide_False; [done|]. intros E'. apply E. apply (expected_prefix _ _ _ n); [done|lia]. }
  rewrite i32_ok by clia. cbn [mbind outcome_bind].
  replace (Z.of_nat n - Z.of_nat (L - s)) with (Z.of_nat (n - (L - s))) by lia.
  destruct (decide (0 < Z.of_nat s)).
  - destruct (decide (Z.of_nat (n - (L - s)) < Z.of_nat s)).
    + rewrite bytes_at_start, bytes_at_ok by lia. cbn [mbind outcome_bind]. rewrite <- expected_start, memcmp_if by lia.
      f_equal. apply decide_ext. rewrite <- (expected_next s) by (done || lia).
      by replace (L - s + (n - (L - s)))%nat with n by lia.
    + rewrite bytes_at_start, bytes_at_ok by lia. cbn [mbind outcome_bind]. rewrite <- expected_start, memcmp_if by lia.
      destruct (decide (take s (drop (L - s) buf) = _)) as [E2|E2].
      * apply (expected_next s) in E2; [|lia|done]. replace (L - s + s)%nat with L in E2 by lia.
        replace (Z.of_nat (L - s) + Z.of_nat s) with (Z.of_nat L) by lia.
        replace (Z.of_nat (n - (L - s)) - Z.of_nat s) with (Z.of_nat n - Z.of_nat L) by lia.
        apply check_rest_spec; [lia..|by left; exists 1%nat; lia|lia|done].
      * rewrite decide_False; [done|]. intros E'. apply E2, (expected_next s); [lia|done|].
        apply (expected_prefix _ _ _ n); [done|lia].
  - replace s with 0%nat in * by lia. replace (L - 0)%nat with L in * by lia.
    replace (Z.of_nat (n - L)) with (Z.of_nat n - Z.of_nat L) by lia.
    apply check_rest_spec; [lia..|by left; exists 1%nat; lia|lia|done].
Qed.
End repeated.

(** ** The interface

    What a data pattern promises: writing gives the bytes that belong to the file
    offset, checking accepts exactly these. *)
Class DataSource := {
  source_byte : Z → Z;
  source_write : list Z → Z → Z → outcome (list Z);
  source_accepts : list Z → Z → Z → outcome bool;
  source_write_spec buf n off :
    (n ≤ length buf)%nat → 0 ≤ off → off + Z.of_nat n ≤ INT_MAX →
    source_write buf (Z.of_nat n) off = Done (file_bytes source_byte off n ++ drop n buf);
  source_accepts_spec buf n off :
    (n ≤ length buf)%nat → 0 ≤ off → off + Z.of_nat n ≤ INT_MAX →
    source_accepts buf (Z.of_nat n) off = Done (bool_decide (take n buf = file_bytes source_byte off n))
}.

(** The client: any part of the data that was written is accepted at its offset,
    and any change of it is noticed. *)
Section client.
Context `{DataSource}.

Lemma window_accepted buf n off k m :
  (n ≤ length buf)%nat → 0 ≤ off → off + Z.of_nat n ≤ INT_MAX → (k + m ≤ n)%nat →
  source_write buf (Z.of_nat n) off = Done (file_bytes source_byte off n ++ drop n buf) ∧
  source_accepts (drop k (file_bytes source_byte off n ++ drop n buf)) (Z.of_nat m) (off + Z.of_nat k) = Done true.
Proof.
  intros Hn Ho Hm Hk. split; [by apply source_write_spec|].
  rewrite source_accepts_spec by (rewrite ?length_drop, ?length_app, ?file_bytes_length, ?length_drop; lia).
  f_equal. apply bool_decide_true. replace n with (k + (m + (n - k - m)))%nat at 1 by lia.
  rewrite !file_bytes_app, <- !app_assoc.
  by rewrite drop_app_length', take_app_length' by (by rewrite file_bytes_length).
Qed.

Lemma change_noticed n off k m i b rest :
  0 ≤ off → off + Z.of_nat n ≤ INT_MAX → (k + m ≤ n)%nat → (i < n)%nat →
  source_accepts (drop k (<[i := b]> (file_bytes source_byte off n ++ rest))) (Z.of_nat m) (off + Z.of_nat k) =
    Done (bool_decide ((k ≤ i < k + m)%nat → b = source_byte (off + Z.of_nat i))).
Proof.
  intros Ho Hm Hk Hi. rewrite source_accepts_spec; [|rewrite length_drop, length_insert, length_app, file_bytes_length; lia|lia..].
  f_equal. by apply bool_decide_ext, window_change.
Qed.
End client.

(** ** The three kinds of data *)

Lemma charlist_nonempty : charlist None ≠ [].
Proof. done. Qed.

Lemma dataasciigen_spec l buf n off :
  charlist l ≠ [] → (n ≤ length buf)%nat → 0 ≤ off → off + Z.of_nat n ≤ INT_MAX →
  dataasciigen l buf (Z.of_nat n) off = Done (file_bytes (repeated (charlist l)) off n ++ drop n buf, Z.of_nat n).
Proof.
  intros Hl Hn Ho Hm. unfold dataasciigen. rewrite i32_ok by clia. cbn [mbind outcome_bind].
  replace (Z.to_nat _) with n by lia.
  by rewrite (asciigen_loop_spec _ n off [] buf Hl Ho Hm Hn : asciigen_loop _ _ _ 0 buf = _).
Qed.

Lemma dataasciichk_spec l buf n off :
  charlist l ≠ [] → (n ≤ length buf)%nat → 0 ≤ off → off + Z.of_nat n ≤ INT_MAX →
  dataasciichk l buf (Z.of_nat n) off =
  Done (verdict off (first_diff (file_bytes (repeated (charlist l)) off n) (take n buf))).
Proof.
  intros Hl Hn Ho Hm. unfold dataasciichk. rewrite i32_ok by clia. cbn [mbind outcome_bind].
  replace (Z.to_nat _) with n by lia.
  by rewrite (asciichk_loop_spec _ n off [] buf Hl Ho Hm Hn : asciichk_loop _ _ _ 0 buf = _).
Qed.

Lemma databingen_spec {G} (rand : G → Z * G) mode buf n off g :
  mode ≠ "r"%char → (n ≤ length buf)%nat → 0 ≤ off → off + Z.of_nat n ≤ INT_MAX →
  databingen rand mode buf (Z.of_nat n) off g = Done (file_bytes (bin_byte mode) off n ++ drop n buf, g).
Proof.
  intros Hr Hn Ho Hm. unfold databingen, bin_byte.
  pose proof (counting_loop_spec n off [] buf Ho Hm Hn : counting_loop _ 0 _ buf = _) as Hc.
  rewrite Z.add_0_r in Hc. repeat (case_decide; [|]); try done;
    first [rewrite (memset_spec _ _ off), Nat2Z.id by lia; done | by rewrite Nat2Z.id, Hc].
Qed.

Lemma databinchk_spec mode buf n off :
  mode ≠ "r"%char → (n ≤ length buf)%nat → 0 ≤ off → off + Z.of_nat n ≤ INT_MAX →
  databinchk mode buf (Z.of_nat n) off = Done (verdict off (first_diff (file_bytes (bin_byte mode) off n) (take n buf))).
Proof.
  intros Hr Hn Ho Hm. unfold databinchk, bin_byte. rewrite Nat2Z.id.
  pose proof (countingchk_loop_spec n off [] buf Ho Hm Hn : countingchk_loop _ 0 _ buf = _) as Hc.
  pose proof (λ e, constchk_loop_spec n e off [] buf Ho Hm Hn : constchk_loop _ _ 0 _ buf = _) as He.
  rewrite Z.add_0_r in Hc. setoid_rewrite Z.add_0_r in He. repeat (case_decide; [|]); try done; apply He.
Qed.

(** A check that reports the first offset that differs accepts exactly the bytes. *)
Lemma verdict_accepts chk f buf n off :
  (n ≤ length buf)%nat → 0 ≤ off → chk = Done (verdict off (first_diff (file_bytes f off n) (take n buf))) →
  (r ← chk; Done (bool_decide (r = -1))) = Done (bool_decide (take n buf = file_bytes f off n)).
Proof. intros Hn Ho ->. cbn. f_equal. apply verdict_ok; [done|]. rewrite file_bytes_length, length_take. lia. Qed.

Inductive source := Ascii_data (listofchars : option (list Z)) | Bin_data (mode : ascii) | Pattern_data (pat : list Z).

Definition wf_source (src : source) : Prop :=
  match src with
  | Ascii_data l => charlist l ≠ []
  | Bin_data mode => mode ≠ "r"%char
  | Pattern_data pat => pat ≠ [] ∧ Z.of_nat (length pat) ≤ INT_MAX
  end.

Section sources.
Context {G : Type} (rand : G → Z * G) (g : G).

(** Fill a buffer for a file offset, and check it. *)
Definition write_data (src : source) (buf : list Z) (n off : Z) : outcome (list Z) :=
  match src with
  | Ascii_data l => fst <$> dataasciigen l buf n off
  | Bin_data mode => fst <$> databingen rand mode buf n off g
  | Pattern_data pat => pattern_fill (S (Z.to_nat n)) buf n pat (Z.of_nat (length pat)) off
  end.

Definition check_data (src : source) (buf : list Z) (n off : Z) : outcome bool :=
  match src with
  | Ascii_data l => r ← dataasciichk l buf n off; Done (bool_decide (r = -1))
  | Bin_data mode => r ← databinchk mode buf n off; Done (bool_decide (r = -1))
  | Pattern_data pat => r ← pattern_check (S (Z.to_nat n)) buf n pat (Z.of_nat (length pat)) off; Done (bool_decide (r = 0))
  end.

Definition data_byte (src : source) : Z → Z :=
  match src with
  | Ascii_data l => repeated (charlist l)
  | Bin_data mode => bin_byte mode
  | Pattern_data pat => repeated pat
  end.

Lemma write_data_spec src buf n off :
  wf_source src → (n ≤ length buf)%nat → 0 ≤ off → off + Z.of_nat n ≤ INT_MAX →
  write_data src buf (Z.of_nat n) off = Done (file_bytes (data_byte src) off n ++ drop n buf).
Proof.
  destruct src as [l|mode|pat]; cbn [wf_source write_data data_byte].
  - intros. by rewrite dataasciigen_spec.
  - intros. by rewrite databingen_spec.
  - intros [??] ???. apply pattern_fill_spec; try done; lia.
Qed.

Lemma check_data_spec src buf n off :
  wf_source src → (n ≤ length buf)%nat → 0 ≤ off → off + Z.of_nat n ≤ INT_MAX →
  check_data src buf (Z.of_nat n) off = Done (bool_decide (take n buf = file_bytes (data_byte src) off n)).
Proof.
  destruct src as [l|mode|pat]; cbn [wf_source check_data data_byte].
  - intros. by apply verdict_accepts, dataasciichk_spec.
  - intros. by apply verdict_accepts, databinchk_spec.
  - intros [??] ???. rewrite pattern_check_spec by (done || lia). cbn. f_equal. case_decide as E.
    + by rewrite !bool_decide_true.
    + by rewrite !bool_decide_false.
Qed.

#[export] Instance data_source (src : source) (Hsrc : wf_source src) : DataSource := {|
  source_byte := data_byte src;
  source_write := write_data src;
  source_accepts := check_data src;
  source_write_spec := λ buf n off, write_data_spec src buf n off Hsrc;
  source_accepts_spec := λ buf n off, check_data_spec src buf n off Hsrc
|}.
End sources.

(** ** Properties *)

(** C24: pattern_fill() and pattern_check(), which work by copying and comparing
    pieces that double in size, agree with the byte by byte definition: the buffer
    gets pat[(patshift + i) mod patlen] at every i, nothing else is written, and the
    check returns 0 exactly for such a buffer.  A fuel above the length of the
    buffer is enough. *)
Theorem pattern_fill_check buf n pat shift fuel :
  pat ≠ [] → Z.of_nat (length pat) ≤ INT_MAX → (n ≤ length buf)%nat → Z.of_nat n ≤ INT_MAX →
  0 ≤ shift ≤ INT_MAX → (n < fuel)%nat →
  pattern_fill fuel buf (Z.of_nat n) pat (Z.of_nat (length pat)) shift =
    Done (file_bytes (repeated pat) shift n ++ drop n buf) ∧
  pattern_check fuel buf (Z.of_nat n) pat (Z.of_nat (length pat)) shift =
    Done (if decide (take n buf = file_bytes (repeated pat) shift n) then 0 else -1).
Proof. intros. split; [by apply pattern_fill_spec|by apply pattern_check_spec]. Qed.

Lemma pattern_fill_check_witness :
  pattern_fill 12 (replicate 12 0) 11 [1; 2; 3] 3 7 = Done [2; 3; 1; 2; 3; 1; 2; 3; 1; 2; 3; 0] ∧
  pattern_check 12 [2; 3; 1; 2; 3; 1; 2; 3; 9; 2; 3; 0] 11 [1; 2; 3] 3 7 = Done (-1).
Proof.
  split.
  - apply (pattern_fill_check (replicate 12 0) 11 [1; 2; 3] 7 12); by_decide.
  - apply (pattern_fill_check [2; 3; 1; 2; 3; 1; 2; 3; 9; 2; 3; 0] 11 [1; 2; 3] 7 12); by_decide.
Defined.

(** dataasciichk() and databinchk(), for every mode but random data, return -1
    when the buffer holds the data of its file offset and otherwise the file offset
    of the first byte that differs. *)
Theorem datachk_first_mismatch l mode buf n off :
  charlist l ≠ [] → mode ≠ "r"%char → (n ≤ length buf)%nat → 0 ≤ off → off + Z.of_nat n ≤ INT_MAX →
  dataasciichk l buf (Z.of_nat n) off =
    Done (verdict off (first_diff (file_bytes (repeated (charlist l)) off n) (take n buf))) ∧
  databinchk mode buf (Z.of_nat n) off = Done (verdict off (first_diff (file_bytes (bin_byte mode) off n) (take n buf))).
Proof. intros. split; [by apply dataasciichk_spec|by apply databinchk_spec]. Qed.

Lemma datachk_first_mismatch_witness :
  dataasciichk None [88; 89; 90; 97; 0] 5 23 = Done 27 ∧ databinchk "C" [7; 0; 1; 2; 2] 5 23 = Done 27.
Proof.
  split.
  - apply (datachk_first_mismatch None "C" [88; 89; 90; 97; 0] 5 23); by_decide.
  - apply (datachk_first_mismatch None "C" [7; 0; 1; 2; 2] 5 23); by_decide.
Defined.

(** C32: Data written at one offset can be read back in other pieces: any window of
    a buffer filled for file offset [off] is accepted when it is checked at its own
    offset, and after one byte of the buffer was changed the check of a window fails
    exactly when the byte is in the window and no longer the one of its offset.  This
    holds for text with a list of characters that is not empty, for binary data other
    than random, and for patterns that are not empty, at offsets of an int. *)
Theorem data_windows {G} (rand : G → Z * G) g src buf n off k m i b :
  wf_source src → (n ≤ length buf)%nat → 0 ≤ off → off + Z.of_nat n ≤ INT_MAX → (k + m ≤ n)%nat → (i < n)%nat →
  ∃ buf', write_data rand g src buf (Z.of_nat n) off = Done buf' ∧
    check_data src (drop k buf') (Z.of_nat m) (off + Z.of_nat k) = Done true ∧
    check_data src (drop k (<[i := b]> buf')) (Z.of_nat m) (off + Z.of_nat k) =
      Done (bool_decide ((k ≤ i < k + m)%nat → b = data_byte src (off + Z.of_nat i))).
Proof.
  intros Hsrc Hn Ho Hm Hk Hi.
  destruct (@window_accepted (data_source rand g src Hsrc) buf n off k m Hn Ho Hm Hk) as [Hw Hc].
  eexists. split_and!; [exact Hw|exact Hc|]. by apply (@change_noticed (data_source rand g src Hsrc)).
Qed.

Lemma data_windows_witness :
  ∃ buf', write_data (λ u : (), (0, u)) () (Ascii_data None) (replicate 8 0) 6 51 = Done buf' ∧
    check_data (Ascii_data None) (drop 2 buf') 3 53 = Done true ∧
    check_data (Ascii_data None) (drop 2 (<[3%nat := 10]> buf')) 3 53 = Done false.
Proof.
  destruct (data_windows (λ u : (), (0, u)) () (Ascii_data None) (replicate 8 0) 6 51 2 3 3 10) as (buf' & Hw & Hok & Hbad);
    [by_decide..|]. exists buf'. split; [exact Hw|split; [exact Hok|]]. refine (eq_trans Hbad _). by vm_compute.
Defined.

(** With an empty pattern pattern_fill() never returns when the buffer has a
    byte to fill, and dataasciigen() divides by zero. *)
Theorem empty_pattern fuel buf n :
  (0 < n ≤ length buf)%nat → Z.of_nat n ≤ INT_MAX →
  pattern_fill fuel buf (Z.of_nat n) [] 0 0 = Timeout ∧ dataasciigen (Some []) buf (Z.of_nat n) 0 = Fault.
Proof.
  intros Hn Hm. split.
  - unfold pattern_fill, shift_of. rewrite decide_False by lia. cbn [mbind outcome_bind].
    rewrite i32_ok by clia. change (0 - 0) with (Z.of_nat 0). cbn [mbind outcome_bind]. rewrite decide_False by lia.
    rewrite (bytes_at_start [] 0) by done. cbn [mbind outcome_bind take].
    rewrite memcpy_start by (cbn; lia). cbn [mbind outcome_bind length app].
    rewrite drop_0, i32_ok by clia. cbn [mbind outcome_bind]. rewrite decide_False by lia.
    replace (Z.of_nat n - Z.of_nat 0) with (Z.of_nat n) by lia.
    induction fuel as [|fuel IH]; [done|]. cbn [fill_rest]. rewrite !decide_True by lia.
    rewrite (bytes_at_start buf 0) by lia. cbn [mbind outcome_bind]. rewrite take_0, memcpy_start by (cbn; lia).
    cbn [mbind outcome_bind app length]. rewrite drop_0, Z.sub_0_r. exact IH.
  - unfold dataasciigen. rewrite i32_ok by clia. cbn [mbind outcome_bind charlist].
    replace (Z.to_nat _) with (S (n - 1))%nat by lia. cbn [asciigen_loop length]. unfold rem32. by rewrite decide_True.
Qed.

Lemma empty_pattern_witness : pattern_fill 1000 [0] 1 [] 0 0 = Timeout ∧ dataasciigen (Some []) [0] 1 0 = Fault.
Proof. apply (empty_pattern 1000 [0] 1); by_decide. Defined.
