(* ===== verification/WriteLog.v ===== *)
(** * The write log of doio (testcases/kernel/fs/doio/write_log.c)

    Records of writes are appended to a log and read back from its end.  The record
    on disk is a struct of bit fields, in the layout of the System V ABI with the
    lowest byte first, followed by the strings and the length.  The log is a regular
    file; [answers] says which of the calls to come fail.  Whether char is signed
    depends on the machine and is a parameter. *)
From stdpp Require Import base numbers option list.
From S2P Require Import Prelude CInt CMem.

#[local] Open Scope Z_scope.

(** ** Records *)

Definition WLOG_MAX_PATH : Z := 128.
Definition WLOG_MAX_PATTERN : Z := 64.
Definition WLOG_MAX_HOST : Z := 8.

Record wlog_rec := WlogRec {
  w_pid : Z; w_offset : Z; w_nbytes : Z; w_oflags : Z; w_done : Z; w_async : Z;
  w_host : list Z; w_hostlen : Z; w_path : list Z; w_pathlen : Z; w_pattern : list Z; w_patternlen : Z
}.

#[export] Instance wlog_rec_eq_dec : EqDecision wlog_rec.
Proof. solve_decision. Defined.

(** sizeof(struct wlog_rec), with its padding, and the size of the buffers. *)
Definition sizeof_wlog_rec : Z := 248.
Definition WLOG_REC_MAX_SIZE : Z := sizeof_wlog_rec + WLOG_MAX_PATH + WLOG_MAX_PATTERN + WLOG_MAX_HOST + 2.

(** ** The record on disk *)

Inductive disk_field := Doffset | Dnbytes | Doflags | Dpid | Dpathlen | Dpatternlen | Dhostlen | Ddone | Dasync.

#[export] Instance disk_field_eq_dec : EqDecision disk_field.
Proof. solve_decision. Defined.

(** The word, the first bit and the number of bits; a field does not cross a word. *)
Definition place (f : disk_field) : nat * Z * Z :=
  match f with
  | Doffset => (0%nat, 0, 32) | Dnbytes => (2%nat, 0, 32) | Doflags => (3%nat, 0, 32)
  | Dpid => (4%nat, 0, 17) | Dpathlen => (4%nat, 17, 7) | Dpatternlen => (4%nat, 24, 6)
  | Dhostlen => (5%nat, 0, 4) | Ddone => (5%nat, 4, 1) | Dasync => (5%nat, 5, 1)
  end.

Definition sizeof_disk : Z := 28.

Definition word_at (buf : list Z) (i : nat) : outcome Z :=
  b ← bytes_at buf (4 * Z.of_nat i) 4;
  match b with [b0; b1; b2; b3] => Done (b0 + 256 * b1 + 65536 * b2 + 16777216 * b3) | _ => Fault end.

Definition word_bytes (w : Z) : list Z := [w mod 256; w / 256 mod 256; w / 65536 mod 256; w / 16777216 mod 256].

Definition put_word (buf : list Z) (i : nat) (w : Z) : outcome (list Z) := memcpy buf (4 * Z.of_nat i) (word_bytes w).

Definition bits (lo n w : Z) : Z := w / 2 ^ lo mod 2 ^ n.
Definition set_bits (lo n v w : Z) : Z := w - bits lo n w * 2 ^ lo + v mod 2 ^ n * 2 ^ lo.

Definition get_field (buf : list Z) (f : disk_field) : outcome Z :=
  let '(i, lo, n) := place f in w ← word_at buf i; Done (bits lo n w).
Definition set_field (f : disk_field) (v : Z) (buf : list Z) : outcome (list Z) :=
  let '(i, lo, n) := place f in w ← word_at buf i; put_word buf i (set_bits lo n v w).

(** (len > 0) ? (uint) len : 0 *)
Definition len_field (n : Z) : Z := if decide (0 < n) then u32 n else 0.

Definition copy_if (n : Z) (src : list Z) (off : Z) (buf : list Z) : outcome (list Z) :=
  if decide (0 < n) then b ← bytes_at src 0 n; memcpy buf off b else Done buf.

Definition wlog_rec_pack (wrec : wlog_rec) (buf : list Z) (flag : bool) : outcome (Z * list Z) :=
  buf ← set_field Dpid (u32 (w_pid wrec)) buf;
  buf ← set_field Doffset (u32 (w_offset wrec)) buf;
  buf ← set_field Dnbytes (u32 (w_nbytes wrec)) buf;
  buf ← set_field Doflags (u32 (w_oflags wrec)) buf;
  buf ← set_field Ddone (u32 (w_done wrec)) buf;
  buf ← set_field Dasync (u32 (w_async wrec)) buf;
  buf ← set_field Dpathlen (len_field (w_pathlen wrec)) buf;
  buf ← set_field Dhostlen (len_field (w_hostlen wrec)) buf;
  buf ← set_field Dpatternlen (len_field (w_patternlen wrec)) buf;
  if flag then
    pathlen ← get_field buf Dpathlen;
    hostlen ← get_field buf Dhostlen;
    patternlen ← get_field buf Dpatternlen;
    let file := sizeof_disk in
    let host := file + pathlen in
    let pattern := host + hostlen in
    buf ← copy_if pathlen (w_path wrec) file buf;
    buf ← copy_if hostlen (w_host wrec) host buf;
    buf ← copy_if patternlen (w_pattern wrec) pattern buf;
    Done (sizeof_disk + pathlen + hostlen + patternlen, buf)
  else Done (sizeof_disk, buf).

(** The array, cleared by memset(), with the string copied into it. *)
Definition unpack_string (size n : Z) (buf : list Z) (off : Z) : outcome (list Z) :=
  let a := replicate (Z.to_nat size) 0 in
  if decide (0 < n) then b ← bytes_at buf off n; memcpy a 0 b else Done a.

Definition wlog_rec_unpack (buf : list Z) : outcome wlog_rec :=
  pid ← get_field buf Dpid;
  offset ← get_field buf Doffset;
  nbytes ← get_field buf Dnbytes;
  oflags ← get_field buf Doflags;
  hostlen ← get_field buf Dhostlen;
  pathlen ← get_field buf Dpathlen;
  patternlen ← get_field buf Dpatternlen;
  done ← get_field buf Ddone;
  async ← get_field buf Dasync;
  path ← unpack_string (WLOG_MAX_PATH + 1) pathlen buf sizeof_disk;
  host ← unpack_string (WLOG_MAX_HOST + 1) hostlen buf (sizeof_disk + pathlen);
  pattern ← unpack_string (WLOG_MAX_PATTERN + 1) patternlen buf (sizeof_disk + pathlen + hostlen);
  Done (WlogRec pid (wrap32 offset) (wrap32 nbytes) (wrap32 oflags) done async host hostlen path pathlen pattern patternlen).

(** ** The log *)

(** The bytes of the file, the position of the descriptor for random access, and
    whether the calls to come fail. *)
Record wlog := Wlog { bytes : list Z; rpos : Z; answers : list bool }.

Definition call (s : wlog) : bool * wlog :=
  match answers s with [] => (false, s) | b :: r => (b, Wlog (bytes s) (rpos s) r) end.
Definition set_bytes (l : list Z) (s : wlog) : wlog := Wlog l (rpos s) (answers s).
Definition set_rpos (p : Z) (s : wlog) : wlog := Wlog (bytes s) p (answers s).

(** The two open() calls. *)
Definition wlog_open (trunc : bool) (s : wlog) : Z * wlog :=
  let '(e, s) := call s in
  if e then (-1, s)
  else
    let s := if trunc then set_bytes [] s else s in
    let '(e, s) := call s in
    if e then (-1, s) else (0, set_rpos 0 s).

(** write() at a position; a gap behind the end is filled with zeros. *)
Definition write_at (off : Z) (b : list Z) (l : list Z) : list Z :=
  let n := Z.to_nat off in
  take n (l ++ replicate (n - length l) 0) ++ b ++ drop (n + length b) l.

(** [wbuf] is the buffer as it is found on the stack. *)
Definition wlog_record_write (wbuf : list Z) (wrec : wlog_rec) (offset : Z) (s : wlog) : outcome (Z * wlog) :=
  '(reclen, wbuf) ← wlog_rec_pack wrec wbuf (bool_decide (offset < 0));
  if decide (offset < 0) then
    wbuf ← put_byte wbuf reclen (reclen / 256 mod 256);
    wbuf ← put_byte wbuf (reclen + 1) (reclen mod 256);
    let reclen := reclen + 2 in
    b ← bytes_at wbuf 0 reclen;
    let '(e, s) := call s in
    if e then Done (-1, s)
    else
      let s := set_bytes (bytes s ++ b) s in
      let '(e, s) := call s in
      let pos := if e then -1 else Z.of_nat (length (bytes s)) in
      Done (if decide (pos - reclen = -1) then -1 else wrap32 (pos - reclen), s)
  else
    let '(e, s) := call s in
    if e then Done (-1, s)
    else
      b ← bytes_at wbuf 0 reclen;
      let '(e, s) := call s in
      if e then Done (-1, s)
      else Done (wrap32 offset, set_rpos (offset + reclen) (set_bytes (write_at offset b (bytes s)) s)).

(** ** Reading the log from its end *)

Definition BSIZE : Z := 512.
Definition bufsize : Z := BSIZE * 32.
Definition WLOG_STOP_SCAN : Z := 0.
Definition WLOG_CONTINUE_SCAN : Z := 1.

Section scan.
Context (char_signed : bool) {U : Type} (func : wlog_rec → U → Z * U).

(** The value of a char. *)
Definition char_value (b : Z) : Z := if char_signed && bool_decide (128 ≤ b) then b - 256 else b.

(** The rest of the buffer goes to its end; the two places must not overlap. *)
Definition keep_leftover (bufstart cp : Z) (buf : list Z) : outcome (Z * list Z) :=
  let leftover := cp - bufstart in
  b ← bytes_at buf bufstart leftover;
  if decide (0 < leftover ∧ bufsize - leftover < bufstart + leftover) then Fault
  else buf ← memcpy buf (bufsize - leftover) b; Done (leftover, buf).

(** The records of a buffer from [cp] down: what is left over, the buffers, the
    number of records and the data of the user. *)
Fixpoint records_loop (fuel : nat) (nrecs bufstart cp : Z) (buf albuf : list Z) (recnum : Z) (u : U)
    : outcome (Z * list Z * list Z * Z * U) :=
  match fuel with
  | O => Timeout
  | S fuel' =>
      if decide (cp < bufstart) then Done (0, buf, albuf, recnum, u)
      else if decide (cp - bufstart < 2) then
        '(leftover, buf) ← keep_leftover bufstart cp buf;
        Done (leftover, buf, albuf, recnum, u)
      else
        hi ← byte_at buf (cp - 2);
        lo ← byte_at buf (cp - 1);
        let reclen := char_value hi * 256 + char_value lo in
        if decide (cp - bufstart < reclen + 2) then
          '(leftover, buf) ← keep_leftover bufstart cp buf;
          Done (leftover, buf, albuf, recnum, u)
        else
          let cp := cp - (reclen + 2) in
          b ← bytes_at buf cp reclen;
          albuf ← memcpy albuf 0 b;
          wrec ← wlog_rec_unpack albuf;
          let '(rval, u) := func wrec u in
          if decide (rval = WLOG_STOP_SCAN) then Done (0, buf, albuf, recnum, u)
          else
            let recnum := recnum + 1 in
            if decide (nrecs ≠ 0 ∧ nrecs ≤ recnum) then Done (0, buf, albuf, recnum, u)
            else records_loop fuel' nrecs bufstart cp buf albuf recnum u
  end.

Fixpoint scan_loop (fuel : nat) (nrecs bufstart offset leftover : Z) (buf albuf : list Z) (recnum : Z) (u : U) (s : wlog)
    : outcome (Z * U * wlog) :=
  match fuel with
  | O => Timeout
  | S fuel' =>
      if decide ((nrecs = 0 ∨ recnum < nrecs) ∧ 0 < offset) then
        let '(bufstart, offset) :=
          if decide (u32 offset + leftover < bufsize) then (bufsize - (offset + leftover), 0)
          else (bufstart, offset - (bufsize - leftover)) in
        let '(e, s) := call s in
        if e then Done (-1, u, s)
        else
          let '(e, s) := call s in
          if e then Done (-1, u, set_rpos offset s)
          else
            let n := bufsize - bufstart - leftover in
            let data := take (Z.to_nat n) (drop (Z.to_nat offset) (bytes s)) in
            let s := set_rpos (offset + Z.of_nat (length data)) s in
            buf ← memcpy buf bufstart data;
            '(leftover, buf, albuf, recnum, u) ← records_loop (S (Z.to_nat bufsize)) nrecs bufstart bufsize buf albuf recnum u;
            scan_loop fuel' nrecs bufstart offset leftover buf albuf recnum u s
      else Done (0, u, s)
  end.

(** [buf] and [albuf] are the buffers on the stack; every turn reads a byte at least. *)
Definition wlog_scan_backward (buf albuf : list Z) (nrecs : Z) (u : U) (s : wlog) : outcome (Z * U * wlog) :=
  let '(e, s) := call s in
  if e then Done (-1, u, s)
  else
    let '(e, s) := call s in
    let offset := if e then -1 else wrap32 (Z.of_nat (length (bytes s))) in
    if decide (offset = -1) then Done (-1, u, s)
    else scan_loop (S (length (bytes s))) nrecs 0 offset 0 buf albuf 0 u (set_rpos offset s).
End scan.
