(* ===== verification/WriteLogSpec.v ===== *)
(** * What the write log promises

    A record that fits its bit fields is read back as it was written, and scanning a
    log backward calls the function of the user with its records, the last one first,
    however the log is cut into buffers. *)
From stdpp Require Import base numbers option list.
From S2P Require Import Prelude CInt CMem WriteLog.

#[local] Open Scope Z_scope.

(** ** Parts of a buffer *)

(** A part outside the bytes that were replaced. *)
Lemma replace_outside {A} (l m : list A) a o n :
  (a + length m ≤ length l)%nat → (o + n ≤ a ∨ a + length m ≤ o)%nat →
  take n (drop o (take a l ++ m ++ drop (a + length m) l)) = take n (drop o l).
Proof.
  intros Hl Ho. apply list_eq. intros i. destruct (decide (i < n)%nat) as [Hi|Hi]; [|rewrite !lookup_take_ge by lia; done].
  rewrite !lookup_take_lt, !lookup_drop by lia. destruct Ho as [Ho|Ho].
  - rewrite lookup_app_l by (rewrite length_take; lia). by rewrite lookup_take_lt by lia.
  - rewrite lookup_app_r by (rewrite length_take; lia). rewrite length_take, Nat.min_l by lia.
    rewrite lookup_app_r by lia. rewrite lookup_drop. f_equal. lia.
Qed.

Lemma replace_inside {A} (l m : list A) a :
  (a ≤ length l)%nat → take (length m) (drop a (take a l ++ m ++ drop (a + length m) l)) = m.
Proof.
  intros Hl. rewrite drop_app_ge by (rewrite length_take; lia). rewrite length_take, Nat.min_l, Nat.sub_diag, drop_0 by lia.
  by rewrite take_app_length.
Qed.

(** ** Words and bit fields *)

Definition is_byte (b : Z) : Prop := 0 ≤ b < 256.

(** The fixed part of a record. *)
Definition header (buf : list Z) : Prop := (28 ≤ length buf)%nat ∧ Forall is_byte (take 28 buf).

Lemma word_at_take buf i :
  (4 * i + 4 ≤ length buf)%nat →
  word_at buf i = match take 4 (drop (4 * i) buf) with
                  | [b0; b1; b2; b3] => Done (b0 + 256 * b1 + 65536 * b2 + 16777216 * b3) | _ => Fault end.
Proof.
  intros Hl. unfold word_at. replace (4 * Z.of_nat i) with (Z.of_nat (4 * i)) by lia. change (bytes_at buf ?x 4) with (bytes_at buf x (Z.of_nat 4)).
  by rewrite bytes_at_ok by lia.
Qed.

Lemma four_bytes buf i :
  header buf → (i < 7)%nat → ∃ b0 b1 b2 b3, take 4 (drop (4 * i) buf) = [b0; b1; b2; b3] ∧ Forall is_byte [b0; b1; b2; b3].
Proof.
  intros [Hl Hb] Hi. assert (length (take 4 (drop (4 * i) buf)) = 4%nat) as Hlen by (rewrite length_take, length_drop; lia).
  assert (Forall is_byte (take 4 (drop (4 * i) buf))) as Hf.
  { rewrite take_drop_commute. apply Forall_drop. replace (4 * i + 4)%nat with (4 * i + 4 `min` 28)%nat by lia.
    eapply (Forall_take _ (4 * i + 4)) in Hb. rewrite take_take in Hb. by replace ((4 * i + 4) `min` 28)%nat with (4 * i + 4 `min` 28)%nat in Hb by lia. }
  destruct (take 4 (drop (4 * i) buf)) as [|b0 [|b1 [|b2 [|b3 [|]]]]]; cbn in Hlen; try lia. by exists b0, b1, b2, b3.
Qed.

Lemma word_range buf i : header buf → (i < 7)%nat → ∃ w, word_at buf i = Done w ∧ 0 ≤ w < 2 ^ 32.
Proof.
  intros Hh Hi. destruct (four_bytes buf i Hh Hi) as (b0 & b1 & b2 & b3 & E & Hb). destruct Hh as [Hl _].
  rewrite word_at_take, E by lia. eexists. split; [done|]. rewrite !Forall_cons in Hb. unfold is_byte in Hb. lia.
Qed.

Lemma word_bytes_value w : 0 ≤ w < 2 ^ 32 →
  w mod 256 + 256 * (w / 256 mod 256) + 65536 * (w / 65536 mod 256) + 16777216 * (w / 16777216 mod 256) = w.
Proof. intros Hw. change (2 ^ 32) with 4294967296 in Hw. Z.to_euclidean_division_equations. lia. Qed.

Lemma word_bytes_ok w : Forall is_byte (word_bytes w).
Proof. repeat constructor; try apply Z.mod_pos_bound; lia. Qed.

Lemma put_word_ok buf i w :
  header buf → (i < 7)%nat → 0 ≤ w < 2 ^ 32 →
  ∃ buf', put_word buf i w = Done buf' ∧ header buf' ∧ length buf' = length buf ∧ drop 28 buf' = drop 28 buf ∧
    word_at buf' i = Done w ∧ ∀ j, j ≠ i → (j < 7)%nat → word_at buf' j = word_at buf j.
Proof.
  intros [Hl Hb] Hi Hw. unfold put_word. rewrite memcpy_ok by (cbn [length word_bytes]; lia).
  replace (Z.to_nat (4 * Z.of_nat i)) with (4 * i)%nat by lia. set (m := word_bytes w).
  set (buf' := take (4 * i) buf ++ m ++ drop (4 * i + length m) buf).
  assert (length m = 4%nat) as Hm by done.
  assert (length buf' = length buf) as Hlen by (subst buf'; rewrite !length_app, length_take, length_drop; lia).
  assert (∀ o n, (o + n ≤ 4 * i ∨ 4 * i + 4 ≤ o)%nat → take n (drop o buf') = take n (drop o buf)) as Hout.
  { intros o n Ho. apply replace_outside; rewrite Hm; lia. }
  exists buf'. split_and!; [done| |done| | |].
  - split; [lia|]. apply Forall_lookup. intros k x Hk. apply lookup_take_Some in Hk as [Hk Hlt].
    destruct (decide (4 * i ≤ k < 4 * i + 4)%nat) as [Hin|Hnin].
    + subst buf'. rewrite lookup_app_r in Hk by (rewrite length_take; lia). rewrite lookup_app_l in Hk by (rewrite length_take; lia).
      pose proof (word_bytes_ok w) as Hw'. rewrite Forall_lookup in Hw'. by eapply Hw'.
    + specialize (Hout k 1%nat ltac:(lia)). apply (f_equal (lookup 0%nat)) in Hout. rewrite !lookup_take_lt, !lookup_drop, Nat.add_0_r in Hout by lia.
      rewrite Hk in Hout. rewrite Forall_lookup in Hb. apply (Hb k). by rewrite lookup_take_lt by lia.
  - specialize (Hout 28%nat (length buf) ltac:(lia)). by rewrite !take_ge in Hout by (rewrite length_drop; lia).
  - rewrite word_at_take by lia. rewrite <- Hm. subst buf'. rewrite replace_inside by lia. subst m. cbn. by rewrite word_bytes_value.
  - intros j Hj Hj7. rewrite !word_at_take by lia. by rewrite Hout by lia.
Qed.

(** Fields of a word do not touch each other. *)
Lemma set_bits_ok f v w :
  let '(_, lo, n) := place f in 0 ≤ w < 2 ^ 32 → 0 ≤ set_bits lo n v w < 2 ^ 32 ∧ bits lo n (set_bits lo n v w) = v mod 2 ^ n.
Proof.
  destruct f; cbn [place]; unfold set_bits, bits; intros Hw;
    repeat match goal with |- context [2 ^ ?k] => let c := eval vm_compute in (2 ^ k) in change (2 ^ k) with c end;
    change (2 ^ 32) with 4294967296 in Hw; Z.to_euclidean_division_equations; lia.
Qed.

Lemma set_bits_other f g v w :
  f ≠ g → (place f).1.1 = (place g).1.1 →
  let '(_, lo, n) := place f in let '(_, lo', n') := place g in
  0 ≤ w < 2 ^ 32 → bits lo' n' (set_bits lo n v w) = bits lo' n' w.
Proof.
  destruct f, g; try done; intros _ _; cbn [place]; unfold set_bits, bits; intros Hw;
    repeat match goal with |- context [2 ^ ?k] => let c := eval vm_compute in (2 ^ k) in change (2 ^ k) with c end;
    change (2 ^ 32) with 4294967296 in Hw; Z.to_euclidean_division_equations; lia.
Qed.

Definition width (f : disk_field) : Z := (place f).2.

Lemma set_field_ok f v buf :
  header buf →
  ∃ buf', set_field f v buf = Done buf' ∧ header buf' ∧ length buf' = length buf ∧ drop 28 buf' = drop 28 buf ∧
    get_field buf' f = Done (v mod 2 ^ width f) ∧ ∀ g, g ≠ f → get_field buf' g = get_field buf g.
Proof.
  intros Hh. assert ((place f).1.1 < 7)%nat as Hi by (destruct f; cbn; lia). pose proof (set_bits_ok f v) as Hset.
  pose proof (λ g, set_bits_other f g v) as Hother. unfold set_field, get_field, width in *.
  destruct (place f) as [[i lo] n] eqn:Ef. cbn [fst snd] in *. destruct (word_range buf i Hh Hi) as (w & Hw & Hr).
  destruct (Hset w Hr) as [Hr' Hv]. destruct (put_word_ok buf i (set_bits lo n v w) Hh Hi Hr') as (buf' & Hput & Hh' & Hl & Hd & Hwi & Hwj).
  exists buf'. rewrite Hw. cbn [mbind outcome_bind]. split_and!; [done|done|done|done| |].
  - rewrite Hwi. cbn. by rewrite Hv.
  - intros g Hg. specialize (Hother g w). assert ((place g).1.1 < 7)%nat as Hj by (destruct g; cbn; lia).
    destruct (place g) as [[j lo'] n']. cbn [fst snd] in *. destruct (decide (j = i)) as [->|Hne]; [|by rewrite Hwj].
    rewrite Hwi, Hw. cbn. f_equal. by apply Hother.
Qed.

(** The fields depend on the header only. *)
Lemma get_field_take buf buf' f : header buf → take 28 buf' = take 28 buf → get_field buf' f = get_field buf f.
Proof.
  intros [Hl Hb] E. assert ((place f).1.1 < 7)%nat as Hi by (destruct f; cbn; lia).
  unfold get_field. destruct (place f) as [[i lo] n]. cbn in Hi.
  assert (28 ≤ length buf')%nat as Hl' by (apply (f_equal length) in E; rewrite !length_take in E; lia).
  assert (∀ l : list Z, take 4 (drop (4 * i) l) = take 4 (drop (4 * i) (take 28 l))) as Ht.
  { intros l. rewrite !take_drop_commute, take_take. do 2 f_equal. lia. }
  rewrite !word_at_take, (Ht buf), (Ht buf'), E by lia. done.
Qed.

(** The values of all fields. *)
Record fields (buf : list Z) (pid offset nbytes oflags done async pathlen hostlen patternlen : Z) : Prop := {
  f_pid : get_field buf Dpid = Done pid; f_offset : get_field buf Doffset = Done offset;
  f_nbytes : get_field buf Dnbytes = Done nbytes; f_oflags : get_field buf Doflags = Done oflags;
  f_done : get_field buf Ddone = Done done; f_async : get_field buf Dasync = Done async;
  f_pathlen : get_field buf Dpathlen = Done pathlen; f_hostlen : get_field buf Dhostlen = Done hostlen;
  f_patternlen : get_field buf Dpatternlen = Done patternlen
}.

(** A record whose values fit their fields, with strings of the given lengths in
    arrays that are cleared behind them. *)
Definition array (size : Z) (s : list Z) : list Z := s ++ replicate (Z.to_nat size - length s) 0.

Record rec_ok (r : wlog_rec) (path host pattern : list Z) : Prop := {
  ok_pid : 0 ≤ w_pid r < 2 ^ 17;
  ok_ints : is_i32 (w_offset r) ∧ is_i32 (w_nbytes r) ∧ is_i32 (w_oflags r);
  ok_flags : 0 ≤ w_done r ≤ 1 ∧ 0 ≤ w_async r ≤ 1;
  ok_path : w_path r = array (WLOG_MAX_PATH + 1) path ∧ w_pathlen r = Z.of_nat (length path) ∧ Z.of_nat (length path) < WLOG_MAX_PATH;
  ok_host : w_host r = array (WLOG_MAX_HOST + 1) host ∧ w_hostlen r = Z.of_nat (length host) ∧ Z.of_nat (length host) ≤ WLOG_MAX_HOST;
  ok_pattern : w_pattern r = array (WLOG_MAX_PATTERN + 1) pattern ∧ w_patternlen r = Z.of_nat (length pattern) ∧ Z.of_nat (length pattern) < WLOG_MAX_PATTERN
}.

Definition disk_fields (buf : list Z) (r : wlog_rec) : Prop :=
  fields buf (w_pid r) (u32 (w_offset r)) (u32 (w_nbytes r)) (u32 (w_oflags r)) (w_done r) (w_async r) (w_pathlen r) (w_hostlen r) (w_patternlen r).

(** Every value is cut to the width of its field. *)
Lemma pack_header r buf :
  header buf →
  ∃ buf', header buf' ∧ length buf' = length buf ∧ drop 28 buf' = drop 28 buf ∧
    fields buf' (u32 (w_pid r) mod 2 ^ 17) (u32 (w_offset r)) (u32 (w_nbytes r)) (u32 (w_oflags r)) (u32 (w_done r) mod 2) (u32 (w_async r) mod 2)
      (len_field (w_pathlen r) mod 2 ^ 7) (len_field (w_hostlen r) mod 2 ^ 4) (len_field (w_patternlen r) mod 2 ^ 6) ∧
    ∀ flag, wlog_rec_pack r buf flag =
      if flag then
        pathlen ← get_field buf' Dpathlen; hostlen ← get_field buf' Dhostlen; patternlen ← get_field buf' Dpatternlen;
        b ← copy_if pathlen (w_path r) sizeof_disk buf';
        b ← copy_if hostlen (w_host r) (sizeof_disk + pathlen) b;
        b ← copy_if patternlen (w_pattern r) (sizeof_disk + pathlen + hostlen) b;
        Done (sizeof_disk + pathlen + hostlen + patternlen, b)
      else Done (sizeof_disk, buf').
Proof.
  intros Hh. unfold wlog_rec_pack.
  destruct (set_field_ok Dpid (u32 (w_pid r)) buf Hh) as (b1 & -> & H1 & L1 & D1 & V1 & O1). cbn [mbind outcome_bind].
  destruct (set_field_ok Doffset (u32 (w_offset r)) b1 H1) as (b2 & -> & H2 & L2 & D2 & V2 & O2). cbn [mbind outcome_bind].
  destruct (set_field_ok Dnbytes (u32 (w_nbytes r)) b2 H2) as (b3 & -> & H3 & L3 & D3 & V3 & O3). cbn [mbind outcome_bind].
  destruct (set_field_ok Doflags (u32 (w_oflags r)) b3 H3) as (b4 & -> & H4 & L4 & D4 & V4 & O4). cbn [mbind outcome_bind].
  destruct (set_field_ok Ddone (u32 (w_done r)) b4 H4) as (b5 & -> & H5 & L5 & D5 & V5 & O5). cbn [mbind outcome_bind].
  destruct (set_field_ok Dasync (u32 (w_async r)) b5 H5) as (b6 & -> & H6 & L6 & D6 & V6 & O6). cbn [mbind outcome_bind].
  destruct (set_field_ok Dpathlen (len_field (w_pathlen r)) b6 H6) as (b7 & -> & H7 & L7 & D7 & V7 & O7). cbn [mbind outcome_bind].
  destruct (set_field_ok Dhostlen (len_field (w_hostlen r)) b7 H7) as (b8 & -> & H8 & L8 & D8 & V8 & O8). cbn [mbind outcome_bind].
  destruct (set_field_ok Dpatternlen (len_field (w_patternlen r)) b8 H8) as (b9 & -> & H9 & L9 & D9 & V9 & O9). cbn [mbind outcome_bind].
  exists b9. split_and!; [done|congruence|congruence| |done]. unfold width in *. cbn [place snd] in *.
  split; rewrite ?O9, ?O8, ?O7, ?O6, ?O5, ?O4, ?O3, ?O2 by done; rewrite ?V1, ?V2, ?V3, ?V4, ?V5, ?V6, ?V7, ?V8, ?V9; f_equal;
    try done; unfold u32; by rewrite Z.mod_mod.
Qed.

Lemma pack_fields r path host pattern buf :
  rec_ok r path host pattern → header buf →
  ∃ buf', header buf' ∧ length buf' = length buf ∧ drop 28 buf' = drop 28 buf ∧ disk_fields buf' r ∧
    ∀ flag, wlog_rec_pack r buf flag =
      if flag then
        b ← copy_if (w_pathlen r) (w_path r) sizeof_disk buf';
        b ← copy_if (w_hostlen r) (w_host r) (sizeof_disk + w_pathlen r) b;
        b ← copy_if (w_patternlen r) (w_pattern r) (sizeof_disk + w_pathlen r + w_hostlen r) b;
        Done (sizeof_disk + w_pathlen r + w_hostlen r + w_patternlen r, b)
      else Done (sizeof_disk, buf').
Proof.
  intros Hr Hh. destruct (pack_header r buf Hh) as (b & Hb & Hl & Hd & Hf & Hp). exists b.
  assert (disk_fields b r) as Hf'.
  { destruct Hr as [Hpid _ [Hdo Has] (_ & Hp1 & Hp2) (_ & Ht1 & Ht2) (_ & Hq1 & Hq2)].
    unfold WLOG_MAX_PATH, WLOG_MAX_HOST, WLOG_MAX_PATTERN in *. unfold disk_fields.
    assert (∀ n m, 0 ≤ n < m → m ≤ 2 ^ 31 → len_field n mod m = n) as Hlen.
    { intros n m Hn Hm. change (2 ^ 31) with 2147483648 in Hm. unfold len_field. case_decide; rewrite ?u32_small, ?Z.mod_small by clia; lia. }
    change (2 ^ 17) with 131072 in *.
    rewrite (u32_small (w_pid r)), (u32_small (w_done r)), (u32_small (w_async r)) in Hf by clia.
    by rewrite (Hlen (w_pathlen r)), (Hlen (w_hostlen r)), (Hlen (w_patternlen r)), (Z.mod_small (w_pid r)), (Z.mod_small (w_done r)), (Z.mod_small (w_async r)) in Hf by lia. }
  split_and!; [done|done|done|done|]. intros flag. rewrite Hp. destruct flag; [|done].
  by rewrite (f_pathlen _ _ _ _ _ _ _ _ _ _ Hf'), (f_hostlen _ _ _ _ _ _ _ _ _ _ Hf'), (f_patternlen _ _ _ _ _ _ _ _ _ _ Hf').
Qed.

(** ** Packing and unpacking *)

Lemma copy_if_ok size s off a rest :
  (length s ≤ length rest)%nat → off = Z.of_nat (length a) →
  copy_if (Z.of_nat (length s)) (array size s) off (a ++ rest) = Done (a ++ s ++ drop (length s) rest).
Proof.
  intros Hl ->. unfold copy_if. case_decide as H0.
  - unfold array. rewrite bytes_at_start by (rewrite length_app; lia). cbn [mbind outcome_bind]. rewrite take_app_length. by apply memcpy_after.
  - destruct s; [done|cbn in H0; lia].
Qed.

Lemma unpack_string_ok size s off a rest :
  Z.of_nat (length s) ≤ size → off = Z.of_nat (length a) →
  unpack_string size (Z.of_nat (length s)) (a ++ s ++ rest) off = Done (array size s).
Proof.
  intros Hs ->. unfold unpack_string, array. case_decide as H0.
  - rewrite bytes_at_ok by (rewrite !length_app; lia). cbn [mbind outcome_bind]. rewrite drop_app_length, take_app_length.
    rewrite memcpy_start by (rewrite length_replicate; lia). by rewrite drop_replicate.
  - destruct s; [cbn; by rewrite Nat.sub_0_r|cbn in H0; lia].
Qed.

(** The bytes of a record without its length. *)
Definition packed (body : list Z) (r : wlog_rec) (path host pattern : list Z) : Prop :=
  ∃ hdr, body = hdr ++ path ++ host ++ pattern ∧ length hdr = 28%nat ∧ header hdr ∧ disk_fields hdr r.

Lemma disk_fields_take buf buf' r : header buf → take 28 buf' = take 28 buf → disk_fields buf r → disk_fields buf' r.
Proof. intros Hh E []. split; by rewrite (get_field_take buf). Qed.

Lemma pack_ok r path host pattern buf :
  rec_ok r path host pattern → header buf → WLOG_REC_MAX_SIZE ≤ Z.of_nat (length buf) →
  ∃ body rest, wlog_rec_pack r buf true = Done (Z.of_nat (length body), body ++ rest) ∧ packed body r path host pattern ∧
    length (body ++ rest) = length buf.
Proof.
  intros Hr Hh Hl. destruct (pack_fields r path host pattern buf Hr Hh) as (b & Hb & Hlen & _ & Hf & Hp). rewrite (Hp true). clear Hp.
  destruct Hr as [_ _ _ (-> & -> & Hp) (-> & -> & Ht) (-> & -> & Hq)]. unfold WLOG_REC_MAX_SIZE, sizeof_wlog_rec, WLOG_MAX_PATH, WLOG_MAX_HOST, WLOG_MAX_PATTERN in *.
  destruct Hb as [Hb1 Hb2]. rewrite <- (take_drop 28 b) in Hlen, Hf |- *. set (hdr := take 28 b) in *. set (rest := drop 28 b) in *.
  assert (length hdr = 28%nat) as Hhdr by (subst hdr; rewrite length_take; lia). rewrite length_app in Hlen.
  rewrite copy_if_ok by (unfold sizeof_disk; lia). cbn [mbind outcome_bind]. rewrite app_assoc.
  rewrite copy_if_ok by (rewrite ?length_drop, ?length_app; unfold sizeof_disk; lia). cbn [mbind outcome_bind]. rewrite app_assoc.
  rewrite copy_if_ok by (rewrite ?length_drop, ?length_app; unfold sizeof_disk; lia). cbn [mbind outcome_bind].
  exists (hdr ++ path ++ host ++ pattern), (drop (length pattern) (drop (length host) (drop (length path) rest))). split_and!.
  - f_equal. f_equal; [rewrite !length_app; unfold sizeof_disk; lia|]. by rewrite <- !app_assoc.
  - exists hdr. split_and!; [done|done| |].
    + split; [lia|]. by rewrite take_ge by lia.
    + eapply (disk_fields_take (hdr ++ rest)); [|by rewrite take_app_le by lia|done]. split; [rewrite length_app; lia|].
      by rewrite take_app_le, take_ge by lia.
  - rewrite !length_app, !length_drop. lia.
Qed.

Lemma wrap32_u32 x : is_i32 x → wrap32 (u32 x) = x.
Proof. unfold wrap32, u32, INT_MIN, INT_MAX. intros. Z.to_euclidean_division_equations. lia. Qed.

Lemma unpack_ok body r path host pattern rest :
  rec_ok r path host pattern → packed body r path host pattern → wlog_rec_unpack (body ++ rest) = Done r.
Proof.
  intros Hr (hdr & -> & Hlen & Hh & Hf).
  assert (disk_fields ((hdr ++ path ++ host ++ pattern) ++ rest) r) as Hf'.
  { eapply disk_fields_take; [exact Hh| |done]. rewrite <- app_assoc, take_app_le, !take_ge by lia. done. }
  destruct Hr as [_ (Ho & Hn & Hfl) _ (Hp1 & Hp2 & Hp3) (Ht1 & Ht2 & Ht3) (Hq1 & Hq2 & Hq3)].
  unfold WLOG_MAX_PATH, WLOG_MAX_HOST, WLOG_MAX_PATTERN in *. destruct Hf'. unfold wlog_rec_unpack.
  rewrite f_pid0, f_offset0, f_nbytes0, f_oflags0, f_hostlen0, f_pathlen0, f_patternlen0, f_done0, f_async0. cbn [mbind outcome_bind].
  rewrite Hp2, Ht2, Hq2. rewrite <- !app_assoc. rewrite unpack_string_ok by (unfold WLOG_MAX_PATH, sizeof_disk; lia). cbn [mbind outcome_bind].
  rewrite (app_assoc hdr). rewrite unpack_string_ok by (rewrite ?length_app; unfold WLOG_MAX_HOST, sizeof_disk; lia). cbn [mbind outcome_bind].
  rewrite (app_assoc (hdr ++ path)). rewrite unpack_string_ok by (rewrite ?length_app; unfold WLOG_MAX_PATTERN, sizeof_disk; lia). cbn [mbind outcome_bind].
  rewrite !wrap32_u32 by done. destruct r. cbn in *. by subst.
Qed.

(** ** Writing records *)

(** A record in the file: its bytes and its length. *)
Definition entry_bytes (body : list Z) : list Z :=
  body ++ [Z.of_nat (length body) / 256 mod 256; Z.of_nat (length body) mod 256].

Definition entry_of (body : list Z) (r : wlog_rec) : Prop :=
  ∃ path host pattern, rec_ok r path host pattern ∧ packed body r path host pattern.

(** The file holds exactly these records. *)
Definition log_of (l : list Z) (rs : list wlog_rec) : Prop :=
  ∃ bodies, Forall2 entry_of bodies rs ∧ l = concat (entry_bytes <$> bodies).

Lemma entry_length body r : entry_of body r → (28 ≤ length body ≤ 226)%nat.
Proof.
  intros (path & host & pattern & [_ _ _ (_ & _ & Hp) (_ & _ & Ht) (_ & _ & Hq)] & (hdr & -> & Hl & _)).
  unfold WLOG_MAX_PATH, WLOG_MAX_HOST, WLOG_MAX_PATTERN in *. rewrite !length_app. lia.
Qed.

Lemma log_of_snoc l rs body r : log_of l rs → entry_of body r → log_of (l ++ entry_bytes body) (rs ++ [r]).
Proof.
  intros (bodies & Hb & ->) He. exists (bodies ++ [body]). split; [apply Forall2_app; [done|by constructor]|].
  rewrite fmap_app, concat_app. cbn. by rewrite app_nil_r.
Qed.

(** The buffer on the stack. *)
Definition stack_buf (wbuf : list Z) : Prop := Forall is_byte wbuf ∧ Z.of_nat (length wbuf) = WLOG_REC_MAX_SIZE + 2.

Lemma stack_header wbuf : stack_buf wbuf → header wbuf.
Proof. intros [Hb Hl]. split; [unfold WLOG_REC_MAX_SIZE, sizeof_wlog_rec, WLOG_MAX_PATH, WLOG_MAX_HOST, WLOG_MAX_PATTERN in Hl; lia|by apply Forall_take]. Qed.

Lemma record_append wbuf r path host pattern off s :
  stack_buf wbuf → rec_ok r path host pattern → off < 0 → answers s = [] → Z.of_nat (length (bytes s)) ≤ INT_MAX →
  ∃ body, entry_of body r ∧
    wlog_record_write wbuf r off s = Done (Z.of_nat (length (bytes s)), set_bytes (bytes s ++ entry_bytes body) s).
Proof.
  intros Hw Hr Hoff Ha Hmax. pose proof (stack_header _ Hw) as Hh. destruct Hw as [_ Hwl].
  destruct (pack_ok r path host pattern wbuf Hr Hh) as (body & rest & Hp & Hpk & Hl); [lia|]. exists body.
  assert (entry_of body r) as He by (by exists path, host, pattern). split; [done|]. pose proof (entry_length _ _ He) as Hlen.
  unfold wlog_record_write. rewrite bool_decide_true, Hp by done. cbn [mbind outcome_bind]. rewrite decide_True by done.
  unfold WLOG_REC_MAX_SIZE, sizeof_wlog_rec, WLOG_MAX_PATH, WLOG_MAX_HOST, WLOG_MAX_PATTERN in Hwl. rewrite length_app in Hl.
  destruct rest as [|x [|y rest]]; cbn in Hl; [lia|lia|]. rewrite put_byte_app. cbn [mbind outcome_bind].
  set (hi := Z.of_nat (length body) / 256 mod 256). set (lo := Z.of_nat (length body) mod 256).
  replace (Z.of_nat (length body) + 1) with (Z.of_nat (length (body ++ [hi]))) by (rewrite length_app; cbn; lia).
  replace (body ++ hi :: y :: rest) with ((body ++ [hi]) ++ y :: rest) by by rewrite <- app_assoc.
  rewrite put_byte_app. cbn [mbind outcome_bind].
  replace (Z.of_nat (length body) + 2) with (Z.of_nat (length (entry_bytes body))) by (unfold entry_bytes; rewrite length_app; cbn; lia).
  replace ((body ++ [hi]) ++ lo :: rest) with (entry_bytes body ++ rest) by (unfold entry_bytes; by rewrite <- !app_assoc).
  rewrite bytes_at_start by (rewrite length_app; lia). cbn [mbind outcome_bind]. rewrite take_app_length. unfold call. rewrite Ha.
  cbn [bytes set_bytes answers]. rewrite Ha. cbn [bytes set_bytes]. rewrite length_app, decide_False by lia. rewrite wrap32_small by clia. do 2 f_equal. lia.
Qed.

(** Overlaying a record changes its fixed part only. *)
Lemma record_overlay wbuf r r' path host pattern body pre post s :
  stack_buf wbuf → rec_ok r path host pattern → packed body r path host pattern → rec_ok r' path host pattern →
  bytes s = pre ++ entry_bytes body ++ post → answers s = [] → Z.of_nat (length pre) ≤ INT_MAX →
  ∃ body' p, packed body' r' path host pattern ∧ length body' = length body ∧
    wlog_record_write wbuf r' (Z.of_nat (length pre)) s =
      Done (Z.of_nat (length pre), set_rpos p (set_bytes (pre ++ entry_bytes body' ++ post) s)).
Proof.
  intros Hw Hr (hdr & -> & Hlen & Hh & Hf) Hr' Hb Ha Hmax. pose proof (stack_header _ Hw) as Hwh. destruct Hw as [_ Hwl].
  unfold WLOG_REC_MAX_SIZE, sizeof_wlog_rec, WLOG_MAX_PATH, WLOG_MAX_HOST, WLOG_MAX_PATTERN in Hwl.
  destruct (pack_fields r' path host pattern wbuf Hr' Hwh) as (b & Hbh & Hbl & _ & Hbf & Hp).
  set (hdr' := take 28 b). assert (length hdr' = 28%nat) as Hlen' by (subst hdr'; rewrite length_take; lia).
  exists (hdr' ++ path ++ host ++ pattern), (Z.of_nat (length pre) + sizeof_disk).
  assert (header hdr') as Hh'.
  { split; [lia|]. rewrite take_ge by lia. apply Hbh. }
  split_and!.
  - exists hdr'. split_and!; [done|done|done|]. eapply disk_fields_take; [exact Hbh| |done]. subst hdr'. by rewrite take_take.
  - by rewrite !length_app, Hlen, Hlen'.
  - unfold wlog_record_write. rewrite bool_decide_false, Hp by lia. cbn [mbind outcome_bind]. rewrite decide_False by lia.
    unfold call. rewrite Ha. change (bytes_at b 0 sizeof_disk) with (bytes_at b 0 (Z.of_nat 28)).
    rewrite bytes_at_start by lia. cbn [mbind outcome_bind answers]. rewrite Ha. cbn [bytes set_bytes].
    fold hdr'. rewrite wrap32_small by clia. do 3 f_equal. rewrite Hb. unfold write_at. rewrite Nat2Z.id.
    rewrite <- app_assoc, take_app_length. f_equal. unfold entry_bytes. rewrite !length_app, Hlen, Hlen'.
    rewrite <- !app_assoc. f_equal. rewrite drop_app_add, drop_app_ge by lia. by rewrite Hlen, Nat.sub_diag, drop_0.
Qed.

(** ** Scanning *)

Lemma app_suffix {A} (x seg y t : list A) :
  x ++ seg = y ++ t → (length t ≤ length seg)%nat → ∃ seg0, seg = seg0 ++ t ∧ x ++ seg0 = y.
Proof.
  intros E Hl. assert (length x ≤ length y)%nat as Hxy by (apply (f_equal length) in E; rewrite !length_app in E; lia).
  exists (drop (length x) y). assert (x = take (length x) y) as Hx.
  { apply (f_equal (take (length x))) in E. by rewrite take_app_length, take_app_le in E by lia. }
  split; [|by rewrite Hx at 1; rewrite take_drop].
  apply (f_equal (drop (length x))) in E. by rewrite drop_app_length, drop_app_le in E by lia.
Qed.

Section scan.
Context (char_signed : bool) {U : Type} (func : wlog_rec → U → Z * U).
Context (Hgo : ∀ r u, (func r u).1 ≠ WLOG_STOP_SCAN).

(** What the scan needs of a record. *)
Definition readable (e : list Z * wlog_rec) : Prop :=
  (28 ≤ length e.1 ≤ 448)%nat ∧ (char_signed = true → (length e.1 < 128)%nat) ∧
  ∀ rest, wlog_rec_unpack (e.1 ++ rest) = Done e.2.

Definition calls (es : list (list Z * wlog_rec)) (u : U) : U := foldr (λ e u, (func e.2 u).2) u es.

Abbreviation all_bytes es := (concat ((λ e : list Z * wlog_rec, entry_bytes e.1) <$> es)).

Lemma char_length n : (n ≤ 448)%nat → (char_signed = true → (n < 128)%nat) →
  char_value char_signed (Z.of_nat n / 256 mod 256) * 256 + char_value char_signed (Z.of_nat n mod 256) = Z.of_nat n.
Proof.
  intros Hn Hs. unfold char_value. destruct char_signed; cbn [andb].
  - specialize (Hs eq_refl). rewrite !bool_decide_false by (Z.to_euclidean_division_equations; lia). Z.to_euclidean_division_equations; lia.
  - Z.to_euclidean_division_equations; lia.
Qed.

(** What is left of the buffer moves to its end. *)
Lemma keep_leftover_ok pre seg post :
  Z.of_nat (length (pre ++ seg ++ post)) = bufsize → (2 * length seg ≤ length seg + length post)%nat ∨ seg = [] →
  ∃ pre', keep_leftover (Z.of_nat (length pre)) (Z.of_nat (length pre + length seg)) (pre ++ seg ++ post) =
      Done (Z.of_nat (length seg), pre' ++ seg) ∧ Z.of_nat (length (pre' ++ seg)) = bufsize.
Proof.
  intros Hlen Hov. unfold keep_leftover. rewrite !length_app in Hlen.
  replace (Z.of_nat (length pre + length seg) - Z.of_nat (length pre)) with (Z.of_nat (length seg)) by lia.
  rewrite bytes_at_ok by (rewrite !length_app; lia). cbn [mbind outcome_bind]. rewrite drop_app_length, take_app_length.
  rewrite decide_False; [|destruct Hov as [?| ->]; [|cbn]; lia].
  exists (take (length pre + length post) (pre ++ seg ++ post)).
  rewrite memcpy_ok by (rewrite ?length_app; lia). cbn [mbind outcome_bind].
  replace (Z.to_nat (bufsize - Z.of_nat (length seg))) with (length pre + length post)%nat by lia.
  rewrite (drop_ge (pre ++ seg ++ post)), app_nil_r by (rewrite !length_app; lia). split; [done|].
  rewrite length_app, length_take, !length_app. lia.
Qed.

(** The end of the loop over a buffer: enough records, or the rest of one. *)
Definition loop_end (nrecs recnum : Z) (X : list Z) (rem don : list (list Z * wlog_rec)) (left : Z) (buf : list Z) : Prop :=
  (nrecs ≠ 0 ∧ recnum + Z.of_nat (length don) = nrecs) ∨
  ((nrecs = 0 ∨ recnum + Z.of_nat (length don) < nrecs) ∧
   ∃ seg pre, all_bytes rem = X ++ seg ∧ left = Z.of_nat (length seg) ∧ buf = pre ++ seg ∧ (length seg < 452)%nat ∧ (X = [] → rem = [])).

Lemma loop_stop es X pre seg post (albuf : list Z) recnum u nrecs :
  all_bytes es = X ++ seg → X = [] ∨ pre = [] → Z.of_nat (length (pre ++ seg ++ post)) = bufsize → nrecs = 0 ∨ recnum < nrecs →
  (length seg < 452)%nat → (X = [] → es = [] ∧ seg = []) →
  ∃ rem don left buf' albuf', es = rem ++ don ∧
    ('(leftover, buf) ← keep_leftover (Z.of_nat (length pre)) (Z.of_nat (length pre + length seg)) (pre ++ seg ++ post);
     Done (leftover, buf, albuf, recnum, u)) = Done (left, buf', albuf', recnum + Z.of_nat (length don), calls don u) ∧
    length albuf' = length albuf ∧ Z.of_nat (length buf') = bufsize ∧ loop_end nrecs recnum X rem don left buf'.
Proof.
  intros Hes HX Hlen Hn Hseg H0. destruct (keep_leftover_ok pre seg post Hlen) as (pre' & -> & Hl').
  { destruct HX as [HX|HX]; [right; by apply H0|left]. subst pre. cbn in Hlen. rewrite length_app in Hlen. unfold bufsize, BSIZE in Hlen. lia. }
  exists es, [], (Z.of_nat (length seg)), (pre' ++ seg), albuf. rewrite app_nil_r. split_and!; [done| |done|done|].
  - cbn. by rewrite Z.add_0_r.
  - right. split; [cbn; by rewrite Z.add_0_r|]. exists seg, pre'. split_and!; try done. intros E. by apply H0.
Qed.

(** The two bytes of a length. *)
Lemma length_bytes pre seg n post :
  let hi := Z.of_nat n / 256 mod 256 in let lo := Z.of_nat n mod 256 in
  let buf := pre ++ (seg ++ [hi; lo]) ++ post in let cp := Z.of_nat (length pre + (length seg + 2)) in
  byte_at buf (cp - 2) = Done hi ∧ byte_at buf (cp - 1) = Done lo.
Proof.
  intros hi lo buf cp. split.
  - replace (cp - 2) with (Z.of_nat (length (pre ++ seg))) by (rewrite length_app; lia). subst buf.
    rewrite <- app_assoc, app_assoc. apply byte_at_app.
  - replace (cp - 1) with (Z.of_nat (length (pre ++ seg ++ [hi]))) by (rewrite !length_app; cbn; lia).
    replace buf with ((pre ++ seg ++ [hi]) ++ lo :: post) by (subst buf; by rewrite <- !app_assoc). apply byte_at_app.
Qed.

(** A record that is complete in the buffer. *)
Lemma records_step fuel nrecs pre seg body r post albuf recnum u :
  readable (body, r) → Z.of_nat (length albuf) = WLOG_REC_MAX_SIZE →
  let buf := pre ++ seg ++ entry_bytes body ++ post in let al := body ++ drop (length body) albuf in
  records_loop char_signed func (S fuel) nrecs (Z.of_nat (length pre)) (Z.of_nat (length pre + (length (seg ++ body) + 2))) buf albuf recnum u =
    let '(rval, u') := func r u in
    if decide (rval = WLOG_STOP_SCAN) then Done (0, buf, al, recnum, u')
    else if decide (nrecs ≠ 0 ∧ nrecs ≤ recnum + 1) then Done (0, buf, al, recnum + 1, u')
    else records_loop char_signed func fuel nrecs (Z.of_nat (length pre)) (Z.of_nat (length pre + length seg)) buf al (recnum + 1) u'.
Proof.
  intros ((Hb1 & Hb2) & Hsig & Hun) Hal buf al. cbn [fst snd] in *. cbn [records_loop].
  rewrite decide_False by lia. rewrite decide_False by lia.
  destruct (length_bytes pre (seg ++ body) (length body) post) as [Hhi Hlo]. pose proof (char_length _ Hb2 Hsig) as Hlen.
  replace (pre ++ ((seg ++ body) ++ _) ++ post) with buf in Hhi, Hlo by (subst buf; unfold entry_bytes; by rewrite <- !app_assoc).
  rewrite Hhi, Hlo. cbn [mbind outcome_bind]. rewrite Hlen. rewrite length_app. rewrite decide_False by lia.
  replace (Z.of_nat (length pre + (length seg + length body + 2)) - (Z.of_nat (length body) + 2)) with (Z.of_nat (length pre + length seg)) by lia.
  assert (bytes_at buf (Z.of_nat (length pre + length seg)) (Z.of_nat (length body)) = Done body) as ->.
  { subst buf. rewrite app_assoc, <- length_app. rewrite bytes_at_ok by (unfold entry_bytes; rewrite !length_app; lia).
    rewrite drop_app_length. unfold entry_bytes. by rewrite <- app_assoc, take_app_length. }
  cbn [mbind outcome_bind]. unfold WLOG_REC_MAX_SIZE, sizeof_wlog_rec, WLOG_MAX_PATH, WLOG_MAX_HOST, WLOG_MAX_PATTERN in Hal.
  rewrite memcpy_start by lia. cbn [mbind outcome_bind]. by rewrite Hun.
Qed.

Lemma records_loop_ok nrecs : ∀ fuel es X pre seg post albuf recnum u,
  Forall readable es → all_bytes es = X ++ seg → X = [] ∨ pre = [] → Z.of_nat (length (pre ++ seg ++ post)) = bufsize →
  Z.of_nat (length albuf) = WLOG_REC_MAX_SIZE → (length seg < fuel)%nat → nrecs = 0 ∨ recnum < nrecs →
  ∃ rem don left buf' albuf', es = rem ++ don ∧
    records_loop char_signed func fuel nrecs (Z.of_nat (length pre)) (Z.of_nat (length pre + length seg)) (pre ++ seg ++ post) albuf recnum u =
      Done (left, buf', albuf', recnum + Z.of_nat (length don), calls don u) ∧
    length albuf' = length albuf ∧ Z.of_nat (length buf') = bufsize ∧ loop_end nrecs recnum X rem don left buf'.
Proof.
  induction fuel as [|fuel IH]; intros es X pre seg post albuf recnum u Hok Hes HX Hlen Hal Hf Hn; [lia|].
  destruct (decide (length seg < 2)%nat) as [H2|H2].
  { cbn [records_loop]. rewrite decide_False by lia. rewrite decide_True by lia. apply loop_stop; try done; [lia|].
    intros ->. cbn in Hes. destruct es as [|e es]; [by destruct seg|]. apply Forall_cons in Hok as [[[He _] _] _].
    apply (f_equal length) in Hes. cbn in Hes. rewrite length_app in Hes. unfold entry_bytes in Hes. rewrite length_app in Hes. cbn in Hes. lia. }
  destruct es as [|[body r] es _] using rev_ind; [cbn in Hes; apply (f_equal length) in Hes; rewrite length_app in Hes; cbn in Hes; lia|].
  apply Forall_app in Hok as [Hok He%Forall_inv]. pose proof He as ((Hb1 & Hb2) & Hsig & _). cbn [fst snd] in *.
  pose proof Hes as Hes'. rewrite fmap_app, concat_app in Hes'. cbn [fmap list_fmap concat fst] in Hes'. rewrite app_nil_r in Hes'.
  set (n := length body) in *. unfold entry_bytes in Hes'. fold n in Hes'. rewrite app_assoc in Hes'.
  destruct (app_suffix X seg _ _ (eq_sym Hes')) as (seg0 & -> & Hseg0); [cbn; lia|].
  assert (length (entry_bytes body) = n + 2)%nat as Hel by (unfold entry_bytes; by rewrite length_app).
  destruct (decide (length seg0 < n)%nat) as [Hshort|Hfull].
  { cbn [records_loop]. rewrite length_app in *. cbn [length] in *. rewrite decide_False by lia. rewrite decide_False by lia.
    destruct (length_bytes pre seg0 n post) as [-> ->]. cbn [mbind outcome_bind]. rewrite (char_length n Hb2 Hsig), decide_True by lia.
    replace (length seg0 + 2)%nat with (length (seg0 ++ [Z.of_nat n / 256 mod 256; Z.of_nat n mod 256])) by by rewrite length_app.
    apply loop_stop; [done|done|rewrite !length_app in *; lia|done|rewrite length_app; cbn; lia|].
    intros ->. exfalso. apply (f_equal length) in Hseg0. cbn in Hseg0. rewrite length_app in Hseg0. lia. }
  destruct (app_suffix X seg0 _ body Hseg0) as (seg1 & -> & Hseg1); [lia|].
  replace (pre ++ ((seg1 ++ body) ++ _) ++ post) with (pre ++ seg1 ++ (entry_bytes body ++ post)) in * by by (unfold entry_bytes; fold n; rewrite <- !app_assoc).
  assert (length ((seg1 ++ body) ++ [(Z.of_nat n / 256 mod 256)%Z; (Z.of_nat n mod 256)%Z]) = length (seg1 ++ body) + 2)%nat as El by by rewrite length_app.
  rewrite El in *. rewrite (records_step fuel nrecs pre seg1 body r post albuf recnum u He Hal). fold n.
  pose proof (Hgo r u) as Hstop. destruct (func r u) as [rval u'] eqn:Eu. cbn in Hstop. rewrite decide_False by done.
  set (al := body ++ drop n albuf). assert (length al = length albuf) as Hal2.
  { unfold WLOG_REC_MAX_SIZE, sizeof_wlog_rec, WLOG_MAX_PATH, WLOG_MAX_HOST, WLOG_MAX_PATTERN in Hal. subst al. rewrite length_app, length_drop. fold n. lia. }
  destruct (decide (nrecs ≠ 0 ∧ nrecs ≤ recnum + 1)) as [[Hn0 Hn1]|Hmore].
  { exists es, [(body, r)], 0, (pre ++ seg1 ++ entry_bytes body ++ post), al. split_and!; [done|cbn; by rewrite Eu|done|done|left; cbn; lia]. }
  rewrite length_app in Hf.
  destruct (IH es X pre seg1 (entry_bytes body ++ post) al (recnum + 1) u') as (rem & don & left & buf' & al' & -> & Hrun & Hal' & Hbuf & Hend);
    [done|done|done|done|by rewrite Hal2|lia|lia|].
  rewrite Hrun. exists rem, (don ++ [(body, r)]), left, buf', al'. split_and!; [by rewrite <- app_assoc| |lia|done|].
  - unfold calls. rewrite foldr_app. cbn. rewrite Eu, length_app. do 3 f_equal. cbn. lia.
  - unfold loop_end in *. rewrite length_app. cbn [length].
    replace (recnum + Z.of_nat (length don + 1)) with (recnum + 1 + Z.of_nat (length don)) by lia. done.
Qed.

(** The records that are asked for, from the end. *)
Definition wanted (nrecs recnum : Z) (es : list (list Z * wlog_rec)) : list (list Z * wlog_rec) :=
  if decide (nrecs = 0) then es else drop (length es - Z.to_nat (nrecs - recnum)) es.

Lemma wanted_app nrecs recnum rem don :
  nrecs = 0 ∨ recnum + Z.of_nat (length don) ≤ nrecs →
  wanted nrecs recnum (rem ++ don) = wanted nrecs (recnum + Z.of_nat (length don)) rem ++ don.
Proof.
  intros Hn. unfold wanted. case_decide; [done|]. destruct Hn as [?|Hn]; [done|]. rewrite length_app, drop_app_le by lia.
  do 2 f_equal. lia.
Qed.

Lemma wanted_none nrecs es : nrecs ≠ 0 → wanted nrecs nrecs es = [].
Proof. intros Hn. unfold wanted. rewrite decide_False, Z.sub_diag by done. apply drop_ge. lia. Qed.

(** The next buffer: the end of what is not yet read goes in front of what is left. *)
Lemma next_buffer X Y seg buf pre :
  buf = pre ++ seg → Z.of_nat (length buf) = bufsize → (length seg < 452)%nat → X ≠ [] →
  ∃ X1 X2 pre', X = X1 ++ X2 ∧ X2 ≠ [] ∧ (X1 = [] ∨ pre' = []) ∧ Z.of_nat (length (pre' ++ X2 ++ seg)) = bufsize ∧
    (if decide (Z.of_nat (length X) + Z.of_nat (length seg) < bufsize)
     then (bufsize - (Z.of_nat (length X) + Z.of_nat (length seg)), 0)
     else (0, Z.of_nat (length X) - (bufsize - Z.of_nat (length seg)))) = (Z.of_nat (length pre'), Z.of_nat (length X1)) ∧
    take (Z.to_nat (bufsize - Z.of_nat (length pre') - Z.of_nat (length seg))) (drop (length X1) (X ++ Y)) = X2 ∧
    memcpy buf (Z.of_nat (length pre')) X2 = Done (pre' ++ X2 ++ seg).
Proof.
  intros -> Hlen Hseg HX. rewrite length_app in Hlen. assert (0 < length X)%nat as HX0 by (destruct X; [done|cbn; lia]).
  assert (bufsize = 16384) as Hsize by done. case_decide as Hcase.
  - exists [], X, (take (length pre - length X) pre). rewrite !length_app, length_take.
    split_and!; [done|done|by left|lia|f_equal; cbn; lia| |].
    + cbn [length]. rewrite drop_0. replace (Z.to_nat _) with (length X) by lia. by rewrite take_app_length.
    + rewrite <- (take_drop (length pre - length X) pre) at 1. rewrite <- app_assoc.
      rewrite (memcpy_after' _ (take (length pre - length X) pre)) by (rewrite ?length_app, ?length_take, ?length_drop; lia).
      do 3 f_equal. rewrite drop_app_ge by (rewrite length_drop; lia). rewrite length_drop.
      by replace (length X - (length pre - (length pre - length X)))%nat with 0%nat by lia.
  - set (n := (length X - length pre)%nat). exists (take n X), (drop n X), []. rewrite !length_app, length_take, length_drop. cbn [length app].
    split_and!; [by rewrite take_drop| |by right|lia|f_equal; lia| |].
    + intros E. apply (f_equal length) in E. rewrite length_drop in E. cbn in E. lia.
    + rewrite Nat.min_l by lia. rewrite drop_app_le by lia. replace (Z.to_nat _) with (length (drop n X)) by (rewrite length_drop; lia).
      by rewrite take_app_length.
    + rewrite memcpy_start by (rewrite length_drop, length_app; lia). do 2 f_equal. rewrite length_drop.
      by rewrite drop_app_ge, (proj2 (Nat.sub_0_le _ _)) by lia.
Qed.

Lemma scan_loop_ok nrecs : ∀ fuel es X Y seg pre bufstart buf albuf recnum u s,
  Forall readable es → all_bytes es = X ++ seg → bytes s = X ++ Y → answers s = [] → Z.of_nat (length X) ≤ INT_MAX →
  (length seg < 452)%nat → (X = [] → es = []) → (X ≠ [] → bufstart = 0) → buf = pre ++ seg → Z.of_nat (length buf) = bufsize →
  Z.of_nat (length albuf) = WLOG_REC_MAX_SIZE → (length X < fuel)%nat → nrecs = 0 ∨ recnum ≤ nrecs →
  ∃ p, scan_loop char_signed func fuel nrecs bufstart (Z.of_nat (length X)) (Z.of_nat (length seg)) buf albuf recnum u s =
    Done (0, calls (wanted nrecs recnum es) u, set_rpos p s).
Proof.
  induction fuel as [|fuel IH]; intros es X Y seg pre bufstart buf albuf recnum u s Hok Hes Hs Ha Hmax Hseg HX0 Hbs Hbuf Hlen Hal Hf Hn; [lia|].
  cbn [scan_loop]. assert (set_rpos (rpos s) s = s) as Hs0 by by destruct s. case_decide as Hgo'.
  2:{ exists (rpos s). rewrite Hs0. destruct (decide (X = [])) as [E|E]; [by rewrite HX0; [unfold wanted; case_decide|]|].
      assert (0 < length X)%nat by (destruct X; [done|cbn; lia]). assert (nrecs ≠ 0 ∧ recnum = nrecs) as [Hn0 ->] by lia. by rewrite wanted_none. }
  destruct Hgo' as [Hn' Hpos]. assert (X ≠ []) as HX by (by intros ->). rewrite (Hbs HX), u32_small by clia.
  destruct (next_buffer X Y seg buf pre Hbuf Hlen Hseg HX) as (X1 & X2 & pre' & -> & HX2 & HX1 & Hlen' & -> & Hdata & Hcpy).
  unfold call. rewrite Ha. cbn [answers bytes]. rewrite Ha. cbn [bytes]. rewrite Hs, Nat2Z.id, Hdata, Hcpy. cbn [mbind outcome_bind].
  set (s' := set_rpos _ s).
  destruct (records_loop_ok nrecs (S (Z.to_nat bufsize)) es X1 pre' (X2 ++ seg) [] albuf recnum u)
    as (rem & don & left & buf' & albuf' & -> & Hrun & Hal' & Hbuf' & Hend); try done.
  { by rewrite app_assoc. }
  { by rewrite app_nil_r. }
  { rewrite !length_app in *. lia. }
  rewrite app_nil_r in Hrun. replace (Z.of_nat (length pre' + length (X2 ++ seg))) with bufsize in Hrun by (rewrite length_app in Hlen'; lia).
  rewrite Hrun. cbn [mbind outcome_bind]. rewrite wanted_app by (destruct Hend as [[? ?]|[? _]]; lia).
  assert (0 < length X2)%nat by (destruct X2; [done|cbn; lia]). rewrite length_app in Hf. unfold calls. rewrite foldr_app. fold (calls don u).
  destruct Hend as [[Hn0 Hdone]|(Hmore & seg' & pre2 & Hrem & -> & -> & Hseg' & Hnil)].
  - destruct fuel as [|fuel]; [lia|]. cbn [scan_loop]. rewrite decide_False by lia. rewrite Hdone, wanted_none by done. by eexists.
  - destruct (IH rem X1 (X2 ++ Y) seg' pre2 (Z.of_nat (length pre')) (pre2 ++ seg') albuf' (recnum + Z.of_nat (length don)) (calls don u) s')
      as [p Hp]; try done.
    + by apply Forall_app in Hok as [? _].
    + cbn. by rewrite Hs, app_assoc.
    + rewrite length_app in Hmax. lia.
    + intros HX1'. destruct HX1 as [?| ->]; done.
    + by rewrite Hal'.
    + lia.
    + lia.
    + exists p. rewrite Hp. done.
Qed.
End scan.

(** ** The theorems *)

Lemma calls_foldl {U} (func : wlog_rec → U → Z * U) es u : calls func es u = foldl (λ u r, (func r u).2) u (reverse es.*2).
Proof.
  induction es as [|e es IH]; [done|]. change (calls func (e :: es) u) with (func e.2 (calls func es u)).2.
  rewrite fmap_cons, reverse_cons, foldl_snoc. by rewrite IH.
Qed.

Lemma log_readable char_signed l rs :
  log_of l rs → (char_signed = true → Forall (λ r, w_pathlen r + w_hostlen r + w_patternlen r < 100) rs) →
  ∃ es, Forall (readable char_signed) es ∧ l = concat ((λ e, entry_bytes e.1) <$> es) ∧ es.*2 = rs.
Proof.
  intros (bodies & Hb & ->). induction Hb as [|body r bodies rs He Hb IH]; intros Hs; [by exists []|].
  destruct IH as (es & Hes & Hl & Hrs). { intros E. by apply Forall_cons in Hs as [_ ?]. }
  exists ((body, r) :: es). cbn [fmap list_fmap concat fst snd]. rewrite Hl, Hrs. split_and!; [|done|done]. constructor; [|done].
  pose proof (entry_length _ _ He) as Hlen. destruct He as (path & host & pattern & Hr & Hp). split_and!; cbn [fst snd]; [lia|lia| |].
  - intros E. apply Forall_cons in Hs as [Hs _]; [|done]. destruct Hp as (hdr & -> & Hh & _).
    destruct Hr as [_ _ _ (_ & Hp1 & _) (_ & Ht1 & _) (_ & Hq1 & _)]. rewrite !length_app. lia.
  - intros rest. by eapply unpack_ok.
Qed.

(** All records of a log, or as many as are asked for. *)
Lemma scan_backward_ok char_signed {U} (func : wlog_rec → U → Z * U) buf albuf nrecs u s rs :
  (∀ r u, (func r u).1 ≠ WLOG_STOP_SCAN) → log_of (bytes s) rs → answers s = [] → Z.of_nat (length (bytes s)) ≤ INT_MAX →
  (char_signed = true → Forall (λ r, w_pathlen r + w_hostlen r + w_patternlen r < 100) rs) →
  Z.of_nat (length buf) = bufsize → Z.of_nat (length albuf) = WLOG_REC_MAX_SIZE → 0 ≤ nrecs →
  ∃ p, wlog_scan_backward char_signed func buf albuf nrecs u s =
    Done (0, foldl (λ u r, (func r u).2) u ((if decide (nrecs = 0) then id else take (Z.to_nat nrecs)) (reverse rs)), set_rpos p s).
Proof.
  intros Hgo Hlog Ha Hmax Hs Hbuf Hal Hn. destruct (log_readable char_signed _ _ Hlog Hs) as (es & Hok & Hl & <-).
  unfold wlog_scan_backward, call. rewrite Ha. rewrite Ha. rewrite wrap32_small, decide_False by clia.
  set (s' := set_rpos _ s).
  destruct (scan_loop_ok char_signed func Hgo nrecs (S (length (bytes s))) es (bytes s) [] [] buf 0 buf albuf 0 u s') as [p Hp]; try done.
  { by rewrite app_nil_r. }
  { by rewrite app_nil_r. }
  { cbn. lia. }
  { intros E. destruct es as [|[b r] es]; [done|]. rewrite E in Hl. cbn in Hl. unfold entry_bytes in Hl. by destruct b. }
  { by rewrite app_nil_r. }
  { lia. }
  { lia. }
  exists p. cbn [length] in Hp. change (Z.of_nat 0) with 0 in Hp. rewrite Hp, calls_foldl. unfold wanted. rewrite Z.sub_0_r.
  case_decide; [done|]. by rewrite fmap_drop, take_reverse, length_fmap.
Qed.

(** Writing several records, the buffer on the stack being any bytes each time. *)
Fixpoint write_all (recs : list (list Z * wlog_rec)) (s : wlog) : outcome wlog :=
  match recs with
  | [] => Done s
  | (wbuf, r) :: recs' => '(off, s) ← wlog_record_write wbuf r (-1) s; write_all recs' s
  end.

Definition writable (x : list Z * wlog_rec) : Prop := stack_buf x.1 ∧ ∃ path host pattern, rec_ok x.2 path host pattern.

Lemma write_all_ok recs : ∀ s rs,
  Forall writable recs → answers s = [] → log_of (bytes s) rs → Z.of_nat (length (bytes s)) + 228 * Z.of_nat (length recs) ≤ INT_MAX →
  ∃ l, write_all recs s = Done (set_bytes l s) ∧ log_of l (rs ++ recs.*2) ∧
    Z.of_nat (length l) ≤ Z.of_nat (length (bytes s)) + 228 * Z.of_nat (length recs).
Proof.
  induction recs as [|[wbuf r] recs IH]; intros s rs Hok Ha Hlog Hmax.
  { exists (bytes s). rewrite app_nil_r. split_and!; [by destruct s|done|lia]. }
  apply Forall_cons in Hok as [(Hw & path & host & pattern & Hr) Hok]. cbn [fst snd length] in *.
  destruct (record_append wbuf r path host pattern (-1) s) as (body & He & Hrun); [done|done|lia|done|lia|].
  cbn [write_all]. rewrite Hrun. cbn [mbind outcome_bind]. pose proof (entry_length _ _ He) as Hlen.
  assert (length (entry_bytes body) = length body + 2)%nat as Hel by (unfold entry_bytes; by rewrite length_app).
  destruct (IH (set_bytes (bytes s ++ entry_bytes body) s) (rs ++ [r])) as (l & -> & Hl & Hll); [done|done|by apply log_of_snoc| |].
  { cbn [bytes set_bytes]. rewrite length_app. lia. }
  exists l. rewrite <- app_assoc in Hl. cbn [bytes set_bytes] in Hll. rewrite length_app in Hll. split_and!; [done|done|lia].
Qed.

(** C25: The records that wlog_record_write() appends to an empty log are the ones that
    wlog_scan_backward() finds in it, from the last to the first, with every field as
    it was: all of them, or as many as are asked for.  The log may be longer than the
    buffer and its records may lie across the ends of the buffers.  The records fit
    their bit fields: a process number below 131072, a path of at most 127 and a
    pattern of at most 63 characters; where char is signed, the strings of a record
    have fewer than 100 characters.  No call fails, the log fits an int, and the
    function that is called for the records does not stop the scan. *)
Theorem wlog_write_scan char_signed {U} (func : wlog_rec → U → Z * U) recs buf albuf nrecs u s :
  (∀ r u, (func r u).1 ≠ WLOG_STOP_SCAN) → Forall writable recs → bytes s = [] → answers s = [] →
  228 * Z.of_nat (length recs) ≤ INT_MAX →
  (char_signed = true → Forall (λ x, w_pathlen x.2 + w_hostlen x.2 + w_patternlen x.2 < 100) recs) →
  Z.of_nat (length buf) = bufsize → Z.of_nat (length albuf) = WLOG_REC_MAX_SIZE → 0 ≤ nrecs →
  ∃ s1 s2, write_all recs s = Done s1 ∧
    wlog_scan_backward char_signed func buf albuf nrecs u s1 =
      Done (0, foldl (λ u r, (func r u).2) u ((if decide (nrecs = 0) then id else take (Z.to_nat nrecs)) (reverse recs.*2)), s2).
Proof.
  intros Hgo Hok Hb Ha Hmax Hs Hbuf Hal Hn. destruct (write_all_ok recs s [] Hok Ha) as (l & Hrun & Hlog & Hlen).
  { exists []. by rewrite Hb. }
  { rewrite Hb. cbn. lia. }
  rewrite Hb in Hlen. cbn in Hlen. exists (set_bytes l s).
  destruct (scan_backward_ok char_signed func buf albuf nrecs u (set_bytes l s) recs.*2) as [p Hp]; try done.
  - cbn. lia.
  - intros E. by apply Forall_fmap, Hs.
  - eexists. split; [done|]. exact Hp.
Qed.

(** Overlaying a record at the offset that its write returned changes this record
    in the log to the new one, when its strings are the same, and leaves the others
    and the length of the file as they are. *)
Theorem wlog_record_update wbuf l1 l2 body rs1 rs2 r r' path host pattern s :
  stack_buf wbuf → log_of l1 rs1 → log_of l2 rs2 → rec_ok r path host pattern → packed body r path host pattern →
  rec_ok r' path host pattern → bytes s = l1 ++ entry_bytes body ++ l2 → answers s = [] → Z.of_nat (length l1) ≤ INT_MAX →
  ∃ s', wlog_record_write wbuf r' (Z.of_nat (length l1)) s = Done (Z.of_nat (length l1), s') ∧
    log_of (bytes s') (rs1 ++ r' :: rs2) ∧ length (bytes s') = length (bytes s).
Proof.
  intros Hw (b1 & Hb1 & ->) (b2 & Hb2 & ->) Hr Hp Hr' Hs Ha Hmax.
  destruct (record_overlay wbuf r r' path host pattern body _ _ s Hw Hr Hp Hr' Hs Ha Hmax) as (body' & p & Hp' & Hlen & Hrun).
  eexists. split; [exact Hrun|]. cbn [bytes set_rpos set_bytes]. split.
  - exists (b1 ++ body' :: b2). split; [apply Forall2_app; [done|constructor; [|done]]; by exists path, host, pattern|].
    by rewrite fmap_app, concat_app.
  - rewrite Hs. unfold entry_bytes. rewrite !length_app, Hlen. done.
Qed.

(** A record keeps its numbers only modulo the widths of the bit fields: a process
    number modulo 131072, the length of the path modulo 128 and that of the pattern
    modulo 64, so that a path of the 128 characters it may have, and a pattern of 64,
    are lost. *)
Theorem wlog_rec_pack_widths r wbuf :
  stack_buf wbuf → is_i32 (w_pid r) → is_i32 (w_pathlen r) → is_i32 (w_patternlen r) →
  ∃ reclen buf, wlog_rec_pack r wbuf false = Done (reclen, buf) ∧
    get_field buf Dpid = Done (w_pid r mod 131072) ∧
    get_field buf Dpathlen = Done (if decide (0 < w_pathlen r) then w_pathlen r mod WLOG_MAX_PATH else 0) ∧
    get_field buf Dpatternlen = Done (if decide (0 < w_patternlen r) then w_patternlen r mod WLOG_MAX_PATTERN else 0).
Proof.
  intros Hw H1 H2 H3. destruct (pack_header r wbuf (stack_header _ Hw)) as (b & _ & _ & _ & Hf & Hp).
  eexists _, b. split; [apply (Hp false)|]. destruct Hf. unfold len_field, WLOG_MAX_PATH, WLOG_MAX_PATTERN in *.
  rewrite f_pid0, f_pathlen0, f_patternlen0. change (2 ^ 17) with 131072. change (2 ^ 7) with 128. change (2 ^ 6) with 64.
  unfold u32. split_and!; f_equal; repeat case_decide; try done; Z.to_euclidean_division_equations; lia.
Qed.

(** The low byte of the length is read as a negative number. *)
Lemma signed_length {U} (func : wlog_rec → U → Z * U) fuel nrecs pre seg n albuf recnum u :
  (128 ≤ n < 256)%nat →
  let b := [Z.of_nat n / 256 mod 256; Z.of_nat n mod 256] in Z.of_nat (length (pre ++ seg ++ b)) = bufsize →
  records_loop true func (S fuel) nrecs (Z.of_nat (length pre)) bufsize (pre ++ seg ++ b) albuf recnum u = Fault.
Proof.
  intros Hn b Hl. assert (b = [0; Z.of_nat n]) as Hb.
  { subst b. by rewrite (Z.div_small (Z.of_nat n)), (Z.mod_small (Z.of_nat n)) by lia. }
  clearbody b. subst b. set (b := [0; Z.of_nat n]).
  cbn [records_loop]. rewrite !length_app in Hl. cbn [length] in Hl. rewrite decide_False by lia. rewrite decide_False by lia.
  assert (byte_at (pre ++ seg ++ b) (bufsize - 2) = Done 0) as ->.
  { rewrite app_assoc. replace (bufsize - 2) with (Z.of_nat (length (pre ++ seg))) by (rewrite length_app; lia). apply byte_at_app. }
  assert (byte_at (pre ++ seg ++ b) (bufsize - 1) = Done (Z.of_nat n)) as ->.
  { replace (pre ++ seg ++ b) with ((pre ++ seg ++ [0]) ++ [Z.of_nat n]) by by rewrite <- !app_assoc.
    replace (bufsize - 1) with (Z.of_nat (length (pre ++ seg ++ [0]))) by (rewrite !length_app; cbn; lia). apply byte_at_app. }
  cbn [mbind outcome_bind]. unfold char_value. cbn [andb]. rewrite (bool_decide_false (128 ≤ 0)) by lia. rewrite (bool_decide_true (128 ≤ Z.of_nat n)) by lia.
  rewrite decide_False by lia. unfold bytes_at. by rewrite decide_False by lia.
Qed.

(** Where char is signed, a log whose last record has 128 bytes or more, that is 100
    characters in its strings, cannot be scanned: the low byte of the length is read
    as a negative number, and memcpy() is called with it as the size. *)
Theorem wlog_scan_signed_char {U} (func : wlog_rec → U → Z * U) l body r buf albuf nrecs u s :
  bytes s = l ++ entry_bytes body → entry_of body r → (128 ≤ length body)%nat → answers s = [] →
  Z.of_nat (length (bytes s)) ≤ INT_MAX → Z.of_nat (length buf) = bufsize → 0 ≤ nrecs →
  wlog_scan_backward true func buf albuf nrecs u s = Fault.
Proof.
  intros Hb He Hlong Ha Hmax Hbuf Hn. pose proof (entry_length _ _ He) as Hlen. set (n := length body) in *.
  assert (length (bytes s) = length l + n + 2)%nat as Hbl by (rewrite Hb; unfold entry_bytes; rewrite !length_app; cbn; fold n; lia).
  unfold wlog_scan_backward, call. rewrite Ha. rewrite Ha. rewrite wrap32_small, decide_False by clia.
  cbn [scan_loop]. rewrite decide_True by lia. rewrite u32_small by clia.
  destruct (next_buffer (bytes s) [] [] buf buf) as (X1 & X2 & pre & HX & HX2 & HX1 & Hl & Hif & Hdata & Hcpy); [by rewrite app_nil_r|done|cbn; lia|by intros E; rewrite E in Hbl; cbn in Hbl; lia|].
  cbn [length] in Hif, Hdata. change (Z.of_nat 0) with 0 in Hif, Hdata. rewrite Hif. unfold call. cbn [answers set_rpos]. rewrite Ha. cbn [answers set_rpos]. rewrite Ha.
  rewrite app_nil_r in Hdata. cbn [bytes set_rpos]. rewrite Nat2Z.id, Hdata, Hcpy. cbn [mbind outcome_bind].
  rewrite app_nil_r in *. assert (2 ≤ length X2)%nat as HX2l.
  { destruct HX1 as [-> | ->]; [rewrite HX in Hbl; cbn in Hbl; lia|]. unfold bufsize, BSIZE in Hl. cbn in Hl. lia. }
  unfold entry_bytes in Hb. fold n in Hb. rewrite HX, app_assoc in Hb.
  destruct (app_suffix X1 X2 _ [Z.of_nat n / 256 mod 256; Z.of_nat n mod 256] Hb) as (seg & -> & _); [cbn; lia|].
  by rewrite signed_length by (done || lia).
Qed.

(** One buffer of a scan whose function stops at its first record. *)
Lemma scan_stop_step char_signed {U} (func : wlog_rec → U → Z * U) fuel X Y Z0 body r buf albuf u u' s :
  readable char_signed (body, r) → X = Z0 ++ entry_bytes body → bytes s = X ++ Y → answers s = [] → Z.of_nat (length X) ≤ INT_MAX →
  Z.of_nat (length buf) = bufsize → Z.of_nat (length albuf) = WLOG_REC_MAX_SIZE → func r u = (WLOG_STOP_SCAN, u') →
  ∃ n buf' albuf' bs p, n = (if decide (Z.of_nat (length X) < bufsize) then 0%nat else (length X - Z.to_nat bufsize)%nat) ∧
    scan_loop char_signed func (S fuel) 0 0 (Z.of_nat (length X)) 0 buf albuf 0 u s =
      scan_loop char_signed func fuel 0 bs (Z.of_nat n) 0 buf' albuf' 0 u' (set_rpos p s) ∧
    Z.of_nat (length buf') = bufsize ∧ Z.of_nat (length albuf') = WLOG_REC_MAX_SIZE ∧ (n ≠ 0%nat → bs = 0).
Proof.
  intros Hok HX Hs Ha Hmax Hbuf Hal Hstop. pose proof Hok as ((Hb1 & Hb2) & _). cbn [fst] in *.
  assert (length (entry_bytes body) = length body + 2)%nat as Hel by (unfold entry_bytes; by rewrite length_app).
  assert (length X = length Z0 + (length body + 2))%nat as HXl by (rewrite HX, length_app; lia).
  cbn [scan_loop]. destruct (decide ((0 = 0 ∨ 0 < 0) ∧ 0 < Z.of_nat (length X))) as [_|Hno]; [|lia]. rewrite u32_small by clia.
  destruct (next_buffer X Y [] buf buf) as (X1 & X2 & pre & HX12 & HX2 & HX1 & Hl & Hif & Hdata & Hcpy); [by rewrite app_nil_r|done|cbn; lia|by intros E; rewrite E in HXl; cbn in HXl; lia|].
  cbn [length] in Hif, Hdata. change (Z.of_nat 0) with 0 in Hif, Hdata. rewrite Hif. unfold call. rewrite Ha. cbn [answers]. rewrite Ha.
  cbn [bytes]. rewrite Hs, Nat2Z.id, Hdata, Hcpy. cbn [mbind outcome_bind]. rewrite app_nil_r in Hl |- *.
  assert (length X = length X1 + length X2)%nat as Hl12 by (rewrite HX12; apply length_app). rewrite length_app in Hl.
  assert (bufsize = 16384) as Hsize by done.
  destruct (app_suffix X1 X2 Z0 (entry_bytes body)) as (seg & HX2' & _); [by rewrite <- HX12|destruct HX1 as [-> | ->]; cbn in *; lia|].
  pose proof (records_step char_signed func (Z.to_nat bufsize) 0 pre seg body r [] albuf 0 u Hok Hal) as Hstep.
  cbv zeta in Hstep. rewrite Hstop, decide_True, app_nil_r, <- HX2' in Hstep by done.
  replace (Z.of_nat (length pre + (length (seg ++ body) + 2))) with bufsize in Hstep by (rewrite HX2', length_app, Hel in Hl; rewrite length_app; lia).
  rewrite Hstep. cbn [mbind outcome_bind].
  eexists (length X1), _, _, _, _. split_and!; [|reflexivity| | |].
  - rewrite Hsize in *. destruct (decide (Z.of_nat (length X) < 16384)), HX1 as [E1|E1]; rewrite E1 in *; cbn [length] in *; lia.
  - rewrite length_app. lia.
  - unfold WLOG_REC_MAX_SIZE, sizeof_wlog_rec, WLOG_MAX_PATH, WLOG_MAX_HOST, WLOG_MAX_PATTERN in *. rewrite length_app, length_drop. lia.
  - intros Hn0. destruct HX1 as [-> | ->]; done.
Qed.

(** A function that returns WLOG_STOP_SCAN does not stop the scan of a log that is
    longer than the buffer: only the rest of the buffer is skipped, and the function
    is called again with a record of the buffer before. *)
Theorem wlog_scan_stop_goes_on char_signed {U} (func : wlog_rec → U → Z * U) l1 l2 rs1 rs2 r1 r2 buf albuf u s :
  bytes s = l1 ++ l2 → log_of l1 (rs1 ++ [r1]) → log_of l2 (rs2 ++ [r2]) → Z.of_nat (length l2) = bufsize → Z.of_nat (length l1) < bufsize →
  (char_signed = true → Forall (λ r, w_pathlen r + w_hostlen r + w_patternlen r < 100) (rs1 ++ [r1] ++ rs2 ++ [r2])) →
  answers s = [] → Z.of_nat (length buf) = bufsize → Z.of_nat (length albuf) = WLOG_REC_MAX_SIZE →
  (∀ r u, (func r u).1 = WLOG_STOP_SCAN) →
  ∃ s', wlog_scan_backward char_signed func buf albuf 0 u s = Done (0, (func r1 (func r2 u).2).2, s').
Proof.
  intros Hs Hl1 Hl2 Hsize Hsmall Hsig Ha Hbuf Hal Hstop. assert (bufsize = 16384) as Hbs by done.
  assert (∀ l rs r, log_of l (rs ++ [r]) → (char_signed = true → Forall (λ r, w_pathlen r + w_hostlen r + w_patternlen r < 100) (rs ++ [r])) →
    ∃ Z0 body, l = Z0 ++ entry_bytes body ∧ readable char_signed (body, r)) as Hlast.
  { intros l rs r Hl Hc. destruct (log_readable char_signed _ _ Hl Hc) as (es & Hes & -> & Hrs).
    destruct es as [|[body r'] es _] using rev_ind; [by destruct rs|]. rewrite fmap_app in Hrs. apply app_inj_tail in Hrs as [_ [= ->]].
    exists (concat ((λ e, entry_bytes e.1) <$> es)), body. rewrite fmap_app, concat_app. cbn. rewrite app_nil_r. split; [done|].
    by apply Forall_app in Hes as [_ ?%Forall_inv]. }
  destruct (Hlast l1 rs1 r1 Hl1) as (Z1 & b1 & -> & Hok1).
  { intros E. specialize (Hsig E). rewrite !Forall_app in *. naive_solver. }
  destruct (Hlast l2 rs2 r2 Hl2) as (Z2 & b2 & -> & Hok2).
  { intros E. specialize (Hsig E). rewrite !Forall_app in *. naive_solver. }
  set (l1 := Z1 ++ entry_bytes b1) in *. set (l2 := Z2 ++ entry_bytes b2) in *.
  assert (length (bytes s) = length l1 + length l2)%nat as Hbl by (rewrite Hs; apply length_app).
  assert (0 < length l1)%nat as Hpos by (subst l1; unfold entry_bytes; rewrite !length_app; cbn; lia).
  unfold wlog_scan_backward, call. rewrite Ha. rewrite Ha. rewrite wrap32_small, decide_False by clia.
  pose proof (Hstop r2 u) as H2. destruct (func r2 u) as [v2 u2] eqn:E2. cbn in H2. subst v2.
  destruct (scan_stop_step char_signed func (length (bytes s)) (bytes s) [] (l1 ++ Z2) b2 r2 buf albuf u u2 (set_rpos (Z.of_nat (length (bytes s))) s))
    as (n & buf' & albuf' & bs & p & Hn & -> & Hbuf' & Hal' & Hbs0); try done; [by rewrite Hs, <- app_assoc|by rewrite app_nil_r|clia|].
  rewrite decide_False in Hn by lia. assert (n = length l1) as -> by lia. rewrite Hbs0 by lia.
  pose proof (Hstop r1 u2) as H1. destruct (func r1 u2) as [v1 u1] eqn:E1. cbn in H1. subst v1.
  destruct (length (bytes s)) as [|m] eqn:Em; [lia|].
  destruct (scan_stop_step char_signed func m l1 l2 Z1 b1 r1 buf' albuf' u2 u1 (set_rpos p (set_rpos (Z.of_nat (S m)) s)))
    as (n & buf2 & albuf2 & bs2 & p2 & Hn2 & -> & _); try done; [clia|].
  rewrite decide_True in Hn2 by done. subst n. destruct m as [|m]; [lia|]. cbn [scan_loop]. rewrite decide_False by (cbn; lia).
  cbn [snd]. rewrite E1. by eexists.
Qed.

(** ** Witnesses *)

(** A record with a path of [n] characters. *)
Definition demo (n : nat) (done : Z) : wlog_rec :=
  WlogRec 42 4096 512 1 done 0 (array 9 []) 0 (array 129 (replicate n 97)) (Z.of_nat n) (array 65 []) 0.

Definition zeros (n : Z) : list Z := replicate (Z.to_nat n) 0.

Definition demo_body (n : nat) (done : Z) : list Z :=
  match wlog_rec_pack (demo n done) (zeros 452) true with Done (k, b) => take (Z.to_nat k) b | _ => [] end.

Lemma zeros_length n : 0 ≤ n → Z.of_nat (length (zeros n)) = n.
Proof. intros Hn. unfold zeros. rewrite length_replicate. lia. Qed.

Lemma zeros_stack : stack_buf (zeros 452).
Proof. split; [apply Forall_replicate; by vm_compute|reflexivity]. Qed.

Lemma demo_ok n done : (n < 128)%nat → 0 ≤ done ≤ 1 → rec_ok (demo n done) (replicate n 97) [] [].
Proof.
  intros Hn Hd. split; cbn; rewrite ?length_replicate; unfold WLOG_MAX_PATH, WLOG_MAX_HOST, WLOG_MAX_PATTERN; split_and?; try done; clia.
Qed.

Lemma demo_entry n done : (n < 128)%nat → 0 ≤ done ≤ 1 →
  packed (demo_body n done) (demo n done) (replicate n 97) [] [] ∧ length (demo_body n done) = (28 + n)%nat.
Proof.
  intros Hn Hd. unfold demo_body.
  destruct (pack_ok (demo n done) (replicate n 97) [] [] (zeros 452)) as (body & rest & -> & Hp & _);
    [by apply demo_ok|apply stack_header, zeros_stack|by vm_compute|].
  rewrite Nat2Z.id, take_app_length. split; [done|]. destruct Hp as (hdr & -> & Hl & _). rewrite !length_app, Hl, length_replicate. cbn. lia.
Qed.

Definition keep_all (r : wlog_rec) (u : list wlog_rec) : Z * list wlog_rec := (WLOG_CONTINUE_SCAN, u ++ [r]).
Definition count_calls (r : wlog_rec) (u : Z) : Z * Z := (WLOG_STOP_SCAN, u + 1).

Lemma wlog_write_scan_witness :
  ∃ s1 s2, write_all [(zeros 452, demo 3 0); (zeros 452, demo 5 1)] (Wlog [] 0 []) = Done s1 ∧
    wlog_scan_backward true keep_all (zeros bufsize) (zeros WLOG_REC_MAX_SIZE) 0 [] s1 = Done (0, [demo 5 1; demo 3 0], s2).
Proof.
  apply (wlog_write_scan true keep_all [(zeros 452, demo 3 0); (zeros 452, demo 5 1)]).
  - discriminate.
  - repeat (apply Forall_cons_2; [split; [apply zeros_stack|eexists _, [], []; apply demo_ok; lia]|]). done.
  - reflexivity.
  - reflexivity.
  - by vm_compute.
  - intros _. by repeat constructor.
  - by apply zeros_length.
  - by apply zeros_length.
  - lia.
Defined.

Lemma wlog_record_update_witness :
  ∃ s', wlog_record_write (zeros 452) (demo 3 1) 0 (Wlog (entry_bytes (demo_body 3 0)) 0 []) = Done (0, s') ∧
    log_of (bytes s') [demo 3 1] ∧ length (bytes s') = length (entry_bytes (demo_body 3 0)).
Proof.
  assert (log_of [] []) as H0 by by exists [].
  apply (wlog_record_update (zeros 452) [] [] (demo_body 3 0) [] [] (demo 3 0) (demo 3 1) (replicate 3 97) [] [] (Wlog (entry_bytes (demo_body 3 0)) 0 [])).
  - apply zeros_stack.
  - exact H0.
  - exact H0.
  - apply demo_ok; lia.
  - apply demo_entry; lia.
  - apply demo_ok; lia.
  - cbn [bytes app]. by rewrite app_nil_r.
  - reflexivity.
  - by vm_compute.
Defined.

Lemma wlog_rec_pack_widths_witness :
  ∃ reclen buf, wlog_rec_pack (demo 128 0) (zeros 452) false = Done (reclen, buf) ∧
    get_field buf Dpid = Done 42 ∧ get_field buf Dpathlen = Done 0 ∧ get_field buf Dpatternlen = Done 0.
Proof. apply (wlog_rec_pack_widths (demo 128 0) (zeros 452)); [apply zeros_stack|by_decide..]. Defined.

Lemma wlog_scan_signed_char_witness :
  wlog_scan_backward true keep_all (zeros bufsize) (zeros WLOG_REC_MAX_SIZE) 0 [] (Wlog (entry_bytes (demo_body 100 0)) 0 []) = Fault.
Proof.
  apply (wlog_scan_signed_char keep_all [] (demo_body 100 0) (demo 100 0)).
  - reflexivity.
  - eexists _, [], []. split; [apply demo_ok; lia|apply demo_entry; lia].
  - rewrite (proj2 (demo_entry 100 0 ltac:(lia) ltac:(lia))). lia.
  - reflexivity.
  - cbn [bytes]. unfold entry_bytes. rewrite length_app, (proj2 (demo_entry 100 0 ltac:(lia) ltac:(lia))). by vm_compute.
  - by apply zeros_length.
  - lia.
Defined.

Lemma demo_log n : log_of (concat (replicate n (entry_bytes (demo_body 2 0)))) (replicate n (demo 2 0)) ∧
  length (concat (replicate n (entry_bytes (demo_body 2 0)))) = (n * 32)%nat.
Proof.
  destruct (demo_entry 2 0 ltac:(lia) ltac:(lia)) as [Hp Hl]. split.
  - exists (replicate n (demo_body 2 0)). split; [|by rewrite fmap_replicate]. apply Forall2_replicate.
    eexists _, [], []. split; [apply demo_ok; lia|done].
  - induction n as [|n IH]; [done|]. cbn [replicate concat]. rewrite length_app, IH. unfold entry_bytes. rewrite length_app, Hl. cbn. lia.
Qed.

Lemma wlog_scan_stop_goes_on_witness :
  ∃ s', wlog_scan_backward false count_calls (zeros bufsize) (zeros WLOG_REC_MAX_SIZE) 0 0
    (Wlog (concat (replicate 1 (entry_bytes (demo_body 2 0))) ++ concat (replicate 512 (entry_bytes (demo_body 2 0)))) 0 []) = Done (0, 2, s').
Proof.
  apply (wlog_scan_stop_goes_on false count_calls (concat (replicate 1 (entry_bytes (demo_body 2 0))))
    (concat (replicate 512 (entry_bytes (demo_body 2 0)))) [] (replicate 511 (demo 2 0)) (demo 2 0) (demo 2 0)).
  - reflexivity.
  - apply demo_log.
  - change [demo 2 0] with (replicate 1 (demo 2 0)). rewrite <- replicate_add. apply demo_log.
  - rewrite (proj2 (demo_log 512)). by vm_compute.
  - rewrite (proj2 (demo_log 1)). by vm_compute.
  - discriminate.
  - reflexivity.
  - by apply zeros_length.
  - by apply zeros_length.
  - reflexivity.
Defined.
