(* ===== verification/SplitStr.v ===== *)
(** * Splitting strings (pan/splitstr.c)

    splitstr() copies the string, cuts the copy with strtok() and collects the
    pointers to the tokens in an array that grows by twenty.  The model keeps the
    copy as a buffer with the zeros strtok() writes into it, a pointer as its
    offset, and the array with its capacity and its indeterminate elements. *)
From stdpp Require Import base strings numbers option list.
From Stdlib Require Import Ascii.
From S2P Require Import Prelude.

(** ** strtok() *)

(** strspn() and strcspn() on the string at an offset of the buffer. *)
Definition span (p : ascii → bool) (buf : list ascii) (i : nat) : nat :=
  i + length (take_while p (drop i buf)).

Definition is_sep (sep : list ascii) (c : ascii) : bool := bool_decide (c ∈ sep).
Definition in_token (sep : list ascii) (c : ascii) : bool := bool_decide (c ≠ NUL ∧ c ∉ sep).

(** One call: the token if there is one, the buffer and the saved pointer.  The
    buffer ends with the zero of the copied string. *)
Definition strtok (sep buf : list ascii) (save : nat) : option nat * list ascii * nat :=
  let s := span (is_sep sep) buf save in
  if decide (char_at buf s = NUL) then (None, buf, s)
  else
    let e := span (in_token sep) buf s in
    if decide (char_at buf e = NUL) then (Some s, buf, e)
    else (Some s, <[e := NUL]> buf, S e).

(** ** splitstr() *)

(** An element of the array: [None] is indeterminate, [Some None] is NULL. *)
Abbreviation cell := (option (option nat)).

Definition store (a : list cell) (i : nat) (v : option nat) : outcome (list cell) :=
  if decide (i < length a) then Done (<[i := Some v]> a) else Fault.

(** The loop over the tokens: the array with the number of tokens, and the buffer.
    realloc() keeps the elements and succeeds. *)
Fixpoint tok_loop (fuel : nat) (sep : list ascii) (cur_tok : option nat) (buf : list ascii) (save : nat)
    (arg_array : list cell) (num_toks : nat) : outcome (list cell * nat * list ascii) :=
  match cur_tok with
  | None => Done (arg_array, num_toks, buf)
  | Some t =>
      match fuel with
      | O => Timeout
      | S fuel' =>
          arg_array ← store arg_array num_toks (Some t);
          let num_toks := S num_toks in
          let '(cur_tok, buf, save) := strtok sep buf save in
          let arg_array :=
            if decide (num_toks = length arg_array) then arg_array ++ replicate 20 None else arg_array in
          tok_loop fuel' sep cur_tok buf save arg_array num_toks
      end
  end.

(** The elements from [i] on become NULL. *)
Fixpoint fill_null (n i : nat) (arg_array : list cell) : outcome (list cell) :=
  match n with
  | O => Done arg_array
  | S n' => arg_array ← store arg_array i None; fill_null n' (S i) arg_array
  end.

(** What the caller gets: the copy, the array and the count. *)
Record split := Split { arg_string : list ascii; arg_array : list cell; argcount : nat }.

(** [None] is the NULL result; the allocations succeed. *)
Definition splitstr (str separator : option (list ascii)) : outcome (option split) :=
  match str with
  | None => Done None
  | Some str =>
      let arg_string := str ++ [NUL] in
      let sep := default [" "%char; TAB] separator in
      let '(cur_tok, buf, save) := strtok sep arg_string 0 in
      '(arr, num_toks, buf) ← tok_loop (S (length str)) sep cur_tok buf save (replicate 20 None) 0;
      arr ← store arr num_toks None;
      arr ← fill_null (length arr - S num_toks) (S num_toks) arr;
      Done (Some (Split buf arr num_toks))
  end.

(** The objects splitstr() allocated. *)
Inductive block := ArgString | ArgArray.

#[export] Instance block_eq_dec : EqDecision block.
Proof. solve_decision. Defined.

(** free() takes a pointer to the start of an object only. *)
Definition splitstr_free (p_return : option split) : outcome (list block) :=
  p ← load p_return;
  first ← load (arg_array p !! 0);
  first ← load first;
  match first with
  | Some 0 => Done [ArgString; ArgArray]
  | Some _ => Fault
  | None => Done [ArgArray]
  end.

(** The C string at an offset of the copy. *)
Definition text_at (buf : list ascii) (i : nat) : list ascii :=
  take_while (λ c, bool_decide (c ≠ NUL)) (drop i buf).

(** The strings of the result, as its user reads them up to the NULL. *)
Fixpoint strings (buf : list ascii) (a : list cell) : outcome (list (list ascii)) :=
  match a with
  | [] => Fault
  | None :: _ => Fault
  | Some None :: _ => Done []
  | Some (Some i) :: a' => ss ← strings buf a'; Done (text_at buf i :: ss)
  end.

(** ** Reference: the non-empty pieces between separators *)

Fixpoint pieces (p : ascii → bool) (s : list ascii) : list (list ascii) :=
  match s with
  | [] => [[]]
  | c :: s' =>
      if p c then [] :: pieces p s'
      else match pieces p s' with
           | [] => [[c]]
           | w :: ws => (c :: w) :: ws
           end
  end.

Definition words (sep s : list ascii) : list (list ascii) :=
  filter (λ w, w ≠ []) (pieces (is_sep sep) s).

(** ** Words *)

Lemma pieces_nonempty p s : pieces p s ≠ [].
Proof. destruct s as [|c s]; simpl; [done|]. destruct (p c); [done|]. by destruct (pieces p s). Qed.

Lemma words_sep sep c s : c ∈ sep → words sep (c :: s) = words sep s.
Proof.
  intros Hc. unfold words. simpl. unfold is_sep at 1. rewrite bool_decide_true by done.
  by rewrite filter_cons_False by auto.
Qed.

Lemma words_skip sep pre s : Forall (is_sep sep) pre → words sep (pre ++ s) = words sep s.
Proof.
  induction 1 as [|c pre Hc _ IH]; [done|]. simpl. rewrite words_sep; [done|].
  by apply (bool_decide_unpack (c ∈ sep)).
Qed.

(** A token, and what follows it from a separator on. *)
Lemma words_token sep w r :
  w ≠ [] → Forall (λ c, c ∉ sep) w → (∀ c r', r = c :: r' → c ∈ sep) →
  words sep (w ++ r) = w :: words sep (tail r).
Proof.
  intros Hw Hall Hr. unfold words.
  assert (pieces (is_sep sep) (w ++ r) = w :: match r with [] => [] | _ :: r' => pieces (is_sep sep) r' end) as ->.
  { clear Hw. induction Hall as [|c w Hc _ IH]; simpl.
    - destruct r as [|c r]; simpl; [done|]. unfold is_sep at 1.
      by rewrite bool_decide_true by eauto.
    - unfold is_sep at 1. rewrite bool_decide_false by done. by rewrite IH. }
  rewrite filter_cons_True by done. destruct r; [|done]. simpl. by rewrite filter_cons_False by auto.
Qed.

(** ** strtok() and the words *)

Lemma span_app (p : ascii → bool) dn w c t :
  Forall p w → p c = false → span p (dn ++ w ++ c :: t) (length dn) = length (dn ++ w).
Proof.
  intros Hw Hc. unfold span. rewrite drop_app_length, length_app.
  by rewrite (proj1 (take_while_app _ _ _ _ Hw Hc)).
Qed.

Lemma char_at_middle dn c t : char_at (dn ++ c :: t) (length dn) = c.
Proof. unfold char_at. by rewrite list_lookup_middle. Qed.

(** What is left of the string decomposes at its first token. *)
Lemma first_token sep (rest : list ascii) :
  ∃ pre w r, rest = pre ++ w ++ r ∧ Forall (is_sep sep) pre ∧ Forall (λ c, c ∉ sep) w ∧
    (∀ c r', r = c :: r' → c ∈ sep) ∧ (w = [] → r = []).
Proof.
  induction rest as [|c rest (pre & w & r & -> & Hpre & Hw & Hr & Hn)].
  { exists [], [], []. by split_and!. }
  destruct (decide (c ∈ sep)) as [Hc|Hc].
  - exists (c :: pre), w, r. split_and!; [done| |done|done|done].
    constructor; [by apply bool_decide_pack|done].
  - destruct pre as [|d pre].
    + exists [], (c :: w), r. split_and!; [done|done|by constructor|done|done].
    + exists [], [c], (d :: pre ++ w ++ r). apply Forall_cons in Hpre as [Hd _].
      split_and!; [done|done|by repeat constructor| |done].
      intros c' r' [= <- _]. by apply (bool_decide_unpack (d ∈ sep)) in Hd.
Qed.

(** An offset of a token that later calls do not change. *)
Definition settled (dn rest : list ascii) (o : nat) (w : list ascii) : Prop :=
  ∀ rest', (rest = [] → rest' = []) → text_at (dn ++ rest' ++ [NUL]) o = w.

Lemma text_at_token dn w t : cstring w → text_at (dn ++ w ++ NUL :: t) (length dn) = w.
Proof.
  intros Hw. unfold text_at. rewrite drop_app_length. apply take_while_app; [|done].
  apply Forall_forall. intros c Hc. apply bool_decide_pack. by intros ->.
Qed.

Section strtok.
Context (sep : list ascii) (Hsep : cstring sep).

(** One call of strtok() on a buffer whose part [dn] is dealt with. *)
Lemma strtok_step dn rest :
  cstring rest →
  (words sep rest = [] ∧
    ∃ save, strtok sep (dn ++ rest ++ [NUL]) (length dn) = (None, dn ++ rest ++ [NUL], save)) ∨
  ∃ o w dn' rest', strtok sep (dn ++ rest ++ [NUL]) (length dn) = (Some o, dn' ++ rest' ++ [NUL], length dn') ∧
    words sep rest = w :: words sep rest' ∧ length rest' < length rest ∧ cstring rest' ∧
    (∃ t, dn' = dn ++ t) ∧ settled dn' rest' o w ∧
    o = length dn + length (take_while (is_sep sep) rest).
Proof.
  intros Hrest. destruct (first_token sep rest) as (pre & w & r & -> & Hpre & Hw & Hr & Hn).
  unfold cstring in *. rewrite !not_elem_of_app in Hrest. destruct Hrest as (_ & Hwn & Hrn).
  assert (is_sep sep NUL = false) as Hnul by by apply bool_decide_false.
  assert (∀ c, c ∈ w → is_sep sep c = false) as Hws.
  { intros c Hc. apply bool_decide_false. by apply (proj1 (Forall_forall _ _) Hw). }
  destruct (decide (w = [])) as [->|Hne].
  { left. rewrite (Hn eq_refl), !app_nil_r. split; [rewrite <-(app_nil_r pre); by apply words_skip|].
    unfold strtok. rewrite span_app by done. rewrite (app_assoc dn pre), char_at_middle.
    rewrite decide_True by done. eauto. }
  right. rewrite words_skip, words_token by done. rewrite <-!app_assoc.
  assert (span (is_sep sep) (dn ++ pre ++ w ++ r ++ [NUL]) (length dn) = length (dn ++ pre) ∧
    char_at (dn ++ pre ++ w ++ r ++ [NUL]) (length (dn ++ pre)) ≠ NUL) as [Hspan Hfirst].
  { destruct w as [|c w]; [done|]. cbn [app].
    rewrite span_app by (done || by apply Hws; constructor). split; [done|].
    rewrite (app_assoc dn pre), char_at_middle. intros ->. by apply Hwn; constructor. }
  unfold strtok. rewrite Hspan, (decide_False _ _ Hfirst), (app_assoc dn pre). clear Hspan Hfirst.
  assert (length (dn ++ pre) = length dn + length (take_while (is_sep sep) (pre ++ w ++ r))) as Ho.
  { rewrite length_app. destruct w as [|c w]; [done|]. cbn [app].
    by rewrite (proj1 (take_while_app _ pre c (w ++ r) Hpre (Hws c (list_elem_of_here _ _)))). }
  assert (0 < length w) by (destruct w; [done|simpl; lia]).
  assert (Forall (in_token sep) w) as Htok.
  { apply Forall_forall. intros x Hx. apply bool_decide_pack. split; [by intros ->|].
    by apply (proj1 (Forall_forall _ _) Hw). }
  set (d := dn ++ pre) in *. exists (length d), w. destruct r as [|x r]; cbn [app tail].
  - exists (d ++ w), []. rewrite span_app by (done || by apply bool_decide_false; intros [? _]).
    rewrite (app_assoc d), char_at_middle, decide_True by done.
    split_and!; [done|done|rewrite !length_app; simpl; lia|apply not_elem_of_nil|..|done].
    + exists (pre ++ w). subst d. by rewrite <-app_assoc.
    + intros rest' ->; [|done]. rewrite <-app_assoc. by apply (text_at_token d w []).
  - assert (x ∈ sep) as Hx by eauto. exists (d ++ w ++ [NUL]), r.
    rewrite span_app by (done || by apply bool_decide_false; intros [_ ?]).
    rewrite (app_assoc d), char_at_middle, decide_False by (intros ->; done).
    split_and!; [|done|rewrite !length_app; simpl; lia| | | |done].
    + rewrite insert_app_r_alt, Nat.sub_diag by done. cbn. rewrite !length_app, <-!app_assoc. cbn.
      do 2 f_equal. lia.
    + by apply not_elem_of_cons in Hrn as [_ ?].
    + exists (pre ++ w ++ [NUL]). subst d. by rewrite <-!app_assoc.
    + intros rest' _. rewrite <-!app_assoc. by apply text_at_token.
Qed.
End strtok.

(** ** The loops of splitstr() *)

Definition filled (offs : list nat) (k : nat) : list cell :=
  ((λ o, Some (Some o)) <$> offs) ++ replicate k None.

Lemma filled_length offs k : length (filled offs k) = length offs + k.
Proof. unfold filled. by rewrite length_app, length_fmap, length_replicate. Qed.

Lemma store_filled offs k o : store (filled offs (S k)) (length offs) (Some o) = Done (filled (offs ++ [o]) k).
Proof.
  unfold store. rewrite filled_length, decide_True by lia. f_equal. unfold filled.
  rewrite insert_app_r_alt by (by rewrite length_fmap). rewrite length_fmap, Nat.sub_diag. simpl.
  by rewrite fmap_app, <-app_assoc.
Qed.

Lemma tok_loop_spec sep : cstring sep → ∀ fuel dn rest offs k,
  cstring rest → length rest < fuel →
  ∃ offs' k' buf,
    (let '(cur_tok, buf, save) := strtok sep (dn ++ rest ++ [NUL]) (length dn) in
     tok_loop fuel sep cur_tok buf save (filled offs (S k)) (length offs)) =
      Done (filled (offs ++ offs') (S k'), length (offs ++ offs'), buf) ∧
    text_at buf <$> offs' = words sep rest ∧
    (∀ o w, settled dn rest o w → text_at buf o = w) ∧
    (∀ o, head offs' = Some o → o = length dn + length (take_while (is_sep sep) rest)).
Proof.
  intros Hsep. induction fuel as [|fuel IH]; intros dn rest offs k Hrest Hf; [lia|].
  destruct (strtok_step sep Hsep dn rest Hrest)
    as [(Hw & save & ->)|(o & w & dn' & rest' & -> & Hw & Hlt & Hrest' & (t & Ht) & Hset & Ho)].
  { exists [], k, (dn ++ rest ++ [NUL]). cbn [tok_loop]. rewrite app_nil_r, Hw.
    split_and!; [done|done|by intros o w Hset; apply Hset|done]. }
  cbn [tok_loop]. rewrite store_filled. cbn [mbind outcome_bind].
  set (k1 := if decide (k = 0) then 19 else k - 1).
  assert ((if decide (S (length offs) = length (filled (offs ++ [o]) k))
           then filled (offs ++ [o]) k ++ replicate 20 None else filled (offs ++ [o]) k) =
          filled (offs ++ [o]) (S k1)) as Hgrow.
  { rewrite filled_length, length_app. simpl. subst k1. destruct k as [|k].
    - rewrite decide_True by lia. unfold filled. by rewrite <-app_assoc.
    - rewrite !decide_False by lia. do 2 f_equal. simpl. lia. }
  specialize (IH dn' rest' (offs ++ [o]) k1 Hrest' ltac:(lia)).
  replace (length (offs ++ [o])) with (S (length offs)) in IH by (rewrite length_app; simpl; lia).
  rewrite <-Hgrow in IH. destruct IH as (offs' & k' & buf & Hrun & Hwords & Hkeep & _).
  exists (o :: offs'), k', buf. rewrite <-app_assoc in Hrun. split_and!.
  - etrans; [|exact Hrun]. by destruct (strtok sep (dn' ++ rest' ++ [NUL]) (length dn')) as [[? ?] ?].
  - rewrite fmap_cons, Hwords, Hw. f_equal. by apply Hkeep.
  - intros o' w' Hset'. apply Hkeep. intros rest'' _. rewrite Ht, <-app_assoc.
    rewrite (app_assoc t). apply Hset'. intros ->. simpl in Hlt. lia.
  - by intros ? [= <-].
Qed.

Lemma fill_null_spec l : ∀ a k, fill_null k (length a) (a ++ replicate k l) = Done (a ++ replicate k (Some None)).
Proof.
  intros a k. revert a. induction k as [|k IH]; intros a; cbn [fill_null replicate]; [done|].
  unfold store. rewrite decide_True by (rewrite length_app; simpl; lia). cbn [mbind outcome_bind].
  rewrite insert_app_r_alt, Nat.sub_diag by done. cbn.
  specialize (IH (a ++ [Some None])). rewrite length_app, <-!app_assoc in IH. simpl in IH.
  by rewrite Nat.add_1_r in IH.
Qed.

(** The array splitstr() returns: the tokens, then at least one NULL. *)
Lemma splitstr_run str separator :
  cstring str → cstring (default [" "%char; TAB] separator) →
  ∃ offs k buf,
    splitstr (Some str) separator =
      Done (Some (Split buf (((λ o, Some (Some o)) <$> offs) ++ replicate (S k) (Some None)) (length offs))) ∧
    text_at buf <$> offs = words (default [" "%char; TAB] separator) str ∧
    (∀ o, head offs = Some o →
      o = length (take_while (is_sep (default [" "%char; TAB] separator)) str)).
Proof.
  intros Hstr Hsep. unfold splitstr. set (sep := default _ separator) in *.
  destruct (tok_loop_spec sep Hsep (S (length str)) [] str [] 19 Hstr) as (offs & k & buf & Hrun & Hw & _ & Ho);
    [lia|]. cbn [app length] in *. exists offs, k, buf. split_and!; [|done|done].
  destruct (strtok sep (str ++ [NUL]) 0) as [[cur b] save]. change (replicate 20 None) with (filled [] 20).
  rewrite Hrun. cbn [mbind outcome_bind]. unfold store at 1.
  rewrite filled_length, decide_True by lia. cbn [mbind outcome_bind]. unfold filled.
  rewrite insert_app_r_alt by (by rewrite length_fmap). rewrite length_fmap, Nat.sub_diag. cbn.
  pose proof (fill_null_spec None (((λ o, Some (Some o)) <$> offs) ++ [Some None]) k) as Hfill.
  rewrite !length_app, length_fmap, <-!app_assoc in Hfill. cbn in Hfill.
  rewrite length_app, length_fmap. cbn. rewrite length_replicate.
  replace (length offs + S k - S (length offs)) with k by lia.
  rewrite <-Nat.add_1_r, Hfill. cbn. done.
Qed.

Lemma strings_filled buf offs k :
  strings buf (((λ o, Some (Some o)) <$> offs) ++ replicate (S k) (Some None)) = Done (text_at buf <$> offs).
Proof. induction offs as [|o offs IH]; [done|]. cbn [app fmap list_fmap strings] in *. by rewrite IH. Qed.

(** ** Properties *)

(** splitstr() returns the words of the string: the non-empty pieces between
    separators, in order, followed by NULL, with their number; the array never
    overflows, and every element behind the words is NULL. *)
Theorem splitstr_words str separator :
  cstring str → cstring (default [" "%char; TAB] separator) →
  let ws := words (default [" "%char; TAB] separator) str in
  ∃ r, splitstr (Some str) separator = Done (Some r) ∧
    strings (arg_string r) (arg_array r) = Done ws ∧ argcount r = length ws ∧
    length ws < length (arg_array r) ∧
    ∀ i, length ws ≤ i < length (arg_array r) → arg_array r !! i = Some (Some None).
Proof.
  intros Hstr Hsep ws. destruct (splitstr_run str separator Hstr Hsep) as (offs & k & buf & -> & Hw & _).
  assert (length offs = length ws) as Hlen by (subst ws; by rewrite <-Hw, length_fmap).
  eexists. split; [done|]. cbn [arg_string arg_array argcount].
  split_and!; [by rewrite strings_filled, Hw|done|..].
  - rewrite length_app, length_fmap, length_replicate. lia.
  - intros i Hi. rewrite length_app, length_fmap, length_replicate in Hi.
    rewrite lookup_app_r by (rewrite length_fmap; lia). apply lookup_replicate.
    rewrite length_fmap. split; [done|lia].
Qed.

(** splitstr_free() of an unmodified result frees both objects exactly when
    the string starts with a word; it leaks the copy when there is no word, and
    when a separator comes before the first word it passes a pointer into the
    middle of the copy to free(). *)
Theorem splitstr_free_result str separator :
  cstring str → cstring (default [" "%char; TAB] separator) →
  let sep := default [" "%char; TAB] separator in
  ∃ r, splitstr (Some str) separator = Done (Some r) ∧
    splitstr_free (Some r) =
      match str with
      | [] => Done [ArgArray]
      | c :: _ => if decide (c ∈ sep) then if decide (words sep str = []) then Done [ArgArray] else Fault
                  else Done [ArgString; ArgArray]
      end.
Proof.
  intros Hstr Hsep sep. destruct (splitstr_run str separator Hstr Hsep) as (offs & k & buf & -> & Hw & Ho).
  fold sep in Hw, Ho. eexists. split; [done|]. unfold splitstr_free. cbn [load mbind outcome_bind arg_array].
  destruct str as [|c str].
  { by destruct offs. }
  remember (words sep (c :: str)) as ws eqn:Ews. destruct offs as [|o offs]; cbn.
  - cbn in Hw. subst ws. case_decide as Hc; [by rewrite decide_True|].
    exfalso. unfold words in Hw. cbn in Hw. unfold is_sep in Hw at 1. rewrite bool_decide_false in Hw by done.
    destruct (pieces _ str) in Hw; by rewrite filter_cons_True in Hw by done.
  - specialize (Ho o eq_refl). rewrite Ho. cbn. unfold is_sep at 1. case_decide as Hc.
    + rewrite bool_decide_true by done. cbn. by rewrite decide_False by (by rewrite <-Hw).
    + by rewrite bool_decide_false.
Qed.

Lemma splitstr_words_witness :
  ∃ r, splitstr (Some (chars "  ls -l  /tmp ")) None = Done (Some r) ∧
    strings (arg_string r) (arg_array r) = Done [chars "ls"; chars "-l"; chars "/tmp"].
Proof.
  destruct (splitstr_words (chars "  ls -l  /tmp ") None) as (r & H & Hs & _); [by_decide|by_decide|].
  exists r. split; [exact H|]. rewrite Hs. reflexivity.
Defined.

Lemma splitstr_free_result_witness :
  ∃ r, splitstr (Some (chars " ls")) None = Done (Some r) ∧ splitstr_free (Some r) = Fault.
Proof.
  destruct (splitstr_free_result (chars " ls") None) as (r & H & Hf); [by_decide|by_decide|].
  exists r. split; [exact H|]. rewrite Hf. reflexivity.
Defined.
