(* ===== verification/StringTokens.v ===== *)
(** * Cutting strings into tokens

    src/testcases/kernel/fs/doio/string_to_tokens.c, which cuts a string in place
    with strtok() and stores the tokens in an array of the caller.  The string is a
    buffer that ends with its zero, a pointer into it is its offset; strtok() and
    the array are those of [SplitStr]. *)
From stdpp Require Import base strings numbers option list.
From Stdlib Require Import Ascii.
From S2P Require Import Prelude SplitStr.

(** ** string_to_tokens() *)

(** The loop from the second token on, with [n] turns left. *)
Fixpoint tokens_loop (n : nat) (sep buf : list ascii) (save : nat) (arg_array : list cell) (num_toks : nat)
    : outcome (list cell * nat * list ascii) :=
  match n with
  | O => Done (arg_array, num_toks, buf)
  | S n' =>
      let '(tok, buf, save) := strtok sep buf save in
      arg_array ← store arg_array num_toks tok;
      match tok with
      | None => Done (arg_array, num_toks, buf)
      | Some _ => tokens_loop n' sep buf save arg_array (S num_toks)
      end
  end.

(** The return value, the array and the string.  [arg_array] and [separator] may be
    NULL; the buffer is the string with its zero. *)
Definition string_to_tokens (buf : list ascii) (arg_array : option (list cell)) (array_size : Z)
    (separator : option (list ascii)) : outcome (Z * option (list cell) * list ascii) :=
  match arg_array, separator with
  | Some a, Some sep =>
      if decide (array_size ≤ 1)%Z then Done ((-1)%Z, arg_array, buf)
      else
        let '(tok, buf, save) := strtok sep buf 0 in
        a ← store a 0 tok;
        match tok with
        | None => Done (0%Z, Some a, buf)
        | Some _ =>
            '(a, num_toks, buf) ← tokens_loop (Z.to_nat array_size - 1) sep buf save a 1;
            a ← (if decide (num_toks = Z.to_nat array_size) then store a num_toks None else Done a);
            Done (Z.of_nat num_toks, Some a, buf)
        end
  | _, _ => Done ((-1)%Z, arg_array, buf)
  end.

(** The array after tokens and NULL: the rest keeps its content. *)
Lemma store_next (l : list cell) junk (x : option nat) rest :
  store (l ++ junk :: rest) (length l) x = Done (l ++ Some x :: rest).
Proof.
  unfold store. rewrite decide_True by (rewrite length_app; simpl; lia). f_equal.
  by rewrite insert_app_r_alt, Nat.sub_diag.
Qed.

Lemma store_first junk (x : option nat) rest : store (junk :: rest) 0 x = Done (Some x :: rest).
Proof. done. Qed.

Definition offsets (offs : list nat) : list cell := (λ o, Some (Some o)) <$> offs.

Lemma offsets_snoc offs o rest : offsets offs ++ Some (Some o) :: rest = offsets (offs ++ [o]) ++ rest.
Proof. unfold offsets. by rewrite fmap_app, <- app_assoc. Qed.

Lemma store_offsets offs junk x rest :
  store (offsets offs ++ junk :: rest) (length offs) x = Done (offsets offs ++ Some x :: rest).
Proof.
  pose proof (store_next (offsets offs) junk x rest) as E. unfold offsets in *. by rewrite length_fmap in E.
Qed.

Lemma strings_offsets buf offs rest : strings buf (offsets offs ++ Some None :: rest) = Done (text_at buf <$> offs).
Proof. unfold offsets. induction offs as [|o offs IH]; [done|]. cbn [app fmap list_fmap strings] in *. by rewrite IH. Qed.

Section tokens.
Context (sep : list ascii) (Hsep : cstring sep).

(** The loop stores the words that are left, as far as the array goes, and a NULL
    behind the last one if it is reached. *)
Lemma tokens_loop_spec n : ∀ dn rest offs mem,
  cstring rest → n ≤ length mem →
  let ws := words sep rest in
  ∃ offs' buf,
    tokens_loop n sep (dn ++ rest ++ [NUL]) (length dn) (offsets offs ++ mem) (length offs) =
      Done (if decide (length ws < n) then offsets (offs ++ offs') ++ Some None :: drop (S (length ws)) mem
            else offsets (offs ++ offs') ++ drop n mem, length (offs ++ offs'), buf) ∧
    text_at buf <$> offs' = take n ws ∧
    (∀ o w, settled dn rest o w → text_at buf o = w).
Proof.
  induction n as [|n IH]; intros dn rest offs mem Hrest Hmem ws.
  { exists [], (dn ++ rest ++ [NUL]). cbn [tokens_loop]. rewrite decide_False by lia.
    rewrite !app_nil_r, drop_0. split_and!; [done|done|by intros o w Hset; apply Hset]. }
  destruct mem as [|junk mem]; [simpl in Hmem; lia|]. cbn [length] in Hmem. apply le_S_n in Hmem. cbn [tokens_loop].
  destruct (strtok_step sep Hsep dn rest Hrest)
    as [(Hw & save & ->)|(o & w & dn' & rest' & -> & Hw & Hlt & Hrest' & (t & Ht) & Hset & _)].
  { exists [], (dn ++ rest ++ [NUL]). rewrite store_offsets. cbn [mbind outcome_bind]. subst ws. rewrite Hw, app_nil_r.
    cbn [length]. rewrite decide_True by lia. cbn [drop take]. rewrite drop_0.
    split_and!; [done|done|by intros o w Hset; apply Hset]. }
  rewrite store_offsets. cbn [mbind outcome_bind]. rewrite offsets_snoc.
  destruct (IH dn' rest' (offs ++ [o]) mem Hrest' Hmem) as (offs' & buf & Hrun & Hwords & Hkeep).
  replace (length (offs ++ [o])) with (S (length offs)) in Hrun by (rewrite length_app; simpl; lia).
  rewrite <- app_assoc in Hrun. cbn [app] in Hrun.
  exists (o :: offs'), buf. subst ws. rewrite Hw. cbn [length drop take]. split_and!.
  - rewrite Hrun. do 3 f_equal. destruct (decide (length (words sep rest') < n)).
    + by rewrite decide_True by lia.
    + by rewrite decide_False by lia.
  - rewrite fmap_cons, Hwords. f_equal. by apply Hkeep.
  - intros o' w' Hset'. apply Hkeep. intros rest'' _. rewrite Ht, <-app_assoc.
    rewrite (app_assoc t). apply Hset'. intros ->. simpl in Hlt. lia.
Qed.
End tokens.

(** string_to_tokens() stores the words of the string in order, up to the size
    it is given, and the NULL behind them, and returns their number.  With as many
    words as the size or more the NULL goes to arg_array[array_size]: an array of
    exactly the documented size overflows. *)
Theorem string_to_tokens_words str sep a N :
  cstring str → cstring sep → 2 ≤ N ≤ length a →
  let ws := words sep str in
  string_to_tokens (str ++ [NUL]) (Some a) (Z.of_nat N) (Some sep) = Fault ∧ length a = N ∧ N ≤ length ws ∨
  ∃ a' buf, string_to_tokens (str ++ [NUL]) (Some a) (Z.of_nat N) (Some sep) =
              Done (Z.of_nat (Nat.min (length ws) N), Some a', buf) ∧
            strings buf a' = Done (take N ws) ∧ (length ws < N ∨ N < length a).
Proof.
  intros Hstr Hsep [HN Ha] ws. unfold string_to_tokens. rewrite decide_False by lia.
  destruct a as [|j a]; [simpl in Ha; lia|]. simpl in Ha.
  destruct (strtok_step sep Hsep [] str Hstr)
    as [(Hw & save & E)|(o & w & dn & rest & E & Hw & _ & Hrest & _ & Hset & _)];
    cbn [app length] in E; rewrite E, store_first; cbn [mbind outcome_bind].
  { right. subst ws. rewrite Hw. exists (Some None :: a), (str ++ [NUL]).
    split_and!; [done|by rewrite take_nil|left; simpl; lia]. }
  destruct (tokens_loop_spec sep Hsep (Z.to_nat (Z.of_nat N) - 1) dn rest [o] a Hrest) as (offs & buf & Hrun & Hws & Hkeep);
    [lia|]. cbn [app length] in Hrun. cbn [app] in Hset.
  replace (Some (Some o) :: a) with (offsets [o] ++ a) by done. rewrite Hrun. cbn [mbind outcome_bind].
  rewrite Nat2Z.id in *. subst ws. rewrite Hw. cbn [length].
  assert (length offs = Nat.min (N - 1) (length (words sep rest))) as Hlen by (by rewrite <- length_take, <- Hws, length_fmap).
  assert (text_at buf <$> o :: offs = take N (w :: words sep rest)) as Htake.
  { replace N with (S (N - 1)) by lia. cbn. rewrite Hws. f_equal. by apply Hkeep. }
  assert (S (length offs) = Nat.min (S (length (words sep rest))) N) as Hnum by lia.
  destruct (decide (length (words sep rest) < N - 1)).
  - right. rewrite decide_False by lia. rewrite Hnum. eexists _, buf. split_and!; [done| |left; lia].
    by rewrite strings_offsets, Htake.
  - rewrite decide_True by lia. destruct (drop (N - 1) a) as [|j' a'] eqn:Ed.
    + left. assert (length a ≤ N - 1) by (apply (f_equal length) in Ed; rewrite length_drop in Ed; simpl in Ed; lia).
      split_and!; [|simpl; lia|simpl; lia]. unfold store.
      rewrite decide_False; [done|]. rewrite app_nil_r. unfold offsets. rewrite length_fmap. simpl. lia.
    + right. assert (N - 1 < length a) by (apply (f_equal length) in Ed; rewrite length_drop in Ed; simpl in Ed; lia).
      rewrite (store_offsets (o :: offs)). cbn [mbind outcome_bind].
      rewrite Hnum. eexists _, buf. split_and!; [done| |right; simpl; lia]. by rewrite strings_offsets, Htake.
Qed.

Lemma string_to_tokens_words_witness :
  string_to_tokens (chars "a,b" ++ [NUL]) (Some [None; None]) 2 (Some [","%char]) = Fault ∧
  ∃ a buf, string_to_tokens (chars "a,,b" ++ [NUL]) (Some [None; None; None]) 3 (Some [","%char]) = Done (2%Z, Some a, buf) ∧
    strings buf a = Done [["a"%char]; ["b"%char]].
Proof.
  split.
  - destruct (string_to_tokens_words (chars "a,b") [","%char] [None; None] 2) as [[E _]|(a & buf & _ & _ & E)];
      [by_decide..|exact E|]. exfalso. destruct E as [E|E]; revert E; vm_compute; lia.
  - destruct (string_to_tokens_words (chars "a,,b") [","%char] [None; None; None] 3) as [(_ & _ & E)|(a & buf & E & Hs & _)];
      [by_decide..|exfalso; revert E; vm_compute; lia|]. exists a, buf. split; [exact E|]. rewrite Hs. reflexivity.
Defined.
