(* ===== verification/Symbol.v ===== *)
(** * The symbol tables of the scanner (pan/symbol.c)

    A table is a header with a list of nodes; the data of a node is a string or
    another table, so tables form a hierarchy that is reached by keys with commas.
    Headers and strings live in a store, since tables are passed around, put into
    other tables and removed; an access to something that was freed is a [Fault].
    A node is the position of its entry, for nodes are only added at the end and
    removed all together; a key belongs to its node. *)
From stdpp Require Import base strings numbers option list gmap.
From Stdlib Require Import Ascii.
From S2P Require Import Prelude SplitStr.

(** ** The store *)

(** What a void pointer points to. *)
Inductive value := VNull | VStr (a : nat) | VTab (t : nat).

#[export] Instance value_eq_dec : EqDecision value.
Proof. solve_decision. Defined.

Abbreviation entry := (list ascii * value)%type.

(** The nodes, [None] when they were freed, and the cursor: a table and a position. *)
Record symh := Symh { sym : option (list entry); cursor : option (nat * nat) }.

Record heap := Heap { tabs : gmap nat symh; texts : gmap nat (list ascii); next_loc : nat }.

Definition nodes (h : heap) (t : nat) : outcome (list entry) := x ← load (tabs h !! t); load (sym x).
Definition str_at (h : heap) (a : nat) : outcome (list ascii) := load (texts h !! a).

Definition set_tab (t : nat) (x : symh) (h : heap) : heap := Heap (<[t := x]> (tabs h)) (texts h) (next_loc h).

Definition strdup (s : list ascii) (h : heap) : value * heap :=
  (VStr (next_loc h), Heap (tabs h) (<[next_loc h := s]> (texts h)) (S (next_loc h))).

Definition free (v : value) (h : heap) : outcome heap :=
  match v with
  | VNull => Done h
  | VStr a => _ ← load (texts h !! a); Done (Heap (tabs h) (delete a (texts h)) (next_loc h))
  | VTab t => _ ← load (tabs h !! t); Done (Heap (delete t (tabs h)) (texts h) (next_loc h))
  end.

(** ** Building tables *)

Definition newsym (h : heap) : nat * heap :=
  (next_loc h, Heap (<[next_loc h := Symh (Some []) None]> (tabs h)) (texts h) (S (next_loc h))).

Definition sym_open (h : heap) : nat * heap := newsym h.

(** SYM_MAGIC, 0xbadc0de, as the bytes in memory. *)
Definition SYM_MAGIC : list ascii := ["222"%char; "192"%char; "173"%char; "011"%char].

(** The magic number of what [v] points to; a string shorter than an int is read
    past its end, and one that looks like a header cannot be used as one. *)
Definition is_table (h : heap) (v : value) : outcome bool :=
  match v with
  | VNull => Fault
  | VTab t => _ ← load (tabs h !! t); Done true
  | VStr a =>
      s ← str_at h a;
      if decide (length s + 1 < 4) then Fault
      else if decide (take 4 (s ++ [NUL]) = SYM_MAGIC) then Fault else Done false
  end.

Definition find_key1 (es : list entry) (key : list ascii) : option nat :=
  fst <$> list_find (λ e : entry, e.1 = key) es.

Definition add_key (t : nat) (key : list ascii) (data : value) (h : heap) : outcome heap :=
  x ← load (tabs h !! t);
  es ← load (sym x);
  Done (set_tab t (Symh (Some (es ++ [(key, data)])) (cursor x)) h).

Definition set_data (n : nat * nat) (data : value) (h : heap) : outcome heap :=
  x ← load (tabs h !! n.1);
  es ← load (sym x);
  e ← load (es !! n.2);
  Done (set_tab n.1 (Symh (Some (<[n.2 := (e.1, data)]> es)) (cursor x)) h).

Definition node_at (h : heap) (n : nat * nat) : outcome entry := es ← nodes h n.1; load (es !! n.2).

(** Where the search stops: with the keys that are left, the current table and the
    node that was found last, or at a node that is not a table. *)
Inductive walked := Stop (kk : list (list ascii)) (csym : nat) (nsym : option (nat * nat)) | Notdir.

Fixpoint walk (h : heap) (kk : list (list ascii)) (csym : nat) (nsym : option (nat * nat)) : outcome walked :=
  match kk with
  | [] => Done (Stop [] csym nsym)
  | k :: kk' =>
      es ← nodes h csym;
      match find_key1 es k with
      | None => Done (Stop kk csym None)
      | Some i =>
          match kk' with
          | [] => Done (Stop [] csym (Some (csym, i)))
          | _ :: _ =>
              e ← load (es !! i);
              match e.2 with
              | VNull => Done Notdir
              | VTab c => _ ← is_table h (VTab c); walk h kk' c (Some (csym, i))
              | VStr a => _ ← is_table h (VStr a); Done Notdir
              end
          end
      end
  end.

(** The keys that are left are added: tables, and the data under the last one. *)
Fixpoint add_keys (kk : list (list ascii)) (csym : nat) (data : value) (h : heap) : outcome heap :=
  match kk with
  | [] => Done h
  | [k] => add_key csym k data h
  | k :: kk' =>
      let '(ncsym, h) := newsym h in
      h ← add_key csym k (VTab ncsym) h;
      add_keys kk' ncsym data h
  end.

Definition EEXIST : Z := 17.
Definition ENOTDIR : Z := 20.
Definition EINVAL : Z := 22.

Inductive put_flag := NoFlag | PUT_REPLACE.

(** The key split on commas; the array and the copy are freed at the end. *)
Definition split_key (key : list ascii) : outcome (list (list ascii)) :=
  r ← splitstr (Some key) (Some [","%char]);
  r ← load r;
  ks ← strings (arg_string r) (arg_array r);
  _ ← splitstr_free (Some r);
  Done ks.

Definition sym_put (t : option nat) (key : list ascii) (data : value) (flags : put_flag) (h : heap) : outcome (Z * heap) :=
  match t with
  | None => Done (EINVAL, h)
  | Some t =>
      keys ← split_key key;
      w ← walk h keys t None;
      match w with
      | Notdir => Done (ENOTDIR, h)
      | Stop [] _ nsym =>
          match flags with
          | PUT_REPLACE => n ← load nsym; h ← set_data n data h; Done (0%Z, h)
          | NoFlag => Done (EEXIST, h)
          end
      | Stop kk csym _ => h ← add_keys kk csym data h; Done (0%Z, h)
      end
  end.

Definition sym_get (t : option nat) (key : list ascii) (h : heap) : outcome value :=
  match t with
  | None => Done VNull
  | Some t =>
      keys ← split_key key;
      w ← walk h keys t None;
      match w with
      | Notdir => Done VNull
      | Stop [] _ nsym => n ← load nsym; e ← node_at h n; Done e.2
      | Stop _ _ _ => Done VNull
      end
  end.

(** ** Stepping through a table *)

Inductive seq_flag := R_CURSOR | R_FIRST | R_NEXT.

(** The node at a position, NULL behind the last one. *)
Definition node_ptr (h : heap) (n : nat * nat) : outcome (option (nat * nat)) :=
  es ← nodes h n.1; Done (if decide (n.2 < length es) then Some n else None).

(** The cursor is set; the key and data are stored when it is not NULL. *)
Definition set_cursor (t : nat) (c : option (nat * nat)) (h : heap) : outcome (Z * option entry * heap) :=
  x ← load (tabs h !! t);
  let h := set_tab t (Symh (sym x) c) h in
  match c with
  | None => Done (1%Z, None, h)
  | Some n => e ← node_at h n; Done (0%Z, Some e, h)
  end.

Definition sym_seq (t : nat) (key : list ascii) (flags : seq_flag) (h : heap) : outcome (Z * option entry * heap) :=
  match flags with
  | R_CURSOR =>
      csym ← sym_get (Some t) key h;
      match csym with
      | VNull => Done (2%Z, None, h)
      | VTab c => n ← node_ptr h (c, 0); set_cursor t n h
      | VStr a => _ ← is_table h (VStr a); Done (2%Z, None, h)
      end
  | R_FIRST => n ← node_ptr h (t, 0); set_cursor t n h
  | R_NEXT =>
      x ← load (tabs h !! t);
      match cursor x with
      | None => Done (1%Z, None, h)
      | Some (c, i) => n ← node_ptr h (c, S i); set_cursor t n h
      end
  end.

(** ** Removing tables *)

(** The flags RM_KEY and RM_DATA; [rm_key] only decides whether the keys leak. *)
Record rm_flags := RmFlags { rm_key : bool; rm_data : bool }.

Definition free_nodes (t : nat) (h : heap) : outcome heap :=
  x ← load (tabs h !! t); Done (set_tab t (Symh None (cursor x)) h).

Fixpoint sym_rm (fuel : nat) (v : value) (flags : rm_flags) (h : heap) : outcome heap :=
  match fuel with
  | O => Timeout
  | S fuel' =>
      match v with
      | VNull => Done h
      | VStr a => _ ← is_table h (VStr a); if rm_data flags then Done h else free (VStr a) h
      | VTab t =>
          es ← nodes h t;
          h ← foldl (λ m e, h ← m; h ← sym_rm fuel' e.2 flags h; if rm_data flags then free e.2 h else Done h) (Done h) es;
          h ← free_nodes t h;
          if rm_data flags then Done h else free (VTab t) h
      end
  end.
