(* ===== verification/SymbolSpec.v ===== *)
(** * What the symbol tables promise

    A path of keys leads from a table through the tables below it to a value.
    sym_get() looks a path up and sym_put() changes exactly that path, in a store
    whose tables form a forest: the keys of a table are distinct and a table is
    in at most one other table. *)
From stdpp Require Import base strings numbers option list gmap sets.
From Stdlib Require Import Ascii.
From S2P Require Import Prelude SplitStr Symbol.

(** ** Keys *)

(** A part of a key. *)
Definition plain (k : list ascii) : Prop := k ≠ [] ∧ Forall (λ c, c ≠ ","%char ∧ c ≠ NUL) k.

Fixpoint key_of (ks : list (list ascii)) : list ascii :=
  match ks with
  | [] => []
  | [k] => k
  | k :: ks' => k ++ ","%char :: key_of ks'
  end.

Lemma words_key_of ks : Forall plain ks → words [","%char] (key_of ks) = ks.
Proof.
  assert (∀ k, plain k → k ≠ [] ∧ Forall (λ c, c ∉ [","%char]) k) as Hp.
  { intros k [Hk Hf]. split; [done|]. eapply Forall_impl; [done|]. intros c [Hc _]. by rewrite list_elem_of_singleton. }
  induction 1 as [|k ks [Hk Hf]%Hp Hks IH]; [done|]. destruct ks as [|k' ks].
  - cbn [key_of]. rewrite <- (app_nil_r k) at 1. by rewrite words_token.
  - change (key_of (k :: k' :: ks)) with (k ++ ","%char :: key_of (k' :: ks)). rewrite words_token; [|done|done|].
    + cbn [tail]. by rewrite IH.
    + intros c r' [= <- _]. apply list_elem_of_singleton. done.
Qed.

Lemma key_of_cstring ks : Forall plain ks → cstring (key_of ks).
Proof.
  assert (∀ k, plain k → cstring k) as Hp.
  { intros k [_ Hk] Hin. rewrite Forall_forall in Hk. by apply Hk in Hin as [_ ?]. }
  unfold cstring. induction 1 as [|k ks Hk Hks IH]; [set_solver|]. apply Hp in Hk. unfold cstring in Hk.
  destruct ks as [|k' ks]; [done|]. change (key_of (k :: k' :: ks)) with (k ++ ","%char :: key_of (k' :: ks)).
  rewrite elem_of_app, elem_of_cons. intros [?|[?|?]]; done.
Qed.

Lemma split_key_of ks : ks ≠ [] → Forall plain ks → split_key (key_of ks) = Done ks.
Proof.
  intros Hne Hks. unfold split_key.
  destruct (splitstr_run (key_of ks) (Some [","%char])) as (offs & n & buf & -> & Hw & Ho).
  { by apply key_of_cstring. }
  { cbn. unfold cstring. by rewrite list_elem_of_singleton. }
  cbn [default] in Hw, Ho. rewrite words_key_of in Hw by done. cbn [mbind outcome_bind load arg_string arg_array].
  rewrite strings_filled, Hw. cbn [mbind outcome_bind]. unfold splitstr_free. cbn [load mbind outcome_bind arg_array].
  destruct offs as [|o offs]; [by destruct ks|]. specialize (Ho o eq_refl).
  assert (o = 0) as ->.
  { rewrite Ho. destruct Hks as [|[|c k] ks [Hk Hf] _]; [done|done|]. apply Forall_cons in Hf as [[Hc _] _].
    destruct ks; cbn; unfold is_sep at 1; rewrite bool_decide_false; try done; by rewrite list_elem_of_singleton. }
  done.
Qed.

Lemma split_key_one k : plain k → split_key k = Done [k].
Proof. intros Hk. apply (split_key_of [k]); [done|by constructor]. Qed.

(** ** Entries *)

Definition keys_of (es : list entry) : list (list ascii) := fst <$> es.

Lemma find_key1_None es k : find_key1 es k = None ↔ k ∉ keys_of es.
Proof.
  unfold find_key1, keys_of. rewrite fmap_None, list_find_None, Forall_forall. split.
  - intros Hn (e & -> & He)%list_elem_of_fmap. by apply (Hn e).
  - intros Hn e He E. apply Hn. apply list_elem_of_fmap. exists e. auto.
Qed.

Lemma find_key1_Some es k i : NoDup (keys_of es) → find_key1 es k = Some i ↔ ∃ v, es !! i = Some (k, v).
Proof.
  intros Hnd. unfold find_key1. rewrite fmap_Some. split.
  - intros ([j [k' v]] & (Hl & Hk & _)%list_find_Some & ->). cbn in *. subst k'. by exists v.
  - intros (v & Hv). exists (i, (k, v)). split; [|done]. apply list_find_Some. split_and!; [done|done|].
    intros j e Hj Hlt E. assert (j = i); [|lia]. apply (NoDup_lookup (keys_of es) j i k); [done| |].
    + unfold keys_of. rewrite list_lookup_fmap, Hj. by subst k.
    + unfold keys_of. by rewrite list_lookup_fmap, Hv.
Qed.

(** The value of a key in a table. *)
Definition find (es : list entry) (k : list ascii) : option value := i ← find_key1 es k; snd <$> es !! i.

Lemma find_Some es k v : NoDup (keys_of es) → find es k = Some v ↔ (k, v) ∈ es.
Proof.
  intros Hnd. unfold find. rewrite bind_Some. split.
  - intros (i & Hi & Hv). apply find_key1_Some in Hi as [v' Hv']; [|done]. rewrite Hv' in Hv. cbn in Hv. simplify_eq.
    by eapply list_elem_of_lookup_2.
  - intros [i Hi]%list_elem_of_lookup. exists i. split; [apply find_key1_Some; eauto|]. by rewrite Hi.
Qed.

Lemma find_None es k : find es k = None ↔ k ∉ keys_of es.
Proof.
  rewrite <- find_key1_None. unfold find. split.
  - destruct (find_key1 es k) as [i|] eqn:E; [|done]. cbn. unfold find_key1 in E. apply fmap_Some in E as ([j e] & (Hl & _)%list_find_Some & ->).
    cbn. by rewrite Hl.
  - by intros ->.
Qed.

(** ** Paths *)

Definition nodes_at (h : heap) (t : nat) : list entry :=
  match nodes h t with Done es => es | _ => [] end.

Fixpoint path (h : heap) (t : nat) (ks : list (list ascii)) : option value :=
  match ks with
  | [] => Some (VTab t)
  | k :: ks' =>
      v ← find (nodes_at h t) k;
      match ks' with
      | [] => Some v
      | _ :: _ => match v with VTab c => path h c ks' | _ => None end
      end
  end.

(** The magic number of a string on the way can be read, which is not so for one of
    less than three characters, and is not that of a table. *)
Definition solid (h : heap) (t : nat) (ks : list (list ascii)) : Prop :=
  ∀ p q a, ks = p ++ q → q ≠ [] → path h t p = Some (VStr a) →
    ∃ s, str_at h a = Done s ∧ 3 ≤ length s ∧ take 4 (s ++ [NUL]) ≠ SYM_MAGIC.

Definition no_table (v : value) : Prop := match v with VTab _ => False | _ => True end.

(** An entry on the way holds no table. *)
Definition blocked (h : heap) (t : nat) (ks : list (list ascii)) : Prop :=
  ∃ p q v, ks = p ++ q ∧ q ≠ [] ∧ path h t p = Some v ∧ no_table v.

Record forest (h : heap) : Prop := {
  forest_keys t es : nodes h t = Done es → NoDup (keys_of es);
  forest_live t es k c : nodes h t = Done es → (k, VTab c) ∈ es → ∃ es', nodes h c = Done es';
  forest_parent t1 es1 k1 t2 es2 k2 c :
    nodes h t1 = Done es1 → (k1, VTab c) ∈ es1 → nodes h t2 = Done es2 → (k2, VTab c) ∈ es2 → t1 = t2 ∧ k1 = k2;
  forest_fresh t es : nodes h t = Done es → t < next_loc h
}.

(** No table contains [t]. *)
Definition root (h : heap) (t : nat) : Prop := ∀ t' es k, nodes h t' = Done es → (k, VTab t) ∉ es.

Lemma path_app h t p q c : path h t p = Some (VTab c) → path h t (p ++ q) = path h c q.
Proof.
  revert t. induction p as [|k p IH]; intros t Hp; cbn in *; [by simplify_eq|].
  destruct (find (nodes_at h t) k) as [v|]; [|done]. destruct p as [|k' p].
  - cbn in *. simplify_eq. by destruct q.
  - cbn [mbind option_bind app] in *. destruct v as [| |c']; [done..|]. by apply IH.
Qed.

Lemma path_snoc h t p k c : path h t p = Some (VTab c) → path h t (p ++ [k]) = find (nodes_at h c) k.
Proof. intros Hp. rewrite (path_app _ _ _ _ c) by done. cbn. by destruct (find _ k). Qed.

(** The table above the last key. *)
Lemma path_last h t p k v :
  path h t (p ++ [k]) = Some v → ∃ c, path h t p = Some (VTab c) ∧ find (nodes_at h c) k = Some v.
Proof.
  revert t. induction p as [|k' p IH]; intros t Hp; cbn in *.
  - exists t. split; [done|]. by destruct (find (nodes_at h t) k).
  - destruct (find (nodes_at h t) k') as [v'|]; [|done]. destruct (p ++ [k]) as [|k2 q] eqn:E; [by destruct p|].
    destruct v' as [| |c]; [done..|]. destruct (IH c Hp) as (c' & Hc & Hk). exists c'. split; [|done]. by destruct p; [cbn in Hc; simplify_eq|].
Qed.

Lemma nodes_at_find h t k v :
  find (nodes_at h t) k = Some v → ∃ es, nodes h t = Done es ∧ find es k = Some v.
Proof. unfold nodes_at. destruct (nodes h t) as [es| |]; [by exists es|done..]. Qed.

Section forest.
Context (h : heap) (Hforest : forest h).

Lemma find_in t es k v : nodes h t = Done es → find es k = Some v ↔ (k, v) ∈ es.
Proof. intros Ht. apply find_Some. by eapply forest_keys. Qed.

Lemma path_live t es p c : nodes h t = Done es → path h t p = Some (VTab c) → ∃ es', nodes h c = Done es'.
Proof.
  intros Ht. destruct p as [|k p _] using rev_ind; [cbn; intros [= <-]; eauto|].
  intros (c' & _ & (es' & Hes & Hk)%nodes_at_find)%path_last. apply (find_in c') in Hk; [|done]. by eapply forest_live.
Qed.

(** One path leads to a table. *)
Lemma path_unique t p q c :
  root h t → path h t p = Some (VTab c) → path h t q = Some (VTab c) → p = q.
Proof.
  intros Hroot. revert q c. induction p as [|k p IH] using rev_ind; intros q c.
  - cbn. intros [= <-]. destruct q as [|k q _] using rev_ind; [done|].
    intros (c' & _ & (es & Hes & Hk)%nodes_at_find)%path_last. apply (find_in c') in Hk; [|done]. by destruct (Hroot c' es k).
  - intros (c1 & Hp & (es1 & Hes1 & Hk1)%nodes_at_find)%path_last. apply (find_in c1) in Hk1; [|done].
    destruct q as [|k2 q _] using rev_ind.
    { cbn. intros [= <-]. by destruct (Hroot c1 es1 k). }
    intros (c2 & Hq & (es2 & Hes2 & Hk2)%nodes_at_find)%path_last. apply (find_in c2) in Hk2; [|done].
    destruct (forest_parent h Hforest c1 es1 k c2 es2 k2 c) as [-> ->]; [done..|]. by rewrite (IH q c2).
Qed.

(** ** The search *)

Inductive walk_spec (t : nat) (ks : list (list ascii)) : walked → Prop :=
  | walk_found p k c es i v : ks = p ++ [k] → path h t p = Some (VTab c) → nodes h c = Done es → es !! i = Some (k, v) →
      path h t ks = Some v → walk_spec t ks (Stop [] c (Some (c, i)))
  | walk_missing p k q c es : ks = p ++ k :: q → path h t p = Some (VTab c) → nodes h c = Done es → k ∉ keys_of es →
      path h t ks = None → walk_spec t ks (Stop (k :: q) c None)
  | walk_notdir p q v : ks = p ++ q → p ≠ [] → q ≠ [] → path h t p = Some v → no_table v → path h t ks = None → walk_spec t ks Notdir.

Lemma walk_ok ks : ∀ t es n, nodes h t = Done es → solid h t ks → ks ≠ [] → ∃ w, walk h ks t n = Done w ∧ walk_spec t ks w.
Proof.
  induction ks as [|k ks IH]; intros t es n Ht Hsolid Hne; [done|]. cbn [walk]. rewrite Ht. cbn [mbind outcome_bind].
  assert (nodes_at h t = es) as Hat by (unfold nodes_at; by rewrite Ht).
  pose proof (forest_keys h Hforest t es Ht) as Hnd. destruct (find_key1 es k) as [i|] eqn:Ei.
  - apply find_key1_Some in Ei as [v Hv]; [|done].
    assert (find es k = Some v) as Hf by (apply find_Some; [done|by eapply list_elem_of_lookup_2]).
    destruct ks as [|k' ks].
    + eexists. split; [done|]. apply (walk_found t [k] [] k t es i v); try done. cbn. by rewrite Hat, Hf.
    + rewrite Hv. cbn [load mbind outcome_bind snd]. destruct v as [|a|c].
      * eexists. split; [done|]. apply (walk_notdir t (k :: k' :: ks) [k] (k' :: ks) VNull); try done; cbn; by rewrite Hat, Hf.
      * destruct (Hsolid [k] (k' :: ks) a) as (s & Hs & Hlen & Hmagic); [done|done|cbn; by rewrite Hat, Hf|].
        unfold is_table. rewrite Hs. cbn [mbind outcome_bind]. rewrite !decide_False by (done || lia). eexists. split; [done|].
        apply (walk_notdir t (k :: k' :: ks) [k] (k' :: ks) (VStr a)); try done; cbn; by rewrite Hat, Hf.
      * destruct (forest_live h Hforest t es k c Ht) as [es' Hes']; [by eapply list_elem_of_lookup_2|].
        assert (tabs h !! c ≠ None) as Hc by (unfold nodes in Hes'; by destruct (tabs h !! c)).
        unfold is_table. destruct (tabs h !! c) as [x|]; [|done]. cbn [load mbind outcome_bind].
        assert (∀ p, path h t (k :: p) = if decide (p = []) then Some (VTab c) else path h c p) as Hstep.
        { intros p. cbn. rewrite Hat, Hf. by destruct p. }
        destruct (IH c es' (Some (t, i)) Hes') as (w & -> & Hw); [|done|].
        { intros p q a E Hq Hpa. apply (Hsolid (k :: p) q a); [cbn; by f_equal|done|]. rewrite Hstep. case_decide; by subst. }
        exists w. split; [done|]. destruct Hw as [p k2 c2 es2 j v E Hp Hn Hv2 Hks|p k2 q c2 es2 E Hp Hn Hk2 Hks|p q v E Hp1 Hq Hp Hnt Hks].
        -- assert (path h t (k :: k' :: ks) = Some v) as Hks' by (by rewrite Hstep, decide_False).
           assert (path h t (k :: p) = Some (VTab c2)) as Hp' by (rewrite Hstep; case_decide; [by subst|done]).
           apply (walk_found t _ (k :: p) k2 c2 es2 j v); [cbn; by f_equal|done..].
        -- assert (path h t (k :: k' :: ks) = None) as Hks' by (by rewrite Hstep, decide_False).
           assert (path h t (k :: p) = Some (VTab c2)) as Hp' by (rewrite Hstep; case_decide; [by subst|done]).
           apply (walk_missing t _ (k :: p) k2 q c2 es2); [cbn; by f_equal|done..].
        -- assert (path h t (k :: k' :: ks) = None) as Hks' by (by rewrite Hstep, decide_False).
           assert (path h t (k :: p) = Some v) as Hp' by (by rewrite Hstep, decide_False).
           apply (walk_notdir t _ (k :: p) q v); [cbn; by f_equal|done..].
  - apply find_key1_None in Ei. eexists. split; [done|]. apply (walk_missing t (k :: ks) [] k ks t es); try done.
    cbn. rewrite Hat. apply find_None in Ei. by rewrite Ei.
Qed.

Lemma sym_get_path t es ks :
  nodes h t = Done es → ks ≠ [] → Forall plain ks → solid h t ks →
  sym_get (Some t) (key_of ks) h = Done (default VNull (path h t ks)).
Proof.
  intros Ht Hne Hks Hsolid. unfold sym_get. rewrite split_key_of by done. cbn [mbind outcome_bind].
  destruct (walk_ok ks t es None Ht Hsolid Hne) as (w & -> & Hw). cbn [mbind outcome_bind].
  destruct Hw as [p k c es' i v _ _ Hn Hv ->|p k q c es' _ _ _ _ ->|p q v _ _ _ _ _ ->]; [|done..].
  cbn [load mbind outcome_bind]. unfold node_at. cbn [fst snd]. rewrite Hn. cbn [mbind outcome_bind]. by rewrite Hv.
Qed.
End forest.

(** ** Changing one table *)

(** [ks] goes on from [p]. *)
Definition extends (p ks : list (list ascii)) : Prop := ∃ q, ks = p ++ q.

Lemma path_change h h' ks : ∀ t,
  (∀ p k q x, ks = p ++ k :: q → path h t p = Some (VTab x) → find (nodes_at h' x) k = find (nodes_at h x) k) →
  path h' t ks = path h t ks.
Proof.
  induction ks as [|k ks IH]; intros t Hsame; [done|]. cbn. rewrite (Hsame [] k ks t) by done.
  destruct (find (nodes_at h t) k) as [v|] eqn:E; [|done]. cbn. destruct ks as [|k' ks]; [done|].
  destruct v as [| |c]; [done..|]. apply IH. intros p k2 q x Ek Hp. apply (Hsame (k :: p) k2 q x).
  - cbn. by f_equal.
  - cbn. rewrite E. cbn. destruct p; [cbn in Hp; by simplify_eq|done].
Qed.

(** The nodes of [c] become [es'], everything else stays. *)
Definition changes (h h' : heap) (c : nat) (es' : list entry) : Prop :=
  nodes h' c = Done es' ∧ (∀ x, x ≠ c → nodes h' x = nodes h x) ∧ next_loc h' = next_loc h.

Lemma set_tab_changes h c x es es' cur :
  tabs h !! c = Some x → nodes h c = Done es → changes h (set_tab c (Symh (Some es') cur) h) c es'.
Proof.
  intros Hc Hn. split_and!; [unfold nodes, set_tab; cbn; by rewrite lookup_insert_eq| |done].
  intros y Hy. unfold nodes, set_tab. cbn. by rewrite lookup_insert_ne.
Qed.

Lemma nodes_tab h c es : nodes h c = Done es → ∃ x, tabs h !! c = Some x ∧ sym x = Some es.
Proof. unfold nodes. destruct (tabs h !! c) as [x|]; [|done]. cbn. destruct (sym x) as [es'|] eqn:E; [|done]. cbn. intros [= ->]. eauto. Qed.

Lemma add_key_ok h c es k v : nodes h c = Done es → ∃ h', add_key c k v h = Done h' ∧ changes h h' c (es ++ [(k, v)]).
Proof.
  intros Hn. destruct (nodes_tab _ _ _ Hn) as (x & Hx & Hs). unfold add_key. rewrite Hx. cbn [load mbind outcome_bind].
  rewrite Hs. cbn [load mbind outcome_bind]. eexists. split; [done|]. by eapply set_tab_changes.
Qed.

Lemma set_data_ok h c es i k v0 v :
  nodes h c = Done es → es !! i = Some (k, v0) → ∃ h', set_data (c, i) v h = Done h' ∧ changes h h' c (<[i := (k, v)]> es).
Proof.
  intros Hn Hi. destruct (nodes_tab _ _ _ Hn) as (x & Hx & Hs). unfold set_data. cbn [fst snd]. rewrite Hx. cbn [load mbind outcome_bind].
  rewrite Hs. cbn [load mbind outcome_bind]. rewrite Hi. cbn [load mbind outcome_bind]. eexists. split; [done|]. by eapply set_tab_changes.
Qed.

(** A value that may be put into a table. *)
Definition detached (h : heap) (v : value) : Prop :=
  match v with VTab c => root h c ∧ ∃ es, nodes h c = Done es | _ => True end.

(** The new nodes of [c]: those of before but for the value of [k]. *)
Definition sets (es es' : list entry) (k : list ascii) (v : value) : Prop :=
  NoDup (keys_of es') ∧ (k, v) ∈ es' ∧ ∀ k' v', (k', v') ∈ es' → (k', v') = (k, v) ∨ k' ≠ k ∧ (k', v') ∈ es.

Lemma sets_snoc es k v : NoDup (keys_of es) → k ∉ keys_of es → sets es (es ++ [(k, v)]) k v.
Proof.
  intros Hnd Hk. unfold sets, keys_of in *. rewrite fmap_app. cbn. split_and!.
  - apply NoDup_app. split_and!; [done|set_solver|apply NoDup_singleton].
  - set_solver.
  - intros k' v' [Hin| ->%list_elem_of_singleton]%elem_of_app; [right|by left]. split; [|done].
    intros ->. apply Hk. apply list_elem_of_fmap. by exists (k, v').
Qed.

Lemma sets_insert es i k v0 v : NoDup (keys_of es) → es !! i = Some (k, v0) → sets es (<[i := (k, v)]> es) k v.
Proof.
  intros Hnd Hi. assert (keys_of (<[i := (k, v)]> es) = keys_of es) as Hkeys.
  { unfold keys_of. rewrite list_fmap_insert. apply list_insert_id. by rewrite list_lookup_fmap, Hi. }
  split_and!; [by rewrite Hkeys| |].
  - apply (list_elem_of_lookup_2 _ i). apply list_lookup_insert_eq. by apply lookup_lt_Some in Hi.
  - intros k' v' [j Hj]%list_elem_of_lookup. apply list_lookup_insert_Some in Hj as [(-> & ? & _)|[Hne Hj]]; [by left|right].
    split; [|by eapply list_elem_of_lookup_2]. intros ->. apply Hne.
    apply (NoDup_lookup (keys_of es) i j k); [done| |]; unfold keys_of; rewrite list_lookup_fmap; [by rewrite Hi|by rewrite Hj].
Qed.

(** [sets] and what is found. *)
Lemma sets_find es es' k v k' : NoDup (keys_of es) → sets es es' k v → (∀ v0, (k', v0) ∈ es → k' ≠ k → (k', v0) ∈ es') →
  find es' k' = if decide (k' = k) then Some v else find es k'.
Proof.
  intros Hnd (Hnd' & Hin & Hsub) Hkeep. case_decide as Hk; [subst; by apply find_Some|].
  destruct (find es k') as [v0|] eqn:E.
  - apply find_Some in E; [|done]. apply find_Some; [done|]. by apply Hkeep.
  - apply find_None. apply find_None in E. intros Hin'. apply E. unfold keys_of in Hin'. apply list_elem_of_fmap in Hin' as ([k2 v2] & -> & Hin2).
    cbn in *. destruct (Hsub k2 v2 Hin2) as [[= ? ?]|[_ H2]]; [done|]. unfold keys_of. apply list_elem_of_fmap. by exists (k2, v2).
Qed.

Section change.
Context (h h' : heap) (c : nat) (es es' : list entry) (k : list ascii) (v : value).
Context (Hforest : forest h) (Hc : nodes h c = Done es) (Hch : changes h h' c es') (Hsets : sets es es' k v).
Context (Hkeep : ∀ k' v0, (k', v0) ∈ es → k' ≠ k → (k', v0) ∈ es').
Context (Hv : detached h v) (Hvc : v ≠ VTab c).

(** Every table entry of [h'] is one of [h] or the new one. *)
Lemma changed_entry t es2 k2 x :
  nodes h' t = Done es2 → (k2, VTab x) ∈ es2 →
  t = c ∧ k2 = k ∧ v = VTab x ∨ v ≠ VTab x ∧ ∃ es1, nodes h t = Done es1 ∧ (k2, VTab x) ∈ es1 ∧ (t = c → k2 ≠ k).
Proof.
  destruct Hch as (H1 & H2 & _). destruct Hsets as (_ & _ & Hsub). destruct (decide (t = c)) as [->|Hne].
  - rewrite H1. intros [= <-] Hin. destruct (Hsub _ _ Hin) as [[= -> <-]|[Hk Hin2]]; [by left|]. right. split; [|by exists es].
    intros ->. destruct Hv as [Hr _]. by apply (Hr c es k2).
  - rewrite H2 by done. intros Ht Hin. right. split; [|by exists es2]. intros ->. destruct Hv as [Hr _]. by apply (Hr t es2 k2).
Qed.

Lemma changed_live t es1 : nodes h t = Done es1 → ∃ es2, nodes h' t = Done es2.
Proof. destruct Hch as (H1 & H2 & _). intros Ht. destruct (decide (t = c)) as [->|]; [eauto|rewrite H2 by done; eauto]. Qed.

Lemma changed_forest : forest h'.
Proof.
  pose proof Hch as (H1 & H2 & H3). pose proof Hsets as (Hnd & _ & _). split.
  - intros t es2 Ht. destruct (decide (t = c)) as [->|]; [by rewrite H1 in Ht; simplify_eq|rewrite H2 in Ht by done; by eapply forest_keys].
  - intros t es2 k2 x Ht Hin. destruct (changed_entry t es2 k2 x Ht Hin) as [(_ & _ & E)|(_ & es1 & Hn1 & Hin1 & _)].
    + clear Hvc. pose proof Hv as Hv'. rewrite E in Hv'. destruct Hv' as [_ [es0 H0]]. by eapply changed_live.
    + destruct (forest_live h Hforest t es1 k2 x) as [es0 H0]; [done..|]. by eapply changed_live.
  - intros t1 e1 k1 t2 e2 k2 x Ht1 Hin1 Ht2 Hin2.
    destruct (changed_entry t1 e1 k1 x Ht1 Hin1) as [(-> & -> & E1)|(E1 & a1 & Ha1 & Hi1 & _)],
      (changed_entry t2 e2 k2 x Ht2 Hin2) as [(-> & -> & E2)|(E2 & a2 & Ha2 & Hi2 & _)]; try done.
    by eapply (forest_parent h Hforest).
  - intros t es2 Ht. rewrite H3. destruct (decide (t = c)) as [->|]; [by eapply forest_fresh|rewrite H2 in Ht by done; by eapply forest_fresh].
Qed.

Lemma changed_root t : root h t → v ≠ VTab t → root h' t.
Proof.
  intros Hr Hne t' es2 k2 Ht Hin. destruct (changed_entry t' es2 k2 t Ht Hin) as [(_ & _ & ?)|(_ & es1 & Hn1 & Hin1 & _)]; [done|].
  by apply (Hr t' es1 k2).
Qed.

Lemma changed_find x k' : find (nodes_at h' x) k' = if decide (x = c ∧ k' = k) then Some v else find (nodes_at h x) k'.
Proof.
  pose proof Hch as (H1 & H2 & _). unfold nodes_at. destruct (decide (x = c)) as [->|Hne].
  - rewrite H1, Hc. rewrite (sets_find es es' k v k'); [|by eapply forest_keys|done|by apply Hkeep].
    destruct (decide (k' = k)); [by rewrite decide_True|by rewrite decide_False by naive_solver].
  - rewrite H2 by done. by rewrite decide_False by naive_solver.
Qed.

(** The paths that do not go through the changed entry. *)
Lemma changed_path t p ks : root h t → path h t p = Some (VTab c) → ¬ extends (p ++ [k]) ks → path h' t ks = path h t ks.
Proof.
  intros Hr Hp Hext. apply path_change. intros p' k' q x -> Hp'. rewrite changed_find. rewrite decide_False; [done|].
  intros [-> ->]. apply Hext. exists q. rewrite (path_unique h Hforest t p' p c) by done. by rewrite <- app_assoc.
Qed.

Lemma changed_path_new t p : root h t → path h t p = Some (VTab c) → path h' t (p ++ [k]) = Some v.
Proof.
  intros Hr Hp. assert (path h' t p = Some (VTab c)) as Hp'.
  { rewrite <- Hp. apply (changed_path t p); [done|done|]. intros [q Hq]. apply (f_equal length) in Hq. rewrite !length_app in Hq. cbn in Hq. lia. }
  rewrite (path_snoc _ _ _ _ _ Hp'), changed_find. by rewrite decide_True.
Qed.
End change.

(** ** sym_put() *)

Lemma newsym_ok h : forest h →
  let n := next_loc h in let h' := (newsym h).2 in
  nodes h' n = Done [] ∧ (∀ x es, nodes h x = Done es → nodes h' x = Done es) ∧ (∀ x, x ≠ n → nodes h' x = nodes h x) ∧
  (∀ t ks, path h' t ks = path h t ks) ∧ forest h' ∧ (∀ t, root h t → root h' t) ∧ root h' n.
Proof.
  intros Hf n h'. assert (nodes h' n = Done []) as Hn by (unfold h', nodes; cbn; by rewrite lookup_insert_eq).
  assert (∀ x, x ≠ n → nodes h' x = nodes h x) as Hne by (intros x Hx; unfold h', nodes; cbn; by rewrite lookup_insert_ne).
  assert (∀ x es, nodes h x = Done es → x ≠ n) as Hold.
  { intros x es Hx ->. pose proof (forest_fresh h Hf n es Hx). unfold n in *. lia. }
  assert (∀ t es k x, nodes h' t = Done es → (k, VTab x) ∈ es → nodes h t = Done es) as Hent.
  { intros t es k x Ht Hin. destruct (decide (t = n)) as [->|]; [|by rewrite <- Hne]. rewrite Hn in Ht. simplify_eq. set_solver. }
  split_and!; [done|intros x es Hx; rewrite Hne; eauto|done| | |intros t Hr t' es k Ht Hin; by eapply Hr; eauto|].
  - intros t ks. apply path_change. intros p k q x _ _. f_equal. unfold nodes_at. destruct (decide (x = n)) as [->|]; [|by rewrite Hne].
    rewrite Hn. destruct (nodes h n) as [es| |] eqn:E; [|done..]. by destruct (Hold n es E).
  - split.
    + intros t es Ht. destruct (decide (t = n)) as [->|]; [rewrite Hn in Ht; simplify_eq; apply NoDup_nil_2|].
      rewrite Hne in Ht by done. by eapply forest_keys.
    + intros t es k c Ht Hin. destruct (forest_live h Hf t es k c) as [es' He]; [eauto|done|]. exists es'. rewrite Hne; eauto.
    + intros. eapply (forest_parent h Hf); eauto.
    + intros t es Ht. cbn. destruct (decide (t = n)) as [->|]; [unfold n; lia|]. rewrite Hne in Ht by done. pose proof (forest_fresh h Hf t es Ht). lia.
  - intros t es k Ht Hin. assert (nodes h t = Done es) as Ht0 by eauto. destruct (forest_live h Hf t es k n Ht0 Hin) as [es' He]. by eapply Hold.
Qed.

(** Two paths of which neither goes on from the other. *)
Definition apart (p q : list (list ascii)) : Prop := ¬ extends p q ∧ ¬ extends q p.

Lemma add_keys_ok kk : ∀ h t e0 p c es d,
  forest h → root h t → nodes h t = Done e0 → path h t p = Some (VTab c) → nodes h c = Done es → kk ≠ [] →
  (∀ k, head kk = Some k → k ∉ keys_of es) → detached h d → d ≠ VTab t → d ≠ VTab c →
  ∃ h', add_keys kk c d h = Done h' ∧ forest h' ∧ root h' t ∧ (∃ e, nodes h' t = Done e) ∧ path h' t (p ++ kk) = Some d ∧
    ∀ ks, apart (p ++ kk) ks → path h' t ks = path h t ks.
Proof.
  induction kk as [|k kk IH]; intros h t e0 p c es d Hf Hr Hlive Hp Hc Hne Hk Hd Hdt Hdc; [done|]. specialize (Hk k eq_refl).
  pose proof (forest_keys h Hf c es Hc) as Hnd. destruct kk as [|k2 kk].
  - cbn [add_keys]. destruct (add_key_ok h c es k d Hc) as (h' & -> & Hch). exists h'.
    pose proof (sets_snoc es k d Hnd Hk) as Hsets. assert (∀ k' v0, (k', v0) ∈ es → k' ≠ k → (k', v0) ∈ es ++ [(k, d)]) as Hkeep by set_solver.
    split_and!; [done|by eapply changed_forest|by eapply changed_root|by eapply changed_live|by eapply changed_path_new|].
    intros ks [Hx _]. by eapply changed_path.
  - change (add_keys (k :: k2 :: kk) c d h) with
      (let '(n, h) := newsym h in h ← add_key c k (VTab n) h; add_keys (k2 :: kk) n d h).
    destruct (newsym_ok h Hf) as (Hn & Hkept & Hne1 & Hpaths & Hf1 & Hroots & Hrn).
    destruct (newsym h) as [n h1] eqn:En. assert (n = next_loc h) as -> by (unfold newsym in En; by simplify_eq). cbn [snd] in *.
    set (n := next_loc h) in *. assert (c ≠ n) as Hcn by (pose proof (forest_fresh h Hf c es Hc); unfold n; lia).
    destruct (add_key_ok h1 c es k (VTab n)) as (h2 & -> & Hch); [by apply Hkept|]. cbn [mbind outcome_bind].
    pose proof (sets_snoc es k (VTab n) Hnd Hk) as Hsets.
    assert (∀ k' v0, (k', v0) ∈ es → k' ≠ k → (k', v0) ∈ es ++ [(k, VTab n)]) as Hkeep by set_solver.
    assert (nodes h1 c = Done es) as Hc1 by (by apply Hkept). assert (path h1 t p = Some (VTab c)) as Hp1 by (by rewrite Hpaths).
    assert (detached h1 (VTab n)) as Hdet by (split; eauto). assert (VTab n ≠ VTab c) as Hvc by congruence.
    assert (∀ x e, nodes h x = Done e → n ≠ x) as Hfresh by (intros x e Hx <-; pose proof (forest_fresh h Hf n e Hx); unfold n in *; lia).
    assert (n ≠ t) as Hnt by eauto.
    assert (path h2 t (p ++ [k]) = Some (VTab n)) as Hp2 by (eapply changed_path_new; eauto).
    assert (nodes h2 n = Done []) as Hn2 by (destruct Hch as (_ & H2 & _); by rewrite H2).
    destruct (changed_live h1 h2 c (es ++ [(k, VTab n)]) Hch t e0) as [e2 He2]; [by apply Hkept|].
    destruct (IH h2 t e2 (p ++ [k]) n [] d) as (h' & -> & Hf' & Hr' & Hl' & Hpath & Hrest); try done.
    + eapply (changed_forest h1 h2 c es _ k (VTab n)); eauto.
    + eapply (changed_root h1 h2 c es _ k (VTab n)); eauto. congruence.
    + intros k' _. set_solver.
    + destruct d as [| |e]; [done..|]. destruct Hd as [Hre [ee He]]. split.
      * eapply (changed_root h1 h2 c es _ k (VTab n)); eauto. intros [= E]. by apply (Hfresh e ee).
      * eapply changed_live; eauto.
    + intros ->. destruct Hd as [_ [ee He]]. by apply (Hfresh n ee).
    + rewrite <- app_assoc in Hpath, Hrest. cbn [app] in Hpath, Hrest. exists h'. split_and!; [done..|].
      intros ks Hap. rewrite Hrest by done. destruct Hap as [Ha1 Ha2].
      destruct (decide (take (length (p ++ [k])) ks = p ++ [k])) as [E|E].
      * rewrite <- (take_drop (length (p ++ [k])) ks), E. set (r := drop _ ks) in *.
        assert (r ≠ []) as Hrne.
        { intros E2. apply Ha2. exists (k2 :: kk). rewrite <- (take_drop (length (p ++ [k])) ks), E. fold r. rewrite E2, app_nil_r. by rewrite <- app_assoc. }
        rewrite (path_app h2 _ _ _ n), <- app_assoc, (path_app h _ _ _ c) by done. destruct r as [|k3 r]; [done|].
        cbn. unfold nodes_at. rewrite Hn2, Hc. apply find_None in Hk. rewrite Hk. done.
      * rewrite <- Hpaths. eapply (changed_path h1 h2 c es _ k (VTab n)); eauto. intros [q ->]. apply E. by rewrite take_app_length.
Qed.

(** [d] is stored under [ks] and the paths apart from it lead where they did. *)
Definition stored (h h' : heap) (t : nat) (ks : list (list ascii)) (d : value) : Prop :=
  sym_get (Some t) (key_of ks) h' = Done d ∧ ∀ ks', apart ks ks' → path h' t ks' = path h t ks'.

Lemma path_prefix h t p q v : path h t (p ++ q) = Some v → q ≠ [] → ∃ c, path h t p = Some (VTab c).
Proof.
  revert t. induction p as [|k p IH]; intros t Hp Hq; cbn in *; [eauto|].
  destruct (find (nodes_at h t) k) as [v'|]; [|done]. cbn in *. destruct (p ++ q) as [|k2 r] eqn:E; [by destruct p, q|].
  destruct v' as [| |c]; [done..|]. destruct p as [|k3 p]; [eauto|]. by apply IH.
Qed.

Lemma stored_get h t e ks d : forest h → nodes h t = Done e → ks ≠ [] → Forall plain ks → path h t ks = Some d →
  sym_get (Some t) (key_of ks) h = Done d.
Proof.
  intros Hf Ht Hne Hks Hp. rewrite (sym_get_path h Hf t e ks) by (try done; intros p q a -> Hq E; destruct (path_prefix h t p q d Hp Hq) as [c ?]; congruence).
  by rewrite Hp.
Qed.

(** Nothing is in the way of a key that is missing from a table. *)
Lemma missing_not_blocked h t p k q c :
  path h t p = Some (VTab c) → find (nodes_at h c) k = None → ¬ blocked h t (p ++ k :: q).
Proof.
  intros Hp Hk (p' & q' & v & E & Hq' & Hv & Hnt). destruct (decide (length p' < length p)) as [Hlt|Hge].
  - assert (p = p' ++ drop (length p') p) as E2.
    { rewrite <- (take_drop (length p') p) at 1. f_equal. apply (f_equal (take (length p'))) in E.
      by rewrite take_app_le, take_app_length in E by lia. }
    rewrite E2 in Hp. apply path_prefix in Hp as [c' Hc']; [rewrite Hc' in Hv; by simplify_eq|].
    intros E3. apply (f_equal length) in E3. rewrite length_drop in E3. cbn in E3. lia.
  - destruct (decide (length p' = length p)) as [Heq|Hne].
    { apply app_inj_1 in E as [-> _]; [|done]. rewrite Hp in Hv. by simplify_eq. }
    assert (p' = p ++ k :: drop (S (length p)) p') as E2.
    { rewrite <- (take_drop (S (length p)) p') at 1. rewrite (cons_middle k), app_assoc. f_equal.
      apply (f_equal (take (S (length p)))) in E. rewrite (take_app_le p') in E by lia.
      rewrite <- E, (cons_middle k), app_assoc. rewrite take_app_le by (rewrite length_app; cbn; lia).
      apply take_ge. rewrite length_app. cbn. lia. }
    rewrite E2, (path_app h t p _ c) in Hv by done. cbn in Hv. by rewrite Hk in Hv.
Qed.

Section put.
Context (h : heap) (t : nat) (e : list entry) (ks : list (list ascii)) (d : value) (flags : put_flag).
Context (Hf : forest h) (Hr : root h t) (Ht : nodes h t = Done e).
Context (Hne : ks ≠ []) (Hks : Forall plain ks) (Hsolid : solid h t ks).
Context (Hd : detached h d) (Hdt : d ≠ VTab t) (Hdp : ∀ p q, ks = p ++ q → q ≠ [] → path h t p ≠ Some d).

Lemma sym_put_spec :
  ∃ r h', sym_put (Some t) (key_of ks) d flags h = Done (r, h') ∧ forest h' ∧ root h' t ∧
    match path h t ks, flags with
    | Some _, NoFlag => r = EEXIST ∧ h' = h
    | Some _, PUT_REPLACE => r = 0%Z ∧ stored h h' t ks d
    | None, _ => (blocked h t ks → r = ENOTDIR ∧ h' = h) ∧ (¬ blocked h t ks → r = 0%Z ∧ stored h h' t ks d)
    end.
Proof.
  unfold sym_put. rewrite split_key_of by done. cbn [mbind outcome_bind].
  destruct (walk_ok h Hf ks t e None Ht Hsolid Hne) as (w & -> & Hw). cbn [mbind outcome_bind].
  destruct Hw as [p k c es i v E Hp Hn Hv Hpath|p k q c es E Hp Hn Hk Hpath|p q v E Hp1 Hq Hp Hnt Hpath]; rewrite Hpath.
  - destruct flags; [exists EEXIST, h; by split_and!|]. cbn [load mbind outcome_bind].
    destruct (set_data_ok h c es i k v d Hn Hv) as (h' & -> & Hch). cbn [mbind outcome_bind]. exists 0%Z, h'.
    pose proof (forest_keys h Hf c es Hn) as Hnd. pose proof (sets_insert es i k v d Hnd Hv) as Hsets.
    assert (d ≠ VTab c) as Hdc by (intros ->; by apply (Hdp p [k])).
    assert (∀ k' v0, (k', v0) ∈ es → k' ≠ k → (k', v0) ∈ <[i:=(k, d)]> es) as Hkeep.
    { intros k' v0 [j Hj]%list_elem_of_lookup Hk'. apply (list_elem_of_lookup_2 _ j). rewrite list_lookup_insert_ne; [done|].
      intros <-. congruence. }
    assert (forest h') as Hf' by (by eapply changed_forest). destruct (changed_live h h' c _ Hch t e Ht) as [e' He'].
    split_and!; [done|done|by eapply (changed_root h h' c es _ k d)|done|]. split.
    + eapply stored_get; [done..|]. rewrite E. by eapply (changed_path_new h h' c es _ k d).
    + intros ks' [Ha _]. rewrite E in Ha. by eapply (changed_path h h' c es _ k d).
  - destruct (add_keys_ok (k :: q) h t e p c es d) as (h' & Hadd & Hf' & Hr' & [e' He'] & Hnew & Hrest); try done.
    { intros k' [= <-]. done. }
    { intros ->. by apply (Hdp p (k :: q)). }
    rewrite Hadd. cbn [mbind outcome_bind]. exists 0%Z, h'. split_and!; [done|done|done| |].
    + rewrite E. intros []%(missing_not_blocked h t p k q c); [done|]. unfold nodes_at. rewrite Hn. by apply find_None.
    + intros _. rewrite <- E in *. split; [done|]. split; [|done]. by eapply stored_get.
  - exists ENOTDIR, h. split_and!; [done..|]. intros []. by exists p, q, v.
Qed.
End put.

(** ** Properties *)

(** C27: sym_put() with a key of several parts stores the data under exactly that
    path: a path that exists is refused with EEXIST unless it is to be replaced; a path
    through an entry that holds a string or nothing instead of a table is refused with
    ENOTDIR, both without a change; otherwise the tables on the way are created, and
    sym_get() then returns the data.  Every path of which neither is a part of the other
    leads where it did.  A string on the way has at least three characters, for its
    magic number is read, and does not look like a table. *)
Theorem sym_put_get h t e ks d flags :
  forest h → root h t → nodes h t = Done e → ks ≠ [] → Forall plain ks → solid h t ks →
  detached h d → d ≠ VTab t → (∀ p q, ks = p ++ q → q ≠ [] → path h t p ≠ Some d) →
  ∃ r h', sym_put (Some t) (key_of ks) d flags h = Done (r, h') ∧
    match path h t ks, flags with
    | Some _, NoFlag => r = EEXIST ∧ h' = h
    | Some _, PUT_REPLACE => r = 0%Z ∧ stored h h' t ks d
    | None, _ => (blocked h t ks → r = ENOTDIR ∧ h' = h) ∧ (¬ blocked h t ks → r = 0%Z ∧ stored h h' t ks d)
    end.
Proof.
  intros. destruct (sym_put_spec h t e ks d flags) as (r & h' & Hput & _ & _ & Hr); [done..|]. by exists r, h'.
Qed.

Definition empty_heap : heap := Heap ∅ ∅ 0.

Lemma empty_forest : forest empty_heap.
Proof. split; intros; by rewrite ?lookup_empty in *. Qed.

Lemma opened_table :
  let h := (newsym empty_heap).2 in forest h ∧ root h 0 ∧ nodes h 0 = Done [] ∧ ∀ ks, ks ≠ [] → path h 0 ks = None.
Proof.
  destruct (newsym_ok empty_heap empty_forest) as (Hn & _ & _ & _ & Hf & _ & Hr). split_and!; [done..|].
  intros [|k ks] Hks; [done|]. cbn [path]. unfold nodes_at. change 0 with (next_loc empty_heap). by rewrite Hn.
Qed.

(** A table that holds a string under [tag]. *)
Definition string_heap : heap := Heap {[ 0 := Symh (Some [(chars "tag", VStr 1)]) None ]} {[ 1 := chars "abort01" ]} 2.

Lemma string_nodes t es : nodes string_heap t = Done es → t = 0 ∧ es = [(chars "tag", VStr 1)].
Proof. destruct t as [|t]; [by intros [= <-]|]. unfold nodes. cbn. by rewrite lookup_singleton_ne. Qed.

Lemma string_forest : forest string_heap ∧ root string_heap 0.
Proof.
  split; [split|]; intros *; repeat intros [-> ->]%string_nodes || intro; cbn;
    try (by_decide || set_solver || lia).
Qed.

Lemma sym_put_get_witness :
  (∃ h', sym_put (Some 0) (chars "tag,_keys,stime") (VStr 7) NoFlag (newsym empty_heap).2 = Done (0%Z, h') ∧
    sym_get (Some 0) (chars "tag,_keys,stime") h' = Done (VStr 7)) ∧
  sym_put (Some 0) (chars "tag,_keys") (VStr 7) NoFlag string_heap = Done (ENOTDIR, string_heap).
Proof.
  split.
  - destruct opened_table as (Hf & Hr & Hn & Hp). set (ks := [chars "tag"; chars "_keys"; chars "stime"]).
    destruct (sym_put_get (newsym empty_heap).2 0 [] ks (VStr 7) NoFlag) as (r & h' & Hput & Hres); try done.
    + repeat constructor; by_decide.
    + intros p q a _ _. destruct p as [|k p]; [done|]. by rewrite Hp.
    + intros p q _ _. destruct p as [|k p]; [done|]. by rewrite Hp.
    + rewrite Hp in Hres by done. destruct Hres as [_ [-> [Hget _]]].
      * intros (p & q & v & _ & _ & Hv & Hnt). destruct p as [|k p]; [cbn in Hv; by simplify_eq|by rewrite Hp in Hv].
      * exists h'. split; [exact Hput|exact Hget].
  - destruct (sym_put_get string_heap 0 [(chars "tag", VStr 1)] [chars "tag"; chars "_keys"] (VStr 7) NoFlag) as (r & h' & Hput & Hres);
      [apply string_forest|apply string_forest|done|done| | |done|done| |].
    + repeat constructor; by_decide.
    + intros [|k [|k2 [|k3 p]]] q a E Hq Hp; [done| |cbn in E; congruence|done]. injection E as <- _.
      cbn in Hp. injection Hp as <-. exists (chars "abort01"). split; [done|split; [cbn; lia|by_decide]].
    + intros [|k [|k2 [|k3 p]]] q E Hq; [done|by injection E as <- _|cbn in E; congruence|done].
    + destruct Hres as [Hb _]. destruct Hb as [-> ->]; [|exact Hput]. by exists [chars "tag"], [chars "_keys"], (VStr 1).
Defined.

(** C39: the tables stay a forest: whatever sym_put() does, the keys of each table are
    distinct, every table entry is a live table that no other entry holds, and the
    top table is in no other one. *)
Theorem sym_put_forest h t e ks d flags :
  forest h → root h t → nodes h t = Done e → ks ≠ [] → Forall plain ks → solid h t ks →
  detached h d → d ≠ VTab t → (∀ p q, ks = p ++ q → q ≠ [] → path h t p ≠ Some d) →
  ∃ r h', sym_put (Some t) (key_of ks) d flags h = Done (r, h') ∧ forest h' ∧ root h' t.
Proof.
  intros. destruct (sym_put_spec h t e ks d flags) as (r & h' & Hput & Hf & Hr & _); [done..|]. by exists r, h'.
Qed.

Lemma sym_put_forest_witness :
  ∃ r h', sym_put (Some 0) (chars "a,b") (VStr 7) PUT_REPLACE (newsym empty_heap).2 = Done (r, h') ∧ forest h'.
Proof.
  destruct opened_table as (Hf & Hr & Hn & Hp). set (ks := [chars "a"; chars "b"]).
  destruct (sym_put_forest (newsym empty_heap).2 0 [] ks (VStr 7) PUT_REPLACE) as (r & h' & Hput & Hf' & _); try done.
  - repeat constructor; by_decide.
  - intros p q a _ _. destruct p as [|k p]; [done|]. by rewrite Hp.
  - intros p q _ _. destruct p as [|k p]; [done|]. by rewrite Hp.
  - exists r, h'. split; [exact Hput|exact Hf'].
Defined.

(** a key without a part, such as the empty string or a comma, makes sym_get()
    dereference a null pointer. *)
Theorem sym_get_no_part t h : sym_get (Some t) [] h = Fault ∧ sym_get (Some t) (chars ",") h = Fault.
Proof. split; reflexivity. Qed.
