(* ===== verification/Scanner.v ===== *)
(** * The scanner of driver output (pan/scan.l, reporter.c, tag_report.c, ltp-scanner.c)

    ltp-scanner reads what ltp-pan prints, stores the keywords of every test in the
    symbol tables of [Symbol] and prints a report.  The rules of the lexer are the
    lengths they match, chosen as lex does: the longest match, and the first rule
    among those.  The actions, the reports and their string buffers are those of the
    C code; a string literal can be read but not written. *)
From stdpp Require Import base strings numbers option list gmap.
From Stdlib Require Import Ascii.
From S2P Require Import Prelude CInt CText SplitStr Symbol.

(** ** State *)

Inductive lex_state := INITIAL | KEY | OUT | CUTS.
Inductive mode := SCAN_OUTSIDE | SCAN_RTSKEY | SCAN_TSTKEY | SCAN_OUTPUT.

#[export] Instance lex_state_eq_dec : EqDecision lex_state.
Proof. solve_decision. Defined.
#[export] Instance mode_eq_dec : EqDecision mode.
Proof. solve_decision. Defined.

(** The variables of scan.l, the store, the line number and the output. *)
Record scan := Scan {
  store_of : heap; lex : lex_state; scan_mode : mode; keys : option nat; ctag : option nat; alltags : option nat;
  yylineno : Z; at_bol : bool; notag : Z; out : list ascii; err : list ascii
}.

Definition set_store h s := Scan h (lex s) (scan_mode s) (keys s) (ctag s) (alltags s) (yylineno s) (at_bol s) (notag s) (out s) (err s).
Definition set_lex l s := Scan (store_of s) l (scan_mode s) (keys s) (ctag s) (alltags s) (yylineno s) (at_bol s) (notag s) (out s) (err s).
Definition set_mode m s := Scan (store_of s) (lex s) m (keys s) (ctag s) (alltags s) (yylineno s) (at_bol s) (notag s) (out s) (err s).
Definition set_keys k s := Scan (store_of s) (lex s) (scan_mode s) k (ctag s) (alltags s) (yylineno s) (at_bol s) (notag s) (out s) (err s).
Definition set_ctag t s := Scan (store_of s) (lex s) (scan_mode s) (keys s) t (alltags s) (yylineno s) (at_bol s) (notag s) (out s) (err s).
Definition set_line n b s := Scan (store_of s) (lex s) (scan_mode s) (keys s) (ctag s) (alltags s) n b (notag s) (out s) (err s).
Definition set_notag n s := Scan (store_of s) (lex s) (scan_mode s) (keys s) (ctag s) (alltags s) (yylineno s) (at_bol s) n (out s) (err s).
Definition add_out t s := Scan (store_of s) (lex s) (scan_mode s) (keys s) (ctag s) (alltags s) (yylineno s) (at_bol s) (notag s) (out s ++ t) (err s).
Definition add_err t s := Scan (store_of s) (lex s) (scan_mode s) (keys s) (ctag s) (alltags s) (yylineno s) (at_bol s) (notag s) (out s) (err s ++ t).

(** The options -e and -i. *)
Record options := Options { extended : bool; iscanner : bool }.

(** ** Steps *)

Definition M (A : Type) : Type := scan → outcome (A * scan).

#[export] Instance M_ret : MRet M := λ A a s, Done (a, s).
#[export] Instance M_bind : MBind M := λ A B k m s,
  match m s with Done (a, s') => k a s' | Fault => Fault | Timeout => Timeout end.

Definition get {A} (f : scan → A) : M A := λ s, Done (f s, s).
Definition put (f : scan → scan) : M () := λ s, Done ((), f s).
Definition lift {A} (o : outcome A) : M A := λ s, match o with Done a => Done (a, s) | Fault => Fault | Timeout => Timeout end.

(** Operations on the store: changing it, or only reading. *)
Definition alloc {A} (f : heap → A * heap) : M A := λ s, let '(a, h) := f (store_of s) in Done (a, set_store h s).
Definition update {A} (f : heap → outcome (A * heap)) : M A := λ s,
  match f (store_of s) with Done (a, h) => Done (a, set_store h s) | Fault => Fault | Timeout => Timeout end.
Definition change (f : heap → outcome heap) : M () := update (λ h, h ← f h; Done ((), h)).
Definition reads {A} (f : heap → outcome A) : M A := h ← get store_of; lift (f h).

Definition print (t : list ascii) : M () := put (add_out t).
Definition print_err (t : list ascii) : M () := put (add_err t).

(** The result of a search used as a table. *)
Definition as_table (v : value) : M (option nat) :=
  match v with VNull => mret None | VTab t => mret (Some t) | VStr _ => lift Fault end.

(** ... or as a string: [None] is NULL. *)
Definition as_string (v : value) : M (option nat) :=
  match v with VNull => mret None | VStr a => mret (Some a) | VTab _ => lift Fault end.

Definition text (a : nat) : M (list ascii) := reads (λ h, str_at h a).

(** A string in memory of its own, or a literal. *)
Inductive cstr := Lit (s : list ascii) | Mem (a : nat).
Definition cstr_text (c : cstr) : M (list ascii) := match c with Lit s => mret s | Mem a => text a end.

Definition KEYSIZE : nat := 255.

(** strcpy(), strcat() or sprintf() into a buffer of KEYSIZE characters. *)
Definition key_buf (s : list ascii) : M (list ascii) := if decide (length s < KEYSIZE) then mret s else lift Fault.

Definition NL : list ascii := [NEWLINE].
Definition SP : list ascii := [" "%char].

(** ** Reports (tag_report.c) *)

(** %-w.ws and %w.ws *)
Definition field (w : nat) (s : list ascii) : list ascii := take w s ++ replicate (w - length (take w s)) " "%char.
Definition rfield (w : nat) (s : list ascii) : list ascii := replicate (w - length (take w s)) " "%char ++ take w s.

Definition FORMAT (a b c d e : list ascii) : list ascii :=
  field 20 a ++ SP ++ field 15 b ++ SP ++ rfield 10 c ++ SP ++ field 20 d ++ SP ++ e ++ NL.

Definition underscores (s : list ascii) : list ascii := (λ c, if decide (c = " "%char) then "_"%char else c) <$> s.

(** The spaces of the result are replaced where it is stored. *)
Definition tr_result (result : cstr) : M () :=
  match result with
  | Lit s => if decide (" "%char ∈ s) then lift Fault else mret ()
  | Mem a => s ← text a; change (λ h, Done (Heap (tabs h) (<[a := underscores s]> (texts h)) (next_loc h)))
  end.

Definition test_result (tag tcid tc : option (list ascii)) (result : option cstr) (tags : option nat) : M () :=
  let tcid := default (chars "-") tcid in
  let tc := default (chars "-") tc in
  let tag := default (chars "test_result: no tag") tag in
  let result := default (Lit (chars "(RESULT IS NULL)")) result in
  e ← reads (sym_get tags (chars "contacts"));
  e ← as_string e;
  expert ← match e with None => mret (chars "UNKNOWN") | Some a => text a end;
  _ ← tr_result result;
  r ← cstr_text result;
  let r := if decide (r = []) then chars "?" else r in
  cont ← lift (split_key expert);
  print (concat ((λ c, FORMAT tag tcid tc r c) <$> cont)).

Definition worst : list (list ascii) := chars <$> ["FAIL"; "BROK"; "PASS"; "CONF"; "WARN"; "INFO"]%string.

(** The position in the table; its length for a status that is not there. *)
Definition rank (t : list ascii) : nat := default (length worst) (fst <$> list_find (λ w, w = t) worst).

Definition worst_case (t1 t2 : cstr) : M cstr :=
  a ← cstr_text t1; b ← cstr_text t2; mret (if decide (rank a < rank b) then t1 else t2).

(** A table that is left without nodes, or a node that is no table, would leave Data
    from an earlier step: the model stops there with a [Fault], and so it does when
    Key was never set.

    The keys of a table, collected with its cursor. *)
Fixpoint collect_loop (fuel : nat) (t : nat) (key : list ascii) (acc : list (list ascii)) (skip : list ascii → bool)
    : M (list (list ascii)) :=
  match fuel with
  | O => lift Timeout
  | S fuel' =>
      let acc := if skip key then acc else acc ++ [key] in
      '(ret, e) ← update (λ h, '(r, e, h) ← sym_seq t [] R_NEXT h; Done ((r, e), h));
      match e with
      | Some (key, _) => if decide (ret = 0%Z) then collect_loop fuel' t key acc skip else mret acc
      | None => mret acc
      end
  end.

Definition collect (t : nat) (skip : list ascii → bool) : M (list (list ascii)) :=
  n ← reads (λ h, es ← nodes h t; Done (length es));
  '(_, e) ← update (λ h, '(r, e, h) ← sym_seq t [] R_FIRST h; Done ((r, e), h));
  match e with
  | None => lift Fault
  | Some (key, _) => collect_loop n t key [] skip
  end.

(** The test cases of one TCID: the worst result and the number of cases. *)
Fixpoint cases_loop (fuel : nat) (t : nat) (keys : option nat) (tag tcid : list ascii) (key : list ascii) (data : value)
    (result : cstr) (tcnum : Z) : M (cstr * Z) :=
  match fuel with
  | O => lift Timeout
  | S fuel' =>
      d ← as_string data;
      d ← lift (load d);
      result ← worst_case result (Mem d);
      _ ← test_result (Some tag) (Some tcid) (Some key) (Some (Mem d)) keys;
      tcnum ← lift (if decide (atoi key ≠ 0%Z) then i32 (tcnum + 1) else Done tcnum);
      '(ret, e) ← update (λ h, '(r, e, h) ← sym_seq t [] R_NEXT h; Done ((r, e), h));
      match e with
      | Some (key, data) => if decide (ret = 0%Z) then cases_loop fuel' t keys tag tcid key data result tcnum else mret (result, tcnum)
      | None => mret (result, tcnum)
      end
  end.

Fixpoint tcid_loop (tcids : list (list ascii)) (t : nat) (keys : option nat) (tag : list ascii) (result : cstr) (tcnum : Z)
    : M (cstr * Z) :=
  match tcids with
  | [] => mret (result, tcnum)
  | tcid :: tcids' =>
      k ← key_buf tcid;
      '(ret, e) ← update (λ h, '(r, e, h) ← sym_seq t k R_CURSOR h; Done ((r, e), h));
      match e with
      | None => lift Fault
      | Some (key, data) =>
          n ← reads (λ h, v ← sym_get (Some t) k h; match v with VTab c => es ← nodes h c; Done (length es) | _ => Done 0 end);
          '(result, tcnum) ← cases_loop n t keys tag tcid key data result tcnum;
          tcid_loop tcids' t keys tag result tcnum
      end
  end.

(** The number behind the colon of the analysis type. *)
Definition tc_count (at_ : list ascii) : outcome Z :=
  r ← splitstr (Some at_) (Some [":"%char]);
  r ← load r;
  ant ← strings (arg_string r) (arg_array r);
  _ ← splitstr_free (Some r);
  Done (match ant with _ :: n :: _ => atoi n | _ => 0%Z end).

Definition cuts_report (t : nat) (keys : option nat) (at_ tag : list ascii) : M () :=
  tccount ← lift (tc_count at_);
  tcids ← collect t (λ k, bool_decide (k = chars "_keys"));
  '(result, tcnum) ← tcid_loop tcids t keys tag (Lit []) 0%Z;
  _ ← test_result (Some tag) (Some (chars "*")) (Some (chars "*")) (Some result) keys;
  if decide (tccount ≠ 0%Z ∧ tccount ≠ tcnum)
  then test_result (Some tag) (Some (chars "-")) (Some (chars "-")) (Some (Lit (chars "TC count wrong"))) keys
  else mret ().

Section scanner.
Context (opt : options).

(** A string value of the keywords of a test. *)
Definition keyword (keys : option nat) (k : list ascii) : M (option nat) := v ← reads (sym_get keys k); as_string v.
Definition keyword_or (keys : option nat) (k d : list ascii) : M (list ascii) :=
  a ← keyword keys k; match a with None => mret d | Some a => text a end.

Definition extended_line (keys : option nat) (tag is_ : list ascii) : M () :=
  ti ← keyword_or keys (chars "termination_id") (chars "No_Termination_ID");
  ty ← keyword_or keys (chars "termination_type") (chars "No_Termination_Type");
  duration ← keyword_or keys (chars "duration") (chars "No_Duration");
  sl ← keyword_or keys (chars "_Start_line") (chars "No_Start_line");
  el ← keyword_or keys (chars "_End_line") (chars "No_End_line");
  contact ← keyword_or keys (chars "contacts") (chars "No_Contacts");
  mystime ← keyword_or keys (chars "stime") (chars "No_stime");
  print (concat ((λ f, f ++ [TAB]) <$> [tag; chars "!"; chars "!"; is_; contact; mystime; duration; ti; ty; sl; el]) ++ NL).

Definition tag_report (ct : option nat) (keys : option nat) : M Z :=
  t ← keyword keys (chars "tag");
  match t with
  | None => mret (-1)%Z
  | Some t =>
  tag ← text t;
  i ← keyword keys (chars "initiation_status");
  match i with
  | None => _ ← test_result (Some tag) None None (Some (Lit (chars "no init status"))) keys; mret (-1)%Z
  | Some i =>
  is_ ← text i;
  let finish := _ ← (if extended opt then tag ← text t; is_ ← text i; extended_line keys tag is_ else mret ()); mret 0%Z in
  if decide (is_ ≠ chars "ok") then _ ← test_result (Some tag) None None (Some (Mem i)) keys; finish
  else
  info ← keyword keys (chars "corefile");
  _ ← match info with
      | None => mret ()
      | Some a => c ← text a;
          if decide (c ≠ chars "no") then test_result (Some tag) None None (Some (Lit (chars "coredump"))) keys else mret ()
      end;
  y ← keyword keys (chars "termination_type");
  match y with
  | None => _ ← test_result (Some tag) None None (Some (Lit (chars "no Term Type"))) keys; mret (-1)%Z
  | Some y =>
  ty ← text y;
  _ ← (if decide (ty ≠ chars "exited") then test_result (Some tag) None None (Some (Mem y)) keys else mret ());
  info ← keyword keys (chars "analysis");
  match info with
  | None => _ ← test_result (Some tag) None None (Some (Lit (chars "no Analysis Type"))) keys; mret (-1)%Z
  | Some a =>
  info ← text a;
  _ ← (if strncmp_eq info (chars "none") 4 then test_result (Some tag) None None (Some (Lit (chars "pass"))) keys
       else if strncmp_eq info (chars "cuts") 4 then
         ct ← lift (load ct); cuts_report ct keys info tag
       else
         ty ← text y;
         if decide (ty ≠ chars "timeout") then
           id ← keyword keys (chars "termination_id");
           match id with
           | None => test_result (Some tag) None None (Some (Lit (chars "no_Term_Id"))) keys
           | Some a => id ← text a;
               test_result (Some tag) None None (Some (Lit (if decide (id ≠ chars "0") then chars "fail" else chars "pass"))) keys
           end
         else mret ());
  finish
  end end end end.

Definition to_out (t : list ascii) : M () := if extended opt then print_err t else print t.

Fixpoint header_loop (fuel : nat) (t : nat) (key : list ascii) (data : value) : M () :=
  match fuel with
  | O => lift Timeout
  | S fuel' =>
      _ ← (if decide (key = chars "PATH") then mret ()
           else a ← as_string data; a ← lift (load a); d ← text a; to_out (field 20 key ++ SP ++ d ++ NL));
      '(ret, e) ← update (λ h, '(r, e, h) ← sym_seq t [] R_NEXT h; Done ((r, e), h));
      match e with
      | Some (key, data) => if decide (ret = 0%Z) then header_loop fuel' t key data else mret ()
      | None => mret ()
      end
  end.

Definition dashes : list ascii := replicate 79 "-"%char.

Definition print_header (t : nat) : M () :=
  _ ← to_out (chars "System Configuration:" ++ NL);
  '(ret, e) ← update (λ h, '(r, e, h) ← sym_seq t (chars "_RTS") R_CURSOR h; Done ((r, e), h));
  _ ← match e with
      | Some (key, data) =>
          n ← reads (λ h, v ← sym_get (Some t) (chars "_RTS") h; match v with VTab c => es ← nodes h c; Done (length es) | _ => Done 0 end);
          header_loop n t key data
      | None => mret ()
      end;
  to_out (NL ++ FORMAT (chars "tag") (chars "tcid") (chars "testcase") (chars "status") (chars "contact") ++ dashes ++ NL).

(** ** The reporter (reporter.c) *)

(** gmtime() and strftime("%x") in the C locale. *)
Definition two_digits (n : Z) : list ascii := fixed_digits 10 2 n.

Definition date_x (clock : Z) : list ascii :=
  (let z := clock / 86400 + 719468 in
   let doe := z mod 146097 in
   let yoe := (doe - doe / 1460 + doe / 36524 - doe / 146096) / 365 in
   let doy := doe - (365 * yoe + yoe / 4 - yoe / 100) in
   let mp := (5 * doy + 2) / 153 in
   let d := doy - (153 * mp + 2) / 5 + 1 in
   let m := if decide (mp < 10) then mp + 3 else mp - 9 in
   let y := yoe + z / 146097 * 400 + (if decide (m ≤ 2) then 1 else 0) in
   two_digits m ++ chars "/" ++ two_digits d ++ chars "/" ++ two_digits (y mod 100))%Z.

(** The first start time that is found becomes the date. *)
Fixpoint find_date (tags : list (list ascii)) (t : nat) : M () :=
  match tags with
  | [] => mret ()
  | tg :: tags' =>
      k ← key_buf (tg ++ chars ",_keys,stime");
      info ← keyword (Some t) k;
      match info with
      | Some a =>
          s ← text a;
          d ← alloc (strdup (date_x (atoi s)));
          _ ← update (sym_put (Some t) (chars "_RTS,date") d NoFlag);
          mret ()
      | None => find_date tags' t
      end
  end.

Fixpoint report_loop (tags : list (list ascii)) (t : nat) : M () :=
  match tags with
  | [] => mret ()
  | tg :: tags' =>
      if decide (tg = chars "_RTS") then report_loop tags' t
      else
        k ← key_buf (tg ++ chars ",_keys");
        v ← reads (sym_get (Some t) k);
        ks ← as_table v;
        match ks with
        | None => mret ()
        | Some ks =>
            k ← key_buf tg;
            v ← reads (sym_get (Some t) k);
            tag ← as_table v;
            _ ← match tag with None => mret 0%Z | Some c => tag_report (Some c) (Some ks) end;
            report_loop tags' t
        end
  end.

Definition scanner_reporter (t : nat) : M () :=
  taglist ← collect t (λ _, false);
  _ ← find_date taglist t;
  _ ← print_header t;
  report_loop taglist t.

Definition reporter (t : nat) : M () := if iscanner opt then mret () else scanner_reporter t.

Definition remove (v : value) : M () := change (λ h, sym_rm (S (S (next_loc h))) v (RmFlags true true) h).

(** The value of a pointer to a table. *)
Definition tab_value (t : option nat) : value := match t with None => VNull | Some t => VTab t end.

Definition scanner_test_end (all ct ks : option nat) : M () :=
  if decide (all = None ∨ ks = None ∨ ct = None) then mret ()
  else
    _ ← update (sym_put ct (chars "_keys") (tab_value ks) NoFlag);
    t ← keyword ks (chars "tag");
    tag ← match t with
          | Some t => text t
          | None =>
              n ← get notag;
              m ← lift (i32 (n + 1));
              _ ← put (set_notag m);
              let tagname := chars "no_tag_" ++ print_d n in
              _ ← print_err (chars "No TAG key!  Using " ++ tagname ++ NL);
              d ← alloc (strdup tagname);
              _ ← update (sym_put ks (chars "tag") d NoFlag);
              mret tagname
          end;
    rm ← reads (sym_get all tag);
    let store := _ ← update (sym_put all tag (tab_value ct) PUT_REPLACE); mret () in
    if decide (rm = VNull) then store
    else
      st ← keyword ks (chars "initiation_status");
      match st with
      | None => remove (tab_value ct)
      | Some a => status ← text a;
          if decide (status ≠ chars "ok") then remove (tab_value ct) else _ ← remove rm; store
      end.

Definition iscanner_test_end (all ct ks : option nat) : M () :=
  if decide (all = None ∨ ks = None ∨ ct = None) then mret ()
  else _ ← update (sym_put ct (chars "_keys") (tab_value ks) NoFlag); _ ← tag_report ct ks; mret ().

Definition test_end (all ct ks : option nat) : M () :=
  if iscanner opt then iscanner_test_end all ct ks else scanner_test_end all ct ks.

(** ** CUTS results *)

(** The words of the matched text, cut by strtok(), with yytext the array that
    tag_report.c declares. *)
Definition cuts_info (yytext : list ascii) : list (list ascii) := words [TAB; " "%char] yytext.

Definition cuts_testcase (yytext : list ascii) (tag : option nat) : M () :=
  tcid ← lift (load (cuts_info yytext !! 0));
  tc ← lift (load (cuts_info yytext !! 1));
  res ← lift (load (cuts_info yytext !! 2));
  key ← key_buf (tcid ++ chars "," ++ tc);
  v ← reads (sym_get tag key);
  old ← as_string v;
  match old with
  | Some a =>
      new ← worst_case (Mem a) (Lit res);
      n ← cstr_text new;
      d ← alloc (strdup n);
      _ ← update (sym_put tag key d PUT_REPLACE);
      change (free (VStr a))
  | None => d ← alloc (strdup res); _ ← update (sym_put tag key d NoFlag); mret ()
  end.

(** ** The lexer (scan.l) *)

Definition mode_name (m : mode) : list ascii :=
  chars match m with
        | SCAN_OUTSIDE => "outside" | SCAN_RTSKEY => "rts_keyword_start"
        | SCAN_TSTKEY => "test_start | execution_status" | SCAN_OUTPUT => "test_output"
        end.
Definition mode_code (m : mode) : Z :=
  match m with SCAN_OUTSIDE => 10 | SCAN_RTSKEY => 20 | SCAN_TSTKEY => 21 | SCAN_OUTPUT => 30 end.

Definition check_mode (yytext : list ascii) (fst : mode) (more : list mode) : M () :=
  m ← get scan_mode;
  n ← get yylineno;
  if decide (m ∈ fst :: more) then mret ()
  else print_err (chars "PARSE ERROR -- Line " ++ print_d n ++ chars " found " ++ yytext ++ chars " in mode " ++ mode_name m ++
    chars "[" ++ print_d (mode_code m) ++ chars "] expected { " ++ mode_name fst ++
    concat ((λ x, chars ", " ++ mode_name x) <$> more) ++ chars " }" ++ NL).

(** The old table is removed and a new one opened. *)
Definition renew (old : option nat) : M nat :=
  _ ← match old with None => mret () | Some t => remove (VTab t) end;
  alloc sym_open.

Definition put_string (k : list ascii) (s : list ascii) : M () :=
  ks ← get keys;
  d ← alloc (strdup s);
  _ ← update (sym_put ks k d NoFlag);
  mret ().

Definition strcasecmp_prefix (s pat : list ascii) : bool :=
  bool_decide ((λ c, if islower c then ascii_of_N (code c - 32) else c) <$> take (length pat) s = pat).

Definition test_output : M () :=
  ks ← get keys;
  at_ ← keyword ks (chars "analysis");
  match at_ with
  | None => mret ()
  | Some a => s ← text a; if strcasecmp_prefix s (chars "CUTS") then put (set_lex CUTS) else mret ()
  end.

Definition rts_keyword_start (yytext : list ascii) : M () :=
  _ ← put (set_lex KEY);
  _ ← check_mode yytext SCAN_OUTSIDE [];
  _ ← put (set_mode SCAN_RTSKEY);
  old ← get keys;
  t ← renew old;
  put (set_keys (Some t)).

Definition rts_keyword_end (yytext : list ascii) : M () :=
  _ ← put (set_lex INITIAL);
  _ ← check_mode yytext SCAN_RTSKEY [];
  _ ← put (set_mode SCAN_OUTSIDE);
  all ← get alltags;
  k ← reads (sym_get all (chars "_RTS"));
  _ ← (if decide (k = VNull) then mret () else remove k);
  ks ← get keys;
  _ ← update (sym_put all (chars "_RTS") (tab_value ks) PUT_REPLACE);
  put (set_keys None).

Definition test_start (yytext : list ascii) : M () :=
  _ ← put (set_lex KEY);
  _ ← check_mode yytext SCAN_OUTSIDE [];
  _ ← put (set_mode SCAN_TSTKEY);
  old ← get keys;
  t ← renew old;
  _ ← put (set_keys (Some t));
  n ← get yylineno;
  _ ← put_string (chars "_Start_line") (print_d n);
  old ← get ctag;
  t ← renew old;
  put (set_ctag (Some t)).

Definition test_output_start (yytext : list ascii) : M () :=
  _ ← put (set_lex OUT);
  _ ← check_mode yytext SCAN_TSTKEY [];
  _ ← put (set_mode SCAN_OUTPUT);
  test_output.

Definition execution_status (yytext : list ascii) : M () :=
  _ ← put (set_lex KEY);
  _ ← check_mode yytext SCAN_TSTKEY [SCAN_OUTPUT];
  put (set_mode SCAN_TSTKEY).

Definition test_end_rule (yytext : list ascii) : M () :=
  _ ← put (set_lex INITIAL);
  _ ← check_mode yytext SCAN_TSTKEY [];
  _ ← put (set_mode SCAN_OUTSIDE);
  n ← get yylineno;
  _ ← put_string (chars "_End_line") (print_d n);
  all ← get alltags; ct ← get ctag; ks ← get keys;
  _ ← test_end all ct ks;
  _ ← put (set_ctag None);
  put (set_keys None).

(** The text before and after the first equals sign. *)
Definition split_eq (s : list ascii) : list ascii * list ascii :=
  let k := take_while (λ c, bool_decide (c ≠ "="%char)) s in (k, drop (S (length k)) s).

Definition keyword_quoted (yytext : list ascii) : M () :=
  let '(key, cont) := split_eq yytext in
  let cont := if decide (head cont = Some DQUOTE) then tail cont else cont in
  let cont := if decide (last cont = Some DQUOTE) then take (length cont - 1) cont else cont in
  put_string key cont.

Definition keyword_plain (yytext : list ascii) : M () :=
  let '(key, cont) := split_eq yytext in put_string key cont.

Definition cuts_result (yytext : list ascii) : M () := t ← get ctag; cuts_testcase yytext t.

(** A rule that matches: the length that is compared, the length of yytext and the
    action. *)
Record matched := Matched { total : nat; yyleng : nat; action : list ascii → M () }.

Definition marker (name : list ascii) (bol : bool) (inp : list ascii) (act : list ascii → M ()) : list matched :=
  if bol && starts_with (name ++ NL) inp then [Matched (S (length name)) (length name) act] else [].

Definition key_char (c : ascii) : bool := isupper c || islower c || bool_decide (c = "_"%char ∨ c = "-"%char).
Definition word_char (c : ascii) : bool := isalnum c || bool_decide (c = "_"%char ∨ c = "-"%char).
Definition blank (c : ascii) : bool := bool_decide (c = " "%char ∨ c = TAB).
Definition white (c : ascii) : bool := blank c || bool_decide (c = NEWLINE).

(** A run of characters, not empty. *)
Definition run (p : ascii → bool) (s : list ascii) : option (list ascii) :=
  if decide (take_while p s = []) then None else Some (drop_while p s).
Definition char (c : ascii) (s : list ascii) : option (list ascii) :=
  match s with x :: s' => if decide (x = c) then Some s' else None | [] => None end.

(** The length of a match, from what is left behind it. *)
Definition upto (inp : list ascii) (rest : option (list ascii)) (act : list ascii → M ()) : list matched :=
  match rest with None => [] | Some r => [Matched (length inp - length r) (length inp - length r) act] end.

Definition quoted_rule (inp : list ascii) : option (list ascii) :=
  s ← run key_char inp; s ← char "="%char s; s ← char DQUOTE s;
  s ← run (λ c, bool_decide (c ≠ DQUOTE ∧ c ≠ NEWLINE)) s; char DQUOTE s.
Definition plain_rule (inp : list ascii) : option (list ascii) :=
  s ← run key_char inp; s ← char "="%char s; run (λ c, negb (white c)) s.
Definition cuts_rule (inp : list ascii) : option (list ascii) :=
  s ← run word_char inp; s ← run blank s; s ← run isdigit s; s ← run blank s;
  s ← run (λ c, isupper c || islower c) s; s ← run blank s; char ":"%char s.
Definition cuts_range_rule (inp : list ascii) : option (list ascii) :=
  s ← run word_char inp; s ← run blank s; s ← run isdigit s; s ← char "-"%char s; s ← run isdigit s; s ← run blank s;
  s ← run (λ c, isupper c || islower c) s; s ← run blank s; char ":"%char s.

Definition skip (_ : list ascii) : M () := mret ().

(** ^.+$ *)
Definition line_rule (bol : bool) (inp : list ascii) : list matched :=
  let l := take_while (λ c, bool_decide (c ≠ NEWLINE)) inp in
  if bol && bool_decide (l ≠ []) && bool_decide (drop_while (λ c, bool_decide (c ≠ NEWLINE)) inp ≠ [])
  then [Matched (S (length l)) (length l) skip] else [].

(** The rules in their order. *)
Definition rules (st : lex_state) (bol : bool) (inp : list ascii) : list matched :=
  marker (chars "<<<rts_keyword_start>>>") bol inp rts_keyword_start ++
  marker (chars "<<<rts_keyword_end>>>") bol inp rts_keyword_end ++
  marker (chars "<<<test_start>>>") bol inp test_start ++
  marker (chars "<<<test_output>>>") bol inp test_output_start ++
  marker (chars "<<<execution_status>>>") bol inp execution_status ++
  marker (chars "<<<test_end>>>") bol inp test_end_rule ++
  (if decide (st = KEY) then
     upto inp (quoted_rule inp) keyword_quoted ++ upto inp (plain_rule inp) keyword_plain ++
     upto inp (run white inp) skip
   else []) ++
  (if decide (st = OUT) then line_rule bol inp else []) ++
  (if decide (st = CUTS) then
     (if bol then upto inp (cuts_rule inp) cuts_result ++ upto inp (cuts_range_rule inp) cuts_result else [])
   else []) ++
  [Matched 1 1 skip].

(** The longest match, the first one among those. *)
Definition best (ms : list matched) : option matched :=
  foldl (λ b m, match b with None => Some m | Some x => if decide (total x < total m) then Some m else b end) None ms.

Definition newlines (s : list ascii) : Z := Z.of_nat (length (filter (λ c, c = NEWLINE) s)).

(** One token: what is left of the input. *)
Definition yylex (inp : list ascii) : M (list ascii) :=
  st ← get lex;
  bol ← get at_bol;
  m ← lift (load (best (rules st bol inp)));
  let yytext := take (yyleng m) inp in
  n ← get yylineno;
  n ← lift (i32 (n + newlines yytext));
  _ ← put (set_line n (bool_decide (last yytext = Some NEWLINE)));
  _ ← action m yytext;
  mret (drop (yyleng m) inp).

Fixpoint scanner_loop (fuel : nat) (inp : list ascii) : M () :=
  match inp with
  | [] => mret ()
  | _ =>
      match fuel with
      | O => lift Timeout
      | S fuel' => inp ← yylex inp; scanner_loop fuel' inp
      end
  end.

(** Every token takes a character. *)
Definition scanner (inp : list ascii) : M () := scanner_loop (length inp) inp.

Definition main (inp : list ascii) : M () :=
  t ← alloc sym_open;
  _ ← put (λ s, Scan (store_of s) (lex s) (scan_mode s) (keys s) (ctag s) (Some t) (yylineno s) (at_bol s) (notag s) (out s) (err s));
  _ ← scanner inp;
  reporter t.
End scanner.

Definition start : scan := Scan (Heap ∅ ∅ 0) INITIAL SCAN_OUTSIDE None None None 1 true 0 [] [].

(** What the program prints. *)
Definition scanned (opt : options) (inp : list ascii) : outcome (list ascii) :=
  '(_, s) ← main opt inp start; Done (out s).
