(* ===== verification/ScannerLex.v ===== *)
(** * The tokens of the scanner

    Which rule of the lexer matches the lines that the driver prints: the markers,
    keywords with and without quotes, white space and the lines of the output. *)
From stdpp Require Import base strings numbers option list.
From Stdlib Require Import Ascii.
From S2P Require Import Prelude CInt CText Symbol Scanner.

(** ** Reading a part of the input *)

Section lex.
Context (opt : options).

Lemma scanner_loop_more f : ∀ f' inp s x, scanner_loop opt f inp s = Done x → f ≤ f' → scanner_loop opt f' inp s = Done x.
Proof.
  induction f as [|f IH]; intros f' inp s x Hx Hf; destruct inp as [|c inp]; cbn [scanner_loop] in *; try done.
  - by destruct f'.
  - by destruct f'.
  - destruct f' as [|f']; [lia|]. cbn [scanner_loop]. unfold mbind, M_bind in *.
    destruct (yylex opt (c :: inp) s) as [[rest s1]| |]; [|done..]. apply IH; [done|lia].
Qed.

(** After [t] the scanner is in state [s'] with [rest] in front of it. *)
Definition reads_to (t rest : list ascii) (s s' : scan) : Prop :=
  ∀ f x, scanner_loop opt f rest s' = Done x → scanner_loop opt (length t + f) (t ++ rest) s = Done x.

Lemma reads_nil rest s : reads_to [] rest s s.
Proof. by intros f x. Qed.

Lemma reads_app t1 t2 rest s s1 s2 :
  reads_to t1 (t2 ++ rest) s s1 → reads_to t2 rest s1 s2 → reads_to (t1 ++ t2) rest s s2.
Proof. intros H1 H2 f x Hx. rewrite length_app, <- Nat.add_assoc, <- app_assoc. by apply H1, H2. Qed.

Lemma reads_all t s s' : reads_to t [] s s' → scanner opt t s = Done ((), s').
Proof. intros Hr. specialize (Hr 0 ((), s') eq_refl). by rewrite Nat.add_0_r, app_nil_r in Hr. Qed.

Lemma reads_token t rest s s' tot act :
  t ≠ [] → best (rules opt (lex s) (at_bol s) (t ++ rest)) = Some (Matched tot (length t) act) →
  (0 ≤ yylineno s)%Z → (yylineno s + newlines t ≤ INT_MAX)%Z →
  act t (set_line (yylineno s + newlines t) (bool_decide (last t = Some NEWLINE)) s) = Done ((), s') →
  reads_to t rest s s'.
Proof.
  intros Hne Hbest H0 Hmax Hact f x Hx. destruct t as [|c t]; [done|]. cbn [length app Nat.add scanner_loop].
  unfold mbind, M_bind at 1. change (c :: t ++ rest) with ((c :: t) ++ rest).
  assert (yylex opt ((c :: t) ++ rest) s = Done (rest, s')) as ->.
  { unfold yylex, get, lift. unfold mbind, M_bind. rewrite Hbest. cbn [load yyleng action].
    rewrite take_app_length, drop_app_length.
    assert (0 ≤ newlines (c :: t))%Z by (unfold newlines; lia). rewrite i32_ok by clia. unfold put. by rewrite Hact. }
  eapply scanner_loop_more; [done|lia].
Qed.

(** ** Choosing a rule *)

Lemma best_first pre m post :
  Forall (λ x, total x < total m) pre → Forall (λ x, total x ≤ total m) post → best (pre ++ m :: post) = Some m.
Proof.
  intros Hpre Hpost. unfold best. rewrite foldl_app. cbn.
  assert (∀ b, match b with None => True | Some x => total x < total m end →
    match foldl (λ b m, match b with None => Some m | Some x => if decide (total x < total m) then Some m else b end) b pre with
    | None => True | Some x => total x < total m end) as Hfold.
  { clear Hpost. induction Hpre as [|y pre Hy _ IH]; intros b Hb; [done|]. cbn. apply IH. destruct b as [x|]; [|done]. by case_decide. }
  specialize (Hfold None I). destruct (foldl _ None pre) as [x|]; [rewrite decide_True by done|]; clear Hfold Hpre;
    (induction Hpost as [|y post Hy _ IH]; [done|]; cbn; by rewrite decide_False by lia).
Qed.

(** The markers start with a less-than sign. *)
Lemma rules_other st bol c inp :
  c ≠ "<"%char →
  rules opt st bol (c :: inp) =
    (if decide (st = KEY) then
       upto (c :: inp) (quoted_rule (c :: inp)) keyword_quoted ++ upto (c :: inp) (plain_rule (c :: inp)) keyword_plain ++
       upto (c :: inp) (run white (c :: inp)) skip
     else []) ++
    (if decide (st = OUT) then line_rule bol (c :: inp) else []) ++
    (if decide (st = CUTS) then
       (if bol then upto (c :: inp) (cuts_rule (c :: inp)) cuts_result ++ upto (c :: inp) (cuts_range_rule (c :: inp)) cuts_result else [])
     else []) ++ [Matched 1 1 skip].
Proof.
  intros Hc. unfold rules. assert (∀ name act, head name = Some "<"%char → marker name bol (c :: inp) act = []) as Hm.
  { intros [|x name] act; [done|]. intros [= ->]. unfold marker, starts_with. cbn [length app take].
    rewrite bool_decide_false by congruence. by rewrite andb_false_r. }
  by rewrite !Hm by done.
Qed.

(** A marker on a line of its own. *)
Definition markers : list (list ascii * (list ascii → M ())) :=
  [(chars "<<<rts_keyword_start>>>", rts_keyword_start); (chars "<<<rts_keyword_end>>>", rts_keyword_end);
   (chars "<<<test_start>>>", test_start); (chars "<<<test_output>>>", test_output_start);
   (chars "<<<execution_status>>>", execution_status); (chars "<<<test_end>>>", test_end_rule opt)].

Lemma best_marker name act st rest :
  (name, act) ∈ markers → best (rules opt st true (name ++ NEWLINE :: rest)) = Some (Matched (S (length name)) (length name) act).
Proof.
  unfold rules, markers. generalize rts_keyword_start as a1, rts_keyword_end as a2, test_start as a3, test_output_start as a4,
    execution_status as a5, (test_end_rule opt) as a6, keyword_quoted as a7, keyword_plain as a8, cuts_result as a9, skip as a10.
  intros a1 a2 a3 a4 a5 a6 a7 a8 a9 a10 Hin.
  repeat (apply elem_of_cons in Hin as [[= -> ->]|Hin]; [destruct st; vm_compute; reflexivity|]). by apply elem_of_nil in Hin.
Qed.

(** ** Runs of characters *)

Lemma run_text (p : ascii → bool) w rest :
  w ≠ [] → Forall p w → (∀ c r, rest = c :: r → p c = false) → run p (w ++ rest) = Some rest.
Proof.
  intros Hne Hw Hrest. unfold run. assert (take_while p (w ++ rest) = w ∧ drop_while p (w ++ rest) = rest) as [-> ->].
  { destruct rest as [|c r]; [rewrite app_nil_r; by apply take_while_all|]. apply take_while_app; [done|by eapply Hrest]. }
  by rewrite decide_False.
Qed.

Lemma run_head (p : ascii → bool) c r : p c = false → run p (c :: r) = None.
Proof. intros Hc. unfold run. cbn. by rewrite Hc, decide_True. Qed.

Lemma char_head c r : char c (c :: r) = Some r.
Proof. cbn. by rewrite decide_True. Qed.

Lemma upto_app t rest act : upto (t ++ rest) (Some rest) act = [Matched (length t) (length t) act].
Proof. unfold upto. rewrite length_app. by replace (length t + length rest - length rest) with (length t) by lia. Qed.

(** ** The tokens of keywords *)

Definition quote_free (c : ascii) : bool := bool_decide (c ≠ DQUOTE ∧ c ≠ NEWLINE).
Definition dark (c : ascii) : bool := negb (white c).

Definition quoted_text (k v : list ascii) : list ascii := k ++ "="%char :: DQUOTE :: v ++ [DQUOTE].
Definition plain_text (k v : list ascii) : list ascii := k ++ "="%char :: v.

Lemma key_char_eq : key_char "="%char = false.
Proof. by vm_compute. Qed.

Lemma key_not_less (c : ascii) : key_char c → c ≠ "<"%char.
Proof. by intros Hc ->. Qed.
Lemma key_not_white (c : ascii) : key_char c → white c = false.
Proof. destruct c as [[] [] [] [] [] [] [] []]; by vm_compute. Qed.

Lemma plain_rule_ok k v rest :
  k ≠ [] → Forall key_char k → v ≠ [] → Forall dark v → (∀ c r, rest = c :: r → white c) →
  plain_rule (plain_text k v ++ rest) = Some rest.
Proof.
  intros Hk Hkc Hv Hvc Hrest. unfold plain_rule, plain_text. rewrite <- app_assoc. cbn [app].
  rewrite run_text; [|done|done|by intros c r [= <- _]]. cbn [mbind option_bind]. rewrite char_head. cbn [mbind option_bind].
  apply run_text; [done|done|]. intros c r ->. specialize (Hrest c r eq_refl). by destruct (white c).
Qed.

Lemma quoted_rule_ok k v rest :
  k ≠ [] → Forall key_char k → v ≠ [] → Forall quote_free v → quoted_rule (quoted_text k v ++ rest) = Some rest.
Proof.
  intros Hk Hkc Hv Hvc. unfold quoted_rule, quoted_text. rewrite <- app_assoc. cbn [app]. rewrite <- app_assoc. cbn [app].
  rewrite run_text; [|done|done|by intros c r [= <- _]]. cbn [mbind option_bind]. rewrite char_head. cbn [mbind option_bind].
  rewrite char_head. cbn [mbind option_bind]. rewrite run_text; [|done|done|by intros c r [= <- _]]. cbn [mbind option_bind].
  apply char_head.
Qed.

(** A keyword without quotes has no white space. *)
Lemma run_Some (p : ascii → bool) s r : run p s = Some r → ∃ m, s = m ++ r ∧ Forall p m.
Proof.
  unfold run. case_decide; [done|]. intros [= <-]. exists (take_while p s). split; [by rewrite take_drop_while|apply take_while_Forall].
Qed.

Lemma plain_rule_dark inp r : plain_rule inp = Some r → ∃ m, inp = m ++ r ∧ Forall dark m.
Proof.
  unfold plain_rule. intros (s1 & (m1 & -> & H1)%run_Some & (s2 & Hs2 & (m2 & -> & H2)%run_Some)%bind_Some)%bind_Some.
  destruct s1 as [|c s1]; [done|]. cbn in Hs2. case_decide as Ec; [|done]. simplify_eq. exists (m1 ++ "="%char :: m2).
  rewrite <- app_assoc. split; [done|]. apply Forall_app. split.
  - eapply Forall_impl; [done|]. intros c Hc. unfold dark. by rewrite key_not_white.
  - by constructor.
Qed.

Lemma plain_total t rest m :
  (∀ c r, rest = c :: r → white c) → m ∈ upto (t ++ rest) (plain_rule (t ++ rest)) keyword_plain → total m ≤ length t.
Proof.
  intros Hrest. unfold upto. destruct (plain_rule (t ++ rest)) as [r|] eqn:E; [|by rewrite elem_of_nil].
  apply plain_rule_dark in E as (d & E & Hd). rewrite list_elem_of_singleton. intros ->. cbn [total].
  destruct (decide (length d ≤ length t)) as [Hle|Hgt]; [rewrite E, length_app; lia|]. exfalso.
  apply (f_equal (lookup (length t))) in E. rewrite lookup_app_r, Nat.sub_diag in E by lia.
  rewrite (lookup_app_l d) in E by lia. destruct rest as [|c rest].
  { symmetry in E. cbn in E. apply lookup_ge_None in E. lia. }
  symmetry in E. cbn in E. specialize (Hrest c rest eq_refl). rewrite Forall_lookup in Hd. apply Hd in E. unfold dark in E.
  by destruct (white c).
Qed.

Lemma best_quoted bol k v rest :
  k ≠ [] → Forall key_char k → v ≠ [] → Forall quote_free v → (∀ c r, rest = c :: r → white c) →
  let t := quoted_text k v in best (rules opt KEY bol (t ++ rest)) = Some (Matched (length t) (length t) keyword_quoted).
Proof.
  intros Hk Hkc Hv Hvc Hrest t. pose proof (quoted_rule_ok k v rest Hk Hkc Hv Hvc) as Hq. fold t in Hq.
  assert (∃ c r, t ++ rest = c :: r ∧ key_char c) as (c & r & E & Hc).
  { subst t. destruct Hkc as [|c k Hc Hkc]; [done|]. by exists c, ((k ++ "="%char :: DQUOTE :: v ++ [DQUOTE]) ++ rest). }
  pose proof (plain_total t rest) as Hp. rewrite E in *. rewrite rules_other by by apply key_not_less.
  rewrite decide_True, !decide_False by done. rewrite (run_head white) by by apply key_not_white.
  rewrite <- E in *. rewrite Hq, upto_app. apply (best_first []); [done|].
  apply Forall_app. split; [by apply Forall_forall; intros m Hm; rewrite app_nil_r in Hm; apply Hp|].
  constructor; [cbn|done]. subst t. unfold quoted_text. destruct k; [done|]. cbn. lia.
Qed.

Lemma best_plain bol k v rest :
  k ≠ [] → Forall key_char k → v ≠ [] → Forall dark v → (∀ c r, rest = c :: r → white c) →
  let t := plain_text k v in quoted_rule (t ++ rest) = None →
  best (rules opt KEY bol (t ++ rest)) = Some (Matched (length t) (length t) keyword_plain).
Proof.
  intros Hk Hkc Hv Hvc Hrest t Hq. pose proof (plain_rule_ok k v rest Hk Hkc Hv Hvc Hrest) as Hp. fold t in Hp.
  assert (∃ c r, t ++ rest = c :: r ∧ key_char c) as (c & r & E & Hc).
  { subst t. destruct Hkc as [|c k Hc Hkc]; [done|]. by exists c, ((k ++ "="%char :: v) ++ rest). }
  rewrite E in *. rewrite rules_other by by apply key_not_less.
  rewrite decide_True, !decide_False by done. rewrite (run_head white) by by apply key_not_white.
  rewrite <- E in *. rewrite Hq, Hp, upto_app. apply (best_first []); [done|].
  constructor; [cbn|done]. subst t. unfold plain_text. destruct k; [done|]. cbn. lia.
Qed.

(** A value that does not start with a quote, or that is two of them. *)
Lemma not_quoted k v rest :
  k ≠ [] → Forall key_char k → head v ≠ Some DQUOTE → v ≠ [] → quoted_rule (plain_text k v ++ rest) = None.
Proof.
  intros Hk Hkc Hv Hne. unfold quoted_rule, plain_text. rewrite <- app_assoc. cbn [app].
  rewrite run_text; [|done|done|by intros c r [= <- _]]. cbn [mbind option_bind]. rewrite char_head. cbn [mbind option_bind].
  destruct v as [|c v]; [done|]. cbn. by rewrite decide_False by by intros ->; apply Hv.
Qed.

Lemma empty_not_quoted k rest : k ≠ [] → Forall key_char k → quoted_rule (plain_text k [DQUOTE; DQUOTE] ++ rest) = None.
Proof.
  intros Hk Hkc. unfold quoted_rule, plain_text. rewrite <- app_assoc. cbn [app].
  rewrite run_text; [|done|done|by intros c r [= <- _]]. cbn [mbind option_bind]. rewrite char_head. cbn [mbind option_bind].
  rewrite char_head. cbn [mbind option_bind]. by rewrite run_head.
Qed.

(** White space between keywords. *)
Lemma white_not_key (c : ascii) : white c → key_char c = false ∧ c ≠ "<"%char.
Proof. destruct c as [[] [] [] [] [] [] [] []]; by vm_compute. Qed.

Lemma best_white bol w rest :
  w ≠ [] → Forall white w → (∀ c r, rest = c :: r → white c = false) →
  best (rules opt KEY bol (w ++ rest)) = Some (Matched (length w) (length w) skip).
Proof.
  intros Hw Hwc Hrest. pose proof (run_text white w rest Hw Hwc Hrest) as Hr.
  assert (∃ c r, w ++ rest = c :: r ∧ white c) as (c & r & E & Hc).
  { destruct Hwc as [|c w Hc Hwc]; [done|]. by exists c, (w ++ rest). }
  rewrite E in *. destruct (white_not_key c Hc) as [Hkey Hless]. rewrite rules_other by done.
  rewrite decide_True, !decide_False by done. unfold quoted_rule, plain_rule. rewrite (run_head key_char) by done.
  cbn [mbind option_bind upto app]. rewrite Hr, <- E. rewrite upto_app. apply (best_first []); [done|].
  constructor; [cbn|done]. destruct w; [done|]. cbn. lia.
Qed.

(** ** The output of a test *)

Definition line_char (c : ascii) : bool := bool_decide (c ≠ NEWLINE).

Lemma marker_line name bol l rest act :
  NEWLINE ∉ name → NEWLINE ∉ l → l ≠ name → marker name bol (l ++ NEWLINE :: rest) act = [].
Proof.
  intros Hname Hl Hne. unfold marker, starts_with. rewrite bool_decide_false; [by rewrite andb_false_r|]. intros E. apply Hne.
  assert (l ++ NEWLINE :: rest = name ++ NEWLINE :: drop (length (name ++ NL)) (l ++ NEWLINE :: rest)) as E2.
  { rewrite <- (take_drop (length (name ++ NL)) (l ++ NEWLINE :: rest)) at 1. by rewrite E, <- app_assoc. }
  assert (∀ a, NEWLINE ∉ a → Forall line_char a) as Hline.
  { intros a Ha. apply Forall_forall. intros c Hc. unfold line_char. apply bool_decide_pack. by intros ->. }
  pose proof (proj1 (take_while_app line_char l NEWLINE rest (Hline l Hl) eq_refl)) as H1. rewrite E2 in H1.
  rewrite (proj1 (take_while_app line_char name NEWLINE _ (Hline name Hname) eq_refl)) in H1. done.
Qed.

Lemma best_line l rest :
  l ≠ [] → NEWLINE ∉ l → l ∉ markers.*1 →
  best (rules opt OUT true (l ++ NEWLINE :: rest)) = Some (Matched (S (length l)) (length l) skip).
Proof.
  intros Hne Hl Hm. assert (∀ name, name ∈ markers.*1 → l ≠ name) as Hn by (by intros name Hin ->).
  unfold rules. rewrite !marker_line; try by_decide; try done;
    try (apply Hn; unfold markers; cbn [fmap list_fmap fst]; repeat first [apply list_elem_of_here | apply list_elem_of_further]; fail).
  rewrite decide_False, decide_True, decide_False by done. unfold line_rule.
  destruct (take_while_app line_char l NEWLINE rest) as [H1 H2]; [|done|].
  { apply Forall_forall. intros c Hc. unfold line_char. apply bool_decide_pack. by intros ->. }
  unfold line_char in H1, H2. rewrite H1, H2, !bool_decide_true by done. cbn [andb app].
  apply (best_first [] _ [Matched 1 1 skip]); [done|]. constructor; [cbn; lia|done].
Qed.

Lemma best_newline st bol rest : st = OUT ∨ st = INITIAL → best (rules opt st bol (NEWLINE :: rest)) = Some (Matched 1 1 skip).
Proof. intros Hst. rewrite rules_other by done. by destruct Hst as [-> | ->], bol. Qed.
End lex.
