(* ===== verification/ScannerStore.v ===== *)
(** * The tables of the scanner

    The tables that the scanner builds: one of strings for every test, below the
    table of its tag, below the table of all tags.  The locations of a test lie in
    an interval, so that what changes for one test leaves the others alone. *)
From stdpp Require Import base strings numbers option list gmap.
From Stdlib Require Import Ascii.
From S2P Require Import Prelude CInt CText SplitStr Symbol SymbolSpec Scanner.

(** ** Looking up and adding a key *)

Definition tab (es : list entry) : symh := Symh (Some es) None.

Lemma nodes_table h t es cur : tabs h !! t = Some (Symh (Some es) cur) → nodes h t = Done es.
Proof. intros Ht. unfold nodes. by rewrite Ht. Qed.

Lemma walk_one h k t es n :
  nodes h t = Done es →
  walk h [k] t n = Done (match find_key1 es k with None => Stop [k] t None | Some i => Stop [] t (Some (t, i)) end).
Proof. intros Ht. cbn. rewrite Ht. cbn. by destruct (find_key1 es k). Qed.

Lemma walk_down h k k' ks t es c n :
  nodes h t = Done es → find es k = Some (VTab c) → is_Some (tabs h !! c) →
  walk h (k :: k' :: ks) t n = walk h (k' :: ks) c None.
Proof.
  intros Ht (i & Hi & Hv)%bind_Some [x Hx]. cbn [walk]. rewrite Ht. cbn [mbind outcome_bind]. rewrite Hi.
  apply fmap_Some in Hv as ([k2 v] & Hv & E). rewrite Hv. cbn in *. subst v. cbn. by rewrite Hx.
Qed.

Lemma sym_get_one h k t es : nodes h t = Done es → plain k → sym_get (Some t) k h = Done (default VNull (find es k)).
Proof.
  intros Ht Hk. unfold sym_get. rewrite split_key_one by done. cbn [mbind outcome_bind]. rewrite (walk_one _ _ _ es) by done.
  cbn [mbind outcome_bind]. unfold find. destruct (find_key1 es k) as [i|] eqn:Ei; [|done]. cbn [load mbind outcome_bind option_bind].
  unfold node_at. cbn [fst snd]. rewrite Ht. cbn [mbind outcome_bind]. unfold find_key1 in Ei.
  apply fmap_Some in Ei as ([j e] & (Hl & _)%list_find_Some & ->). cbn. by rewrite Hl.
Qed.

(** A key with several parts is looked up from table to table. *)
Lemma sym_get_down h k ks t es c :
  nodes h t = Done es → find es k = Some (VTab c) → is_Some (tabs h !! c) → ks ≠ [] → Forall plain (k :: ks) →
  sym_get (Some t) (key_of (k :: ks)) h = sym_get (Some c) (key_of ks) h.
Proof.
  intros Ht Hk Hc Hne Hp. unfold sym_get. rewrite !split_key_of; [|done|by inversion Hp|done|done]. cbn [mbind outcome_bind].
  destruct ks as [|k' ks]; [done|]. by rewrite (walk_down _ _ _ _ _ es c).
Qed.

Lemma sym_put_new h k v t es cur flags :
  tabs h !! t = Some (Symh (Some es) cur) → plain k → k ∉ keys_of es →
  sym_put (Some t) k v flags h = Done (0%Z, set_tab t (Symh (Some (es ++ [(k, v)])) cur) h).
Proof.
  intros Ht Hk Hn. unfold sym_put. rewrite split_key_one by done. cbn [mbind outcome_bind].
  rewrite (walk_one _ _ _ es) by by eapply nodes_table. apply find_key1_None in Hn. rewrite Hn. cbn. unfold add_key. by rewrite Ht.
Qed.

(** ** Tables of strings *)

Definition value_of (kv : list (list ascii * list ascii)) (k : list ascii) : option (list ascii) :=
  p ← list_find (λ p, p.1 = k) kv; Some p.2.2.

Definition string_at (h : heap) (lo hi : nat) (e : entry) (p : list ascii * list ascii) : Prop :=
  e.1 = p.1 ∧ ∃ a, e.2 = VStr a ∧ lo ≤ a < hi ∧ texts h !! a = Some p.2.

Definition holds (h : heap) (lo hi t : nat) (kv : list (list ascii * list ascii)) : Prop :=
  lo ≤ t < hi ∧ ∃ es, tabs h !! t = Some (tab es) ∧ Forall2 (string_at h lo hi) es kv.

(** The locations of an interval are the same in two stores. *)
Definition same_in (lo hi : nat) (h h' : heap) : Prop :=
  ∀ a, lo ≤ a < hi → tabs h' !! a = tabs h !! a ∧ texts h' !! a = texts h !! a.

Lemma same_in_trans lo hi h1 h2 h3 : same_in lo hi h1 h2 → same_in lo hi h2 h3 → same_in lo hi h1 h3.
Proof. intros H1 H2 a Ha. destruct (H1 a Ha) as [<- <-]. by apply H2. Qed.

Lemma same_in_sub lo hi lo' hi' h h' : same_in lo hi h h' → lo ≤ lo' → hi' ≤ hi → same_in lo' hi' h h'.
Proof. intros Hs ?? a ?. apply Hs. lia. Qed.

Lemma holds_same h h' lo hi hi' t kv : holds h lo hi t kv → same_in lo hi h h' → hi ≤ hi' → holds h' lo hi' t kv.
Proof.
  intros (Hl & es & Ht & Hes) Hs Hhi. split; [lia|]. exists es. split; [by rewrite (proj1 (Hs t Hl))|].
  eapply Forall2_impl; [done|]. intros e p (E & a & Ha & Hr & Hv). split; [done|]. exists a. split_and!; [done|lia|lia|].
  by rewrite (proj2 (Hs a Hr)).
Qed.

Lemma holds_keys h lo hi es kv : Forall2 (string_at h lo hi) es kv → keys_of es = kv.*1.
Proof. induction 1 as [|e p es kv [E _] _ IH]; [done|]. unfold keys_of in *. rewrite !fmap_cons. by f_equal. Qed.

Lemma holds_find h lo hi es kv k :
  Forall2 (string_at h lo hi) es kv →
  match value_of kv k with
  | None => find es k = None
  | Some v => ∃ a, find es k = Some (VStr a) ∧ lo ≤ a < hi ∧ texts h !! a = Some v
  end.
Proof.
  unfold value_of, find, find_key1. induction 1 as [|e p es kv (E & a & Ha & Hr & Hv) _ IH]; [done|].
  cbn [list_find]. destruct (decide (p.1 = k)) as [Ek|Ek].
  - rewrite decide_True by by rewrite E. cbn. exists a. rewrite Ha. done.
  - rewrite decide_False by by rewrite E.
    destruct (list_find (λ p, p.1 = k) kv) as [[i q]|]; cbn in *.
    + destruct IH as (b & Hb & Hrest). exists b. split; [|done]. destruct (list_find (λ e0, e0.1 = k) es) as [[j e']|]; [|done]. done.
    + by destruct (list_find (λ e0, e0.1 = k) es) as [[j e']|].
Qed.

(** ** Finished tests *)

(** What is reported about a test. *)
Record summary := Summary {
  sum_tag : list ascii; sum_stime : Z; sum_init : list ascii; sum_core : bool; sum_type : list ascii; sum_id : Z
}.

Definition describes (kv : list (list ascii * list ascii)) (r : summary) : Prop :=
  value_of kv (chars "tag") = Some (sum_tag r) ∧ value_of kv (chars "stime") = Some (print_d (sum_stime r)) ∧
  value_of kv (chars "contacts") = Some [DQUOTE; DQUOTE] ∧ value_of kv (chars "analysis") = Some (chars "exit") ∧
  value_of kv (chars "initiation_status") = Some (sum_init r) ∧
  value_of kv (chars "corefile") = Some (if sum_core r then chars "yes" else chars "no") ∧
  value_of kv (chars "termination_type") = Some (sum_type r) ∧ value_of kv (chars "termination_id") = Some (print_d (sum_id r)).

(** The tables of the tests, in their order and in intervals from [lo] to [hi]. *)
Inductive shelf (h : heap) : nat → list entry → list summary → nat → Prop :=
  | shelf_nil lo : shelf h lo [] [] lo
  | shelf_cons lo mid hi c k kv es r rs :
      lo ≤ c < mid → tabs h !! c = Some (tab [(chars "_keys", VTab k)]) → holds h lo mid k kv → describes kv r →
      shelf h mid es rs hi → shelf h lo ((sum_tag r, VTab c) :: es) (r :: rs) hi.

Lemma shelf_le h lo es rs hi : shelf h lo es rs hi → lo ≤ hi.
Proof. induction 1; lia. Qed.

Lemma shelf_same h h' lo es rs hi : shelf h lo es rs hi → same_in lo hi h h' → shelf h' lo es rs hi.
Proof.
  induction 1 as [|lo mid hi c k kv es r rs Hc Ht Hk Hd Hs IH]; intros Hsame; [constructor|]. pose proof (shelf_le _ _ _ _ _ Hs) as Hle.
  apply (shelf_cons _ lo mid hi c k kv); [done| | |done|].
  - rewrite (proj1 (Hsame c ltac:(lia))). done.
  - eapply holds_same; [done|by eapply same_in_sub|done].
  - apply IH. eapply same_in_sub; [done|lia|lia].
Qed.

Lemma shelf_app h lo es rs mid es' rs' hi :
  shelf h lo es rs mid → shelf h mid es' rs' hi → shelf h lo (es ++ es') (rs ++ rs') hi.
Proof. induction 1; [done|]. intros. cbn. eapply shelf_cons; eauto. Qed.

Lemma shelf_keys h lo es rs hi : shelf h lo es rs hi → keys_of es = sum_tag <$> rs.
Proof. induction 1 as [|? ? ? ? ? ? ? ? ? ? ? ? ? ? IH]; [done|]. unfold keys_of in *. rewrite !fmap_cons. by f_equal. Qed.

(** ** A test that is being read *)

(** The tests before it, its tables of keywords and results, and its keywords. *)
Definition bench (h : heap) (es : list entry) (rs : list summary) (k c : nat) (kv : list (list ascii * list ascii)) : Prop :=
  ∃ lo n, tabs h !! 0 = Some (tab es) ∧ shelf h 1 es rs lo ∧ lo ≤ c < next_loc h ∧ c ≠ k ∧ tabs h !! c = Some (tab []) ∧
    holds h lo (next_loc h) k ((chars "_Start_line", print_d n) :: kv).

Lemma same_strdup lo h v : same_in lo (next_loc h) h (strdup v h).2.
Proof. intros a Ha. cbn. split; [done|]. by rewrite lookup_insert_ne by lia. Qed.

Lemma same_set_tab lo hi t x h : ¬ (lo ≤ t < hi) → same_in lo hi h (set_tab t x h).
Proof. intros Hn a Ha. cbn. split; [|done]. rewrite lookup_insert_ne; [done|]. by intros ->. Qed.

Lemma bench_put h es rs k c kv key v :
  bench h es rs k c kv → plain key → key ≠ chars "_Start_line" → key ∉ kv.*1 →
  ∃ h', sym_put (Some k) key (strdup v h).1 NoFlag (strdup v h).2 = Done (0%Z, h') ∧ bench h' es rs k c (kv ++ [(key, v)]).
Proof.
  intros (lo & n & H0 & Hsh & Hc & Hck & Htc & (Hk & ts & Ht & Hts)) Hkey Hs Hn. pose proof (shelf_le _ _ _ _ _ Hsh) as Hlo.
  pose proof (same_strdup 0 h v) as Hsame. set (h1 := (strdup v h).2) in *.
  assert (next_loc h1 = S (next_loc h)) as Hnext by done.
  rewrite (sym_put_new h1 key _ k ts None); [|by rewrite (proj1 (Hsame k ltac:(lia)))|done|].
  2:{ rewrite (holds_keys _ _ _ _ _ Hts). cbn. rewrite elem_of_cons. intros [?|?]; done. }
  eexists. split; [done|]. exists lo, n.
  assert (∀ a, a ≠ k → tabs (set_tab k (tab (ts ++ [(key, VStr (next_loc h))])) h1) !! a = tabs h !! a) as Htabs.
  { intros a Ha. cbn. by rewrite lookup_insert_ne. }
  split_and!; try done; try (cbn; lia).
  - by rewrite Htabs by lia.
  - eapply shelf_same; [done|]. eapply same_in_trans; [eapply same_in_sub; [exact Hsame|lia|lia]|]. apply same_set_tab. lia.
  - by rewrite Htabs.
  - split; [cbn; lia|]. exists (ts ++ [(key, VStr (next_loc h))]). split; [cbn; by rewrite lookup_insert_eq|].
    change (?p :: kv ++ [(key, v)]) with ((p :: kv) ++ [(key, v)]). apply Forall2_app.
    + eapply Forall2_impl; [done|]. intros e p (E & a & Ha & Hr & Hv). split; [done|]. exists a. split_and!; [done|lia|cbn; lia|].
      cbn. by rewrite lookup_insert_ne by lia.
    + constructor; [|done]. split; [done|]. exists (next_loc h). split_and!; [done|lia|cbn; lia|]. cbn. by rewrite lookup_insert_eq.
Qed.
