(* ===== verification/ScannerRead.v ===== *)
(** * Reading the report of a test

    From the marker of its start to that of its end, the scanner collects the
    keywords of a test and then stores them under its tag. *)
From stdpp Require Import base strings numbers option list gmap.
From Stdlib Require Import Ascii.
From S2P Require Import Prelude CInt CText SplitStr Symbol SymbolSpec Scanner ScannerLex ScannerStore.

(** ltp-scanner without options. *)
Definition no_options : options := Options false false.

Abbreviation reads_to := (ScannerLex.reads_to no_options).

Lemma then_done {A B} (m : M A) (k : A → M B) s a s1 : m s = Done (a, s1) → (m ≫= k) s = k a s1.
Proof. intros E. unfold mbind, M_bind. by rewrite E. Qed.

(** ** States *)

(** In front of a test, after the tests [rs]. *)
Definition idle (bol : bool) (rs : list summary) (s : scan) : Prop :=
  lex s = INITIAL ∧ scan_mode s = SCAN_OUTSIDE ∧ at_bol s = bol ∧ alltags s = Some 0 ∧ out s = [] ∧ keys s = None ∧ ctag s = None ∧
  ∃ es, tabs (store_of s) !! 0 = Some (tab es) ∧ shelf (store_of s) 1 es rs (next_loc (store_of s)).

(** Inside one, with the keywords [kv]. *)
Definition testing (st : lex_state) (m : mode) (bol : bool) (rs : list summary) (kv : list (list ascii * list ascii)) (s : scan) : Prop :=
  lex s = st ∧ scan_mode s = m ∧ at_bol s = bol ∧ alltags s = Some 0 ∧ out s = [] ∧
  ∃ es k c, keys s = Some k ∧ ctag s = Some c ∧ bench (store_of s) es rs k c kv.

(** From a state with [P] the text leads to one with [Q], when the lines can be counted. *)
Definition goes (P : scan → Prop) (t rest : list ascii) (Q : scan → Prop) : Prop :=
  ∀ s, P s → (0 ≤ yylineno s)%Z → (yylineno s + newlines t ≤ INT_MAX)%Z →
  ∃ s', reads_to t rest s s' ∧ yylineno s' = (yylineno s + newlines t)%Z ∧ Q s'.

Lemma newlines_app t1 t2 : newlines (t1 ++ t2) = (newlines t1 + newlines t2)%Z.
Proof. unfold newlines. rewrite filter_app, length_app. lia. Qed.
Lemma newlines_pos t : (0 ≤ newlines t)%Z.
Proof. unfold newlines. lia. Qed.

Lemma goes_nil P rest : goes P [] rest P.
Proof. intros s Hs H0 Hm. exists s. split_and!; [apply reads_nil|change (newlines []) with 0%Z; lia|done]. Qed.

Lemma goes_app P Q R t1 t2 rest : goes P t1 (t2 ++ rest) Q → goes Q t2 rest R → goes P (t1 ++ t2) rest R.
Proof.
  intros H1 H2 s Hs H0 Hm. rewrite newlines_app in *. pose proof (newlines_pos t1). pose proof (newlines_pos t2).
  destruct (H1 s Hs H0) as (s1 & Hr1 & Hl1 & Hq); [lia|]. destruct (H2 s1 Hq) as (s2 & Hr2 & Hl2 & Hr); [lia..|].
  exists s2. split_and!; [by eapply reads_app|lia|done].
Qed.

(** One token. *)
Lemma goes_token P Q t rest tot act :
  t ≠ [] → (∀ s, P s → best (rules no_options (lex s) (at_bol s) (t ++ rest)) = Some (Matched tot (length t) act)) →
  (∀ s n, P s → ∃ s', act t (set_line n (bool_decide (last t = Some NEWLINE)) s) = Done ((), s') ∧ yylineno s' = n ∧ Q s') →
  goes P t rest Q.
Proof.
  intros Hne Hbest Hact s Hs H0 Hm. destruct (Hact s (yylineno s + newlines t)%Z Hs) as (s' & Ha & Hl & Hq).
  exists s'. split_and!; [|done|done]. eapply reads_token; eauto.
Qed.

(** ** Keywords *)

Lemma key_plain k : k ≠ [] → Forall key_char k → plain k.
Proof.
  intros Hk Hc. split; [done|]. eapply Forall_impl; [done|]. intros c Hkc. split; by intros ->.
Qed.

Lemma split_eq_ok k r : Forall key_char k → split_eq (k ++ "="%char :: r) = (k, r).
Proof.
  intros Hk. unfold split_eq. destruct (take_while_app (λ c, bool_decide (c ≠ "="%char)) k "="%char r) as [-> _]; [|done|].
  - eapply Forall_impl; [done|]. intros c Hc. apply bool_decide_pack. by intros ->.
  - f_equal. rewrite drop_app_ge by lia. by replace (S (length k) - length k) with 1 by lia.
Qed.

Lemma put_string_ok key v s es rs k c kv :
  keys s = Some k → bench (store_of s) es rs k c kv → plain key → key ≠ chars "_Start_line" → key ∉ kv.*1 →
  ∃ h, put_string key v s = Done ((), set_store h s) ∧ bench h es rs k c (kv ++ [(key, v)]).
Proof.
  intros Hk Hb Hkey Hs Hn. destruct (bench_put _ _ _ _ _ _ key v Hb Hkey Hs Hn) as (h & Hput & Hb').
  exists h. split; [|done]. unfold put_string, get, alloc, update, mbind, M_bind. rewrite Hk.
  cbn [strdup fst snd store_of set_store] in *. by rewrite Hput.
Qed.

(** A keyword and the white space behind it. *)
Record kw := KW { kw_quoted : bool; kw_key : list ascii; kw_value : list ascii; kw_white : ascii }.

Definition kw_text (x : kw) : list ascii :=
  (if kw_quoted x then quoted_text (kw_key x) (kw_value x) else plain_text (kw_key x) (kw_value x)) ++ [kw_white x].

Record kw_ok (x : kw) : Prop := {
  kw_key_ok : kw_key x ≠ [] ∧ Forall key_char (kw_key x) ∧ kw_key x ≠ chars "_Start_line";
  kw_value_ok : kw_value x ≠ [] ∧
    if kw_quoted x then Forall quote_free (kw_value x)
    else Forall dark (kw_value x) ∧ (head (kw_value x) = Some DQUOTE → kw_value x = [DQUOTE; DQUOTE]);
  kw_white_ok : white (kw_white x)
}.

Definition kw_pair (x : kw) : list ascii * list ascii := (kw_key x, kw_value x).

Definition not_white (rest : list ascii) : Prop := ∀ c r, rest = c :: r → white c = false.

Lemma goes_white m b rs kv w rest :
  white w → not_white rest → goes (testing KEY m b rs kv) [w] rest (testing KEY m (bool_decide (w = NEWLINE)) rs kv).
Proof.
  intros Hw Hr. eapply (goes_token _ _ _ _ _ skip); [done| |].
  - intros s (-> & _). apply best_white; [done|by repeat constructor|done].
  - intros s n (Hl & Hm & Hb & Ha & Ho & He). eexists. split_and!; [done|done|].
    assert (bool_decide (last [w] = Some NEWLINE) = bool_decide (w = NEWLINE)) as -> by (apply bool_decide_ext; cbn; split; congruence).
    by split_and!.
Qed.

Lemma goes_kw m b rs kv x rest :
  kw_ok x → kw_key x ∉ kv.*1 → not_white rest →
  goes (testing KEY m b rs kv) (kw_text x) rest (testing KEY m (bool_decide (kw_white x = NEWLINE)) rs (kv ++ [kw_pair x])).
Proof.
  intros [(Hk & Hkc & Hks) (Hv & Hvc) Hw] Hn Hr. destruct x as [q k v w]. cbn [kw_quoted kw_key kw_value kw_white] in *.
  set (t := if q then quoted_text k v else plain_text k v). change (kw_text _) with (t ++ [w]).
  eapply (goes_app _ (testing KEY m false rs (kv ++ [(k, v)]))); [|by apply goes_white].
  assert (∀ c r, [w] ++ rest = c :: r → white c) as Hw' by (by intros c r [= <- _]).
  assert (∃ act, (∀ b, best (rules no_options KEY b (t ++ [w] ++ rest)) = Some (Matched (length t) (length t) act)) ∧
    act t = put_string k v ∧ t ≠ [] ∧ last t ≠ Some NEWLINE) as (act & Hbest & Hact & Ht & Hlast).
  { subst t. destruct q.
    - exists keyword_quoted. split_and!; [by intros b'; apply best_quoted| |by destruct k|].
      + unfold keyword_quoted, quoted_text. rewrite split_eq_ok by done. cbn [head tail]. destruct (decide (Some DQUOTE = Some DQUOTE)); [|done].
        rewrite last_snoc, decide_True by done. by rewrite length_app, Nat.add_sub, take_app_length.
      + unfold quoted_text. by rewrite !app_comm_cons, app_assoc, last_snoc.
    - destruct Hvc as [Hvc Hq]. exists keyword_plain. split_and!; [|by unfold keyword_plain, plain_text; rewrite split_eq_ok|by destruct k|].
      + intros b'. apply best_plain; try done. destruct (decide (head v = Some DQUOTE)) as [E|E]; [|by apply not_quoted].
        rewrite (Hq E). by apply empty_not_quoted.
      + unfold plain_text. intros E. destruct v as [|c v _] using rev_ind; [done|].
        rewrite app_comm_cons, app_assoc, last_snoc in E. injection E as ->. apply Forall_app in Hvc as [_ [Hc _]%Forall_cons]. by vm_compute in Hc. }
  eapply (goes_token _ _ _ _ _ act); [done| |].
  - intros s (-> & _). apply Hbest.
  - intros s n (Hl & Hm & Hb & Ha & Ho & es & ks & c & Hks' & Hct & Hbench). rewrite Hact, bool_decide_false by done.
    destruct (put_string_ok k v (set_line n false s) es rs ks c kv) as (h & -> & Hh); [done|done|by apply key_plain|done|done|].
    eexists. split_and!; [done|done|]. split_and!; try done. by exists es, ks, c.
Qed.

Lemma kw_text_head x rest : kw_ok x → not_white (kw_text x ++ rest).
Proof.
  intros [(Hk & Hkc & _) _ _] c r E. destruct x as [q k v w]. cbn in *. destruct Hkc as [|c' k Hc _]; [done|].
  apply key_not_white. destruct q; cbn in E; by simplify_eq.
Qed.

Lemma goes_kws m rs xs : ∀ b kv rest,
  Forall kw_ok xs → NoDup (kv.*1 ++ (kw_key <$> xs)) → not_white rest →
  goes (testing KEY m b rs kv) (concat (kw_text <$> xs)) rest
    (testing KEY m (default b ((λ x, bool_decide (kw_white x = NEWLINE)) <$> last xs)) rs (kv ++ (kw_pair <$> xs))).
Proof.
  induction xs as [|x xs IH]; intros b kv rest Hok Hnd Hr.
  { cbn. rewrite app_nil_r. apply goes_nil. }
  apply Forall_cons in Hok as [Hx Hok]. cbn [fmap list_fmap concat]. rewrite last_cons.
  eapply goes_app.
  - apply goes_kw; [done| |].
    + cbn in Hnd. apply NoDup_app in Hnd as (_ & Hd & _). intros Hin. apply (Hd _ Hin). by left.
    + destruct Hok as [|y ys Hy _]; [done|]. cbn. rewrite <- app_assoc. by apply kw_text_head.
  - assert (NoDup ((kv ++ [kw_pair x]).*1 ++ (kw_key <$> xs))) as Hnd' by (rewrite fmap_app, <- app_assoc; exact Hnd).
    specialize (IH (bool_decide (kw_white x = NEWLINE)) _ rest Hok Hnd' Hr). rewrite <- app_assoc in IH. cbn [app] in IH.
    by destruct (last xs).
Qed.

(** ** Markers *)

Lemma goes_marker name act P Q rest :
  (name, act) ∈ markers no_options → (∀ s, P s → at_bol s = true) →
  (∀ s n, P s → ∃ s', act name (set_line n false s) = Done ((), s') ∧ yylineno s' = n ∧ Q s') →
  goes P name (NEWLINE :: rest) Q.
Proof.
  intros Hin Hbol Hact. assert (name ≠ [] ∧ bool_decide (last name = Some NEWLINE) = false) as [Hne Hlast].
  { apply (list_elem_of_fmap_2 fst) in Hin. cbn [fst] in Hin.
    assert (Forall (λ name, name ≠ [] ∧ bool_decide (last name = Some NEWLINE) = false) (markers no_options).*1) as Hall
      by (repeat constructor; done).
    rewrite Forall_forall in Hall. by apply Hall. }
  eapply (goes_token _ _ _ _ _ act); [done| |].
  - intros s Hs. rewrite (Hbol s Hs). by apply best_marker.
  - intros s n Hs. rewrite Hlast. by apply Hact.
Qed.

Lemma check_mode_ok y m ms s : scan_mode s ∈ m :: ms → check_mode y m ms s = Done ((), s).
Proof. intros Hm. unfold check_mode, get, mbind, M_bind. by rewrite decide_True. Qed.

Lemma goes_test_start rs rest :
  goes (idle true rs) (chars "<<<test_start>>>") (NEWLINE :: rest) (testing KEY SCAN_TSTKEY false rs []).
Proof.
  apply (goes_marker _ test_start); [unfold markers; by do 2 apply list_elem_of_further; apply list_elem_of_here|by intros s (?&?&?&_)|].
  intros s n (Hl & Hm & Hb & Ha & Ho & Hk & Hc & es & H0 & Hsh). pose proof (shelf_le _ _ _ _ _ Hsh) as Hlo.
  unfold test_start. erewrite then_done by reflexivity. erewrite then_done by (apply check_mode_ok; cbn; rewrite Hm; apply list_elem_of_here).
  unfold renew, get, put, alloc, put_string, update, mbind, M_bind. cbn [keys set_mode set_lex set_line ctag set_keys set_store].
  rewrite Hk. cbn -[sym_put].
  erewrite sym_put_new; [|cbn; apply lookup_insert_eq|by_decide|by_decide]. cbn. rewrite Hc. cbn.
  eexists. split_and!; [reflexivity|done|]. split_and!; try done.
  eexists es, _, _. split_and!; [done|done|]. set (l := next_loc (store_of s)) in *. exists l, n. cbn.
  split_and!; try lia.
  - by rewrite !lookup_insert_ne by lia.
  - eapply shelf_same; [done|]. intros a Ha'. cbn. by rewrite !lookup_insert_ne by lia.
  - by rewrite lookup_insert_eq.
  - split; [cbn; lia|]. exists [(chars "_Start_line", VStr (S l))]. cbn. split.
    + rewrite lookup_insert_ne by lia. by rewrite lookup_insert_eq.
    + constructor; [|done]. split; [done|]. exists (S l). split_and!; [done|lia|cbn; lia|]. cbn. by rewrite lookup_insert_eq.
Qed.

(** ** Looking at the keywords *)

Lemma holds_keyword s lo hi t kv key v :
  holds (store_of s) lo hi t kv → plain key → value_of kv key = Some v →
  ∃ a, keyword (Some t) key s = Done (Some a, s) ∧ texts (store_of s) !! a = Some v ∧ lo ≤ a < hi.
Proof.
  intros (_ & es & Ht & Hes) Hkey Hv. pose proof (holds_find _ _ _ _ _ key Hes) as Hf. rewrite Hv in Hf.
  destruct Hf as (a & Hf & Hr & Ha). exists a. split_and!; [|done|lia|lia]. unfold keyword, reads, get, lift, mbind, M_bind.
  rewrite (sym_get_one _ _ _ es); [|by eapply nodes_table|done]. by rewrite Hf.
Qed.

Lemma text_ok a s v : texts (store_of s) !! a = Some v → text a s = Done (v, s).
Proof. intros Ha. unfold text, reads, get, lift, mbind, M_bind, str_at. by rewrite Ha. Qed.

Lemma value_of_cons p kv k : p.1 ≠ k → value_of (p :: kv) k = value_of kv k.
Proof. intros Hp. unfold value_of. cbn. rewrite decide_False by done. by destruct (list_find _ kv) as [[]|]. Qed.

Lemma value_of_app kv l k v : value_of kv k = Some v → value_of (kv ++ l) k = Some v.
Proof.
  unfold value_of. intros ([i p] & Hf & E)%bind_Some. by rewrite (list_find_app_l _ _ _ _ _ Hf).
Qed.

Lemma describes_ext x l kv r : describes kv r → describes ((chars "_Start_line", x) :: kv ++ l) r.
Proof. intros (?&?&?&?&?&?&?&?). unfold describes. rewrite !value_of_cons by done. by split_and!; apply value_of_app. Qed.

Lemma goes_test_output rs kv rest :
  value_of kv (chars "analysis") = Some (chars "exit") →
  goes (testing KEY SCAN_TSTKEY true rs kv) (chars "<<<test_output>>>") (NEWLINE :: rest) (testing OUT SCAN_OUTPUT false rs kv).
Proof.
  intros Hv. apply (goes_marker _ test_output_start); [unfold markers; by do 3 apply list_elem_of_further; apply list_elem_of_here|by intros s (?&?&?&_)|].
  intros s n (Hl & Hm & Hb & Ha & Ho & es & k & c & Hk & Hc & Hbench). unfold test_output_start.
  erewrite then_done by reflexivity. erewrite then_done by (apply check_mode_ok; cbn; rewrite Hm; apply list_elem_of_here).
  erewrite then_done by reflexivity. unfold test_output. erewrite then_done by reflexivity. cbn [keys set_mode set_lex set_line]. rewrite Hk.
  set (s1 := set_mode _ _). destruct Hbench as (lo & x & Hb1 & Hb2 & Hb3 & Hb4 & Hb5 & Hh).
  destruct (holds_keyword s1 _ _ _ _ (chars "analysis") (chars "exit") Hh) as (a & Hkw & Ha' & _); [by_decide|by rewrite value_of_cons|].
  rewrite (then_done _ _ _ _ _ Hkw), (then_done _ _ _ _ _ (text_ok _ _ _ Ha')). eexists. split_and!; [reflexivity|done|].
  split_and!; try done. exists es, k, c. split_and!; [done|done|]. by exists lo, x.
Qed.

Lemma goes_execution_status rs kv rest :
  goes (testing OUT SCAN_OUTPUT true rs kv) (chars "<<<execution_status>>>") (NEWLINE :: rest) (testing KEY SCAN_TSTKEY false rs kv).
Proof.
  apply (goes_marker _ execution_status); [unfold markers; by do 4 apply list_elem_of_further; apply list_elem_of_here|by intros s (?&?&?&_)|].
  intros s n (Hl & Hm & Hb & Ha & Ho & Hbench). unfold execution_status.
  erewrite then_done by reflexivity. erewrite then_done by (apply check_mode_ok; cbn; rewrite Hm; apply list_elem_of_further, list_elem_of_here).
  eexists. by split_and!.
Qed.

(** ** The output of the test *)

Lemma goes_out_newline b rs kv rest :
  goes (testing OUT SCAN_OUTPUT b rs kv) [NEWLINE] rest (testing OUT SCAN_OUTPUT true rs kv).
Proof.
  eapply (goes_token _ _ _ _ _ skip); [done| |].
  - intros s (-> & _). apply best_newline. by left.
  - intros s n (Hl & Hm & Hb & Ha & Ho & He). eexists. by split_and!.
Qed.

Lemma goes_idle_newline b rs rest : goes (idle b rs) [NEWLINE] rest (idle true rs).
Proof.
  eapply (goes_token _ _ _ _ _ skip); [done| |].
  - intros s (-> & _). apply best_newline. by right.
  - intros s n (Hl & Hm & Hb & Ha & Ho & He). eexists. by split_and!.
Qed.

Definition unlines (ls : list (list ascii)) : list ascii := concat ((λ l, l ++ [NEWLINE]) <$> ls).

(** A line that is no marker. *)
Definition output_line (l : list ascii) : Prop := NEWLINE ∉ l ∧ l ∉ (markers no_options).*1.

Lemma goes_output rs kv ls rest :
  Forall output_line ls → goes (testing OUT SCAN_OUTPUT true rs kv) (unlines ls) rest (testing OUT SCAN_OUTPUT true rs kv).
Proof.
  induction 1 as [|l ls [Hnl Hm] _ IH]; [apply goes_nil|]. change (unlines (l :: ls)) with ((l ++ [NEWLINE]) ++ unlines ls).
  eapply goes_app; [|exact IH]. destruct (decide (l = [])) as [->|Hne]; [apply goes_out_newline|].
  eapply goes_app; [|apply goes_out_newline]. eapply (goes_token _ (testing OUT SCAN_OUTPUT false rs kv) _ _ _ skip); [done| |].
  - intros s (-> & _ & -> & _). by apply best_line.
  - intros s n (Hl & Hmo & Hb & Ha & Ho & He). eexists. split_and!; [done|done|]. rewrite bool_decide_false; [by split_and!|].
    intros E. apply Hnl. by apply last_Some_elem_of.
Qed.

(** ** The end of a test *)

Lemma holds_set_tab h lo hi t kv c x : c ≠ t → holds h lo hi t kv → holds (set_tab c x h) lo hi t kv.
Proof.
  intros Hc (Hl & es & Ht & Hes). split; [done|]. exists es. split; [|done]. cbn. by rewrite lookup_insert_ne.
Qed.

(** The keywords go under the tag, which is new. *)
Lemma scanner_test_end_ok s es rs k c kv r :
  bench (store_of s) es rs k c kv → describes kv r → plain (sum_tag r) → sum_tag r ∉ sum_tag <$> rs →
  ∃ h, scanner_test_end (Some 0) (Some c) (Some k) s = Done ((), set_store h s) ∧
    tabs h !! 0 = Some (tab (es ++ [(sum_tag r, VTab c)])) ∧
    shelf h 1 (es ++ [(sum_tag r, VTab c)]) (rs ++ [r]) (next_loc h).
Proof.
  intros (lo & n & H0 & Hsh & Hc & Hck & Htc & Hh) Hd Hp Hn. pose proof (shelf_le _ _ _ _ _ Hsh) as Hlo.
  unfold scanner_test_end. rewrite decide_False by (by intros [?|[?|?]]). cbn [tab_value].
  set (h1 := set_tab c (tab [(chars "_keys", VTab k)]) (store_of s)).
  erewrite then_done; [|unfold update; erewrite (sym_put_new _ _ _ c []); [reflexivity|done|by_decide|by_decide]].
  cbn [app]. change (set_tab c _ (store_of s)) with h1. set (s1 := set_store h1 s).
  assert (holds (store_of s1) lo (next_loc h1) k ((chars "_Start_line", print_d n) :: kv)) as Hh1 by (by apply holds_set_tab).
  destruct (holds_keyword s1 _ _ _ _ (chars "tag") (sum_tag r) Hh1) as (a & Hkw & Ha & _); [by_decide|by rewrite value_of_cons by done; apply Hd|].
  rewrite (then_done _ _ _ _ _ Hkw), (then_done _ _ _ _ _ (text_ok _ _ _ Ha)).
  assert (tabs h1 !! 0 = Some (tab es)) as Ht0 by (cbn; by rewrite lookup_insert_ne by lia).
  assert (sum_tag r ∉ keys_of es) as Hnew by (by rewrite (shelf_keys _ _ _ _ _ Hsh)).
  erewrite then_done; [|unfold reads, get, lift, mbind, M_bind; cbn [store_of set_store]; erewrite (sym_get_one h1 _ 0 es); [reflexivity|by eapply nodes_table|done]].
  rewrite (proj2 (find_None _ _) Hnew). cbn [default]. rewrite decide_True by done.
  erewrite then_done; [|unfold update; cbn [store_of set_store]; erewrite (sym_put_new h1 _ _ 0 es); [reflexivity|done|done|done]].
  eexists. split; [reflexivity|]. split; [cbn; by rewrite lookup_insert_eq|].
  apply (shelf_app _ _ _ _ lo).
  - eapply shelf_same; [done|]. intros a' Ha'. cbn. by rewrite !lookup_insert_ne by lia.
  - eapply (shelf_cons _ lo (next_loc h1) _ c k); [cbn; lia| | | |by constructor].
    + cbn. rewrite lookup_insert_ne by lia. by rewrite lookup_insert_eq.
    + apply holds_set_tab; [|exact Hh1]. destruct Hh as [? _]. lia.
    + rewrite <- (app_nil_r kv). by apply describes_ext.
Qed.

Lemma goes_test_end rs kv r rest :
  describes kv r → plain (sum_tag r) → sum_tag r ∉ sum_tag <$> rs → chars "_End_line" ∉ kv.*1 →
  goes (testing KEY SCAN_TSTKEY true rs kv) (chars "<<<test_end>>>") (NEWLINE :: rest) (idle false (rs ++ [r])).
Proof.
  intros Hd Hp Hn Hend.
  apply (goes_marker _ (test_end_rule no_options)); [unfold markers; by do 5 apply list_elem_of_further; apply list_elem_of_here|by intros s (?&?&?&_)|].
  intros s n (Hl & Hm & Hb & Ha & Ho & es & k & c & Hk & Hc & Hbench). unfold test_end_rule.
  erewrite then_done by reflexivity. erewrite then_done by (apply check_mode_ok; cbn; rewrite Hm; apply list_elem_of_here).
  erewrite then_done by reflexivity. erewrite then_done by reflexivity. set (s1 := set_mode _ _).
  destruct (put_string_ok (chars "_End_line") (print_d n) s1 es rs k c kv) as (h & Hput & Hbench'); [done|done|by_decide|done|done|].
  erewrite then_done by exact Hput. do 3 erewrite then_done by reflexivity.
  cbn [alltags ctag keys set_store s1 set_mode set_lex set_line]. rewrite Ha, Hc, Hk.
  destruct (scanner_test_end_ok (set_store h s1) es rs k c (kv ++ [(chars "_End_line", print_d n)]) r) as (h' & Hte & H0 & Hsh); [done| |done|done|].
  { destruct Hd as (?&?&?&?&?&?&?&?). by split_and!; apply value_of_app. }
  erewrite then_done by exact Hte. eexists. split_and!; [reflexivity|done|]. split_and!; try done. by eexists.
Qed.

(** ** A whole test *)

Lemma marker_not_white r : not_white ("<"%char :: r).
Proof. by intros c r' [= <- _]. Qed.

Definition test_text (before : list kw) (ls : list (list ascii)) (after : list kw) : list ascii :=
  chars "<<<test_start>>>" ++ [NEWLINE] ++ concat (kw_text <$> before) ++ chars "<<<test_output>>>" ++ [NEWLINE] ++ unlines ls ++
  chars "<<<execution_status>>>" ++ [NEWLINE] ++ concat (kw_text <$> after) ++ chars "<<<test_end>>>" ++ [NEWLINE].

Lemma goes_test rs before ls after r rest :
  Forall kw_ok (before ++ after) → NoDup (kw_key <$> before ++ after) → chars "_End_line" ∉ kw_key <$> before ++ after →
  Forall output_line ls → kw_white <$> last before = Some NEWLINE → kw_white <$> last after = Some NEWLINE →
  value_of (kw_pair <$> before) (chars "analysis") = Some (chars "exit") →
  describes (kw_pair <$> before ++ after) r → plain (sum_tag r) → sum_tag r ∉ sum_tag <$> rs →
  goes (idle true rs) (test_text before ls after) rest (idle true (rs ++ [r])).
Proof.
  intros [Hok1 Hok2]%Forall_app Hnd Hend Hls Hb Ha Hana Hd Hp Hn. unfold test_text.
  assert (∀ xs r', Forall kw_ok xs → not_white (concat (kw_text <$> xs) ++ "<"%char :: r')) as Hnw.
  { intros xs r' [|x xs' Hx _]; [apply marker_not_white|]. cbn. rewrite <- app_assoc. by apply kw_text_head. }
  assert (∀ xs b, kw_white <$> last xs = Some NEWLINE → default b ((λ x, bool_decide (kw_white x = NEWLINE)) <$> last xs) = true) as Hdef.
  { intros xs b Hl. destruct (last xs); [|done]. cbn in *. by apply bool_decide_true; simplify_eq. }
  pose proof (λ b, Hdef before b Hb) as Hb'. pose proof (λ b, Hdef after b Ha) as Ha'.
  assert ((kw_pair <$> before ++ after).*1 = kw_key <$> before ++ after) as Hkeys by (by rewrite <- list_fmap_compose).
  rewrite fmap_app in Hd, Hkeys.
  apply (goes_app _ (testing KEY SCAN_TSTKEY false rs [])); [cbn [app]; apply goes_test_start|].
  eapply goes_app; [apply goes_white; [done|by rewrite <- app_assoc; apply Hnw]|].
  eapply goes_app.
  { eapply (goes_kws _ _ before _ []); [done| |by rewrite <- app_assoc; apply marker_not_white].
    rewrite fmap_app in Hnd. by apply NoDup_app in Hnd as [? _]. }
  rewrite Hb', app_nil_l.
  eapply goes_app; [cbn [app]; by apply goes_test_output|]. eapply goes_app; [apply goes_out_newline|].
  eapply goes_app; [by apply goes_output|]. eapply goes_app; [cbn [app]; apply goes_execution_status|].
  eapply goes_app; [apply goes_white; [done|by rewrite <- app_assoc; apply Hnw]|].
  eapply goes_app.
  { eapply (goes_kws _ _ after _ (kw_pair <$> before)); [done| |apply marker_not_white].
    rewrite fmap_app in Hnd. by rewrite <- list_fmap_compose. }
  rewrite Ha'. eapply goes_app; [cbn [app]; apply goes_test_end; [done|done|done|by rewrite Hkeys]|]. apply goes_idle_newline.
Qed.
