(* ===== verification/ScannerReport.v ===== *)
(** * The report of the scanner

    What the reporter prints about the tests in its tables. *)
From stdpp Require Import base strings numbers option list gmap.
From Stdlib Require Import Ascii.
From S2P Require Import Prelude CInt CText SplitStr Symbol SymbolSpec Scanner ScannerStore ScannerRead.

(** The results of a test. *)
Definition sum_results (r : summary) : list (list ascii) :=
  if decide (sum_init r ≠ chars "ok") then [underscores (sum_init r)]
  else (if sum_core r then [chars "coredump"] else []) ++
       (if decide (sum_type r ≠ chars "exited") then [sum_type r] else []) ++
       [if decide (sum_id r = 0%Z) then chars "pass" else chars "fail"].

(** ... and the lines they are printed in, with the empty list of contacts, which is
    read as two quotes. *)
Definition sum_line (r : summary) (res : list ascii) : list ascii :=
  FORMAT (sum_tag r) (chars "-") (chars "-") res [DQUOTE; DQUOTE].
Definition result_lines (r : summary) : list ascii := concat (sum_line r <$> sum_results r).

(** What the driver reports. *)
Record summary_ok (r : summary) : Prop := {
  sum_tag_ok : plain (sum_tag r) ∧ sum_tag r ≠ chars "_RTS" ∧ length (sum_tag r) + 12 < KEYSIZE;
  sum_init_ok : sum_init r ≠ [];
  sum_type_ok : sum_type r ≠ [] ∧ sum_type r ≠ chars "timeout" ∧ " "%char ∉ sum_type r;
  sum_id_ok : is_i32 (sum_id r)
}.

(** ** One result *)

Lemma underscores_id v : " "%char ∉ v → underscores v = v.
Proof.
  intros Hv. unfold underscores. rewrite <- (list_fmap_id v) at 2. apply list_fmap_ext. intros i c Hc%list_elem_of_lookup_2.
  case_decide; [by subst|done].
Qed.

Lemma underscores_nil v : v ≠ [] → underscores v ≠ [].
Proof. by destruct v. Qed.

Section result.
Context (s : scan) (lo hi k : nat) (kv : list (list ascii * list ascii)) (tag : list ascii).
Context (Hh : holds (store_of s) lo hi k kv) (Hc : value_of kv (chars "contacts") = Some [DQUOTE; DQUOTE]).

Abbreviation line res := (FORMAT tag (chars "-") (chars "-") res [DQUOTE; DQUOTE]).

Lemma contact_words : split_key [DQUOTE; DQUOTE] = Done [[DQUOTE; DQUOTE]].
Proof. apply split_key_one. by_decide. Qed.

Lemma test_result_lit v :
  v ≠ [] → " "%char ∉ v → test_result (Some tag) None None (Some (Lit v)) (Some k) s = Done ((), add_out (line v) s).
Proof.
  intros Hv Hsp. destruct (holds_keyword s lo hi k kv (chars "contacts") _ Hh ltac:(by_decide) Hc) as (a & Hkw & Ha & _).
  unfold keyword in Hkw. unfold test_result. unfold mbind, M_bind in *. cbn [from_option id].
  destruct (reads _ s) as [[e s1]| |]; [|done..]. rewrite Hkw. rewrite (text_ok a s _ Ha). cbn [tr_result].
  rewrite decide_False by done. cbn [mret M_ret cstr_text]. rewrite decide_False by done. unfold lift. rewrite contact_words.
  cbn [fmap list_fmap concat]. by rewrite app_nil_r.
Qed.

Lemma test_result_mem a v :
  texts (store_of s) !! a = Some v → v ≠ [] →
  test_result (Some tag) None None (Some (Mem a)) (Some k) s =
    Done ((), add_out (line (underscores v))
      (set_store (Heap (tabs (store_of s)) (<[a := underscores v]> (texts (store_of s))) (next_loc (store_of s))) s)).
Proof.
  intros Hav Hv. destruct (holds_keyword s lo hi k kv (chars "contacts") _ Hh ltac:(by_decide) Hc) as (b & Hkw & Hb & _).
  unfold keyword in Hkw. unfold test_result. unfold mbind, M_bind in *. cbn [from_option id].
  destruct (reads _ s) as [[e s1]| |]; [|done..]. rewrite Hkw. rewrite (text_ok b s _ Hb). cbn [tr_result].
  unfold mbind, M_bind. rewrite (text_ok a s _ Hav). unfold change, update. cbn [mbind outcome_bind cstr_text].
  erewrite text_ok by (cbn; apply lookup_insert_eq). rewrite decide_False by by apply underscores_nil. unfold lift. rewrite contact_words.
  cbn [fmap list_fmap concat]. by rewrite app_nil_r.
Qed.
End result.

(** ** One test *)

Lemma add_out_app a b s : add_out b (add_out a s) = add_out (a ++ b) s.
Proof. unfold add_out. cbn. by rewrite app_assoc. Qed.
Lemma add_out_nil s : add_out [] s = s.
Proof. destruct s. unfold add_out. cbn. by rewrite app_nil_r. Qed.

(** A keyword does not depend on what was printed. *)
Lemma holds_keywords h lo hi t kv key v :
  holds h lo hi t kv → plain key → value_of kv key = Some v →
  ∃ a, lo ≤ a < hi ∧ texts h !! a = Some v ∧
    ∀ s, store_of s = h → keyword (Some t) key s = Done (Some a, s) ∧ text a s = Done (v, s).
Proof.
  intros (_ & es & Ht & Hes) Hkey Hv. pose proof (holds_find _ _ _ _ _ key Hes) as Hf. rewrite Hv in Hf.
  destruct Hf as (a & Hf & Hr & Ha). exists a. split_and!; [lia|lia|done|]. intros s <-. split; [|by apply text_ok].
  unfold keyword, reads, get, lift, mbind, M_bind. rewrite (sym_get_one _ _ _ es); [|by eapply nodes_table|done]. by rewrite Hf.
Qed.

Lemma keyword_missing s lo hi t kv key :
  holds (store_of s) lo hi t kv → plain key → value_of kv key = None → keyword (Some t) key s = Done (None, s).
Proof.
  intros (_ & es & Ht & Hes) Hkey Hv. pose proof (holds_find _ _ _ _ _ key Hes) as Hf. rewrite Hv in Hf.
  unfold keyword, reads, get, lift, mbind, M_bind. rewrite (sym_get_one _ _ _ es); [|by eapply nodes_table|done]. by rewrite Hf.
Qed.

Lemma print_d_zero v : is_i32 v → print_d v ≠ chars "0" ↔ v ≠ 0%Z.
Proof.
  intros Hv. split; [by intros Hp ->|]. intros Hne E. apply Hne. apply print_d_inj; [done|by_decide|]. by rewrite E.
Qed.

Ltac mstep H := (erewrite then_done by (by apply H)); cbv beta match.

Lemma tag_report_ok s lo hi c k kv r :
  holds (store_of s) lo hi k kv → describes kv r → summary_ok r →
  ∃ h, tag_report no_options (Some c) (Some k) s = Done (0%Z, set_store h (add_out (result_lines r) s)) ∧
    tabs h = tabs (store_of s) ∧ ∀ a, ¬ (lo ≤ a < hi) → texts h !! a = texts (store_of s) !! a.
Proof.
  intros Hh (Hd1 & Hd2 & Hd3 & Hd4 & Hd5 & Hd6 & Hd7 & Hd8) [_ Hinit (Hty1 & Hty2 & Hty3) Hid].
  pose proof (λ key v, holds_keywords (store_of s) lo hi k kv key v Hh) as Hkw.
  destruct (Hkw (chars "tag") _ ltac:(by_decide) Hd1) as (t & _ & _ & Ht).
  destruct (Hkw (chars "initiation_status") _ ltac:(by_decide) Hd5) as (i & Hir & Hiv & Hi).
  destruct (Hkw (chars "corefile") _ ltac:(by_decide) Hd6) as (f & _ & _ & Hf).
  destruct (Hkw (chars "termination_type") _ ltac:(by_decide) Hd7) as (y & _ & Hyv & Hy).
  destruct (Hkw (chars "analysis") _ ltac:(by_decide) Hd4) as (n & _ & _ & Hn).
  destruct (Hkw (chars "termination_id") _ ltac:(by_decide) Hd8) as (d & _ & _ & Hd). clear Hkw.
  unfold tag_report. do 2 mstep Ht. do 2 mstep Hi.
  unfold result_lines, sum_results. destruct (decide (sum_init r ≠ chars "ok")) as [Hne|_].
  { erewrite then_done by by eapply test_result_mem. eexists. split; [|split].
    - cbn. by rewrite app_nil_r.
    - done.
    - intros a Ha. cbn. by rewrite lookup_insert_ne by by intros ->. }
  exists (store_of s). split; [|done]. set (o1 := if sum_core r then sum_line r (chars "coredump") else []).
  set (o2 := if decide (sum_type r ≠ chars "exited") then sum_line r (sum_type r) else []).
  assert (∀ o, store_of (add_out o s) = store_of s) as Hst by done.
  mstep Hf. erewrite (then_done _ _ _ () (add_out o1 s)).
  2:{ mstep Hf. subst o1. destruct (sum_core r).
      - rewrite decide_True by done. eapply test_result_lit; [done|done|done|by_decide].
      - by rewrite decide_False, add_out_nil by (intros E; by apply E). }
  do 2 mstep Hy. erewrite (then_done _ _ _ () (add_out o2 (add_out o1 s))).
  2:{ subst o2. destruct (decide _); [|by rewrite add_out_nil].
      erewrite test_result_mem; [|done|done|done|done]. rewrite underscores_id, insert_id by done.
      by destruct s as [[]]. }
  rewrite add_out_app. do 2 mstep Hn.
  change (strncmp_eq (chars "exit") (chars "none") 4) with false. change (strncmp_eq (chars "exit") (chars "cuts") 4) with false.
  cbv beta match. set (o3 := sum_line r (if decide (sum_id r = 0%Z) then chars "pass" else chars "fail")).
  erewrite (then_done _ _ _ () (add_out o3 (add_out (o1 ++ o2) s))).
  2:{ mstep Hy. rewrite decide_True by done. do 2 mstep Hd. subst o3.
      pose proof (print_d_zero _ Hid) as Hz.
      destruct (decide (sum_id r = 0%Z)); [rewrite decide_False by by intros E%Hz|rewrite decide_True by by apply Hz];
        (eapply test_result_lit; [done|done|done|by_decide]). }
  cbn [extended no_options]. rewrite add_out_app. unfold mbind, M_bind, mret, M_ret. do 3 f_equal.
  replace (concat _) with ((o1 ++ o2) ++ o3); [by destruct s|].
  subst o1 o2 o3. destruct (sum_core r), (decide (sum_type r ≠ chars "exited")); cbn; by rewrite ?app_nil_r, ?app_assoc.
Qed.

(** ** All tests *)

Lemma key_buf_ok k s : length k < KEYSIZE → key_buf k s = Done (k, s).
Proof. intros Hk. unfold key_buf. by rewrite decide_True. Qed.

Lemma reads_ok {A} (f : heap → outcome A) s a : f (store_of s) = Done a → reads f s = Done (a, s).
Proof. intros Hf. unfold reads, get, lift, mbind, M_bind. by rewrite Hf. Qed.

(** The tables of a test below the table of all tests. *)
Lemma get_keys h all cur tag c k :
  tabs h !! 0 = Some (Symh (Some all) cur) → NoDup (keys_of all) → (tag, VTab c) ∈ all → plain tag →
  tabs h !! c = Some (tab [(chars "_keys", VTab k)]) →
  sym_get (Some 0) tag h = Done (VTab c) ∧ sym_get (Some 0) (tag ++ chars ",_keys") h = Done (VTab k) ∧
  ∀ key, plain key → is_Some (tabs h !! k) → sym_get (Some 0) (tag ++ chars ",_keys" ++ ","%char :: key) h = sym_get (Some k) key h.
Proof.
  intros H0 Hnd Hin Hp Hc. assert (find all tag = Some (VTab c)) as Hf by (by apply find_Some).
  pose proof (nodes_table _ _ _ _ H0) as Hn0. pose proof (nodes_table _ _ _ _ Hc) as Hnc.
  assert (plain (chars "_keys")) as Hpk by by_decide. split_and!.
  - rewrite (sym_get_one _ _ _ all) by done. by rewrite Hf.
  - change (tag ++ chars ",_keys") with (key_of [tag; chars "_keys"]).
    rewrite (sym_get_down _ _ _ _ all c); [|done|done|eauto|done|by repeat (apply Forall_cons_2; [done|])]. cbn [key_of]. by erewrite sym_get_one by done.
  - intros key Hkey Hk.
    change (tag ++ chars ",_keys" ++ ","%char :: key) with (key_of [tag; chars "_keys"; key]).
    rewrite (sym_get_down _ _ _ _ all c); [|done|done|eauto|done|by repeat (apply Forall_cons_2; [done|])].
    rewrite (sym_get_down _ _ _ _ [(chars "_keys", VTab k)] k); [done|done|done|done|done|by repeat (apply Forall_cons_2; [done|])].
Qed.

Lemma report_loop_ok all cur : NoDup (keys_of all) → ∀ es rs lo hi s,
  shelf (store_of s) lo es rs hi → 1 ≤ lo → tabs (store_of s) !! 0 = Some (Symh (Some all) cur) → (∀ e, e ∈ es → e ∈ all) →
  Forall summary_ok rs →
  ∃ h, report_loop no_options (keys_of es) 0 s = Done ((), set_store h (add_out (concat (result_lines <$> rs)) s)).
Proof.
  intros Hnd es rs. revert es. induction rs as [|r rs IH]; intros es lo hi s Hsh Hlo H0 Hin Hok.
  { inversion Hsh; subst. exists (store_of s). cbn. rewrite add_out_nil. by destruct s. }
  apply Forall_cons in Hok as [Hr Hok]. destruct (sum_tag_ok r Hr) as (Hp & Hrts & Hlen).
  inversion Hsh as [|? mid ? c k kv es' ? ? Hc Htc Hk Hd Hsh']; subst.
  destruct (get_keys (store_of s) all cur (sum_tag r) c k) as (Hg1 & Hg2 & _); [done|done|by apply Hin, list_elem_of_here|done|done|].
  destruct (tag_report_ok s lo mid c k kv r Hk Hd Hr) as (h & Htr & Htabs & Htexts). pose proof (shelf_le _ _ _ _ _ Hsh').
  destruct (IH es' mid hi (set_store h (add_out (result_lines r) s))) as (h' & Hrl); [|lia|by cbn; rewrite Htabs|by intros e He; apply Hin, list_elem_of_further|done|].
  { eapply shelf_same; [done|]. intros a Ha. cbn. rewrite Htabs, Htexts by lia. done. }
  exists h'. cbn [keys_of fmap list_fmap fst report_loop]. rewrite decide_False by done.
  erewrite then_done by (apply key_buf_ok; rewrite length_app; cbn; lia). erewrite then_done by (apply reads_ok; done).
  cbn [as_table]. erewrite then_done by reflexivity. cbv beta match. erewrite then_done by (apply key_buf_ok; lia).
  erewrite then_done by (apply reads_ok; done). cbn [as_table]. erewrite then_done by reflexivity. cbv beta match.
  erewrite then_done by exact Htr. etransitivity; [exact Hrl|]. cbn. by rewrite <- add_out_app.
Qed.

(** ** Stepping through the tables *)

Lemma set_tab_twice t x y h : set_tab t x (set_tab t y h) = set_tab t x h.
Proof. unfold set_tab. cbn. by rewrite insert_insert_eq. Qed.

Lemma nodes_cursor h t es cur cur' c es' :
  tabs h !! t = Some (Symh (Some es) cur) → nodes h c = Done es' → nodes (set_tab t (Symh (Some es) cur') h) c = Done es'.
Proof.
  intros Ht Hc. unfold nodes in *. cbn. destruct (decide (t = c)) as [->|]; [|by rewrite lookup_insert_ne].
  rewrite lookup_insert_eq. rewrite Ht in Hc. done.
Qed.

(** The node at a position of table [c] under the cursor of table [t]. *)
Lemma sym_seq_at h t es cur c i es' :
  tabs h !! t = Some (Symh (Some es) cur) → nodes h c = Done es' →
  (n ← node_ptr h (c, i); set_cursor t n h) =
    match es' !! i with
    | Some e => Done (0%Z, Some e, set_tab t (Symh (Some es) (Some (c, i))) h)
    | None => Done (1%Z, None, set_tab t (Symh (Some es) None) h)
    end.
Proof.
  intros Ht Hc. unfold node_ptr. cbn [fst snd]. rewrite Hc. cbn [mbind outcome_bind]. unfold set_cursor. rewrite Ht.
  cbn [load mbind outcome_bind sym]. destruct (es' !! i) as [e|] eqn:E.
  - rewrite decide_True by (by eapply lookup_lt_Some). unfold node_at. cbn [fst snd].
    rewrite (nodes_cursor _ _ _ cur _ _ es') by done. cbn [mbind outcome_bind]. by rewrite E.
  - by rewrite decide_False by (apply lookup_ge_None in E; lia).
Qed.

(** One more step of a loop. *)
Lemma seq_next {B} (K : Z * option entry → M B) s t es c i es' :
  tabs (store_of s) !! t = Some (Symh (Some es) (Some (c, i))) → nodes (store_of s) c = Done es' →
  (update (λ h, '(r, e, h) ← sym_seq t [] R_NEXT h; Done ((r, e), h)) ≫= K) s =
    match es' !! S i with
    | Some e => K (0%Z, Some e) (set_store (set_tab t (Symh (Some es) (Some (c, S i))) (store_of s)) s)
    | None => K (1%Z, None) (set_store (set_tab t (tab es) (store_of s)) s)
    end.
Proof.
  intros Ht Hc. unfold mbind at 1, M_bind, update, sym_seq. rewrite Ht. cbn [load mbind outcome_bind cursor].
  pose proof (sym_seq_at (store_of s) t es _ c (S i) es' Ht Hc) as E. cbn [mbind] in E. rewrite E. by destruct (es' !! S i).
Qed.

Lemma collect_loop_ok es : ∀ fuel s i acc key v,
  tabs (store_of s) !! 0 = Some (Symh (Some es) (Some (0, i))) → es !! i = Some (key, v) → length es ≤ fuel + i →
  collect_loop fuel 0 key acc (λ _, false) s = Done (acc ++ keys_of (drop i es), set_store (set_tab 0 (tab es) (store_of s)) s).
Proof.
  induction fuel as [|fuel IH]; intros s i acc key v Ht Hi Hf.
  { apply lookup_lt_Some in Hi. lia. }
  cbn [collect_loop]. rewrite (seq_next _ _ _ es 0 i es) by (done || by eapply nodes_table).
  rewrite (drop_S es (key, v) i) by done. cbn [keys_of fmap list_fmap fst].
  destruct (es !! S i) as [[key' v']|] eqn:E.
  - rewrite decide_True by done. rewrite (IH _ (S i) _ key' v'); [|cbn; by rewrite lookup_insert_eq|done|lia].
    cbn [store_of set_store]. rewrite set_tab_twice. by rewrite <- app_assoc.
  - rewrite (drop_ge es (S i)) by by apply lookup_ge_None. done.
Qed.

Lemma collect_ok s es :
  tabs (store_of s) !! 0 = Some (tab es) → es ≠ [] →
  collect 0 (λ _, false) s = Done (keys_of es, set_store (set_tab 0 (tab es) (store_of s)) s).
Proof.
  intros Ht Hne. destruct es as [|[key v] es]; [done|]. unfold collect.
  erewrite then_done by (apply reads_ok; rewrite (nodes_table _ _ _ _ Ht); reflexivity).
  unfold mbind at 1, M_bind, update, sym_seq.
  pose proof (sym_seq_at (store_of s) 0 _ _ 0 0 _ Ht (nodes_table _ _ _ _ Ht)) as E. cbn [mbind] in E. rewrite E. cbn [lookup list_lookup mbind outcome_bind].
  cbv beta match. rewrite (collect_loop_ok ((key, v) :: es) _ _ 0 [] key v); [|cbn; by rewrite lookup_insert_eq|done|cbn; lia].
  cbn [store_of set_store]. by rewrite set_tab_twice.
Qed.

(** ** The report *)

Definition header_text (date : list ascii) : list ascii :=
  chars "System Configuration:" ++ NL ++ field 20 (chars "date") ++ SP ++ date ++ NL ++ NL ++
  FORMAT (chars "tag") (chars "tcid") (chars "testcase") (chars "status") (chars "contact") ++ dashes ++ NL.

Definition report_text (rs : list summary) : list ascii :=
  header_text (date_x (default 0%Z (sum_stime <$> head rs))) ++ concat (result_lines <$> rs).

(** The date goes into a table of its own. *)
Lemma put_date h es d :
  tabs h !! 0 = Some (tab es) → 0 < next_loc h → chars "_RTS" ∉ keys_of es →
  let l := next_loc h in
  sym_put (Some 0) (chars "_RTS,date") d NoFlag h = Done (0%Z,
    Heap (<[l := tab [(chars "date", d)]]> (<[0 := tab (es ++ [(chars "_RTS", VTab l)])]> (<[l := tab []]> (tabs h)))) (texts h) (S l)).
Proof.
  intros H0 Hl Hn l. unfold sym_put. change (chars "_RTS,date") with (key_of [chars "_RTS"; chars "date"]).
  rewrite split_key_of by by_decide. cbn [mbind outcome_bind walk]. rewrite (nodes_table _ _ _ _ H0). cbn [mbind outcome_bind].
  apply find_key1_None in Hn. rewrite Hn. cbn. unfold add_key. cbn.
  rewrite lookup_insert_ne, H0 by lia. cbn. rewrite lookup_insert_ne, lookup_insert_eq by lia. done.
Qed.

Lemma find_date_ok s es r rs hi :
  tabs (store_of s) !! 0 = Some (tab es) → shelf (store_of s) 1 es (r :: rs) hi → hi ≤ next_loc (store_of s) →
  NoDup (keys_of es) → chars "_RTS" ∉ keys_of es → summary_ok r → is_i32 (sum_stime r) →
  ∃ h d l, find_date (keys_of es) 0 s = Done ((), set_store h s) ∧ hi ≤ l ∧
    tabs h !! 0 = Some (tab (es ++ [(chars "_RTS", VTab l)])) ∧ tabs h !! l = Some (tab [(chars "date", VStr d)]) ∧
    texts h !! d = Some (date_x (sum_stime r)) ∧ same_in 1 hi (store_of s) h.
Proof.
  intros H0 Hsh Hhi Hnd Hrts Hr Hst. inversion Hsh as [|? mid ? c k kv es' ? ? Hc Htc Hk Hd Hsh']; subst. set (l := next_loc (store_of s)) in *.
  pose proof (shelf_le _ _ _ _ _ Hsh'). destruct (sum_tag_ok r Hr) as (Hp & _ & Hlen).
  destruct (get_keys (store_of s) _ None (sum_tag r) c k H0) as (_ & _ & Hg); [done|apply list_elem_of_here|done|done|].
  pose proof Hk as (Hkr & ks & Htk & Hks). pose proof (holds_find _ _ _ _ _ (chars "stime") Hks) as Hf.
  rewrite (proj1 (proj2 Hd)) in Hf. destruct Hf as (a & Hf & Ha & Hav).
  exists (Heap (<[S l := tab [(chars "date", VStr l)]]> (<[0 := tab (((sum_tag r, VTab c) :: es') ++ [(chars "_RTS", VTab (S l))])]>
    (<[S l := tab []]> (tabs (store_of s))))) (<[l := date_x (sum_stime r)]> (texts (store_of s))) (S (S l))), l, (S l).
  split_and!.
  - cbn [keys_of fmap list_fmap fst find_date]. erewrite then_done by (apply key_buf_ok; rewrite length_app; cbn; lia).
    erewrite (then_done _ _ _ (Some a) s).
    2:{ unfold keyword. erewrite (then_done _ _ _ (VStr a) s); [reflexivity|]. apply reads_ok.
        change (sum_tag r ++ chars ",_keys,stime") with (sum_tag r ++ chars ",_keys" ++ ","%char :: chars "stime").
        rewrite (Hg (chars "stime")); [|by_decide|eauto].
        rewrite (sym_get_one _ _ _ ks); [by rewrite Hf|by eapply nodes_table|by_decide]. }
    cbv beta match. erewrite then_done by by apply text_ok. erewrite then_done by reflexivity. cbn [strdup fst snd].
    unfold mbind, M_bind, update. cbn [store_of set_store]. rewrite (put_date _ ((sum_tag r, VTab c) :: es')); [|done|cbn; lia|done]. cbn.
    rewrite <- (app_nil_r (print_d (sum_stime r))), atoi_print_d by done. done.
  - lia.
  - cbn. rewrite lookup_insert_ne by lia. by rewrite lookup_insert_eq.
  - cbn. by rewrite lookup_insert_eq.
  - cbn. by rewrite lookup_insert_eq.
  - intros b Hb. cbn. by rewrite !lookup_insert_ne by lia.
Qed.

Lemma print_header_ok s all l d date :
  tabs (store_of s) !! 0 = Some (tab all) → NoDup (keys_of all) → (chars "_RTS", VTab l) ∈ all → l ≠ 0 →
  tabs (store_of s) !! l = Some (tab [(chars "date", VStr d)]) → texts (store_of s) !! d = Some date →
  print_header no_options 0 s = Done ((), set_store (set_tab 0 (tab all) (store_of s)) (add_out (header_text date) s)).
Proof.
  intros H0 Hnd Hin Hl0 Hl Hd. unfold print_header, to_out. cbn [extended no_options]. erewrite then_done by reflexivity.
  assert (sym_get (Some 0) (chars "_RTS") (store_of s) = Done (VTab l)) as Hget.
  { rewrite (sym_get_one _ _ _ all); [|by eapply nodes_table|by_decide]. by rewrite (proj2 (find_Some _ _ _ Hnd) Hin). }
  set (s1 := add_out _ s). set (c0 := Symh (Some all) (Some (l, 0))).
  erewrite (then_done _ _ _ _ (set_store (set_tab 0 c0 (store_of s)) s1)).
  2:{ unfold update, sym_seq. cbn [store_of add_out s1]. rewrite Hget. cbn [mbind outcome_bind].
      pose proof (sym_seq_at (store_of s) 0 all _ l 0 _ H0 (nodes_table _ _ _ _ Hl)) as E. cbn [mbind] in E. rewrite E. reflexivity. }
  cbv beta match. set (s2 := set_store _ s1).
  assert (tabs (store_of s2) !! 0 = Some c0) as H02 by (cbn; by rewrite lookup_insert_eq).
  assert (tabs (store_of s2) !! l = Some (tab [(chars "date", VStr d)])) as Hl2 by (cbn; by rewrite lookup_insert_ne by done).
  erewrite (then_done _ _ _ ()).
  2:{ erewrite (then_done _ _ _ 1 s2).
      2:{ apply reads_ok. rewrite (sym_get_one _ _ _ all); [|by eapply nodes_table|by_decide]. rewrite (proj2 (find_Some _ _ _ Hnd) Hin).
          cbn [mbind outcome_bind from_option id]. by rewrite (nodes_table _ _ _ _ Hl2). }
      cbn [header_loop]. rewrite decide_False by done. erewrite then_done.
      2:{ cbn [as_string]. erewrite then_done by reflexivity. erewrite then_done by reflexivity.
          erewrite then_done by by apply text_ok. reflexivity. }
      erewrite (seq_next _ _ _ all l 0); [|done|by eapply nodes_table]. reflexivity. }
  subst s2 s1. unfold print, put. cbn [store_of set_store add_out]. rewrite set_tab_twice. unfold header_text.
  unfold add_out, set_store. cbn -[chars field FORMAT dashes app NL SP]. by rewrite <- !app_assoc.
Qed.

(** The reporter, after the tests were read. *)
Lemma scanner_reporter_ok s es r rs hi :
  tabs (store_of s) !! 0 = Some (tab es) → shelf (store_of s) 1 es (r :: rs) hi → hi ≤ next_loc (store_of s) →
  NoDup (keys_of es) → Forall summary_ok (r :: rs) → is_i32 (sum_stime r) →
  ∃ h, scanner_reporter no_options 0 s = Done ((), set_store h (add_out (report_text (r :: rs)) s)).
Proof.
  intros H0 Hsh Hhi Hnd Hok Hst. unfold scanner_reporter.
  assert (es ≠ []) as Hne by (by inversion Hsh).
  assert (chars "_RTS" ∉ keys_of es) as Hrts.
  { rewrite (shelf_keys _ _ _ _ _ Hsh). intros (r' & E & Hin)%list_elem_of_fmap. rewrite Forall_forall in Hok.
    by apply Hok, sum_tag_ok in Hin as (_ & ? & _). }
  erewrite then_done by by apply collect_ok. set (s1 := set_store _ s).
  pose proof (Forall_inv Hok) as Hr.
  destruct (find_date_ok s1 es r rs hi) as (h & d & l & Hfd & Hl & Hh0 & Hhl & Hhd & Hsame); try done.
  { cbn. by rewrite lookup_insert_eq. }
  { eapply shelf_same; [done|]. apply same_set_tab. lia. }
  erewrite then_done by exact Hfd. set (s2 := set_store h s1). pose proof (shelf_le _ _ _ _ _ Hsh).
  assert (NoDup (keys_of (es ++ [(chars "_RTS", VTab l)]))) as Hnd2.
  { unfold keys_of. rewrite fmap_app. apply NoDup_app. split_and!; [done| |apply NoDup_singleton].
    intros k Hk Hk'. apply list_elem_of_singleton in Hk' as ->. done. }
  erewrite then_done by (eapply (print_header_ok s2); [exact Hh0|done|apply elem_of_app; right; apply list_elem_of_here|lia|done|done]).
  set (s3 := set_store _ _). destruct (report_loop_ok (es ++ [(chars "_RTS", VTab l)]) None Hnd2 es (r :: rs) 1 hi s3) as (h' & Hrl); try done.
  { eapply shelf_same; [done|]. apply (same_in_trans _ _ _ (store_of s1)); [apply same_set_tab; lia|].
    apply (same_in_trans _ _ _ h); [done|]. apply same_set_tab. lia. }
  { cbn. by rewrite lookup_insert_eq. }
  { intros e He. apply elem_of_app. by left. }
  exists h'. rewrite Hrl. unfold report_text, add_out, set_store. cbn -[header_text concat]. by rewrite <- app_assoc.
Qed.
