(* ===== verification/OpenFlags.v ===== *)
(** * Names of the flags of open()

    src/testcases/kernel/fs/doio/open_flags.c: parse_open_flags() turns names
    separated by commas into flag bits, openflags2symbols() turns flag bits into
    names.  Which flags exist, and their values, comes from the system's fcntl.h,
    which is the parameter [fcntl]. *)
From stdpp Require Import base strings numbers option list.
From Stdlib Require Import Ascii.
From S2P Require Import Prelude SplitStr.

#[local] Open Scope Z_scope.

(** The table entry is always there, or only when the macro is not zero or is
    defined. *)
Inductive guard := Always | If_nonzero | If_defined.

Definition flag_names : list (string * guard) :=
  [("O_RDONLY", Always); ("O_WRONLY", Always); ("O_RDWR", Always); ("O_SYNC", Always); ("O_CREAT", Always);
   ("O_TRUNC", Always); ("O_EXCL", Always); ("O_APPEND", Always); ("O_NONBLOCK", Always);
   ("O_NOCTTY", If_nonzero); ("O_DSYNC", If_nonzero); ("O_RSYNC", If_nonzero); ("O_ASYNC", If_nonzero);
   ("O_PTYIGN", If_nonzero); ("O_NDELAY", If_nonzero); ("O_RAW", If_nonzero); ("O_SSD", If_defined);
   ("O_BIG", If_nonzero); ("O_PLACE", If_nonzero); ("O_RESTART", If_nonzero); ("O_SFSXOP", If_nonzero);
   ("O_SFS_DEFER_TM", If_nonzero); ("O_WELLFORMED", If_nonzero); ("O_LDRAW", If_nonzero); ("O_T3D", If_nonzero);
   ("O_PARALLEL", If_nonzero); ("O_FSA", If_nonzero); ("O_LARGEFILE", If_defined); ("O_DIRECT", If_defined);
   ("O_PRIV", If_defined)]%string.

Section open_flags.
(** The macros of fcntl.h: [None] is not defined. *)
Context (fcntl : string → option Z).

Definition macro (name : string) : Z := default 0 (fcntl name).

(** The value of an entry; O_FSA is a short cut that depends on O_PARALLEL. *)
Definition flag_value (name : string) : Z :=
  if decide (name = "O_FSA"%string)
  then Z.lor (Z.lor (macro "O_PARALLEL") (macro "O_WELLFORMED")) (macro "O_RAW") else macro name.

Definition has_entry (name : string) (g : guard) : bool :=
  match g with
  | Always => true
  | If_nonzero => bool_decide (macro (if decide (name = "O_FSA"%string) then "O_PARALLEL" else name)%string ≠ 0)
  | If_defined => bool_decide (is_Some (fcntl name))
  end.

(** The entries for some of the names of the source. *)
Definition entries (l : list (string * guard)) : list (list ascii * Z) :=
  omap (λ '(name, g), if has_entry name g then Some (chars name, flag_value name) else None) l.

Definition Open_flags : list (list ascii * Z) := entries flag_names.

(** ** parse_open_flags() *)

(** The loop over the table for one name. *)
Fixpoint find_flag (table : list (list ascii * Z)) (name : list ascii) : option Z :=
  match table with
  | [] => None
  | (symbol, flag) :: table' => if decide (name = symbol) then Some flag else find_flag table' name
  end.

Definition in_name (c : ascii) : bool := bool_decide (c ≠ ","%char ∧ c ≠ NUL).

(** The outer loop: the return value, the offset stored in *badname, the string. *)
Fixpoint parse_loop (fuel : nat) (buf : list ascii) (name : nat) (bits : Z) : outcome (Z * option nat * list ascii) :=
  match fuel with
  | O => Timeout
  | S fuel' =>
      let cc := span in_name buf name in
      savecc ← load (buf !! cc);
      let cut := <[cc := NUL]> buf in
      let found := find_flag Open_flags (text_at cut name) in
      let buf := <[cc := savecc]> cut in
      match found with
      | None => Done (-1, Some name, buf)
      | Some flag =>
          let bits := Z.lor bits flag in
          if decide (savecc = NUL) then Done (bits, None, buf) else parse_loop fuel' buf (S cc) bits
      end
  end.

Definition parse_open_flags (buf : list ascii) : outcome (Z * option nat * list ascii) :=
  parse_loop (length buf) buf 0 0.

(** ** openflags2symbols() *)

Definition OPEN_SYMBOLS_SIZE : nat := 512.
Definition UNKNOWN_SYMBOL : list ascii := chars "UNKNOWN".

(** strcat() to the static array. *)
Definition strcat (s t : list ascii) : outcome (list ascii) :=
  if decide (length s + length t < OPEN_SYMBOLS_SIZE)%nat then Done (s ++ t) else Fault.

Definition append (havesome : bool) (sep symbol text : list ascii) : outcome (list ascii) :=
  text ← (if havesome then strcat text sep else Done text);
  strcat text symbol.

(** The loop over the table: the text, havesome and the bits that are left. *)
Fixpoint symbols_loop (table : list (list ascii * Z)) (sep : list ascii) (bits : Z) (havesome : bool)
    (text : list ascii) : outcome (list ascii * bool * Z) :=
  match table with
  | [] => Done (text, havesome, bits)
  | (symbol, flag) :: table' =>
      if decide (Z.land bits flag = flag) then
        text ← append havesome sep symbol text;
        symbols_loop table' sep (Z.ldiff bits flag) true text
      else symbols_loop table' sep bits havesome text
  end.

Definition openflags2symbols (openflags : Z) (sep : list ascii) (mode : Z) : outcome (list ascii) :=
  '(text, havesome) ←
    (if decide (Z.land openflags (Z.lor (macro "O_WRONLY") (macro "O_RDWR")) = 0)
     then text ← strcat [] (chars "O_RDONLY"); Done (text, true) else Done ([], false));
  '(text, havesome, bits) ← symbols_loop (tail Open_flags) sep openflags havesome text;
  if bool_decide (bits ≠ 0) && bool_decide (mode = 1) then append havesome sep UNKNOWN_SYMBOL text else Done text.

(** ** Reference *)

(** The names for some bits, and the bits without a name, flag by flag. *)
Fixpoint name_flags (table : list (list ascii * Z)) (bits : Z) : list (list ascii) * Z :=
  match table with
  | [] => ([], bits)
  | (symbol, flag) :: table' =>
      if decide (Z.land bits flag = flag)
      then let '(ns, rest) := name_flags table' (Z.ldiff bits flag) in (symbol :: ns, rest)
      else name_flags table' bits
  end.

Definition readonly_name (openflags : Z) : list (list ascii) :=
  if decide (Z.land openflags (Z.lor (macro "O_WRONLY") (macro "O_RDWR")) = 0) then [chars "O_RDONLY"] else [].

Definition names_of (openflags : Z) : list (list ascii) * Z :=
  let '(ns, rest) := name_flags (tail Open_flags) openflags in (readonly_name openflags ++ ns, rest).

Fixpoint join (sep : list ascii) (ns : list (list ascii)) : list ascii :=
  match ns with
  | [] => []
  | [n] => n
  | n :: ns' => n ++ sep ++ join sep ns'
  end.

(** ** The table *)

Definition plain_name (n : list ascii) : Prop := Forall (λ c, c ≠ ","%char ∧ c ≠ NUL) n.

Definition all_names (l : list (string * guard)) : list (list ascii) := (λ x, chars x.1) <$> l.

Lemma entries_names l : (entries l).*1 `sublist_of` all_names l.
Proof.
  induction l as [|[name g] l IH]; [done|]. cbn. destruct (has_entry name g); cbn.
  - by apply sublist_skip.
  - by apply sublist_cons.
Qed.

Lemma flag_value_macro name : name ≠ "O_FSA"%string → flag_value name = macro name.
Proof. intros. unfold flag_value. by rewrite decide_False. Qed.

Lemma entries_cons name l :
  name ≠ "O_FSA"%string → entries ((name, Always) :: l) = (chars name, macro name) :: entries l.
Proof. intros Hn. unfold entries. cbn [omap list_omap has_entry]. by rewrite flag_value_macro. Qed.

Lemma flag_names_cons : flag_names = ("O_RDONLY"%string, Always) :: tail flag_names.
Proof. reflexivity. Qed.

Lemma Open_flags_cons : Open_flags = (chars "O_RDONLY", macro "O_RDONLY") :: entries (tail flag_names).
Proof. rewrite <- entries_cons by done. by rewrite <- flag_names_cons. Qed.
#[local] Opaque flag_names.

Lemma flag_names_NoDup : NoDup (all_names flag_names).
Proof. by_decide. Qed.

Lemma flag_names_plain : Forall plain_name (all_names flag_names).
Proof. unfold plain_name. by_decide. Qed.

Lemma find_flag_elem table s f : NoDup table.*1 → (s, f) ∈ table → find_flag table s = Some f.
Proof.
  induction table as [|[s' f'] table IH]; cbn; intros Hnd Hin; [by apply not_elem_of_nil in Hin|].
  apply NoDup_cons in Hnd as [Hn Hnd]. apply elem_of_cons in Hin as [[= -> ->]|Hin].
  - by rewrite decide_True.
  - rewrite decide_False; [by apply IH|]. intros ->. apply Hn. apply list_elem_of_fmap. by exists (s', f).
Qed.

Lemma find_flag_None table s : s ∉ table.*1 → find_flag table s = None.
Proof.
  induction table as [|[s' f'] table IH]; cbn; intros Hn; [done|]. apply not_elem_of_cons in Hn as [? ?].
  rewrite decide_False by done. by apply IH.
Qed.

Lemma Open_flags_NoDup : NoDup Open_flags.*1.
Proof. eapply sublist_NoDup; [apply flag_names_NoDup|apply entries_names]. Qed.

Lemma find_flag_Open s f : (s, f) ∈ Open_flags → find_flag Open_flags s = Some f.
Proof. apply find_flag_elem, Open_flags_NoDup. Qed.

Lemma Open_flags_elem_name s f : (s, f) ∈ Open_flags → s ∈ all_names flag_names.
Proof.
  intros Hin. eapply elem_of_sublist; [|apply (entries_names flag_names)].
  apply list_elem_of_fmap. by exists (s, f).
Qed.

#[local] Opaque Open_flags.

(** ** Names separated by commas *)

Abbreviation names := (pieces (λ c, bool_decide (c = ","%char))).

Lemma names_first w r :
  plain_name w → (r = [] ∨ ∃ r', r = ","%char :: r') →
  names (w ++ r) = w :: match r with [] => [] | _ :: r' => names r' end.
Proof.
  intros Hw Hr. induction Hw as [|c w [Hc _] _ IH]; cbn.
  - destruct Hr as [->|[r' ->]]; cbn; [done|]. by rewrite bool_decide_true.
  - rewrite bool_decide_false by done. by rewrite IH.
Qed.

Lemma names_join ns : ns ≠ [] → Forall plain_name ns → names (join [","%char] ns) = ns.
Proof.
  intros Hne Hns. induction Hns as [|n ns Hn Hns IH]; [done|]. destruct ns as [|n' ns].
  - cbn [join]. rewrite <- (app_nil_r n) at 1. rewrite names_first by auto. done.
  - cbn [join app] in *. rewrite names_first by eauto. f_equal. by apply IH.
Qed.

Lemma plain_split (s : list ascii) :
  cstring s → ∃ w r, s = w ++ r ∧ plain_name w ∧ (r = [] ∨ ∃ r', r = ","%char :: r').
Proof.
  unfold cstring. induction s as [|c s IH]; intros Hs; [exists [], []; split_and!; [done|constructor|by left]|].
  apply not_elem_of_cons in Hs as [Hc Hs]. destruct (decide (c = ","%char)) as [->|Hne].
  - exists [], (","%char :: s). split_and!; [done|constructor|eauto].
  - destruct (IH Hs) as (w & r & -> & Hw & Hr). exists (c :: w), r. split_and!; [done|by constructor|done].
Qed.

(** The names up to the first one that is not in the table, and its offset. *)
Fixpoint parse_names (off : nat) (bits : Z) (ns : list (list ascii)) : Z * option nat :=
  match ns with
  | [] => (bits, None)
  | n :: ns' =>
      match find_flag Open_flags n with
      | None => (-1, Some off)
      | Some f => parse_names (off + S (length n)) (Z.lor bits f) ns'
      end
  end.

Lemma plain_in_name w : plain_name w → Forall in_name w.
Proof. intros Hw. eapply Forall_impl; [exact Hw|]. intros c [??]. by apply bool_decide_pack. Qed.

Lemma parse_loop_spec fuel : ∀ dn rest bits,
  cstring rest → (length rest < fuel)%nat →
  parse_loop fuel (dn ++ rest ++ [NUL]) (length dn) bits =
  Done (parse_names (length dn) bits (names rest), dn ++ rest ++ [NUL]).
Proof.
  induction fuel as [|fuel IH]; intros dn rest bits Hrest Hf; [lia|]. cbn [parse_loop].
  destruct (plain_split rest Hrest) as (w & r & -> & Hw & Hr). rewrite (names_first w r Hw Hr). cbn [parse_names].
  assert (∃ c t, r ++ [NUL] = c :: t ∧ in_name c = false) as (c & t & Ec & Hc).
  { destruct Hr as [->|[r' ->]]; eexists _, _; split; try reflexivity; by apply bool_decide_false; intros []. }
  rewrite <- app_assoc, Ec, span_app by (done || by apply plain_in_name).
  rewrite (app_assoc dn w (c :: t)), list_lookup_middle by done. cbn [load mbind outcome_bind].
  rewrite insert_app_r_alt, Nat.sub_diag by done. cbn [insert list_insert].
  rewrite <- (app_assoc dn w (NUL :: t)), text_at_token by (unfold cstring; intros Hin; by apply (proj1 (Forall_forall _ _) Hw) in Hin as [_ ?]).
  rewrite (app_assoc dn w (NUL :: t)), insert_app_r_alt, Nat.sub_diag by done. cbn [insert list_insert].
  destruct (find_flag Open_flags w) as [f|]; [|by rewrite <- (app_assoc dn w)].
  destruct Hr as [->|[r' ->]]; cbn [app] in Ec; injection Ec as <- <-.
  { by rewrite decide_True, <- app_assoc by done. }
  rewrite decide_False by done. unfold cstring in Hrest. rewrite not_elem_of_app, not_elem_of_cons in Hrest.
  destruct Hrest as (_ & _ & Hr'). rewrite length_app in Hf. cbn in Hf.
  specialize (IH (dn ++ w ++ [","%char]) r' (Z.lor bits f) Hr' ltac:(lia)).
  rewrite !length_app, <- !app_assoc in IH. cbn [app length] in IH. rewrite length_app, <- !app_assoc.
  replace (S (length dn + length w)) with (length dn + (length w + 1))%nat by lia. rewrite IH.
  by replace (length dn + S (length w))%nat with (length dn + (length w + 1))%nat by lia.
Qed.

Lemma parse_open_flags_names str :
  cstring str → parse_open_flags (str ++ [NUL]) = Done (parse_names 0 0 (names str), str ++ [NUL]).
Proof. intros. apply (parse_loop_spec (length (str ++ [NUL])) []); [done|]. rewrite length_app. cbn. lia. Qed.

(** ** Printing *)

Lemma join_snoc sep ns n :
  join sep (ns ++ [n]) = match ns with [] => n | _ => join sep ns ++ sep ++ n end.
Proof.
  induction ns as [|m ns IH]; [done|]. destruct ns as [|m' ns]; [done|].
  cbn [app join] in *. rewrite IH. by rewrite <- !app_assoc.
Qed.

(** The space a list of names needs with separators of [k] characters. *)
Definition space (k : nat) (ns : list (list ascii)) : nat := sum_list ((λ n, length n + k)%nat <$> ns).

Lemma space_app k ns ms : space k (ns ++ ms) = (space k ns + space k ms)%nat.
Proof. unfold space. by rewrite fmap_app, sum_list_with_app. Qed.

Lemma space_join sep ns : (length (join sep ns) ≤ space (length sep) ns)%nat.
Proof.
  induction ns as [|n ns IH]; [done|]. change (n :: ns) with ([n] ++ ns). rewrite space_app.
  destruct ns as [|n' ns]; cbn [app join] in *; [unfold space; cbn; lia|].
  rewrite !length_app. assert (space (length sep) [n] = length n + length sep)%nat as -> by (unfold space; cbn; lia). lia.
Qed.

Lemma space_sublist k ns ms : ns `sublist_of` ms → (space k ns ≤ space k ms)%nat.
Proof. induction 1; unfold space in *; cbn; lia. Qed.

Lemma append_join sep ns n :
  (space (length sep) (ns ++ [n]) < OPEN_SYMBOLS_SIZE)%nat →
  append (bool_decide (ns ≠ [])) sep n (join sep ns) = Done (join sep (ns ++ [n])).
Proof.
  intros Hs. pose proof (space_join sep (ns ++ [n])) as Hj. rewrite join_snoc in *. unfold append, strcat.
  destruct ns as [|m ns].
  - rewrite bool_decide_false by auto. cbn. by rewrite decide_True by (cbn in *; lia).
  - rewrite bool_decide_true by done. rewrite !length_app in Hj. rewrite decide_True by lia. cbn [mbind outcome_bind].
    rewrite decide_True by (rewrite length_app; lia). by rewrite <- app_assoc.
Qed.

Lemma name_flags_sublist table bits : (name_flags table bits).1 `sublist_of` table.*1.
Proof.
  revert bits. induction table as [|[s f] table IH]; intros bits; cbn; [done|].
  destruct (decide _).
  - specialize (IH (Z.ldiff bits f)). destruct (name_flags table _) as [ns rest]. cbn in *. by apply sublist_skip.
  - by apply sublist_cons.
Qed.

Lemma symbols_loop_spec sep table : ∀ bits ns,
  (space (length sep) (ns ++ (name_flags table bits).1) < OPEN_SYMBOLS_SIZE)%nat →
  symbols_loop table sep bits (bool_decide (ns ≠ [])) (join sep ns) =
  let ns' := ns ++ (name_flags table bits).1 in Done (join sep ns', bool_decide (ns' ≠ []), (name_flags table bits).2).
Proof.
  induction table as [|[s f] table IH]; intros bits ns Hs; cbn in *; [by rewrite app_nil_r|].
  destruct (decide _) as [Hf|Hf]; [|by apply IH].
  destruct (name_flags table (Z.ldiff bits f)) as [ms rest] eqn:E. cbn in *.
  assert (ns ++ s :: ms = (ns ++ [s]) ++ ms) as Ens by (by rewrite <- app_assoc). rewrite Ens in *.
  rewrite append_join by (rewrite !space_app in *; lia). cbn [mbind outcome_bind].
  specialize (IH (Z.ldiff bits f) (ns ++ [s])). rewrite E in IH. cbn in IH.
  rewrite bool_decide_true in IH by (by destruct ns). by apply IH.
Qed.

Lemma names_of_sublist fl : (names_of fl).1 `sublist_of` all_names flag_names.
Proof.
  unfold names_of. rewrite Open_flags_cons. cbn [tail].
  pose proof (name_flags_sublist (entries (tail flag_names)) fl) as Hs. destruct (name_flags _ fl) as [ns rest]. cbn in *.
  rewrite flag_names_cons. cbn. change (tail flag_names) with (tail flag_names).
  assert (ns `sublist_of` all_names (tail flag_names)) as Hns by (etrans; [exact Hs|apply entries_names]).
  unfold readonly_name. destruct (decide _); [by apply sublist_skip|by apply sublist_cons].
Qed.

(** Nothing overflows the static array. *)
Lemma all_names_space k : (k ≤ 8)%nat → (space k (all_names flag_names ++ [UNKNOWN_SYMBOL]) < OPEN_SYMBOLS_SIZE)%nat.
Proof.
  intros Hk. assert (∀ ns, space k ns ≤ space 8 ns)%nat as Hm by (intros ns; unfold space; induction ns; cbn; lia).
  eapply Nat.le_lt_trans; [apply Hm|]. by_decide.
Qed.

Definition unknown_name (rest mode : Z) : list (list ascii) :=
  if bool_decide (rest ≠ 0) && bool_decide (mode = 1) then [UNKNOWN_SYMBOL] else [].

Lemma strcat_start s : (length s < OPEN_SYMBOLS_SIZE)%nat → strcat [] s = Done s.
Proof. intros. unfold strcat. by rewrite decide_True. Qed.

Lemma readonly_text sep fl :
  (if decide (Z.land fl (Z.lor (macro "O_WRONLY") (macro "O_RDWR")) = 0)
   then text ← strcat [] (chars "O_RDONLY"); Done (text, true) else Done ([], false)) =
  Done (join sep (readonly_name fl), bool_decide (readonly_name fl ≠ [])).
Proof.
  unfold readonly_name. destruct (decide _).
  - rewrite strcat_start by by_decide. cbn [mbind outcome_bind join]. by rewrite bool_decide_true.
  - by rewrite bool_decide_false by auto.
Qed.

Lemma names_of_space k fl ns ms :
  (k ≤ 8)%nat → ns ++ ms = (names_of fl).1 → (space k (ns ++ ms ++ [UNKNOWN_SYMBOL]) < OPEN_SYMBOLS_SIZE)%nat.
Proof.
  intros Hk E. rewrite app_assoc, E. eapply Nat.le_lt_trans; [|exact (all_names_space k Hk)].
  rewrite !space_app. apply Nat.add_le_mono_r, space_sublist, names_of_sublist.
Qed.

Lemma openflags2symbols_names fl sep mode :
  (length sep ≤ 8)%nat →
  openflags2symbols fl sep mode = Done (join sep ((names_of fl).1 ++ unknown_name (names_of fl).2 mode)).
Proof.
  intros Hk. pose proof (λ ns ms, names_of_space (length sep) fl ns ms Hk) as Hsp.
  unfold openflags2symbols. rewrite (readonly_text sep). revert Hsp. unfold names_of. generalize (tail Open_flags) as table.
  intros table. destruct (name_flags table fl) as [ms rest] eqn:E. cbn [fst snd mbind outcome_bind].
  intros Hsp. specialize (Hsp _ _ eq_refl).
  rewrite symbols_loop_spec by (rewrite E; cbn [fst]; rewrite !space_app in *; lia). rewrite E. cbn [fst snd mbind outcome_bind].
  unfold unknown_name. destruct (bool_decide (rest ≠ 0) && bool_decide (mode = 1)); [|by rewrite app_nil_r].
  apply append_join. by rewrite <- app_assoc.
Qed.

(** ** Reading back what was printed *)

Definition found (n : list ascii) (f : Z) : Prop := find_flag Open_flags n = Some f.

Lemma parse_names_found ns fs us : ∀ off bits, Forall2 found ns fs →
  ∃ off', parse_names off bits (ns ++ us) = parse_names off' (foldl Z.lor bits fs) us.
Proof.
  intros off bits H. revert off bits. induction H as [|n f ns fs Hn _ IH]; intros off bits; [by exists off|].
  cbn. unfold found in Hn. rewrite Hn. apply IH.
Qed.

Lemma lor_flag bits f : Z.land bits f = f → Z.lor f (Z.ldiff bits f) = bits.
Proof.
  intros Hf. apply Z.bits_inj'. intros i Hi. rewrite Z.lor_spec, Z.ldiff_spec.
  apply (f_equal (λ x, Z.testbit x i)) in Hf. rewrite Z.land_spec in Hf.
  by destruct (Z.testbit bits i), (Z.testbit f i).
Qed.

Lemma name_flags_bits table : ∀ bits, table ⊆ Open_flags →
  ∃ fs, Forall2 found (name_flags table bits).1 fs ∧
    ∀ acc, Z.lor (foldl Z.lor acc fs) (name_flags table bits).2 = Z.lor acc bits.
Proof.
  induction table as [|[s f] table IH]; intros bits Hsub; cbn; [by exists []|].
  assert (table ⊆ Open_flags) as Hsub' by (intros x Hx; apply Hsub; by right). destruct (decide _) as [Hf|Hf]; [|by apply IH].
  destruct (IH (Z.ldiff bits f) Hsub') as (fs & Hfs & Hacc). destruct (name_flags table _) as [ns rest]. cbn in *.
  exists (f :: fs). split.
  - constructor; [|done]. apply find_flag_Open, Hsub. by left.
  - intros acc. cbn. by rewrite Hacc, <- Z.lor_assoc, lor_flag.
Qed.

Lemma names_of_bits fl : macro "O_RDONLY" = 0 →
  ∃ fs, Forall2 found (names_of fl).1 fs ∧ Z.lor (foldl Z.lor 0 fs) (names_of fl).2 = fl.
Proof.
  intros H0. unfold names_of. pose proof Open_flags_cons as Ec. revert Ec. rewrite H0.
  intros Ec. destruct (name_flags_bits (tail Open_flags) fl) as (fs & Hfs & Hacc); [rewrite Ec; intros x Hx; by right|].
  destruct (name_flags (tail Open_flags) fl) as [ns rest]. cbn in *. unfold readonly_name. destruct (decide _).
  - exists (0 :: fs). split; [|exact (Hacc 0)]. constructor; [|done]. apply find_flag_Open. rewrite Ec. by left.
  - exists fs. split; [done|exact (Hacc 0)].
Qed.

Lemma plain_join sep ns : plain_name sep ∨ sep = [","%char] → Forall plain_name ns → cstring (join sep ns).
Proof.
  intros Hsep Hns. unfold cstring.
  assert (NUL ∉ sep) as Hs.
  { destruct Hsep as [Hsep| ->]; [|by_decide]. intros Hin. by apply (proj1 (Forall_forall _ _) Hsep) in Hin as [_ ?]. }
  induction Hns as [|n ns Hn _ IH]; [by apply not_elem_of_nil|].
  assert (NUL ∉ n) as Hn' by (intros Hin; by apply (proj1 (Forall_forall _ _) Hn) in Hin as [_ ?]).
  destruct ns; cbn [join] in *; [done|]. by rewrite !not_elem_of_app.
Qed.

Lemma names_of_plain fl : Forall plain_name (names_of fl).1.
Proof.
  apply Forall_forall. intros n Hn. eapply (proj1 (Forall_forall _ _) flag_names_plain).
  by eapply elem_of_sublist; [|apply names_of_sublist].
Qed.

Lemma unknown_plain : plain_name UNKNOWN_SYMBOL.
Proof. unfold plain_name. by_decide. Qed.

Lemma unknown_not_found : find_flag Open_flags UNKNOWN_SYMBOL = None.
Proof.
  apply find_flag_None. intros Hin. assert (UNKNOWN_SYMBOL ∈ all_names flag_names) as Hn.
  { eapply elem_of_sublist; [exact Hin|apply (entries_names flag_names)]. }
  revert Hn. by_decide.
Qed.

(** There is always a name when all bits have one. *)
Lemma names_nonempty fl : macro "O_RDONLY" = 0 → (names_of fl).2 = 0 → (names_of fl).1 ≠ [].
Proof.
  intros H0 Hr E. destruct (names_of_bits fl H0) as (fs & Hfs & Hb). rewrite E in Hfs. apply Forall2_nil_inv_l in Hfs as ->.
  rewrite Hr in Hb. change (0 = fl) in Hb. subst fl. revert E. unfold names_of. generalize (name_flags (tail Open_flags) 0).
  intros [ns rest]. cbn [fst]. unfold readonly_name. by rewrite decide_True.
Qed.

(** parse_open_flags() of printed names. *)
Lemma parse_printed ns :
  ns ≠ [] → Forall plain_name ns →
  parse_open_flags (join [","%char] ns ++ [NUL]) = Done (parse_names 0 0 ns, join [","%char] ns ++ [NUL]).
Proof. intros Hne Hns. rewrite parse_open_flags_names by (apply plain_join; auto). by rewrite names_join. Qed.
End open_flags.

#[local] Opaque Open_flags flag_names.

(** ** Properties *)

(** Whatever the flags, openflags2symbols() stays inside its array of 512
    characters with a separator of up to eight characters.  When every bit has a
    name, parse_open_flags() of the names separated by commas gives the flags back;
    when a bit has no name and the mode asks for it, the text is rejected at the
    word UNKNOWN.  The parsed string is unchanged afterwards. *)
Theorem open_flags_roundtrip fcntl fl mode sep :
  macro fcntl "O_RDONLY" = 0 → (length sep ≤ 8)%nat →
  (∃ text, openflags2symbols fcntl fl sep mode = Done text) ∧
  ∃ text, openflags2symbols fcntl fl [","%char] mode = Done text ∧
    ((names_of fcntl fl).2 = 0 → parse_open_flags fcntl (text ++ [NUL]) = Done (fl, None, text ++ [NUL])) ∧
    ((names_of fcntl fl).2 ≠ 0 → mode = 1 →
      ∃ off, parse_open_flags fcntl (text ++ [NUL]) = Done (-1, Some off, text ++ [NUL])).
Proof.
  intros H0 Hsep. split; [eexists; by apply openflags2symbols_names|].
  eexists. split; [by apply openflags2symbols_names; cbn; lia|].
  destruct (names_of_bits fcntl fl H0) as (fs & Hfs & Hbits). pose proof (names_of_plain fcntl fl) as Hplain.
  set (ns := (names_of fcntl fl).1) in *. set (rest := (names_of fcntl fl).2) in *. split.
  - intros Hr. rewrite Hr, Z.lor_0_r in Hbits. unfold unknown_name. rewrite bool_decide_false by auto. rewrite app_nil_r.
    rewrite parse_printed; [|by apply (names_nonempty fcntl fl H0)|done].
    destruct (parse_names_found fcntl ns fs [] 0 0 Hfs) as (off & E). rewrite app_nil_r in E. rewrite E. cbn [parse_names]. by rewrite Hbits.
  - intros Hr Hm. unfold unknown_name. rewrite !bool_decide_true by done. cbn [andb].
    rewrite parse_printed; [|by destruct ns|apply Forall_app; split; [done|]; constructor; [apply unknown_plain|constructor]].
    destruct (parse_names_found fcntl ns fs [UNKNOWN_SYMBOL] 0 0 Hfs) as (off & E). rewrite E. cbn [parse_names].
    rewrite unknown_not_found. by exists off.
Qed.

Fixpoint list_find_value (name : string) (l : list (string * Z)) : option Z :=
  match l with
  | [] => None
  | (n, v) :: l' => if decide (name = n) then Some v else list_find_value name l'
  end.

(** Values of the flags on x86-64 Linux. *)
Definition linux_fcntl (name : string) : option Z :=
  list_find_value name
    [("O_RDONLY", 0); ("O_WRONLY", 1); ("O_RDWR", 2); ("O_SYNC", 1052672); ("O_CREAT", 64); ("O_TRUNC", 512);
     ("O_EXCL", 128); ("O_APPEND", 1024); ("O_NONBLOCK", 2048); ("O_NOCTTY", 256); ("O_DSYNC", 4096);
     ("O_RSYNC", 1052672); ("O_ASYNC", 8192); ("O_NDELAY", 2048); ("O_LARGEFILE", 0); ("O_DIRECT", 16384)]%string.

Lemma open_flags_roundtrip_witness :
  ∃ text, openflags2symbols linux_fcntl (1 + 64 + 1052672) [","%char] 1 = Done text ∧
    parse_open_flags linux_fcntl (text ++ [NUL]) = Done (1 + 64 + 1052672, None, text ++ [NUL]).
Proof.
  destruct (open_flags_roundtrip linux_fcntl (1 + 64 + 1052672) 1 [","%char]) as (_ & text & E & Hp & _);
    [vm_compute; reflexivity|by_decide|].
  exists text. split; [exact E|]. apply Hp. vm_compute. reflexivity.
Defined.
