(* ===== verification/Steps.v ===== *)
(** * Programs that change a state and talk to the system

    The monad of the exercisers: a step reads and changes the variables of the program
    and the system, goes on with a value or exits; a fault and missing fuel are those of
    [outcome].  [wp] is the postcondition calculus the theorems about them use. *)
From stdpp Require Import base numbers option list.
From S2P Require Import Prelude CInt.

#[local] Open Scope Z_scope.

Inductive flow (A : Type) := Goes (a : A) | Exits (code : Z).
Arguments Goes {A}. Arguments Exits {A}.

Definition prog (S W A : Type) : Type := S → W → outcome (flow A * S * W).

#[export] Instance prog_ret {S W} : MRet (prog S W) := λ A a s w, Done (Goes a, s, w).
#[export] Instance prog_bind {S W} : MBind (prog S W) := λ A B f m s w,
  match m s w with
  | Done (Goes a, s', w') => f a s' w'
  | Done (Exits c, s', w') => Done (Exits c, s', w')
  | Fault => Fault
  | Timeout => Timeout
  end.

Section steps.
Context {S W : Type}.

Definition get {A} (f : S → A) : prog S W A := λ s w, Done (Goes (f s), s, w).
Definition put (f : S → S) : prog S W () := λ s w, Done (Goes (), f s, w).
Definition lift {A} (m : outcome A) : prog S W A := λ s w,
  match m with Done a => Done (Goes a, s, w) | Fault => Fault | Timeout => Timeout end.
Definition exit {A} (code : Z) : prog S W A := λ s w, Done (Exits code, s, w).

(** ** Postconditions

    [stuck] says that faults are allowed, [stop] what holds when the program exits. *)
Section wp.
Context {stuck : Prop} {stop : Z → S → W → Prop}.

Definition wp {A} (m : prog S W A) (s : S) (w : W) (Q : A → S → W → Prop) : Prop :=
  match m s w with
  | Done (Goes a, s', w') => Q a s' w'
  | Done (Exits c, s', w') => stop c s' w'
  | Fault => stuck
  | Timeout => False
  end.

Lemma wp_ret {A} (a : A) s w (Q : A → S → W → Prop) : Q a s w → wp (mret a) s w Q.
Proof. done. Qed.

Lemma wp_bind {A B} (m : prog S W A) (k : A → prog S W B) s w Q :
  wp m s w (λ a s' w', wp (k a) s' w' Q) → wp (m ≫= k) s w Q.
Proof. unfold wp, mbind, prog_bind. destruct (m s w) as [[[[a|c] s'] w']| |]; done. Qed.

Lemma wp_mono {A} (m : prog S W A) s w (Q Q' : A → S → W → Prop) :
  wp m s w Q → (∀ a s' w', Q a s' w' → Q' a s' w') → wp m s w Q'.
Proof. unfold wp. destruct (m s w) as [[[[a|c] s'] w']| |]; auto. Qed.

Lemma wp_get {A} (g : S → A) s w (Q : A → S → W → Prop) : Q (g s) s w → wp (get g) s w Q.
Proof. done. Qed.

Lemma wp_put g s w (Q : () → S → W → Prop) : Q () (g s) w → wp (put g) s w Q.
Proof. done. Qed.

Lemma wp_lift {A} (o : outcome A) a s w (Q : A → S → W → Prop) : o = Done a → Q a s w → wp (lift o) s w Q.
Proof. by intros ->. Qed.

Lemma wp_exit {A} c s w (Q : A → S → W → Prop) : stop c s w → wp (exit c) s w Q.
Proof. done. Qed.
End wp.
End steps.

Arguments wp {S W} stuck stop {A} m s w Q.
