(* ===== verification/Fsx.v ===== *)
(** * The file system exerciser (src/testcases/kernel/fs/fsx-linux/fsx-linux.c)

    fsx performs random reads, writes, mapped accesses and truncations on a file and
    keeps in memory what the file should contain.  The model has its buffers, the
    log, the choice of the operation and every operation with its checks; the calls
    to the system and their replies are recorded in the state.  The file system and
    random() are the class [FsWorld].  Options are a record; the messages, the
    debugging output and the .fsxgood and .fsxlog files are left out. *)
From stdpp Require Import base numbers option list.
From S2P Require Import Prelude CInt CMem Steps.

#[local] Open Scope Z_scope.

(** ** The system *)

(** The calls on the file.  [COpen] has the index of the path and whether O_CREAT |
    O_TRUNC is set; [CLoad] and [CStore] are accesses to mapped memory at [p + off]. *)
Inductive call :=
  | COpen (path : nat) (trunc : bool) | CClose (fd : Z)
  | CSeekSet (fd off : Z) | CSeekEnd (fd : Z) | CFstat (fd : Z)
  | CRead (fd n : Z) | CWrite (fd : Z) (bytes : list Z) | CTruncate (fd size : Z)
  | CMmap (fd len off : Z) | CLoad (p off n : Z) | CStore (p off : Z) (bytes : list Z)
  | CMsync (p len : Z) | CMunmap (p len : Z).

(** The return value and the bytes a read stores; for fstat() the size, or -1. *)
Record reply := Reply { ret : Z; data : list Z }.

(** A read stores as many bytes as it returns, a write takes at most its bytes. *)
Definition reply_wf (c : call) (r : reply) : Prop :=
  match c with
  | CRead fd n => -1 ≤ ret r ≤ Z.max 0 n ∧ Z.of_nat (length (data r)) = Z.max 0 (ret r)
  | CWrite fd bs => -1 ≤ ret r ≤ Z.of_nat (length bs)
  | CLoad p off n => Z.of_nat (length (data r)) = Z.max 0 n
  | _ => True
  end.

Class FsWorld (W : Type) := {
  sys : call → W → reply * W;
  random : W → Z * W;
  (** random() gives a number below 2^31. *)
  random_range w : 0 ≤ (random w).1 ≤ INT_MAX;
  sys_wf c w : reply_wf c (sys c w).1
}.

(** ** Options and state *)

Inductive fd_policy := FD_SINGLE | FD_ROTATE | FD_RANDOM.

(** The global variable: the option -s sets a variable of main() that hides it. *)
Definition style : Z := 0.

Record config := Config {
  simulatedopcount : Z; closeprob : Z; maxoplen : Z; readbdy : Z; truncbdy : Z; writebdy : Z;
  sizechecks : bool; lite : bool; randomoplen : bool; mapped_writes : bool; mapped_reads : bool;
  page_size : Z; policy : fd_policy; num_test_files : nat
}.

Inductive op := OP_READ | OP_WRITE | OP_TRUNCATE | OP_CLOSEOPEN | OP_MAPREAD | OP_MAPWRITE | OP_SKIPPED.
Definition op_code (o : op) : Z :=
  match o with
  | OP_READ => 1 | OP_WRITE => 2 | OP_TRUNCATE => 3 | OP_CLOSEOPEN => 4
  | OP_MAPREAD => 5 | OP_MAPWRITE => 6 | OP_SKIPPED => 7
  end.

(** An operation with its three arguments; the unused entries are zero. *)
Record log_entry := LogEntry { operation : Z; args : list Z }.

Definition LOGSIZE : nat := 1000.

Record log := Log { oplog : list log_entry; logptr : nat; logcount : Z }.

(** The variables of the program, and the calls made so far. *)
Record fsx := Fsx {
  original_buf : list Z; good_buf : list Z; temp_buf : list Z;
  maxfilelen : Z; file_size : Z; biggest : Z; testcalls : Z; badoff : Z;
  fd_last : Z; test_files : list Z; oplogs : log; calls : list (call * reply)
}.

Definition set_good b s := Fsx (original_buf s) b (temp_buf s) (maxfilelen s) (file_size s) (biggest s) (testcalls s)
  (badoff s) (fd_last s) (test_files s) (oplogs s) (calls s).
Definition set_temp b s := Fsx (original_buf s) (good_buf s) b (maxfilelen s) (file_size s) (biggest s) (testcalls s)
  (badoff s) (fd_last s) (test_files s) (oplogs s) (calls s).
Definition set_bufs o g t s := Fsx o g t (maxfilelen s) (file_size s) (biggest s) (testcalls s)
  (badoff s) (fd_last s) (test_files s) (oplogs s) (calls s).
Definition set_maxfilelen n s := Fsx (original_buf s) (good_buf s) (temp_buf s) n (file_size s) (biggest s)
  (testcalls s) (badoff s) (fd_last s) (test_files s) (oplogs s) (calls s).
Definition set_file_size n s := Fsx (original_buf s) (good_buf s) (temp_buf s) (maxfilelen s) n (biggest s)
  (testcalls s) (badoff s) (fd_last s) (test_files s) (oplogs s) (calls s).
Definition set_biggest n s := Fsx (original_buf s) (good_buf s) (temp_buf s) (maxfilelen s) (file_size s) n
  (testcalls s) (badoff s) (fd_last s) (test_files s) (oplogs s) (calls s).
Definition set_testcalls n s := Fsx (original_buf s) (good_buf s) (temp_buf s) (maxfilelen s) (file_size s)
  (biggest s) n (badoff s) (fd_last s) (test_files s) (oplogs s) (calls s).
Definition set_badoff n s := Fsx (original_buf s) (good_buf s) (temp_buf s) (maxfilelen s) (file_size s) (biggest s)
  (testcalls s) n (fd_last s) (test_files s) (oplogs s) (calls s).
Definition set_fd_last n s := Fsx (original_buf s) (good_buf s) (temp_buf s) (maxfilelen s) (file_size s) (biggest s)
  (testcalls s) (badoff s) n (test_files s) (oplogs s) (calls s).
Definition set_test_files l s := Fsx (original_buf s) (good_buf s) (temp_buf s) (maxfilelen s) (file_size s)
  (biggest s) (testcalls s) (badoff s) (fd_last s) l (oplogs s) (calls s).
Definition set_oplogs l s := Fsx (original_buf s) (good_buf s) (temp_buf s) (maxfilelen s) (file_size s) (biggest s)
  (testcalls s) (badoff s) (fd_last s) (test_files s) l (calls s).
Definition add_call c r s := Fsx (original_buf s) (good_buf s) (temp_buf s) (maxfilelen s) (file_size s) (biggest s)
  (testcalls s) (badoff s) (fd_last s) (test_files s) (oplogs s) (calls s ++ [(c, r)]).

(** ** Steps *)

Abbreviation M W := (prog fsx W).

Section fsx.
Context {W : Type} `{FsWorld W} (cfg : config).

Definition rnd : M W Z := λ s w, let '(r, w') := random w in Done (Goes r, s, w').
Definition invoke (c : call) : M W reply := λ s w, let '(r, w') := sys c w in Done (Goes r, add_call c r s, w').

(** report_failure(): the log and the good buffer are saved, then exit(). *)
Definition report_failure {A} (status : Z) : M W A := exit status.

(** ** The log *)

Definition log4_entry (o : op) (a0 a1 a2 : Z) : log_entry := LogEntry (op_code o) [wrap32 a0; wrap32 a1; wrap32 a2].

Definition log_add (e : log_entry) (l : log) : outcome log :=
  if decide (logptr l < length (oplog l))%nat then
    n ← i32 (logcount l + 1);
    Done (Log (<[logptr l := e]> (oplog l)) (if decide (LOGSIZE ≤ S (logptr l))%nat then 0%nat else S (logptr l)) n)
  else Fault.

Definition log4 (o : op) (a0 a1 a2 : Z) : M W () :=
  l ← get oplogs;
  l ← lift (log_add (log4_entry o a0 a1 a2) l);
  put (set_oplogs l).

(** logdump(): the entries in the order they are printed, with their numbers. *)
Fixpoint logdump_loop (count i : nat) (l : log) : list (Z * log_entry) :=
  match count with
  | O => []
  | S count' =>
      let opnum := Z.of_nat i + 1 + Z.quot (logcount l) (Z.of_nat LOGSIZE) * Z.of_nat LOGSIZE in
      match oplog l !! i with
      | None => []
      | Some e => (opnum, e) :: logdump_loop count' (if decide (S i = LOGSIZE) then 0%nat else S i) l
      end
  end.

Definition logdump (l : log) : list (Z * log_entry) :=
  if decide (logcount l < Z.of_nat LOGSIZE) then logdump_loop (Z.to_nat (logcount l)) 0 l
  else logdump_loop LOGSIZE (logptr l) l.

(** ** The check of the data *)

Definition short_at (buf : list Z) (i : Z) : outcome Z :=
  a ← byte_at buf i; b ← byte_at buf (i + 1); Done (Z.lor (Z.shiftl a 8) b).

(** The loop that reports the bytes that differ: the number and the last offset. *)
Fixpoint bad_loop (good temp : list Z) (size : nat) (offset i n badoff : Z) : outcome (Z * Z) :=
  match size with
  | O => Done (n, badoff)
  | S size' =>
      c ← byte_at good offset;
      t ← byte_at temp i;
      if decide (c ≠ t) then
        _ ← (if decide (n = 0) then
               _ ← short_at temp i;
               _ ← short_at good offset;
               byte_at temp (if decide (Z.land offset 1 ≠ 0) then i + 1 else i)
             else Done 0);
        bad_loop good temp size' (offset + 1) (i + 1) (n + 1) offset
      else bad_loop good temp size' (offset + 1) (i + 1) n badoff
  end.

Definition check_buffers (offset size : Z) : M W () :=
  good ← get good_buf;
  temp ← get temp_buf;
  a ← lift (bytes_at good offset size);
  b ← lift (bytes_at temp 0 size);
  if memcmp a b then
    off ← get badoff;
    '(_, off) ← lift (bad_loop good temp (Z.to_nat size) offset 0 0 off);
    _ ← put (set_badoff off);
    report_failure 110
  else mret ().

(** ** The files *)

(** get_tf(): an index of test_files. *)
Definition get_tf : M W nat :=
  index ← match policy cfg with
          | FD_ROTATE => i ← get fd_last; n ← lift (i32 (i + 1)); _ ← put (set_fd_last n); mret (u32 i)
          | FD_RANDOM => r ← rnd; mret (u32 r)
          | FD_SINGLE => mret 0
          end;
  if decide (num_test_files cfg = 0%nat) then lift Fault
  else mret (Z.to_nat (index mod Z.of_nat (num_test_files cfg))).

Definition tf_fd (tf : nat) : M W Z := l ← get test_files; lift (load (l !! tf)).
Definition get_fd : M W Z := tf ← get_tf; tf_fd tf.

(** The loop of open_test_files(). *)
Fixpoint open_loop (n i : nat) : M W () :=
  match n with
  | O => mret ()
  | S n' =>
      r ← invoke (COpen i (negb (lite cfg)));
      if decide (ret r < 0) then exit 91
      else
        l ← get test_files;
        _ ← put (set_test_files (l ++ [ret r]));
        open_loop n' (S i)
  end.
Definition open_test_files : M W () := open_loop (num_test_files cfg) 0.

Fixpoint close_loop (l : list Z) : M W () :=
  match l with
  | [] => mret ()
  | fd :: l' => r ← invoke (CClose fd); if decide (ret r ≠ 0) then report_failure 99 else close_loop l'
  end.
Definition close_test_files : M W () := l ← get test_files; close_loop l.

Definition check_size : M W () :=
  fd ← get_fd;
  st ← invoke (CFstat fd);
  sk ← invoke (CSeekEnd fd);
  n ← get file_size;
  if decide (n ≠ ret st ∨ n ≠ ret sk) then report_failure 120 else mret ().

Definition check_trunc_hack : M W () :=
  fd ← get_fd;
  _ ← invoke (CTruncate fd 0);
  _ ← invoke (CTruncate fd 100000);
  st ← invoke (CFstat fd);
  if decide (ret st ≠ 100000) then exit 130
  else _ ← invoke (CTruncate fd 0); mret ().

(** ** The operations *)

(** offset -= offset % bdy, in unsigned arithmetic. *)
Definition align (bdy x : Z) : M W Z :=
  if decide (u32 bdy = 0) then lift Fault else mret (x - x mod u32 bdy).

(** if (testcalls <= simulatedopcount) return; *)
Definition unless_simulated (m : M W ()) : M W () :=
  n ← get testcalls;
  if decide (n ≤ simulatedopcount cfg) then mret () else m.

Definition doread (offset size : Z) : M W () :=
  tf ← get_tf; fd ← tf_fd tf;
  offset ← align (readbdy cfg) offset;
  fsize ← get file_size;
  if decide (size = 0) then log4 OP_SKIPPED (op_code OP_READ) offset size
  else if decide (fsize < u32 (size + offset)) then log4 OP_SKIPPED (op_code OP_READ) offset size
  else
    _ ← log4 OP_READ offset size 0;
    unless_simulated (
      r ← invoke (CSeekSet fd offset);
      if decide (ret r = -1) then report_failure 140
      else
        r ← invoke (CRead fd size);
        temp ← get temp_buf;
        temp ← lift (memcpy temp 0 (data r));
        _ ← put (set_temp temp);
        if decide (u32 (ret r) ≠ size) then report_failure 141 else check_buffers offset size).

Definition page_mask : Z := page_size cfg - 1.

Definition domapread (offset size : Z) : M W () :=
  tf ← get_tf; fd ← tf_fd tf;
  offset ← align (readbdy cfg) offset;
  fsize ← get file_size;
  if decide (size = 0) then log4 OP_SKIPPED (op_code OP_MAPREAD) offset size
  else if decide (fsize < u32 (size + offset)) then log4 OP_SKIPPED (op_code OP_MAPREAD) offset size
  else
    _ ← log4 OP_MAPREAD offset size 0;
    unless_simulated (
      let pg_offset := Z.land offset page_mask in
      let map_size := u32 (pg_offset + size) in
      p ← invoke (CMmap fd map_size (offset - pg_offset));
      if decide (ret p = -1) then report_failure 190
      else
        r ← invoke (CLoad (ret p) pg_offset size);
        temp ← get temp_buf;
        temp ← lift (memcpy temp 0 (data r));
        _ ← put (set_temp temp);
        r ← invoke (CMunmap (ret p) map_size);
        if decide (ret r ≠ 0) then report_failure 191 else check_buffers offset size).

(** The loop of gendata(). *)
Fixpoint gendata_loop (n : nat) (tag : Z) (original good : list Z) (offset : Z) : outcome (list Z) :=
  match n with
  | O => Done good
  | S n' =>
      b ← (if decide (offset mod 2 ≠ 0) then o ← byte_at original offset; Done ((tag + o) mod 256) else Done tag);
      good ← put_byte good offset b;
      gendata_loop n' tag original good (offset + 1)
  end.

Definition gendata (offset size : Z) : M W () :=
  n ← get testcalls;
  original ← get original_buf;
  good ← get good_buf;
  good ← lift (gendata_loop (Z.to_nat size) (n mod 256) original good offset);
  put (set_good good).

(** The good buffer and the file size for a write. *)
Definition prepare_write (offset size failure : Z) : M W () :=
  _ ← gendata offset size;
  fsize ← get file_size;
  if decide (fsize < u32 (offset + size)) then
    _ ← (if decide (fsize < offset) then
           good ← get good_buf;
           good ← lift (memset good fsize 0 (offset - fsize));
           put (set_good good)
         else mret ());
    _ ← put (set_file_size (u32 (offset + size)));
    if lite cfg then report_failure failure else mret ()
  else mret ().

Definition dowrite (offset size : Z) : M W () :=
  tf ← get_tf; fd ← tf_fd tf;
  offset ← align (writebdy cfg) offset;
  if decide (size = 0) then log4 OP_SKIPPED (op_code OP_WRITE) offset size
  else
    fsize ← get file_size;
    _ ← log4 OP_WRITE offset size fsize;
    _ ← prepare_write offset size 149;
    unless_simulated (
      r ← invoke (CSeekSet fd offset);
      if decide (ret r = -1) then report_failure 150
      else
        good ← get good_buf;
        bs ← lift (bytes_at good offset size);
        r ← invoke (CWrite fd bs);
        if decide (u32 (ret r) ≠ size) then report_failure 151 else mret ()).

Definition domapwrite (offset size : Z) : M W () :=
  tf ← get_tf; fd ← tf_fd tf;
  offset ← align (writebdy cfg) offset;
  if decide (size = 0) then log4 OP_SKIPPED (op_code OP_MAPWRITE) offset size
  else
    cur_filesize ← get file_size;
    _ ← log4 OP_MAPWRITE offset size 0;
    _ ← prepare_write offset size 200;
    unless_simulated (
      fsize ← get file_size;
      _ ← (if decide (cur_filesize < fsize) then
             r ← invoke (CTruncate fd fsize);
             if decide (ret r = -1) then exit 201 else mret ()
           else mret ());
      let pg_offset := Z.land offset page_mask in
      let map_size := u32 (pg_offset + size) in
      p ← invoke (CMmap fd map_size (offset - pg_offset));
      if decide (ret p = -1) then report_failure 202
      else
        good ← get good_buf;
        bs ← lift (bytes_at good offset size);
        _ ← invoke (CStore (ret p) pg_offset bs);
        r ← invoke (CMsync (ret p) map_size);
        if decide (ret r ≠ 0) then report_failure 203
        else
          r ← invoke (CMunmap (ret p) map_size);
          if decide (ret r ≠ 0) then report_failure 204 else mret ()).

Definition dotruncate (size : Z) : M W () :=
  tf ← get_tf; fd ← tf_fd tf;
  size ← align (truncbdy cfg) size;
  big ← get biggest;
  _ ← (if decide (big < size) then put (set_biggest size) else mret ());
  fsize ← get file_size;
  _ ← log4 OP_TRUNCATE size fsize 0;
  _ ← (if decide (fsize < size) then
         good ← get good_buf;
         good ← lift (memset good fsize 0 (size - fsize));
         put (set_good good)
       else mret ());
  _ ← put (set_file_size size);
  unless_simulated (
    r ← invoke (CTruncate fd size);
    if decide (ret r = -1) then report_failure 160 else mret ()).

Definition writefileimage : M W () :=
  fd ← get_fd;
  r ← invoke (CSeekSet fd 0);
  if decide (ret r = -1) then report_failure 171
  else
    good ← get good_buf;
    fsize ← get file_size;
    bs ← lift (bytes_at good 0 fsize);
    r ← invoke (CWrite fd bs);
    if decide (ret r ≠ fsize) then report_failure 172
    else if lite cfg then mret ()
    else
      r ← invoke (CTruncate fd fsize);
      if decide (ret r = -1) then report_failure 173 else mret ().

Definition docloseopen : M W () :=
  tf ← get_tf;
  unless_simulated (
    fsize ← get file_size;
    _ ← log4 OP_CLOSEOPEN fsize fsize 0;
    fd ← tf_fd tf;
    r ← invoke (CClose fd);
    if decide (ret r ≠ 0) then report_failure 180
    else
      r ← invoke (COpen tf false);
      l ← get test_files;
      _ ← put (set_test_files (<[tf := ret r]> l));
      if decide (ret r < 0) then report_failure 181 else mret ()).

(** ** One step of the test *)

(** x % n for unsigned longs. *)
Definition umod (x n : Z) : M W Z := if decide (n = 0) then lift Fault else mret (x mod n).

Definition perform (op : Z) : M W () :=
  if negb (lite cfg) && bool_decide (op = 3) && bool_decide (Z.land style 1 = 0) then
    r ← rnd;
    max ← get maxfilelen;
    n ← umod r max;
    dotruncate (u32 n)
  else
    size ← (if randomoplen cfg then r ← rnd; k ← lift (i32 (maxoplen cfg + 1)); umod r k else mret (maxoplen cfg));
    if negb (lite cfg) && bool_decide (op = 3) then dotruncate (u32 size)
    else
      offset ← rnd;
      if decide (op = 1 ∨ op = (if lite cfg then 3 else 4)) then
        max ← get maxfilelen;
        offset ← umod offset max;
        let size := if decide (max < offset + size) then max - offset else size in
        if decide (op ≠ 1) then domapwrite (u32 offset) (u32 size) else dowrite (u32 offset) (u32 size)
      else
        fsize ← get file_size;
        offset ← (if decide (fsize ≠ 0) then umod offset fsize else mret 0);
        let size := if decide (fsize < offset + size) then fsize - offset else size in
        if decide (op ≠ 0) then domapread (u32 offset) (u32 size) else doread (u32 offset) (u32 size).

Definition test : M W () :=
  rv ← rnd;
  let op := rv mod (3 + (if lite cfg then 0 else 1) + (if mapped_writes cfg then 1 else 0)) in
  let op := if bool_decide (op = 2) && negb (mapped_reads cfg) then 0 else op in
  n ← get testcalls;
  _ ← (if bool_decide (0 < simulatedopcount cfg) && bool_decide (n = simulatedopcount cfg)
       then writefileimage else mret ());
  _ ← put (λ s, set_testcalls (u64 (testcalls s + 1)) s);
  _ ← perform op;
  n ← get testcalls;
  _ ← (if sizechecks cfg && bool_decide (simulatedopcount cfg < n) then check_size else mret ());
  if decide (closeprob cfg = 0) then mret ()
  else if decide (Z.shiftr rv 3 < u64 (Z.quot (2 ^ 28) (closeprob cfg))) then docloseopen else mret ().

(** while (numops--) test(); *)
Fixpoint test_loop (n : nat) : M W () :=
  match n with
  | O => mret ()
  | S n' => _ ← test; test_loop n'
  end.

(** The random bytes of original_buf. *)
Fixpoint random_bytes (n : nat) : M W (list Z) :=
  match n with
  | O => mret []
  | S n' => r ← rnd; l ← random_bytes n'; mret (r mod 256 :: l)
  end.

(** main() after the options, with [numops] not -1, up to its exit. *)
Definition run (numops : nat) : M W () :=
  _ ← open_test_files;
  _ ← (if lite cfg then
         fd ← get_fd;
         r ← invoke (CSeekEnd fd);
         _ ← put (λ s, set_file_size (ret r) (set_maxfilelen (ret r) s));
         if decide (ret r = -1) then exit 94
         else
           r ← invoke (CSeekSet fd 0);
           if decide (ret r = -1) then exit 95 else mret ()
       else mret ());
  max ← get maxfilelen;
  original ← random_bytes (Z.to_nat max);
  _ ← put (set_bufs original (replicate (Z.to_nat max) 0) (replicate (Z.to_nat (maxoplen cfg)) 0));
  _ ← (if lite cfg then
         fd ← get_fd;
         good ← get good_buf;
         r ← invoke (CWrite fd good);
         if decide (ret r ≠ max) then exit 98 else mret ()
       else check_trunc_hack);
  _ ← test_loop numops;
  close_test_files.

Definition main (numops : nat) : M W () := _ ← run numops; exit 0.

(** The program before main() runs, with the option -l. *)
Definition start (maxlen : Z) : fsx :=
  Fsx [] [] [] maxlen 0 0 0 (-1) 0 [] (Log (replicate LOGSIZE (LogEntry 0 [0; 0; 0])) 0 0) [].
End fsx.
