(* ===== verification/FsxFile.v ===== *)
(** * A file as POSIX describes it

    [sfile] is the file that fsx works on, with the positions of its descriptors and
    its mappings; [file_step] says which replies to a call it can give and what they
    do, and the class [PosixFile] is a system that behaves like it.  The lemmas relate
    the loops of fsx on its buffers to the operations of the file. *)
From stdpp Require Import base numbers option list gmap.
From S2P Require Import Prelude CInt CMem Steps Fsx.

#[local] Open Scope Z_scope.

(** ** The file *)

(** Its bytes, the position of each descriptor it was opened with, the open ones,
    and the file offset of each mapping. *)
Record sfile := SFile { bytes : list Z; pos : gmap Z Z; opens : gset Z; maps : gmap Z Z }.

Definition size (f : sfile) : Z := Z.of_nat (length (bytes f)).

(** The bytes [bs] stored at offset [off], with zeros in a gap. *)
Definition store (b : list Z) (off : nat) (bs : list Z) : list Z :=
  take off (b ++ replicate (off - length b) 0) ++ bs ++ drop (off + length bs) b.

(** The file after a call, or [None] if the reply is not one it could give, as far as
    fsx looks at it: the position that lseek() reports for SEEK_SET and the result of a
    truncation are left open, and a truncation always has its effect. *)
Definition file_step (f : sfile) (c : call) (r : reply) : option sfile :=
  match c with
  | COpen _ trunc =>
      if decide (ret r < 0) then None else Some (SFile (if trunc then [] else bytes f) (<[ret r := 0]> (pos f)) ({[ret r]} ∪ opens f) (maps f))
  | CClose fd => if decide (ret r = 0) then Some (SFile (bytes f) (pos f) (opens f ∖ {[fd]}) (maps f)) else None
  | CSeekSet fd off => if decide (ret r = -1) then None else Some (SFile (bytes f) (<[fd := off]> (pos f)) (opens f) (maps f))
  | CSeekEnd fd =>
      if decide (ret r = size f) then Some (SFile (bytes f) (<[fd := size f]> (pos f)) (opens f) (maps f)) else None
  | CFstat fd => if decide (ret r = size f) then Some f else None
  | CRead fd n =>
      p ← pos f !! fd;
      let d := take (Z.to_nat n) (drop (Z.to_nat p) (bytes f)) in
      if decide (data r = d ∧ ret r = Z.of_nat (length d))
      then Some (SFile (bytes f) (<[fd := p + ret r]> (pos f)) (opens f) (maps f)) else None
  | CWrite fd bs =>
      p ← pos f !! fd;
      if decide (ret r = Z.of_nat (length bs))
      then Some (SFile (store (bytes f) (Z.to_nat p) bs) (<[fd := p + ret r]> (pos f)) (opens f) (maps f)) else None
  | CTruncate fd n => Some (SFile (resize (Z.to_nat n) 0 (bytes f)) (pos f) (opens f) (maps f))
  | CMmap fd len off => if decide (ret r = -1) then None else Some (SFile (bytes f) (pos f) (opens f) (<[ret r := off]> (maps f)))
  | CLoad p off n =>
      m ← maps f !! p;
      if decide (data r = take (Z.to_nat n) (drop (Z.to_nat (m + off)) (bytes f))) then Some f else None
  | CStore p off bs =>
      m ← maps f !! p;
      Some (SFile (store (bytes f) (Z.to_nat (m + off)) bs) (pos f) (opens f) (maps f))
  | CMsync p len => if decide (ret r = 0) then Some f else None
  | CMunmap p len => if decide (ret r = 0) then Some (SFile (bytes f) (pos f) (opens f) (delete p (maps f))) else None
  end.

(** A sequence of calls and replies. *)
Fixpoint replay (f : sfile) (l : list (call * reply)) : option sfile :=
  match l with
  | [] => Some f
  | (c, r) :: l' => f' ← file_step f c r; replay f' l'
  end.

(** Calls a program may make: on open descriptors, and on mapped memory inside the
    file; mappings start at a page. *)
Definition sane (pagesize : Z) (f : sfile) (c : call) : Prop :=
  match c with
  | COpen _ _ => True
  | CClose fd | CSeekEnd fd | CFstat fd => fd ∈ opens f
  | CSeekSet fd off => fd ∈ opens f ∧ 0 ≤ off
  | CRead fd n => fd ∈ opens f ∧ 0 ≤ n
  | CWrite fd bs => fd ∈ opens f
  | CTruncate fd n => fd ∈ opens f ∧ 0 ≤ n
  | CMmap fd len off => fd ∈ opens f ∧ 0 < len ∧ 0 ≤ off ∧ (pagesize | off) ∧ off + len ≤ size f
  | CLoad p off n => ∃ m, maps f !! p = Some m ∧ 0 ≤ m ∧ 0 ≤ off ∧ 0 ≤ n ∧ m + off + n ≤ size f
  | CStore p off bs => ∃ m, maps f !! p = Some m ∧ 0 ≤ m ∧ 0 ≤ off ∧ m + off + Z.of_nat (length bs) ≤ size f
  | CMsync p len | CMunmap p len => is_Some (maps f !! p)
  end.

(** What the file does not determine: open() gives a new descriptor, and a
    truncation succeeds. *)
Definition succeeds (f : sfile) (c : call) (r : reply) : Prop :=
  match c with
  | COpen _ _ => ret r ∉ opens f
  | CTruncate _ _ => ret r ≠ -1
  | _ => True
  end.

(** A system that behaves like the file: every sane call gets a reply of the file
    and succeeds. *)
Class PosixFile (W : Type) `{FsWorld W} (pagesize : Z) := {
  is_file : W → sfile → Prop;
  sys_ok w f c : is_file w f → sane pagesize f c →
    succeeds f c (sys c w).1 ∧ ∃ f', file_step f c (sys c w).1 = Some f' ∧ is_file (sys c w).2 f';
  random_ok w f : is_file w f → is_file (random w).2 f
}.

Lemma replay_snoc f l c r : replay f (l ++ [(c, r)]) = f' ← replay f l; file_step f' c r.
Proof.
  revert f. induction l as [|[c' r'] l IH]; intros f; cbn; [by destruct (file_step f c r)|].
  destruct (file_step f c' r'); cbn; [apply IH|done].
Qed.

(** ** Parts of lists *)

Lemma bad_loop_halts good temp n : ∀ off i k b, bad_loop good temp n off i k b ≠ Timeout.
Proof.
  assert (∀ l i, byte_at l i ≠ Timeout) as Hb.
  { intros l i. unfold byte_at. destruct (decide _); [|done]. by destruct (l !! _). }
  assert (∀ A B (m : outcome A) (k : A → outcome B), m ≠ Timeout → (∀ a, k a ≠ Timeout) → m ≫= k ≠ Timeout) as Hbind.
  { intros A B [] k ??; cbn; auto. }
  induction n as [|n IH]; intros off i k b; cbn [bad_loop]; [done|].
  apply Hbind; [done|]. intros c. apply Hbind; [done|]. intros t. destruct (decide (c ≠ t)); [|done].
  apply Hbind; [|done]. destruct (decide (k = 0)); [|done]. unfold short_at.
  repeat (apply Hbind; [repeat (apply Hbind; [done|intros ?]); done|intros ?]). done.
Qed.

(** A part of the good buffer inside the file. *)
Lemma take_drop_take {A} (l : list A) o n m : (o + n ≤ m)%nat → take n (drop o (take m l)) = take n (drop o l).
Proof. intros Hm. rewrite !take_drop_commute, take_take. do 2 f_equal. lia. Qed.

Lemma insert_is_Some (m : gmap Z Z) i j x : is_Some (m !! i) → is_Some (<[j := x]> m !! i).
Proof. intros Hi. destruct (decide (i = j)) as [->|]; [rewrite lookup_insert_eq|rewrite lookup_insert_ne by done]; eauto. Qed.

Lemma gendata_loop_ok tag original : ∀ n good o,
  (o + n ≤ length original)%nat → (o + n ≤ length good)%nat →
  ∃ bs, length bs = n ∧
    gendata_loop n tag original good (Z.of_nat o) = Done (take o good ++ bs ++ drop (o + n) good).
Proof.
  induction n as [|n IH]; intros good o Ho Hg; cbn [gendata_loop].
  - exists []. rewrite Nat.add_0_r. cbn. by rewrite take_drop.
  - destruct (lookup_lt_is_Some_2 original o) as [x Hx]; [lia|].
    assert (∃ b, (if decide (Z.of_nat o mod 2 ≠ 0) then y ← byte_at original (Z.of_nat o); Done ((tag + y) mod 256) else Done tag) = Done b)
      as [b ->].
    { destruct (decide _); [|eauto]. unfold byte_at. rewrite decide_True, Nat2Z.id, Hx by lia. cbn. eauto. }
    cbn [mbind outcome_bind]. unfold put_byte. rewrite decide_True by lia. cbn [mbind outcome_bind].
    rewrite Nat2Z.id. replace (Z.of_nat o + 1) with (Z.of_nat (S o)) by lia.
    destruct (IH (<[o := b]> good) (S o)) as (bs & Hbs & ->); [lia|by rewrite length_insert; lia|].
    exists (b :: bs). split; [cbn; lia|]. f_equal.
    rewrite (take_S_r _ _ b) by (rewrite list_lookup_insert_eq; [done|lia]).
    rewrite take_insert_ge, drop_insert_lt by lia. rewrite <- app_assoc. by replace (o + S n)%nat with (S o + n)%nat by lia.
Qed.

(** The good buffer after gendata() and the zeros before a write past the end. *)
Definition image (good : list Z) (fs o : nat) (bs : list Z) : list Z :=
  let g := take o good ++ bs ++ drop (o + length bs) good in
  if decide (fs < o)%nat then take fs g ++ replicate (o - fs) 0 ++ drop o g else g.

Lemma image_store good fs o bs :
  (o + length bs ≤ length good)%nat → (fs ≤ length good)%nat → (0 < length bs)%nat →
  length (image good fs o bs) = length good ∧ take (length bs) (drop o (image good fs o bs)) = bs ∧
  take (fs `max` (o + length bs)) (image good fs o bs) = store (take fs good) o bs.
Proof.
  intros Ho Hfs Hbs. unfold image, store. rewrite length_take, (Nat.min_l fs) by lia. destruct (decide (fs < o)%nat) as [Hlt|Hge].
  - rewrite (drop_app_length' (take o good)) by (rewrite length_take; lia).
    rewrite (take_app_le (take o good)) by (rewrite length_take; lia). rewrite take_take, Nat.min_l by lia.
    split_and!.
    + rewrite !length_app, length_take, length_replicate, length_drop. lia.
    + rewrite (app_assoc (take fs good)), (drop_app_length' (take fs good ++ _)), take_app_length by
        (rewrite length_app, length_take, length_replicate; lia). done.
    + rewrite (drop_ge (take fs good)) by (rewrite length_take; lia). rewrite app_nil_r.
      rewrite (take_ge (take fs good ++ replicate _ _)) by (rewrite length_app, length_take, length_replicate; lia).
      rewrite !app_assoc. rewrite take_app_length'; [done|].
      rewrite !length_app, length_take, length_replicate. lia.
  - rewrite (proj2 (Nat.sub_0_le o fs)), app_nil_r by lia. rewrite take_take, (Nat.min_l o fs) by lia.
    split_and!.
    + rewrite !length_app, length_take, length_drop. lia.
    + by rewrite (drop_app_length' (take o good)), take_app_length by (rewrite length_take; lia).
    + rewrite !take_app, !length_take. rewrite (take_ge (take o good)) by (rewrite length_take; lia). f_equal.
      rewrite (take_ge bs) by lia. f_equal. rewrite skipn_firstn_comm. f_equal. lia.
Qed.

Lemma length_store b o bs : length (store b o bs) = if decide (length bs = 0)%nat then (length b `max` o)%nat else (length b `max` (o + length bs))%nat.
Proof.
  unfold store. rewrite !length_app, length_take, length_app, length_replicate, length_drop.
  destruct (decide _); lia.
Qed.

Lemma store_resize b o bs k :
  k = (length b `max` (o + length bs))%nat → store (resize k 0 b) o bs = store b o bs.
Proof.
  intros ->. rewrite resize_spec, take_ge by lia. unfold store. f_equal; [|f_equal].
  - rewrite length_app, length_replicate, !take_app, length_app, !take_replicate, length_replicate, <- app_assoc. f_equal.
    rewrite <- replicate_add. f_equal. lia.
  - rewrite drop_app, drop_replicate. rewrite (proj2 (Nat.sub_0_le _ _)), app_nil_r; [done|lia].
Qed.

Lemma take_resize (b : list Z) fs n :
  (fs ≤ length b)%nat → (n ≤ fs)%nat → take n b = resize n 0 (take fs b).
Proof.
  intros Hfs Hn. rewrite resize_spec, take_take, Nat.min_l by done.
  rewrite (proj2 (Nat.sub_0_le _ _)), app_nil_r; [done|rewrite length_take; lia].
Qed.

Lemma zeros_resize (b : list Z) fs n c :
  (fs ≤ length b)%nat → (fs ≤ n)%nat → take n (take fs b ++ replicate (n - fs) 0 ++ c) = resize n 0 (take fs b).
Proof.
  intros Hfs Hn. rewrite resize_spec, length_take, (Nat.min_l fs) by done.
  rewrite (take_ge (take fs b)) by (rewrite length_take; lia).
  rewrite app_assoc, take_app_length'; [done|]. rewrite length_app, length_take, length_replicate. lia.
Qed.

(** Descriptor [fd] of file [i] replaced by the one of a new open(). *)
Lemma reopened (l : list Z) (o : gset Z) i fd fd' :
  NoDup l → (∀ x, x ∈ l → x ∈ o) → l !! i = Some fd → fd' ∉ o ∖ {[fd]} →
  NoDup (<[i := fd']> l) ∧ ∀ x, x ∈ <[i := fd']> l → x ∈ {[fd']} ∪ o ∖ {[fd]}.
Proof.
  intros Hnd Hin Hi Hnew.
  assert (∀ j y, j ≠ i → l !! j = Some y → y ∈ o ∖ {[fd]}) as Hother.
  { intros j y Hj Hy. apply elem_of_difference. split; [by apply Hin, (list_elem_of_lookup_2 _ j)|].
    rewrite elem_of_singleton. intros ->. by apply Hj, (NoDup_lookup l j i fd). }
  assert (∀ j y, <[i := fd']> l !! j = Some y → j = i ∧ y = fd' ∨ j ≠ i ∧ y ∈ o ∖ {[fd]}) as Hlook.
  { intros j y Hy. apply list_lookup_insert_Some in Hy as [(-> & -> & _)|[Hj Hy]]; [by left|right; eauto]. }
  split.
  - apply NoDup_alt. intros a b y Ha Hb. destruct (Hlook _ _ Ha) as [[-> ->]|[? ?]], (Hlook _ _ Hb) as [[-> Hb']|[? ?]]; try done.
    + by simplify_eq.
    + rewrite list_lookup_insert_ne in Ha, Hb by done. by apply (NoDup_lookup l a b y).
  - intros x [j Hx]%list_elem_of_lookup. destruct (Hlook _ _ Hx) as [[-> ->]|[_ ?]]; set_solver.
Qed.
