(* ===== verification/FsxSpec.v ===== *)
(** * What fsx finds out about a file system

    On a system that behaves like the file of FsxFile, fsx never reports an error; and
    on any system, when fsx ends well, every reply it got is one that the file could
    have given.  Both follow from one pass over the program: the postcondition
    [fwp] allows failures only when the system is not assumed to be correct. *)
From stdpp Require Import base numbers option list gmap.
From S2P Require Import Prelude CInt CMem Steps Fsx FsxFile.

#[local] Open Scope Z_scope.

(** ** Postconditions

    [strict] says that the system is assumed to behave like the file; then there is
    no failure and no fault. *)
Section fwp.
Context {W : Type} `{FsWorld W} (strict : bool) (pagesize : Z) (rel : W → sfile → Prop) (f0 : sfile).
Context (Hsys : strict = true → ∀ w f c, rel w f → sane pagesize f c →
  succeeds f c (sys c w).1 ∧ ∃ f', file_step f c (sys c w).1 = Some f' ∧ rel (sys c w).2 f').
Context (Hrandom : strict = true → ∀ w f, rel w f → rel (random w).2 f).

(** The system after the calls so far. *)
Definition tracks (s : fsx) (w : W) (f : sfile) : Prop :=
  replay f0 (calls s) = Some f ∧ (strict = true → rel w f).

#[local] Abbreviation fwp := (wp (strict = false) (λ c _ _, strict = false ∧ c ≠ 0)).

(** A computation that may fault when the system is not correct. *)
Lemma fwp_lift_loose {A} (o : outcome A) s w (Q : A → fsx → W → Prop) :
  strict = false → o ≠ Timeout → (∀ a, o = Done a → Q a s w) → fwp (lift o) s w Q.
Proof. intros Hs Ho Hq. unfold wp, lift. destruct o; auto. Qed.

Lemma fwp_rnd s w f (Q : Z → fsx → W → Prop) :
  tracks s w f → (∀ r w', 0 ≤ r ≤ INT_MAX → tracks s w' f → Q r s w') → fwp rnd s w Q.
Proof.
  intros [Hr Hw] Hq. unfold wp, rnd. pose proof (random_range w) as Hb. pose proof (λ Hs, Hrandom Hs w f) as Hn.
  destruct (random w) as [r w']. cbn in *. apply Hq; [done|]. split; auto.
Qed.

(** A call: the reply is one of the file, or the system is not correct. *)
Lemma fwp_invoke c s w f (Q : reply → fsx → W → Prop) :
  tracks s w f → (strict = true → sane pagesize f c) →
  (∀ r w' f', reply_wf c r → (strict = true → succeeds f c r) → file_step f c r = Some f' →
    tracks (add_call c r s) w' f' → Q r (add_call c r s) w') →
  (∀ r w', reply_wf c r → strict = false → file_step f c r = None → Q r (add_call c r s) w') →
  fwp (invoke c) s w Q.
Proof.
  intros [Hr Hw] Hs Hq Hbad. unfold wp, invoke. pose proof (sys_wf c w) as Hwf.
  pose proof (λ E, Hsys E w f c (Hw E) (Hs E)) as Hok. destruct (sys c w) as [r w']. cbn in *.
  assert (replay f0 (calls s ++ [(c, r)]) = file_step f c r) as Hstep by (by rewrite replay_snoc, Hr).
  destruct (file_step f c r) as [f'|] eqn:E.
  - apply (Hq r w' f'); [done|intros Es; by apply Hok|done|]. split; [done|].
    intros Es. destruct (Hok Es) as (_ & f'' & ? & ?). by simplify_eq.
  - destruct strict; [|by apply Hbad]. destruct (Hok eq_refl) as (_ & f'' & ? & _). done.
Qed.

(** ** The invariant *)

Context (cfg : config).

(** Between operations, with room for [kf] increments of fd_last and [kl] of
    logcount when nothing may fail. *)
Record inv (kf kl : Z) (s : fsx) (f : sfile) : Prop := {
  inv_original : Z.of_nat (length (original_buf s)) = maxfilelen s;
  inv_good : Z.of_nat (length (good_buf s)) = maxfilelen s;
  inv_temp : Z.of_nat (length (temp_buf s)) = maxoplen cfg;
  inv_max : maxfilelen s ≤ INT_MAX;
  inv_nonempty : strict = true → maxfilelen s ≠ 0;
  inv_size : 0 ≤ file_size s ≤ maxfilelen s;
  inv_lite : lite cfg = true → file_size s = maxfilelen s ∧ size f = maxfilelen s;
  inv_files : length (test_files s) = num_test_files cfg;
  inv_pos : ∀ fd, fd ∈ test_files s → is_Some (pos f !! fd);
  inv_open : strict = true → NoDup (test_files s) ∧ ∀ fd, fd ∈ test_files s → fd ∈ opens f;
  inv_log : length (oplog (oplogs s)) = LOGSIZE ∧ (logptr (oplogs s) < LOGSIZE)%nat ∧ 0 ≤ logcount (oplogs s);
  inv_last : 0 ≤ fd_last s;
  inv_room : strict = true → fd_last s + kf ≤ INT_MAX ∧ logcount (oplogs s) + kl ≤ INT_MAX;
  inv_calls : 0 ≤ testcalls s
}.

(** The file holds what the good buffer says, once operations are not simulated. *)
Definition live (s : fsx) (f : sfile) : Prop :=
  simulatedopcount cfg < testcalls s → bytes f = take (Z.to_nat (file_size s)) (good_buf s).

Definition fine (kf kl : Z) (s : fsx) (w : W) (f : sfile) : Prop := inv kf kl s f ∧ tracks s w f ∧ live s f.

(** The end of an operation. *)
Definition ok (kf kl t : Z) : () → fsx → W → Prop := λ _ s w, ∃ f, fine kf kl s w f ∧ testcalls s = t.

Record wf_config : Prop := {
  wf_simulated : 0 ≤ simulatedopcount cfg;
  wf_closeprob : 0 ≤ closeprob cfg;
  wf_oplen : 0 < maxoplen cfg < INT_MAX;
  wf_bdy : 0 < readbdy cfg ≤ INT_MAX ∧ 0 < truncbdy cfg ≤ INT_MAX ∧ 0 < writebdy cfg ≤ INT_MAX;
  wf_page : pagesize = page_size cfg ∧ ∃ k, 0 ≤ k ∧ page_size cfg = 2 ^ k;
  wf_files : num_test_files cfg ≠ 0%nat
}.
Context (Hcfg : wf_config).

(** Changing fields the invariant does not speak about. *)
Lemma inv_weaken kf kl kf' kl' s f : inv kf kl s f → kf' ≤ kf → kl' ≤ kl → inv kf' kl' s f.
Proof. intros [] ??. split; try done. intros Hs. destruct inv_room0; [done|lia]. Qed.

Lemma fwp_get_tf kf kl s w f (Q : nat → fsx → W → Prop) :
  fine (kf + 1) kl s w f → 0 ≤ kf →
  (∀ i n w', (i < num_test_files cfg)%nat → fine kf kl (set_fd_last n s) w' f → Q i (set_fd_last n s) w') →
  fwp (get_tf cfg) s w Q.
Proof.
  intros (Hi & Ht & Hl) Hkf Hq. unfold get_tf. apply wp_bind. pose proof (wf_files Hcfg) as Hn.
  assert (∀ x n w', tracks s w' f → inv kf kl (set_fd_last n s) f →
    fwp (if decide (num_test_files cfg = 0%nat) then lift Fault else mret (Z.to_nat (u32 x mod Z.of_nat (num_test_files cfg))))
      (set_fd_last n s) w' Q) as Hend.
  { intros x n w' Ht' Hi'. rewrite decide_False by done. apply wp_ret, Hq; [|done].
    pose proof (Z.mod_pos_bound (u32 x) (Z.of_nat (num_test_files cfg))). lia. }
  assert (s = set_fd_last (fd_last s) s) as Es by (by destruct s).
  destruct (policy cfg).
  - apply wp_ret. change 0 with (u32 0). rewrite Es. apply Hend; [done|]. rewrite <- Es.
    apply (inv_weaken (kf + 1) kl); [done|lia|done].
  - apply wp_bind, wp_get, wp_bind. destruct (decide (is_i32 (fd_last s + 1))) as [Hf|Hf].
    + eapply wp_lift; [by apply i32_ok|]. apply wp_bind, wp_put, wp_ret. apply Hend; [done|].
      destruct Hi. split; try done; cbn; [lia|]. intros E. destruct (inv_room0 E). lia.
    + rewrite i32_fault by done. apply not_true_is_false. intros E.
      destruct (inv_room _ _ _ _ Hi E). pose proof (inv_last _ _ _ _ Hi). clia.
  - apply wp_bind. eapply fwp_rnd; [done|]. intros r w' _ Ht'. apply wp_ret. rewrite Es. apply Hend; [done|].
    rewrite <- Es. apply (inv_weaken (kf + 1) kl); [done|lia|done].
Qed.

Lemma fwp_tf_fd s w f kf kl i (Q : Z → fsx → W → Prop) :
  fine kf kl s w f → (i < num_test_files cfg)%nat →
  (∀ fd, test_files s !! i = Some fd → is_Some (pos f !! fd) → (strict = true → fd ∈ opens f) → Q fd s w) →
  fwp (tf_fd i) s w Q.
Proof.
  intros (Hi & _) Hn Hq. unfold tf_fd. apply wp_bind, wp_get. rewrite <- (inv_files _ _ _ _ Hi) in Hn.
  apply lookup_lt_is_Some in Hn as [fd Hfd]. pose proof (list_elem_of_lookup_2 _ _ _ Hfd) as Hin.
  eapply wp_lift; [by rewrite Hfd|]. apply Hq; [done|by apply (inv_pos _ _ _ _ Hi)|].
  intros E. by apply (inv_open _ _ _ _ Hi E).
Qed.

(** The index and the descriptor an operation works on. *)
Lemma fwp_file {A} kf kl s w f (m : nat → Z → M W A) Q :
  fine (kf + 1) kl s w f → 0 ≤ kf →
  (∀ i fd n w', (i < num_test_files cfg)%nat → test_files s !! i = Some fd →
    is_Some (pos f !! fd) → (strict = true → fd ∈ opens f) →
    fine kf kl (set_fd_last n s) w' f → fwp (m i fd) (set_fd_last n s) w' Q) →
  fwp (tf ← get_tf cfg; fd ← tf_fd tf; m tf fd) s w Q.
Proof.
  intros Hf Hk Hm. apply wp_bind. eapply fwp_get_tf; [done|done|]. intros i n w' Hi Hf'.
  apply wp_bind. eapply fwp_tf_fd; [done|done|]. intros fd Hfd ??. by apply Hm.
Qed.

Lemma fwp_log4 o a0 a1 a2 kf kl s w f (Q : () → fsx → W → Prop) :
  fine kf (kl + 1) s w f → 0 ≤ kl →
  (∀ l, fine kf kl (set_oplogs l s) w f → Q () (set_oplogs l s) w) →
  fwp (log4 o a0 a1 a2) s w Q.
Proof.
  intros (Hi & Ht & Hl) Hk Hq. unfold log4. apply wp_bind, wp_get, wp_bind.
  destruct (inv_log _ _ _ _ Hi) as (Hlen & Hptr & Hcnt). unfold log_add. rewrite decide_True by lia.
  destruct (decide (is_i32 (logcount (oplogs s) + 1))) as [Hf|Hf].
  - eapply wp_lift; [rewrite i32_ok by done; reflexivity|]. apply wp_put, Hq. split; [|done].
    destruct Hi. split; try done; cbn; rewrite ?length_insert.
    + split_and!; [done| |lia]. destruct (decide _); lia.
    + intros E. destruct (inv_room0 E). lia.
  - rewrite i32_fault by done. apply not_true_is_false. intros E.
    destruct (inv_room _ _ _ _ Hi E). clia.
Qed.

Lemma fwp_align bdy x s w (Q : Z → fsx → W → Prop) :
  0 < bdy ≤ INT_MAX → 0 ≤ x → (∀ y, 0 ≤ y ≤ x → Q y s w) → fwp (align bdy x) s w Q.
Proof.
  intros Hb Hx Hq. unfold align. rewrite u32_small, decide_False by clia. apply wp_ret, Hq.
  pose proof (Z.mod_pos_bound x bdy). pose proof (Z.mod_le x bdy). lia.
Qed.

Lemma fwp_unless m s w (Q : () → fsx → W → Prop) :
  (testcalls s ≤ simulatedopcount cfg → Q () s w) → (simulatedopcount cfg < testcalls s → fwp m s w Q) →
  fwp (unless_simulated cfg m) s w Q.
Proof. intros H1 H2. unfold unless_simulated. apply wp_bind, wp_get. destruct (decide _); [by apply wp_ret, H1|apply H2; lia]. Qed.

Lemma fwp_lift_total {A} (o : outcome A) s w (Q : A → fsx → W → Prop) :
  (∃ a, o = Done a ∧ Q a s w) → fwp (lift o) s w Q.
Proof. intros (a & -> & Hq). done. Qed.

(** ** Reading *)

Lemma fwp_check_buffers off n s w (Q : () → fsx → W → Prop) :
  0 ≤ off → 0 ≤ n → off + n ≤ Z.of_nat (length (good_buf s)) → n ≤ Z.of_nat (length (temp_buf s)) →
  (take (Z.to_nat n) (drop (Z.to_nat off) (good_buf s)) = take (Z.to_nat n) (temp_buf s) → Q () s w) →
  (take (Z.to_nat n) (drop (Z.to_nat off) (good_buf s)) ≠ take (Z.to_nat n) (temp_buf s) → strict = false) →
  fwp (check_buffers off n) s w Q.
Proof.
  intros Hoff Hn Hg Ht Heq Hne. unfold check_buffers. apply wp_bind, wp_get, wp_bind, wp_get, wp_bind.
  eapply wp_lift; [unfold bytes_at; by rewrite decide_True by lia|]. apply wp_bind.
  eapply wp_lift; [unfold bytes_at; by rewrite decide_True by lia|]. rewrite drop_0, memcmp_if.
  destruct (decide (_ = _)) as [E|E]; [by apply wp_ret, Heq|]. specialize (Hne E).
  apply wp_bind, wp_get, wp_bind. apply fwp_lift_loose; [done|apply bad_loop_halts|].
  intros [k b] _. by apply wp_bind, wp_put, wp_exit.
Qed.

(** A call that keeps what the invariant says about the file. *)
Lemma inv_call kf kl s f f' c r :
  inv kf kl s f → (lite cfg = true → size f' = size f) →
  (∀ fd, is_Some (pos f !! fd) → is_Some (pos f' !! fd)) → opens f ⊆ opens f' → inv kf kl (add_call c r s) f'.
Proof.
  intros [] Hl Hp Ho. split; try done; cbn; auto.
  - intros E. destruct (inv_lite0 E). by rewrite Hl.
  - intros E. destruct (inv_open0 E) as [? Hin]. split; [done|]. intros fd Hfd. by apply Ho, Hin.
Qed.

(** lseek(fd, off, SEEK_SET) with its check. *)
Lemma fwp_seek {A} kf kl s w f fd off (code : Z) (m : M W A) Q :
  code ≠ 0 → inv kf kl s f → tracks s w f → (strict = true → fd ∈ opens f) → 0 ≤ off →
  (∀ r w', let f' := SFile (bytes f) (<[fd := off]> (pos f)) (opens f) (maps f) in
    inv kf kl (add_call (CSeekSet fd off) r s) f' → tracks (add_call (CSeekSet fd off) r s) w' f' →
    fwp m (add_call (CSeekSet fd off) r s) w' Q) →
  fwp (r ← invoke (CSeekSet fd off); if decide (ret r = -1) then exit code else m) s w Q.
Proof.
  intros Hc Hi Ht Hopen Hoff Hq. apply wp_bind. eapply fwp_invoke; [done|by intros E; split; auto| |].
  - intros r w' f' _ _ Hstep Ht'. cbn in Hstep. destruct (decide (ret r = -1)); [done|]. injection Hstep as <-.
    apply Hq; [|done]. apply (inv_call _ _ _ f); [done|done| |done]. intros fd' ?. by apply insert_is_Some.
  - intros r w' _ Hs Hnone. cbn in Hnone. destruct (decide (ret r = -1)); [by apply wp_exit|done].
Qed.

(** What the good buffer says about a part of a live file. *)
Lemma live_part s f o n :
  live s f → simulatedopcount cfg < testcalls s → 0 ≤ o → 0 ≤ n → o + n ≤ file_size s →
  take (Z.to_nat n) (drop (Z.to_nat o) (bytes f)) = take (Z.to_nat n) (drop (Z.to_nat o) (good_buf s)).
Proof. intros Hl Hs ???. rewrite (Hl Hs). apply take_drop_take. lia. Qed.

(** The data of a read, checked against the good buffer. *)
Lemma fwp_check_read kf kl s w f o n :
  inv kf kl s f → 0 ≤ o → 0 ≤ n ≤ maxoplen cfg → o + n ≤ file_size s →
  let d := take (Z.to_nat n) (drop (Z.to_nat o) (good_buf s)) in
  (take (Z.to_nat n) (temp_buf s) = d → fine kf kl s w f) → (take (Z.to_nat n) (temp_buf s) ≠ d → strict = false) →
  fwp (check_buffers o n) s w (ok kf kl (testcalls s)).
Proof.
  intros Hi Ho Hn Hsz d Hq Hne. pose proof (inv_good _ _ _ _ Hi). pose proof (inv_temp _ _ _ _ Hi).
  pose proof (inv_size _ _ _ _ Hi). apply fwp_check_buffers; [done|lia|lia|lia| |].
  - intros E. exists f. auto.
  - auto.
Qed.

(** memcpy() or read() into temp_buf. *)
Lemma fwp_temp {A} kf kl s w f n bs (m : M W A) Q :
  inv kf kl s f → n ≤ maxoplen cfg → Z.of_nat (length bs) ≤ n →
  (∀ t, inv kf kl (set_temp t s) f → take (length bs) t = bs → fwp m (set_temp t s) w Q) →
  fwp (temp ← get temp_buf; temp ← lift (memcpy temp 0 bs); _ ← put (set_temp temp); m) s w Q.
Proof.
  intros Hi Hn Hbs Hq. pose proof (inv_temp _ _ _ _ Hi). apply wp_bind, wp_get, wp_bind.
  eapply wp_lift; [apply memcpy_start; lia|]. apply wp_bind, wp_put, Hq; [|by apply take_app_length].
  destruct Hi. split; try done. cbn. rewrite length_app, length_drop. lia.
Qed.

Lemma fwp_doread kf kl s w f off n :
  fine (kf + 1) (kl + 1) s w f → 0 ≤ kf → 0 ≤ kl → 0 ≤ off → 0 ≤ n ≤ maxoplen cfg → off + n ≤ file_size s →
  fwp (doread cfg off n) s w (ok kf kl (testcalls s)).
Proof.
  intros Hf Hkf Hkl Hoff Hn Hsz. pose proof (wf_oplen Hcfg). unfold doread. eapply fwp_file; [done|done|]. clear Hf.
  intros i fd x w1 Hi Hfd Hpos Hopen Hf. apply wp_bind, fwp_align; [apply (wf_bdy Hcfg)|done|].
  intros o Ho. apply wp_bind, wp_get. cbn [file_size set_fd_last].
  pose proof (inv_size _ _ _ _ (proj1 Hf)) as Hfs. pose proof (inv_max _ _ _ _ (proj1 Hf)) as Hmax. cbn in Hfs, Hmax.
  destruct (decide (n = 0)).
  { eapply fwp_log4; [done|done|]. intros l Hl. by exists f. }
  rewrite u32_small, decide_False by clia. apply wp_bind. eapply fwp_log4; [done|done|].
  clear Hf. intros l Hf. apply fwp_unless; [intros _; by exists f|]. intros Hlive. cbn in Hlive.
  eapply fwp_seek; [done|apply Hf|apply Hf|done|lia|]. intros r w2 f1 Hi1 Ht1. pose proof (conj Hi1 (conj Ht1 (proj2 (proj2 Hf)))) as Hf1.
  clear Hf Hi1 Ht1. rename Hf1 into Hf. cbn [exit].
  apply wp_bind. eapply fwp_invoke; [apply Hf|intros E; split; [by apply Hopen|lia]| |].
  - intros r' w3 f' [Hr Hd] _ Hstep Ht. subst f1. cbn in Hstep. rewrite lookup_insert_eq in Hstep. cbn in Hstep.
    rewrite (live_part (set_oplogs l (set_fd_last x s)) f o n) in Hstep; [|apply Hf|done|cbn; lia..].
    destruct (decide _) as [[Hd1 Hd2]|]; [|done].
    assert (ret r' = n) as Hret.
    { rewrite Hd2, length_take, length_drop. pose proof (inv_good _ _ _ _ (proj1 Hf)) as Hg. cbn in *. lia. }
    injection Hstep as <-. set (s1 := add_call _ r' _) in *.
    match type of Ht with tracks _ _ ?g => set (f' := g) in * end.
    assert (inv kf kl s1 f') as Hi1.
    { eapply inv_call; [apply (proj1 Hf)|done| |done]. intros fd' ?. by apply insert_is_Some. }
    eapply (fwp_temp _ _ s1); [done|apply Hn|lia|]. intros t Hi2 Htk. rewrite Hret, u32_small, decide_False by clia.
    replace (length (data r')) with (Z.to_nat n) in Htk by lia.
    eapply (fwp_check_read _ _ (set_temp t s1)); [done|lia|done|cbn; lia| |].
    + intros _. split_and!; [done|done|apply Hf].
    + intros Hne. destruct Hne. cbn. by rewrite Htk.
  - intros r' w3 [Hr Hd] Hs Hnone. subst f1. cbn in Hnone. rewrite lookup_insert_eq in Hnone. cbn in Hnone.
    rewrite (live_part (set_oplogs l (set_fd_last x s)) f o n) in Hnone; [|apply Hf|done|cbn; lia..].
    set (s1 := add_call _ r' _) in *.
    assert (inv kf kl s1 (SFile (bytes f) (<[fd:=o]> (pos f)) (opens f) (maps f))) as Hi1.
    { eapply inv_call; [apply (proj1 Hf)|done|done|done]. }
    eapply (fwp_temp _ _ s1); [done|apply Hn|lia|]. intros t Hi2 Htk.
    destruct (decide (u32 (ret r') ≠ n)) as [|Hret]; [by apply wp_exit|].
    assert (ret r' = n) as Hret'.
    { destruct (decide (ret r' = -1)) as [E|]; [rewrite E in Hret; change (u32 (-1)) with 4294967295 in Hret; clia|].
      rewrite u32_small in Hret by clia. lia. }
    replace (length (data r')) with (Z.to_nat n) in Htk by lia.
    eapply (fwp_check_read _ _ (set_temp t s1)); [done|lia|done|cbn; lia| |done]. intros E. exfalso.
    destruct (decide _) as [|Hd']; [done|]. apply Hd'. cbn in E |- *. rewrite Htk in E. split; [done|]. rewrite <- E. lia.
Qed.

(** ** Mapped memory *)

Lemma fwp_invoke_loose c s w (Q : reply → fsx → W → Prop) :
  strict = false → (∀ r w', reply_wf c r → Q r (add_call c r s) w') → fwp (invoke c) s w Q.
Proof. intros Hs Hq. unfold wp, invoke. pose proof (sys_wf c w). destruct (sys c w) as [r w']. by apply Hq. Qed.

(** The offset in the page. *)
Lemma page_offset x : 0 ≤ x → 0 ≤ Z.land x (page_mask cfg) ≤ x ∧ (pagesize | x - Z.land x (page_mask cfg)).
Proof.
  intros Hx. destruct (wf_page Hcfg) as (-> & k & Hk & Hp). unfold page_mask. rewrite Hp.
  change (2 ^ k - 1) with (Z.pred (2 ^ k)). rewrite <- Z.ones_equiv, Z.land_ones by done.
  pose proof (Z.mod_pos_bound x (2 ^ k)). pose proof (Z.mod_le x (2 ^ k)). split; [lia|].
  exists (x / 2 ^ k). pose proof (Z.div_mod x (2 ^ k)). lia.
Qed.

Lemma live_size kf kl s f : inv kf kl s f → live s f → simulatedopcount cfg < testcalls s → size f = file_size s.
Proof.
  intros Hi Hl Hs. unfold size. rewrite (Hl Hs), length_take. pose proof (inv_good _ _ _ _ Hi).
  pose proof (inv_size _ _ _ _ Hi). lia.
Qed.

(** mmap() of the pages of a part of the file. *)
Lemma fwp_mmap {A} kf kl s w f fd o n (code : Z) (m : reply → M W A) Q :
  code ≠ 0 → inv kf kl s f → tracks s w f → (strict = true → fd ∈ opens f) →
  0 ≤ o → 0 < n → o + n ≤ INT_MAX → (strict = true → o + n ≤ size f) →
  let pg := Z.land o (page_mask cfg) in let c := CMmap fd (u32 (pg + n)) (o - pg) in
  (∀ p w', let f' := SFile (bytes f) (pos f) (opens f) (<[ret p := o - pg]> (maps f)) in
    0 ≤ pg ≤ o → inv kf kl (add_call c p s) f' → tracks (add_call c p s) w' f' → fwp (m p) (add_call c p s) w' Q) →
  fwp (p ← invoke c; if decide (ret p = -1) then exit code else m p) s w Q.
Proof.
  intros Hc Hi Ht Hopen Ho Hn Hmax Hsz pg c Hq. destruct (page_offset o Ho) as [Hpg Hdiv]. fold pg in Hpg, Hdiv.
  apply wp_bind. eapply fwp_invoke; [done| | |].
  - intros E. cbn. rewrite u32_small by clia. specialize (Hsz E). split_and!; [by apply Hopen|lia|lia|done|lia].
  - intros p w' f' _ _ Hstep Ht'. cbn in Hstep. destruct (decide (ret p = -1)); [done|]. injection Hstep as <-.
    apply Hq; [done| |done]. by apply (inv_call _ _ _ f).
  - intros p w' _ Hs Hnone. cbn in Hnone. destruct (decide (ret p = -1)); [by apply wp_exit|done].
Qed.

(** A call whose reply must be zero. *)
Lemma fwp_zero {A} kf kl s w f f' c (code : Z) (m : M W A) Q :
  code ≠ 0 → inv kf kl s f → tracks s w f → (strict = true → sane pagesize f c) →
  (∀ r, file_step f c r = if decide (ret r = 0) then Some f' else None) →
  bytes f' = bytes f → pos f' = pos f → opens f' = opens f →
  (∀ r w', inv kf kl (add_call c r s) f' → tracks (add_call c r s) w' f' → fwp m (add_call c r s) w' Q) →
  fwp (r ← invoke c; if decide (ret r ≠ 0) then exit code else m) s w Q.
Proof.
  intros Hc Hi Ht Hsane Hstep Hb Hp Ho Hq. apply wp_bind. eapply fwp_invoke; [done|done| |].
  - intros r w' f'' _ _ Hs Ht'. rewrite Hstep in Hs. destruct (decide (ret r = 0)) as [E|]; [|done]. simplify_eq.
    rewrite decide_False by congruence. apply Hq; [|done].
    apply (inv_call _ _ _ f); [done|by unfold size; rewrite Hb|by rewrite Hp|by rewrite Ho].
  - intros r w' _ Hs Hnone. rewrite Hstep in Hnone. destruct (decide (ret r = 0)); [done|].
    rewrite decide_True by done. by apply wp_exit.
Qed.

Lemma fwp_domapread kf kl s w f off n :
  fine (kf + 1) (kl + 1) s w f → 0 ≤ kf → 0 ≤ kl → 0 ≤ off → 0 ≤ n ≤ maxoplen cfg → off + n ≤ file_size s →
  fwp (domapread cfg off n) s w (ok kf kl (testcalls s)).
Proof.
  intros Hf Hkf Hkl Hoff Hn Hsz. pose proof (wf_oplen Hcfg). unfold domapread. eapply fwp_file; [done|done|]. clear Hf.
  intros i fd x w1 Hi Hfd Hpos Hopen Hf. apply wp_bind, fwp_align; [apply (wf_bdy Hcfg)|done|].
  intros o Ho. apply wp_bind, wp_get. cbn [file_size set_fd_last].
  pose proof (inv_size _ _ _ _ (proj1 Hf)) as Hfs. pose proof (inv_max _ _ _ _ (proj1 Hf)) as Hmax. cbn in Hfs, Hmax.
  destruct (decide (n = 0)).
  { eapply fwp_log4; [done|done|]. intros l Hl. by exists f. }
  rewrite u32_small, decide_False by clia. apply wp_bind. eapply fwp_log4; [done|done|].
  clear Hf. intros l Hf. apply fwp_unless; [intros _; by exists f|]. intros Hlive. cbn in Hlive.
  assert (size f = file_size s) as Hsize.
  { destruct Hf as (Hinv & _ & Hl). exact (live_size _ _ _ _ Hinv Hl Hlive). }
  eapply (fwp_mmap kf kl); [done|apply Hf|apply Hf|done|lia|lia|lia|lia|]. set (pg := Z.land o (page_mask cfg)).
  intros p w2 f1 Hpg Hi1 Ht1. pose proof (conj Hi1 (conj Ht1 (proj2 (proj2 Hf)))) as Hf1.
  clear Hf Hi1 Ht1. rename Hf1 into Hf. apply wp_bind.
  assert (maps f1 !! ret p = Some (o - pg)) as Hm by apply lookup_insert_eq.
  assert (take (Z.to_nat n) (drop (Z.to_nat (o - pg + pg)) (bytes f)) = take (Z.to_nat n) (drop (Z.to_nat o) (good_buf s))) as Hdata.
  { replace (o - pg + pg) with o by lia. apply (live_part (set_oplogs l (set_fd_last x s)) f o n); [apply Hf|done|cbn; lia..]. }
  eapply fwp_invoke; [apply Hf| | |].
  { intros E. exists (o - pg). split; [done|]. change (size f1) with (size f). lia. }
  - intros r w3 f' Hwf _ Hstep Ht. cbn [file_step] in Hstep. rewrite Hm in Hstep. cbn in Hstep, Hwf. rewrite Hdata in Hstep.
    destruct (decide _) as [Hd|]; [|done]. injection Hstep as <-. set (s1 := add_call _ r _) in *.
    eapply (fwp_temp kf kl s1 _ f1); [by apply (inv_call _ _ _ f1); [apply Hf|..]|apply Hn|lia|]. intros t Hi2 Htk.
    replace (length (data r)) with (Z.to_nat n) in Htk by lia.
    eapply (fwp_zero _ _ (set_temp t s1)); [done|done|done| |intros r'; reflexivity|done|done|done|].
    { intros E. cbn [sane]. by rewrite Hm. }
    intros r' w4 Hi3 Ht3. set (s3 := add_call _ r' _).
    eapply (fwp_check_read _ _ s3); [done|lia|done|cbn; lia|intros _; split_and!; [done|done|apply Hf]|]. intros Hne. destruct Hne. cbn. by rewrite Htk.
  - intros r w3 Hwf Hs Hnone. cbn [file_step] in Hnone. rewrite Hm in Hnone. cbn in Hnone, Hwf. rewrite Hdata in Hnone.
    set (s1 := add_call _ r _) in *.
    eapply (fwp_temp kf kl s1 _ f1); [by apply (inv_call _ _ _ f1); [apply Hf|..]|apply Hn|lia|]. intros t Hi2 Htk.
    replace (length (data r)) with (Z.to_nat n) in Htk by lia. apply wp_bind, fwp_invoke_loose; [done|].
    intros r' w4 _. destruct (decide (ret r' ≠ 0)); [by apply wp_exit|]. set (s3 := add_call _ r' _).
    eapply (fwp_check_read kf kl s3 _ f1); [by apply (inv_call _ _ _ f1)|lia|done|cbn; lia| |done].
    intros E. exfalso. destruct (decide _) as [|Hd']; [done|]. apply Hd'. cbn in E. by rewrite Htk in E.
Qed.

(** ** Writing *)

Lemma fwp_prepare kf kl s w f o n failure (Q : () → fsx → W → Prop) :
  inv kf kl s f → 0 ≤ o → 0 < n → o + n ≤ maxfilelen s →
  (∀ bs, length bs = Z.to_nat n →
    Q () (set_file_size (file_size s `max` (o + n)) (set_good (image (good_buf s) (Z.to_nat (file_size s)) (Z.to_nat o) bs) s)) w) →
  fwp (prepare_write cfg o n failure) s w Q.
Proof.
  intros Hi Ho Hn Hmax Hq. pose proof (inv_good _ _ _ _ Hi). pose proof (inv_original _ _ _ _ Hi).
  pose proof (inv_size _ _ _ _ Hi). pose proof (inv_max _ _ _ _ Hi).
  destruct (gendata_loop_ok (testcalls s mod 256) (original_buf s) (Z.to_nat n) (good_buf s) (Z.to_nat o)) as (bs & Hbs & Hgen); [lia..|].
  rewrite Z2Nat.id in Hgen by lia. specialize (Hq bs Hbs). revert Hq. unfold image. rewrite <- Hbs in Hgen.
  set (g := _ ++ _ ++ _) in *. intros Hq.
  assert (length g = length (good_buf s)) as Hg by (unfold g; rewrite !length_app, length_take, length_drop; lia).
  unfold prepare_write, gendata. apply wp_bind. do 3 apply wp_bind, wp_get. apply wp_bind.
  eapply wp_lift; [rewrite <- Hbs; exact Hgen|]. apply wp_put, wp_bind, wp_get. cbn [file_size set_good].
  rewrite u32_small by clia. destruct (decide (file_size s < o + n)) as [Hlt|Hge].
  - assert (lite cfg = false) as Hlite.
    { apply not_true_is_false. intros E. destruct (inv_lite _ _ _ _ Hi E). lia. }
    rewrite Z.max_r in Hq by lia. apply wp_bind. destruct (decide (file_size s < o)).
    + apply wp_bind, wp_get, wp_bind. rewrite decide_True in Hq by lia. unfold memset. rewrite decide_True by lia.
      eapply wp_lift; [apply memcpy_ok; cbn; [lia|rewrite length_replicate, Hg; lia]|].
      apply wp_put, wp_bind, wp_put. rewrite Hlite. apply wp_ret.
      cbn. rewrite length_replicate. replace (Z.to_nat (file_size s) + _)%nat with (Z.to_nat o) by lia.
      by replace (Z.to_nat (o - file_size s)) with (Z.to_nat o - Z.to_nat (file_size s))%nat by lia.
    + apply wp_ret, wp_bind, wp_put. rewrite Hlite. apply wp_ret. by rewrite decide_False in Hq by lia.
  - rewrite Z.max_l in Hq by lia. rewrite decide_False in Hq by lia. by apply wp_ret.
Qed.

Lemma inv_image kf kl s f g n :
  inv kf kl s f → length g = length (good_buf s) → 0 ≤ n ≤ maxfilelen s → (lite cfg = true → n = maxfilelen s) →
  inv kf kl (set_file_size n (set_good g s)) f.
Proof.
  intros [] Hg Hn Hl. split; try done; cbn; [by rewrite Hg|]. intros E. split; [by apply Hl|by apply inv_lite0].
Qed.

(** The file after the bytes of a write are stored at [o]. *)
Lemma store_live kf kl s f o n bs :
  inv kf kl s f → 0 ≤ o → 0 < n → o + n ≤ maxfilelen s → length bs = Z.to_nat n →
  let g := image (good_buf s) (Z.to_nat (file_size s)) (Z.to_nat o) bs in
  let n' := file_size s `max` (o + n) in
  length g = length (good_buf s) ∧ inv kf kl (set_file_size n' (set_good g s)) f ∧
  take (Z.to_nat n) (drop (Z.to_nat o) g) = bs ∧
  take (Z.to_nat n') g = store (take (Z.to_nat (file_size s)) (good_buf s)) (Z.to_nat o) bs.
Proof.
  intros Hi Ho Hn Hmax Hbs g n'. pose proof (inv_good _ _ _ _ Hi). pose proof (inv_size _ _ _ _ Hi).
  destruct (image_store (good_buf s) (Z.to_nat (file_size s)) (Z.to_nat o) bs) as (Hg & Hpart & Hst); [lia..|].
  fold g in Hg, Hpart, Hst. split_and!; [done| |by rewrite <- Hbs|].
  - apply inv_image; [done|done|lia|]. intros E. destruct (inv_lite _ _ _ _ Hi E). lia.
  - rewrite <- Hst. f_equal. lia.
Qed.

Lemma fwp_dowrite kf kl s w f off n :
  fine (kf + 1) (kl + 1) s w f → 0 ≤ kf → 0 ≤ kl → 0 ≤ off → 0 ≤ n ≤ maxoplen cfg → off + n ≤ maxfilelen s →
  fwp (dowrite cfg off n) s w (ok kf kl (testcalls s)).
Proof.
  intros Hf Hkf Hkl Hoff Hn Hsz. pose proof (wf_oplen Hcfg). unfold dowrite. eapply fwp_file; [done|done|]. clear Hf.
  intros i fd x w1 Hi Hfd Hpos Hopen Hf. apply wp_bind, fwp_align; [apply (wf_bdy Hcfg)|done|].
  intros o Ho. destruct (decide (n = 0)).
  { eapply fwp_log4; [done|done|]. intros l Hl. by exists f. }
  apply wp_bind, wp_get, wp_bind. eapply fwp_log4; [done|done|]. clear Hf. intros l Hf. set (s1 := set_oplogs l _) in *.
  destruct Hf as (Hi1 & Ht1 & Hl1). apply wp_bind. eapply fwp_prepare; [done|lia|lia|cbn; lia|].
  intros bs Hbs. destruct (store_live _ _ s1 f o n bs Hi1) as (Hg & Hi2 & Hpart & Hst); [lia|lia|cbn; lia|done|].
  set (s2 := set_file_size _ _) in *.
  apply fwp_unless; [intros Hsim; exists f; split; [|done]; split_and!; [done|done|unfold live; lia]|].
  intros Hlive. assert (bytes f = take (Z.to_nat (file_size s)) (good_buf s)) as Hb by (by apply Hl1).
  eapply fwp_seek; [done|done|done|done|lia|]. intros r w2 f1 Hi3 Ht3. set (s3 := add_call _ r s2) in *.
  apply wp_bind, wp_get, wp_bind. pose proof (inv_good _ _ _ _ Hi3) as Hlen. change (maxfilelen s3) with (maxfilelen s) in Hlen.
  eapply wp_lift; [unfold bytes_at; by rewrite decide_True by lia|].
  change (good_buf s3) with (good_buf s2). cbn [s2 good_buf set_file_size set_good]. rewrite Hpart.
  apply wp_bind. eapply fwp_invoke; [done|intros E; by apply Hopen| |].
  - intros r' w3 f' Hwf _ Hstep Ht4. cbn in Hwf. cbn in Hstep. rewrite lookup_insert_eq in Hstep. cbn in Hstep.
    destruct (decide _) as [Hret|]; [|done]. injection Hstep as <-. rewrite Hret, u32_small, decide_False by clia.
    apply wp_ret. eexists. split; [|done]. split_and!; [|done|intros _; cbn; rewrite Hb; by symmetry].
    apply (inv_call _ _ _ f1); [done| |intros fd' ?; by apply insert_is_Some|done].
    intros E. destruct (inv_lite _ _ _ _ Hi1 E) as [_ Hs]. unfold size in *. cbn in *. rewrite length_store. destruct (decide _); lia.
  - intros r' w3 Hwf Hs Hnone. cbn in Hwf, Hnone. rewrite lookup_insert_eq in Hnone. cbn in Hnone.
    destruct (decide (u32 (ret r') ≠ n)) as [|Hret]; [by apply wp_exit|].
    destruct (decide _) as [|Hd] in Hnone; [done|]. destruct Hd.
    destruct (decide (ret r' = -1)) as [E|]; [rewrite E in Hret; change (u32 (-1)) with 4294967295 in Hret; clia|].
    rewrite u32_small in Hret by clia. lia.
Qed.

(** ftruncate() to a larger size, if the file has to grow. *)
Lemma fwp_extend {A} kf kl s w f fd cur n code (m : M W A) Q :
  code ≠ 0 → inv kf kl s f → tracks s w f → (strict = true → fd ∈ opens f) → cur = size f → cur ≤ n → (lite cfg = true → cur = n) →
  (∀ s' w' f', good_buf s' = good_buf s → file_size s' = file_size s → testcalls s' = testcalls s → maxfilelen s' = maxfilelen s →
    bytes f' = resize (Z.to_nat n) 0 (bytes f) → opens f' = opens f → inv kf kl s' f' → tracks s' w' f' → fwp m s' w' Q) →
  fwp (_ ← (if decide (cur < n) then r ← invoke (CTruncate fd n); if decide (ret r = -1) then exit code else mret () else mret ()); m) s w Q.
Proof.
  intros Hc Hi Ht Hopen Hcur Hn Hl Hq. unfold size in Hcur. apply wp_bind. destruct (decide (cur < n)) as [Hlt|].
  - apply wp_bind. eapply fwp_invoke; [done|intros E; split; [by apply Hopen|lia]| |done].
    intros r w' f' _ Hsucc Hstep Ht'. cbn in Hstep. injection Hstep as <-. destruct (decide (ret r = -1)) as [E|].
    { apply wp_exit. split; [|done]. apply not_true_is_false. intros Es. by apply Hsucc in Es. }
    apply wp_ret. eapply Hq; [..|exact Ht']; [done..|]. apply (inv_call _ _ _ f); [done| |done|done].
    intros E. apply Hl in E. lia.
  - apply wp_ret. apply (Hq s w f); try done. rewrite resize_spec. rewrite take_ge by lia.
    rewrite (proj2 (Nat.sub_0_le _ _)), app_nil_r by lia. done.
Qed.

Lemma fwp_domapwrite kf kl s w f off n :
  fine (kf + 1) (kl + 1) s w f → 0 ≤ kf → 0 ≤ kl → 0 ≤ off → 0 ≤ n ≤ maxoplen cfg → off + n ≤ maxfilelen s →
  fwp (domapwrite cfg off n) s w (ok kf kl (testcalls s)).
Proof.
  intros Hf Hkf Hkl Hoff Hn Hsz. pose proof (wf_oplen Hcfg). unfold domapwrite. eapply fwp_file; [done|done|]. clear Hf.
  intros i fd x w1 Hi Hfd Hpos Hopen Hf. apply wp_bind, fwp_align; [apply (wf_bdy Hcfg)|done|].
  intros o Ho. destruct (decide (n = 0)).
  { eapply fwp_log4; [done|done|]. intros l Hl. by exists f. }
  apply wp_bind, wp_get, wp_bind. eapply fwp_log4; [done|done|]. clear Hf. intros l Hf. set (s1 := set_oplogs l _) in *.
  destruct Hf as (Hi1 & Ht1 & Hl1). apply wp_bind. eapply fwp_prepare; [done|lia|lia|cbn; lia|].
  intros bs Hbs. destruct (store_live _ _ s1 f o n bs Hi1) as (Hg & Hi2 & Hpart & Hst); [lia|lia|cbn; lia|done|].
  set (s2 := set_file_size _ _) in *.
  apply fwp_unless; [intros Hsim; exists f; split; [|done]; split_and!; [done|done|unfold live; lia]|].
  intros Hlive. assert (bytes f = take (Z.to_nat (file_size s)) (good_buf s)) as Hb by (by apply Hl1).
  pose proof (live_size _ _ _ _ Hi1 Hl1 Hlive) as Hsize. change (file_size s1) with (file_size s) in Hsize.
  pose proof (inv_max _ _ _ _ Hi1) as Hmax. pose proof (inv_size _ _ _ _ Hi1) as Hfs. cbn in Hmax, Hfs.
  apply wp_bind, wp_get. change (file_size s2) with (file_size s `max` (o + n)).
  change (file_size (set_fd_last x s)) with (file_size s).
  eapply fwp_extend; [done|done|done|done|done|lia| |].
  { intros E. destruct (inv_lite _ _ _ _ Hi1 E) as [E' _]. cbn in E'. lia. }
  intros s3 w2 f3 Hgood Hfsize Htc Hmax3 Hb3 Hop3 Hi3 Ht3.
  assert (size f3 = file_size s `max` (o + n)) as Hsize3 by (unfold size; rewrite Hb3, length_resize; lia).
  eapply (fwp_mmap kf kl s3); [done|done|done|by rewrite Hop3|lia|lia|lia|lia|]. set (pg := Z.land o (page_mask cfg)).
  intros p w3 f4 Hpg Hi4 Ht4. set (s4 := add_call _ p s3) in *. apply wp_bind, wp_get, wp_bind.
  pose proof (inv_good _ _ _ _ Hi4) as Hlen. change (maxfilelen s4) with (maxfilelen s3) in Hlen. rewrite Hmax3 in Hlen. cbn in Hlen.
  eapply wp_lift; [unfold bytes_at; by rewrite decide_True by (cbn; lia)|].
  change (good_buf s4) with (good_buf s3). rewrite Hgood. cbn [s2 good_buf set_file_size set_good]. rewrite Hpart.
  apply wp_bind. assert (maps f4 !! ret p = Some (o - pg)) as Hm by apply lookup_insert_eq.
  eapply fwp_invoke; [done| | |].
  { intros E. exists (o - pg). split; [done|]. change (size f4) with (size f3). lia. }
  2: { intros r w4 _ Hs Hnone. cbn [file_step] in Hnone. by rewrite Hm in Hnone. }
  intros r w4 f5 _ _ Hstep Ht5. cbn [file_step] in Hstep. rewrite Hm in Hstep. cbn [mbind option_bind] in Hstep. injection Hstep as <-.
  match type of Ht5 with tracks _ _ ?g => set (f5 := g) in * end. set (s5 := add_call _ r s4) in *.
  assert (bytes f5 = take (Z.to_nat (file_size s `max` (o + n))) (good_buf s2)) as Hb5.
  { change (good_buf s2) with (image (good_buf s1) (Z.to_nat (file_size s1)) (Z.to_nat o) bs).
    change (file_size s `max` (o + n)) with (file_size s1 `max` (o + n)). rewrite Hst. cbn. rewrite Hb3, Hb.
    replace (o - pg + pg) with o by lia. apply store_resize. unfold size in Hsize. rewrite Hb in Hsize. lia. }
  assert (inv kf kl s5 f5) as Hi5.
  { apply (inv_call _ _ _ f4); [done| |done|done]. intros E. unfold size. rewrite Hb5. change (bytes f4) with (bytes f3).
    unfold size in Hsize3. rewrite Hsize3, length_take. pose proof (inv_good _ _ _ _ Hi2) as Hg2. cbn in Hg2 |- *. lia. }
  eapply (fwp_zero _ _ s5); [done|done|done| |intros r'; reflexivity|done|done|done|].
  { intros E. cbn [sane]. by exists (o - pg). }
  intros r' w5 Hi6 Ht6. eapply fwp_zero; [done|done|done| |intros r''; reflexivity|done|done|done|].
  { intros E. cbn [sane]. by exists (o - pg). }
  intros r'' w6 Hi7 Ht7. apply wp_ret. eexists. split; [|cbn; by rewrite Htc]. split_and!; [done|done|].
  intros _. cbn. rewrite Hgood, Hfsize. exact Hb5.
Qed.

(** ** Truncation *)

Lemma fwp_dotruncate kf kl s w f n :
  fine (kf + 1) (kl + 1) s w f → lite cfg = false → 0 ≤ kf → 0 ≤ kl → 0 ≤ n ≤ maxfilelen s →
  fwp (dotruncate cfg n) s w (ok kf kl (testcalls s)).
Proof.
  intros Hf Hlite Hkf Hkl Hn. unfold dotruncate. eapply fwp_file; [done|done|]. clear Hf.
  intros i fd x w1 Hi Hfd Hpos Hopen Hf. apply wp_bind, fwp_align; [apply (wf_bdy Hcfg)|lia|].
  intros k Hk. apply wp_bind, wp_get, wp_bind.
  eapply wp_mono with (Q := λ _ s1 w', w' = w1 ∧ ∃ b, s1 = set_biggest b (set_fd_last x s)).
  { destruct (decide _); [apply wp_put|apply wp_ret]; (split; [done|]); [by exists k|exists (biggest s); by destruct s]. }
  intros _ s1 w2 [-> [b ->]]. set (s1 := set_biggest b _). assert (fine kf (kl + 1) s1 w1 f) as Hf1.
  { destruct Hf as ([] & ? & ?). split; [|done]. by split. }
  clear Hf. apply wp_bind, wp_get, wp_bind. eapply fwp_log4; [done|done|]. clear Hf1. intros l (Hi1 & Ht1 & Hl1).
  set (s2 := set_oplogs l s1) in *. change (file_size s1) with (file_size s). apply wp_bind.
  pose proof (inv_good _ _ _ _ Hi1) as Hg. pose proof (inv_size _ _ _ _ Hi1) as Hfs. cbn in Hg, Hfs.
  eapply wp_mono with (Q := λ _ s3 w', w' = w1 ∧ ∃ g, s3 = set_good g s2 ∧ length g = length (good_buf s) ∧
    take (Z.to_nat k) g = resize (Z.to_nat k) 0 (take (Z.to_nat (file_size s)) (good_buf s))).
  { destruct (decide (file_size s < k)).
    - apply wp_bind, wp_get, wp_bind. unfold memset. rewrite decide_True by lia.
      eapply wp_lift; [apply memcpy_ok; cbn; [lia|rewrite length_replicate; lia]|]. apply wp_put. split; [done|].
      eexists. split; [done|]. cbn. rewrite length_replicate. split.
      + rewrite !length_app, length_take, length_replicate, length_drop. lia.
      + replace (Z.to_nat (k - file_size s)) with (Z.to_nat k - Z.to_nat (file_size s))%nat by lia. apply zeros_resize; lia.
    - apply wp_ret. split; [done|]. exists (good_buf s). split_and!; [by destruct s|done|]. apply take_resize; lia. }
  intros _ s3 w2 [-> (g & -> & Hlen & Hres)]. apply wp_bind, wp_put. set (s3 := set_file_size k _).
  assert (inv kf kl s3 f) as Hi3 by (apply inv_image; [done|done|cbn; lia|by rewrite Hlite]).
  apply fwp_unless; [intros Hsim; exists f; split; [|done]; split_and!; [done|done|unfold live; lia]|].
  intros Hlive. assert (bytes f = take (Z.to_nat (file_size s)) (good_buf s)) as Hb by (by apply Hl1).
  apply wp_bind. eapply fwp_invoke; [exact Ht1|intros E; split; [by apply Hopen|lia]| |done].
  intros r w' f' _ Hsucc Hstep Ht'. cbn in Hstep. injection Hstep as <-. destruct (decide (ret r = -1)) as [E|].
  { apply wp_exit. split; [|done]. apply not_true_is_false. intros Es. by apply Hsucc in Es. }
  apply wp_ret. eexists. split; [|done]. split_and!; [|exact Ht'|].
  - apply (inv_call _ _ _ f); [done|by rewrite Hlite|done|done].
  - intros _. cbn. by rewrite Hres, Hb.
Qed.

(** ** Writing the file after the simulated operations *)

Lemma fwp_get_fd kf kl s w f (Q : Z → fsx → W → Prop) :
  fine (kf + 1) kl s w f → 0 ≤ kf →
  (∀ fd n w', is_Some (pos f !! fd) → (strict = true → fd ∈ opens f) → fine kf kl (set_fd_last n s) w' f →
    Q fd (set_fd_last n s) w') →
  fwp (get_fd cfg) s w Q.
Proof.
  intros Hf Hk Hq. unfold get_fd. apply wp_bind. eapply fwp_get_tf; [done|done|]. intros i n w' Hi Hf'.
  eapply fwp_tf_fd; [done|done|]. intros fd _ ??. by apply Hq.
Qed.

(** The file holds the good buffer, also before the first operation if none is
    simulated. *)
Definition ready (s : fsx) (f : sfile) : Prop :=
  simulatedopcount cfg = 0 ∨ simulatedopcount cfg < testcalls s → bytes f = take (Z.to_nat (file_size s)) (good_buf s).

Lemma fwp_writefileimage kf kl s w f :
  fine (kf + 1) kl s w f → 0 ≤ kf →
  fwp (writefileimage cfg) s w (λ _ s' w', ∃ f', inv kf kl s' f' ∧ tracks s' w' f' ∧
    bytes f' = take (Z.to_nat (file_size s')) (good_buf s') ∧ testcalls s' = testcalls s).
Proof.
  intros Hf Hkf. unfold writefileimage. apply wp_bind. eapply fwp_get_fd; [done|done|]. clear Hf.
  intros fd x w1 Hpos Hopen (Hi1 & Ht1 & _). set (s1 := set_fd_last x s) in *.
  eapply fwp_seek; [done|done|done|done|lia|]. intros r w2 f2 Hi2 Ht2. set (s2 := add_call _ r s1) in *.
  pose proof (inv_good _ _ _ _ Hi1) as Hg. pose proof (inv_size _ _ _ _ Hi1) as Hfs. cbn in Hg, Hfs.
  apply wp_bind, wp_get, wp_bind, wp_get, wp_bind. change (good_buf s2) with (good_buf s). change (file_size s2) with (file_size s).
  eapply wp_lift; [unfold bytes_at; by rewrite decide_True by lia|]. rewrite drop_0. set (bs := take _ _) at 1.
  assert (Z.of_nat (length bs) = file_size s) as Hbs by (unfold bs; rewrite length_take; lia).
  apply wp_bind. eapply fwp_invoke; [exact Ht2|intros E; by apply Hopen| |].
  - intros r' w3 f3 _ _ Hstep Ht3. cbn in Hstep. rewrite lookup_insert_eq in Hstep. cbn in Hstep.
    destruct (decide _) as [Hret|]; [|done]. injection Hstep as <-. rewrite decide_False by lia.
    match type of Ht3 with tracks _ _ ?g => set (f3 := g) in * end. set (s3 := add_call _ r' s2) in *.
    assert (inv kf kl s3 f3) as Hi3.
    { apply (inv_call _ _ _ f2); [done| |intros fd' ?; by apply insert_is_Some|done]. intros E.
      destruct (inv_lite _ _ _ _ Hi1 E) as [E1 E2]. unfold size in *. cbn [f3 f2 bytes] in *. rewrite length_store. cbn in E1, E2.
      destruct (decide _); lia. }
    assert (take (length bs) (bytes f3) = bs) as Htake.
    { cbn [f3 bytes]. unfold store. cbn [take app]. change (Z.to_nat 0) with 0%nat. rewrite take_0. cbn. by rewrite take_app_length. }
    destruct (lite cfg) eqn:E.
    + apply wp_ret. exists f3. split_and!; [done|done| |done]. destruct (inv_lite _ _ _ _ Hi3 E) as [E1 E2].
      unfold size in E2. cbn in E1. rewrite take_ge in Htake by (cbn in *; lia). exact Htake.
    + apply wp_bind. eapply fwp_invoke; [exact Ht3|intros Es; split; [by apply Hopen|lia]| |done].
      intros r'' w4 f4 _ Hsucc Hstep Ht4. cbn in Hstep. injection Hstep as <-. destruct (decide (ret r'' = -1)).
      { apply wp_exit. split; [|done]. apply not_true_is_false. intros Es. by apply Hsucc in Es. }
      apply wp_ret. eexists. split_and!; [|exact Ht4| |done].
      * apply (inv_call _ _ _ f3); [done|by rewrite E|done|done].
      * cbn. assert (Z.to_nat (file_size s) = length bs) as Hn by lia. pose proof (f_equal length Htake) as Hlen.
        rewrite length_take in Hlen. cbn in Hlen. rewrite resize_le by lia. rewrite Hn at 1. exact Htake.
  - intros r' w3 Hwf Hs Hnone. cbn in Hnone. rewrite lookup_insert_eq in Hnone. cbn in Hnone.
    destruct (decide (ret r' = _)); [done|]. rewrite decide_True by lia. by apply wp_exit.
Qed.

(** ** Closing and the size *)

Lemma fwp_docloseopen kf kl s w f :
  fine (kf + 1) (kl + 1) s w f → 0 ≤ kf → 0 ≤ kl → fwp (docloseopen cfg) s w (ok kf kl (testcalls s)).
Proof.
  intros Hf Hkf Hkl. unfold docloseopen. apply wp_bind. eapply fwp_get_tf; [done|done|]. clear Hf.
  intros i x w1 Hin Hf. set (s1 := set_fd_last x s) in *. apply fwp_unless.
  { intros _. exists f. split; [|done]. destruct Hf as (Hi & Ht & Hl). split; [|done]. eapply inv_weaken; [done|lia|lia]. }
  intros Hlive. apply wp_bind, wp_get, wp_bind. eapply fwp_log4; [done|done|]. clear Hf. intros l Hf.
  set (s2 := set_oplogs l s1) in *. apply wp_bind. eapply fwp_tf_fd; [done|done|]. intros fd Hfd Hpos Hopen.
  destruct Hf as (Hi & Ht & Hl). apply wp_bind. eapply fwp_invoke; [done|done| |].
  2: { intros r w2 _ Hs Hnone. cbn in Hnone. destruct (decide (ret r = 0)); [done|]. rewrite decide_True by done. by apply wp_exit. }
  intros r w2 f2 _ _ Hstep Ht2. cbn in Hstep. destruct (decide (ret r = 0)) as [E|]; [|done]. injection Hstep as <-.
  rewrite decide_False by congruence. apply wp_bind. eapply fwp_invoke; [done|done| |].
  2: { intros r' w3 _ Hs Hnone. cbn in Hnone. destruct (decide (ret r' < 0)); [|done].
       by apply wp_bind, wp_get, wp_bind, wp_put, wp_exit. }
  intros r' w3 f3 _ Hnew Hstep Ht3. cbn in Hstep, Hnew. destruct (decide (ret r' < 0)); [done|]. injection Hstep as <-.
  apply wp_bind, wp_get, wp_bind, wp_put, wp_ret. eexists. split; [|done]. split_and!; [|exact Ht3|exact Hl].
  destruct Hi. split; try done; cbn.
  - by rewrite length_insert.
  - intros y [j Hy]%list_elem_of_lookup. apply list_lookup_insert_Some in Hy as [(-> & -> & _)|[_ Hy]].
    + rewrite lookup_insert_eq. eauto.
    + by apply insert_is_Some, inv_pos0, (list_elem_of_lookup_2 _ j).
  - intros Es. destruct (inv_open0 Es) as [Hnd Hall]. apply reopened; auto.
Qed.

Lemma fwp_check_size kf kl s w f :
  fine (kf + 1) kl s w f → 0 ≤ kf → simulatedopcount cfg < testcalls s → fwp (check_size cfg) s w (ok kf kl (testcalls s)).
Proof.
  intros Hf Hkf Hlive. unfold check_size. apply wp_bind. eapply fwp_get_fd; [done|done|]. clear Hf.
  intros fd x w1 Hpos Hopen (Hi & Ht & Hl). set (s1 := set_fd_last x s) in *.
  pose proof (live_size _ _ _ _ Hi Hl Hlive) as Hsize. apply wp_bind. eapply fwp_invoke; [done|done| |].
  - intros st w2 f2 _ _ Hstep Ht2. cbn in Hstep. destruct (decide (ret st = size f)) as [E|]; [|done]. injection Hstep as <-.
    assert (inv kf kl (add_call (CFstat fd) st s1) f) as Hi2 by (by apply (inv_call _ _ _ f)).
    apply wp_bind. eapply fwp_invoke; [done|done| |].
    + intros sk w3 f3 _ _ Hstep Ht3. cbn in Hstep. destruct (decide (ret sk = size f)) as [E'|]; [|done]. injection Hstep as <-.
      apply wp_bind, wp_get. rewrite decide_False by (cbn in *; lia). apply wp_ret. eexists. split; [|done].
      split_and!; [|exact Ht3|exact Hl]. apply (inv_call _ _ _ f); [done|done| |done]. intros fd' ?. by apply insert_is_Some.
    + intros sk w3 _ Hs Hnone. cbn in Hnone. destruct (decide (ret sk = size f)); [done|].
      apply wp_bind, wp_get. rewrite decide_True by (cbn in *; lia). by apply wp_exit.
  - intros st w2 _ Hs Hnone. cbn in Hnone. destruct (decide (ret st = size f)); [done|].
    apply wp_bind, fwp_invoke_loose; [done|]. intros sk w3 _.
    apply wp_bind, wp_get. rewrite decide_True by (cbn in *; lia). by apply wp_exit.
Qed.

(** ** One step of the test *)

Lemma fwp_umod x n s w (Q : Z → fsx → W → Prop) :
  (strict = true → n ≠ 0) → 0 ≤ n → (n ≠ 0 → 0 ≤ x mod n < n → Q (x mod n) s w) → fwp (umod x n) s w Q.
Proof.
  intros Hs Hn Hq. unfold umod. destruct (decide (n = 0)) as [E|E].
  - apply not_true_is_false. intros Es. by apply Hs in Es.
  - apply wp_ret, Hq; [done|]. apply Z.mod_pos_bound. lia.
Qed.

(** The length of an operation. *)
Lemma fwp_oplen s w f (Q : Z → fsx → W → Prop) :
  tracks s w f → (∀ n w', 0 ≤ n ≤ maxoplen cfg → tracks s w' f → Q n s w') →
  fwp (if randomoplen cfg then r ← rnd; k ← lift (i32 (maxoplen cfg + 1)); umod r k else mret (maxoplen cfg)) s w Q.
Proof.
  intros Ht Hq. pose proof (wf_oplen Hcfg). destruct (randomoplen cfg); [|apply wp_ret, Hq; [lia|done]].
  apply wp_bind. eapply fwp_rnd; [done|]. intros r w' _ Ht'. apply wp_bind. eapply wp_lift; [apply i32_ok; clia|].
  apply fwp_umod; [lia|lia|]. intros _ Hr. apply Hq; [lia|done].
Qed.

Lemma fine_world kf kl s w w' f : fine kf kl s w f → tracks s w' f → fine kf kl s w' f.
Proof. by intros (? & _ & ?) ?. Qed.

Lemma fwp_perform kf kl s w f op :
  fine (kf + 1) (kl + 1) s w f → 0 ≤ kf → 0 ≤ kl → fwp (perform cfg op) s w (ok kf kl (testcalls s)).
Proof.
  intros Hf Hkf Hkl. pose proof (wf_oplen Hcfg). pose proof (inv_size _ _ _ _ (proj1 Hf)). pose proof (inv_max _ _ _ _ (proj1 Hf)).
  pose proof (inv_nonempty _ _ _ _ (proj1 Hf)) as Hne. unfold perform.
  rewrite (bool_decide_true (Z.land style 1 = 0)), andb_true_r by done.
  destruct (negb (lite cfg) && bool_decide (op = 3)) eqn:Etr.
  { apply andb_prop in Etr as [El%negb_true_iff _].
    apply wp_bind. eapply fwp_rnd; [apply Hf|]. intros r w1 _ Ht. apply wp_bind, wp_get, wp_bind.
    apply fwp_umod; [done|lia|]. intros _ Hr. rewrite u32_small by clia.
    eapply fwp_dotruncate; [by eapply fine_world|done|lia..]. }
  apply wp_bind. eapply fwp_oplen; [apply Hf|]. intros n w1 Hn Ht1.
  apply wp_bind. eapply fwp_rnd; [exact Ht1|]. intros x w2 _ Ht2. eapply fine_world in Hf; [|exact Ht2].
  destruct (decide (op = 1 ∨ _)) as [_|_].
  - apply wp_bind, wp_get, wp_bind. apply fwp_umod; [done|lia|]. intros _ Hr. set (o := x mod maxfilelen s) in *.
    set (n' := if decide (maxfilelen s < o + n) then _ else n).
    assert (0 ≤ n' ≤ maxoplen cfg ∧ o + n' ≤ maxfilelen s) as Hn' by (unfold n'; destruct (decide _); lia).
    rewrite !u32_small by clia. destruct (decide (op ≠ 1)); [eapply fwp_domapwrite|eapply fwp_dowrite]; try done; lia.
  - apply wp_bind, wp_get, wp_bind.
    eapply wp_mono with (Q := λ o s' w', s' = s ∧ w' = w2 ∧ 0 ≤ o ≤ file_size s).
    { destruct (decide (file_size s ≠ 0)); [apply fwp_umod; [done|lia|]; intros _ Hr|apply wp_ret]; split_and!; done || lia. }
    intros o s' w' (-> & -> & Ho). set (n' := if decide (file_size s < o + n) then _ else n).
    assert (0 ≤ n' ≤ maxoplen cfg ∧ o + n' ≤ file_size s) as Hn' by (unfold n'; destruct (decide _); lia).
    rewrite !u32_small by clia. destruct (decide (op ≠ 0)); [eapply fwp_domapread|eapply fwp_doread]; try done; lia.
Qed.

(** Between two tests. *)
Definition between (kf kl t : Z) : () → fsx → W → Prop := λ _ s w,
  ∃ f, inv kf kl s f ∧ tracks s w f ∧ ready s f ∧ testcalls s = t.

Lemma fwp_test kf kl t s w :
  between (kf + 4) (kl + 2) t () s w → 0 ≤ kf → 0 ≤ kl → t < LONG_MAX →
  fwp (test cfg) s w (between kf kl (t + 1)).
Proof.
  intros (f & Hi & Ht & Hr & Etc) Hkf Hkl Hmax. unfold test. pose proof (wf_simulated Hcfg) as Hsim.
  apply wp_bind. eapply fwp_rnd; [done|]. intros rv w1 Hrv Ht1. apply wp_bind, wp_get, wp_bind.
  pose proof (inv_calls _ _ _ _ Hi) as Hpos.
  (** The file image, then the operation. *)
  eapply wp_mono with (Q := λ _ s1 w2, ∃ f1, inv (kf + 1 + 1 + 1) (kl + 1 + 1) s1 f1 ∧ tracks s1 w2 f1 ∧
    (simulatedopcount cfg ≤ t → bytes f1 = take (Z.to_nat (file_size s1)) (good_buf s1)) ∧ testcalls s1 = t).
  { destruct (decide (0 < simulatedopcount cfg ∧ t = simulatedopcount cfg)) as [[E1 E2]|Hno].
    - rewrite !bool_decide_true by lia. eapply wp_mono; [eapply (fwp_writefileimage (kf + 1 + 1 + 1) (kl + 1 + 1) _ _ f)|].
      + split_and!; [eapply inv_weaken; [done|lia|lia]|done|unfold live; lia].
      + lia.
      + intros _ s1 w2 (f1 & ? & ? & ? & ?). exists f1. split_and!; [done|done|done|lia].
    - replace (bool_decide _ && bool_decide _) with false.
      2: { symmetry. apply andb_false_iff. rewrite !bool_decide_eq_false. lia. }
      apply wp_ret. exists f. split_and!; [eapply inv_weaken; [done|lia|lia]|done| |done].
      intros Hle. apply Hr. lia. }
  intros _ s1 w2 (f1 & Hi1 & Ht2 & Hb & Etc1). apply wp_bind, wp_put. apply wp_bind.
  assert (u64 (testcalls s1 + 1) = t + 1) as Eu by (rewrite Etc1; unfold u64; apply Z.mod_small; clia). rewrite Eu.
  assert (fine (kf + 1 + 1 + 1) (kl + 1 + 1) (set_testcalls (t + 1) s1) w2 f1) as Hf1.
  { split_and!; [|done|]; [destruct Hi1; split; try done; cbn; lia|]. intros Hlt. cbn in Hlt. apply Hb. lia. }
  eapply wp_mono; [eapply fwp_perform; [exact Hf1|lia|lia]|]. cbn [testcalls set_testcalls].
  intros _ s2 w3 (f2 & Hf2 & Etc2). apply wp_bind, wp_get, wp_bind.
  (** The size check. *)
  eapply wp_mono with (Q := ok (kf + 1) (kl + 1) (t + 1)).
  { destruct (sizechecks cfg && _) eqn:E.
    - apply andb_prop in E as [_ E%bool_decide_eq_true]. rewrite <- Etc2. eapply fwp_check_size; [done|lia|done].
    - apply wp_ret. exists f2. split; [|done]. destruct Hf2 as (? & ? & ?). split; [|done]. eapply inv_weaken; [done|lia|lia]. }
  intros _ s3 w4 (f3 & Hf3 & Etc3).
  assert (∀ f' s' w', fine kf kl s' w' f' → testcalls s' = t + 1 → between kf kl (t + 1) () s' w') as Hend.
  { intros f' s' w' (? & ? & Hl) E. exists f'. split_and!; [done|done| |done]. intros Hc. apply Hl. rewrite E in *. lia. }
  assert (between kf kl (t + 1) () s3 w4) as Hdone.
  { apply (Hend f3); [|done]. destruct Hf3 as (? & ? & ?). split; [|done]. eapply inv_weaken; [done|lia|lia]. }
  destruct (decide (closeprob cfg = 0)); [by apply wp_ret|]. destruct (decide _); [|by apply wp_ret].
  eapply wp_mono; [eapply fwp_docloseopen; [exact Hf3|lia|lia]|]. intros [] s4 w5 (f4 & Hf4 & E4). eapply Hend; [done|lia].
Qed.

Lemma fwp_test_loop n : ∀ t kf kl s w,
  between (kf + 4 * Z.of_nat n) (kl + 2 * Z.of_nat n) t () s w → 0 ≤ kf → 0 ≤ kl → t + Z.of_nat n ≤ LONG_MAX →
  fwp (test_loop cfg n) s w (between kf kl (t + Z.of_nat n)).
Proof.
  induction n as [|n IH]; intros t kf kl s w Hb Hkf Hkl Ht; cbn [test_loop].
  - apply wp_ret. by rewrite !Z.add_0_r, ?Z.mul_0_r, ?Z.add_0_r in *.
  - apply wp_bind. eapply wp_mono.
    + apply (fwp_test (kf + 4 * Z.of_nat n) (kl + 2 * Z.of_nat n) t); [|lia..].
      replace (kf + 4 * Z.of_nat n + 4) with (kf + 4 * Z.of_nat (S n)) by lia.
      by replace (kl + 2 * Z.of_nat n + 2) with (kl + 2 * Z.of_nat (S n)) by lia.
    + intros [] s' w' Hb'. replace (t + Z.of_nat (S n)) with (t + 1 + Z.of_nat n) by lia. apply IH; [done|lia..].
Qed.

(** ** The program *)

(** The variables that opening and closing change. *)
Definition with_files (l : list Z) (c : list (call * reply)) (s : fsx) : fsx :=
  Fsx (original_buf s) (good_buf s) (temp_buf s) (maxfilelen s) (file_size s) (biggest s) (testcalls s) (badoff s)
    (fd_last s) l (oplogs s) c.

(** Every descriptor is open and at the start of the file. *)
Definition opened (l : list Z) (f : sfile) : Prop :=
  (∀ fd, fd ∈ l → pos f !! fd = Some 0) ∧ (strict = true → NoDup l ∧ ∀ fd, fd ∈ l → fd ∈ opens f).

Lemma fwp_open_loop n : ∀ i s w f, tracks s w f → opened (test_files s) f →
  fwp (open_loop cfg n i) s w (λ _ s' w', ∃ l c f', s' = with_files l c s ∧ length l = (length (test_files s) + n)%nat ∧
    tracks s' w' f' ∧ opened l f' ∧ (lite cfg = true → bytes f' = bytes f)).
Proof.
  induction n as [|n IH]; intros i s w f Ht Ho; cbn [open_loop].
  - apply wp_ret. exists (test_files s), (calls s), f. rewrite Nat.add_0_r. split_and!; try done. by destruct s.
  - apply wp_bind. eapply fwp_invoke; [done|done| |].
    2: { intros r w' _ Hs Hnone. cbn in Hnone. destruct (decide (ret r < 0)); [by apply wp_exit|done]. }
    intros r w' f' _ Hnew Hstep Ht'. cbn in Hstep, Hnew. destruct (decide (ret r < 0)); [done|]. injection Hstep as <-.
    apply wp_bind, wp_get, wp_bind, wp_put. eapply wp_mono; [eapply IH|].
    + exact Ht'.
    + destruct Ho as [Hp Ho]. split; cbn.
      * intros fd [Hfd| ->%list_elem_of_singleton]%elem_of_app; [|apply lookup_insert_eq].
        destruct (decide (ret r = fd)) as [->|]; [apply lookup_insert_eq|rewrite lookup_insert_ne by done; auto].
      * intros E. destruct (Ho E) as [Hnd Hin]. split; [|set_solver].
        apply NoDup_app. split_and!; [done| |apply NoDup_singleton]. intros x Hx ->%list_elem_of_singleton. by apply (Hnew E), Hin.
    + intros _ s' w2 (l & c & f2 & -> & Hlen & Ht2 & Ho2 & Hb2). exists l, c, f2. split_and!; try done.
      * rewrite Hlen. cbn. rewrite length_app. cbn. lia.
      * intros E. rewrite Hb2 by done. cbn. by rewrite E.
Qed.

Lemma fwp_close_loop l : ∀ s w f, tracks s w f → (strict = true → NoDup l ∧ ∀ fd, fd ∈ l → fd ∈ opens f) →
  fwp (close_loop l) s w (λ _ s' w', ∃ c f', s' = with_files (test_files s) c s ∧ tracks s' w' f' ∧ bytes f' = bytes f).
Proof.
  induction l as [|fd l IH]; intros s w f Ht Ho; cbn [close_loop].
  - apply wp_ret. exists (calls s), f. split_and!; [by destruct s|done|done].
  - apply wp_bind. eapply fwp_invoke; [done|intros E; apply Ho; [done|set_solver]| |].
    + intros r w' f' _ _ Hstep Ht'. cbn in Hstep. destruct (decide (ret r = 0)) as [E|]; [|done]. injection Hstep as <-.
      rewrite decide_False by congruence. eapply wp_mono; [eapply IH; [done|]|].
      * intros Es. destruct (Ho Es) as [[Hn Hnd]%NoDup_cons Hin]. split; [done|]. cbn. set_solver.
      * intros _ s2 w2 (c & f2 & -> & ? & ?). by exists c, f2.
    + intros r w' _ Hs Hnone. cbn in Hnone. destruct (decide (ret r = 0)); [done|]. rewrite decide_True by done. by apply wp_exit.
Qed.

Lemma fwp_random_bytes n : ∀ s w f (Q : list Z → fsx → W → Prop),
  tracks s w f → (∀ l w', length l = n → tracks s w' f → Q l s w') → fwp (random_bytes n) s w Q.
Proof.
  induction n as [|n IH]; intros s w f Q Ht Hq; cbn [random_bytes]; [by apply wp_ret, Hq|].
  apply wp_bind. eapply fwp_rnd; [done|]. intros r w1 _ Ht1. apply wp_bind. eapply IH; [done|].
  intros l w2 Hl Ht2. apply wp_ret, Hq; [cbn; by rewrite Hl|done].
Qed.

(** get_fd() before the buffers exist. *)
Lemma fwp_first_fd s w f (Q : Z → fsx → W → Prop) :
  tracks s w f → length (test_files s) = num_test_files cfg → 0 ≤ fd_last s < INT_MAX →
  (∀ fd n w', fd ∈ test_files s → 0 ≤ n ≤ fd_last s + 1 → tracks s w' f → Q fd (set_fd_last n s) w') →
  fwp (get_fd cfg) s w Q.
Proof.
  intros Ht Hlen Hlast Hq. pose proof (wf_files Hcfg) as Hnum. unfold get_fd, get_tf. apply wp_bind, wp_bind.
  assert (∀ x n w', tracks s w' f → 0 ≤ n ≤ fd_last s + 1 →
    fwp (if decide (num_test_files cfg = 0%nat) then lift Fault else mret (Z.to_nat (u32 x mod Z.of_nat (num_test_files cfg))))
      (set_fd_last n s) w' (λ tf s' w', fwp (tf_fd tf) s' w' Q)) as Hend.
  { intros x n w' Ht' Hn. rewrite decide_False by done. apply wp_ret. unfold tf_fd. apply wp_bind, wp_get.
    pose proof (Z.mod_pos_bound (u32 x) (Z.of_nat (num_test_files cfg))).
    destruct (lookup_lt_is_Some_2 (test_files s) (Z.to_nat (u32 x mod Z.of_nat (num_test_files cfg)))) as [fd Hfd]; [lia|].
    eapply wp_lift; [cbn; by rewrite Hfd|]. apply Hq; [by eapply list_elem_of_lookup_2|done|done]. }
  assert (s = set_fd_last (fd_last s) s) as Es by (by destruct s).
  destruct (policy cfg).
  - apply wp_ret. change 0 with (u32 0). rewrite Es at 1. apply Hend; [done|lia].
  - apply wp_bind, wp_get, wp_bind. eapply wp_lift; [apply i32_ok; clia|]. apply wp_bind, wp_put, wp_ret, Hend; [done|lia].
  - apply wp_bind. eapply fwp_rnd; [done|]. intros r w' _ Ht'. apply wp_ret. rewrite Es at 1. apply Hend; [done|lia].
Qed.

(** The state when the buffers are allocated. *)
Definition prepared (n sz x : Z) (l : list Z) (c : list (call * reply)) (original : list Z) : fsx :=
  Fsx original (replicate (Z.to_nat n) 0) (replicate (Z.to_nat (maxoplen cfg)) 0) n sz 0 0 (-1) x l (oplogs (start n)) c.

Lemma inv_prepared kf kl l c f n sz x original :
  length l = num_test_files cfg → (∀ fd, fd ∈ l → is_Some (pos f !! fd)) →
  (strict = true → NoDup l ∧ ∀ fd, fd ∈ l → fd ∈ opens f) → 0 ≤ n ≤ INT_MAX → (strict = true → n ≠ 0) → 0 ≤ sz ≤ n →
  (lite cfg = true → sz = n ∧ size f = n) → length original = Z.to_nat n → 0 ≤ x →
  (strict = true → x + kf ≤ INT_MAX ∧ kl ≤ INT_MAX) → inv kf kl (prepared n sz x l c original) f.
Proof.
  intros Hlen Hp Ho Hn Hne Hsz Hl Hor Hx Hk. pose proof (wf_oplen Hcfg).
  split; try done; cbn -[replicate]; rewrite ?length_replicate; try lia.
  split; [done|]. unfold LOGSIZE. lia.
Qed.

(** The size of the file for -L. *)
Lemma fwp_lite_size m l c w f :
  let s := with_files l c (start m) in
  strict = true → tracks s w f → length l = num_test_files cfg → opened l f → 0 < size f →
  fwp (fd ← get_fd cfg; r ← invoke (CSeekEnd fd); _ ← put (λ s, set_file_size (ret r) (set_maxfilelen (ret r) s));
       if decide (ret r = -1) then exit 94
       else r ← invoke (CSeekSet fd 0); if decide (ret r = -1) then exit 95 else mret ()) s w
    (λ _ s' w', ∃ c' x f', s' = set_fd_last x (with_files l c' (set_file_size (size f) (start (size f)))) ∧ 0 ≤ x ≤ 1 ∧
      tracks s' w' f' ∧ opened l f' ∧ bytes f' = bytes f).
Proof.
  intros s Hs Ht Hlen Ho Hsz. apply wp_bind. eapply fwp_first_fd; [done|done|cbn; clia|]. intros fd x w1 Hfd Hx Ht1. cbn in Hfd, Hx.
  destruct Ho as [Hp Ho]. destruct (Ho Hs) as [Hnd Hin]. apply wp_bind. eapply fwp_invoke; [exact Ht1|intros _; by apply Hin| |congruence].
  intros r w2 f2 _ _ Hstep Ht2. cbn in Hstep. destruct (decide (ret r = size f)) as [E|]; [|done]. injection Hstep as <-.
  apply wp_bind, wp_put. rewrite decide_False by lia. apply wp_bind. eapply fwp_invoke; [exact Ht2|intros _; split; [by apply Hin|done]| |congruence].
  intros r' w3 f3 _ _ Hstep Ht3. cbn in Hstep. destruct (decide (ret r' = -1)); [done|]. injection Hstep as <-.
  apply wp_ret. eexists _, x, _. rewrite E. split_and!; [reflexivity|lia|lia|exact Ht3| |done]. split; [|done]. cbn. intros fd' Hfd'.
  destruct (decide (fd = fd')) as [->|]; [apply lookup_insert_eq|rewrite !lookup_insert_ne by done; auto].
Qed.

(** The contents of the file before the first operation. *)
Lemma fwp_contents n sz x l c original w f :
  let s := prepared n sz x l c original in
  tracks s w f → length l = num_test_files cfg → opened l f → 0 ≤ x ≤ 1 → 0 ≤ n →
  (lite cfg = true → strict = true ∧ sz = n ∧ size f = n) → (lite cfg = false → sz = 0) →
  fwp (if lite cfg then fd ← get_fd cfg; good ← get good_buf; r ← invoke (CWrite fd good); if decide (ret r ≠ n) then exit 98 else mret ()
       else check_trunc_hack cfg) s w
    (λ _ s' w', ∃ x' c' f', s' = prepared n sz x' l c' original ∧ 0 ≤ x' ≤ 2 ∧ tracks s' w' f' ∧
      (∀ fd, fd ∈ l → is_Some (pos f' !! fd)) ∧ (strict = true → ∀ fd, fd ∈ l → fd ∈ opens f') ∧
      bytes f' = take (Z.to_nat sz) (replicate (Z.to_nat n) 0) ∧ (lite cfg = true → size f' = n)).
Proof.
  intros s Ht Hlen [Hp Ho] Hx Hn Hl Hnl. destruct (lite cfg) eqn:El.
  - destruct (Hl eq_refl) as (Hs & -> & Hsz). destruct (Ho Hs) as [_ Hin].
    apply wp_bind. eapply fwp_first_fd; [done|done|cbn; clia|]. intros fd x' w1 Hfd Hx' Ht1. cbn in Hfd, Hx'.
    apply wp_bind, wp_get, wp_bind. eapply fwp_invoke; [exact Ht1|intros _; by apply Hin| |congruence].
    intros r w2 f2 _ _ Hstep Ht2. cbn -[replicate] in Hstep. rewrite (Hp fd Hfd), length_replicate in Hstep. cbn -[replicate] in Hstep.
    destruct (decide _) as [E|]; [|done]. injection Hstep as <-. rewrite decide_False by lia. apply wp_ret.
    assert (store (bytes f) 0 (replicate (Z.to_nat n) 0) = replicate (Z.to_nat n) 0) as Hst.
    { unfold store. cbn [take app]. rewrite take_0, length_replicate, drop_ge; [by rewrite app_nil_r|]. unfold size in Hsz. lia. }
    eexists x', _, _. split_and!; [reflexivity|lia|lia|exact Ht2| |done| |].
    + intros fd' Hfd'. apply insert_is_Some. by rewrite Hp.
    + cbn -[replicate]. change (Z.to_nat 0) with 0%nat. rewrite Hst, take_ge; [done|]. by rewrite length_replicate.
    + intros _. unfold size. cbn -[replicate]. change (Z.to_nat 0) with 0%nat. rewrite Hst, length_replicate. lia.
  - specialize (Hnl eq_refl) as ->. unfold check_trunc_hack. apply wp_bind. eapply fwp_first_fd; [done|done|cbn; clia|].
    intros fd x' w1 Hfd Hx' Ht1. cbn in Hfd, Hx'. assert (strict = true → fd ∈ opens f) as Hop by (intros E; by apply Ho).
    apply wp_bind. eapply fwp_invoke; [exact Ht1|by intros ?; split; [apply Hop|]| |done]. intros r2 w2 f2 _ _ Hstep Ht2. injection Hstep as <-.
    apply wp_bind. eapply fwp_invoke; [exact Ht2|by intros ?; split; [apply Hop|]| |done]. intros r3 w3 f3 _ _ Hstep Ht3. injection Hstep as <-.
    apply wp_bind. eapply fwp_invoke; [exact Ht3|done| |].
    2: { intros r4 w4 _ Hs Hnone. cbn [file_step] in Hnone. destruct (decide (ret r4 = _)) as [|Hne]; [done|].
         unfold size in Hne. cbn [bytes] in Hne. rewrite length_resize in Hne. rewrite decide_True by lia. by apply wp_exit. }
    intros r4 w4 f4 _ _ Hstep Ht4. cbn [file_step] in Hstep. destruct (decide (ret r4 = _)) as [E|]; [|done]. injection Hstep as <-.
    unfold size in E. cbn [bytes] in E. rewrite length_resize in E. rewrite decide_False by lia.
    apply wp_bind. eapply fwp_invoke; [exact Ht4|by intros ?; split; [apply Hop|]| |done]. intros r5 w5 f5 _ _ Hstep Ht5. injection Hstep as <-.
    apply wp_ret. eexists x', _, _. split_and!; [reflexivity|lia|lia|exact Ht5| | | |done].
    + intros fd' Hfd'. cbn. by rewrite Hp.
    + intros Hs fd' Hfd'. by apply Ho.
    + cbn. by rewrite take_0, resize_0.
Qed.

(** The whole program on a system that behaves like the file, or with no failure. *)
Lemma fwp_run numops m w :
  (strict = true → rel w f0) → (lite cfg = true → strict = true ∧ 0 < size f0 ≤ INT_MAX) →
  (lite cfg = false → 0 ≤ m ≤ INT_MAX ∧ (strict = true → m ≠ 0)) → Z.of_nat numops ≤ LONG_MAX →
  (strict = true → 4 * Z.of_nat numops + 2 ≤ INT_MAX) →
  fwp (run cfg numops) (start m) w (λ _ s' w', ∃ f, tracks s' w' f ∧ ready s' f ∧ testcalls s' = Z.of_nat numops).
Proof.
  intros Hw Hl Hnl Hn Hroom. unfold run, open_test_files. apply wp_bind.
  eapply wp_mono; [eapply (fwp_open_loop _ 0 (start m) w f0)|].
  { by split. }
  { split; [set_solver|]. intros _. split; [apply NoDup_nil_2|set_solver]. }
  intros _ s1 w1 (l & c & f1 & -> & Hlen & Ht1 & Ho1 & Hb1). cbn in Hlen. apply wp_bind.
  eapply wp_mono with (Q := λ _ s' w', ∃ n sz c' x f', s' = set_fd_last x (with_files l c' (set_file_size sz (start n))) ∧ 0 ≤ x ≤ 1 ∧
      tracks s' w' f' ∧ opened l f' ∧ 0 ≤ n ≤ INT_MAX ∧ 0 ≤ sz ≤ n ∧ (strict = true → n ≠ 0) ∧
      (lite cfg = true → strict = true ∧ sz = n ∧ size f' = n) ∧ (lite cfg = false → sz = 0)).
  { destruct (lite cfg) eqn:El.
    - destruct (Hl eq_refl) as [Hs Hsz]. assert (size f1 = size f0) as Hsz1 by (unfold size; by rewrite Hb1).
      eapply wp_mono; [eapply fwp_lite_size; [done|done|done|done|lia]|].
      intros _ s2 w2 (c' & x & f2 & -> & Hx & Ht2 & Ho2 & Hb2). exists (size f1), (size f1), c', x, f2.
      split_and!; try done; try lia. intros _. split_and!; [done|done|]. unfold size. by rewrite Hb2.
    - apply wp_ret. exists m, 0, c, 0, f1. destruct (Hnl eq_refl). split_and!; try done; lia. }
  intros _ s2 w2 (n & sz & c2 & x & f2 & -> & Hx & Ht2 & Ho2 & Hnm & Hsz & Hne & Hl2 & Hnl2).
  apply wp_bind, wp_get. cbn [maxfilelen set_fd_last with_files set_file_size start]. apply wp_bind.
  eapply fwp_random_bytes; [exact Ht2|]. intros original w3 Hor Ht3. apply wp_bind, wp_put.
  match goal with |- fwp _ ?s _ _ => change s with (prepared n sz x l c2 original) end.
  apply wp_bind. eapply wp_mono; [eapply fwp_contents; [exact Ht3|done|done|done|lia|done|done]|].
  intros _ s4 w4 (x' & c4 & f4 & -> & Hx' & Ht4 & Hp4 & Ho4 & Hb4 & Hs4). apply wp_bind.
  eapply wp_mono; [apply (fwp_test_loop numops 0 0 0); [|lia..]|].
  - exists f4. split_and!; [|done|by intros _|done]. apply inv_prepared; try done; try lia.
    + intros E. split; [apply Ho2, E|by apply Ho4].
    + intros E. destruct (Hl2 E) as (_ & ? & _). auto.
    + intros E. specialize (Hroom E). lia.
  - intros _ s5 w5 (f5 & Hi5 & Ht5 & Hr5 & E5). unfold close_test_files. apply wp_bind, wp_get.
    eapply wp_mono; [eapply fwp_close_loop; [done|]; apply (inv_open _ _ _ _ Hi5)|].
    intros _ s6 w6 (c6 & f6 & -> & Ht6 & Hb6). exists f6. split_and!; [done| |done]. unfold ready. rewrite Hb6. exact Hr5.
Qed.
End fwp.
