(* ===== verification/FsxRun.v ===== *)
(** * The results about fsx

    A file system in memory that behaves like the file of FsxFile, the theorems about
    whole runs of fsx, and the log of the last operations. *)
From stdpp Require Import base numbers option list gmap.
From S2P Require Import Prelude CInt CMem Steps Fsx FsxFile FsxSpec.

#[local] Open Scope Z_scope.

(** ** A file in memory *)

(** The file, the next descriptor or address, and the state of random(). *)
Record mem := Mem { mfile : sfile; next : Z; seed : Z }.

Definition mem_reply (w : mem) (c : call) : reply :=
  let f := mfile w in
  match c with
  | COpen _ _ | CMmap _ _ _ => Reply (next w) []
  | CSeekEnd _ | CFstat _ => Reply (size f) []
  | CRead fd n =>
      match pos f !! fd with
      | Some p => let d := take (Z.to_nat n) (drop (Z.to_nat p) (bytes f)) in Reply (Z.of_nat (length d)) d
      | None => Reply (-1) []
      end
  | CWrite fd bs => Reply (Z.of_nat (length bs)) []
  | CLoad p off n => Reply 0 (resize (Z.to_nat n) 0 (drop (Z.to_nat (default 0 (maps f !! p) + off)) (bytes f)))
  | _ => Reply 0 []
  end.

Definition mem_sys (c : call) (w : mem) : reply * mem :=
  let r := mem_reply w c in (r, Mem (default (mfile w) (file_step (mfile w) c r)) (next w + 1) (seed w)).

Definition mem_random (w : mem) : Z * mem :=
  let x := (seed w * 1103515245 + 12345) mod 2147483648 in (x, Mem (mfile w) (next w) x).

#[export] Program Instance mem_world : FsWorld mem := {| sys := mem_sys; random := mem_random |}.
Next Obligation. intros w. cbn. pose proof (Z.mod_pos_bound (seed w * 1103515245 + 12345) 2147483648). clia. Qed.
Next Obligation.
  intros c w. destruct c; cbn; try done; try lia.
  - destruct (pos _ !! fd); cbn; [rewrite length_take|]; lia.
  - rewrite length_resize. lia.
Qed.

(** Every open descriptor has a position, and the next one is new. *)
Definition mem_is (w : mem) (f : sfile) : Prop :=
  mfile w = f ∧ 0 ≤ next w ∧ ∀ fd, fd ∈ opens f → fd < next w ∧ is_Some (pos f !! fd).

Lemma mem_is_step w f f' c :
  mem_is w f → file_step f c (mem_reply w c) = Some f' → opens f' ⊆ {[next w]} ∪ opens f →
  (∀ fd, fd ∈ opens f' → fd = next w ∨ is_Some (pos f !! fd) → is_Some (pos f' !! fd)) → mem_is (mem_sys c w).2 f'.
Proof.
  intros (<- & Hnext & Hop) Hstep Ho Hp. unfold mem_sys. rewrite Hstep. split; [done|]. split; [cbn; lia|].
  intros fd Hfd. cbn [next snd]. destruct (decide (fd = next w)) as [->|Hne]; [split; [lia|auto]|].
  destruct (Hop fd) as [Hlt Hs]; [set_solver|]. split; [lia|auto].
Qed.

#[export] Program Instance mem_posix pagesize : PosixFile mem pagesize := {| is_file := mem_is |}.
Next Obligation.
  intros pagesize w f c Hw Hsane. pose proof Hw as (Hf & Hnext & Hop).
  assert (∃ f', file_step f c (mem_reply w c) = Some f' ∧ opens f' ⊆ {[next w]} ∪ opens f ∧
    ∀ fd, fd ∈ opens f' → fd = next w ∨ is_Some (pos f !! fd) → is_Some (pos f' !! fd)) as (f' & Hstep & Ho & Hp).
  { assert (∀ fd, fd ∈ opens f → fd = next w ∨ is_Some (pos f !! fd) → is_Some (pos f !! fd)) as Hsame by (intros fd Hfd; apply Hop in Hfd; naive_solver).
    assert (opens f ⊆ {[next w]} ∪ opens f) as Hsub by set_solver.
    subst f. destruct c; cbn [file_step mem_reply ret data sane] in *.
    - rewrite decide_False by lia. eexists. split; [done|]. cbn. split; [done|]. intros fd _ Hfd. destruct Hfd as [->|Hfd].
      + rewrite lookup_insert_eq. eauto.
      + by apply insert_is_Some.
    - rewrite decide_True by done. eexists. split; [done|]. cbn. split; [set_solver|]. intros fd' Hfd'. apply Hsame. set_solver.
    - rewrite decide_False by done. eexists. split; [done|]. cbn. split; [done|]. intros; apply insert_is_Some; auto.
    - rewrite decide_True by done. eexists. split; [done|]. cbn. split; [done|]. intros; apply insert_is_Some; auto.
    - rewrite decide_True by done. eauto.
    - destruct Hsane as [Hin _]. destruct (Hop fd Hin) as [_ [p Hp]]. rewrite Hp. cbn. rewrite decide_True by done.
      eexists. split; [done|]. cbn. split; [done|]. intros; apply insert_is_Some; auto.
    - destruct (Hop fd Hsane) as [_ [p Hp]]. rewrite Hp. cbn. rewrite decide_True by done.
      eexists. split; [done|]. cbn. split; [done|]. intros; apply insert_is_Some; auto.
    - eauto.
    - rewrite decide_False by lia. eauto.
    - destruct Hsane as (m & Hm & H1 & H2 & H3 & H4). rewrite Hm. cbn. unfold size in H4. rewrite decide_True; [eauto|].
      rewrite resize_le; [done|]. rewrite length_drop. lia.
    - destruct Hsane as (m & Hm & _). rewrite Hm. cbn. eauto.
    - rewrite decide_True by done. eauto.
    - rewrite decide_True by done. eauto. }
  split.
  - destruct c; cbn; try done. intros Hin. apply Hop in Hin. lia.
  - exists f'. split; [done|]. by apply (mem_is_step _ f).
Qed.
Next Obligation. by intros pagesize w f (? & ? & ?). Qed.

(** ** Whole runs *)

(** main() with what holds at the end of [run]. *)
Lemma main_of_run {W} `{FsWorld W} strict cfg numops s w (Q : () → fsx → W → Prop) :
  wp (strict = false) (λ c _ _, strict = false ∧ c ≠ 0) (run cfg numops) s w Q →
  match main cfg numops s w with
  | Done (Exits c, s', w') => if decide (c = 0) then Q () s' w' else strict = false
  | Fault => strict = false
  | _ => False
  end.
Proof.
  unfold wp, main, mbind, prog_bind. destruct (run cfg numops s w) as [[[[[]|c] s'] w']| |]; cbn; try done.
  intros [? ?]. by rewrite decide_False.
Qed.

Lemma run_completes {W} `{PosixFile W pagesize} cfg numops maxlen w f :
  is_file w f → wf_config pagesize cfg → (if lite cfg then 0 < size f ≤ INT_MAX else 0 < maxlen ≤ INT_MAX) →
  4 * Z.of_nat numops + 2 ≤ INT_MAX →
  ∃ s' w' f', main cfg numops (start maxlen) w = Done (Exits 0, s', w') ∧ is_file w' f' ∧
    ready cfg s' f' ∧ testcalls s' = Z.of_nat numops.
Proof.
  intros Hw Hcfg Hlen Hn.
  pose proof (fwp_run true pagesize is_file f (λ _, sys_ok) (λ _, random_ok) cfg Hcfg numops maxlen w) as Hrun.
  apply main_of_run in Hrun.
  - destruct (main _ _ _ _) as [[[[a|c] s'] w']| |]; [done| |done|done]. destruct (decide (c = 0)) as [->|]; [|done].
    destruct Hrun as (f' & [_ Hf'] & Hr & E). exists s', w', f'. split_and!; auto.
  - done.
  - intros E. by rewrite E in Hlen.
  - intros E. rewrite E in Hlen. lia.
  - clia.
  - done.
Qed.

(** C10: on a file system that behaves like the file fsx never reports an error: every
    run with options that main() accepts goes through all its operations and exits with
    status 0, without an overflow or an access outside a buffer; and when it has more
    operations than are simulated the file holds the good buffer at the end.  The
    lengths of the operations are below the largest int, the largest file length is
    between 1 and the largest int, and with -L that of a file that is not empty, and four times the number of operations fits an int. *)
Theorem fsx_correct_fs {W} `{PosixFile W pagesize} cfg numops maxlen w f :
  is_file w f → wf_config pagesize cfg → (if lite cfg then 0 < size f ≤ INT_MAX else 0 < maxlen ≤ INT_MAX) →
  4 * Z.of_nat numops + 2 ≤ INT_MAX →
  ∃ s' w' f', main cfg numops (start maxlen) w = Done (Exits 0, s', w') ∧ testcalls s' = Z.of_nat numops ∧ is_file w' f' ∧
    (simulatedopcount cfg < Z.of_nat numops → bytes f' = take (Z.to_nat (file_size s')) (good_buf s')).
Proof.
  intros Hw Hcfg Hlen Hn. destruct (run_completes cfg numops maxlen w f) as (s' & w' & f' & Hm & Hf & Hr & E); [done..|].
  exists s', w', f'. split_and!; [done|done|done|]. intros Hlt. apply Hr. rewrite E. by right.
Qed.

Definition empty_file : sfile := SFile [] ∅ ∅ ∅.
Definition two_files : config := Config 3 5 16 4 4 1 true false true true true 4096 FD_ROTATE 2.

Lemma two_files_wf : wf_config 4096 two_files.
Proof. split; cbn; try clia. split; [done|]. by exists 12. Qed.

Lemma fresh_mem : is_file (PosixFile := mem_posix 4096) (Mem empty_file 3 1) empty_file.
Proof. split; [done|]. split; [cbn; lia|]. intros fd Hfd. cbn in Hfd. set_solver. Qed.

Lemma fsx_correct_fs_witness :
  ∃ s' w', main two_files 1000 (start 64) (Mem empty_file 3 1) = Done (Exits 0, s', w').
Proof.
  destruct (fsx_correct_fs (pagesize := 4096) two_files 1000 64 (Mem empty_file 3 1) empty_file) as (s' & w' & _ & Hm & _).
  - exact fresh_mem.
  - exact two_files_wf.
  - cbn. clia.
  - clia.
  - exists s', w'. exact Hm.
Defined.

(** C9: whatever the file system does, a run of fsx without -L that ends with status 0
    proves that it behaved like the file as far as fsx looks: there is a file that, call
    by call and in this order, gives the recorded data of every read and mapped read,
    the size of every fstat() and lseek() to the end, and the count of every write, and
    whose open(), close(), mmap(), msync() and munmap() succeed.  Where lseek() says it
    is when it does not fail, which fsx does not look at, and what ftruncate() returns,
    which it ignores at the start, are not part of this.  When the run has more operations than are simulated, so that some are
    done, the file then holds the good buffer. *)
Theorem fsx_oracle {W} `{FsWorld W} cfg numops maxlen w s' w' f :
  wf_config (page_size cfg) cfg → lite cfg = false → 0 ≤ maxlen ≤ INT_MAX → Z.of_nat numops ≤ LONG_MAX →
  main cfg numops (start maxlen) w = Done (Exits 0, s', w') →
  ∃ f', replay f (calls s') = Some f' ∧
    (simulatedopcount cfg < Z.of_nat numops → bytes f' = take (Z.to_nat (file_size s')) (good_buf s')).
Proof.
  intros Hcfg Hl Hlen Hn Hm.
  pose proof (fwp_run false (page_size cfg) (λ _ _, True) f ltac:(done) ltac:(done) cfg Hcfg numops maxlen w) as Hrun.
  apply main_of_run in Hrun; [|done|by rewrite Hl|done|done|done]. rewrite Hm in Hrun.
  destruct Hrun as (f' & [Hr _] & Hready & E). exists f'. split; [done|]. intros Hlt. apply Hready. rewrite E. by right.
Qed.

Lemma fsx_oracle_witness :
  ∃ s' w' f', main two_files 1000 (start 64) (Mem empty_file 3 1) = Done (Exits 0, s', w') ∧
    replay empty_file (calls s') = Some f'.
Proof.
  destruct (run_completes (pagesize := 4096) two_files 1000 64 (Mem empty_file 3 1) empty_file) as (s' & w' & _ & Hm & _);
    [exact fresh_mem|exact two_files_wf|cbn; clia|clia|].
  destruct (fsx_oracle two_files 1000 64 (Mem empty_file 3 1) s' w' empty_file) as (f' & Hr & _).
  - exact two_files_wf.
  - reflexivity.
  - clia.
  - clia.
  - exact Hm.
  - exists s', w', f'. split; [exact Hm|exact Hr].
Defined.

(** ** The log of the last operations *)

Fixpoint log_all (es : list log_entry) (l : log) : outcome log :=
  match es with
  | [] => Done l
  | e :: es' => l' ← log_add e l; log_all es' l'
  end.

(** The ring after the entries [es]. *)
Record ring (es : list log_entry) (l : log) : Prop := {
  ring_length : length (oplog l) = LOGSIZE;
  ring_ptr : logptr l = (length es mod LOGSIZE)%nat;
  ring_count : logcount l = Z.of_nat (length es);
  ring_entry j : (j < length es)%nat → (length es ≤ j + LOGSIZE)%nat → oplog l !! (j mod LOGSIZE)%nat = es !! j
}.

Lemma mod_below a b n : (a < b)%nat → (b < a + n)%nat → (a mod n ≠ b mod n)%nat.
Proof.
  intros Hab Hb E. pose proof (Nat.div_mod_eq a n). pose proof (Nat.div_mod_eq b n).
  assert (a / n < b / n ∨ b / n ≤ a / n)%nat as [|] by lia; nia.
Qed.

Lemma mod_succ a n : (0 < n)%nat → (S a mod n = if decide (n ≤ S (a mod n)) then 0 else S (a mod n))%nat.
Proof.
  intros Hn. pose proof (Nat.div_mod_eq a n). pose proof (Nat.mod_upper_bound a n). destruct (decide _).
  - symmetry. apply (Nat.mod_unique _ _ (S (a / n))); lia.
  - symmetry. apply (Nat.mod_unique _ _ (a / n)); lia.
Qed.

Lemma ring_add es l e :
  ring es l → Z.of_nat (length es) < INT_MAX → ∃ l', log_add e l = Done l' ∧ ring (es ++ [e]) l'.
Proof.
  intros [Hlen Hptr Hcnt Hent] Hmax. unfold log_add.
  assert (length es mod LOGSIZE < LOGSIZE)%nat as Hlt by (apply Nat.mod_upper_bound; done).
  rewrite decide_True by lia. rewrite Hcnt, i32_ok by clia. eexists. split; [done|].
  split; cbn [oplog logptr logcount]; rewrite ?length_insert, ?length_app; cbn [length].
  - done.
  - rewrite Nat.add_1_r, mod_succ, Hptr by (unfold LOGSIZE; lia). done.
  - lia.
  - intros j Hj Hlast. rewrite Hptr. destruct (decide (j = length es)) as [->|Hne].
    + rewrite list_lookup_insert_eq by lia. by rewrite list_lookup_middle.
    + rewrite lookup_app_l by lia. rewrite list_lookup_insert_ne by (apply not_eq_sym, mod_below; lia). apply Hent; lia.
Qed.

Lemma ring_all new : ∀ es l, ring es l → Z.of_nat (length es + length new) ≤ INT_MAX →
  ∃ l', log_all new l = Done l' ∧ ring (es ++ new) l'.
Proof.
  induction new as [|e new IH]; intros es l Hr Hmax; cbn [log_all].
  - exists l. by rewrite app_nil_r.
  - cbn in Hmax. destruct (ring_add es l e Hr) as (l1 & -> & Hr1); [lia|]. cbn [mbind outcome_bind].
    destruct (IH (es ++ [e]) l1 Hr1) as (l2 & -> & Hr2); [rewrite length_app; cbn; lia|]. exists l2. by rewrite <- app_assoc in Hr2.
Qed.

Lemma ring_start n : ring [] (oplogs (start n)).
Proof. split; cbn; [done..|]. intros j Hj. lia. Qed.

(** The number printed with entry [j] of [n]. *)
Definition printed (n j : nat) : Z := Z.of_nat (j mod LOGSIZE) + 1 + Z.of_nat (n / LOGSIZE) * Z.of_nat LOGSIZE.

Lemma logdump_loop_ring es l k : ∀ a, ring es l → (a + k ≤ length es)%nat → (length es ≤ a + LOGSIZE)%nat →
  logdump_loop k (a mod LOGSIZE) l = imap (λ i e, (printed (length es) (a + i), e)) (take k (drop a es)).
Proof.
  induction k as [|k IH]; intros a Hr Hk Ha; cbn [logdump_loop]; [by rewrite take_0|].
  destruct (lookup_lt_is_Some_2 es a) as [e He]; [lia|].
  rewrite (ring_entry _ _ Hr a), He, (ring_count _ _ Hr) by lia. erewrite (drop_S es) by done. cbn [take imap]. f_equal.
  - f_equal. unfold printed. rewrite Nat.add_0_r. rewrite Nat2Z.inj_div. by rewrite Z.quot_div_nonneg by (unfold LOGSIZE; lia).
  - assert ((if decide (S (a mod LOGSIZE) = LOGSIZE) then 0 else S (a mod LOGSIZE)) = S a mod LOGSIZE)%nat as ->.
    { assert (a mod LOGSIZE < LOGSIZE)%nat by (apply Nat.mod_upper_bound; done). rewrite (mod_succ a) by (unfold LOGSIZE; lia).
      do 2 destruct (decide _); lia. }
    rewrite IH by (done || lia). apply imap_ext. intros i x _. cbn. do 2 f_equal. lia.
Qed.

Lemma logdump_ring es l : ring es l →
  logdump l = imap (λ i e, (printed (length es) (length es - LOGSIZE + i), e)) (drop (length es - LOGSIZE) es).
Proof.
  intros Hr. unfold logdump. rewrite (ring_count _ _ Hr), (ring_ptr _ _ Hr), Nat2Z.id. destruct (decide _) as [Hlt|Hge].
  - replace (length es - LOGSIZE)%nat with 0%nat by lia. change 0%nat with (0 mod LOGSIZE)%nat at 1.
    rewrite (logdump_loop_ring es) by (done || lia). by rewrite take_ge.
  - replace (length es mod LOGSIZE)%nat with ((length es - LOGSIZE) mod LOGSIZE)%nat.
    + rewrite (logdump_loop_ring es) by (done || lia). rewrite take_ge; [done|]. rewrite length_drop. lia.
    + rewrite <- (Nat.Div0.mod_add (length es - LOGSIZE) 1). f_equal. lia.
Qed.

(** the log is a ring of the last operations: after any number of operations
    logdump() prints exactly the last 1000 of them, or all when there are fewer,
    oldest first. *)
Theorem logdump_last es n :
  Z.of_nat (length es) ≤ INT_MAX →
  ∃ l, log_all es (oplogs (start n)) = Done l ∧ (logdump l).*2 = drop (length es - LOGSIZE) es.
Proof.
  intros Hmax. destruct (ring_all es [] (oplogs (start n)) (ring_start n) Hmax) as (l & Hl & Hr). exists l. split; [done|].
  cbn [app] in Hr. rewrite (logdump_ring es l Hr). apply list_eq. intros i. rewrite list_lookup_fmap, list_lookup_imap.
  by destruct (drop _ es !! i).
Qed.

Lemma logdump_last_witness :
  ∃ l, log_all (replicate 1500 (LogEntry 1 [0; 0; 0])) (oplogs (start 8)) = Done l ∧ length (logdump l) = 1000%nat.
Proof.
  destruct (logdump_last (replicate 1500 (LogEntry 1 [0; 0; 0])) 8) as (l & Hl & Hd).
  - rewrite length_replicate. clia.
  - exists l. split; [exact Hl|]. rewrite <- (length_fmap snd), Hd, length_drop, length_replicate. reflexivity.
Defined.

(** the numbers logdump() prints: entry [j] is operation [j + 1], which is the
    number printed as long as the log has not wrapped; once it has, the entries of
    the lap before the last get a number that is 1000 too high. *)
Theorem logdump_numbers es n j :
  Z.of_nat (length es) ≤ INT_MAX → (length es - LOGSIZE ≤ j < length es)%nat →
  ∃ l, log_all es (oplogs (start n)) = Done l ∧
  (logdump l).*1 !! (j - (length es - LOGSIZE))%nat =
    Some (Z.of_nat j + 1 + if decide (j / LOGSIZE = length es / LOGSIZE)%nat then 0 else Z.of_nat LOGSIZE).
Proof.
  intros Hmax Hj. destruct (ring_all es [] (oplogs (start n)) (ring_start n) Hmax) as (l & Hl & Hr). exists l. split; [done|].
  cbn [app] in Hr. rewrite (logdump_ring es l Hr), list_lookup_fmap, list_lookup_imap, lookup_drop.
  replace (length es - LOGSIZE + (j - (length es - LOGSIZE)))%nat with j by lia.
  destruct (lookup_lt_is_Some_2 es j) as [e He]; [lia|]. rewrite He. cbn [fmap option_fmap option_map fst]. f_equal.
  unfold printed. pose proof (Nat.div_mod_eq j LOGSIZE). pose proof (Nat.div_mod_eq (length es) LOGSIZE).
  pose proof (Nat.mod_upper_bound j LOGSIZE). pose proof (Nat.mod_upper_bound (length es) LOGSIZE).
  unfold LOGSIZE in *. destruct (decide _); nia.
Qed.

Lemma logdump_numbers_witness :
  ∃ l, log_all (replicate 1500 (LogEntry 1 [0; 0; 0])) (oplogs (start 8)) = Done l ∧ (logdump l).*1 !! 100%nat = Some 1601.
Proof.
  destruct (logdump_numbers (replicate 1500 (LogEntry 1 [0; 0; 0])) 8 600) as (l & Hl & Hd).
  - rewrite length_replicate. clia.
  - rewrite length_replicate. unfold LOGSIZE. lia.
  - exists l. split; [exact Hl|]. rewrite length_replicate in Hd. exact Hd.
Defined.
