(* ===== verification/Fsstress.v ===== *)
(** * The file system stress program (src/testcases/kernel/fs/fsstress/fsstress.c)

    fsstress creates, links, renames, removes, reads and writes files at random, and
    keeps lists of the files it made: for each kind of file an array of the numbers of
    the files and of their directories.  Names are computed from the numbers, and a
    cache maps the number of a directory to its slot.  The model has the lists, the
    cache, the names, the calls on names that are too long for the system, every
    operation and the table the operations are drawn from, as the program is built by
    its Makefile (with NO_XFS).  The system and random() are the class [Kernel]; the
    processes that main() starts and the usage text are left out. *)
From stdpp Require Import base strings numbers option list.
From Stdlib Require Import Ascii.
From S2P Require Import Prelude CInt CText Steps.

#[local] Open Scope Z_scope.

Abbreviation text := (list ascii).

(** ** The system *)

Definition ENAMETOOLONG : Z := 36.
Definition EIO : Z := 5.
Definition O_RDONLY : Z := 0.
Definition O_WRONLY : Z := 1.
Definition PATH_MAX : Z := 4096.

(** The calls.  opendir() gives a number, -1 for NULL; [CReaddir] reads to the end of
    the directory; posix_memalign() gives its error. *)
Inductive call :=
  | CCreat (path : text) (mode : Z) | CMkdir (path : text) (mode : Z) | CMknod (path : text) (mode dev : Z)
  | CSymlink (val path : text) | CLink (old new : text) | CRename (old new : text)
  | CUnlink (path : text) | CRmdir (path : text) | CChdir (path : text)
  | CLchown (path : text) (uid gid : Z) | CLstat (path : text) | CStat (path : text)
  | CTruncate (path : text) (length : Z) | COpen (path : text) (flags : Z) | COpendir (path : text)
  | CReadlink (path : text) (size : Z)
  | CReaddir (dir : Z) | CClosedir (dir : Z) | CClose (fd : Z) | CFstat (fd : Z) | CLseek (fd off : Z)
  | CGetfl (fd : Z) | CSetDirect (fd : Z) (flags : Z) | CRead (fd len : Z) | CWrite (fd byte len : Z)
  | CFsync (fd : Z) | CFdatasync (fd : Z) | CSync | CMemalign (align len : Z).

(** The return value, errno of a call that fails, and for the stat() calls the size
    and the block size. *)
Record reply := Reply { ret : Z; err : Z; st_size : Z; st_blksize : Z }.

(** What every reply satisfies: a call that fails has a reason, chdir() gives 0
    or -1, the results of readlink() fit the buffer, the stat() calls give sizes and posix_memalign() an
    error number. *)
Definition reply_wf (c : call) (r : reply) : Prop :=
  (ret r < 0 → 0 < err r) ∧
  match c with
  | CReadlink _ n => 0 ≤ ret r → ret r ≤ n
  | CChdir _ => ret r ≤ 0
  | CFstat _ => 0 ≤ ret r → 0 ≤ st_size r ≤ LONG_MAX - 1048576 ∧ 0 < st_blksize r ≤ INT_MAX
  | CStat _ => 0 ≤ ret r → 0 ≤ st_size r ≤ LONG_MAX - 1048576
  | CMemalign _ _ => 0 ≤ ret r
  | _ => True
  end.

Class Kernel (W : Type) := {
  sys : call → W → reply * W;
  random : W → Z * W;
  random_range w : 0 ≤ (random w).1 ≤ INT_MAX;
  sys_wf c w : reply_wf c (sys c w).1
}.

(** ** Settings and variables *)

Inductive ftype := FT_DIR | FT_REG | FT_SYM | FT_DEV | FT_RTF.
#[export] Instance ftype_eq_dec : EqDecision ftype.
Proof. solve_decision. Defined.

Definition ftypes : list ftype := [FT_DIR; FT_REG; FT_SYM; FT_DEV; FT_RTF].
Definition ft_num (ft : ftype) : Z :=
  match ft with FT_DIR => 0 | FT_REG => 1 | FT_SYM => 2 | FT_DEV => 3 | FT_RTF => 4 end.
Definition FT_m (ft : ftype) : Z := Z.shiftl 1 (ft_num ft).
Definition FT_ANYm : Z := Z.shiftl 1 5 - 1.
Definition FT_REGFILE : Z := Z.lor (FT_m FT_REG) (FT_m FT_RTF).
Definition FT_NOTDIR : Z := Z.land FT_ANYm (Z.lnot (FT_m FT_DIR)).

Definition FLIST_SLOT_INCR : nat := 16.
Definition NDCACHE : Z := 64.
Definition MAXNAMELEN : nat := 1024.
Definition MAXFSIZE : Z := 9223372036854775807.

Record fent := Fent { fent_id : Z; fent_parent : Z }.

(** The array has nslots elements; the ones never written are [None]. *)
Record flist := FList { nfiles : nat; nslots : nat; tag : ascii; fents : list (option fent) }.

(** [wraps] says what the compiler makes of an int subtraction that overflows. *)
Record settings := Settings {
  procid : Z; verbose : bool; ilist : list Z; namerand : Z; rtpct : Z; maxfsize : Z; pagesize : Z; errtag : Z; wraps : bool
}.

(** The variables of the process, with errno and the lines it has printed. *)
Record fss := Fss {
  flists : ftype → flist; dcache : list Z; nameseq : Z; errno : Z; no_direct : bool; output : list text
}.

Definition upd_flist (ft : ftype) (f : flist → flist) (s : fss) : fss :=
  Fss (λ ft', if decide (ft' = ft) then f (flists s ft') else flists s ft') (dcache s) (nameseq s) (errno s) (no_direct s) (output s).
Definition set_flists f s := Fss f (dcache s) (nameseq s) (errno s) (no_direct s) (output s).
Definition set_dcache d s := Fss (flists s) d (nameseq s) (errno s) (no_direct s) (output s).
Definition set_nameseq n s := Fss (flists s) (dcache s) n (errno s) (no_direct s) (output s).
Definition set_errno e s := Fss (flists s) (dcache s) (nameseq s) e (no_direct s) (output s).
Definition set_no_direct b s := Fss (flists s) (dcache s) (nameseq s) (errno s) b (output s).
Definition add_output l s := Fss (flists s) (dcache s) (nameseq s) (errno s) (no_direct s) (output s ++ [l]).

(** The lists at the start. *)
Definition ft_tag (ft : ftype) : ascii :=
  match ft with FT_DIR => "d" | FT_REG => "f" | FT_SYM => "l" | FT_DEV => "c" | FT_RTF => "r" end.
Definition dcache_init : list Z := replicate (Z.to_nat NDCACHE) (-1).
Definition fss_start : fss := Fss (λ ft, FList 0 0 (ft_tag ft) []) dcache_init 0 0 false [].

Abbreviation M W := (prog fss W).

(** [None] is a null pointer; the length is that of the string. *)
Abbreviation pathname := (option text).

Section fsstress.
Context {W : Type} `{Kernel W} (cfg : settings).

Definition rnd : M W Z := λ s w, let '(r, w') := random w in Done (Goes r, s, w').
(** A call that fails sets errno. *)
Definition invoke (c : call) : M W reply := λ s w,
  let '(r, w') := sys c w in Done (Goes r, if decide (ret r < 0) then set_errno (err r) s else s, w').

(** [rval < 0 ? errno : 0] *)
Definition status (rval : Z) : M W Z := if decide (rval < 0) then get errno else mret 0.

(** A line printed when [v] is set. *)
Definition say (v : bool) (opno : Z) (l : text) : M W () :=
  if v then put (add_output (print_d (procid cfg) ++ "/"%char :: print_d opno ++ chars ": " ++ l ++ [NEWLINE])) else mret ().

Definition umod (x n : Z) : outcome Z := if decide (n = 0) then Fault else Done (x mod n).

(** ** Path names *)

Definition init_pathname : pathname := None.
Definition append_pathname (name : pathname) (s : text) : pathname := Some (default [] name ++ s).
Definition path_len (name : pathname) : Z := Z.of_nat (length (default [] name)).
Definition shown (name : pathname) : text := default (chars "(null)") name.

(** The first component, copied to a buffer, and the rest. *)
Definition separate_pathname (name : pathname) : outcome (text * pathname) :=
  p ← load name;
  match index_of "/" p with
  | None => Done ([], init_pathname)
  | Some i =>
      if decide (i < MAXNAMELEN)%nat then Done (take i p, append_pathname init_pathname (drop (S i) p)) else Fault
  end.

(** [if (chdir(buf) == 0) { rval = m; chdir(".."); }] *)
Definition within (buf : text) (rval : reply) (m : M W reply) : M W reply :=
  r ← invoke (CChdir buf);
  if decide (ret r = 0) then
    rval ← m;
    _ ← invoke (CChdir (chars ".."));
    mret rval
  else mret rval.

(** The calls with one name: when the name is too long, the call is made from the
    directory its first component names. *)
Fixpoint path_loop (fuel : nat) (call : text → M W reply) (name : pathname) : M W reply :=
  match fuel with
  | O => lift Timeout
  | S fuel' =>
      p ← lift (load name);
      rval ← call p;
      e ← get errno;
      if decide (0 ≤ ret rval ∨ e ≠ ENAMETOOLONG) then mret rval
      else
        '(buf, newname) ← lift (separate_pathname name);
        within buf rval (path_loop fuel' call newname)
  end.
Definition path_call (call : text → M W reply) (name : pathname) : M W reply :=
  path_loop (S (length (default [] name))) call name.
Definition path_ret (call : text → M W reply) (name : pathname) : M W Z := r ← path_call call name; mret (ret r).

Definition creat_path (name : pathname) (mode : Z) : M W Z := path_ret (λ p, invoke (CCreat p mode)) name.
Definition lchown_path (name : pathname) (owner group : Z) : M W Z := path_ret (λ p, invoke (CLchown p owner group)) name.
Definition lstat64_path (name : pathname) : M W Z := path_ret (λ p, invoke (CLstat p)) name.
Definition mkdir_path (name : pathname) (mode : Z) : M W Z := path_ret (λ p, invoke (CMkdir p mode)) name.
Definition mknod_path (name : pathname) (mode dev : Z) : M W Z := path_ret (λ p, invoke (CMknod p mode dev)) name.
Definition open_path (name : pathname) (oflag : Z) : M W Z := path_ret (λ p, invoke (COpen p oflag)) name.
Definition opendir_path (name : pathname) : M W Z := path_ret (λ p, invoke (COpendir p)) name.
Definition rmdir_path (name : pathname) : M W Z := path_ret (λ p, invoke (CRmdir p)) name.
Definition truncate64_path (name : pathname) (length : Z) : M W Z := path_ret (λ p, invoke (CTruncate p length)) name.
Definition unlink_path (name : pathname) : M W Z := path_ret (λ p, invoke (CUnlink p)) name.

(** With the stat buffer. *)
Definition stat64_path (name : pathname) : M W reply := path_call (λ p, invoke (CStat p)) name.

(** [lbuf[rval] = 0] *)
Definition readlink_path (name : pathname) (lbufsiz : Z) : M W Z :=
  path_ret (λ p,
    r ← invoke (CReadlink p (lbufsiz - 1));
    _ ← lift (if decide (0 ≤ ret r ∧ lbufsiz ≤ ret r) then Fault else Done ());
    mret r) name.

Definition symlink_path (name1 : text) (name : pathname) : M W Z :=
  path_ret (λ p, if decide (name1 = p) then mret (Reply 0 0 0 0) else invoke (CSymlink name1 p)) name.

(** The calls with two names: one of them gets shorter, the other one gets [../]. *)
Definition down1 (buf1 buf2 : text) (name1 name2 newname1 newname2 : pathname) : bool :=
  if decide (buf1 = chars "..") then false
  else if decide (buf2 = chars "..") then true
  else if decide (buf1 = []) then false
  else if decide (buf2 = []) then true
  else bool_decide (path_len newname1 `max` (3 + path_len name2) ≤ (3 + path_len name1) `max` path_len newname2).

Fixpoint paths_loop (fuel : nat) (c : text → text → call) (name1 name2 : pathname) : M W reply :=
  match fuel with
  | O => lift Timeout
  | S fuel' =>
      p1 ← lift (load name1);
      p2 ← lift (load name2);
      rval ← invoke (c p1 p2);
      e ← get errno;
      if decide (0 ≤ ret rval ∨ e ≠ ENAMETOOLONG) then mret rval
      else
        '(buf1, newname1) ← lift (separate_pathname name1);
        '(buf2, newname2) ← lift (separate_pathname name2);
        let up p := append_pathname (append_pathname init_pathname (chars "../")) p in
        if decide (buf1 = buf2) then within buf1 rval (paths_loop fuel' c newname1 newname2)
        else if down1 buf1 buf2 name1 name2 newname1 newname2
        then within buf1 rval (paths_loop fuel' c newname1 (up p2))
        else within buf2 rval (paths_loop fuel' c (up p1) newname2)
  end.
Definition paths_call (c : text → text → call) (name1 name2 : pathname) : M W Z :=
  r ← paths_loop (S (length (default [] name1) + length (default [] name2))) c name1 name2;
  mret (ret r).

Definition link_path (name1 name2 : pathname) : M W Z := paths_call CLink name1 name2.
Definition rename_path (name1 name2 : pathname) : M W Z := paths_call CRename name1 name2.

(** ** The lists *)

Definition entry (ft : ftype) (slot : nat) : M W fent :=
  fl ← get (λ s, flists s ft); lift (load (mjoin (fents fl !! slot))).

(** A store into an element of the array. *)
Definition set_entry (slot : nat) (e : fent) (fl : flist) : outcome flist :=
  if decide (slot < length (fents fl))%nat
  then Done (FList (nfiles fl) (nslots fl) (tag fl) (<[slot := Some e]> (fents fl))) else Fault.

Definition grow (fl : flist) : flist :=
  if decide (nfiles fl = nslots fl)
  then FList (nfiles fl) (nslots fl + FLIST_SLOT_INCR) (tag fl) (fents fl ++ replicate FLIST_SLOT_INCR None) else fl.

Definition set_nfiles (n : nat) (fl : flist) : flist := FList n (nslots fl) (tag fl) (fents fl).

Definition add_to_flist (ft : ftype) (id parent : Z) : M W () :=
  fl ← get (λ s, grow (flists s ft));
  fl ← lift (set_entry (nfiles fl) (Fent id parent) fl);
  put (upd_flist ft (λ _, set_nfiles (S (nfiles fl)) fl)).

(** [dcache[dirid % NDCACHE]] *)
Definition dcache_at (dirid : Z) : M W Z :=
  dc ← get dcache;
  lift (if decide (0 ≤ Z.rem dirid NDCACHE) then load (dc !! Z.to_nat (Z.rem dirid NDCACHE)) else Fault).

Definition dcache_enter (dirid slot : Z) : M W () :=
  dc ← get dcache;
  if decide (0 ≤ Z.rem dirid NDCACHE < Z.of_nat (length dc))
  then put (set_dcache (<[Z.to_nat (Z.rem dirid NDCACHE) := slot]> dc)) else lift Fault.

Definition dcache_lookup (dirid : Z) : M W (option nat) :=
  i ← dcache_at dirid;
  if decide (0 ≤ i) then
    e ← entry FT_DIR (Z.to_nat i);
    mret (if decide (fent_id e = dirid) then Some (Z.to_nat i) else None)
  else mret None.

Definition dcache_purge (dirid : Z) : M W () :=
  i ← dcache_at dirid;
  if decide (0 ≤ i) then
    e ← entry FT_DIR (Z.to_nat i);
    if decide (fent_id e = dirid) then dcache_enter dirid (-1) else mret ()
  else mret ().

(** The purge of the cache that del_from_flist() does for a directory. *)
Definition purge_slot (ft : ftype) (slot : nat) : M W () :=
  if decide (ft = FT_DIR) then e ← entry ft slot; dcache_purge (fent_id e) else mret ().

Definition del_from_flist (ft : ftype) (slot : nat) : M W () :=
  _ ← purge_slot ft slot;
  n ← get (λ s, nfiles (flists s ft));
  if decide (Z.of_nat slot ≠ Z.of_nat n - 1) then
    _ ← (if decide (n = 0%nat) then lift Fault else mret ());
    _ ← purge_slot ft (n - 1);
    e ← entry ft (n - 1);
    fl ← get (λ s, flists s ft);
    fl ← lift (set_entry slot e fl);
    put (upd_flist ft (λ _, set_nfiles (n - 1) fl))
  else put (upd_flist ft (set_nfiles (n - 1))).

(** The search of the directory in the slots from [slot]. *)
Fixpoint search_dir (n slot : nat) (dirid : Z) : M W (option nat) :=
  match n with
  | O => mret None
  | S n' =>
      e ← entry FT_DIR slot;
      if decide (fent_id e = dirid) then
        _ ← dcache_enter dirid (Z.of_nat slot);
        mret (Some slot)
      else search_dir n' (S slot) dirid
  end.

Definition dirid_to_fent (dirid : Z) : M W (option nat) :=
  o ← dcache_lookup dirid;
  match o with
  | Some slot => mret (Some slot)
  | None => n ← get (λ s, nfiles (flists s FT_DIR)); search_dir n 0 dirid
  end.

(** The loop over the first nfiles slots of a list. *)
Fixpoint fix_loop (n slot : nat) (ft : ftype) (oldid newid : Z) : M W () :=
  match n with
  | O => mret ()
  | S n' =>
      e ← entry ft slot;
      _ ← (if decide (fent_parent e = oldid) then
             fl ← get (λ s, flists s ft);
             fl ← lift (set_entry slot (Fent (fent_id e) newid) fl);
             put (upd_flist ft (λ _, fl))
           else mret ());
      fix_loop n' (S slot) ft oldid newid
  end.

Fixpoint fix_lists (fts : list ftype) (oldid newid : Z) : M W () :=
  match fts with
  | [] => mret ()
  | ft :: fts' =>
      n ← get (λ s, nfiles (flists s ft));
      _ ← fix_loop n 0 ft oldid newid;
      fix_lists fts' oldid newid
  end.

Definition fix_parent (oldid newid : Z) : M W () := fix_lists ftypes oldid newid.

(** ** Names *)

Definition buckets : list Z := [2; 4; 8; 16; 32; 64; 128; Z.of_nat MAXNAMELEN - 1].

(** [i] is the length of the string in the buffer. *)
Definition namerandpad (id : Z) (buf : text) (i : Z) : outcome text :=
  if decide (namerand cfg = 0) then Done buf
  else
    let x := Z.lxor id (namerand cfg) in
    b ← load (buckets !! Z.to_nat (u64 x mod 8));
    let padmod := b + 1 - i in
    if decide (padmod ≤ 0) then Done buf
    else
      let padlen := Z.rem x padmod in
      if decide (padlen = 0) then Done buf
      else if decide (0 < padlen ∧ i + padlen < Z.of_nat MAXNAMELEN)
      then Done (buf ++ replicate (Z.to_nat padlen) "X"%char) else Fault.

(** The name of a file: [sprintf(buf, "%c%x", tag, id)] and the padding. *)
Definition file_name (tag : ascii) (id : Z) : outcome text :=
  let buf := tag :: print_base 16 (u32 id) in
  namerandpad id buf (Z.of_nat (length buf)).

(** The fuel bounds the depth of the directories; [fep] is the slot in the list [ft]. *)
Fixpoint fent_to_name_loop (fuel : nat) (name : pathname) (ft : ftype) (fep : option nat) : M W pathname :=
  match fuel with
  | O => lift Timeout
  | S fuel' =>
      match fep with
      | None => mret name
      | Some slot =>
          e ← entry ft slot;
          name ← (if decide (fent_parent e ≠ -1) then
                    pfep ← dirid_to_fent (fent_parent e);
                    name ← fent_to_name_loop fuel' name FT_DIR pfep;
                    mret (append_pathname name (chars "/"))
                  else mret name);
          t ← get (λ s, tag (flists s ft));
          buf ← lift (file_name t (fent_id e));
          mret (append_pathname name buf)
      end
  end.
Definition fent_to_name (name : pathname) (ft : ftype) (fep : option nat) : M W pathname :=
  n ← get (λ s, nfiles (flists s FT_DIR)); fent_to_name_loop (S (S n)) name ft fep.

(** Whether operations on the file are reported. *)
Definition reported (id : Z) : bool := verbose cfg || bool_decide (id ∈ ilist cfg).

(** The return value, the name, the number and [*v]. *)
Definition generate_fname (fep : option nat) (ft : ftype) (name : pathname) : M W (Z * pathname * Z * bool) :=
  id ← get nameseq;
  n ← lift (i32 (id + 1));
  _ ← put (set_nameseq n);
  t ← get (λ s, tag (flists s ft));
  buf ← lift (file_name t id);
  name ← (if decide (fep = None) then mret name
          else name ← fent_to_name name FT_DIR fep; mret (append_pathname name (chars "/")));
  mret (1, append_pathname name buf, id, reported id).

Definition selects (which : Z) (ft : ftype) : bool := bool_decide (Z.land which (Z.shiftl 1 (ft_num ft)) ≠ 0).

(** The number of files of the kinds [which]. *)
Definition count_files (which : Z) (f : ftype → flist) : nat :=
  foldl (λ c ft, if selects which ft then (c + nfiles (f ft))%nat else c) 0%nat ftypes.

(** The list and the slot of file number [x]. *)
Fixpoint select_file (fts : list ftype) (which : Z) (f : ftype → flist) (c x : nat) : option (ftype * nat) :=
  match fts with
  | [] => None
  | ft :: fts' =>
      if selects which ft then
        if decide (x < c + nfiles (f ft))%nat then Some (ft, (x - c)%nat)
        else select_file fts' which f (c + nfiles (f ft)) x
      else select_file fts' which f c x
  end.

(** A file of the kinds [which]: its name if [named] is set, its list and its slot; and
    [*v].  When the loop ends without a file the results are not set. *)
Definition get_fname (which r : Z) (named : bool) : M W (option (pathname * ftype * nat) * bool) :=
  f ← get flists;
  let c := count_files which f in
  if decide (c = 0%nat) then mret (None, verbose cfg)
  else
    match select_file ftypes which f 0 (Z.to_nat (wrap32 (Z.rem r (Z.of_nat c)))) with
    | None => lift Fault
    | Some (ft, slot) =>
        name ← (if named then fent_to_name init_pathname ft (Some slot) else mret init_pathname);
        e ← entry ft slot;
        mret (Some (name, ft, slot), reported (fent_id e))
    end.

(** ** Operations that make and remove files *)

(** [if (!get_fname(FT_DIRm, r, NULL, NULL, &fep, &v)) parid = -1; else parid = fep->id;] *)
Definition get_dir (r : Z) : M W (option nat * Z * bool) :=
  '(o, v) ← get_fname (FT_m FT_DIR) r false;
  match o with
  | None => mret (None, -1, v)
  | Some (_, _, slot) => e ← entry FT_DIR slot; mret (Some slot, fent_id e, v)
  end.

(** The message when there is no name; generate_fname() always gives one. *)
Definition no_filename (v : bool) (opno : Z) (op : text) (f : pathname) (fep : option nat) : M W () :=
  if v then
    f ← fent_to_name f FT_DIR fep;
    say v opno (op ++ chars " - no filename from " ++ shown f)
  else mret ().

(** The kind of a new file; the extent size that is drawn is used with XFS only. *)
Definition creat_type : M W ftype :=
  type ← (if decide (rtpct cfg ≠ 0) then x ← rnd; mret (if decide (rtpct cfg < Z.rem x 100) then FT_REG else FT_RTF)
          else mret FT_REG);
  _ ← (if decide (type = FT_RTF) then x ← rnd; mret (Z.rem x 10 + 1) else mret 0);
  mret type.

Definition creat_f (opno r : Z) : M W () :=
  '(fep, parid, v1) ← get_dir r;
  type ← creat_type;
  '(e, f, id, v) ← generate_fname fep type init_pathname;
  let v := v || v1 in
  if decide (e = 0) then no_filename v opno (chars "creat") f fep
  else
    fd ← creat_path f 438;
    e ← status fd;
    _ ← (if decide (0 ≤ fd) then
           _ ← add_to_flist type id parid;
           _ ← invoke (CClose fd); mret ()
         else mret ());
    say v opno (chars "creat " ++ shown f ++ chars " x:0 " ++ print_d e ++ chars " 0").

Definition link_f (opno r : Z) : M W () :=
  '(o, v1) ← get_fname FT_NOTDIR r true;
  match o with
  | None => say v1 opno (chars "link - no file")
  | Some (f, ft, _) =>
      x ← rnd;
      '(fep, parid, v) ← get_dir x;
      let v := v || v1 in
      '(e, l, id, v1) ← generate_fname fep ft init_pathname;
      let v := v || v1 in
      if decide (e = 0) then no_filename v opno (chars "link") l fep
      else
        rval ← link_path f l;
        e ← status rval;
        _ ← (if decide (e = 0) then add_to_flist ft id parid else mret ());
        say v opno (chars "link " ++ shown f ++ chars " " ++ shown l ++ chars " " ++ print_d e)
  end.

Definition mkdir_f (opno r : Z) : M W () :=
  '(fep, parid, v) ← get_dir r;
  '(e, f, id, v1) ← generate_fname fep FT_DIR init_pathname;
  let v := v || v1 in
  if decide (e = 0) then no_filename v opno (chars "mkdir") f fep
  else
    rval ← mkdir_path f 511;
    e ← status rval;
    _ ← (if decide (e = 0) then add_to_flist FT_DIR id parid else mret ());
    say v opno (chars "mkdir " ++ shown f ++ chars " " ++ print_d e).

(** S_IFCHR | 0444 *)
Definition mknod_f (opno r : Z) : M W () :=
  '(fep, parid, v) ← get_dir r;
  '(e, f, id, v1) ← generate_fname fep FT_DEV init_pathname;
  let v := v || v1 in
  if decide (e = 0) then no_filename v opno (chars "mknod") f fep
  else
    rval ← mknod_path f (8192 + 292) 0;
    e ← status rval;
    _ ← (if decide (e = 0) then add_to_flist FT_DEV id parid else mret ());
    say v opno (chars "mknod " ++ shown f ++ chars " " ++ print_d e).

Definition rename_f (opno r : Z) : M W () :=
  '(o, v1) ← get_fname FT_ANYm r true;
  match o with
  | None => say v1 opno (chars "rename - no filename")
  | Some (f, ft, slot) =>
      x ← rnd;
      '(dfep, parid, v) ← get_dir x;
      let v := v || v1 in
      '(e, newf, id, v1) ← generate_fname dfep ft init_pathname;
      let v := v || v1 in
      if decide (e = 0) then no_filename v opno (chars "rename") f dfep
      else
        rval ← rename_path f newf;
        e ← status rval;
        _ ← (if decide (e = 0) then
               _ ← (if decide (ft = FT_DIR) then old ← entry ft slot; fix_parent (fent_id old) id else mret ());
               _ ← del_from_flist ft slot;
               add_to_flist ft id parid
             else mret ());
        say v opno (chars "rename " ++ shown f ++ chars " to " ++ shown newf ++ chars " " ++ print_d e)
  end.

Definition rmdir_f (opno r : Z) : M W () :=
  '(o, v) ← get_fname (FT_m FT_DIR) r true;
  match o with
  | None => say v opno (chars "rmdir - no directory")
  | Some (f, _, slot) =>
      rval ← rmdir_path f;
      e ← status rval;
      _ ← (if decide (e = 0) then del_from_flist FT_DIR slot else mret ());
      say v opno (chars "rmdir " ++ shown f ++ chars " " ++ print_d e)
  end.

(** The target of a symbolic link: [len] times x, with a slash at 10, 20, ... *)
Definition link_value (len : nat) : text :=
  imap (λ i c, if decide (10 ≤ i ∧ i < len - 1 ∧ i mod 10 = 0)%nat then "/"%char else c) (replicate len "x"%char).

Definition symlink_f (opno r : Z) : M W () :=
  '(fep, parid, v) ← get_dir r;
  '(e, f, id, v1) ← generate_fname fep FT_SYM init_pathname;
  let v := v || v1 in
  if decide (e = 0) then no_filename v opno (chars "symlink") f fep
  else
    x ← rnd;
    let val := link_value (Z.to_nat (Z.rem x PATH_MAX)) in
    rval ← symlink_path val f;
    e ← status rval;
    _ ← (if decide (e = 0) then add_to_flist FT_SYM id parid else mret ());
    say v opno (chars "symlink " ++ shown f ++ chars " " ++ print_d e).

Definition unlink_f (opno r : Z) : M W () :=
  '(o, v) ← get_fname FT_NOTDIR r true;
  match o with
  | None => say v opno (chars "unlink - no file")
  | Some (f, ft, slot) =>
      rval ← unlink_path f;
      e ← status rval;
      _ ← (if decide (e = 0) then del_from_flist ft slot else mret ());
      say v opno (chars "unlink " ++ shown f ++ chars " " ++ print_d e)
  end.

(** ** Operations on names *)

(** [u &= (1 << nbits) - 1] *)
Definition mask_uid (u nbits : Z) : outcome Z :=
  m ← shl32 1 nbits;
  m ← (if wraps cfg then Done (wrap32 (m - 1)) else i32 (m - 1));
  Done (Z.land u (u32 m)).

(** [if (!get_fname(which, r, &f, NULL, NULL, &v)) append_pathname(&f, ".");] *)
Definition name_or_dot (which r : Z) : M W (pathname * bool) :=
  '(o, v) ← get_fname which r true;
  mret (match o with None => append_pathname init_pathname (chars ".") | Some (f, _, _) => f end, v).

Definition chown_f (opno r : Z) : M W () :=
  '(f, v) ← name_or_dot FT_ANYm r;
  u ← rnd;
  x ← rnd;
  u ← lift (mask_uid u (Z.rem x 32));
  rval ← lchown_path f u (-1);
  e ← status rval;
  say v opno (chars "chown " ++ shown f ++ chars " " ++ print_d (wrap32 u) ++ chars " " ++ print_d e).

Definition getdents_f (opno r : Z) : M W () :=
  '(f, v) ← name_or_dot (FT_m FT_DIR) r;
  dir ← opendir_path f;
  if decide (dir < 0) then say v opno (chars "getdents - can't open " ++ shown f)
  else
    _ ← invoke (CReaddir dir);
    _ ← say v opno (chars "getdents " ++ shown f ++ chars " 0");
    _ ← invoke (CClosedir dir); mret ().

Definition readlink_f (opno r : Z) : M W () :=
  '(o, v) ← get_fname (FT_m FT_SYM) r true;
  match o with
  | None => say v opno (chars "readlink - no filename")
  | Some (f, _, _) =>
      rval ← readlink_path f PATH_MAX;
      e ← status rval;
      say v opno (chars "readlink " ++ shown f ++ chars " " ++ print_d e)
  end.

Definition stat_f (opno r : Z) : M W () :=
  '(o, v) ← get_fname FT_ANYm r true;
  match o with
  | None => say v opno (chars "stat - no entries")
  | Some (f, _, _) =>
      rval ← lstat64_path f;
      e ← status rval;
      say v opno (chars "stat " ++ shown f ++ chars " " ++ print_d e)
  end.

Definition sync_f (opno r : Z) : M W () :=
  _ ← invoke CSync;
  say (verbose cfg) opno (chars "sync").

(** [((int64_t) random() << 32) + random()] *)
Definition rnd64 : M W Z := a ← rnd; b ← rnd; lift (i64 (Z.shiftl a 32 + b)).

(** [lr % MIN(stb.st_size + (1024 * 1024), MAXFSIZE)] *)
Definition off_in (lr size : Z) : outcome Z :=
  x ← i64 (size + 1024 * 1024);
  x ← umod (u64 lr) (u64 x `min` MAXFSIZE);
  Done (wrap64 x).

Definition rem64 (x n : Z) : outcome Z := if decide (n = 0) then Fault else Done (Z.rem x n).

Definition truncate_f (opno r : Z) : M W () :=
  '(o, v) ← get_fname FT_REGFILE r true;
  match o with
  | None => say v opno (chars "truncate - no filename")
  | Some (f, _, _) =>
      stb ← stat64_path f;
      e ← status (ret stb);
      if decide (0 < e) then say v opno (chars "truncate - stat64 " ++ shown f ++ chars " failed " ++ print_d e)
      else
        lr ← rnd64;
        off ← lift (off_in lr (st_size stb));
        off ← lift (rem64 off (maxfsize cfg));
        rval ← truncate64_path f off;
        e ← status rval;
        say v opno (chars "truncate " ++ shown f ++ chars " " ++ print_d off ++ chars " " ++ print_d e)
  end.

(** ** Operations on the data of files *)

(** A file of the kinds [which], opened. *)
Definition with_file (which flags : Z) (op : text) (opno r : Z) (k : pathname → Z → bool → M W ()) : M W () :=
  '(o, v) ← get_fname which r true;
  match o with
  | None => say v opno (op ++ chars " - no filename")
  | Some (f, _, _) =>
      fd ← open_path f flags;
      e ← status fd;
      if decide (fd < 0) then say v opno (op ++ chars " - open " ++ shown f ++ chars " failed " ++ print_d e)
      else k f fd v
  end.

Definition close (fd : Z) : M W () := _ ← invoke (CClose fd); mret ().

(** fstat64() of the open file. *)
Definition with_stat (op : text) (opno : Z) (f : pathname) (fd : Z) (v : bool) (k : reply → M W ()) : M W () :=
  stb ← invoke (CFstat fd);
  if decide (ret stb < 0) then
    e ← get errno;
    _ ← say v opno (op ++ chars " - fstat64 " ++ shown f ++ chars " failed " ++ print_d e);
    close fd
  else k stb.

Definition zero_size (op : text) (opno : Z) (f : pathname) (fd : Z) (v : bool) : M W () :=
  _ ← say v opno (op ++ chars " - " ++ shown f ++ chars " zero size");
  close fd.

(** The line after a transfer, and close(). *)
Definition transferred (op : text) (opno : Z) (f : pathname) (fd off len e : Z) (v : bool) : M W () :=
  _ ← say v opno (op ++ chars " " ++ shown f ++ chars " [" ++ print_d off ++ chars "," ++ print_d len ++ chars "] " ++ print_d e);
  close fd.

(** [(random() % (getpagesize() * 32)) + 1] *)
Definition rnd_len : M W Z :=
  x ← rnd;
  n ← lift (i32 (pagesize cfg * 32));
  n ← lift (rem64 x n);
  mret (n + 1).

Definition fdatasync_f (opno r : Z) : M W () :=
  with_file FT_REGFILE O_WRONLY (chars "fdatasync") opno r (λ f fd v,
    rval ← invoke (CFdatasync fd);
    e ← status (ret rval);
    _ ← say v opno (chars "fdatasync " ++ shown f ++ chars " " ++ print_d e);
    close fd).

Definition fsync_f (opno r : Z) : M W () :=
  with_file FT_REGFILE O_WRONLY (chars "fsync") opno r (λ f fd v,
    rval ← invoke (CFsync fd);
    e ← status (ret rval);
    _ ← say v opno (chars "fsync " ++ shown f ++ chars " " ++ print_d e);
    close fd).

Definition read_f (opno r : Z) : M W () :=
  with_file FT_REGFILE O_RDONLY (chars "read") opno r (λ f fd v,
    with_stat (chars "read") opno f fd v (λ stb,
      if decide (st_size stb = 0) then zero_size (chars "read") opno f fd v
      else
        lr ← rnd64;
        off ← lift (rem64 lr (st_size stb));
        _ ← invoke (CLseek fd off);
        len ← rnd_len;
        rval ← invoke (CRead fd len);
        e ← status (ret rval);
        transferred (chars "read") opno f fd off len e v)).

Definition write_f (opno r : Z) : M W () :=
  with_file (FT_m FT_REG) O_WRONLY (chars "write") opno r (λ f fd v,
    with_stat (chars "write") opno f fd v (λ stb,
      lr ← rnd64;
      off ← lift (off_in lr (st_size stb));
      off ← lift (rem64 off (maxfsize cfg));
      _ ← invoke (CLseek fd off);
      len ← rnd_len;
      n ← get nameseq;
      rval ← invoke (CWrite fd (Z.land n 255) len);
      e ← status (ret rval);
      transferred (chars "write") opno f fd off len e v)).

(** The program is built without XFS, so [no_xfs] is set. *)
Definition setdirect (fd : Z) : M W bool :=
  nd ← get no_direct;
  if nd : bool then mret false
  else
    flags ← invoke (CGetfl fd);
    if decide (ret flags < 0) then mret false
    else
      rval ← invoke (CSetDirect fd (ret flags));
      if decide (ret rval < 0) then _ ← put (set_no_direct true); mret false
      else mret true.

(** The length of a direct transfer, a multiple of the block size. *)
Definition direct_len (len blksize : Z) : outcome Z :=
  let align := wrap32 blksize in
  x ← umod len (u64 align);
  let len := len - x in
  let maxiosz := wrap32 (blksize * 256) in
  Done (if decide (len ≤ 0) then u64 align else if decide (u64 maxiosz < len) then u64 maxiosz else len).

(** posix_memalign() with its check: the program gives up when it fails. *)
Definition memalign (align len : Z) : M W () :=
  e ← invoke (CMemalign align len);
  if decide (ret e ≠ 0) then exit 1 else mret ().

Definition dread_f (opno r : Z) : M W () :=
  with_file FT_REGFILE O_RDONLY (chars "dread") opno r (λ f fd v,
    direct ← setdirect fd;
    if direct : bool then
      with_stat (chars "dread") opno f fd v (λ stb,
        if decide (st_size stb = 0) then zero_size (chars "dread") opno f fd v
        else
          lr ← rnd64;
          off ← lift (rem64 lr (st_size stb));
          x ← lift (rem64 off (wrap32 (st_blksize stb)));
          let off := off - x in
          _ ← invoke (CLseek fd off);
          len ← rnd_len;
          len ← lift (direct_len len (st_blksize stb));
          _ ← memalign (wrap32 (st_blksize stb)) len;
          rval ← invoke (CRead fd len);
          e ← status (ret rval);
          transferred (chars "dread") opno f fd off len e v)
    else close fd).

Definition dwrite_f (opno r : Z) : M W () :=
  with_file FT_REGFILE O_WRONLY (chars "dwrite") opno r (λ f fd v,
    direct ← setdirect fd;
    if direct : bool then
      with_stat (chars "dwrite") opno f fd v (λ stb,
        lr ← rnd64;
        off ← lift (off_in lr (st_size stb));
        x ← lift (rem64 off (wrap32 (st_blksize stb)));
        let off := off - x in
        _ ← invoke (CLseek fd off);
        len ← rnd_len;
        len ← lift (direct_len len (st_blksize stb));
        _ ← memalign (wrap32 (st_blksize stb)) len;
        off ← lift (rem64 off (maxfsize cfg));
        _ ← invoke (CLseek fd off);
        n ← get nameseq;
        rval ← invoke (CWrite fd (Z.land n 255) len);
        e ← status (ret rval);
        transferred (chars "dwrite") opno f fd off len e v)
    else close fd).
End fsstress.

(** ** The table of operations *)

Inductive opty :=
  | OP_CHOWN | OP_CREAT | OP_DREAD | OP_DWRITE | OP_FDATASYNC | OP_FSYNC | OP_GETDENTS | OP_LINK | OP_MKDIR | OP_MKNOD
  | OP_READ | OP_READLINK | OP_RENAME | OP_RMDIR | OP_STAT | OP_SYMLINK | OP_SYNC | OP_TRUNCATE | OP_UNLINK | OP_WRITE.
#[export] Instance opty_eq_dec : EqDecision opty.
Proof. solve_decision. Defined.

(** The value of the enumeration, an index of the table. *)
Definition op_num (o : opty) : nat :=
  match o with
  | OP_CHOWN => 0 | OP_CREAT => 1 | OP_DREAD => 2 | OP_DWRITE => 3 | OP_FDATASYNC => 4 | OP_FSYNC => 5 | OP_GETDENTS => 6
  | OP_LINK => 7 | OP_MKDIR => 8 | OP_MKNOD => 9 | OP_READ => 10 | OP_READLINK => 11 | OP_RENAME => 12 | OP_RMDIR => 13
  | OP_STAT => 14 | OP_SYMLINK => 15 | OP_SYNC => 16 | OP_TRUNCATE => 17 | OP_UNLINK => 18 | OP_WRITE => 19
  end.

Record opdesc := OpDesc { op : opty; op_name : text; freq : Z; iswrite : bool }.
#[export] Instance opdesc_eq_dec : EqDecision opdesc.
Proof. solve_decision. Defined.

Definition ops : list opdesc := [
  OpDesc OP_CHOWN (chars "chown") 3 true; OpDesc OP_CREAT (chars "creat") 4 true;
  OpDesc OP_DREAD (chars "dread") 4 false; OpDesc OP_DWRITE (chars "dwrite") 4 true;
  OpDesc OP_FDATASYNC (chars "fdatasync") 1 true; OpDesc OP_FSYNC (chars "fsync") 1 true;
  OpDesc OP_GETDENTS (chars "getdents") 1 false; OpDesc OP_LINK (chars "link") 1 true;
  OpDesc OP_MKDIR (chars "mkdir") 2 true; OpDesc OP_MKNOD (chars "mknod") 2 true;
  OpDesc OP_READ (chars "read") 1 false; OpDesc OP_READLINK (chars "readlink") 1 false;
  OpDesc OP_RENAME (chars "rename") 2 true; OpDesc OP_RMDIR (chars "rmdir") 1 true;
  OpDesc OP_STAT (chars "stat") 1 false; OpDesc OP_SYMLINK (chars "symlink") 2 true;
  OpDesc OP_SYNC (chars "sync") 1 false; OpDesc OP_TRUNCATE (chars "truncate") 2 true;
  OpDesc OP_UNLINK (chars "unlink") 1 true; OpDesc OP_WRITE (chars "write") 4 true].

Definition set_freq (n : Z) (d : opdesc) : opdesc := OpDesc (op d) (op_name d) n (iswrite d).

(** The options -w and -z. *)
Definition write_freq (ops : list opdesc) : list opdesc := (λ d, if iswrite d then d else set_freq 0 d) <$> ops.
Definition zero_freq (ops : list opdesc) : list opdesc := set_freq 0 <$> ops.

(** The option -f; [None] for a bad argument, the program exits. *)
Fixpoint set_op_freq (name : text) (n : Z) (ops : list opdesc) : option (list opdesc) :=
  match ops with
  | [] => None
  | d :: ops' => if decide (name = op_name d) then Some (set_freq n d :: ops') else cons d <$> set_op_freq name n ops'
  end.
Definition process_freq (arg : text) (ops : list opdesc) : option (list opdesc) :=
  i ← index_of "=" arg;
  set_op_freq (take i arg) (atoi (drop (S i) arg)) ops.

(** The sum of the frequencies is the size of the table that is allocated. *)
Fixpoint sum_freq (ops : list opdesc) (f : Z) : outcome Z :=
  match ops with
  | [] => Done f
  | d :: ops' => f ← i32 (f + freq d); sum_freq ops' f
  end.

(** The table is filled from the front; a store past its end is a fault. *)
Fixpoint fill_table (ops : list opdesc) (size : Z) (table : list opty) : outcome (list opty) :=
  match ops with
  | [] => Done table
  | d :: ops' =>
      if decide (freq d ≤ 0 ∨ Z.of_nat (length table) + freq d ≤ size)
      then fill_table ops' size (table ++ replicate (Z.to_nat (freq d)) (op d)) else Fault
  end.

(** The table and its size. *)
Definition make_freq_table (ops : list opdesc) : outcome (list opty * Z) :=
  f ← sum_freq ops 0;
  table ← fill_table ops f [];
  Done (table, f).

(** ** The process *)

Section doproc.
Context {W : Type} `{Kernel W} (cfg : settings).

(** [p->func(opno, random())] *)
Definition run_op (o : opty) : Z → Z → M W () :=
  match o with
  | OP_CHOWN => chown_f cfg | OP_CREAT => creat_f cfg | OP_DREAD => dread_f cfg | OP_DWRITE => dwrite_f cfg
  | OP_FDATASYNC => fdatasync_f cfg | OP_FSYNC => fsync_f cfg | OP_GETDENTS => getdents_f cfg | OP_LINK => link_f cfg
  | OP_MKDIR => mkdir_f cfg | OP_MKNOD => mknod_f cfg | OP_READ => read_f cfg | OP_READLINK => readlink_f cfg
  | OP_RENAME => rename_f cfg | OP_RMDIR => rmdir_f cfg | OP_STAT => stat_f cfg | OP_SYMLINK => symlink_f cfg
  | OP_SYNC => sync_f cfg | OP_TRUNCATE => truncate_f cfg | OP_UNLINK => unlink_f cfg | OP_WRITE => write_f cfg
  end.

(** The loop over the operations; [n] of them are left. *)
Fixpoint op_loop (n : nat) (opno : Z) (table : list opty) (table_size : Z) : M W () :=
  match n with
  | O => mret ()
  | S n' =>
      x ← rnd;
      i ← lift (rem64 x table_size);
      o ← lift (load (table !! Z.to_nat i));
      p ← lift (load (ops !! op_num o));
      x ← rnd;
      _ ← run_op (op p) opno x;
      stop ← (if decide (errtag cfg ≠ 0 ∧ Z.rem opno 100 = 0) then
                r ← invoke (CStat (chars ".")); mret (bool_decide (ret r = EIO))
              else mret false);
      if stop : bool then mret () else op_loop n' (opno + 1) table table_size
  end.
End doproc.

(** doproc() for the process number [procid]: a directory of its own, then the operations. *)
Definition set_namerand (n : Z) (cfg : settings) : settings :=
  Settings (procid cfg) (verbose cfg) (ilist cfg) n (rtpct cfg) (maxfsize cfg) (pagesize cfg) (errtag cfg) (wraps cfg).

Definition doproc {W} `{Kernel W} (cfg : settings) (operations : nat) (table : list opty) (table_size : Z) : M W () :=
  let buf := "p"%char :: print_base 16 (u32 (procid cfg)) in
  _ ← invoke (CMkdir buf 511);
  r ← invoke (CChdir buf);
  if decide (ret r < 0) then exit 1
  else
    r ← invoke (CStat (chars "."));
    if decide (ret r < 0) then exit 1
    else
      n ← (if decide (namerand cfg ≠ 0) then rnd else mret 0);
      op_loop (set_namerand n cfg) operations 0 table table_size.
