(* ===== verification/FsstressTree.v ===== *)
(** * A directory tree as POSIX describes it

    [tree] is the part of the file system below the directory of an fsstress process,
    with the current directory; [find] follows a name, and the class [PosixTree] is a
    system whose calls have their documented effects on the tree when they succeed and
    none when they fail.  Any call may fail. *)
From stdpp Require Import base strings numbers option list gmap.
From Stdlib Require Import Ascii.
From S2P Require Import Prelude CInt CText Steps Fsstress.

#[local] Open Scope Z_scope.

Inductive kind := KDir | KReg | KSym | KDev.
#[export] Instance kind_eq_dec : EqDecision kind.
Proof. solve_decision. Defined.

(** The components of a path, from the top directory. *)
Abbreviation path := (list text).
Abbreviation nodemap := (gmap path kind).

Record tree := Tree { nodes : nodemap; cwd : path }.

Definition dotdot : text := chars "..".

(** ** Names *)

(** A string cut at its slashes. *)
Fixpoint comps (s : text) : path :=
  match s with
  | [] => [[]]
  | c :: s' =>
      if decide (c = "/"%char) then [] :: comps s'
      else match comps s' with [] => [[c]] | x :: l => (c :: x) :: l end
  end.

Fixpoint join (l : path) : text :=
  match l with
  | [] => []
  | [x] => x
  | x :: l' => x ++ "/"%char :: join l'
  end.

Definition plain (c : text) : Prop := c ≠ [] ∧ c ≠ chars "." ∧ c ≠ dotdot ∧ "/"%char ∉ c.
#[export] Instance plain_dec c : Decision (plain c).
Proof. unfold plain. apply _. Defined.

(** The directory that a component names. *)
Definition enter (N : nodemap) (d : path) (c : text) : option path :=
  if decide (c = dotdot) then match d with [] => None | _ => Some (removelast d) end
  else if decide (plain c ∧ N !! (d ++ [c]) = Some KDir) then Some (d ++ [c]) else None.

(** The place that a name, cut into components, stands for. *)
Fixpoint find (N : nodemap) (d : path) (cs : path) : option path :=
  match cs with
  | [] => None
  | [c] => if decide (plain c) then Some (d ++ [c]) else None
  | c :: cs' => d' ← enter N d c; find N d' cs'
  end.

Definition resolve (t : tree) (p : text) : option path := find (nodes t) (cwd t) (comps p).

(** ** The effects of calls *)

Definition add_node (a : path) (k : kind) (t : tree) : tree := Tree (<[a := k]> (nodes t)) (cwd t).
Definition del_node (a : path) (t : tree) : tree := Tree (delete a (nodes t)) (cwd t).

(** The tree after the files at [a] have moved to [b], and a path in it. *)
Definition moved (N : nodemap) (a b q : path) : option kind :=
  if decide (b `prefix_of` q) then N !! (a ++ drop (length b) q)
  else if decide (a `prefix_of` q) then None else N !! q.
Definition move_path (a b q : path) : path := if decide (a `prefix_of` q) then b ++ drop (length a) q else q.

Definition creates (t t' : tree) (p : text) (k : kind) : Prop :=
  ∀ a, resolve t p = Some a → nodes t !! a = None → t' = add_node a k t.

(** What a call that succeeds does.  It is specified for names inside the tree; the
    new name of a file is specified when it does not exist yet. *)
Definition effect (c : call) (t t' : tree) : Prop :=
  match c with
  | CCreat p _ => creates t t' p KReg
  | CMkdir p _ => creates t t' p KDir
  | CMknod p mode _ => Z.land mode 61440 = 8192 → creates t t' p KDev
  | CSymlink _ p => creates t t' p KSym
  | CLink p q => ∀ a b, resolve t p = Some a → resolve t q = Some b → nodes t !! b = None →
      ∃ k, nodes t !! a = Some k ∧ k ≠ KDir ∧ t' = add_node b k t
  | CRename p q => ∀ a b, resolve t p = Some a → resolve t q = Some b → nodes t !! b = None →
      ¬ a `prefix_of` b ∧ (∀ x, nodes t' !! x = moved (nodes t) a b x) ∧ cwd t' = move_path a b (cwd t)
  | CUnlink p => ∀ a k, resolve t p = Some a → nodes t !! a = Some k → k ≠ KDir → t' = del_node a t
  | CRmdir p => ∀ a, resolve t p = Some a → nodes t !! a = Some KDir →
      (∀ n, nodes t !! (a ++ [n]) = None) ∧ t' = del_node a t
  | CChdir c => ∀ d, "/"%char ∉ c → enter (nodes t) (cwd t) c = Some d → t' = Tree (nodes t) d
  | COpen _ flags => flags = O_RDONLY ∨ flags = O_WRONLY → t' = t
  | _ => t' = t
  end.

(** A system whose calls have these effects.  An empty name is not a directory, and the
    directory above the current one can be entered. *)
Class PosixTree (W : Type) `{Kernel W} := {
  tree_of : W → tree;
  call_ok c w : 0 ≤ ret (sys c w).1 → effect c (tree_of w) (tree_of (sys c w).2);
  call_fails c w : ret (sys c w).1 < 0 → tree_of (sys c w).2 = tree_of w;
  chdir_empty w : ret (sys (CChdir []) w).1 < 0;
  chdir_up w : cwd (tree_of w) ≠ [] → ret (sys (CChdir dotdot) w).1 = 0;
  random_tree w : tree_of (random w).2 = tree_of w
}.

(** ** Cutting names *)

Lemma comps_cons s : ∃ x l, comps s = x :: l.
Proof. induction s as [|c s (x & l & IH)]; cbn; [eauto|]. destruct (decide _); [eauto|]. rewrite IH. eauto. Qed.

Lemma comps_plain x : "/"%char ∉ x → comps x = [x].
Proof.
  induction x as [|c x IH]; [done|]. intros Hx. apply not_elem_of_cons in Hx as [Hc Hx]. cbn.
  rewrite decide_False by done. by rewrite IH.
Qed.

Lemma comps_slash x s : "/"%char ∉ x → comps (x ++ "/"%char :: s) = x :: comps s.
Proof.
  induction x as [|c x IH]; [done|]. intros Hx. apply not_elem_of_cons in Hx as [Hc Hx]. cbn.
  rewrite decide_False by done. by rewrite IH.
Qed.

Lemma comps_join l : l ≠ [] → Forall (λ x, "/"%char ∉ x) l → comps (join l) = l.
Proof.
  intros Hl Hf. induction Hf as [|x l Hx Hf IH]; [done|]. destruct l as [|y l]; [by apply comps_plain|].
  change (join (x :: y :: l)) with (x ++ "/"%char :: join (y :: l)). rewrite comps_slash by done. by rewrite IH.
Qed.

Lemma join_path_snoc q x : join (q ++ [x]) = match q with [] => x | _ => join q ++ "/"%char :: x end.
Proof.
  induction q as [|y q IH]; [done|]. destruct q as [|z q]; [done|].
  change (y ++ "/"%char :: join ((z :: q) ++ [x]) = (y ++ "/"%char :: join (z :: q)) ++ "/"%char :: x).
  rewrite IH, <- app_assoc. done.
Qed.

(** The cut that separate_pathname() makes. *)
Lemma separate_spec p : match index_of "/" p with
  | None => comps p = [p]
  | Some i => comps p = take i p :: comps (drop (S i) p) ∧ "/"%char ∉ take i p ∧ (i < length p)%nat
  end.
Proof.
  induction p as [|c p IH]; [done|]. cbn. destruct (decide (c = "/"%char)) as [->|Hc]; cbn.
  - split_and!; [done|apply not_elem_of_nil|lia].
  - destruct (index_of "/" p) as [i|]; cbn.
    + destruct IH as (-> & Hn & Hi). split_and!; [done| |lia]. apply not_elem_of_cons. done.
    + by rewrite IH.
Qed.

(** ** Following names *)

Lemma removelast_snoc {A} (l : list A) x : removelast (l ++ [x]) = l.
Proof. apply removelast_last. Qed.

Lemma enter_plain N d c d' : plain c → enter N d c = Some d' → d' = d ++ [c] ∧ N !! d' = Some KDir.
Proof.
  intros (H1 & H2 & H3 & H4). unfold enter. rewrite decide_False by done. destruct (decide _) as [[_ Hn]|]; [|done].
  by intros [= <-].
Qed.

Lemma enter_up N d c : enter N (d ++ [c]) dotdot = Some d.
Proof. unfold enter. rewrite decide_True by done. rewrite removelast_snoc. by destruct d. Qed.

Lemma find_step N d c cs : cs ≠ [] → find N d (c :: cs) = d' ← enter N d c; find N d' cs.
Proof. by destruct cs. Qed.

Lemma find_cons N d c cs a : cs ≠ [] → find N d (c :: cs) = Some a → ∃ d', enter N d c = Some d' ∧ find N d' cs = Some a.
Proof. intros Hcs. rewrite find_step by done. intros (d' & ? & ?)%bind_Some. eauto. Qed.

Lemma find_plain N cs : ∀ d a, Forall plain cs → find N d cs = Some a → a = d ++ cs.
Proof.
  induction cs as [|c cs IH]; intros d a Hp Hf; [done|]. apply Forall_cons in Hp as [Hc Hp].
  destruct (decide (cs = [])) as [->|Hne].
  - cbn in Hf. rewrite decide_True in Hf by done. by injection Hf as <-.
  - apply find_cons in Hf as (d' & He & Hf); [|done]. apply enter_plain in He as [-> _]; [|done].
    apply IH in Hf; [|done]. by rewrite Hf, <- app_assoc.
Qed.

(** A name that goes up first. *)
Lemma find_up N d c cs : cs ≠ [] → find N (d ++ [c]) (dotdot :: cs) = find N d cs.
Proof. intros Hcs. by rewrite find_step, enter_up. Qed.

(** A path whose directories all exist. *)
Lemma find_path N q x : ∀ d,
  Forall plain q → plain x → (∀ i, (0 < i ≤ length q)%nat → N !! (d ++ take i q) = Some KDir) →
  find N d (q ++ [x]) = Some (d ++ q ++ [x]).
Proof.
  induction q as [|c q IH]; intros d Hq Hx Hd.
  { cbn. by rewrite decide_True. }
  apply Forall_cons in Hq as [Hc Hq]. assert (q ++ [x] ≠ []) as Hne by (by destruct q).
  assert (enter N d c = Some (d ++ [c])) as He.
  { unfold enter. destruct Hc as (? & ? & ? & ?). rewrite decide_False by done.
    rewrite decide_True; [done|]. split; [done|]. apply (Hd 1%nat). cbn. lia. }
  cbn [app]. rewrite find_step, He by done. cbn [mbind option_bind].
  rewrite IH; [by rewrite <- app_assoc|done|done|]. intros i Hi.
  rewrite <- app_assoc. apply (Hd (S i)). cbn. lia.
Qed.
