(* ===== verification/FsstressMem.v ===== *)
(** * A directory tree in memory

    An executable system of the class [PosixTree]: the tree is a map, names of [limit]
    characters or more are too long, and random() is a linear congruential generator. *)
From stdpp Require Import base strings numbers option list gmap.
From Stdlib Require Import Ascii.
From S2P Require Import Prelude CInt CText Steps Fsstress FsstressTree.

#[local] Open Scope Z_scope.

Record mem := Mem { mem_tree : tree; mem_seed : Z; limit : nat }.

Definition set_tree (t : tree) (w : mem) : mem := Mem t (mem_seed w) (limit w).

Definition ENOENT : Z := 2.
Definition EEXIST : Z := 17.
Definition EINVAL : Z := 22.
Definition ENOTEMPTY : Z := 39.
Definition fails (e : Z) (w : mem) : reply * mem := (Reply (-1) e 0 0, w).
Definition succeeds (t : tree) (w : mem) : reply * mem := (Reply 0 0 8192 512, set_tree t w).

(** A name that is short enough and its place. *)
Definition with_place (p : text) (w : mem) (k : path → reply * mem) : reply * mem :=
  if decide (limit w ≤ length p)%nat then fails ENAMETOOLONG w
  else match resolve (mem_tree w) p with None => fails ENOENT w | Some a => k a end.

Definition make (p : text) (k : kind) (w : mem) : reply * mem :=
  with_place p w (λ a, if decide (nodes (mem_tree w) !! a = None) then succeeds (add_node a k (mem_tree w)) w else fails EEXIST w).

(** The tree after a move: the nodes that [moved] gives. *)
Definition move_nodes (N : nodemap) (a b : path) : nodemap :=
  let keys := (map_to_list N).*1 in
  list_to_map (omap (λ x, pair x <$> moved N a b x) (keys ++ ((λ p, b ++ drop (length a) p) <$> keys))).

(** The nodes right below a directory. *)
Definition children (N : nodemap) (a : path) : list (path * kind) :=
  filter (λ e, e.1 ≠ [] ∧ removelast e.1 = a) (map_to_list N).

Definition mem_sys (c : call) (w : mem) : reply * mem :=
  let t := mem_tree w in
  match c with
  | CCreat p _ => make p KReg w
  | CMkdir p _ => make p KDir w
  | CMknod p _ _ => make p KDev w
  | CSymlink _ p => make p KSym w
  | CLink p q =>
      with_place p w (λ a, with_place q w (λ b,
        match nodes t !! a with
        | None | Some KDir => fails ENOENT w
        | Some k => if decide (nodes t !! b = None) then succeeds (add_node b k t) w else fails EEXIST w
        end))
  | CRename p q =>
      with_place p w (λ a, with_place q w (λ b,
        if decide (nodes t !! a = None) then fails ENOENT w
        else if decide (a `prefix_of` b) then fails EINVAL w
        else if decide (nodes t !! b = None) then succeeds (Tree (move_nodes (nodes t) a b) (move_path a b (cwd t))) w
        else fails EEXIST w))
  | CUnlink p =>
      with_place p w (λ a, match nodes t !! a with None | Some KDir => fails ENOENT w | Some _ => succeeds (del_node a t) w end)
  | CRmdir p =>
      with_place p w (λ a,
        if decide (nodes t !! a = Some KDir ∧ children (nodes t) a = []) then succeeds (del_node a t) w else fails ENOTEMPTY w)
  | CChdir c => match enter (nodes t) (cwd t) c with Some d => succeeds (Tree (nodes t) d) w | None => fails ENOENT w end
  | CReadlink _ n => if decide (0 < n) then succeeds t w else fails EINVAL w
  | _ => succeeds t w
  end.

Definition mem_random (w : mem) : Z * mem :=
  let seed := (mem_seed w * 1103515245 + 12345) mod 4294967296 in
  (seed / 2, Mem (mem_tree w) seed (limit w)).

(** ** It behaves like the tree *)

Lemma lookup_move_nodes N a b x : move_nodes N a b !! x = moved N a b x.
Proof.
  unfold move_nodes. set (keys := (map_to_list N).*1). set (K := keys ++ _).
  assert (list_to_map (omap (λ x, pair x <$> moved N a b x) K) !! x =@{option kind} if decide (x ∈ K) then moved N a b x else None) as ->.
  { clearbody K. clear. induction K as [|y K IH]; [by rewrite decide_False by apply not_elem_of_nil|].
    cbn. destruct (moved N a b y) as [k|] eqn:E; cbn.
    - destruct (decide (x = y)) as [->|Hne].
      + rewrite lookup_insert_eq, decide_True; [done|apply list_elem_of_here].
      + rewrite lookup_insert_ne, IH by done.
        destruct (decide (x ∈ K)) as [Hin|Hin], (decide (x ∈ y :: K)) as [Hin'|Hin']; set_solver.
    - rewrite IH. destruct (decide (x ∈ K)) as [Hin|Hin], (decide (x ∈ y :: K)) as [Hin'|Hin']; try done; [set_solver|].
      apply elem_of_cons in Hin' as [->|?]; done. }
  destruct (decide (x ∈ K)) as [|Hni]; [done|]. symmetry. destruct (moved N a b x) as [k|] eqn:E; [|done]. destruct Hni.
  assert (∀ p k, N !! p = Some k → p ∈ keys) as Hkeys.
  { intros p k' Hp. apply list_elem_of_fmap. exists (p, k'). split; [done|]. by apply elem_of_map_to_list. }
  unfold K. apply elem_of_app. unfold moved in E. destruct (decide (b `prefix_of` x)) as [[r ->]|].
  - right. rewrite drop_app_length in E. apply list_elem_of_fmap. exists (a ++ r). rewrite drop_app_length. eauto.
  - destruct (decide _); [done|]. left. eauto.
Qed.

Lemma children_none N a : children N a = [] → ∀ n, N !! (a ++ [n]) = None.
Proof.
  intros Hc n. destruct (N !! (a ++ [n])) as [k|] eqn:E; [|done]. exfalso.
  apply (filter_nil_not_elem_of _ _ (a ++ [n], k)) in Hc; cbn.
  - by apply Hc, elem_of_map_to_list.
  - split; [by destruct a|apply removelast_last].
Qed.

#[export] Program Instance mem_kernel : Kernel mem := { sys := mem_sys; random := mem_random }.
Next Obligation. intros w. cbn. pose proof (Z.mod_pos_bound (mem_seed w * 1103515245 + 12345) 4294967296). qlia. Qed.
Next Obligation.
  intros c w. destruct c; cbn -[resolve]; unfold make, with_place; repeat first [case_decide|case_match]; split; cbn; (clia || done).
Qed.

(** What a call with a place does. *)
Lemma with_place_ok p w k : 0 ≤ ret (with_place p w k).1 → ∃ a, resolve (mem_tree w) p = Some a ∧ with_place p w k = k a.
Proof. unfold with_place. case_decide; [done|]. destruct (resolve _ p) as [a|]; [|done]. eauto. Qed.

Lemma make_creates p k w : 0 ≤ ret (make p k w).1 → creates (mem_tree w) (mem_tree (make p k w).2) p k.
Proof.
  unfold make. intros Hr. destruct (with_place_ok _ _ _ Hr) as (a & Ha & E). rewrite E in *.
  intros a' Ha' Hn. rewrite Ha in Ha'. injection Ha' as <-. by rewrite decide_True.
Qed.

Lemma mem_call_ok c w : 0 ≤ ret (mem_sys c w).1 → effect c (mem_tree w) (mem_tree (mem_sys c w).2).
Proof.
  intros Hr. destruct c; try done; cbn [mem_sys effect] in *; try (intros; by apply make_creates).
  - destruct (with_place_ok _ _ _ Hr) as (a & Ha & E). rewrite E in *. destruct (with_place_ok _ _ _ Hr) as (b & Hb & E'). rewrite E' in *.
    intros a' b' Ha' Hb' Hn. simplify_eq. destruct (nodes _ !! a) as [[]|]; try done; rewrite decide_True by done; eauto.
  - destruct (with_place_ok _ _ _ Hr) as (a & Ha & E). rewrite E in *. destruct (with_place_ok _ _ _ Hr) as (b & Hb & E'). rewrite E' in *.
    intros a' b' Ha' Hb' Hn. simplify_eq. case_decide; [done|]. case_decide; [done|]. rewrite decide_True by done. cbn.
    split_and!; [done| |done]. intros x. apply lookup_move_nodes.
  - destruct (with_place_ok _ _ _ Hr) as (a & Ha & E). rewrite E in *. intros a' k Ha' Hk Hd. simplify_eq. rewrite Hk. by destruct k.
  - destruct (with_place_ok _ _ _ Hr) as (a & Ha & E). rewrite E in *. intros a' Ha' Hk. simplify_eq.
    case_decide as Hc; [|done]. split; [by apply children_none, Hc|done].
  - intros d _ Hd. by rewrite Hd.
  - case_decide; done.
Qed.

Lemma mem_call_fails c w : ret (mem_sys c w).1 < 0 → mem_tree (mem_sys c w).2 = mem_tree w.
Proof.
  intros Hr. destruct c; cbn -[resolve] in *; unfold make, with_place in *; repeat first [case_decide|case_match]; done.
Qed.

#[export] Program Instance mem_posix : PosixTree mem := { tree_of := mem_tree }.
Next Obligation. apply mem_call_ok. Qed.
Next Obligation. apply mem_call_fails. Qed.
Next Obligation. intros w. cbn. by destruct (cwd (mem_tree w)). Qed.
Next Obligation. intros w Hw. cbn. by destruct (cwd (mem_tree w)). Qed.
Next Obligation. done. Qed.
