(* ===== verification/FsstressPath.v ===== *)
(** * Calls on long names

    The functions that make a call on a name of any length: however often the system
    finds a name too long, the program is back in its directory afterwards, and a call
    that succeeds has had the effect that the whole name stands for. *)
From stdpp Require Import base strings numbers option list gmap.
From Stdlib Require Import Ascii.
From S2P Require Import Prelude CInt CText Steps Fsstress FsstressTree.

#[local] Open Scope Z_scope.

(** States that differ in errno only. *)
Definition same (s s' : fss) : Prop := set_errno 0 s' = set_errno 0 s.

Lemma same_refl s : same s s.
Proof. done. Qed.
Lemma same_trans s1 s2 s3 : same s1 s2 → same s2 s3 → same s1 s3.
Proof. unfold same. congruence. Qed.
Lemma same_set_errno e s : same s (set_errno e s).
Proof. done. Qed.
#[export] Hint Resolve same_refl same_set_errno : core.

Section path.
Context {W : Type} `{PosixTree W} {stuck : Prop} (stop : Z → fss → W → Prop).
#[local] Abbreviation twp := (wp stuck stop).

Lemma twp_rnd s w (Q : Z → fss → W → Prop) :
  (∀ r w', 0 ≤ r ≤ INT_MAX → tree_of w' = tree_of w → Q r s w') → twp rnd s w Q.
Proof.
  intros Hq. unfold wp, rnd. pose proof (random_range w). pose proof (random_tree w).
  destruct (random w) as [r w']. by apply Hq.
Qed.

Lemma twp_invoke c s w (Q : reply → fss → W → Prop) :
  (∀ r s' w', sys c w = (r, w') → reply_wf c r → same s s' → (ret r < 0 → 0 < errno s') → (0 ≤ ret r → s' = s) →
    (0 ≤ ret r → effect c (tree_of w) (tree_of w')) → (ret r < 0 → tree_of w' = tree_of w) → Q r s' w') →
  twp (invoke c) s w Q.
Proof.
  intros Hq. unfold wp, invoke. pose proof (sys_wf c w) as Hwf. pose proof (call_ok c w). pose proof (call_fails c w).
  destruct (sys c w) as [r w'] eqn:E. cbn in *. destruct (decide (ret r < 0)); apply Hq; try done.
  - intros _. by apply Hwf.
  - lia.
Qed.

(** The end of a call: a failure has a reason and changes nothing. *)
Definition ends (t : tree) (E : reply → nodemap → nodemap → Prop) (s : fss) (r : reply) (s' : fss) (w' : W) : Prop :=
  same s s' ∧ (ret r < 0 → 0 < errno s' ∧ tree_of w' = t) ∧
  (0 ≤ ret r → E r (nodes t) (nodes (tree_of w')) ∧ cwd (tree_of w') = cwd t).

Lemma ends_same t E s s1 r s' w' : same s s1 → ends t E s1 r s' w' → ends t E s r s' w'.
Proof. intros ? (? & ?). split; [by eapply same_trans|done]. Qed.

(** ** A step down and back *)

Lemma twp_within_empty rval m s w t E :
  tree_of w = t → ret rval < 0 → twp (within [] rval m) s w (ends t E s).
Proof.
  intros <- Hr. unfold within. apply wp_bind, twp_invoke. intros r s' w' Hsys _ Hs He _ _ Ht.
  pose proof (chdir_empty w) as Hc. rewrite Hsys in Hc. cbn in Hc. rewrite decide_False by lia.
  apply wp_ret. split_and!; [done|auto|lia].
Qed.

Lemma twp_within (buf : text) (rval : reply) (m : M W reply) (s : fss) (w : W) (N : nodemap) (d : path) (E : reply → nodemap → nodemap → Prop) :
  tree_of w = Tree N d → plain buf → enter N d buf = Some (d ++ [buf]) → ret rval < 0 →
  (∀ w', tree_of w' = Tree N (d ++ [buf]) → twp m s w' (ends (Tree N (d ++ [buf])) E s)) →
  twp (within buf rval m) s w (ends (Tree N d) E s).
Proof.
  intros Hw Hb He Hr Hm. unfold within. apply wp_bind, twp_invoke. intros r s1 w1 _ [_ Hwf] Hs1 Hf Hok Heff Hfail.
  cbn in Hwf. rewrite Hw in *. destruct (decide (ret r = 0)) as [E0|].
  2:{ apply wp_ret. split_and!; [done|intros _; split; [apply Hf|apply Hfail]; lia|lia]. }
  rewrite Hok in * by lia. assert (tree_of w1 = Tree N (d ++ [buf])) as Hw1 by (apply Heff; [lia|apply Hb|done]).
  apply wp_bind. eapply wp_mono; [by apply Hm|]. cbn. clear - Hb. intros rv s2 w2 (Hs2 & Hneg & Hpos).
  assert (∃ N', tree_of w2 = Tree N' (d ++ [buf]) ∧ (ret rv < 0 → N' = N) ∧ (0 ≤ ret rv → E rv N N')) as (N' & Hw2 & HN1 & HN2).
  { destruct (decide (ret rv < 0)).
    - destruct Hneg as [_ ->]; [done|]. exists N. split_and!; [done|done|lia].
    - destruct Hpos as [? Hc]; [lia|]. destruct (tree_of w2) as [N' d']. cbn in *. subst. exists N'. split_and!; [done|lia|done]. }
  apply wp_bind, twp_invoke. intros r3 s3 w3 Hsys [_ Hwf] Hs3 _ Hok3 Heff _.
  pose proof (chdir_up w2) as Hup. rewrite Hw2 in Hup. cbn in Hup. change (chars "..") with dotdot in Hsys.
  rewrite Hsys in Hup. cbn in Hup. assert (ret r3 = 0) as Hr3 by (apply Hup; by destruct d).
  rewrite Hok3 by lia. apply wp_ret. assert (tree_of w3 = Tree N' d) as Hw3.
  { rewrite Hw2 in Heff. apply Heff; [lia| |apply enter_up]. by_decide. }
  split_and!; [done| |].
  - intros Hlt. split; [by apply Hneg|]. by rewrite Hw3, HN1.
  - intros Hge. rewrite Hw3. cbn. auto.
Qed.

(** ** One name *)

(** The components of a name fit the buffer they are copied to; none starts like the
    value of a symbolic link. *)
Definition proper (c : text) : Prop := plain c ∧ (length c < MAXNAMELEN)%nat ∧ head c ≠ Some "x"%char.
Definition fits (p : text) : Prop := Forall proper (comps p).

(** A name of the place [a]; a name without a slash need not be a place if the call
    does nothing to the tree. *)
Definition named (free : Prop) (t : tree) (a : path) (p : text) : Prop :=
  (resolve t p = Some a ∧ fits p) ∨ (free ∧ "/"%char ∉ p).

(** What a call does to the nodes of the tree, if they satisfy [P]. *)
Definition call_spec (free : Prop) (P : nodemap → Prop) (call : text → M W reply) (a : path) (E : reply → nodemap → nodemap → Prop) : Prop :=
  ∀ p s w, P (nodes (tree_of w)) → named free (tree_of w) a p → twp (call p) s w (ends (tree_of w) E s).

Lemma separate_none p : index_of "/" p = None → separate_pathname (Some p) = Done ([], None).
Proof. intros E. unfold separate_pathname. cbn. by rewrite E. Qed.

Lemma separate_some p i :
  index_of "/" p = Some i → fits p →
  separate_pathname (Some p) = Done (take i p, Some (drop (S i) p)) ∧
  comps p = take i p :: comps (drop (S i) p) ∧ plain (take i p) ∧ fits (drop (S i) p) ∧ (length (drop (S i) p) < length p)%nat.
Proof.
  intros E Hf. pose proof (separate_spec p) as Hs. rewrite E in Hs. destruct Hs as (Hc & Hn & Hi).
  unfold fits in Hf. rewrite Hc in Hf. apply Forall_cons in Hf as [(Hp & Hl & _) Hf]. rewrite length_take in Hl.
  unfold separate_pathname. cbn. rewrite E. rewrite decide_True by lia.
  split_and!; [done|done|done|done|]. rewrite length_drop. lia.
Qed.

(** The rest of a name in the directory its first component names. *)
Lemma resolve_rest N d p i a :
  index_of "/" p = Some i → fits p → resolve (Tree N d) p = Some a →
  enter N d (take i p) = Some (d ++ [take i p]) ∧ resolve (Tree N (d ++ [take i p])) (drop (S i) p) = Some a.
Proof.
  intros E Hf. apply separate_some in E as (_ & Hc & Hp & _); [|done]. unfold resolve. cbn. rewrite Hc.
  intros (d' & He & Hr)%find_cons; [|by destruct (comps_cons (drop (S i) p)) as (? & ? & ->)].
  destruct (enter_plain _ _ _ _ Hp He) as [-> _]. done.
Qed.

Lemma no_slash_index p : "/"%char ∉ p → index_of "/" p = None.
Proof. apply index_of_notin. Qed.

(** The call again in the directory that the first component of a name names. *)
Lemma twp_down p i x N d E rval m s s1 w :
  fits p → index_of "/" p = Some i → resolve (Tree N d) p = Some x → tree_of w = Tree N d → same s s1 → ret rval < 0 →
  (∀ w', tree_of w' = Tree N (d ++ [take i p]) → fits (drop (S i) p) → (length (drop (S i) p) < length p)%nat →
    resolve (tree_of w') (drop (S i) p) = Some x → twp m s1 w' (ends (tree_of w') E s1)) →
  twp (within (take i p) rval m) s1 w (ends (Tree N d) E s).
Proof.
  intros Hf Hi Hx Hw Hs Hr Hm. destruct (separate_some p i Hi Hf) as (_ & _ & Hpl & Hf' & Hl).
  destruct (resolve_rest N d p i x) as [Hent Hres]; [done..|].
  eapply wp_mono; [apply twp_within; [done..|]|intros r s2 w2; by apply ends_same].
  intros w2 Hw2. rewrite <- Hw2. apply Hm; [done..|]. by rewrite Hw2.
Qed.

(** There is nothing to go down to. *)
Lemma twp_stay rval m s s1 w t E :
  tree_of w = t → ret rval < 0 → same s s1 → twp (within [] rval m) s1 w (ends t E s).
Proof. intros. eapply wp_mono; [by apply twp_within_empty|]. intros r s2 w2. by apply ends_same. Qed.

Lemma twp_path_loop free P call a E : call_spec free P call a E → ∀ fuel p s w,
  (length p < fuel)%nat → P (nodes (tree_of w)) → named free (tree_of w) a p → twp (path_loop fuel call (Some p)) s w (ends (tree_of w) E s).
Proof.
  intros Hcall. induction fuel as [|fuel IH]; intros p s w Hfuel HP Hp; [lia|]. cbn [path_loop].
  apply wp_bind. eapply wp_lift; [done|]. apply wp_bind. eapply wp_mono; [by apply Hcall|]. cbv beta.
  intros rval s1 w1 (Hs1 & Hneg & Hpos). apply wp_bind, wp_get. destruct (decide _) as [|Hlong].
  { by apply wp_ret. }
  assert (ret rval < 0) as Hlt by lia. destruct Hneg as [_ Hw1]; [done|]. clear Hpos Hlong. apply wp_bind.
  destruct (index_of "/" p) as [i|] eqn:Ei.
  - destruct Hp as [[Hres Hfit]|[_ Hns]]; [|by rewrite no_slash_index in Ei].
    eapply wp_lift; [by apply separate_some|]. destruct (tree_of w) as [N d]. eapply twp_down; [done..|].
    intros w2 Hw2 Hf' Hl Hres'. apply IH; [lia|by rewrite Hw2|by left].
  - eapply wp_lift; [by apply separate_none|]. by apply twp_stay.
Qed.

Lemma twp_path_call free P call a E p s w (Q : reply → fss → W → Prop) :
  call_spec free P call a E → P (nodes (tree_of w)) → named free (tree_of w) a p →
  (∀ r s' w', ends (tree_of w) E s r s' w' → Q r s' w') → twp (path_call call (Some p)) s w Q.
Proof.
  intros Hc HP Hp Hq. unfold path_call. eapply wp_mono; [eapply twp_path_loop; [done| |done|done]; cbn; lia|]. done.
Qed.

Lemma twp_path_ret free P call a E p s w (Q : Z → fss → W → Prop) :
  call_spec free P call a E → P (nodes (tree_of w)) → named free (tree_of w) a p →
  (∀ r s' w', ends (tree_of w) E s r s' w' → Q (ret r) s' w') → twp (path_ret call (Some p)) s w Q.
Proof. intros Hc HP Hp Hq. unfold path_ret. apply wp_bind. eapply twp_path_call; [done..|]. intros r s' w' He. by apply wp_ret, Hq. Qed.

(** ** The calls with one name *)

Lemma spec_invoke (free : Prop) (P : nodemap → Prop) (c : text → call) (a : path) (E : reply → nodemap → nodemap → Prop) :
  (∀ p r t t', reply_wf (c p) r → 0 ≤ ret r → P (nodes t) → named free t a p → effect (c p) t t' →
    E r (nodes t) (nodes t') ∧ cwd t' = cwd t) →
  call_spec free P (λ p, invoke (c p)) a E.
Proof.
  intros Heff p s w HP Hp. apply twp_invoke. intros r s' w' _ Hwf Hs He _ Hok Hfail. split_and!; [done|auto|]. eauto.
Qed.

(** A call that leaves the tree alone; its reply is as it should be. *)
Definition leaves (R : reply → Prop) : reply → nodemap → nodemap → Prop := λ r N N', R r ∧ N' = N.

Lemma spec_neutral (R : reply → Prop) (c : text → call) a :
  (∀ p t t', effect (c p) t t' → t' = t) → (∀ p r, reply_wf (c p) r → 0 ≤ ret r → R r) →
  call_spec True (λ _, True) (λ p, invoke (c p)) a (leaves R).
Proof. intros Hc HR. apply spec_invoke. intros p r t t' Hwf Hr _ _ ->%Hc. split; [|done]. split; eauto. Qed.

(** A new node. *)
Definition makes (a : path) (k : kind) : reply → nodemap → nodemap → Prop := λ _ N N', N' = <[a := k]> N.

Lemma spec_makes (c : text → call) a k :
  (∀ p t t', effect (c p) t t' → creates t t' p k) →
  call_spec False (λ N, N !! a = None) (λ p, invoke (c p)) a (makes a k).
Proof.
  intros Hc. apply spec_invoke. intros p r t t' _ _ HN [[Hp _]|[[] _]] He%Hc. by rewrite (He a Hp HN).
Qed.

Lemma spec_unlink a k : k ≠ KDir →
  call_spec False (λ N, N !! a = Some k) (λ p, invoke (CUnlink p)) a (λ _ N N', N' = delete a N).
Proof. intros Hk. apply spec_invoke. intros p r t t' _ _ HN [[Hp _]|[[] _]] He. by rewrite (He a k Hp HN Hk). Qed.

Lemma spec_rmdir a :
  call_spec False (λ N, N !! a = Some KDir) (λ p, invoke (CRmdir p)) a
    (λ _ N N', (∀ n, N !! (a ++ [n]) = None) ∧ N' = delete a N).
Proof. apply spec_invoke. intros p r t t' _ _ HN [[Hp _]|[[] _]] He. by destruct (He a Hp HN) as [? ->]. Qed.

(** symlink_path(): the value of the link is not the name. *)
Lemma spec_symlink a val : (∀ p, fits p → val ≠ p) →
  call_spec False (λ N, N !! a = None) (λ p, if decide (val = p) then mret (Reply 0 0 0 0) else invoke (CSymlink val p)) a (makes a KSym).
Proof.
  intros Hv p s w HN Hp. rewrite decide_False; [|destruct Hp as [[_ ?]|[[] _]]; by apply Hv].
  by apply (spec_makes (CSymlink val)).
Qed.

Lemma spec_readlink a n : 0 < n → call_spec True (λ _, True) (λ p,
  r ← invoke (CReadlink p (n - 1));
  _ ← lift (if decide (0 ≤ ret r ∧ n ≤ ret r) then Fault else Done ());
  mret r) a (leaves (λ _, True)).
Proof.
  intros Hn p s w _ Hp. apply wp_bind, twp_invoke. intros r s' w' _ [_ Hwf] Hs He _ Hok Hfail. cbn in Hwf.
  apply wp_bind. eapply wp_lift; [by rewrite decide_False by lia|]. apply wp_ret.
  split_and!; [done|auto|]. intros Hr. by rewrite (Hok Hr).
Qed.

(** ** Two names *)

Definition up (p : text) : text := chars "../" ++ p.

Lemma resolve_up N d c p : resolve (Tree N (d ++ [c])) (up p) = resolve (Tree N d) p.
Proof.
  unfold resolve, up. cbn [nodes cwd]. change (chars "../" ++ p) with (dotdot ++ "/"%char :: p).
  rewrite comps_slash by by_decide. apply find_up. by destruct (comps_cons p) as (? & ? & ->).
Qed.

Lemma separate_up p : separate_pathname (Some (up p)) = Done (dotdot, Some p).
Proof. done. Qed.

(** The names a call is made with: both go down from the current directory, or one
    of them starts with [../]; the bound is what is left to go down. *)
Inductive shape : text → text → nat → Prop :=
  | shape_both p1 p2 : fits p1 → fits p2 → shape p1 p2 (length p1 + length p2)
  | shape_first p1 p2 : fits p1 → shape p1 (up p2) (length p1)
  | shape_second p1 p2 : fits p2 → shape (up p1) p2 (length p2).

(** The current directory is not in [a], or it is on the way to [b]. *)
Definition away (t : tree) (a b : path) : Prop := ¬ a `prefix_of` cwd t ∨ cwd t `prefix_of` b.

Definition paths_spec (P : nodemap → Prop) (c : text → text → call) (a b : path) (E : reply → nodemap → nodemap → Prop) : Prop :=
  ∀ p q s w, P (nodes (tree_of w)) → resolve (tree_of w) p = Some a → resolve (tree_of w) q = Some b → away (tree_of w) a b →
    twp (invoke (c p q)) s w (ends (tree_of w) E s).

Lemma resolve_fits t p a : fits p → resolve t p = Some a → a = cwd t ++ comps p.
Proof. intros Hf. apply find_plain. eapply Forall_impl; [done|]. by intros ? []. Qed.

Lemma shape_away t a b p1 p2 n :
  shape p1 p2 n → resolve t p1 = Some a → resolve t p2 = Some b → away t a b.
Proof.
  assert (∀ p, fits p → resolve t p = Some a → ¬ a `prefix_of` cwd t) as Hfirst.
  { intros p Hf Ha. apply resolve_fits in Ha as ->; [|done]. intros Hp%prefix_length.
    destruct (comps_cons p) as (x & l & E). rewrite E, length_app in Hp. cbn in Hp. lia. }
  intros [p q ? ?|p q ?|p q ?] Ha Hb; [left; eauto..|]. right. apply resolve_fits in Hb as ->; [|done]. by apply prefix_app_r.
Qed.

(** One step of the loop: the names that are handed on. *)
Lemma twp_paths_step (P : nodemap → Prop) p1 p2 n N d a b E rval s s1 w (loop : pathname → pathname → M W reply) :
  shape p1 p2 n → resolve (Tree N d) p1 = Some a → resolve (Tree N d) p2 = Some b → P N →
  tree_of w = Tree N d → same s s1 → ret rval < 0 →
  (∀ q1 q2 m w', shape q1 q2 m → (m < n)%nat → P (nodes (tree_of w')) → resolve (tree_of w') q1 = Some a →
    resolve (tree_of w') q2 = Some b → twp (loop (Some q1) (Some q2)) s1 w' (ends (tree_of w') E s1)) →
  twp (
    '(buf1, newname1) ← lift (separate_pathname (Some p1));
    '(buf2, newname2) ← lift (separate_pathname (Some p2));
    let up p := append_pathname (append_pathname init_pathname (chars "../")) p in
    if decide (buf1 = buf2) then within buf1 rval (loop newname1 newname2)
    else if down1 buf1 buf2 (Some p1) (Some p2) newname1 newname2
    then within buf1 rval (loop newname1 (up p2))
    else within buf2 rval (loop (up p1) newname2)) s1 w (ends (Tree N d) E s).
Proof.
  intros Hshape Ha Hb HP Hw Hs Hr Hloop. cbv zeta.
  assert (∀ p i q, fits p → index_of "/" p = Some i → (length p ≤ n)%nat → resolve (Tree N d) p = Some a →
    resolve (Tree N d) q = Some b →
    twp (within (take i p) rval (loop (Some (drop (S i) p)) (Some (up q)))) s1 w (ends (Tree N d) E s)) as Hfirst.
  { intros p i q Hf Hi Hl Hp Hq. eapply twp_down; [done..|]. intros w2 Hw2 Hf' Hl' Hres'.
    eapply Hloop; [by apply shape_first|lia|by rewrite Hw2|done|]. by rewrite Hw2, resolve_up. }
  assert (∀ p i q, fits p → index_of "/" p = Some i → (length p ≤ n)%nat → resolve (Tree N d) p = Some b →
    resolve (Tree N d) q = Some a →
    twp (within (take i p) rval (loop (Some (up q)) (Some (drop (S i) p)))) s1 w (ends (Tree N d) E s)) as Hsecond.
  { intros p i q Hf Hi Hl Hp Hq. eapply twp_down; [done..|]. intros w2 Hw2 Hf' Hl' Hres'.
    eapply Hloop; [by apply shape_second|lia|by rewrite Hw2| |done]. by rewrite Hw2, resolve_up. }
  assert (∀ p i, fits p → index_of "/" p = Some i → take i p ≠ [] ∧ take i p ≠ dotdot) as Hne.
  { intros p i Hf Hi. destruct (separate_some p i Hi Hf) as (_ & _ & (? & _ & ? & _) & _). done. }
  destruct Hshape as [p1 p2 F1 F2|p1 p2 F1|p1 p2 F2].
  - destruct (index_of "/" p1) as [i|] eqn:E1, (index_of "/" p2) as [j|] eqn:E2; apply wp_bind;
      (eapply wp_lift; [first [by apply separate_some|by apply separate_none]|]; apply wp_bind;
       eapply wp_lift; [first [by apply separate_some|by apply separate_none]|]; cbv beta iota).
    + case_decide as Eq.
      * eapply twp_down; [done..|]. intros w2 Hw2 Hf' Hl' Hres'.
        destruct (separate_some p2 j E2 F2) as (_ & _ & _ & F2' & L2).
        eapply Hloop; [by apply shape_both|lia|by rewrite Hw2|done|]. rewrite Hw2, Eq.
        by apply (resolve_rest N d p2 j b).
      * destruct (down1 _ _ _ _ _ _); [apply Hfirst|apply Hsecond]; (done || lia).
    + destruct (Hne p1 i) as [Hn1 Hn2]; [done..|]. unfold down1. rewrite !decide_False by done. rewrite decide_True by done.
      apply Hfirst; (done || lia).
    + destruct (Hne p2 j) as [Hn1 Hn2]; [done..|]. unfold down1. rewrite !decide_False by done. rewrite decide_True by done.
      apply Hsecond; (done || lia).
    + rewrite decide_True by done. by apply twp_stay.
  - destruct (index_of "/" p1) as [i|] eqn:E1; apply wp_bind;
      (eapply wp_lift; [first [by apply separate_some|by apply separate_none]|]; apply wp_bind;
       eapply wp_lift; [apply separate_up|]; cbv beta iota); unfold down1.
    + destruct (Hne p1 i) as [Hn1 Hn2]; [done..|]. rewrite !decide_False by done. rewrite decide_True by done.
      apply Hfirst; (done || lia).
    + by apply twp_stay.
  - destruct (index_of "/" p2) as [i|] eqn:E2; apply wp_bind; (eapply wp_lift; [apply separate_up|]; apply wp_bind;
      eapply wp_lift; [first [by apply separate_some|by apply separate_none]|]; cbv beta iota); unfold down1.
    + destruct (Hne p2 i) as [Hn1 Hn2]; [done..|]. rewrite decide_False by done. rewrite decide_True by done.
      apply Hsecond; (done || lia).
    + by apply twp_stay.
Qed.

Lemma twp_paths_loop P c a b E : paths_spec P c a b E → ∀ fuel p1 p2 n s w,
  shape p1 p2 n → (n < fuel)%nat → P (nodes (tree_of w)) →
  resolve (tree_of w) p1 = Some a → resolve (tree_of w) p2 = Some b →
  twp (paths_loop fuel c (Some p1) (Some p2)) s w (ends (tree_of w) E s).
Proof.
  intros Hcall. induction fuel as [|fuel IH]; intros p1 p2 n s w Hshape Hfuel HP Ha Hb; [lia|]. cbn [paths_loop].
  apply wp_bind. eapply wp_lift; [done|]. apply wp_bind. eapply wp_lift; [done|]. apply wp_bind.
  eapply wp_mono; [apply Hcall; [done|done|done|by eapply shape_away]|]. cbv beta.
  intros rval s1 w1 (Hs1 & Hneg & Hpos). apply wp_bind, wp_get. destruct (decide _) as [|Hlong].
  { by apply wp_ret. }
  destruct Hneg as [_ Hw1]; [lia|]. destruct (tree_of w) as [N d]. eapply (twp_paths_step P); [done..|lia|].
  intros q1 q2 m w' Hq Hm HP' Ha' Hb'. eapply IH; [done|lia|done..].
Qed.

Lemma twp_paths_call P c a b E p1 p2 s w (Q : Z → fss → W → Prop) :
  paths_spec P c a b E → P (nodes (tree_of w)) → fits p1 → fits p2 →
  resolve (tree_of w) p1 = Some a → resolve (tree_of w) p2 = Some b →
  (∀ r s' w', ends (tree_of w) E s r s' w' → Q (ret r) s' w') → twp (paths_call c (Some p1) (Some p2)) s w Q.
Proof.
  intros Hc HP F1 F2 Ha Hb Hq. unfold paths_call. apply wp_bind. eapply wp_mono.
  - eapply twp_paths_loop; [done|by apply shape_both| |done..]. cbn. lia.
  - intros r s' w' He. by apply wp_ret, Hq.
Qed.

(** ** The calls with two names *)

Lemma spec_link a b k :
  paths_spec (λ N, N !! a = Some k ∧ N !! b = None) CLink a b (λ _ N N', k ≠ KDir ∧ N' = <[b := k]> N).
Proof.
  intros p q s w [Hk HN] Hp Hq _. apply twp_invoke. intros r s' w' _ _ Hs He _ Hok Hfail. split_and!; [done|auto|].
  intros Hr. destruct (Hok Hr a b Hp Hq HN) as (k' & Hk' & Hd & ->). rewrite Hk in Hk'. by injection Hk' as <-.
Qed.

Lemma spec_rename a b :
  paths_spec (λ N, N !! b = None) CRename a b (λ _ N N', ¬ a `prefix_of` b ∧ ∀ x, N' !! x = moved N a b x).
Proof.
  intros p q s w HN Hp Hq Haway. apply twp_invoke. intros r s' w' _ _ Hs He _ Hok Hfail. split_and!; [done|auto|].
  intros Hr. destruct (Hok Hr a b Hp Hq HN) as (Hab & Hx & Hc). split_and!; [done|done|]. rewrite Hc.
  unfold move_path. rewrite decide_False; [done|]. intros Ha. destruct Haway as [|Hb]; [done|]. apply Hab. by etrans.
Qed.
End path.
