(* ===== verification/FsstressLists.v ===== *)
(** * The lists of fsstress

    The lists of files stand for lists without a bound, the cache of directories never
    changes what a search finds, and names of different files are different. *)
From stdpp Require Import base strings numbers option list.
From Stdlib Require Import Ascii.
From S2P Require Import Prelude CInt CText Steps Fsstress FsstressTree.

#[local] Open Scope Z_scope.

(** ** Names *)

(** The number of characters appended to a name of [i] characters. *)
Definition pad_len (rand id : Z) (i : nat) : nat :=
  if decide (rand = 0) then 0
  else
    let x := Z.lxor id rand in
    let padmod := default 0 (buckets !! Z.to_nat (x mod 8)) + 1 - Z.of_nat i in
    if decide (padmod ≤ 0) then 0 else Z.to_nat (x mod padmod).

Definition base_name (ft : ftype) (id : Z) : text := ft_tag ft :: print_base 16 id.
Definition name_of (rand : Z) (ft : ftype) (id : Z) : text :=
  base_name ft id ++ replicate (pad_len rand id (length (base_name ft id))) "X"%char.

Lemma base_name_length ft id : 0 ≤ id ≤ INT_MAX → (length (base_name ft id) ≤ 9)%nat.
Proof.
  intros Hid. cbn. unfold print_base. rewrite fixed_digits_length. apply le_n_S, ndigits_loop_le; [lia|clia|lia].
Qed.

Lemma lxor_range x y : 0 ≤ x ≤ INT_MAX → 0 ≤ y ≤ INT_MAX → 0 ≤ Z.lxor x y ≤ INT_MAX.
Proof. intros Hx Hy. pose proof (lxor_bound 31 x y). clia. Qed.

Lemma bucket_bound i b : buckets !! i = Some b → 0 < b < Z.of_nat MAXNAMELEN.
Proof.
  do 8 (destruct i as [|i]; [cbn; intros [= <-]; cbn; unfold MAXNAMELEN; lia|]). done.
Qed.

(** The name of a file fits the buffer. *)
Lemma file_name_ok cfg ft id :
  0 ≤ namerand cfg ≤ INT_MAX → 0 ≤ id ≤ INT_MAX →
  file_name cfg (ft_tag ft) id = Done (name_of (namerand cfg) ft id) ∧ (length (name_of (namerand cfg) ft id) < MAXNAMELEN)%nat.
Proof.
  intros Hr Hid. unfold file_name, name_of, namerandpad. rewrite (u32_small id) by clia. cbv zeta.
  change (ft_tag ft :: print_base 16 id) with (base_name ft id). pose proof (base_name_length ft id Hid) as Hl.
  unfold pad_len. destruct (decide _) as [|Hne].
  { cbn [replicate Z.to_nat]. rewrite app_nil_r. split; [done|unfold MAXNAMELEN; lia]. }
  pose proof (lxor_range id (namerand cfg) Hid Hr) as Hx. set (x := Z.lxor id (namerand cfg)) in *. cbv zeta.
  assert (u64 x = x) as -> by (unfold u64; apply Z.mod_small; clia).
  pose proof (Z.mod_pos_bound x 8 ltac:(lia)) as Hb.
  destruct (lookup_lt_is_Some_2 buckets (Z.to_nat (x mod 8))) as [b Hlk]; [cbn; lia|].
  rewrite Hlk. cbn [load default from_option Datatypes.id mbind outcome_bind]. pose proof (bucket_bound _ _ Hlk) as Hbb.
  destruct (decide (b + 1 - Z.of_nat (length (base_name ft id)) ≤ 0)) as [|Hp].
  { cbn [replicate Z.to_nat]. rewrite app_nil_r. split; [done|unfold MAXNAMELEN; lia]. }
  set (m := b + 1 - _) in *. rewrite Z.rem_mod_nonneg by lia. pose proof (Z.mod_pos_bound x m ltac:(lia)) as Hm.
  destruct (decide (x mod m = 0)) as [->|].
  { cbn [replicate Z.to_nat]. rewrite app_nil_r. split; [done|unfold MAXNAMELEN; lia]. }
  rewrite decide_True by lia. split; [done|]. rewrite length_app, length_replicate. lia.
Qed.

Lemma print16_forall (P : ascii → Prop) id : (∀ d, 0 ≤ d < 16 → P (digit_char d)) → Forall P (print_base 16 id).
Proof. by apply print_base_forall. Qed.

(** Names contain no slash and are not special. *)
Lemma name_of_plain rand ft id : plain (name_of rand ft id).
Proof.
  unfold plain, name_of. split_and!; [done|by destruct ft..|].
  intros Hin. apply elem_of_app in Hin as [Hin|Hin%elem_of_replicate_inv]; [|done].
  unfold base_name in Hin. apply elem_of_cons in Hin as [Hin|Hin]; [by destruct ft|].
  pose proof (print16_forall (λ c, c ≠ "/"%char) id) as Hf. rewrite Forall_forall in Hf. eapply Hf; [|done|done].
  intros d Hd E. pose proof (parse_digit_char d ltac:(lia)) as Hpd. by rewrite E in Hpd.
Qed.

Lemma name_of_inj rand ft id ft' id' :
  0 ≤ id → 0 ≤ id' → name_of rand ft id = name_of rand ft' id' → ft = ft' ∧ id = id'.
Proof.
  intros Hi Hi' E. unfold name_of, base_name in E. cbn [app] in E. injection E as Et E.
  split; [destruct ft, ft'; done|]. apply (f_equal (scan_digits 16 0 0)) in E.
  assert (∀ n, no_digit 16 (replicate n "X"%char)) as Hn by (by intros []).
  rewrite !scan_print in E by (done || lia). by injection E as ->.
Qed.

(** ** The lists that the arrays stand for *)

Abbreviation files := (ftype → list fent).
Definition upd (L : files) (ft : ftype) (l : list fent) : files := λ ft', if decide (ft' = ft) then l else L ft'.

Record rep (ft : ftype) (l : list fent) (fl : flist) : Prop := {
  rep_tag : tag fl = ft_tag ft;
  rep_files : nfiles fl = length l;
  rep_slots : length (fents fl) = nslots fl;
  rep_entries : take (length l) (fents fl) = Some <$> l
}.

(** A slot in the cache is that of a directory with this remainder. *)
Definition cached (dc : list Z) (dirs : list fent) : Prop :=
  Z.of_nat (length dc) = NDCACHE ∧
  ∀ h i, dc !! h = Some i → 0 ≤ i → ∃ e, dirs !! Z.to_nat i = Some e ∧ Z.of_nat h = fent_id e mod NDCACHE.

(** The state has the lists [L], and [n] is the next number. *)
Record st (L : files) (n : Z) (s : fss) : Prop := {
  st_rep ft : rep ft (L ft) (flists s ft);
  st_cache : cached (dcache s) (L FT_DIR);
  st_ids e : e ∈ L FT_DIR → 0 ≤ fent_id e;
  st_seq : nameseq s = n
}.

Lemma st_start : st (λ _, []) 0 fss_start.
Proof.
  split; [by intros []| |by intros e ?%elem_of_nil|done]. split; [done|]. intros h i Hh.
  apply list_elem_of_lookup_2, elem_of_replicate_inv in Hh. lia.
Qed.

Lemma rep_lookup ft l fl i e : rep ft l fl → l !! i = Some e → fents fl !! i = Some (Some e).
Proof.
  intros [] Hi. pose proof (lookup_lt_Some _ _ _ Hi). rewrite <- (lookup_take_lt _ (length l)), rep_entries0 by done.
  by rewrite list_lookup_fmap, Hi.
Qed.

Lemma rep_length ft l fl : rep ft l fl → (length l ≤ length (fents fl))%nat.
Proof. intros []. apply (f_equal length) in rep_entries0. rewrite length_take, length_fmap in rep_entries0. lia. Qed.

Lemma rep_set ft l fl i e :
  rep ft l fl → (i < length l)%nat →
  ∃ fl', set_entry i e fl = Done fl' ∧ rep ft (<[i := e]> l) fl' ∧ nfiles fl' = nfiles fl.
Proof.
  intros Hrep Hi. pose proof (rep_length _ _ _ Hrep). destruct Hrep. unfold set_entry. rewrite decide_True by lia.
  eexists. split_and!; [done| |done]. split; cbn; rewrite ?length_insert; try done.
  rewrite take_insert_lt, rep_entries0 by done. by rewrite list_fmap_insert.
Qed.

Lemma rep_add ft l fl e :
  rep ft l fl → ∃ fl', set_entry (nfiles (grow fl)) e (grow fl) = Done fl' ∧
    nfiles fl' = nfiles fl ∧ rep ft (l ++ [e]) (set_nfiles (S (nfiles fl')) fl').
Proof.
  intros Hrep. pose proof (rep_length _ _ _ Hrep) as Hlen. destruct Hrep.
  assert (∃ x, fents (grow fl) = fents fl ++ x ∧ length (fents (grow fl)) = nslots (grow fl) ∧ tag (grow fl) = ft_tag ft ∧
    nfiles (grow fl) = length l ∧ (length l < length (fents (grow fl)))%nat) as (x & Hx & Hs & Ht & Hn & Hlt).
  { unfold grow. destruct (decide _).
    - exists (replicate FLIST_SLOT_INCR None). cbn [fents nslots tag nfiles]. rewrite length_app, length_replicate. unfold FLIST_SLOT_INCR. split_and!; (done || lia).
    - exists []. rewrite app_nil_r. split_and!; (done || lia). }
  unfold set_entry. rewrite Hn, decide_True by done. eexists. split_and!; [done|cbn; lia|].
  split; cbn; [done|by rewrite length_app, Nat.add_1_r|by rewrite length_insert|].
  rewrite length_app, Nat.add_1_r, (take_S_r _ _ (Some e)) by (by apply list_lookup_insert_eq).
  rewrite take_insert_ge, Hx, take_app_le, rep_entries0 by lia. by rewrite fmap_app.
Qed.

Lemma rep_shrink ft l e fl : rep ft (l ++ [e]) fl → rep ft l (set_nfiles (length l) fl).
Proof.
  intros []. split; cbn; try done. rewrite length_app, fmap_app in rep_entries0.
  apply (f_equal (take (length l))) in rep_entries0. rewrite take_take, Nat.min_l in rep_entries0 by lia.
  rewrite rep_entries0. apply take_app_length'. by rewrite length_fmap.
Qed.

(** ** The operations on the lists *)

Lemma upd_eq L ft l : upd L ft l ft = l.
Proof. unfold upd. by rewrite decide_True. Qed.
Lemma upd_ne L ft l ft' : ft' ≠ ft → upd L ft l ft' = L ft'.
Proof. intros. unfold upd. by rewrite decide_False. Qed.

(** A list with a slot removed: the last entry takes its place. *)
Definition swap_remove (slot : nat) (l : list fent) : list fent :=
  match last l with
  | None => []
  | Some e => take (length l - 1) (<[slot := e]> l)
  end.

Lemma swap_remove_last l e : swap_remove (length l) (l ++ [e]) = l.
Proof.
  unfold swap_remove. rewrite last_snoc, length_app. cbn. rewrite Nat.add_sub.
  rewrite list_insert_id by (by apply list_lookup_middle). by apply take_app_length.
Qed.

Lemma swap_remove_inner slot l e : (slot < length l)%nat → swap_remove slot (l ++ [e]) = <[slot := e]> l.
Proof.
  intros Hs. unfold swap_remove. rewrite last_snoc, length_app. cbn. rewrite Nat.add_sub.
  rewrite insert_app_l by done. apply take_app_length'. by rewrite length_insert.
Qed.

Lemma swap_remove_perm slot l e : l !! slot = Some e → e :: swap_remove slot l ≡ₚ l.
Proof.
  destruct (last l) as [x|] eqn:El; [|by apply last_None in El as ->].
  apply last_Some in El as [l' ->]. intros He. destruct (decide (slot = length l')) as [->|Hne].
  - rewrite swap_remove_last. rewrite list_lookup_middle in He by done. injection He as ->.
    by rewrite Permutation_app_comm.
  - pose proof (lookup_lt_Some _ _ _ He) as Hlt. rewrite length_app in Hlt. cbn in Hlt.
    assert (slot < length l')%nat as Hs by lia. rewrite lookup_app_l in He by done. rewrite swap_remove_inner by done.
    rewrite (Permutation_app_comm l' [x]). apply list_elem_of_split_length in He as (l1 & l2 & -> & ->).
    rewrite insert_app_r_alt, Nat.sub_diag by done. cbn. rewrite <- !Permutation_middle. constructor.
Qed.

(** What fix_parent() does to an entry. *)
Definition fix_entry (oldid newid : Z) (e : fent) : fent :=
  if decide (fent_parent e = oldid) then Fent (fent_id e) newid else e.

Lemma fix_entry_id oldid newid e : fent_id (fix_entry oldid newid e) = fent_id e.
Proof. unfold fix_entry. by destruct (decide _). Qed.

Lemma st_ext L L' n s : (∀ ft, L ft = L' ft) → st L n s → st L' n s.
Proof. intros E []. split; try done; intros; rewrite <- ?E in *; auto. Qed.

Lemma cached_ids dc l l' : fent_id <$> l' = fent_id <$> l → cached dc l → cached dc l'.
Proof.
  intros E [Hl Hc]. split; [done|]. intros h i Hh Hi. destruct (Hc h i Hh Hi) as (e & He & Hm).
  assert ((fent_id <$> l') !! Z.to_nat i = Some (fent_id e)) as He' by (by rewrite E, list_lookup_fmap, He).
  rewrite list_lookup_fmap in He'. apply fmap_Some in He' as (e' & He' & E'). exists e'. split; [done|]. by rewrite <- E'.
Qed.

Section ops.
Context {W : Type} `{Kernel W} {stuck : Prop} (stop : Z → fss → W → Prop).
#[local] Abbreviation twp := (wp stuck stop).

Lemma wp_entry L n s w ft i e (Q : fent → fss → W → Prop) :
  st L n s → L ft !! i = Some e → Q e s w → twp (entry ft i) s w Q.
Proof.
  intros Hs Hi Hq. unfold entry. apply wp_bind, wp_get. eapply wp_lift; [|done].
  by rewrite (rep_lookup _ _ _ _ _ (st_rep _ _ _ Hs ft) Hi).
Qed.

Lemma wp_dcache_at L n s w id (Q : Z → fss → W → Prop) :
  st L n s → 0 ≤ id →
  (∀ i, dcache s !! Z.to_nat (id mod NDCACHE) = Some i → Q i s w) → twp (dcache_at id) s w Q.
Proof.
  intros Hs Hid Hq. unfold dcache_at. apply wp_bind, wp_get. destruct (st_cache _ _ _ Hs) as [Hlen _].
  unfold NDCACHE in *. rewrite Z.rem_mod_nonneg by lia. pose proof (Z.mod_pos_bound id 64 ltac:(lia)).
  rewrite decide_True by lia. destruct (lookup_lt_is_Some_2 (dcache s) (Z.to_nat (id mod 64))) as [i Hi]; [lia|].
  eapply wp_lift; [by rewrite Hi|]. by apply Hq.
Qed.

Lemma wp_dcache_enter L n s w id i (Q : () → fss → W → Prop) :
  st L n s → 0 ≤ id → (0 ≤ i → ∃ e, L FT_DIR !! Z.to_nat i = Some e ∧ fent_id e = id) →
  (∀ dc, (0 > i → dc !! Z.to_nat (id mod NDCACHE) = Some i ∧
       ∀ h, h ≠ Z.to_nat (id mod NDCACHE) → dc !! h = dcache s !! h) → st L n (set_dcache dc s) → Q () (set_dcache dc s) w) →
  twp (dcache_enter id i) s w Q.
Proof.
  intros Hs Hid Hi Hq. unfold dcache_enter. apply wp_bind, wp_get. destruct (st_cache _ _ _ Hs) as [Hlen Hc].
  unfold NDCACHE in *. rewrite Z.rem_mod_nonneg by lia. pose proof (Z.mod_pos_bound id 64 ltac:(lia)).
  rewrite decide_True by lia. apply wp_put, Hq.
  - intros _. split; [apply list_lookup_insert_eq; lia|]. intros h ?. by apply list_lookup_insert_ne.
  - destruct Hs. split; try done. split; cbn; [by rewrite length_insert|]. intros h j Hj Hj0.
    apply list_lookup_insert_Some in Hj as [(<- & -> & _)|[_ Hj]]; [|by apply Hc].
    destruct (Hi Hj0) as (e & He & <-). exists e. split; [done|]. unfold NDCACHE. lia.
Qed.

Lemma wp_dcache_lookup L n s w id (Q : option nat → fss → W → Prop) :
  st L n s → 0 ≤ id →
  (∀ o, (∀ i, o = Some i → ∃ e, L FT_DIR !! i = Some e ∧ fent_id e = id) → Q o s w) → twp (dcache_lookup id) s w Q.
Proof.
  intros Hs Hid Hq. unfold dcache_lookup. apply wp_bind. eapply wp_dcache_at; [done|done|]. intros i Hi.
  destruct (decide (0 ≤ i)) as [Hi0|]; [|apply wp_ret, Hq; done].
  destruct (proj2 (st_cache _ _ _ Hs) _ _ Hi Hi0) as (e & He & _). apply wp_bind. eapply wp_entry; [done|done|].
  apply wp_ret, Hq. destruct (decide _); intros j [= <-]. eauto.
Qed.

(** The entry of a directory leaves the cache; the rest of the cache stays. *)
Lemma wp_dcache_purge L n s w slot e (Q : () → fss → W → Prop) :
  st L n s → L FT_DIR !! slot = Some e →
  (∀ dc, (∀ h i, dc !! h = Some i → 0 ≤ i → dcache s !! h = Some i ∧ Z.to_nat i ≠ slot) → st L n (set_dcache dc s) → Q () (set_dcache dc s) w) →
  twp (dcache_purge (fent_id e)) s w Q.
Proof.
  intros Hs He Hq. pose proof (st_ids _ _ _ Hs e (list_elem_of_lookup_2 _ _ _ He)) as Hid. unfold dcache_purge.
  apply wp_bind. eapply wp_dcache_at; [done|done|]. intros i Hi.
  assert (s = set_dcache (dcache s) s) as Es by (by destruct s).
  assert (∀ h j, dcache s !! h = Some j → 0 ≤ j → Z.to_nat j = slot → h = Z.to_nat (fent_id e mod NDCACHE)) as Hh.
  { intros h j Hj Hj0 <-. destruct (proj2 (st_cache _ _ _ Hs) _ _ Hj Hj0) as (e' & He' & Hmod). simplify_eq. lia. }
  destruct (decide (0 ≤ i)) as [Hi0|Hi0].
  - destruct (proj2 (st_cache _ _ _ Hs) _ _ Hi Hi0) as (e' & He' & _). apply wp_bind. eapply wp_entry; [done|done|].
    destruct (decide (fent_id e' = fent_id e)) as [E|Hne].
    + eapply wp_dcache_enter; [done|done|lia|]. intros dc Hdc Hs'. apply Hq; [|done]. intros h j Hj Hj0.
      destruct Hdc as [Hd1 Hd2]; [lia|]. assert (h ≠ Z.to_nat (fent_id e mod NDCACHE)) as Hneh.
      { intros ->. rewrite Hd1 in Hj. injection Hj as <-. lia. }
      rewrite Hd2 in Hj by done. split; [done|]. intros Hjs. by eapply Hneh, Hh.
    + rewrite Es. apply wp_ret, Hq; [|by rewrite <- Es]. intros h j Hj Hj0. split; [done|]. intros Hjs.
      assert (h = Z.to_nat (fent_id e mod NDCACHE)) as -> by (by eapply Hh). simplify_eq.
  - rewrite Es. apply wp_ret, Hq; [|by rewrite <- Es]. intros h j Hj Hj0. split; [done|]. intros Hjs.
    assert (h = Z.to_nat (fent_id e mod NDCACHE)) as -> by (by eapply Hh). simplify_eq. lia.
Qed.

Lemma wp_search_dir L n s w id (Q : option nat → fss → W → Prop) : st L n s → 0 ≤ id → ∀ k slot,
  (slot + k = length (L FT_DIR))%nat →
  (∀ o dc, match o with
     | Some i => ∃ e, L FT_DIR !! i = Some e ∧ fent_id e = id
     | None => ∀ e, e ∈ drop slot (L FT_DIR) → fent_id e ≠ id
     end → st L n (set_dcache dc s) → Q o (set_dcache dc s) w) →
  twp (search_dir k slot id) s w Q.
Proof.
  intros Hs Hid. assert (s = set_dcache (dcache s) s) as Es by (by destruct s).
  induction k as [|k IH]; intros slot Hk Hq; cbn [search_dir].
  - rewrite Es. apply wp_ret, Hq; [|by rewrite <- Es]. rewrite drop_ge by lia. by intros e ?%elem_of_nil.
  - destruct (lookup_lt_is_Some_2 (L FT_DIR) slot) as [e He]; [lia|]. apply wp_bind. eapply wp_entry; [done|done|].
    destruct (decide (fent_id e = id)) as [E|Hne].
    + apply wp_bind. eapply wp_dcache_enter; [done|done| |].
      { intros _. rewrite Nat2Z.id. eauto. }
      intros dc _ Hs'. apply wp_ret, Hq; eauto.
    + apply IH; [lia|]. intros o dc Ho. apply Hq. destruct o as [i|]; [done|].
      rewrite (drop_S _ e) by done. intros e' [->|?]%elem_of_cons; auto.
Qed.

(** With or without the cache, the search finds the directory. *)
Lemma wp_dirid_to_fent L n s w id (Q : option nat → fss → W → Prop) :
  st L n s → 0 ≤ id →
  (∀ o dc, match o with
     | Some i => ∃ e, L FT_DIR !! i = Some e ∧ fent_id e = id
     | None => ∀ e, e ∈ L FT_DIR → fent_id e ≠ id
     end → st L n (set_dcache dc s) → Q o (set_dcache dc s) w) →
  twp (dirid_to_fent id) s w Q.
Proof.
  intros Hs Hid Hq. unfold dirid_to_fent. apply wp_bind. eapply wp_dcache_lookup; [done|done|]. intros [i|] Ho.
  - assert (s = set_dcache (dcache s) s) as Es by (by destruct s). rewrite Es. apply wp_ret, Hq; [|by rewrite <- Es]. auto.
  - apply wp_bind, wp_get. rewrite (rep_files _ _ _ (st_rep _ _ _ Hs FT_DIR)). eapply wp_search_dir; [done|done|done|].
    intros o dc. apply Hq.
Qed.

Lemma st_upd L n s ft l f :
  st L n s → rep ft l (f (flists s ft)) → (ft = FT_DIR → cached (dcache s) l ∧ ∀ e, e ∈ l → 0 ≤ fent_id e) →
  st (upd L ft l) n (upd_flist ft f s).
Proof.
  intros [Hr Hc Hi Hn] Hrep Hdir. unfold upd. split; cbn; try done.
  - intros ft'. destruct (decide (ft' = ft)) as [->|]; [done|apply Hr].
  - destruct (decide (FT_DIR = ft)) as [<-|]; [by apply Hdir|done].
  - destruct (decide (FT_DIR = ft)) as [<-|]; [by apply Hdir|done].
Qed.

Lemma cached_app dc l e : cached dc l → cached dc (l ++ [e]).
Proof.
  intros [Hl Hc]. split; [done|]. intros h i Hh Hi. destruct (Hc h i Hh Hi) as (e' & He & ?). exists e'.
  split; [|done]. by apply lookup_app_l_Some.
Qed.

Lemma wp_add_to_flist L n s w ft id par (Q : () → fss → W → Prop) :
  st L n s → 0 ≤ id → (∀ s', st (upd L ft (L ft ++ [Fent id par])) n s' → Q () s' w) → twp (add_to_flist ft id par) s w Q.
Proof.
  intros Hs Hid Hq. unfold add_to_flist. apply wp_bind, wp_get, wp_bind.
  destruct (rep_add ft (L ft) (flists s ft) (Fent id par)) as (fl & Hset & Hn & Hrep); [apply (st_rep _ _ _ Hs)|].
  eapply wp_lift; [done|]. apply wp_put, Hq. apply st_upd; [done|done|]. intros ->. split.
  - apply cached_app, (st_cache _ _ _ Hs).
  - intros e [He|He%list_elem_of_singleton]%elem_of_app; [by apply (st_ids _ _ _ Hs)|by subst].
Qed.

Lemma wp_purge_slot L n s w ft slot e (Q : () → fss → W → Prop) :
  st L n s → L ft !! slot = Some e →
  (∀ dc, (∀ h i, dc !! h = Some i → 0 ≤ i → dcache s !! h = Some i ∧ (ft = FT_DIR → Z.to_nat i ≠ slot)) →
    st L n (set_dcache dc s) → Q () (set_dcache dc s) w) →
  twp (purge_slot ft slot) s w Q.
Proof.
  intros Hs He Hq. unfold purge_slot. destruct (decide (ft = FT_DIR)) as [->|Hne].
  - apply wp_bind. eapply wp_entry; [done|done|]. eapply wp_dcache_purge; [done|done|]. intros dc Hdc. apply Hq.
    intros h i Hh Hi. destruct (Hdc h i Hh Hi). auto.
  - assert (s = set_dcache (dcache s) s) as Es by (by destruct s). rewrite Es. apply wp_ret, Hq; [|by rewrite <- Es]. done.
Qed.

(** Slots that stay where they are. *)
Lemma cached_remove dc dc' l slot :
  cached dc l → (slot < length l)%nat → length dc' = length dc →
  (∀ h i, dc' !! h = Some i → 0 ≤ i → dc !! h = Some i ∧ Z.to_nat i ≠ slot ∧ Z.to_nat i ≠ (length l - 1)%nat) →
  cached dc' (swap_remove slot l).
Proof.
  intros [Hl Hc] Hs Hdc Hstay. split; [by rewrite Hdc|]. intros h i Hh Hi. destruct (Hstay h i Hh Hi) as (Hh' & Hi1 & Hi2).
  destruct (Hc h i Hh' Hi) as (e & He & Hmod). exists e. split; [|done]. unfold swap_remove.
  destruct (last l) as [x|] eqn:El; [|apply last_None in El; by subst].
  pose proof (lookup_lt_Some _ _ _ He). rewrite lookup_take_lt, list_lookup_insert_ne by lia. done.
Qed.

Lemma swap_remove_elem slot l e x : l !! slot = Some e → x ∈ swap_remove slot l → x ∈ l.
Proof. intros He Hx. rewrite <- (swap_remove_perm _ _ _ He). by apply list_elem_of_further. Qed.

Lemma st_length_cache L n s : st L n s → Z.of_nat (length (dcache s)) = NDCACHE.
Proof. intros Hs. apply (st_cache _ _ _ Hs). Qed.

Lemma wp_del_from_flist L n s w ft slot e (Q : () → fss → W → Prop) :
  st L n s → L ft !! slot = Some e →
  (∀ s', st (upd L ft (swap_remove slot (L ft))) n s' → Q () s' w) → twp (del_from_flist ft slot) s w Q.
Proof.
  intros Hs He Hq. unfold del_from_flist. apply wp_bind. eapply wp_purge_slot; [done|done|]. intros dc Hdc Hs1.
  pose proof (lookup_lt_Some _ _ _ He) as Hlt. apply wp_bind, wp_get.
  rewrite (rep_files _ _ _ (st_rep _ _ _ Hs1 ft)). pose proof (st_rep _ _ _ Hs1 ft) as Hrep.
  assert (∀ s' x, x ∈ swap_remove slot (L ft) → st L n s' → ft = FT_DIR → 0 ≤ fent_id x) as Hids.
  { intros s' x Hx Hs' ->. apply (st_ids _ _ _ Hs'). by eapply swap_remove_elem. }
  pose proof (st_length_cache _ _ _ Hs) as Hl0. pose proof (st_length_cache _ _ _ Hs1) as Hl1.
  destruct (last (L ft)) as [x|] eqn:El; [apply last_Some in El as [l El]|apply last_None in El; by rewrite El in He].
  assert (length (L ft) = S (length l)) as HL by (rewrite El, length_app; cbn; lia).
  destruct (decide _) as [Hne|Heq].
  - assert (slot < length l)%nat as Hslot by lia.
    apply wp_bind. rewrite decide_False by lia. apply wp_ret, wp_bind.
    assert (L ft !! length l = Some x) as Hx by (rewrite El; by apply list_lookup_middle).
    rewrite HL. cbn [Nat.sub]. rewrite Nat.sub_0_r.
    eapply wp_purge_slot; [done|done|]. intros dc2 Hdc2 Hs2. apply wp_bind. eapply wp_entry; [done|done|].
    apply wp_bind, wp_get, wp_bind. destruct (rep_set ft (L ft) (flists s ft) slot x) as (fl & Hset & Hrep' & Hn).
    { apply (st_rep _ _ _ Hs). }
    { lia. }
    eapply wp_lift; [done|]. apply wp_put, Hq. apply st_upd; [done| |].
    + rewrite El in Hrep' |- *. rewrite insert_app_l in Hrep' by done. rewrite swap_remove_inner by done.
      apply rep_shrink in Hrep'. by rewrite length_insert in Hrep'.
    + intros ->. split; [|by intros; eapply Hids].
      eapply (cached_remove (dcache s)); [apply (st_cache _ _ _ Hs)|done|pose proof (st_length_cache _ _ _ Hs2); cbn in *; lia|].
      cbn. intros h i Hh Hi. destruct (Hdc2 h i Hh Hi) as [Hh1 Hi1]. destruct (Hdc h i Hh1 Hi) as [Hh2 Hi2].
      split_and!; [done|auto|]. rewrite HL. cbn. rewrite Nat.sub_0_r. auto.
  - assert (slot = length l) as -> by lia. apply wp_put, Hq. apply st_upd; [done| |].
    + rewrite HL. cbn [Nat.sub]. rewrite Nat.sub_0_r. rewrite El, swap_remove_last. eapply rep_shrink. by rewrite <- El.
    + intros ->. split; [|by intros; eapply Hids].
      eapply (cached_remove (dcache s)); [apply (st_cache _ _ _ Hs)|done|cbn in *; lia|].
      cbn. intros h i Hh Hi. destruct (Hdc h i Hh Hi) as [Hh2 Hi2]. split_and!; [done|auto|]. rewrite HL. cbn.
      rewrite Nat.sub_0_r. auto.
Qed.

(** A list whose entries keep their numbers. *)
Lemma st_upd_ids L n s ft l f :
  st L n s → rep ft l (f (flists s ft)) → fent_id <$> l = fent_id <$> L ft → st (upd L ft l) n (upd_flist ft f s).
Proof.
  intros Hs Hrep E. apply st_upd; [done|done|]. intros ->. split; [by eapply cached_ids, (st_cache _ _ _ Hs)|].
  intros e He. assert (fent_id e ∈ fent_id <$> L FT_DIR) as Hin by (rewrite <- E; by apply list_elem_of_fmap_2).
  apply list_elem_of_fmap in Hin as (e' & -> & He'). by apply (st_ids _ _ _ Hs).
Qed.

Lemma wp_fix_loop ft oldid newid w (Q : () → fss → W → Prop) n : ∀ k slot L s,
  st L n s → (slot + k = length (L ft))%nat →
  (∀ s', st (upd L ft (take slot (L ft) ++ (fix_entry oldid newid <$> drop slot (L ft)))) n s' → Q () s' w) →
  twp (fix_loop k slot ft oldid newid) s w Q.
Proof.
  induction k as [|k IH]; intros slot L s Hs Hk Hq; cbn [fix_loop].
  - apply wp_ret, Hq. eapply st_ext; [|done]. intros ft'. unfold upd. destruct (decide _) as [->|]; [|done].
    rewrite take_ge, drop_ge by lia. cbn. by rewrite app_nil_r.
  - destruct (lookup_lt_is_Some_2 (L ft) slot) as [e He]; [lia|]. apply wp_bind. eapply wp_entry; [done|done|].
    set (l := <[slot := fix_entry oldid newid e]> (L ft)). apply wp_bind.
    assert (∀ s1, st (upd L ft l) n s1 → twp (fix_loop k (S slot) ft oldid newid) s1 w Q) as Hgo.
    { intros s1 Hs1. apply (IH (S slot) (upd L ft l)); [done|rewrite upd_eq; subst l; rewrite length_insert; lia|].
      intros s2 Hs2. apply Hq. eapply st_ext; [|done]. intros ft'. unfold upd. destruct (decide (ft' = ft)) as [->|]; [|done].
      rewrite decide_True by done. subst l. rewrite (take_S_r _ _ (fix_entry oldid newid e)), drop_insert_lt, take_insert_ge by
        (try lia; apply list_lookup_insert_eq, lookup_lt_is_Some_1; eauto).
      rewrite (drop_S _ e slot) by done. by rewrite <- app_assoc. }
    destruct (decide (fent_parent e = oldid)) as [Hp|Hp].
    + apply wp_bind, wp_get, wp_bind.
      destruct (rep_set ft (L ft) (flists s ft) slot (Fent (fent_id e) newid)) as (fl & Hset & Hrep & _).
      { apply (st_rep _ _ _ Hs). }
      { lia. }
      eapply wp_lift; [done|]. apply wp_put, Hgo. subst l. unfold fix_entry. rewrite decide_True by done.
      apply st_upd_ids; [done|done|]. rewrite list_fmap_insert. cbn. apply list_insert_id. by rewrite list_lookup_fmap, He.
    + apply wp_ret, Hgo. eapply st_ext; [|done]. intros ft'. unfold upd. destruct (decide _) as [->|]; [|done].
      subst l. unfold fix_entry. by rewrite decide_False, list_insert_id.
Qed.

Lemma wp_fix_parent L n s w oldid newid (Q : () → fss → W → Prop) :
  st L n s → (∀ s', st (λ ft, fix_entry oldid newid <$> L ft) n s' → Q () s' w) → twp (fix_parent oldid newid) s w Q.
Proof.
  assert (∀ fts L s, NoDup fts → st L n s →
    (∀ s', st (λ ft, if decide (ft ∈ fts) then fix_entry oldid newid <$> L ft else L ft) n s' → Q () s' w) →
    twp (fix_lists fts oldid newid) s w Q) as Hall.
  { clear. induction fts as [|ft fts IH]; intros L s Hnd Hs Hq; cbn [fix_lists].
    - apply wp_ret, Hq. eapply st_ext; [|done]. intros ft. by rewrite decide_False by apply not_elem_of_nil.
    - apply NoDup_cons in Hnd as [Hft Hnd]. apply wp_bind, wp_get, wp_bind.
      rewrite (rep_files _ _ _ (st_rep _ _ _ Hs ft)). eapply wp_fix_loop; [done|done|]. intros s1 Hs1.
      eapply IH; [done|done|]. intros s2 Hs2. apply Hq. eapply st_ext; [|done]. intros ft'. cbn. unfold upd.
      destruct (decide (ft' = ft)) as [->|Hne].
      + destruct (decide (ft ∈ fts)); [done|]. destruct (decide (ft ∈ ft :: fts)) as [_|[]]; [by rewrite drop_0|apply list_elem_of_here].
      + destruct (decide (ft' ∈ fts)) as [Hin|Hin], (decide (ft' ∈ ft :: fts)) as [Hin'|Hin']; try done.
        * destruct Hin'. by apply list_elem_of_further.
        * by apply elem_of_cons in Hin' as [?|?]. }
  intros Hs Hq. apply (Hall ftypes L); [|done|].
  - by_decide.
  - intros s' Hs'. apply Hq. eapply st_ext; [|done]. intros ft. cbn. rewrite decide_True; [done|]. destruct ft; elem_of_literal.
Qed.
End ops.
