(* ===== verification/FsstressMirror.v ===== *)
(** * The lists of fsstress and the directory tree

    [mirror] says that the lists describe the tree: every entry has its place, every
    node of the tree has its entry.  It is kept by what the operations do to the lists
    and the calls do to the tree: a new file, a file or an empty directory removed, and
    a file or a directory with everything below it moved. *)
From stdpp Require Import base strings numbers option list gmap.
From Stdlib Require Import Ascii.
From S2P Require Import Prelude CInt CText Steps Fsstress FsstressTree FsstressPath FsstressLists.

#[local] Open Scope Z_scope.

Definition kind_of (ft : ftype) : kind :=
  match ft with FT_DIR => KDir | FT_REG | FT_RTF => KReg | FT_SYM => KSym | FT_DEV => KDev end.

Section mirror.
Context (rand : Z).
#[local] Abbreviation name := (name_of rand).

(** The path of the directory with a number; -1 is the top directory. *)
Inductive at_dir (dirs : list fent) : Z → path → Prop :=
  | at_top : at_dir dirs (-1) []
  | at_sub e p : e ∈ dirs → at_dir dirs (fent_parent e) p → at_dir dirs (fent_id e) (p ++ [name FT_DIR (fent_id e)]).

Definition located (L : files) (ft : ftype) (e : fent) (p : path) : Prop :=
  e ∈ L ft ∧ ∃ q, at_dir (L FT_DIR) (fent_parent e) q ∧ p = q ++ [name ft (fent_id e)].

Record mirror (L : files) (n : Z) (N : nodemap) : Prop := {
  mir_seq : 0 ≤ n;
  mir_range ft e : e ∈ L ft → 0 ≤ fent_id e < n;
  mir_unique ft ft' e e' : e ∈ L ft → e' ∈ L ft' → fent_id e = fent_id e' → ft = ft' ∧ e = e';
  mir_nodup ft : NoDup (L ft);
  mir_placed ft e : e ∈ L ft → ∃ q, at_dir (L FT_DIR) (fent_parent e) q;
  mir_nodes p k : N !! p = Some k ↔ ∃ ft e, located L ft e p ∧ k = kind_of ft
}.

Lemma mirror_empty : mirror (λ _, []) 0 ∅.
Proof.
  split; [done|by intros ? ? ?%elem_of_nil|by intros ? ? ? ? ?%elem_of_nil|constructor|by intros ? ? ?%elem_of_nil|].
  intros p k. rewrite lookup_empty. split; [done|]. by intros (ft & e & [?%elem_of_nil _] & _).
Qed.

(** ** Directories *)

Section facts.
Context (L : files) (n : Z) (N : nodemap) (Hm : mirror L n N).
#[local] Abbreviation dirs := (L FT_DIR).

Lemma at_dir_range d p : at_dir dirs d p → -1 ≤ d < n.
Proof. intros [|e q He _]; [pose proof (mir_seq _ _ _ Hm); lia|]. pose proof (mir_range _ _ _ Hm _ _ He). lia. Qed.

Lemma at_dir_det d p p' : at_dir dirs d p → at_dir dirs d p' → p = p'.
Proof.
  intros Hp. revert p'. induction Hp as [|e p He _ IH]; intros p' Hp'; inversion Hp' as [E1 E2|e' q He' Hq E1 E2]; subst.
  - done.
  - pose proof (mir_range _ _ _ Hm _ _ He'). lia.
  - pose proof (mir_range _ _ _ Hm _ _ He). lia.
  - destruct (mir_unique _ _ _ Hm FT_DIR FT_DIR e' e) as [_ ->]; [done..|]. by rewrite (IH q).
Qed.

Lemma at_dir_node d p : at_dir dirs d p → p ≠ [] → N !! p = Some KDir.
Proof. intros [|e q He Hq] Hne; [done|]. apply (mir_nodes _ _ _ Hm). exists FT_DIR, e. split; [|done]. split; eauto. Qed.

Lemma at_dir_prefix d p i : at_dir dirs d p → (i ≤ length p)%nat → ∃ d', at_dir dirs d' (take i p).
Proof.
  intros Hp. revert i. induction Hp as [|e p He Hp IH]; intros i Hi.
  - exists (-1). rewrite take_nil. constructor.
  - rewrite length_app in Hi. cbn in Hi. destruct (decide (i = S (length p))) as [->|].
    + exists (fent_id e). rewrite take_ge by (rewrite length_app; cbn; lia). by constructor.
    + rewrite take_app_le by lia. apply IH. lia.
Qed.

(** Everything on the way to a directory is a directory. *)
Lemma at_dir_above d p a : at_dir dirs d p → a `prefix_of` p → a ≠ [] → N !! a = Some KDir.
Proof.
  intros Hp [r ->] Ha. destruct (at_dir_prefix d (a ++ r) (length a) Hp) as [d' Hd']; [rewrite length_app; lia|].
  rewrite take_app_length in Hd'. by eapply at_dir_node.
Qed.

Lemma at_dir_plain d p : at_dir dirs d p → Forall plain p.
Proof. induction 1; [constructor|]. apply Forall_app_2; [done|]. constructor; [apply name_of_plain|constructor]. Qed.

(** A path is no longer than the list of directories. *)
Lemma at_dir_length d p : at_dir dirs d p → (length p ≤ length dirs)%nat.
Proof.
  intros Hp. enough (∃ ds, length ds = length p ∧ NoDup ds ∧
    ∀ x, x ∈ ds → x ∈ fent_id <$> dirs ∧ ∃ q, at_dir dirs x q ∧ (length q ≤ length p)%nat) as (ds & <- & Hnd & Hds).
  { rewrite <- (length_fmap fent_id). apply submseteq_length, NoDup_submseteq; [done|]. intros x Hx. by apply Hds. }
  induction Hp as [|e p He Hp (ds & Hl & Hnd & Hds)].
  - exists []. split_and!; [done|constructor|by intros ? ?%elem_of_nil].
  - exists (fent_id e :: ds). rewrite length_app. cbn [length]. split_and!; [lia| |].
    + apply NoDup_cons. split; [|done]. intros Hin. destruct (Hds _ Hin) as (_ & q & Hq & Hlen).
      assert (q = p ++ [name FT_DIR (fent_id e)]) as -> by (eapply at_dir_det; [done|by constructor]).
      rewrite length_app in Hlen. cbn in Hlen. lia.
    + intros x [->|Hx]%elem_of_cons.
      * split; [by apply list_elem_of_fmap_2|]. eexists. split; [by constructor|]. rewrite length_app. cbn. lia.
      * destruct (Hds _ Hx) as (? & q & ? & ?). split; [done|]. exists q. split; [done|lia].
Qed.

(** ** Places *)

Lemma located_inj ft e ft' e' p : located L ft e p → located L ft' e' p → ft = ft' ∧ e = e'.
Proof.
  intros (He & q & _ & ->) (He' & q' & _ & E). apply app_inj_tail in E as [_ E].
  pose proof (mir_range _ _ _ Hm _ _ He). pose proof (mir_range _ _ _ Hm _ _ He').
  apply name_of_inj in E as [-> E]; [|lia..]. by apply (mir_unique _ _ _ Hm).
Qed.

Lemma located_det ft e p p' : located L ft e p → located L ft e p' → p = p'.
Proof. intros (_ & q & Hq & ->) (_ & q' & Hq' & ->). by rewrite (at_dir_det _ _ _ Hq Hq'). Qed.

Lemma located_node ft e p : located L ft e p → N !! p = Some (kind_of ft).
Proof. intros Hl. apply (mir_nodes _ _ _ Hm). eauto. Qed.

Lemma located_exists ft e : e ∈ L ft → ∃ p, located L ft e p.
Proof. intros He. destruct (mir_placed _ _ _ Hm _ _ He) as [q Hq]. exists (q ++ [name ft (fent_id e)]). split; eauto. Qed.

(** The name of the next file is new. *)
Lemma fresh_node q ft : N !! (q ++ [name ft n]) = None.
Proof.
  destruct (N !! _) as [k|] eqn:E; [|done]. apply (mir_nodes _ _ _ Hm) in E as (ft' & e & (He & q' & _ & E) & _).
  apply app_inj_tail in E as [_ E]. pose proof (mir_range _ _ _ Hm _ _ He). apply name_of_inj in E as [_ E]; lia.
Qed.

(** Names follow to their places. *)
Lemma find_located d q ft id :
  at_dir dirs d q → find N [] (q ++ [name ft id]) = Some (q ++ [name ft id]).
Proof.
  intros Hq. rewrite (find_path N q (name ft id) []); [done|by eapply at_dir_plain|apply name_of_plain|].
  intros i Hi. eapply at_dir_above; [done|exists (drop i q); cbn; by rewrite take_drop|]. destruct q, i; cbn in *; (done || lia).
Qed.
End facts.

(** ** A new file *)

Lemma at_dir_mono dirs dirs' d p : (∀ e, e ∈ dirs → e ∈ dirs') → at_dir dirs d p → at_dir dirs' d p.
Proof. intros Hsub. induction 1; constructor; auto. Qed.

Lemma elem_upd_add L ft e ft' x :
  x ∈ upd L ft (L ft ++ [e]) ft' ↔ x ∈ L ft' ∨ (ft' = ft ∧ x = e).
Proof.
  unfold upd. destruct (decide (ft' = ft)) as [->|Hne].
  - rewrite elem_of_app, list_elem_of_singleton. naive_solver.
  - naive_solver.
Qed.

Lemma at_dir_add L n N ft par q d p :
  mirror L n N → at_dir (L FT_DIR) par q →
  at_dir (upd L ft (L ft ++ [Fent n par]) FT_DIR) d p ↔
  at_dir (L FT_DIR) d p ∨ (ft = FT_DIR ∧ d = n ∧ p = q ++ [name FT_DIR n]).
Proof.
  intros Hm Hq. pose proof (at_dir_range _ _ _ Hm _ _ Hq). split.
  - induction 1 as [|e p He Hp [IH|(-> & IH & ->)]].
    + left. constructor.
    + apply elem_upd_add in He as [He|[<- ->]]; [left; by constructor|]. right. cbn in *.
      by rewrite (at_dir_det _ _ _ Hm _ _ _ IH Hq).
    + exfalso. apply elem_upd_add in He as [He|[_ ->]]; [|cbn in *; lia].
      destruct (mir_placed _ _ _ Hm _ _ He) as [q' Hq']. pose proof (at_dir_range _ _ _ Hm _ _ Hq'). lia.
  - assert (∀ e, e ∈ L FT_DIR → e ∈ upd L ft (L ft ++ [Fent n par]) FT_DIR) as Hsub.
    { intros e He. apply elem_upd_add. by left. }
    intros [Hp|(-> & -> & ->)]; [by eapply at_dir_mono|].
    apply (at_sub _ (Fent n par)); [apply elem_upd_add; by right|]. by eapply at_dir_mono.
Qed.

Lemma mirror_add L n N ft par q :
  mirror L n N → at_dir (L FT_DIR) par q →
  mirror (upd L ft (L ft ++ [Fent n par])) (n + 1) (<[q ++ [name ft n] := kind_of ft]> N).
Proof.
  intros Hm Hq. pose proof (λ d p, at_dir_add L n N ft par q d p Hm Hq) as Hat.
  pose proof (mir_seq _ _ _ Hm) as Hn. pose proof (mir_range _ _ _ Hm) as Hr. split.
  - lia.
  - intros ft' e [He|[_ ->]]%elem_upd_add; cbn; [specialize (Hr _ _ He)|]; lia.
  - intros ft1 ft2 e1 e2 [H1|[-> ->]]%elem_upd_add [H2|[-> ->]]%elem_upd_add E; cbn in *.
    + by apply (mir_unique _ _ _ Hm).
    + specialize (Hr _ _ H1). lia.
    + specialize (Hr _ _ H2). lia.
    + done.
  - intros ft'. unfold upd. destruct (decide _) as [->|]; [|apply (mir_nodup _ _ _ Hm)].
    apply NoDup_app. split_and!; [apply (mir_nodup _ _ _ Hm)| |apply NoDup_singleton].
    intros e He ->%list_elem_of_singleton. specialize (Hr _ _ He). cbn in Hr. lia.
  - intros ft' e [He|[_ ->]]%elem_upd_add.
    + destruct (mir_placed _ _ _ Hm _ _ He) as [q' Hq']. exists q'. apply Hat. by left.
    + exists q. apply Hat. by left.
  - intros p k. assert (∀ e ft', e ∈ L ft' → ∀ p', at_dir (upd L ft (L ft ++ [Fent n par]) FT_DIR) (fent_parent e) p' ↔
      at_dir (L FT_DIR) (fent_parent e) p') as Hold.
    { intros e ft' He p'. rewrite Hat. split; [|by left]. intros [?|(_ & E & _)]; [done|].
      destruct (mir_placed _ _ _ Hm _ _ He) as [q' Hq']. pose proof (at_dir_range _ _ _ Hm _ _ Hq'). lia. }
    destruct (decide (p = q ++ [name ft n])) as [->|Hne].
    + rewrite lookup_insert_eq. split.
      * intros [= <-]. exists ft, (Fent n par). split; [|done]. split; [apply elem_upd_add; by right|].
        exists q. split; [apply Hat; by left|done].
      * intros (ft' & e & (He & q' & Hq' & E) & ->). apply app_inj_tail in E as [_ E].
        apply elem_upd_add in He as [He|[-> ->]]; [|done]. specialize (Hr _ _ He). apply name_of_inj in E as [_ E]; lia.
    + rewrite lookup_insert_ne by done. rewrite (mir_nodes _ _ _ Hm). split.
      * intros (ft' & e & (He & q' & Hq' & ->) & ->). exists ft', e. split; [|done]. split; [apply elem_upd_add; by left|].
        exists q'. split; [by eapply Hold|done].
      * intros (ft' & e & (He & q' & Hq' & ->) & ->). exists ft', e. split; [|done].
        apply elem_upd_add in He as [He|[-> ->]]; [split; [done|]; exists q'; split; [by eapply Hold|done]|].
        exfalso. cbn in *. apply Hat in Hq' as [Hq'|(-> & E & _)].
        -- by rewrite (at_dir_det _ _ _ Hm _ _ _ Hq' Hq) in Hne.
        -- pose proof (at_dir_range _ _ _ Hm _ _ Hq). lia.
Qed.

(** ** A file removed *)

Lemma swap_remove_spec l slot e : NoDup l → l !! slot = Some e → NoDup (swap_remove slot l) ∧ ∀ x, x ∈ swap_remove slot l ↔ x ∈ l ∧ x ≠ e.
Proof.
  intros Hnd He. pose proof (swap_remove_perm _ _ _ He) as Hp.
  assert (NoDup (e :: swap_remove slot l)) as Hnd' by (by rewrite Hp). apply NoDup_cons in Hnd' as [Hni Hnd'].
  split; [done|]. intros x. assert (x ∈ l ↔ x = e ∨ x ∈ swap_remove slot l) as -> by (by rewrite <- elem_of_cons, Hp).
  naive_solver.
Qed.

Section remove.
Context (L : files) (n : Z) (N : nodemap) (ft : ftype) (slot : nat) (e : fent) (a : path).
Context (Hm : mirror L n N) (He : L ft !! slot = Some e) (Ha : located L ft e a).
Context (Hempty : ft = FT_DIR → ∀ x, N !! (a ++ [x]) = None).
#[local] Abbreviation L' := (upd L ft (swap_remove slot (L ft))).

Lemma elem_removed ft' x : x ∈ L' ft' ↔ x ∈ L ft' ∧ ¬ (ft' = ft ∧ x = e).
Proof.
  unfold upd. destruct (decide (ft' = ft)) as [->|Hne].
  - rewrite (proj2 (swap_remove_spec (L ft) slot e (mir_nodup _ _ _ Hm ft) He)). naive_solver.
  - naive_solver.
Qed.

(** Nothing is in the directory that is removed. *)
Lemma removed_childless ft' x : x ∈ L ft' → ft = FT_DIR → fent_parent x ≠ fent_id e.
Proof using All.
  intros Hx -> E. destruct (mir_placed _ _ _ Hm _ _ Hx) as [q Hq].
  assert (q = a) as ->.
  { eapply at_dir_det; [done|done|]. rewrite E. destruct Ha as (Hin & q' & Hq' & ->). by constructor. }
  assert (located L ft' x (a ++ [name ft' (fent_id x)])) as Hl by (split; eauto).
  apply (located_node _ _ _ Hm) in Hl. rewrite Hempty in Hl; done.
Qed.

Lemma at_dir_removed d p : (ft = FT_DIR → d ≠ fent_id e) → at_dir (L' FT_DIR) d p ↔ at_dir (L FT_DIR) d p.
Proof using All.
  intros Hd. split.
  - apply at_dir_mono. intros x Hx. by apply elem_removed in Hx as [? _].
  - intros Hp. induction Hp as [|x p Hx Hp IH]; [constructor|]. constructor.
    + apply elem_removed. split; [done|]. intros [E ->]. by apply Hd.
    + apply IH. by eapply removed_childless.
Qed.

Lemma located_removed ft' x p : located L' ft' x p ↔ located L ft' x p ∧ p ≠ a.
Proof using All.
  split.
  - intros (Hx & q & Hq & ->). apply elem_removed in Hx as [Hx Hne].
    assert (located L ft' x (q ++ [name ft' (fent_id x)])) as Hl.
    { split; [done|]. exists q. split; [|done]. apply at_dir_removed in Hq; [done|]. by eapply removed_childless. }
    split; [done|]. intros E. rewrite E in Hl. apply Hne. by eapply located_inj.
  - intros [Hl Hne]. pose proof Hl as (Hx & q & Hq & ->). split.
    + apply elem_removed. split; [done|]. intros [-> ->]. apply Hne. by eapply located_det.
    + exists q. split; [|done]. apply at_dir_removed; [by eapply removed_childless|done].
Qed.

Lemma mirror_remove : mirror L' n (delete a N).
Proof using All.
  split.
  - apply (mir_seq _ _ _ Hm).
  - intros ft' x [Hx _]%elem_removed. by apply (mir_range _ _ _ Hm ft').
  - intros ft1 ft2 e1 e2 [H1 _]%elem_removed [H2 _]%elem_removed. by apply (mir_unique _ _ _ Hm).
  - intros ft'. unfold upd. destruct (decide _) as [->|]; [|apply (mir_nodup _ _ _ Hm)].
    by apply (swap_remove_spec _ _ _ (mir_nodup _ _ _ Hm ft) He).
  - intros ft' x [Hx _]%elem_removed. destruct (mir_placed _ _ _ Hm _ _ Hx) as [q Hq]. exists q.
    apply at_dir_removed; [by eapply removed_childless|done].
  - intros p k. rewrite lookup_delete_Some, (mir_nodes _ _ _ Hm). setoid_rewrite located_removed. naive_solver.
Qed.
End remove.

(** ** A file moved, with everything below it *)

Lemma prefix_snoc_ne {A} (a p : list A) x : p ++ [x] ≠ a → a `prefix_of` p ++ [x] ↔ a `prefix_of` p.
Proof.
  intros Hne. split; [|by intros; apply prefix_app_r]. intros [r E]. destruct (last r) as [y|] eqn:Er.
  - apply last_Some in Er as [r' ->]. rewrite app_assoc in E. apply app_inj_tail in E as [-> _]. by apply prefix_app_r.
  - apply last_None in Er as ->. by rewrite app_nil_r in E.
Qed.

Lemma move_path_snoc a b p x : p ++ [x] ≠ a → move_path a b (p ++ [x]) = move_path a b p ++ [x].
Proof.
  intros Hne. unfold move_path. destruct (decide (a `prefix_of` p)) as [Hp|Hp].
  - rewrite decide_True by (by apply prefix_app_r). rewrite drop_app_le by (by apply prefix_length). by rewrite app_assoc.
  - rewrite decide_False; [done|]. by rewrite prefix_snoc_ne.
Qed.

Lemma move_path_self a b : move_path a b a = b.
Proof. unfold move_path. rewrite decide_True by done. by rewrite drop_all, app_nil_r. Qed.

Lemma move_path_other a b p : ¬ a `prefix_of` p → move_path a b p = p.
Proof. intros. unfold move_path. by rewrite decide_False. Qed.

Lemma moved_spec N a b p' k :
  (∀ p, b `prefix_of` p → N !! p = None) → ¬ a `prefix_of` b →
  moved N a b p' = Some k ↔ ∃ p, N !! p = Some k ∧ p' = move_path a b p.
Proof.
  intros Hb Hab. unfold moved, move_path. split.
  - destruct (decide (b `prefix_of` p')) as [[r ->]|Hp].
    + rewrite drop_app_length. intros Hk. exists (a ++ r). split; [done|].
      rewrite decide_True by (by apply prefix_app_r). by rewrite drop_app_length.
    + destruct (decide (a `prefix_of` p')) as [|Hp']; [done|]. intros Hk. exists p'. by rewrite decide_False.
  - intros (p & Hk & ->). destruct (decide (a `prefix_of` p)) as [[r ->]|Hp].
    + rewrite drop_app_length, decide_True by (by apply prefix_app_r). by rewrite drop_app_length.
    + rewrite decide_False, decide_False; [done|done|]. intros Hp'. by rewrite Hb in Hk.
Qed.

Section move.
Context (L L' : files) (n : Z) (N N' : nodemap) (ft : ftype) (e : fent) (par : Z) (a q : path).
#[local] Abbreviation b := (q ++ [name ft n]).
Context (Hm : mirror L n N) (Ha : located L ft e a) (Hq : at_dir (L FT_DIR) par q) (Hab : ¬ a `prefix_of` b).
(** The file has its new number, and the entries below it their new parent. *)
Context (Hmem : ∀ ft' x, x ∈ L' ft' ↔ (ft' = ft ∧ x = Fent n par) ∨
  ∃ y, y ∈ L ft' ∧ fent_id y ≠ fent_id e ∧ x = fix_entry (fent_id e) n y).
Context (Hnd : ∀ ft', NoDup (L' ft')).

Definition renumber (d : Z) : Z := if decide (d = fent_id e) then n else d.

Lemma fix_parent_renumber y : fent_parent (fix_entry (fent_id e) n y) = renumber (fent_parent y).
Proof. unfold fix_entry, renumber. by destruct (decide _). Qed.

Lemma moved_range : 0 ≤ fent_id e < n.
Proof using All. destruct Ha as [He _]. by apply (mir_range _ _ _ Hm ft). Qed.

Lemma moved_nonempty : a ≠ [].
Proof using All. intros E. destruct Ha as (_ & q' & _ & E'). rewrite E in E'. by destruct q'. Qed.

Lemma not_above_target : ¬ a `prefix_of` q.
Proof using All. intros Hp. apply Hab. by apply prefix_app_r. Qed.

(** The place of another file is not [a]. *)
Lemma other_place ft' y p : y ∈ L ft' → fent_id y ≠ fent_id e → p ++ [name ft' (fent_id y)] ≠ a.
Proof using All.
  intros Hy Hne. destruct Ha as (He & q' & _ & E'). intros E. rewrite E' in E. apply app_inj_tail in E as [_ E].
  pose proof (mir_range _ _ _ Hm _ _ Hy). pose proof (mir_range _ _ _ Hm _ _ He). apply name_of_inj in E as [_ E]; lia.
Qed.

Lemma at_moved_dir x : x ∈ L FT_DIR → fent_id x = fent_id e → ft = FT_DIR ∧ x = e ∧ at_dir (L FT_DIR) (fent_id e) a.
Proof using All.
  intros Hx E. pose proof Ha as (He & q' & Hq' & Ea). destruct (mir_unique _ _ _ Hm FT_DIR ft x e) as [<- ->]; [done..|].
  split_and!; [done|done|]. rewrite Ea. by constructor.
Qed.

(** Directories outside of [a] stay where they are. *)
Lemma at_dir_outside d p : at_dir (L FT_DIR) d p → ¬ a `prefix_of` p → at_dir (L' FT_DIR) d p.
Proof using All.
  induction 1 as [|x p Hx Hp IH]; intros Hout; [constructor|].
  assert (fent_id x ≠ fent_id e) as Hne.
  { intros E. destruct (at_moved_dir x Hx E) as (Eft & -> & Hat). apply Hout. rewrite (at_dir_det _ _ _ Hm _ _ _ (at_sub _ _ _ Hx Hp) Hat). done. }
  assert (¬ a `prefix_of` p) as Hout' by (intros ?; apply Hout; by apply prefix_app_r).
  assert (fent_parent x ≠ fent_id e) as Hpar.
  { intros E. rewrite E in Hp. inversion Hp as [E1|x' p' Hx' Hp' E1 E2]; [pose proof moved_range; lia|].
    destruct (at_moved_dir x' Hx' E1) as (_ & _ & Hat). apply Hout'. rewrite <- E1 in Hat.
    rewrite (at_dir_det _ _ _ Hm _ _ _ Hat (at_sub _ _ _ Hx' Hp')), E2. done. }
  apply at_sub; [|by apply IH]. apply Hmem. right. exists x. split_and!; [done|done|].
  unfold fix_entry. by rewrite decide_False.
Qed.

Lemma at_dir_new : ft = FT_DIR → at_dir (L' FT_DIR) n b.
Proof using All.
  intros E. rewrite E. apply (at_sub _ (Fent n par)).
  - apply Hmem. by left.
  - apply at_dir_outside; [done|apply not_above_target].
Qed.

Lemma at_dir_forward d p : at_dir (L FT_DIR) d p → at_dir (L' FT_DIR) (renumber d) (move_path a b p).
Proof using All.
  induction 1 as [|x p Hx Hp IH].
  - rewrite move_path_other by (intros ?%prefix_nil_inv; by apply moved_nonempty). unfold renumber.
    rewrite decide_False by (pose proof moved_range; lia). constructor.
  - destruct (decide (fent_id x = fent_id e)) as [E|Hne].
    + destruct (at_moved_dir x Hx E) as (Eft & -> & Hat).
      rewrite (at_dir_det _ _ _ Hm _ _ _ (at_sub _ _ _ Hx Hp) Hat), move_path_self. unfold renumber.
      rewrite decide_True by done. by apply at_dir_new.
    + rewrite move_path_snoc by (by apply other_place). unfold renumber at 1. rewrite decide_False by done.
      rewrite <- (fix_entry_id (fent_id e) n x). apply at_sub; [|by rewrite fix_parent_renumber].
      apply Hmem. right. eauto.
Qed.

Lemma renumber_inj d d' : d < n → d' < n → renumber d = renumber d' → d = d'.
Proof. unfold renumber. intros. repeat case_decide; lia. Qed.

Lemma at_dir_backward d' p' : at_dir (L' FT_DIR) d' p' →
  ∃ d p, at_dir (L FT_DIR) d p ∧ d' = renumber d ∧ p' = move_path a b p.
Proof using All.
  pose proof moved_range as Hr. induction 1 as [|x p' Hx Hp' (d & p & Hp & E & ->)].
  - exists (-1), []. split_and!; [constructor|unfold renumber; rewrite decide_False; lia|].
    by rewrite move_path_other by (intros ?%prefix_nil_inv; by apply moved_nonempty).
  - pose proof (at_dir_range _ _ _ Hm _ _ Hp) as Hd. apply Hmem in Hx as [[Eft ->]|(y & Hy & Hne & ->)]; cbn [fent_parent fent_id] in *.
    + pose proof (at_dir_range _ _ _ Hm _ _ Hq) as Hpar. assert (d = par) as Ed.
      { unfold renumber in E. destruct (decide _); lia. }
      rewrite Ed in Hp.
      exists (fent_id e), a. destruct Ha as (He & q' & Hq' & Ea). split_and!.
      * rewrite Ea, <- Eft in *. by constructor.
      * unfold renumber. by rewrite decide_True.
      * rewrite move_path_self, <- Eft. by rewrite (at_dir_det _ _ _ Hm _ _ _ Hp Hq), move_path_other by apply not_above_target.
    + rewrite fix_parent_renumber in E. destruct (mir_placed _ _ _ Hm _ _ Hy) as [q' Hq'].
      pose proof (at_dir_range _ _ _ Hm _ _ Hq'). apply renumber_inj in E; [|lia..]. rewrite <- E in Hp.
      exists (fent_id y), (p ++ [name FT_DIR (fent_id y)]). rewrite fix_entry_id. split_and!.
      * by constructor.
      * unfold renumber. by rewrite decide_False.
      * by rewrite move_path_snoc by (by apply other_place).
Qed.

Lemma below_target p : b `prefix_of` p → N !! p = None.
Proof using All.
  intros Hp. destruct (N !! p) as [k|] eqn:E; [|done]. pose proof (fresh_node L n N Hm q ft) as Hf.
  apply (mir_nodes _ _ _ Hm) in E as (ft' & x & (Hx & p0 & Hp0 & ->) & _).
  destruct (decide (p0 ++ [name ft' (fent_id x)] = b)) as [E|Hne].
  - assert (N !! (p0 ++ [name ft' (fent_id x)]) = Some (kind_of ft')) as Hl.
    { apply (located_node L n N Hm ft' x). split; eauto. }
    rewrite E, Hf in Hl. done.
  - apply prefix_snoc_ne in Hp; [|done]. rewrite (at_dir_above _ _ _ Hm _ _ _ Hp0 Hp) in Hf; [done|by destruct q].
Qed.

Lemma located_forward ft' y p : located L ft' y p → ∃ x, located L' ft' x (move_path a b p).
Proof using All.
  intros Hl. pose proof Hl as (Hy & p0 & Hp0 & ->). destruct (decide (fent_id y = fent_id e)) as [E|Hne].
  - pose proof Ha as (He & _). destruct (mir_unique _ _ _ Hm ft' ft y e) as [E1 E2]; [done..|].
    exists (Fent n par). rewrite E1, E2 in Hl |- *. rewrite (located_det _ _ _ Hm _ _ _ _ Hl Ha), move_path_self.
    split; [apply Hmem; by left|]. exists q. split; [|done]. apply at_dir_outside; [done|apply not_above_target].
  - exists (fix_entry (fent_id e) n y). split; [apply Hmem; right; eauto|]. exists (move_path a b p0).
    rewrite fix_parent_renumber, fix_entry_id. split; [by apply at_dir_forward|]. by apply move_path_snoc, other_place.
Qed.

Lemma located_backward ft' x p' : located L' ft' x p' → ∃ y p, located L ft' y p ∧ p' = move_path a b p.
Proof using All.
  intros (Hx & p0 & Hp0 & ->). apply at_dir_backward in Hp0 as (d & p & Hp & E & ->).
  pose proof (at_dir_range _ _ _ Hm _ _ Hp) as Hd. pose proof (at_dir_range _ _ _ Hm _ _ Hq) as Hpar.
  apply Hmem in Hx as [[Eft ->]|(y & Hy & Hne & ->)]; cbn [fent_parent fent_id] in *.
  - assert (d = par) as Ed by (unfold renumber in E; destruct (decide _); lia). rewrite Ed in Hp.
    exists e, a. rewrite Eft. split; [done|]. rewrite move_path_self.
    by rewrite (at_dir_det _ _ _ Hm _ _ _ Hp Hq), move_path_other by apply not_above_target.
  - rewrite fix_parent_renumber in E. destruct (mir_placed _ _ _ Hm _ _ Hy) as [q' Hq'].
    pose proof (at_dir_range _ _ _ Hm _ _ Hq'). apply renumber_inj in E; [|lia..]. rewrite <- E in Hp.
    exists y, (p ++ [name ft' (fent_id y)]). rewrite fix_entry_id. split; [split; eauto|].
    symmetry. by apply move_path_snoc, other_place.
Qed.

Lemma mirror_move : (∀ x, N' !! x = moved N a b x) → mirror L' (n + 1) N'.
Proof using All.
  intros HN. pose proof (mir_range _ _ _ Hm) as Hr. split.
  - pose proof (mir_seq _ _ _ Hm). lia.
  - intros ft' x [[_ ->]|(y & Hy & _ & ->)]%Hmem; [cbn; pose proof moved_range; lia|].
    rewrite fix_entry_id. specialize (Hr _ _ Hy). lia.
  - intros ft1 ft2 e1 e2 [[-> ->]|(y1 & H1 & _ & ->)]%Hmem [[-> ->]|(y2 & H2 & _ & ->)]%Hmem E; rewrite ?fix_entry_id in E; cbn in E.
    + done.
    + specialize (Hr _ _ H2). lia.
    + specialize (Hr _ _ H1). lia.
    + by destruct (mir_unique _ _ _ Hm ft1 ft2 y1 y2) as [-> ->].
  - done.
  - intros ft' x [[_ ->]|(y & Hy & Hne & ->)]%Hmem.
    + exists q. apply at_dir_outside; [done|apply not_above_target].
    + destruct (mir_placed _ _ _ Hm _ _ Hy) as [q' Hq']. rewrite fix_parent_renumber. eexists. by apply at_dir_forward.
  - intros p' k. rewrite HN, moved_spec by (done || apply below_target). setoid_rewrite (mir_nodes _ _ _ Hm). split.
    + intros (p & (ft' & y & Hy & ->) & ->). apply located_forward in Hy as [x Hx]. eauto.
    + intros (ft' & x & Hx & ->). apply located_backward in Hx as (y & p & Hy & ->). eauto 6.
Qed.
End move.

(** The lists after fix_parent(), del_from_flist() and add_to_flist(). *)
Definition renamed (L : files) (ft : ftype) (slot : nat) (oldid newid par : Z) : files :=
  let L1 : files := λ ft', fix_entry oldid newid <$> L ft' in
  let L2 := upd L1 ft (swap_remove slot (L1 ft)) in
  upd L2 ft (L2 ft ++ [Fent newid par]).

Lemma renamed_spec L n N ft slot e par :
  mirror L n N → L ft !! slot = Some e →
  (∀ ft' x, x ∈ renamed L ft slot (fent_id e) n par ft' ↔ (ft' = ft ∧ x = Fent n par) ∨
    ∃ y, y ∈ L ft' ∧ fent_id y ≠ fent_id e ∧ x = fix_entry (fent_id e) n y) ∧
  (∀ ft', NoDup (renamed L ft slot (fent_id e) n par ft')).
Proof.
  intros Hm He. set (fix_e := fix_entry (fent_id e) n). pose proof (list_elem_of_lookup_2 _ _ _ He) as Hin.
  assert (∀ ft', NoDup (fix_e <$> L ft')) as Hnd.
  { intros ft'. apply NoDup_fmap_2_strong; [|apply (mir_nodup _ _ _ Hm)]. intros x y Hx Hy E.
    apply (f_equal fent_id) in E. unfold fix_e in E. rewrite !fix_entry_id in E. by eapply (mir_unique _ _ _ Hm). }
  assert ((fix_e <$> L ft) !! slot = Some (fix_e e)) as He' by (by rewrite list_lookup_fmap, He).
  destruct (swap_remove_spec _ _ _ (Hnd ft) He') as [Hnd2 Hmem2].
  assert (∀ x, x ∈ swap_remove slot (fix_e <$> L ft) ↔ ∃ y, y ∈ L ft ∧ fent_id y ≠ fent_id e ∧ x = fix_e y) as Hrem.
  { intros x. rewrite Hmem2, list_elem_of_fmap. split.
    - intros [(y & -> & Hy) Hne]. exists y. split_and!; [done| |done]. intros E. apply Hne. f_equal.
      by eapply (mir_unique _ _ _ Hm).
    - intros (y & Hy & Hne & ->). split; [eauto|]. intros E. apply (f_equal fent_id) in E. unfold fix_e in E.
      by rewrite !fix_entry_id in E. }
  unfold renamed, upd. cbv zeta. fold fix_e. rewrite !decide_True by done. split; intros ft'; (destruct (decide (ft' = ft)) as [->|Hne]).
  - intros x. rewrite elem_of_app, list_elem_of_singleton, Hrem. naive_solver.
  - intros x. rewrite list_elem_of_fmap. split.
    + intros (y & -> & Hy). right. exists y. split_and!; [done| |done]. intros E.
      destruct (mir_unique _ _ _ Hm ft' ft y e) as [? _]; done.
    + intros [[? _]|(y & Hy & _ & ->)]; [done|]. eauto.
  - apply NoDup_app. split_and!; [done| |apply NoDup_singleton]. intros x (y & Hy & _ & ->)%Hrem E%list_elem_of_singleton.
    apply (f_equal fent_id) in E. unfold fix_e in E. rewrite fix_entry_id in E. cbn in E.
    pose proof (mir_range _ _ _ Hm _ _ Hy). lia.
  - done.
Qed.

Lemma mirror_renamed L n N N' ft slot e par a q :
  mirror L n N → L ft !! slot = Some e → located L ft e a → at_dir (L FT_DIR) par q →
  ¬ a `prefix_of` q ++ [name ft n] → (∀ x, N' !! x = moved N a (q ++ [name ft n]) x) →
  mirror (renamed L ft slot (fent_id e) n par) (n + 1) N'.
Proof.
  intros Hm He Ha Hq Hab HN. destruct (renamed_spec L n N ft slot e par Hm He) as [Hmem Hnd].
  by eapply (mirror_move L _ n N N' ft e par a q).
Qed.

(** A file that is not a directory has nothing below it. *)
Lemma fix_nothing L n N ft e newid ft' :
  mirror L n N → e ∈ L ft → ft ≠ FT_DIR → fix_entry (fent_id e) newid <$> L ft' = L ft'.
Proof.
  intros Hm He Hft. apply list_eq_same_length with (n := length (L ft')); [done|by rewrite length_fmap|].
  intros i x y _ Hx Hy. rewrite list_lookup_fmap, Hy in Hx. cbn in Hx. injection Hx as <-. unfold fix_entry.
  destruct (decide _) as [E|]; [|done]. exfalso. apply list_elem_of_lookup_2 in Hy.
  destruct (mir_placed _ _ _ Hm _ _ Hy) as [q Hq]. rewrite E in Hq. inversion Hq as [E1|x Hx Hp E1]; subst.
  - pose proof (mir_range _ _ _ Hm _ _ He). lia.
  - destruct (mir_unique _ _ _ Hm FT_DIR ft x e) as [? _]; done.
Qed.

Lemma mirror_mono L n n' N : mirror L n N → n ≤ n' → mirror L n' N.
Proof. intros [] Hn. split; try done; [lia|]. intros ft e He. specialize (mir_range0 _ _ He). lia. Qed.

(** ** The names of places *)

Section names.
Context (Hrand : 0 ≤ rand ≤ INT_MAX).

Lemma proper_name ft id : 0 ≤ id ≤ INT_MAX → proper (name ft id).
Proof using All.
  intros Hid. split_and!; [apply name_of_plain| |by destruct ft].
  apply (file_name_ok (Settings 0 false [] rand 0 0 0 0 false) ft id Hrand Hid).
Qed.

Lemma place_named L n N d q ft id :
  mirror L n N → at_dir (L FT_DIR) d q → 0 ≤ id ≤ INT_MAX → n ≤ INT_MAX →
  resolve (Tree N []) (join (q ++ [name ft id])) = Some (q ++ [name ft id]) ∧ fits (join (q ++ [name ft id])).
Proof using All.
  intros Hm Hq Hid Hn. assert (Forall proper (q ++ [name ft id])) as Hp.
  { apply Forall_app_2; [|constructor; [by apply proper_name|constructor]].
    induction Hq as [|e p He Hp IH]; [constructor|]. apply Forall_app_2; [done|]. constructor; [|constructor].
    apply proper_name. pose proof (mir_range _ _ _ Hm _ _ He). lia. }
  assert (comps (join (q ++ [name ft id])) = q ++ [name ft id]) as Hc.
  { apply comps_join; [by destruct q|]. eapply Forall_impl; [done|]. by intros x [(_ & _ & _ & ?) _]. }
  unfold resolve, fits. rewrite Hc. split; [by eapply find_located|done].
Qed.
End names.
End mirror.
