(* ===== verification/FsstressOps.v ===== *)
(** * The operations of fsstress keep the lists and the tree together

    Every operation, on every system that behaves like the tree of FsstressTree and
    however its calls fail, leaves lists that describe the tree. *)
From stdpp Require Import base strings numbers option list gmap.
From Stdlib Require Import Ascii.
From S2P Require Import Prelude CInt CText Steps Fsstress FsstressTree FsstressPath FsstressLists FsstressMirror.

#[local] Open Scope Z_scope.

Record wf_settings (cfg : settings) : Prop := {
  wf_namerand : 0 ≤ namerand cfg ≤ INT_MAX;
  wf_maxfsize : 0 < maxfsize cfg ≤ LONG_MAX;
  wf_pagesize : 0 < pagesize cfg ∧ pagesize cfg * 32 ≤ INT_MAX
}.

Lemma st_frame L n s s' :
  flists s' = flists s → dcache s' = dcache s → nameseq s' = nameseq s → st L n s → st L n s'.
Proof. intros E1 E2 E3 []. split; rewrite ?E1, ?E2, ?E3; auto. Qed.

Lemma st_same L n s s' : same s s' → st L n s → st L n s'.
Proof.
  intros Hs. assert (flists s' = flists s ∧ dcache s' = dcache s ∧ nameseq s' = nameseq s) as (? & ? & ?).
  { unfold same, set_errno in Hs. by injection Hs. }
  by apply st_frame.
Qed.

Section ops.
Context {W : Type} `{PosixTree W} {stuck : Prop} (cfg : settings) (Hcfg : wf_settings cfg).
#[local] Abbreviation rand := (namerand cfg).
#[local] Abbreviation name := (name_of rand).

(** The lists describe the tree, and the process is in the top directory. *)
Record inv (L : files) (n : Z) (s : fss) (w : W) : Prop := {
  inv_st : st L n s;
  inv_mirror : mirror rand L n (nodes (tree_of w));
  inv_cwd : cwd (tree_of w) = []
}.

Definition stop (c : Z) (s : fss) (w : W) : Prop := c = 1 ∧ ∃ L n, inv L n s w.
#[local] Abbreviation twp := (wp stuck stop).

(** The end of an operation: at most one number was used. *)
Definition fine (n : Z) : () → fss → W → Prop := λ _ s w, ∃ L n', inv L n' s w ∧ n' ≤ n + 1.

Lemma tree_eta w N : nodes (tree_of w) = N → cwd (tree_of w) = [] → tree_of w = Tree N [].
Proof. destruct (tree_of w). cbn. by intros -> ->. Qed.

Lemma wp_status rval s w (Q : Z → fss → W → Prop) :
  (rval < 0 → 0 < errno s) → (∀ e, (0 ≤ rval → e = 0) → (rval < 0 → 0 < e) → Q e s w) → twp (status rval) s w Q.
Proof. intros He Hq. unfold status. destruct (decide _); [apply wp_get|apply wp_ret]; apply Hq; (done || lia). Qed.

Lemma wp_say L n v opno l s w (Q : () → fss → W → Prop) :
  st L n s → (∀ s', st L n s' → Q () s' w) → twp (say cfg v opno l) s w Q.
Proof. intros Hs Hq. unfold say. destruct v; [apply wp_put|apply wp_ret]; apply Hq; [|done]. by apply (st_frame _ _ s). Qed.

(** ** Names *)

Lemma fent_to_name_step {stp : Z → fss → W → Prop} L n N (Hm : mirror rand L n N) (Hn : n ≤ INT_MAX) m : ∀ fuel ft slot e q nm s w (Q : pathname → fss → W → Prop),
  st L m s → L ft !! slot = Some e → at_dir rand (L FT_DIR) (fent_parent e) q → (length q < fuel)%nat →
  (∀ s', st L m s' → Q (append_pathname nm (join (q ++ [name ft (fent_id e)]))) s' w) →
  wp stuck stp (fent_to_name_loop cfg fuel nm ft (Some slot)) s w Q.
Proof using Hcfg.
  induction fuel as [|fuel IH]; intros ft slot e q nm s w Q Hs He Hq Hf HQ; [lia|]. cbn [fent_to_name_loop].
  apply wp_bind. eapply wp_entry; [done|done|]. pose proof (list_elem_of_lookup_2 _ _ _ He) as Hin.
  pose proof (mir_range _ _ _ _ Hm _ _ Hin) as Hid.
  assert (∀ nm' s', st L m s' → append_pathname nm' (name ft (fent_id e)) = append_pathname nm (join (q ++ [name ft (fent_id e)])) →
    wp stuck stp (t ← get (λ s, tag (flists s ft)); buf ← lift (file_name cfg t (fent_id e)); mret (append_pathname nm' buf)) s' w Q) as Hend.
  { intros nm' s' Hs' E. apply wp_bind, wp_get, wp_bind. rewrite (rep_tag _ _ _ (st_rep _ _ _ Hs' ft)).
    eapply wp_lift; [apply file_name_ok; [apply (wf_namerand _ Hcfg)|lia]|]. apply wp_ret. rewrite E. by apply HQ. }
  apply wp_bind. inversion Hq as [E1 E2|e' q' He' Hq' E1 E2]; subst q.
  - rewrite decide_False by lia. apply wp_ret, Hend; [done|]. done.
  - pose proof (mir_range _ _ _ _ Hm _ _ He') as Hid'. rewrite decide_True by lia.
    apply wp_bind. eapply wp_dirid_to_fent; [done|lia|]. intros o dc Ho Hs'. destruct o as [i|].
    2:{ by destruct (Ho e' He'). }
    destruct Ho as (e'' & Hi & E). destruct (mir_unique _ _ _ _ Hm FT_DIR FT_DIR e'' e') as [_ ->]; [|done|done|].
    { by apply list_elem_of_lookup_2 in Hi. }
    apply wp_bind. rewrite length_app in Hf. cbn in Hf. eapply IH; [done|done|done|lia|]. intros s2 Hs2.
    apply wp_ret, Hend; [done|]. rewrite (join_path_snoc (_ ++ _)). unfold append_pathname. cbn [default from_option].
    unfold Datatypes.id. destruct (q' ++ _) eqn:Eq; [by destruct q'|]. by rewrite <- !app_assoc.
Qed.

Lemma wp_fent_to_name {stp : Z → fss → W → Prop} L n N m ft slot e q nm s w (Q : pathname → fss → W → Prop) :
  mirror rand L n N → n ≤ INT_MAX → st L m s → L ft !! slot = Some e → at_dir rand (L FT_DIR) (fent_parent e) q →
  (∀ s', st L m s' → Q (append_pathname nm (join (q ++ [name ft (fent_id e)]))) s' w) →
  wp stuck stp (fent_to_name cfg nm ft (Some slot)) s w Q.
Proof using Hcfg.
  intros Hm Hn Hs He Hq HQ. unfold fent_to_name. apply wp_bind, wp_get. rewrite (rep_files _ _ _ (st_rep _ _ _ Hs FT_DIR)).
  eapply fent_to_name_step; [done|done|done|done|done| |done]. pose proof (at_dir_length _ _ _ _ Hm _ _ Hq). lia.
Qed.

Lemma select_file_ok which f : ∀ fts c x,
  (c ≤ x < foldl (λ c ft, if selects which ft then (c + nfiles (f ft))%nat else c) c fts)%nat →
  ∃ ft slot, select_file fts which f c x = Some (ft, slot) ∧ selects which ft = true ∧ (slot < nfiles (f ft))%nat.
Proof.
  induction fts as [|ft fts IH]; intros c x Hx; cbn in *; [lia|]. destruct (selects which ft) eqn:E; [|by apply IH].
  destruct (decide (x < c + nfiles (f ft))%nat) as [|]; [|apply IH; lia]. exists ft, (x - c)%nat. split_and!; [done|done|lia].
Qed.

Lemma count_files_zero which f : count_files which f = 0%nat → ∀ ft, selects which ft = true → nfiles (f ft) = 0%nat.
Proof.
  unfold count_files. cbn. intros Hc ft Hsel.
  destruct ft; rewrite Hsel in Hc; repeat case_match; lia.
Qed.

(** A file that get_fname() picks, with its place and its name. *)
Lemma wp_get_fname {stp : Z → fss → W → Prop} L n s w which r named (Q : option (pathname * ftype * nat) * bool → fss → W → Prop) :
  inv L n s w → n ≤ INT_MAX → 0 ≤ r ≤ INT_MAX →
  (∀ v s', inv L n s' w → (∀ ft, selects which ft = true → L ft = []) → Q (None, v) s' w) →
  (∀ nm ft slot e p v s', inv L n s' w → selects which ft = true → L ft !! slot = Some e → located rand L ft e p →
    nm = (if named : bool then Some (join p) else None) → Q (Some (nm, ft, slot), v) s' w) →
  wp stuck stp (get_fname cfg which r named) s w Q.
Proof using Hcfg.
  intros [Hs Hm Hc] Hn Hr Hnone Hsome. unfold get_fname. apply wp_bind, wp_get.
  destruct (decide _) as [Hzero|Hcount].
  { apply wp_ret, Hnone; [done|]. intros ft Hsel. apply (count_files_zero _ _ Hzero) in Hsel.
    rewrite (rep_files _ _ _ (st_rep _ _ _ Hs ft)) in Hsel. by apply nil_length_inv. }
  set (c := count_files which (flists s)) in *. pose proof (Z.rem_bound_pos r (Z.of_nat c) ltac:(lia) ltac:(lia)).
  pose proof (Z.rem_le r (Z.of_nat c) ltac:(lia) ltac:(lia)). rewrite wrap32_small by clia.
  destruct (select_file_ok which (flists s) ftypes 0 (Z.to_nat (Z.rem r (Z.of_nat c)))) as (ft & slot & -> & Hsel & Hslot).
  { unfold c, count_files in *. lia. }
  rewrite (rep_files _ _ _ (st_rep _ _ _ Hs ft)) in Hslot. apply lookup_lt_is_Some_2 in Hslot as [e He].
  destruct (mir_placed _ _ _ _ Hm ft e (list_elem_of_lookup_2 _ _ _ He)) as [q Hq].
  assert (located rand L ft e (q ++ [name ft (fent_id e)])) as Hl by (split; [by apply list_elem_of_lookup_2 in He|eauto]).
  apply wp_bind. assert (∀ nm s', st L n s' → nm = (if named then Some (join (q ++ [name ft (fent_id e)])) else None) →
    wp stuck stp (e ← entry ft slot; mret (Some (nm, ft, slot), reported cfg (fent_id e))) s' w Q) as Hend.
  { intros nm s' Hs' ->. apply wp_bind. eapply wp_entry; [done|done|]. apply wp_ret. by eapply Hsome. }
  destruct named.
  - eapply wp_fent_to_name; [done|done|done|done|done|]. intros s' Hs'. by apply Hend.
  - by apply wp_ret, Hend.
Qed.

(** A directory for a new file: the top directory if there is none. *)
Definition dir_slot (L : files) (fep : option nat) (parid : Z) : Prop :=
  match fep with None => parid = -1 | Some slot => ∃ e, L FT_DIR !! slot = Some e ∧ parid = fent_id e end.

Lemma wp_get_dir L n s w r (Q : option nat * Z * bool → fss → W → Prop) :
  inv L n s w → n ≤ INT_MAX → 0 ≤ r ≤ INT_MAX →
  (∀ fep parid v s' q, inv L n s' w → dir_slot L fep parid → at_dir rand (L FT_DIR) parid q → Q (fep, parid, v) s' w) →
  twp (get_dir cfg r) s w Q.
Proof using Hcfg.
  intros Hi Hn Hr Hq. unfold get_dir. apply wp_bind. eapply wp_get_fname; [done|done|done| |].
  - intros v s' Hi' _. apply wp_ret. eapply Hq; [done|done|constructor].
  - intros nm ft slot e p v s' Hi' Hsel He Hl _. assert (ft = FT_DIR) as -> by (by destruct ft).
    apply wp_bind. eapply wp_entry; [apply Hi'|done|]. apply wp_ret. destruct Hl as (Hin & q & Hq' & ->).
    eapply Hq; [done|by exists e|by constructor].
Qed.

Lemma wp_generate_fname L n s w fep parid q ft (Q : Z * pathname * Z * bool → fss → W → Prop) :
  inv L n s w → n < INT_MAX → dir_slot L fep parid → at_dir rand (L FT_DIR) parid q →
  (∀ v s', st L (n + 1) s' → Q (1, Some (join (q ++ [name ft n])), n, v) s' w) →
  twp (generate_fname cfg fep ft init_pathname) s w Q.
Proof using Hcfg.
  intros [Hs Hm Hc] Hn Hfep Hq HQ. pose proof (mir_seq _ _ _ _ Hm) as Hn0. unfold generate_fname.
  apply wp_bind, wp_get. rewrite (st_seq _ _ _ Hs). apply wp_bind. eapply wp_lift; [apply i32_ok; clia|]. apply wp_bind, wp_put.
  assert (st L (n + 1) (set_nameseq (n + 1) s)) as Hs1 by (destruct Hs; by split).
  apply wp_bind, wp_get, wp_bind. rewrite (rep_tag _ _ _ (st_rep _ _ _ Hs1 ft)).
  eapply wp_lift; [apply file_name_ok; [apply (wf_namerand _ Hcfg)|lia]|]. apply wp_bind. destruct fep as [slot|].
  - destruct Hfep as (e & He & ->). rewrite decide_False by done. apply wp_bind.
    assert (∃ q', at_dir rand (L FT_DIR) (fent_parent e) q' ∧ q = q' ++ [name FT_DIR (fent_id e)]) as (q' & Hq' & ->).
    { pose proof (list_elem_of_lookup_2 _ _ _ He) as Hin. destruct (mir_placed _ _ _ _ Hm _ _ Hin) as [q' Hq']. exists q'.
      split; [done|]. eapply at_dir_det; [done|done|by constructor]. }
    eapply wp_fent_to_name; [done|lia|done|done|done|]. intros s' Hs'. apply wp_ret, wp_ret.
    rewrite (join_path_snoc (_ ++ _)) in HQ. destruct (q' ++ [name FT_DIR (fent_id e)]) as [|x y] eqn:E; [by destruct q'|].
    specialize (HQ (reported cfg n) s' Hs'). unfold append_pathname. cbn [default from_option init_pathname].
    unfold Datatypes.id. rewrite <- app_assoc. done.
  - cbn in Hfep. subst parid. assert (q = []) as -> by (eapply at_dir_det; [done|done|constructor]).
    rewrite decide_True by done. apply wp_ret, wp_ret. by apply HQ.
Qed.

(** ** Steps that leave the lists and the tree alone *)

Lemma inv_same L n s s' w w' : inv L n s w → same s s' → tree_of w' = tree_of w → inv L n s' w'.
Proof. intros [] Hs E. split; rewrite ?E; try done. by eapply st_same. Qed.

Lemma inv_frame L n s s' w : inv L n s w → st L n s' → inv L n s' w.
Proof. intros []. by split. Qed.

Lemma inv_fine L n m s w : inv L n s w → n ≤ m + 1 → fine m () s w.
Proof. intros. by exists L, n. Qed.

Lemma wp_rnd L n s w (Q : Z → fss → W → Prop) :
  inv L n s w → (∀ r w', 0 ≤ r ≤ INT_MAX → inv L n s w' → Q r s w') → twp rnd s w Q.
Proof. intros Hi Hq. apply twp_rnd. intros r w' Hr Ht. apply Hq; [done|]. by apply (inv_same L n s s w w'). Qed.

Lemma wp_call L n c s w (Q : reply → fss → W → Prop) :
  inv L n s w → (∀ t t', effect c t t' → t' = t) →
  (∀ r s' w', reply_wf c r → inv L n s' w' → (ret r < 0 → 0 < errno s') → Q r s' w') → twp (invoke c) s w Q.
Proof.
  intros Hi Hc Hq. apply twp_invoke. intros r s' w' _ Hwf Hs He _ Hok Hfail. apply Hq; [done| |done].
  apply (inv_same L n s s' w w'); [done|done|]. destruct (decide (ret r < 0)); [auto|]. apply Hc, Hok. lia.
Qed.

Lemma wp_say_fine L n m v opno l s w : inv L n s w → n ≤ m + 1 → twp (say cfg v opno l) s w (fine m).
Proof.
  intros Hi Hn. eapply wp_say; [apply Hi|]. intros s' Hs'. eapply inv_fine; [|done]. by eapply inv_frame.
Qed.

Lemma wp_close L n m fd s w : inv L n s w → n ≤ m + 1 → twp (close fd) s w (fine m).
Proof.
  intros Hi Hn. unfold close. apply wp_bind. eapply wp_call; [done|done|]. intros r s' w' _ Hi' _. apply wp_ret.
  by eapply inv_fine.
Qed.

(** A call on the name of a file, or on a name without a slash. *)
Lemma wp_path_neutral L n R call a p s w (Q : reply → fss → W → Prop) :
  inv L n s w → call_spec (stuck := stuck) stop True (λ _, True) call a (leaves R) → named True (tree_of w) a p →
  (∀ r s' w', inv L n s' w' → (0 ≤ ret r → R r) → (ret r < 0 → 0 < errno s') → Q r s' w') →
  twp (path_call call (Some p)) s w Q.
Proof.
  intros Hi Hc Hp Hq. eapply twp_path_call; [done|done|done|]. intros r s' w' (Hs & Hneg & Hpos). apply Hq.
  - apply (inv_same L n s s' w w'); [done|done|]. destruct (decide (ret r < 0)); [by apply Hneg|].
    destruct Hpos as [[_ E] Hd]; [lia|]. destruct (tree_of w), (tree_of w'). cbn in *. congruence.
  - intros Hr. by apply Hpos.
  - intros Hr. by apply Hneg.
Qed.

Lemma wp_path_ret_neutral L n R call a p s w (Q : Z → fss → W → Prop) :
  inv L n s w → call_spec (stuck := stuck) stop True (λ _, True) call a (leaves R) → named True (tree_of w) a p →
  (∀ r s' w', inv L n s' w' → (r < 0 → 0 < errno s') → Q r s' w') → twp (path_ret call (Some p)) s w Q.
Proof.
  intros Hi Hc Hp Hq. unfold path_ret. apply wp_bind. eapply wp_path_neutral; [done..|].
  intros r s' w' Hi' _ He. apply wp_ret. by apply Hq.
Qed.

(** The place of a file and its name. *)
Lemma located_named (free : Prop) L n s w ft e p :
  inv L n s w → n ≤ INT_MAX → located rand L ft e p → named free (tree_of w) p (join p).
Proof using Hcfg.
  intros [Hs Hm Hc] Hn (He & q & Hq & ->). left. rewrite (tree_eta w _ eq_refl Hc).
  pose proof (mir_range _ _ _ _ Hm _ _ He). eapply place_named; [apply (wf_namerand _ Hcfg)|done|done|lia|done].
Qed.

Lemma dot_named (a : path) t : named True t a (chars ".").
Proof. right. split; [done|]. by_decide. Qed.

(** ** New files *)

(** The name of a new file is new. *)
Lemma new_named L n w q parid ft :
  mirror rand L n (nodes (tree_of w)) → cwd (tree_of w) = [] → n < INT_MAX → at_dir rand (L FT_DIR) parid q →
  named False (tree_of w) (q ++ [name ft n]) (join (q ++ [name ft n])) ∧ nodes (tree_of w) !! (q ++ [name ft n]) = None.
Proof using Hcfg.
  intros Hm Hc Hn Hq. split; [|by eapply fresh_node]. left. rewrite (tree_eta w _ eq_refl Hc). pose proof (mir_seq _ _ _ _ Hm).
  eapply place_named; [apply (wf_namerand _ Hcfg)|done|done|lia|lia].
Qed.

(** A call that makes the file: it is in the tree, or nothing has changed. *)
Lemma wp_make_call L n call ft parid q s w (Q : Z → fss → W → Prop) :
  st L (n + 1) s → mirror rand L n (nodes (tree_of w)) → cwd (tree_of w) = [] → n < INT_MAX → at_dir rand (L FT_DIR) parid q →
  call_spec (stuck := stuck) stop False (λ N, N !! (q ++ [name ft n]) = None) call (q ++ [name ft n]) (makes (q ++ [name ft n]) (kind_of ft)) →
  (∀ rval s' w', st L (n + 1) s' → cwd (tree_of w') = [] → 0 ≤ rval →
    mirror rand (upd L ft (L ft ++ [Fent n parid])) (n + 1) (nodes (tree_of w')) → Q rval s' w') →
  (∀ rval s' w', inv L (n + 1) s' w' → rval < 0 → 0 < errno s' → Q rval s' w') →
  twp (path_ret call (Some (join (q ++ [name ft n])))) s w Q.
Proof using Hcfg.
  intros Hs Hm Hc Hn Hq Hspec Hok Hfail. destruct (new_named L n w q parid ft) as [Hnm Hnew]; [done..|].
  eapply twp_path_ret; [done|done|done|]. intros r s' w' (Hs' & Hneg & Hpos). destruct (decide (ret r < 0)) as [Hlt|Hge].
  - destruct Hneg as [He Ht]; [done|]. apply Hfail; [|done|done]. split; rewrite ?Ht; [by eapply st_same| |done].
    eapply mirror_mono; [done|lia].
  - destruct Hpos as [Hmk Hc']; [lia|]. apply Hok; [by eapply st_same|by rewrite Hc'|lia|]. rewrite Hmk. by apply mirror_add.
Qed.

(** The end of the operations that make a file. *)
Lemma wp_make L n call ft parid q v opno (l : Z → text) s w :
  st L (n + 1) s → mirror rand L n (nodes (tree_of w)) → cwd (tree_of w) = [] → n < INT_MAX → at_dir rand (L FT_DIR) parid q →
  call_spec (stuck := stuck) stop False (λ N, N !! (q ++ [name ft n]) = None) call (q ++ [name ft n]) (makes (q ++ [name ft n]) (kind_of ft)) →
  twp (
    rval ← path_ret call (Some (join (q ++ [name ft n])));
    e ← status rval;
    _ ← (if decide (e = 0) then add_to_flist ft n parid else mret ());
    say cfg v opno (l e)) s w (fine n).
Proof using Hcfg.
  intros Hs Hm Hc Hn Hq Hspec. pose proof (mir_seq _ _ _ _ Hm). apply wp_bind. eapply wp_make_call; [done..| |].
  - intros rval s' w' Hs' Hc' Hr Hm'. apply wp_bind, wp_status; [lia|]. intros e He _. rewrite He by done.
    apply wp_bind. eapply wp_add_to_flist; [done|lia|]. intros s2 Hs2. eapply wp_say_fine; [by split|lia].
  - intros rval s' w' Hi Hr He. apply wp_bind, wp_status; [done|]. intros e _ He'. rewrite decide_False by lia.
    apply wp_bind, wp_ret. eapply wp_say_fine; [done|lia].
Qed.

(** A directory and a new name in it. *)
Lemma wp_new_name {A} L n s w r ft (k : option nat → Z → bool → Z * pathname * Z * bool → M W A) (Q : A → fss → W → Prop) :
  inv L n s w → n < INT_MAX → 0 ≤ r ≤ INT_MAX →
  (∀ fep parid v v' q s', st L (n + 1) s' → at_dir rand (L FT_DIR) parid q →
    twp (k fep parid v (1, Some (join (q ++ [name ft n])), n, v')) s' w Q) →
  twp ('(fep, parid, v) ← get_dir cfg r; x ← generate_fname cfg fep ft init_pathname; k fep parid v x) s w Q.
Proof using Hcfg.
  intros Hi Hn Hr Hk. apply wp_bind. eapply wp_get_dir; [done|lia|done|]. intros fep parid v s1 q Hi1 Hfep Hq.
  apply wp_bind. eapply wp_generate_fname; [done|done|done|done|]. intros v' s2 Hs2. by apply Hk.
Qed.

Lemma wp_mkdir_f L n opno r s w : inv L n s w → n < INT_MAX → 0 ≤ r ≤ INT_MAX → twp (mkdir_f cfg opno r) s w (fine n).
Proof using Hcfg.
  intros Hi Hn Hr. unfold mkdir_f. eapply wp_new_name; [done|done|done|]. intros fep parid v v' q s' Hs' Hq. cbv beta iota zeta.
  rewrite decide_False by done. eapply (wp_make L n _ FT_DIR parid q _ _ (λ e, _)); [done|apply Hi|apply Hi|done|done|].
  by apply (spec_makes stop (λ p, CMkdir p 511)).
Qed.

Lemma wp_mknod_f L n opno r s w : inv L n s w → n < INT_MAX → 0 ≤ r ≤ INT_MAX → twp (mknod_f cfg opno r) s w (fine n).
Proof using Hcfg.
  intros Hi Hn Hr. unfold mknod_f. eapply wp_new_name; [done|done|done|]. intros fep parid v v' q s' Hs' Hq. cbv beta iota zeta.
  rewrite decide_False by done. eapply (wp_make L n _ FT_DEV parid q _ _ (λ e, _)); [done|apply Hi|apply Hi|done|done|].
  apply (spec_makes stop (λ p, CMknod p (8192 + 292) 0)). intros p t t' He. by apply He.
Qed.

Lemma link_value_head len : head (link_value len) = match len with O => None | _ => Some "x"%char end.
Proof. by destruct len. Qed.

(** The value of a symbolic link is not a name that fsstress makes. *)
Lemma link_value_fits len p : fits p → link_value len ≠ p.
Proof.
  intros Hf <-. unfold fits in Hf. pose proof (link_value_head len) as Hh. destruct (link_value len) as [|c l] eqn:E; cbn in Hh.
  - apply Forall_cons in Hf as [[[] _] _]. done.
  - destruct len; [done|]. injection Hh as ->. cbn in Hf.
    destruct (comps l) as [|x cs]; apply Forall_cons in Hf as [(_ & _ & []) _]; done.
Qed.

Lemma wp_symlink_f L n opno r s w : inv L n s w → n < INT_MAX → 0 ≤ r ≤ INT_MAX → twp (symlink_f cfg opno r) s w (fine n).
Proof using Hcfg.
  intros Hi Hn Hr. unfold symlink_f. eapply wp_new_name; [done|done|done|]. intros fep parid v v' q s' Hs' Hq. cbv beta iota zeta.
  rewrite decide_False by done. apply wp_bind, twp_rnd. intros x w' _ Ht.
  eapply (wp_make L n _ FT_SYM parid q _ _ (λ e, _)); rewrite ?Ht; [done|apply Hi|apply Hi|done|done|].
  apply spec_symlink. intros p. apply link_value_fits.
Qed.

Lemma wp_creat_type L n s w (Q : ftype → fss → W → Prop) :
  inv L n s w → (∀ type w', inv L n s w' → kind_of type = KReg → Q type s w') → twp (creat_type cfg) s w Q.
Proof.
  intros Hi Hq. unfold creat_type. apply wp_bind.
  assert (∀ type w', inv L n s w' → kind_of type = KReg →
    twp (_ ← (if decide (type = FT_RTF) then x ← rnd; mret (Z.rem x 10 + 1) else mret 0); mret type) s w' Q) as Hgo.
  { intros type w' Hi' Hk. apply wp_bind. destruct (decide _); [|by apply wp_ret, wp_ret, Hq].
    apply wp_bind. eapply wp_rnd; [done|]. intros x w2 _ Hi2. by apply wp_ret, wp_ret, Hq. }
  destruct (decide (rtpct cfg ≠ 0)); [|by apply wp_ret, Hgo].
  apply wp_bind. eapply wp_rnd; [done|]. intros x w1 _ Hi1. apply wp_ret, Hgo; [done|]. by destruct (decide _).
Qed.

Lemma wp_creat_f L n opno r s w : inv L n s w → n < INT_MAX → 0 ≤ r ≤ INT_MAX → twp (creat_f cfg opno r) s w (fine n).
Proof using Hcfg.
  intros Hi Hn Hr. unfold creat_f. apply wp_bind. eapply wp_get_dir; [done|lia|done|].
  intros fep parid v1 s1 q Hi1 Hfep Hq. cbv beta iota. apply wp_bind. eapply wp_creat_type; [done|].
  intros type w2 Hi2 Hk. apply wp_bind. eapply wp_generate_fname; [done|done|done|done|]. intros v s2 Hs2. cbv beta iota zeta.
  rewrite decide_False by done. apply wp_bind. pose proof (mir_seq _ _ _ _ (inv_mirror _ _ _ _ Hi2)).
  eapply (wp_make_call L n _ type parid q); [done|apply Hi2|apply Hi2|done|done| | |].
  - rewrite Hk. by apply (spec_makes stop (λ p, CCreat p 438)).
  - intros fd s3 w3 Hs3 Hc3 Hfd Hm3. apply wp_bind, wp_status; [lia|]. intros e _ _. apply wp_bind. rewrite decide_True by done.
    apply wp_bind. eapply wp_add_to_flist; [done|lia|]. intros s4 Hs4. apply wp_bind.
    eapply wp_call; [by split|done|]. intros r5 s5 w5 _ Hi5 _. apply wp_ret. eapply wp_say_fine; [done|lia].
  - intros fd s3 w3 Hi3 Hfd He. apply wp_bind, wp_status; [done|]. intros e _ _. rewrite decide_False by lia.
    apply wp_bind, wp_ret. eapply wp_say_fine; [done|lia].
Qed.

(** ** Links, renames and removals *)

Lemma wp_link_f L n opno r s w : inv L n s w → n < INT_MAX → 0 ≤ r ≤ INT_MAX → twp (link_f cfg opno r) s w (fine n).
Proof using Hcfg.
  intros Hi Hn Hr. unfold link_f. apply wp_bind. eapply wp_get_fname; [done|lia|done| |].
  { intros v s1 Hi1 _. eapply wp_say_fine; [done|lia]. }
  intros nm ft slot e a v1 s1 Hi1 Hsel He Hl ->. cbv beta iota. apply wp_bind. eapply wp_rnd; [done|]. intros x w1 Hx Hi2.
  eapply wp_new_name; [done|done|done|]. intros fep parid v v' q s2 Hs2 Hq. cbv beta iota zeta.
  rewrite decide_False by done. pose proof (inv_mirror _ _ _ _ Hi2) as Hm. pose proof (mir_seq _ _ _ _ Hm).
  destruct (located_named False _ _ _ _ _ _ _ Hi2 ltac:(lia) Hl) as [[Ha Hfa]|[[] _]].
  destruct (new_named L n w1 q parid ft) as [[[Hb Hfb]|[[] _]] Hnew]; [done|apply Hi2|done|done|].
  apply wp_bind. eapply twp_paths_call; [apply spec_link|split; [by eapply located_node|done]|done..|].
  intros rv s3 w3 (Hs3 & Hneg & Hpos). apply wp_bind, wp_status; [intros; by apply Hneg|]. intros err He1 He2.
  apply wp_bind. destruct (decide (ret rv < 0)) as [Hlt|Hge].
  - rewrite decide_False by (specialize (He2 Hlt); lia). apply wp_ret. destruct Hneg as [_ Ht]; [done|].
    eapply wp_say_fine; [|reflexivity]. split; rewrite ?Ht; [by eapply st_same| |apply Hi2]. eapply mirror_mono; [done|lia].
  - rewrite decide_True by (apply He1; lia). destruct Hpos as [[_ HN] Hc]; [lia|].
    eapply wp_add_to_flist; [by eapply st_same|lia|]. intros s4 Hs4. eapply wp_say_fine; [|reflexivity].
    split; [done| |by rewrite Hc; apply Hi2]. rewrite HN. by apply mirror_add.
Qed.

Lemma kind_not_dir ft : selects FT_NOTDIR ft = true → kind_of ft ≠ KDir ∧ ft ≠ FT_DIR.
Proof. by destruct ft. Qed.

(** The end of the operations that remove a file. *)
Lemma wp_remove L n call ft slot e a v opno (l : Z → text) s w :
  inv L n s w → n < INT_MAX → L ft !! slot = Some e → located rand L ft e a →
  call_spec (stuck := stuck) stop False (λ N, N !! a = Some (kind_of ft)) call a
    (λ _ N N', (ft = FT_DIR → ∀ x, N !! (a ++ [x]) = None) ∧ N' = delete a N) →
  twp (
    rval ← path_ret call (Some (join a));
    err ← status rval;
    _ ← (if decide (err = 0) then del_from_flist ft slot else mret ());
    say cfg v opno (l err)) s w (fine n).
Proof using Hcfg.
  intros Hi Hn He Hl Hspec. pose proof (inv_mirror _ _ _ _ Hi) as Hm. apply wp_bind.
  eapply twp_path_ret; [done|by eapply located_node|eapply located_named; [done|lia|done]|].
  intros rv s3 w3 (Hs3 & Hneg & Hpos). apply wp_bind, wp_status; [intros; by apply Hneg|]. intros err He1 He2.
  apply wp_bind. destruct (decide (ret rv < 0)) as [Hlt|Hge].
  - rewrite decide_False by (specialize (He2 Hlt); lia). apply wp_ret. destruct Hneg as [_ Ht]; [done|].
    eapply wp_say_fine; [by apply (inv_same L n s s3 w w3)|lia].
  - rewrite decide_True by (apply He1; lia). destruct Hpos as [[Hempty HN] Hc]; [lia|].
    eapply wp_del_from_flist; [eapply st_same; [done|apply Hi]|done|]. intros s4 Hs4.
    eapply (wp_say_fine _ n); [|lia]. split; [done| |by rewrite Hc; apply Hi]. rewrite HN. by eapply mirror_remove.
Qed.

Lemma wp_unlink_f L n opno r s w : inv L n s w → n < INT_MAX → 0 ≤ r ≤ INT_MAX → twp (unlink_f cfg opno r) s w (fine n).
Proof using Hcfg.
  intros Hi Hn Hr. unfold unlink_f. apply wp_bind. eapply wp_get_fname; [done|lia|done| |].
  { intros v s1 Hi1 _. eapply wp_say_fine; [done|lia]. }
  intros nm ft slot e a v s1 Hi1 Hsel He Hl ->. cbv beta iota. apply kind_not_dir in Hsel as [Hk Hft].
  eapply (wp_remove L n _ ft slot e a _ _ (λ err, _)); [done..|]. intros p s2 w2 HN Hp.
  eapply wp_mono; [by apply (spec_unlink stop a (kind_of ft) Hk)|]. cbv beta. intros rv s3 w3 (Hs & Hneg & Hpos).
  split_and!; [done|done|]. intros Hge. destruct (Hpos Hge). done.
Qed.

Lemma wp_rmdir_f L n opno r s w : inv L n s w → n < INT_MAX → 0 ≤ r ≤ INT_MAX → twp (rmdir_f cfg opno r) s w (fine n).
Proof using Hcfg.
  intros Hi Hn Hr. unfold rmdir_f. apply wp_bind. eapply wp_get_fname; [done|lia|done| |].
  { intros v s1 Hi1 _. eapply wp_say_fine; [done|lia]. }
  intros nm ft slot e a v s1 Hi1 Hsel He Hl ->. cbv beta iota. assert (ft = FT_DIR) as -> by (by destruct ft).
  eapply (wp_remove L n _ FT_DIR slot e a _ _ (λ err, _)); [done..|]. intros p s2 w2 HN Hp.
  eapply wp_mono; [by apply (spec_rmdir stop a)|]. cbv beta. intros rv s3 w3 (Hs & Hneg & Hpos).
  split_and!; [done|done|]. intros Hge. destruct (Hpos Hge) as [[? ?] ?]. done.
Qed.

(** The lists after a rename. *)
Lemma wp_relist L n m N ft slot e parid s w (Q : () → fss → W → Prop) :
  mirror rand L n N → st L m s → L ft !! slot = Some e →
  (∀ s', st (renamed L ft slot (fent_id e) n parid) m s' → Q () s' w) →
  twp (
    _ ← (if decide (ft = FT_DIR) then old ← entry ft slot; fix_parent (fent_id old) n else mret ());
    _ ← del_from_flist ft slot;
    add_to_flist ft n parid) s w Q.
Proof.
  intros Hm Hs He Hq. pose proof (mir_seq _ _ _ _ Hm) as Hn. apply wp_bind. set (L1 := λ ft', fix_entry (fent_id e) n <$> L ft').
  assert (∀ s1, st L1 m s1 → twp (_ ← del_from_flist ft slot; add_to_flist ft n parid) s1 w Q) as Hgo.
  { intros s1 Hs1. apply wp_bind.
    eapply wp_del_from_flist; [done|unfold L1; by rewrite list_lookup_fmap, He|]. intros s2 Hs2.
    eapply wp_add_to_flist; [done|done|]. intros s3 Hs3. apply Hq, Hs3. }
  destruct (decide (ft = FT_DIR)) as [->|Hft].
  - apply wp_bind. eapply wp_entry; [done|done|]. eapply wp_fix_parent; [done|]. apply Hgo.
  - apply wp_ret, Hgo. eapply st_ext; [|done]. intros ft'. symmetry. eapply fix_nothing; [done| |done].
    by apply list_elem_of_lookup_2 in He.
Qed.

Lemma wp_rename_f L n opno r s w : inv L n s w → n < INT_MAX → 0 ≤ r ≤ INT_MAX → twp (rename_f cfg opno r) s w (fine n).
Proof using Hcfg.
  intros Hi Hn Hr. unfold rename_f. apply wp_bind. eapply wp_get_fname; [done|lia|done| |].
  { intros v s1 Hi1 _. eapply wp_say_fine; [done|lia]. }
  intros nm ft slot e a v1 s1 Hi1 Hsel He Hl ->. cbv beta iota. apply wp_bind. eapply wp_rnd; [done|]. intros x w1 Hx Hi2.
  eapply wp_new_name; [done|done|done|]. intros fep parid v v' q s2 Hs2 Hq. cbv beta iota zeta.
  rewrite decide_False by done. pose proof (inv_mirror _ _ _ _ Hi2) as Hm. pose proof (mir_seq _ _ _ _ Hm).
  destruct (located_named False _ _ _ _ _ _ _ Hi2 ltac:(lia) Hl) as [[Ha Hfa]|[[] _]].
  destruct (new_named L n w1 q parid ft) as [[[Hb Hfb]|[[] _]] Hnew]; [done|apply Hi2|done|done|].
  apply wp_bind. eapply twp_paths_call; [apply (spec_rename stop a (q ++ [name ft n]))|done..|].
  intros rv s3 w3 (Hs3 & Hneg & Hpos). apply wp_bind, wp_status; [intros; by apply Hneg|]. intros err He1 He2.
  apply wp_bind. destruct (decide (ret rv < 0)) as [Hlt|Hge].
  - rewrite decide_False by (specialize (He2 Hlt); lia). apply wp_ret. destruct Hneg as [_ Ht]; [done|].
    eapply wp_say_fine; [|reflexivity]. split; rewrite ?Ht; [by eapply st_same| |apply Hi2]. eapply mirror_mono; [done|lia].
  - rewrite decide_True by (apply He1; lia). destruct Hpos as [[Hab HN] Hc]; [lia|].
    eapply wp_relist; [done|by eapply st_same|done|]. intros s4 Hs4. eapply wp_say_fine; [|reflexivity].
    split; [done| |by rewrite Hc; apply Hi2]. by eapply mirror_renamed.
Qed.

(** ** Numbers *)

Lemma wp_rnd64 L n s w (Q : Z → fss → W → Prop) :
  inv L n s w → (∀ r w', 0 ≤ r ≤ LONG_MAX → inv L n s w' → Q r s w') → twp rnd64 s w Q.
Proof.
  intros Hi Hq. unfold rnd64. apply wp_bind. eapply wp_rnd; [done|]. intros a w1 Ha Hi1.
  apply wp_bind. eapply wp_rnd; [done|]. intros b w2 Hb Hi2. rewrite Z.shiftl_mul_pow2 by lia. change (2 ^ 32) with 4294967296.
  eapply wp_lift; [apply i64_ok; clia|]. apply Hq; [clia|done].
Qed.

Lemma off_in_ok lr size : 0 ≤ lr ≤ LONG_MAX → 0 ≤ size ≤ LONG_MAX - 1048576 → ∃ x, off_in lr size = Done x ∧ 0 ≤ x ≤ LONG_MAX.
Proof.
  intros Hlr Hs. unfold off_in. rewrite i64_ok by clia. cbn [mbind outcome_bind]. unfold umod, u64.
  rewrite !(Z.mod_small _ 18446744073709551616) by clia. rewrite decide_False by (unfold MAXFSIZE; clia). cbn [mbind outcome_bind].
  set (m := (size + 1024 * 1024) `min` MAXFSIZE). assert (0 < m ≤ LONG_MAX) by (unfold m, MAXFSIZE; clia).
  pose proof (Z.mod_pos_bound lr m ltac:(lia)). eexists. split; [done|]. rewrite wrap64_small by clia. lia.
Qed.

Lemma rem64_ok x m : 0 ≤ x → 0 < m → ∃ y, rem64 x m = Done y ∧ 0 ≤ y ≤ x ∧ y < m.
Proof.
  intros Hx Hm. unfold rem64. rewrite decide_False by lia. eexists. split; [done|]. rewrite Z.rem_mod_nonneg by lia.
  pose proof (Z.mod_pos_bound x m Hm). pose proof (Z.mod_le x m Hx Hm). lia.
Qed.

Lemma wp_rnd_len L n s w (Q : Z → fss → W → Prop) :
  inv L n s w → (∀ r w', 0 ≤ r → inv L n s w' → Q r s w') → twp (rnd_len cfg) s w Q.
Proof using Hcfg.
  intros Hi Hq. destruct (wf_pagesize _ Hcfg) as [Hp1 Hp2]. unfold rnd_len. apply wp_bind. eapply wp_rnd; [done|]. intros x w1 Hx Hi1.
  apply wp_bind. eapply wp_lift; [apply i32_ok; clia|]. apply wp_bind.
  destruct (rem64_ok x (pagesize cfg * 32)) as (y & Hy & ? & ?); [lia|lia|]. eapply wp_lift; [done|]. apply wp_ret, Hq; [lia|done].
Qed.

Lemma direct_len_ok len blksize : 0 < blksize ≤ INT_MAX → ∃ x, direct_len len blksize = Done x.
Proof.
  intros Hb. unfold direct_len, umod. rewrite (wrap32_small blksize) by clia. unfold u64.
  rewrite (Z.mod_small blksize) by clia. rewrite decide_False by lia. cbn. eauto.
Qed.

(** The mask with 31 bits is where the subtraction overflows. *)
Lemma mask_uid_ok u x : 0 ≤ x → (∃ y, mask_uid cfg u (Z.rem x 32) = Done y) ∨ mask_uid cfg u (Z.rem x 32) = Fault ∧ wraps cfg = false.
Proof.
  intros Hx. unfold mask_uid, shl32.
  pose proof (Z.rem_bound_pos x 32 Hx ltac:(lia)). rewrite decide_True by lia. cbn [mbind outcome_bind].
  destruct (wraps cfg); cbn [mbind outcome_bind]; [eauto|]. unfold i32. case_match; cbn; eauto.
Qed.

(** ** Operations on names *)

(** The name of a file, or of the current directory. *)
Definition nameable (L : files) (a : path) (p : text) : Prop :=
  (∃ ft e, located rand L ft e a ∧ p = join a) ∨ p = chars ".".

Lemma nameable_named L n s w a p : inv L n s w → n ≤ INT_MAX → nameable L a p → named True (tree_of w) a p.
Proof using Hcfg. intros Hi Hn [(ft & e & Hl & ->)| ->]; [by eapply located_named|apply dot_named]. Qed.

Lemma wp_name_or_dot L n s w which r (Q : pathname * bool → fss → W → Prop) :
  inv L n s w → n < INT_MAX → 0 ≤ r ≤ INT_MAX →
  (∀ p a v s', inv L n s' w → nameable L a p → Q (Some p, v) s' w) → twp (name_or_dot cfg which r) s w Q.
Proof using Hcfg.
  intros Hi Hn Hr Hk. unfold name_or_dot. apply wp_bind. eapply wp_get_fname; [done|lia|done| |].
  - intros v s1 Hi1 _. apply wp_ret, (Hk _ []); [done|by right].
  - intros nm ft slot e a v s1 Hi1 _ _ Hl ->. apply wp_ret. eapply Hk; [done|]. left. eauto.
Qed.

(** The name of the file, or a message. *)
Lemma wp_name_or_say L n s w which r opno l (k : pathname → bool → M W ()) :
  inv L n s w → n < INT_MAX → 0 ≤ r ≤ INT_MAX →
  (∀ p a v s', inv L n s' w → nameable L a p → twp (k (Some p) v) s' w (fine n)) →
  twp ('(o, v) ← get_fname cfg which r true;
       match o with None => say cfg v opno l | Some (f, _, _) => k f v end) s w (fine n).
Proof using Hcfg.
  intros Hi Hn Hr Hk. apply wp_bind. eapply wp_get_fname; [done|lia|done| |].
  - intros v s1 Hi1 _. eapply wp_say_fine; [done|lia].
  - intros nm ft slot e a v s1 Hi1 _ _ Hl ->. eapply Hk; [done|]. left. eauto.
Qed.

(** A call, its status and a line. *)
Lemma wp_call_say L n R call a p v opno (l : Z → text) s w :
  inv L n s w → n < INT_MAX → nameable L a p → call_spec (stuck := stuck) stop True (λ _, True) call a (leaves R) →
  twp (rval ← path_ret call (Some p); e ← status rval; say cfg v opno (l e)) s w (fine n).
Proof using Hcfg.
  intros Hi Hn Hp Hc. apply wp_bind. eapply wp_path_ret_neutral; [done|done|eapply nameable_named; [done|lia|done]|].
  intros rval s1 w1 Hi1 He. apply wp_bind, wp_status; [done|]. intros e _ _. eapply wp_say_fine; [done|lia].
Qed.

Lemma wp_stat_f L n opno r s w : inv L n s w → n < INT_MAX → 0 ≤ r ≤ INT_MAX → twp (stat_f cfg opno r) s w (fine n).
Proof using Hcfg.
  intros Hi Hn Hr. eapply wp_name_or_say; [done..|]. intros p a v s1 Hi1 Hp.
  eapply (wp_call_say L n (λ _, True) _ a p _ _ (λ e, _)); [done..|]. by apply (spec_neutral stop _ CLstat).
Qed.

Lemma wp_readlink_f L n opno r s w : inv L n s w → n < INT_MAX → 0 ≤ r ≤ INT_MAX → twp (readlink_f cfg opno r) s w (fine n).
Proof using Hcfg.
  intros Hi Hn Hr. eapply wp_name_or_say; [done..|]. intros p a v s1 Hi1 Hp.
  eapply (wp_call_say L n (λ _, True) _ a p _ _ (λ e, _)); [done..|]. by apply spec_readlink.
Qed.

Lemma wp_chown_f L n opno r s w :
  (wraps cfg = false → stuck) → inv L n s w → n < INT_MAX → 0 ≤ r ≤ INT_MAX → twp (chown_f cfg opno r) s w (fine n).
Proof using Hcfg.
  intros Hst Hi Hn Hr. unfold chown_f. apply wp_bind. eapply wp_name_or_dot; [done..|]. intros p a v s1 Hi1 Hp. cbv beta iota.
  apply wp_bind. eapply wp_rnd; [done|]. intros u w1 _ Hi2.
  apply wp_bind. eapply wp_rnd; [done|]. intros x w2 Hx Hi3. apply wp_bind.
  destruct (mask_uid_ok u x) as [[y Hy]|[Hy Hw]]; [lia| |unfold wp, lift; rewrite Hy; auto]. eapply wp_lift; [done|].
  eapply (wp_call_say L n (λ _, True) _ a p _ _ (λ e, _)); [done..|]. by apply (spec_neutral stop _ (λ p, CLchown p y (-1))).
Qed.

Lemma wp_getdents_f L n opno r s w : inv L n s w → n < INT_MAX → 0 ≤ r ≤ INT_MAX → twp (getdents_f cfg opno r) s w (fine n).
Proof using Hcfg.
  intros Hi Hn Hr. unfold getdents_f. apply wp_bind. eapply wp_name_or_dot; [done..|]. intros p a v s1 Hi1 Hp. cbv beta iota.
  apply wp_bind. eapply (wp_path_ret_neutral L n (λ _, True)); [done|by apply (spec_neutral stop _ COpendir)|eapply nameable_named; [done|lia|done]|].
  intros dir s2 w2 Hi2 _. destruct (decide _); [eapply wp_say_fine; [done|lia]|].
  apply wp_bind. eapply wp_call; [done|done|]. intros _ s3 w3 _ Hi3 _. apply wp_bind. eapply wp_say; [apply Hi3|]. intros s4 Hs4.
  apply wp_bind. eapply wp_call; [eapply inv_frame; [exact Hi3|done]|done|]. intros _ s5 w5 _ Hi5 _.
  apply wp_ret. eapply inv_fine; [done|lia].
Qed.

Lemma wp_sync_f L n opno r s w : inv L n s w → twp (sync_f cfg opno r) s w (fine n).
Proof.
  intros Hi. unfold sync_f. apply wp_bind. eapply wp_call; [done|done|]. intros _ s1 w1 _ Hi1 _. eapply wp_say_fine; [done|lia].
Qed.

Lemma wp_truncate_f L n opno r s w : inv L n s w → n < INT_MAX → 0 ≤ r ≤ INT_MAX → twp (truncate_f cfg opno r) s w (fine n).
Proof using Hcfg.
  intros Hi Hn Hr. eapply wp_name_or_say; [done..|]. intros p a v s1 Hi1 Hp. cbv beta.
  apply wp_bind. eapply (wp_path_neutral L n (λ r, 0 ≤ st_size r ≤ LONG_MAX - 1048576)).
  { done. }
  { apply (spec_neutral stop _ CStat); [done|]. intros q x [_ Hx] Hge. by apply Hx. }
  { eapply nameable_named; [done|lia|done]. }
  intros stb s2 w2 Hi2 Hsize He. apply wp_bind, wp_status; [done|]. intros e _ He2.
  destruct (decide (0 < e)) as [|Hz]; [eapply wp_say_fine; [done|lia]|].
  assert (0 ≤ ret stb) as Hge by lia. specialize (Hsize Hge). destruct (wf_maxfsize _ Hcfg) as [Hf1 Hf2].
  apply wp_bind. eapply wp_rnd64; [done|]. intros lr w3 Hlr Hi3.
  destruct (off_in_ok lr (st_size stb)) as (x & Hx & Hx1); [lia|lia|]. apply wp_bind. eapply wp_lift; [done|].
  destruct (rem64_ok x (maxfsize cfg)) as (off & Hoff & _); [lia|lia|]. apply wp_bind. eapply wp_lift; [done|].
  eapply (wp_call_say L n (λ _, True) _ a p _ _ (λ e, _)); [done..|]. by apply (spec_neutral stop _ (λ p, CTruncate p off)).
Qed.

(** ** Operations on data *)

Lemma wp_with_file L n which flags op opno r k s w :
  inv L n s w → n < INT_MAX → 0 ≤ r ≤ INT_MAX → flags = O_RDONLY ∨ flags = O_WRONLY →
  (∀ f fd v s' w', inv L n s' w' → twp (k f fd v) s' w' (fine n)) → twp (with_file cfg which flags op opno r k) s w (fine n).
Proof using Hcfg.
  intros Hi Hn Hr Hf Hk. eapply wp_name_or_say; [done..|]. intros p a v s1 Hi1 Hp. cbv beta.
  apply wp_bind. eapply (wp_path_ret_neutral L n (λ _, True)); [done| |eapply nameable_named; [done|lia|done]|].
  { apply (spec_neutral stop _ (λ p, COpen p flags)); [|done]. intros q t t' He. by apply He. }
  intros fd s2 w2 Hi2 He. apply wp_bind, wp_status; [done|]. intros e _ _. destruct (decide _); [eapply wp_say_fine; [done|lia]|].
  by apply Hk.
Qed.

Lemma wp_say_close L n v opno l fd s w : inv L n s w → twp (_ ← say cfg v opno l; close fd) s w (fine n).
Proof.
  intros Hi. apply wp_bind. eapply wp_say; [apply Hi|]. intros s1 Hs1. eapply wp_close; [by eapply inv_frame|lia].
Qed.

Lemma wp_with_stat L n op opno f fd v k s w :
  inv L n s w →
  (∀ stb s' w', inv L n s' w' → 0 ≤ st_size stb ≤ LONG_MAX - 1048576 → 0 < st_blksize stb ≤ INT_MAX → twp (k stb) s' w' (fine n)) →
  twp (with_stat cfg op opno f fd v k) s w (fine n).
Proof.
  intros Hi Hk. unfold with_stat. apply wp_bind. eapply wp_call; [done|done|]. intros stb s1 w1 [_ Hwf] Hi1 _.
  destruct (decide _) as [|Hge]; [apply wp_bind, wp_get; by eapply wp_say_close|]. apply Hk; [done|apply Hwf; lia..].
Qed.

(** A transfer of data, with the line about it. *)
Lemma wp_transfer L n c op opno f fd off len v s w :
  inv L n s w → (∀ t t', effect c t t' → t' = t) →
  twp (rval ← invoke c; e ← status (ret rval); transferred cfg op opno f fd off len e v) s w (fine n).
Proof.
  intros Hi Hc. apply wp_bind. eapply wp_call; [done|done|]. intros rval s1 w1 _ Hi1 He.
  apply wp_bind, wp_status; [done|]. intros e _ _. by eapply wp_say_close.
Qed.

Lemma wp_lseek {A} L n fd off (m : M W A) s w (Q : A → fss → W → Prop) :
  inv L n s w → (∀ s' w', inv L n s' w' → twp m s' w' Q) → twp (_ ← invoke (CLseek fd off); m) s w Q.
Proof. intros Hi Hm. apply wp_bind. eapply wp_call; [done|done|]. intros _ s1 w1 _ Hi1 _. by apply Hm. Qed.

Lemma wp_sync_data L n c v opno (l : Z → text) fd s w :
  inv L n s w → (∀ t t', effect c t t' → t' = t) →
  twp (rval ← invoke c; e ← status (ret rval); _ ← say cfg v opno (l e); close fd) s w (fine n).
Proof.
  intros Hi Hc. apply wp_bind. eapply wp_call; [done|done|]. intros rval s1 w1 _ Hi1 He.
  apply wp_bind, wp_status; [done|]. intros e _ _. by eapply wp_say_close.
Qed.

Lemma wp_fsync_f L n opno r s w : inv L n s w → n < INT_MAX → 0 ≤ r ≤ INT_MAX → twp (fsync_f cfg opno r) s w (fine n).
Proof using Hcfg.
  intros Hi Hn Hr. eapply wp_with_file; [done..|by right|]. intros f fd v s1 w1 Hi1. by eapply (wp_sync_data L n _ _ _ (λ e, _)).
Qed.

Lemma wp_fdatasync_f L n opno r s w : inv L n s w → n < INT_MAX → 0 ≤ r ≤ INT_MAX → twp (fdatasync_f cfg opno r) s w (fine n).
Proof using Hcfg.
  intros Hi Hn Hr. eapply wp_with_file; [done..|by right|]. intros f fd v s1 w1 Hi1. by eapply (wp_sync_data L n _ _ _ (λ e, _)).
Qed.

Lemma wp_read_f L n opno r s w : inv L n s w → n < INT_MAX → 0 ≤ r ≤ INT_MAX → twp (read_f cfg opno r) s w (fine n).
Proof using Hcfg.
  intros Hi Hn Hr. eapply wp_with_file; [done..|by left|]. intros f fd v s1 w1 Hi1. eapply wp_with_stat; [done|].
  intros stb s2 w2 Hi2 Hsize _. destruct (decide _) as [|Hz]; [by eapply wp_say_close|].
  apply wp_bind. eapply wp_rnd64; [done|]. intros lr w3 Hlr Hi3.
  destruct (rem64_ok lr (st_size stb)) as (off & Hoff & _); [lia|lia|]. apply wp_bind. eapply wp_lift; [done|].
  eapply wp_lseek; [done|]. intros s4 w4 Hi4. apply wp_bind. eapply wp_rnd_len; [done|]. intros len w5 _ Hi5. by eapply wp_transfer.
Qed.

Lemma wp_write_f L n opno r s w : inv L n s w → n < INT_MAX → 0 ≤ r ≤ INT_MAX → twp (write_f cfg opno r) s w (fine n).
Proof using Hcfg.
  intros Hi Hn Hr. destruct (wf_maxfsize _ Hcfg) as [Hf1 Hf2]. eapply wp_with_file; [done..|by right|].
  intros f fd v s1 w1 Hi1. eapply wp_with_stat; [done|]. intros stb s2 w2 Hi2 Hsize _.
  apply wp_bind. eapply wp_rnd64; [done|]. intros lr w3 Hlr Hi3.
  destruct (off_in_ok lr (st_size stb)) as (x & Hx & Hx1); [lia|lia|]. apply wp_bind. eapply wp_lift; [done|].
  destruct (rem64_ok x (maxfsize cfg)) as (off & Hoff & _); [lia|lia|]. apply wp_bind. eapply wp_lift; [done|].
  eapply wp_lseek; [done|]. intros s4 w4 Hi4. apply wp_bind. eapply wp_rnd_len; [done|]. intros len w5 _ Hi5.
  apply wp_bind, wp_get. by eapply wp_transfer.
Qed.

Lemma wp_setdirect L n fd s w (Q : bool → fss → W → Prop) :
  inv L n s w → (∀ b s' w', inv L n s' w' → Q b s' w') → twp (setdirect fd) s w Q.
Proof.
  intros Hi Hq. unfold setdirect. apply wp_bind, wp_get. destruct (no_direct s); [by apply wp_ret, Hq|].
  apply wp_bind. eapply wp_call; [done|done|]. intros fl s1 w1 _ Hi1 _. destruct (decide _); [by apply wp_ret, Hq|].
  apply wp_bind. eapply wp_call; [done|done|]. intros rv s2 w2 _ Hi2 _. destruct (decide _); [|by apply wp_ret, Hq].
  apply wp_bind, wp_put, wp_ret, Hq. eapply inv_frame; [done|]. apply (st_frame _ _ s2); [done..|apply Hi2].
Qed.

Lemma wp_memalign L n align len s w (Q : () → fss → W → Prop) :
  inv L n s w → (∀ s' w', inv L n s' w' → Q () s' w') → twp (memalign align len) s w Q.
Proof.
  intros Hi Hq. unfold memalign. apply wp_bind. eapply wp_call; [done|done|]. intros e s1 w1 _ Hi1 _.
  destruct (decide _); [|by apply wp_ret, Hq]. apply wp_exit. split; [done|]. eauto.
Qed.

Lemma wp_dread_f L n opno r s w : inv L n s w → n < INT_MAX → 0 ≤ r ≤ INT_MAX → twp (dread_f cfg opno r) s w (fine n).
Proof using Hcfg.
  intros Hi Hn Hr. eapply wp_with_file; [done..|by left|]. intros f fd v s1 w1 Hi1. apply wp_bind.
  eapply wp_setdirect; [done|]. intros [] s2 w2 Hi2; [|eapply wp_close; [done|lia]].
  eapply wp_with_stat; [done|]. intros stb s3 w3 Hi3 Hsize Hblk. destruct (decide _) as [|Hz]; [by eapply wp_say_close|].
  apply wp_bind. eapply wp_rnd64; [done|]. intros lr w4 Hlr Hi4.
  destruct (rem64_ok lr (st_size stb)) as (off & Hoff & Ho1 & _); [lia|lia|]. apply wp_bind. eapply wp_lift; [done|].
  rewrite wrap32_small by clia. destruct (rem64_ok off (st_blksize stb)) as (x & Hx & _); [lia|lia|].
  apply wp_bind. eapply wp_lift; [done|]. cbv zeta. eapply wp_lseek; [done|]. intros s5 w5 Hi5.
  apply wp_bind. eapply wp_rnd_len; [done|]. intros len w6 _ Hi6. apply wp_bind.
  destruct (direct_len_ok len (st_blksize stb) Hblk) as [len' Hlen]. eapply wp_lift; [done|].
  apply wp_bind. eapply wp_memalign; [done|]. intros s7 w7 Hi7. by eapply wp_transfer.
Qed.

Lemma wp_dwrite_f L n opno r s w : inv L n s w → n < INT_MAX → 0 ≤ r ≤ INT_MAX → twp (dwrite_f cfg opno r) s w (fine n).
Proof using Hcfg.
  intros Hi Hn Hr. destruct (wf_maxfsize _ Hcfg) as [Hf1 Hf2]. eapply wp_with_file; [done..|by right|].
  intros f fd v s1 w1 Hi1. apply wp_bind. eapply wp_setdirect; [done|]. intros [] s2 w2 Hi2; [|eapply wp_close; [done|lia]].
  eapply wp_with_stat; [done|]. intros stb s3 w3 Hi3 Hsize Hblk.
  apply wp_bind. eapply wp_rnd64; [done|]. intros lr w4 Hlr Hi4.
  destruct (off_in_ok lr (st_size stb)) as (off & Hoff & Ho1); [lia|lia|]. apply wp_bind. eapply wp_lift; [done|].
  rewrite wrap32_small by clia. destruct (rem64_ok off (st_blksize stb)) as (x & Hx & Hx1 & _); [lia|lia|].
  apply wp_bind. eapply wp_lift; [done|]. cbv zeta. eapply wp_lseek; [done|]. intros s5 w5 Hi5.
  apply wp_bind. eapply wp_rnd_len; [done|]. intros len w6 _ Hi6. apply wp_bind.
  destruct (direct_len_ok len (st_blksize stb) Hblk) as [len' Hlen]. eapply wp_lift; [done|].
  apply wp_bind. eapply wp_memalign; [done|]. intros s7 w7 Hi7.
  destruct (rem64_ok (off - x) (maxfsize cfg)) as (off' & Hoff' & _); [lia|lia|]. apply wp_bind. eapply wp_lift; [done|].
  eapply wp_lseek; [done|]. intros s8 w8 Hi8. apply wp_bind, wp_get. by eapply wp_transfer.
Qed.
End ops.
