(* ===== verification/FsstressSpec.v ===== *)
(** * What fsstress keeps true

    The lists of fsstress describe the directory tree after any number of operations,
    for every outcome of the system's calls; calls on long names end and reach their
    files; the frequencies of the options decide what is drawn. *)
From stdpp Require Import base strings numbers option list gmap.
From Stdlib Require Import Ascii.
From S2P Require Import Prelude CInt CText Steps Fsstress FsstressTree FsstressMem FsstressPath FsstressLists FsstressMirror FsstressOps.

#[local] Open Scope Z_scope.

(** ** Whole runs *)

Lemma ops_lookup o : ∃ d, ops !! op_num o = Some d ∧ op d = o.
Proof. destruct o; eexists; done. Qed.

Section run.
Context {W : Type} `{PosixTree W} {stuck : Prop} (cfg : settings) (Hcfg : wf_settings cfg).
#[local] Abbreviation twp := (wp stuck (stop cfg)).

Lemma wp_run_op o L n opno r s w :
  (wraps cfg = false → o = OP_CHOWN → stuck) → inv cfg L n s w → n < INT_MAX → 0 ≤ r ≤ INT_MAX → twp (run_op cfg o opno r) s w (fine cfg n).
Proof using All.
  intros Hst Hi Hn Hr. destruct o; cbn [run_op].
  - apply (wp_chown_f cfg Hcfg L); auto.
  - by apply (wp_creat_f cfg Hcfg L).
  - by apply (wp_dread_f cfg Hcfg L).
  - by apply (wp_dwrite_f cfg Hcfg L).
  - by apply (wp_fdatasync_f cfg Hcfg L).
  - by apply (wp_fsync_f cfg Hcfg L).
  - by apply (wp_getdents_f cfg Hcfg L).
  - by apply (wp_link_f cfg Hcfg L).
  - by apply (wp_mkdir_f cfg Hcfg L).
  - by apply (wp_mknod_f cfg Hcfg L).
  - by apply (wp_read_f cfg Hcfg L).
  - by apply (wp_readlink_f cfg Hcfg L).
  - by apply (wp_rename_f cfg Hcfg L).
  - by apply (wp_rmdir_f cfg Hcfg L).
  - by apply (wp_stat_f cfg Hcfg L).
  - by apply (wp_symlink_f cfg Hcfg L).
  - by apply (wp_sync_f cfg L).
  - by apply (wp_truncate_f cfg Hcfg L).
  - by apply (wp_unlink_f cfg Hcfg L).
  - by apply (wp_write_f cfg Hcfg L).
Qed.

Lemma wp_op_loop table size : (wraps cfg = false → OP_CHOWN ∈ table → stuck) → Z.of_nat (length table) = size → 0 < size → ∀ k opno L n s w,
  inv cfg L n s w → n + Z.of_nat k ≤ INT_MAX →
  twp (op_loop cfg k opno table size) s w (λ _ s' w', ∃ L' n', inv cfg L' n' s' w').
Proof using All.
  intros Hst Hlen Hpos. induction k as [|k IH]; intros opno L n s w Hi Hn; cbn [op_loop].
  { apply wp_ret. eauto. }
  apply wp_bind. eapply wp_rnd; [done|]. intros x w1 Hx Hi1. apply wp_bind.
  destruct (rem64_ok x size) as (i & Hrem & Hi0 & Hilt); [lia|lia|]. eapply wp_lift; [done|].
  destruct (lookup_lt_is_Some_2 table (Z.to_nat i)) as [o Ho]; [lia|]. apply wp_bind. eapply wp_lift; [by rewrite Ho|].
  destruct (ops_lookup o) as (d & Hd & Eo). apply wp_bind. eapply wp_lift; [by rewrite Hd|]. rewrite Eo.
  apply wp_bind. eapply wp_rnd; [done|]. intros y w2 Hy Hi2. apply wp_bind.
  eapply wp_mono; [eapply wp_run_op; [|done|lia|done]; intros Hw ->; apply Hst; [done|by eapply list_elem_of_lookup_2]|]. intros _ s3 w3 (L3 & n3 & Hi3 & Hn3). apply wp_bind.
  destruct (decide _).
  - apply wp_bind. eapply wp_call; [done|done|]. intros rv s4 w4 _ Hi4 _. apply wp_ret.
    destruct (bool_decide _); [apply wp_ret; eauto|]. eapply IH; [done|lia].
  - apply wp_ret. eapply IH; [done|lia].
Qed.
End run.

(** ** The table of operations *)

(** Each operation as often as its frequency says. *)
Fixpoint op_table (l : list opdesc) : list opty :=
  match l with [] => [] | d :: l' => replicate (Z.to_nat (freq d)) (op d) ++ op_table l' end.

Fixpoint total_freq (l : list opdesc) : Z := match l with [] => 0 | d :: l' => freq d + total_freq l' end.

Lemma sum_freq_done l : ∀ f g, sum_freq l f = Done g → g = f + total_freq l.
Proof.
  induction l as [|d l IH]; intros f g E; cbn in *; [injection E as <-; lia|].
  destruct (i32 (f + freq d)) eqn:Ei; cbn in E; [|done..]. apply i32_inv in Ei as [-> _]. apply IH in E. lia.
Qed.

Lemma sum_freq_ok l : Forall (λ d, 0 ≤ freq d) l → ∀ f, 0 ≤ f → f + total_freq l ≤ INT_MAX → sum_freq l f = Done (f + total_freq l).
Proof.
  induction 1 as [|d l Hd Hl IH]; intros f Hf Hle; cbn in *; [f_equal; lia|].
  assert (0 ≤ total_freq l) by (clear - Hl; induction Hl; cbn; lia). rewrite i32_ok by clia. cbn. rewrite IH by lia. f_equal. lia.
Qed.

Lemma length_op_table l : total_freq l ≤ Z.of_nat (length (op_table l)) ∧ (Forall (λ d, 0 ≤ freq d) l → total_freq l = Z.of_nat (length (op_table l))).
Proof.
  induction l as [|d l [IH1 IH2]]; cbn; [done|]. rewrite length_app, length_replicate. split; [lia|].
  intros [? ?]%Forall_cons. rewrite IH2 by done. lia.
Qed.

Lemma fill_table_ok l size : ∀ t, Z.of_nat (length t) + Z.of_nat (length (op_table l)) ≤ size → fill_table l size t = Done (t ++ op_table l).
Proof.
  induction l as [|d l IH]; intros t Ht; cbn in *; [by rewrite app_nil_r|]. rewrite length_app, length_replicate in Ht.
  rewrite decide_True by lia. rewrite IH by (rewrite length_app, length_replicate; lia). by rewrite <- app_assoc.
Qed.

Lemma fill_table_done l size : ∀ t t', fill_table l size t = Done t' →
  t' = t ++ op_table l ∧ (Z.of_nat (length t) ≤ size ∨ t = [] → Z.of_nat (length t') ≤ size ∨ t' = []).
Proof.
  induction l as [|d l IH]; intros t t' E; cbn in *; [injection E as <-; by rewrite app_nil_r|].
  destruct (decide _) as [Hd|]; [|done]. apply IH in E as [-> Hle]. rewrite <- app_assoc. split; [done|]. intros Ht.
  rewrite <- app_assoc in Hle. apply Hle. destruct (decide (freq d ≤ 0)).
  - replace (Z.to_nat (freq d)) with 0%nat by lia. cbn. by rewrite app_nil_r.
  - left. rewrite length_app, length_replicate. lia.
Qed.

(** The table is full. *)
Lemma make_freq_table_done l table size :
  make_freq_table l = Done (table, size) → 0 < size → table = op_table l ∧ Z.of_nat (length table) = size.
Proof.
  unfold make_freq_table. destruct (sum_freq l 0) as [f| |] eqn:Es; cbn; [|done..].
  destruct (fill_table l f []) as [t| |] eqn:Ef; cbn; [|done..]. intros [= <- <-] Hf.
  apply sum_freq_done in Es. apply fill_table_done in Ef as [-> Hle]. cbn in *. split; [done|].
  pose proof (proj1 (length_op_table l)). destruct Hle as [|E]; [by right|lia|]. rewrite E in *. cbn in *. lia.
Qed.

Lemma make_freq_table_ok l :
  Forall (λ d, 0 ≤ freq d) l → total_freq l ≤ INT_MAX → make_freq_table l = Done (op_table l, Z.of_nat (length (op_table l))).
Proof.
  intros Hl Hle. unfold make_freq_table. rewrite (sum_freq_ok l Hl 0) by lia. cbn.
  pose proof (proj2 (length_op_table l) Hl). rewrite fill_table_ok by (cbn; lia). cbn. by rewrite H.
Qed.

Lemma count_replicate (o o' : opty) n : length (filter (λ x, x = o) (replicate n o')) = if decide (o' = o) then n else 0%nat.
Proof.
  induction n as [|n IH]; [by destruct (decide _)|]. cbn [replicate]. destruct (decide (o' = o)) as [E|E].
  - rewrite filter_cons_True by done. cbn. by rewrite IH.
  - by rewrite filter_cons_False.
Qed.

Lemma count_op_table l o : NoDup (op <$> l) →
  (∀ d, d ∈ l → op d = o → length (filter (λ x, x = o) (op_table l)) = Z.to_nat (freq d)) ∧
  (o ∉ op <$> l → length (filter (λ x, x = o) (op_table l)) = 0%nat).
Proof.
  induction l as [|d l IH]; intros Hnd; [split; [by intros ? ?%elem_of_nil|done]|]. cbn in Hnd.
  apply NoDup_cons in Hnd as [Hni Hnd]. destruct (IH Hnd) as [IH1 IH2]. cbn [op_table]. rewrite filter_app, length_app, count_replicate.
  split.
  - intros d' [->|Hd']%elem_of_cons Ho.
    + rewrite decide_True by done. rewrite IH2; [lia|]. by rewrite <- Ho.
    + rewrite decide_False; [by apply IH1|]. intros E. apply Hni. rewrite E, <- Ho. by apply list_elem_of_fmap_2.
  - cbn. intros [H1 H2]%not_elem_of_cons. rewrite decide_False by done. by apply IH2.
Qed.

Lemma set_op_freq_ok n d l1 l2 :
  op_name d ∉ op_name <$> l1 → set_op_freq (op_name d) n (l1 ++ d :: l2) = Some (l1 ++ set_freq n d :: l2).
Proof.
  induction l1 as [|d1 l1 IH]; cbn; [by rewrite decide_True|]. intros [Hne Hni]%not_elem_of_cons.
  rewrite decide_False by done. by rewrite IH.
Qed.

Lemma process_freq_ok n d l1 l2 :
  is_i32 n → "="%char ∉ op_name d → op_name d ∉ op_name <$> l1 →
  process_freq (op_name d ++ "="%char :: print_d n) (l1 ++ d :: l2) = Some (l1 ++ set_freq n d :: l2).
Proof.
  intros Hn Heq Hni. unfold process_freq. rewrite index_of_first by done. cbn. rewrite take_app_length.
  replace (drop (S (length (op_name d))) (op_name d ++ "="%char :: print_d n)) with (print_d n ++ []).
  - rewrite atoi_print_d by done. by apply set_op_freq_ok.
  - rewrite app_nil_r, drop_app_ge by lia. by replace (S (length (op_name d)) - length (op_name d))%nat with 1%nat by lia.
Qed.

Lemma total_freq_app l1 l2 : total_freq (l1 ++ l2) = total_freq l1 + total_freq l2.
Proof. induction l1 as [|d l1 IH]; cbn; lia. Qed.

(** The option -f NAME=N: the table that make_freq_table() builds has the operation N
    times and the other operations as often as before. *)
Theorem freq_option l d n :
  NoDup (op <$> l) → NoDup (op_name <$> l) → Forall (λ d, 0 ≤ freq d) l → d ∈ l → "="%char ∉ op_name d →
  0 ≤ n → n + total_freq l ≤ INT_MAX →
  ∃ l' table, process_freq (op_name d ++ "="%char :: print_d n) l = Some l' ∧
    make_freq_table l' = Done (table, Z.of_nat (length table)) ∧
    length (filter (λ o, o = op d) table) = Z.to_nat n ∧
    ∀ d', d' ∈ l → op d' ≠ op d → length (filter (λ o, o = op d') table) = Z.to_nat (freq d').
Proof.
  intros Hop Hnm Hf Hd Heq Hn Hle. apply list_elem_of_split in Hd as (l1 & l2 & ->).
  assert (0 ≤ total_freq (l1 ++ d :: l2)) as Hpos.
  { rewrite (proj2 (length_op_table _) Hf). lia. }
  rewrite total_freq_app in Hle, Hpos. cbn in Hle, Hpos. apply Forall_app in Hf as [Hf1 [Hfd Hf2]%Forall_cons].
  assert (op <$> l1 ++ set_freq n d :: l2 = op <$> l1 ++ d :: l2) as Eop by (by rewrite !fmap_app).
  exists (l1 ++ set_freq n d :: l2), (op_table (l1 ++ set_freq n d :: l2)). split_and!.
  - apply process_freq_ok; [clia|done|]. rewrite fmap_app in Hnm. apply NoDup_app in Hnm as (_ & Hdis & _).
    intros Hin. apply (Hdis _ Hin). cbn. apply list_elem_of_here.
  - apply make_freq_table_ok; [by apply Forall_app_2, Forall_cons_2|]. rewrite total_freq_app. cbn. lia.
  - rewrite <- Eop in Hop. apply (proj1 (count_op_table _ (op d) Hop) (set_freq n d)); [set_solver|done].
  - rewrite <- Eop in Hop. intros d' Hd' Hne. apply (proj1 (count_op_table _ (op d') Hop)); [|done].
    apply elem_of_app in Hd' as [?|[->|?]%elem_of_cons]; [set_solver|done|set_solver].
Qed.

Lemma freq_option_witness :
  ∃ l' table, process_freq (chars "rename=10") ops = Some l' ∧ make_freq_table l' = Done (table, Z.of_nat (length table)) ∧
    length (filter (λ o, o = OP_RENAME) table) = 10%nat ∧
    ∀ d', d' ∈ ops → op d' ≠ OP_RENAME → length (filter (λ o, o = op d') table) = Z.to_nat (freq d').
Proof.
  apply (freq_option ops (OpDesc OP_RENAME (chars "rename") 2 true) 10).
  - by_decide.
  - by_decide.
  - by_decide.
  - by_decide.
  - by_decide.
  - lia.
  - by vm_compute.
Defined.

(** A negative frequency together with a positive one makes make_freq_table() write
    past the end of the table it has allocated. *)
Theorem freq_negative l d d' :
  d ∈ l → freq d < 0 → d' ∈ l → 0 < freq d' → make_freq_table l = Fault.
Proof.
  intros Hd Hneg Hd' Hpos. unfold make_freq_table. destruct (sum_freq l 0) as [f| |] eqn:Es; cbn; [|done|].
  2:{ exfalso. clear - Es. revert Es. generalize 0. induction l as [|x l IH]; intros z; cbn; [done|].
      unfold i32. destruct (decide _); cbn; [apply IH|done]. }
  apply sum_freq_done in Es. destruct (fill_table l f []) as [t| |] eqn:Ef; cbn; [|done|].
  2:{ exfalso. clear - Ef. revert Ef. generalize (@nil opty). induction l as [|x l IH]; intros z; cbn; [done|].
      destruct (decide _); cbn; [apply IH|done]. }
  exfalso. apply fill_table_done in Ef as [-> Hle]. cbn in Hle.
  assert (∀ x, x ∈ l → freq x < 0 → total_freq l < Z.of_nat (length (op_table l))) as Hlt.
  { clear. induction l as [|y l IH]; intros x Hx Hn; [by apply elem_of_nil in Hx|]. cbn. rewrite length_app, length_replicate.
    pose proof (proj1 (length_op_table l)). apply elem_of_cons in Hx as [->|Hx]; [lia|]. specialize (IH x Hx Hn). lia. }
  specialize (Hlt d Hd Hneg). destruct Hle as [|E]; [by right|lia|].
  assert (op d' ∈ op_table l) as Hin; [|by rewrite E in Hin; apply elem_of_nil in Hin].
  clear - Hd' Hpos. induction l as [|y l IH]; [by apply elem_of_nil in Hd'|]. cbn. apply elem_of_app.
  apply elem_of_cons in Hd' as [->|Hd']; [left|by right; apply IH]. apply elem_of_replicate. split; [done|lia].
Qed.

Lemma freq_negative_witness :
  ∃ l, process_freq (chars "creat=-3") ops = Some l ∧ make_freq_table l = Fault.
Proof.
  eexists. split; [vm_compute; reflexivity|].
  apply (freq_negative _ (OpDesc OP_CREAT (chars "creat") (-3) true) (OpDesc OP_CHOWN (chars "chown") 3 true)); by_decide.
Defined.

(** A table without operations: the first operation divides by zero. *)
Lemma no_operations {W} `{Kernel W} cfg k opno s w : op_loop cfg (S k) opno [] 0 s w = Fault.
Proof. cbn. unfold mbind, prog_bind, rnd. by destruct (random w). Qed.

(** ** The lists and the tree *)

(** C11: On every system whose calls have the effect POSIX says or fail without one, where
    chdir("..") succeeds below the top directory, and whatever random() gives, a process
    of fsstress runs its operations, and the lists it keeps describe the directory tree:
    every entry is a file of its kind at the path its name stands for, and every file of
    the tree has its entry; the process is back in its directory.  It can stop at a fault
    only where an int subtraction that overflows is undefined and chown is among the
    operations, whose mask of 31 bits is such a subtraction. *)
Theorem fsstress_mirrors {W} `{PosixTree W} cfg l table size operations w :
  wf_settings cfg → make_freq_table l = Done (table, size) → 0 < size → Z.of_nat operations ≤ INT_MAX →
  tree_of w = Tree ∅ [] →
  match op_loop cfg operations 0 table size fss_start w with
  | Done (f, s', w') =>
      (f = Goes () ∨ f = Exits 1) ∧ ∃ L n, st L n s' ∧ mirror (namerand cfg) L n (nodes (tree_of w')) ∧ cwd (tree_of w') = []
  | Fault => wraps cfg = false ∧ OP_CHOWN ∈ table
  | Timeout => False
  end.
Proof.
  intros Hcfg Htab Hsize Hn Hw. destruct (make_freq_table_done l table size Htab Hsize) as [_ Hlen].
  assert (inv cfg (λ _, []) 0 fss_start w) as Hi by (split; [apply st_start|rewrite Hw; apply mirror_empty|by rewrite Hw]).
  pose proof (wp_op_loop cfg Hcfg table size (stuck := wraps cfg = false ∧ OP_CHOWN ∈ table) ltac:(done) Hlen Hsize operations 0 _ 0 _ w Hi Hn) as Hrun.
  unfold wp in Hrun. destruct (op_loop _ _ _ _ _ _ _) as [[[[[]|c] s'] w']| |]; [| |done..].
  - destruct Hrun as (L & n & []). split; [by left|eauto].
  - destruct Hrun as (-> & L & n & []). split; [by right|eauto].
Qed.

(** A run on the tree in memory, where names of eight characters are too long. *)
Definition plain_settings : settings := Settings 0 false [] 0 0 1099511627775 4096 0 true.
Definition empty_mem : mem := Mem (Tree ∅ []) 5 8.
Definition deep_ops : list opdesc :=
  foldl (λ l arg, default l (process_freq (chars arg) l)) ops ["mkdir=9"; "rename=9"; "write=0"; "dwrite=0"]%string.

Lemma plain_settings_wf : wf_settings plain_settings.
Proof. split; cbn; clia || done. Qed.

Lemma fsstress_mirrors_witness :
  ∃ table, make_freq_table deep_ops = Done (table, 45) ∧
  ∃ f s' w', op_loop plain_settings 60 0 table 45 fss_start empty_mem = Done (f, s', w') ∧ (f = Goes () ∨ f = Exits 1) ∧
    ∃ L n, st L n s' ∧ mirror 0 L n (nodes (tree_of w')) ∧ cwd (tree_of w') = [].
Proof.
  exists (op_table deep_ops). assert (make_freq_table deep_ops = Done (op_table deep_ops, 45)) as E by (vm_compute; reflexivity).
  split; [exact E|].
  pose proof (fsstress_mirrors plain_settings deep_ops (op_table deep_ops) 45 60 empty_mem plain_settings_wf E ltac:(lia) ltac:(clia) eq_refl) as Hrun.
  destruct (op_loop _ _ _ _ _ _ _) as [[[f s'] w']| |]; [eauto|by destruct Hrun|done].
Defined.

(** ** Long names *)

Section finish.
Context {W : Type} `{Kernel W} (Hempty : ∀ w, ret (sys (CChdir []) w).1 < 0).
#[local] Abbreviation finishes m := (∀ s w, wp False (λ _ _ _, False) m s w (λ _ _ _, True)).

Lemma finishes_done {A} (m : M W A) s w : finishes m → ∃ r s' w', m s w = Done (Goes r, s', w').
Proof. intros Hm. specialize (Hm s w). unfold wp in Hm. destruct (m s w) as [[[[a|c] s'] w']| |]; eauto; done. Qed.

Lemma invoke_finishes {A} c (k : reply → M W A) : (∀ r, finishes (k r)) → finishes (r ← invoke c; k r).
Proof. intros Hk s w. apply wp_bind. unfold wp at 1, invoke. destruct (sys c w) as [r w']. apply Hk. Qed.

Lemma within_finishes buf rval m : (buf ≠ [] → finishes m) → finishes (within buf rval m).
Proof using Hempty.
  intros Hm s w. destruct (decide (buf = [])) as [->|Hne].
  - unfold within. apply wp_bind. unfold wp at 1, invoke. specialize (Hempty w). destruct (sys _ w) as [r w']. cbn in Hempty.
    by rewrite decide_False by lia.
  - unfold within. apply invoke_finishes. intros r s1 w1. destruct (decide _); [|done]. apply wp_bind.
    eapply wp_mono; [by apply Hm|]. intros rv s2 w2 _. apply invoke_finishes. done.
Qed.

Lemma path_loop_finishes c : ∀ fuel p, fits p → (length p < fuel)%nat → finishes (path_loop fuel (λ p, invoke (c p)) (Some p)).
Proof using Hempty.
  induction fuel as [|fuel IH]; intros p Hp Hfuel; [lia|]. intros s w. cbn [path_loop]. apply wp_bind. eapply wp_lift; [done|].
  apply invoke_finishes. intros r s1 w1. apply wp_bind, wp_get. destruct (decide _); [done|]. apply wp_bind.
  destruct (index_of "/" p) as [i|] eqn:Ei.
  - destruct (separate_some p i Ei Hp) as (Hsep & _ & _ & Hf & Hl). eapply wp_lift; [done|].
    apply within_finishes. intros _. apply IH; [done|lia].
  - eapply wp_lift; [by apply separate_none|]. by apply within_finishes.
Qed.

(** What is cut off a name that goes down. *)
Lemma first_part p i :
  fits p → index_of "/" p = Some i →
  separate_pathname (Some p) = Done (take i p, Some (drop (S i) p)) ∧ fits (drop (S i) p) ∧
  (length (drop (S i) p) < length p)%nat ∧ take i p ≠ [] ∧ take i p ≠ dotdot.
Proof. intros Hf Hi. destruct (separate_some p i Hi Hf) as (? & _ & (? & _ & ? & _) & ? & ?). done. Qed.

Lemma paths_loop_finishes c : ∀ fuel p1 p2 n, shape p1 p2 n → (n < fuel)%nat → finishes (paths_loop fuel c (Some p1) (Some p2)).
Proof using Hempty.
  induction fuel as [|fuel IH]; intros p1 p2 n Hshape Hfuel; [lia|]. intros s w. cbn [paths_loop].
  do 2 (apply wp_bind; eapply wp_lift; [done|]). apply invoke_finishes. intros r s1 w1. apply wp_bind, wp_get.
  destruct (decide _); [done|]. cbv zeta.
  destruct Hshape as [p1 p2 F1 F2|p1 p2 F1|p1 p2 F2].
  - destruct (index_of "/" p1) as [i|] eqn:E1, (index_of "/" p2) as [j|] eqn:E2;
      try (destruct (first_part _ _ F1 E1) as (S1 & G1 & L1 & N1 & U1));
      try (destruct (first_part _ _ F2 E2) as (S2 & G2 & L2 & N2 & U2));
      apply wp_bind; (eapply wp_lift; [first [done|by apply separate_none]|]);
      apply wp_bind; (eapply wp_lift; [first [done|by apply separate_none]|]); cbv beta iota; unfold down1;
      repeat case_decide; try done; apply within_finishes; intros Hne; try done;
      eapply IH; first [by apply shape_both|by apply shape_first|by apply shape_second|lia].
  - destruct (index_of "/" p1) as [i|] eqn:E1;
      try (destruct (first_part _ _ F1 E1) as (S1 & G1 & L1 & N1 & U1));
      apply wp_bind; (eapply wp_lift; [first [done|by apply separate_none]|]);
      apply wp_bind; (eapply wp_lift; [apply separate_up|]); cbv beta iota; unfold down1;
      repeat case_decide; try done; apply within_finishes; intros Hne; try done;
      eapply IH; first [by apply shape_first|lia].
  - destruct (index_of "/" p2) as [i|] eqn:E2;
      try (destruct (first_part _ _ F2 E2) as (S2 & G2 & L2 & N2 & U2));
      apply wp_bind; (eapply wp_lift; [apply separate_up|]);
      apply wp_bind; (eapply wp_lift; [first [done|by apply separate_none]|]); cbv beta iota; unfold down1;
      repeat case_decide; try done; apply within_finishes; intros Hne; try done;
      eapply IH; first [by apply shape_second|lia].
Qed.
End finish.

(** C12: The calls on names of files of fsstress end on every system where the empty name is
    not a directory, whatever else the system answers: each step goes down one of the two
    names, also when the other one grows by a leading [../]. *)
Theorem long_names_end {W} `{Kernel W} c c' p1 p2 s w :
  (∀ w, ret (sys (CChdir []) w).1 < 0) → fits p1 → fits p2 →
  (∃ r s' w', path_call (λ p, invoke (c p)) (Some p1) s w = Done (Goes r, s', w')) ∧
  (∃ r s' w', paths_call c' (Some p1) (Some p2) s w = Done (Goes r, s', w')).
Proof.
  intros Hempty F1 F2. split; apply finishes_done; intros s1 w1.
  - apply path_loop_finishes; [done|done|cbn; lia].
  - apply wp_bind. eapply wp_mono; [eapply paths_loop_finishes; [done|by apply shape_both|cbn; lia]|done].
Qed.

(** Two names of three components that are too long for the tree in memory. *)
Definition deep_name : text := chars "d0/d1/d2/f3".
Definition deep_target : text := chars "d4/d5/d6/f7".

Lemma long_names_end_witness :
  (∃ r s' w', unlink_path (Some deep_name) fss_start empty_mem = Done (Goes r, s', w')) ∧
  (∃ r s' w', rename_path (Some deep_name) (Some deep_target) fss_start empty_mem = Done (Goes r, s', w')).
Proof.
  destruct (long_names_end CUnlink CRename deep_name deep_target fss_start empty_mem) as [(r & s' & w' & E1) E2].
  - intros w. cbn. by destruct (cwd (mem_tree w)).
  - by_decide.
  - by_decide.
  - split; [|exact E2]. exists (ret r), s', w'. unfold unlink_path, path_ret, mbind, prog_bind. by rewrite E1.
Defined.

(** A system that only minds the length of names. *)
Class NameLimit (W : Type) `{PosixTree W} := {
  name_limit : W → nat;
  limit_kept c w : name_limit (sys c w).2 = name_limit w;
  creat_long p mode w : (name_limit w ≤ length p)%nat →
    ret (sys (CCreat p mode) w).1 < 0 ∧ err (sys (CCreat p mode) w).1 = ENAMETOOLONG;
  creat_short p mode w a : (length p < name_limit w)%nat → resolve (tree_of w) p = Some a → nodes (tree_of w) !! a = None →
    0 ≤ ret (sys (CCreat p mode) w).1;
  chdir_short c w d : (length c < name_limit w)%nat → enter (nodes (tree_of w)) (cwd (tree_of w)) c = Some d →
    ret (sys (CChdir c) w).1 = 0
}.

#[export] Program Instance mem_limit : NameLimit mem := { name_limit := limit }.
Next Obligation.
  intros c w. destruct c; cbn -[resolve]; unfold make, with_place; repeat first [case_decide|case_match]; done.
Qed.
Next Obligation. intros p mode w Hp. cbn. unfold make, with_place. by rewrite decide_True. Qed.
Next Obligation. intros p mode w a Hp Ha Hn. cbn in *. unfold make, with_place. rewrite decide_False, Ha by lia. by rewrite decide_True. Qed.
Next Obligation. intros c w d _ Hd. cbn in *. by rewrite Hd. Qed.

Section deep.
Context {W : Type} `{NameLimit W}.
#[local] Abbreviation ewp := (wp False (λ _ _ _, False)).

Lemma wp_invoke c s w (Q : reply → fss → W → Prop) :
  Q (sys c w).1 (if decide (ret (sys c w).1 < 0) then set_errno (err (sys c w).1) s else s) (sys c w).2 → ewp (invoke c) s w Q.
Proof. unfold wp, invoke. by destruct (sys c w). Qed.

(** A call on a long name gets down to where the name is short enough. *)
Lemma creat_loop_deep mode a : ∀ fuel p s w,
  (length p < fuel)%nat → fits p → resolve (tree_of w) p = Some a → nodes (tree_of w) !! a = None →
  Forall (λ c, length c < name_limit w)%nat (comps p) →
  ewp (path_loop fuel (λ p, invoke (CCreat p mode)) (Some p)) s w (λ r _ _, 0 ≤ ret r).
Proof.
  induction fuel as [|fuel IH]; intros p s w Hfuel Hf Ha Hn Hlim; [lia|]. cbn [path_loop]. apply wp_bind. eapply wp_lift; [done|].
  apply wp_bind, wp_invoke, wp_bind, wp_get. pose proof (limit_kept (CCreat p mode) w) as Hkept.
  pose proof (call_fails (CCreat p mode) w) as Hfail.
  destruct (decide (length p < name_limit w)%nat) as [Hshort|Hlong].
  { pose proof (creat_short p mode w a Hshort Ha Hn) as Hr. rewrite decide_True by lia. by apply wp_ret. }
  destruct (creat_long p mode w) as [Hr Herr]; [lia|]. specialize (Hfail Hr).
  rewrite (decide_True _ _ Hr). destruct (sys (CCreat p mode) w) as [r w1]. cbn in Hr, Herr, Hkept, Hfail. rewrite decide_False by (cbn; lia). cbn [fst snd].
  apply wp_bind. destruct (index_of "/" p) as [i|] eqn:Ei.
  2:{ pose proof (separate_spec p) as Hc. rewrite Ei in Hc. rewrite Hc in Hlim. apply Forall_cons in Hlim as [? _]. lia. }
  destruct (separate_some p i Ei Hf) as (Hsep & Hc & Hpl & Hf' & Hl). eapply wp_lift; [done|].
  rewrite Hc in Hlim. apply Forall_cons in Hlim as [Hlim1 Hlim]. destruct (tree_of w) as [N d] eqn:Ew.
  destruct (resolve_rest N d p i a Ei Hf Ha) as [Hent Hres]. unfold within. apply wp_bind, wp_invoke.
  assert (ret (sys (CChdir (take i p)) w1).1 = 0) as Hcd.
  { apply (chdir_short _ _ (d ++ [take i p])); [by rewrite Hkept|by rewrite Hfail]. }
  pose proof (call_ok (CChdir (take i p)) w1) as Heff. rewrite Hfail in Heff.
  pose proof (limit_kept (CChdir (take i p)) w1) as Hkept2. rewrite (decide_True _ _ Hcd).
  destruct (sys (CChdir _) w1) as [r2 w2]. cbn in Hcd, Heff, Hkept2.
  assert (tree_of w2 = Tree N (d ++ [take i p])) as Hw2 by (apply Heff; [lia|apply Hpl|done]).
  apply wp_bind. cbn [snd]. eapply wp_mono; [apply IH; [lia|done|by rewrite Hw2|by rewrite Hw2|by rewrite Hkept2, Hkept]|].
  intros rv s3 w3 Hrv. by apply wp_bind, wp_invoke.
Qed.
End deep.

(** C28: On a system that refuses a name only for its length, creat_path() creates the file
    for a name of any depth: it is enough that each component is short. *)
Theorem creat_path_deep {W} `{NameLimit W} p mode a s w :
  fits p → resolve (tree_of w) p = Some a → nodes (tree_of w) !! a = None →
  Forall (λ c, length c < name_limit w)%nat (comps p) →
  ∃ r s' w', creat_path (Some p) mode s w = Done (Goes r, s', w') ∧ 0 ≤ r ∧ tree_of w' = add_node a KReg (tree_of w).
Proof.
  intros Hf Ha Hn Hlim.
  pose proof (creat_loop_deep mode a (S (length p)) p s w ltac:(lia) Hf Ha Hn Hlim) as Hdeep.
  pose proof (twp_path_loop (stuck := False) (λ _ _ _, False) _ _ _ _ _ (spec_makes (λ _ _ _, False) (λ p, CCreat p mode) a KReg ltac:(done)) (S (length p)) p s w
    ltac:(lia) Hn (or_introl (conj Ha Hf))) as Hends.
  unfold creat_path, path_ret, path_call, mbind, prog_bind. cbn [default length]. unfold wp in Hdeep, Hends.
  destruct (path_loop _ _ _ s w) as [[[[r|c] s'] w']| |]; try done.
  destruct Hends as (_ & _ & Hpos). destruct (Hpos Hdeep) as [HN Hc]. exists (ret r), s', w'. split_and!; [done|done|].
  unfold makes in HN. destruct (tree_of w') as [N' d']. cbn in *. by subst.
Qed.

Definition deep_mem : mem :=
  Mem (Tree {[ [chars "d0"] := KDir; [chars "d0"; chars "d1"] := KDir; [chars "d0"; chars "d1"; chars "d2"] := KDir ]} []) 1 4.

Lemma creat_path_deep_witness :
  ∃ r s' w', creat_path (Some deep_name) 438 fss_start deep_mem = Done (Goes r, s', w') ∧ 0 ≤ r ∧
    tree_of w' = add_node [chars "d0"; chars "d1"; chars "d2"; chars "f3"] KReg (tree_of deep_mem).
Proof.
  apply (creat_path_deep deep_name 438 [chars "d0"; chars "d1"; chars "d2"; chars "f3"] fss_start deep_mem).
  - by_decide.
  - vm_compute. reflexivity.
  - vm_compute. reflexivity.
  - by_decide.
Defined.

(** ** The files that are picked *)

(** C29: get_fname() fails exactly when there is no file of the kinds it is asked for; the
    name it gives is that of a file of the tree, of the kind of the list it is from, and
    the slot is that of the file's entry. *)
Theorem get_fname_exists {W} `{PosixTree W} cfg L n which r s w :
  wf_settings cfg → inv cfg L n s w → n ≤ INT_MAX → 0 ≤ r ≤ INT_MAX →
  ∃ res v s', get_fname cfg which r true s w = Done (Goes (res, v), s', w) ∧ inv cfg L n s' w ∧
    match res with
    | None => ∀ ft, selects which ft = true → L ft = []
    | Some (nm, ft, slot) => selects which ft = true ∧ ∃ p a e, nm = Some p ∧ resolve (tree_of w) p = Some a ∧
        nodes (tree_of w) !! a = Some (kind_of ft) ∧ L ft !! slot = Some e ∧ located (namerand cfg) L ft e a
    end.
Proof.
  intros Hcfg Hi Hn Hr. set (good := λ (res : option (pathname * ftype * nat) * bool) s' w', w' = w ∧ inv cfg L n s' w ∧
    match res.1 with
    | None => ∀ ft, selects which ft = true → L ft = []
    | Some (nm, ft, slot) => selects which ft = true ∧ ∃ p a e, nm = Some p ∧ resolve (tree_of w) p = Some a ∧
        nodes (tree_of w) !! a = Some (kind_of ft) ∧ L ft !! slot = Some e ∧ located (namerand cfg) L ft e a
    end).
  assert (wp False (λ _ _ _, False) (get_fname cfg which r true) s w good) as Hwp.
  { eapply wp_get_fname; [done..| |].
    - intros v s' Hi' Hnone. split_and!; done.
    - intros nm ft slot e p v s' Hi' Hsel He Hl ->. split_and!; [done|done|]. split; [done|]. exists (join p), p, e.
      destruct (located_named cfg Hcfg False L n s' w ft e p Hi' Hn Hl) as [[Hres _]|[[] _]].
      split_and!; [done|done| |done|done]. eapply located_node; [apply Hi|done]. }
  unfold wp in Hwp. destruct (get_fname _ _ _ _ s w) as [[[[[res v]|c] s'] w']| |]; try done.
  destruct Hwp as (-> & Hi' & Hres). by exists res, v, s'.
Qed.

Definition first_dir : outcome (flow () * fss * mem) := mkdir_f plain_settings 0 0 fss_start empty_mem.

Lemma get_fname_exists_witness :
  ∃ s w, first_dir = Done (Goes (), s, w) ∧ ∃ a v s', resolve (tree_of w) (chars "d0") = Some a ∧ nodes (tree_of w) !! a = Some KDir ∧
    get_fname plain_settings FT_ANYm 5 true s w = Done (Goes (Some (Some (chars "d0"), FT_DIR, 0%nat), v), s', w).
Proof.
  assert (match first_dir with
    | Done (Goes (), s, w) => match get_fname plain_settings FT_ANYm 5 true s w with
      | Done (Goes (Some (Some p, FT_DIR, O), _), _, _) => bool_decide (p = chars "d0")
      | _ => false
      end
    | _ => false
    end = true) as Hrun by (vm_compute; reflexivity).
  pose proof (wp_mkdir_f (stuck := False) plain_settings plain_settings_wf (λ _, []) 0 0 0 fss_start empty_mem) as Hi.
  change (mkdir_f plain_settings 0 0) with (λ s w, mkdir_f plain_settings 0 0 s w) in Hi. unfold wp in Hi. cbv beta in Hi.
  change (mkdir_f plain_settings 0 0 fss_start empty_mem) with first_dir in Hi.
  destruct first_dir as [[[[[]|c] s] w]| |]; [|discriminate Hrun..].
  destruct Hi as (L & n & Hi & Hn); [split; [apply st_start|apply mirror_empty|reflexivity]|clia|clia|].
  exists s, w. split; [reflexivity|].
  destruct (get_fname_exists plain_settings L n FT_ANYm 5 s w) as (res & v & s' & E & _ & Hres).
  - apply plain_settings_wf.
  - exact Hi.
  - clia.
  - clia.
  - rewrite E in Hrun. destruct res as [[[[p|] []] [|slot]]|]; try discriminate Hrun. apply bool_decide_eq_true_1 in Hrun. subst p.
    destruct Hres as (_ & p & a & e & [= <-] & Ha & Hk & _). exists a, v, s'. auto.
Defined.

(** With its cache, dirid_to_fent() finds the same directories as a search of the list
    alone, whichever entries the cache has; it changes nothing but the cache, and what it
    enters there stays right. *)
Theorem dirid_to_fent_search {W} `{Kernel W} L n id s (w : W) :
  st L n s → 0 ≤ id → NoDup (fent_id <$> L FT_DIR) →
  ∃ s', dirid_to_fent id s w = Done (Goes (fst <$> list_find (λ e, fent_id e = id) (L FT_DIR)), s', w) ∧
    st L n s' ∧ s' = set_dcache (dcache s') s.
Proof.
  intros Hs Hid Hnd. assert (wp False (λ _ _ _, False) (dirid_to_fent id) s w (λ o s' w',
    w' = w ∧ o = fst <$> list_find (λ e, fent_id e = id) (L FT_DIR) ∧ st L n s' ∧ s' = set_dcache (dcache s') s)) as Hwp.
  { eapply wp_dirid_to_fent; [done..|]. intros o dc Ho Hs'. split_and!; [done| |done|done]. destruct o as [i|].
    - destruct Ho as (e & He & Ee). assert (list_find (λ e, fent_id e = id) (L FT_DIR) = Some (i, e)) as ->; [|done].
      apply list_find_Some. split_and!; [done|done|]. intros j e' Hj Hlt Ee'.
      assert (j = i); [|lia]. eapply (NoDup_lookup (fent_id <$> L FT_DIR)); [done|rewrite list_lookup_fmap, Hj; cbn; by rewrite Ee'|].
      rewrite list_lookup_fmap, He. cbn. by rewrite Ee.
    - assert (list_find (λ e, fent_id e = id) (L FT_DIR) = None) as ->; [|done]. apply list_find_None, Forall_forall. auto. }
  unfold wp in Hwp. destruct (dirid_to_fent id s w) as [[[[o|c] s'] w']| |]; try done.
  destruct Hwp as (-> & -> & Hs' & E). eauto.
Qed.

(** Two directories of which the second is in the cache. *)
Definition two_dirs : fss :=
  Fss (λ ft, match ft with FT_DIR => FList 2 2 "d" [Some (Fent 0 (-1)); Some (Fent 3 0)] | _ => FList 0 0 (ft_tag ft) [] end)
    (<[3%nat := 1]> dcache_init) 4 0 false [].
Definition two_lists : files := λ ft, match ft with FT_DIR => [Fent 0 (-1); Fent 3 0] | _ => [] end.

Lemma dirid_to_fent_search_witness : st two_lists 4 two_dirs ∧
  ∃ s', dirid_to_fent 3 two_dirs empty_mem = Done (Goes (Some 1%nat), s', empty_mem) ∧ st two_lists 4 s' ∧ s' = set_dcache (dcache s') two_dirs.
Proof.
  assert (st two_lists 4 two_dirs) as Hs.
  { split.
    - intros []; by split.
    - split; [done|]. intros h i Hh Hi. destruct (decide (h = 3%nat)) as [->|Hne].
      + injection Hh as <-. by exists (Fent 3 0).
      + cbn [two_dirs dcache] in Hh. rewrite list_lookup_insert_ne in Hh by done.
        apply list_elem_of_lookup_2, elem_of_replicate_inv in Hh. lia.
    - apply Forall_forall. by_decide.
    - done. }
  split; [exact Hs|]. apply (dirid_to_fent_search two_lists 4 3 two_dirs empty_mem).
  - exact Hs.
  - lia.
  - by_decide.
Defined.

(** ** Frequencies and masks that do not work *)

(** When every frequency is zero, as after -z, the table is empty and the first
    operation takes a remainder by zero. *)
Theorem zero_freq_faults {W} `{Kernel W} cfg l k opno s w :
  ∃ table size, make_freq_table (zero_freq l) = Done (table, size) ∧ op_loop cfg (S k) opno table size s w = Fault.
Proof.
  exists [], 0. split; [|by apply no_operations]. assert (op_table (zero_freq l) = [] ∧ total_freq (zero_freq l) = 0) as [Et Ef].
  { induction l as [|d l [IH1 IH2]]; [done|]. split; [exact IH1|exact IH2]. }
  rewrite make_freq_table_ok; [by rewrite Et| |rewrite Ef; clia].
  apply Forall_fmap, Forall_forall. done.
Qed.

(** Where an int subtraction that overflows is not defined, chown's mask of 31 bits is not
    either; every smaller mask keeps the low bits. *)
Theorem mask_uid_bits cfg u nbits :
  0 ≤ u ≤ UINT_MAX → 0 ≤ nbits < 32 → wraps cfg = false →
  mask_uid cfg u nbits = if decide (nbits = 31) then Fault else Done (u mod 2 ^ nbits).
Proof.
  intros Hu Hn Hw. unfold mask_uid, shl32. rewrite decide_True by done. cbn [mbind outcome_bind]. rewrite Hw, Z.mul_1_l.
  destruct (decide (nbits = 31)) as [->|Hne]; [done|]. assert (2 ^ 0 ≤ 2 ^ nbits ≤ 2 ^ 30) as Hb.
  { split; apply Z.pow_le_mono_r; lia. }
  rewrite wrap32_small by clia. rewrite i32_ok by clia. cbn [mbind outcome_bind]. unfold u32. rewrite Z.mod_small by lia.
  by rewrite <- Z.land_ones, Z.ones_equiv by lia.
Qed.

Lemma mask_uid_bits_witness :
  mask_uid (Settings 0 false [] 0 0 1099511627775 4096 0 false) 4660 8 = Done 52 ∧
  mask_uid (Settings 0 false [] 0 0 1099511627775 4096 0 false) 4660 31 = Fault.
Proof.
  split; [apply (mask_uid_bits (Settings 0 false [] 0 0 1099511627775 4096 0 false) 4660 8)
         |apply (mask_uid_bits (Settings 0 false [] 0 0 1099511627775 4096 0 false) 4660 31)]; clia || done.
Defined.
