(* ===== verification/Zoo.v ===== *)
(** * The zoo file of pan (pan/zoolib.c)

    A zoo is a text file with one line of 80 characters for each running test.
    The model has the bytes of the file, the position of the stream, the lock
    and the signal mask of the process.  The answers of fcntl(), fseek() and
    fopen() come from a stream of errno values (0 is success; a call after the
    end of the stream succeeds), so every failure is a run of the model. *)
From stdpp Require Import base strings numbers option list.
From Stdlib Require Import Ascii.
From S2P Require Import Prelude CInt CText.

(** ** Data *)

Definition EINTR : Z := 4.
Definition ENOENT : Z := 2.
Definition SIGHUP : Z := 1.
Definition SIGINT : Z := 2.
Definition SIGKILL : Z := 9.
Definition SIGUSR1 : Z := 10.
Definition SIGUSR2 : Z := 12.
Definition SIGALRM : Z := 14.
Definition SIGTERM : Z := 15.

Definition ZELEN : nat := 512.
Definition BUFLEN : nat := 81.

(** A zoo_t is a stream pointer; [false] is NULL. *)
Abbreviation zoo_t := bool (only parsing).

Record zoo := Zoo {
  data : list ascii;        (* the bytes of the file *)
  pos : nat;                (* the position of the stream *)
  present : bool;           (* the file exists *)
  locked : bool;            (* this process holds the lock *)
  blocked : list Z;         (* blocked signals *)
  answers : list Z;         (* errno of the calls to come *)
  zoo_error : list ascii;
}.

Definition set_pos p z := Zoo (data z) p (present z) (locked z) (blocked z) (answers z) (zoo_error z).
Definition set_data d z := Zoo d (pos z) (present z) (locked z) (blocked z) (answers z) (zoo_error z).
Definition set_present z := Zoo (data z) (pos z) true (locked z) (blocked z) (answers z) (zoo_error z).
Definition set_locked b z := Zoo (data z) (pos z) (present z) b (blocked z) (answers z) (zoo_error z).
Definition set_blocked m z := Zoo (data z) (pos z) (present z) (locked z) m (answers z) (zoo_error z).
Definition set_answers a z := Zoo (data z) (pos z) (present z) (locked z) (blocked z) a (zoo_error z).
Definition set_error e z := Zoo (data z) (pos z) (present z) (locked z) (blocked z) (answers z) e.

(** The C string in a buffer. *)
Definition cstr (s : list ascii) : list ascii := take_while (λ c, bool_decide (c ≠ NUL)) s.

(** ** System and stream calls *)

(** The errno of the next call. *)
Definition answer (z : zoo) : Z * zoo :=
  match answers z with [] => (0%Z, z) | e :: a => (e, set_answers a z) end.

(** fgets(buf, BUFLEN, fp). *)
Definition read_line (z : zoo) : option (list ascii * zoo) :=
  match fgets BUFLEN (drop (pos z) (data z)) with
  | None => None
  | Some (l, _) => Some (cstr l, set_pos (pos z + length l) z)
  end.

(** fseek(fp, p, SEEK_SET). *)
Definition fseek (p : nat) (z : zoo) : Z * zoo :=
  let '(e, z) := answer z in if decide (e = 0%Z) then (e, set_pos p z) else (e, z).

(** Output at the position of the stream overwrites and extends the file. *)
Definition fwrite (s : list ascii) (z : zoo) : zoo :=
  set_pos (pos z + length s)
    (set_data (take (pos z) (data z) ++ s ++ drop (pos z + length s) (data z)) z).

(** The conversion %-*.*s with the same width and precision. *)
Definition pad (w : nat) (s : list ascii) : list ascii :=
  take w s ++ replicate (w - length s) " "%char.

(** ** The operations *)

Section zoo.
Context (strerror : Z → list ascii).

Definition errno_error (msg : string) (e : Z) (z : zoo) : zoo :=
  set_error (snprintf ZELEN (chars msg ++ chars ", errno:" ++ print_d e ++ " "%char :: strerror e)) z.

(** getenv() is the argument. *)
Definition zoo_getname (ZOO : option (list ascii)) : option (list ascii) :=
  match ZOO with
  | Some zoo => Some (snprintf 1024 (zoo ++ chars "/active"))
  | None => None
  end.

(** fopen(name, "r+") fails on a missing file; "a+" creates it. *)
Definition fopen (create : bool) (z : zoo) : Z * zoo :=
  let '(e, z) := answer z in
  if decide (e ≠ 0%Z) then (e, z)
  else if present z then (0%Z, set_pos 0 z)
  else if create then (0%Z, set_pos 0 (set_present z)) else (ENOENT, z).

Definition open_error (zooname : list ascii) (e : Z) (z : zoo) : zoo :=
  set_error (snprintf ZELEN (chars "Could not open zoo as " ++ DQUOTE :: zooname ++ DQUOTE ::
    chars ", errno:" ++ print_d e ++ " "%char :: strerror e)) z.

Definition zoo_open (zooname : list ascii) (z : zoo) : zoo_t * zoo :=
  let '(e, z) := fopen false z in
  if decide (e = 0%Z) then (true, z)
  else if decide (e = ENOENT) then
    let '(e, z) := fopen true z in
    if decide (e ≠ 0%Z) then (false, open_error zooname e z)
    else let '(e, z) := fopen false z in (bool_decide (e = 0%Z), z)
  else (false, open_error zooname e z).

(** fclose() drops the locks of the process on the file. *)
Definition zoo_close (z : zoo) : Z * zoo :=
  let '(e, z) := answer z in
  let z := set_locked false z in
  if decide (e ≠ 0%Z) then ((-1)%Z, errno_error "closing zoo caused error" e z) else (0%Z, z).

Definition block_these : list Z := [SIGINT; SIGTERM; SIGHUP; SIGUSR1; SIGUSR2].
Definition sig_block (m : list Z) : list Z := m ++ filter (λ s, s ∉ m) block_these.
Definition sig_unblock (m : list Z) : list Z := filter (λ s, s ∉ block_these) m.

(** fcntl(F_SETLKW) until it is not interrupted. *)
Fixpoint setlkw (a : list Z) : Z * list Z :=
  match a with
  | [] => (0%Z, [])
  | e :: a' => if decide (e = EINTR) then setlkw a' else (e, a')
  end.

(** The body zoo_lock() and zoo_unlock() share. *)
Definition zoo_setlk (type : bool) (msg : string) (fp : zoo_t) (z : zoo) : Z * zoo :=
  if negb fp then ((-1)%Z, z)
  else
    let z := set_blocked (sig_block (blocked z)) z in
    let '(e, a) := setlkw (answers z) in
    let z := set_answers a z in
    let z := if decide (e = 0%Z) then set_locked type z else z in
    let z := set_blocked (sig_unblock (blocked z)) z in
    if decide (e ≠ 0%Z) then ((-1)%Z, errno_error msg e z) else (0%Z, z).

Definition zoo_lock : zoo_t → zoo → Z * zoo := zoo_setlk true "failed to unlock zoo file".
Definition zoo_unlock : zoo_t → zoo → Z * zoo := zoo_setlk false "failed to lock zoo file".

(** The search for a free line; [None] is the error return. *)
Fixpoint mark_loop (fuel : nat) (entry : list ascii) (z : zoo) : outcome (option bool * zoo) :=
  match fuel with
  | O => Timeout
  | S fuel' =>
      let p := pos z in
      match read_line z with
      | None => Done (Some false, z)
      | Some (buf, z) =>
          if decide (char_at buf 0 = "#"%char) then
            let z := set_pos 0 z in
            let '(e, z) := fseek p z in
            if decide (e ≠ 0%Z) then
              Done (None, errno_error "seek error while writing to zoo file" e z)
            else Done (Some true, fwrite (pad (length buf - 1) entry ++ [NEWLINE]) z)
          else mark_loop fuel' entry z
      end
  end.

Definition zoo_mark (fp : zoo_t) (entry : list ascii) (z : zoo) : outcome (Z * zoo) :=
  if negb fp then Done ((-1)%Z, z)
  else
    let '(r, z) := zoo_lock fp z in
    if decide (r ≠ 0%Z) then Done ((-1)%Z, z)
    else
      '(found, z) ← mark_loop (S (length (data z))) entry (set_pos 0 z);
      match found with
      | None => Done ((-1)%Z, z)
      | Some true => let '(r, z) := zoo_unlock fp z in Done (if decide (r ≠ 0%Z) then (-1)%Z else 0%Z, z)
      | Some false =>
          let '(e, z) := fseek (length (data z)) z in
          if decide (e ≠ 0%Z) then Done ((-1)%Z, errno_error "error seeking to end of zoo file" e z)
          else
            let z := fwrite (pad 79 entry ++ [NEWLINE]) z in
            let '(r, z) := zoo_unlock fp z in Done (if decide (r ≠ 0%Z) then (-1)%Z else 0%Z, z)
      end.

Definition new_entry (p : Z) (tag cmdline : list ascii) : list ascii :=
  snprintf 80 (print_d p ++ ","%char :: tag ++ ","%char :: cmdline).

Definition zoo_mark_cmdline (fp : zoo_t) (p : Z) (tag cmdline : list ascii) (z : zoo) : outcome (Z * zoo) :=
  zoo_mark fp (new_entry p tag cmdline) z.

(** strcat() into an object of [size] bytes. *)
Definition strcat (size : nat) (cmd s : list ascii) : outcome (list ascii) :=
  if decide (length (cmd ++ s) < size) then Done (cmd ++ s) else Fault.

Fixpoint cat_loop (size a : nat) (cmd : list ascii) (argv : list (list ascii)) : outcome (list ascii) :=
  match argv with
  | [] => Done cmd
  | s :: argv' =>
      cmd ← (if decide (a ≠ 0) then strcat size cmd [" "%char] else Done cmd);
      cmd ← strcat size cmd s;
      cat_loop size (S a) cmd argv'
  end.

(** [size += strlen(argv[a]); size++;] on an int: the sum is a size_t that is
    converted back. *)
Fixpoint cat_size (size : Z) (argv : list (list ascii)) : outcome Z :=
  match argv with
  | [] => Done size
  | s :: argv' => size ← i32 (wrap32 (size + Z.of_nat (length s)) + 1); cat_size size argv'
  end.

(** malloc() fails on a negative size, which converts to a huge one, and
    succeeds otherwise. *)
Definition cat_args (argv : list (list ascii)) : outcome (option (list ascii)) :=
  size ← cat_size 0 argv;
  if decide (size < 0)%Z then Done None
  else if decide (size = 0%Z) then Fault
  else cmd ← cat_loop (Z.to_nat size) 0 [] argv; Done (Some cmd).

Definition zoo_mark_args (fp : zoo_t) (p : Z) (tag : list ascii) (av : list (list ascii)) (z : zoo) :
    outcome (Z * zoo) :=
  cmdline ← cat_args av;
  cmdline ← load cmdline;
  zoo_mark_cmdline fp p tag cmdline z.

Fixpoint clear_loop (fuel : nat) (p : Z) (z : zoo) : outcome (option bool * zoo) :=
  match fuel with
  | O => Timeout
  | S fuel' =>
      let q := pos z in
      match read_line z with
      | None => Done (Some false, z)
      | Some (buf, z) =>
          if decide (char_at buf 0 = "#"%char) then clear_loop fuel' p z
          else if decide (atoi buf = p) then
            let '(e, z) := fseek q z in
            if decide (e ≠ 0%Z) then
              Done (None, errno_error "seek error while writing to zoo file" e z)
            else Done (Some true, fwrite ["#"%char] z)
          else clear_loop fuel' p z
      end
  end.

Definition zoo_clear (fp : zoo_t) (p : Z) (z : zoo) : outcome (Z * zoo) :=
  if negb fp then Done ((-1)%Z, z)
  else
    let '(r, z) := zoo_lock fp z in
    if decide (r ≠ 0%Z) then Done ((-1)%Z, z)
    else
      '(found, z) ← clear_loop (S (length (data z))) p (set_pos 0 z);
      match found with
      | None => Done ((-1)%Z, z)
      | Some found =>
          let '(r, z) := zoo_unlock fp z in
          if decide (r ≠ 0%Z) then Done ((-1)%Z, z)
          else if (found : bool) then Done (0%Z, z)
          else Done (1%Z, set_error (snprintf ZELEN
                 (chars "zoo_clear() did not find pid(" ++ print_d p ++ chars ")")) z)
      end.

Fixpoint getpid_loop (fuel : nat) (tag : list ascii) (z : zoo) : outcome (Z * zoo) :=
  match fuel with
  | O => Timeout
  | S fuel' =>
      match read_line z with
      | None => Done ((-1)%Z, z)
      | Some (buf, z) =>
          if decide (char_at buf 0 = "#"%char) then getpid_loop fuel' tag z
          else match index_of ","%char buf with
               | None => getpid_loop fuel' tag z
               | Some i =>
                   if strncmp_eq (drop (S i) buf) tag (length tag) then Done (atoi buf, z)
                   else getpid_loop fuel' tag z
               end
      end
  end.

Definition zoo_getpid (fp : zoo_t) (tag : list ascii) (z : zoo) : outcome (Z * zoo) :=
  if negb fp then Done ((-1)%Z, z)
  else
    let '(r, z) := zoo_lock fp z in
    if decide (r ≠ 0%Z) then Done ((-1)%Z, z)
    else
      '(this_pid, z) ← getpid_loop (S (length (data z))) tag (set_pos 0 z);
      let '(r, z) := zoo_unlock fp z in
      Done (if decide (r ≠ 0%Z) then (-1)%Z else this_pid, z).
End zoo.

(** ** The file as a list of lines *)

(** A line without its newline. *)
Definition zoo_line (l : list ascii) : Prop := length l = 79 ∧ NEWLINE ∉ l ∧ NUL ∉ l.

Fixpoint file_of (lines : list (list ascii)) : list ascii :=
  match lines with [] => [] | l :: ls => (l ++ [NEWLINE]) ++ file_of ls end.

(** The file format the head comment of zoolib.c describes. *)
Definition zoo_file (lines : list (list ascii)) (z : zoo) : Prop :=
  data z = file_of lines ∧ Forall zoo_line lines.

Definition is_free (l : list ascii) : bool := bool_decide (char_at l 0 = "#"%char).

(** First fit: the first free line, or a new one at the end. *)
Fixpoint mark_line (entry : list ascii) (lines : list (list ascii)) : list (list ascii) :=
  match lines with
  | [] => [pad 79 entry]
  | l :: ls => if is_free l then pad 79 entry :: ls else l :: mark_line entry ls
  end.

(** The first line in use that carries the pid becomes free. *)
Fixpoint clear_line (p : Z) (lines : list (list ascii)) : option (list (list ascii)) :=
  match lines with
  | [] => None
  | l :: ls =>
      if negb (is_free l) && bool_decide (atoi l = p) then Some (("#"%char :: tail l) :: ls)
      else cons l <$> clear_line p ls
  end.

(** A line in use whose text after the first comma starts with the tag. *)
Definition has_tag (tag l : list ascii) : bool :=
  negb (is_free l) &&
  match index_of ","%char l with Some i => starts_with tag (drop (S i) l) | None => false end.

Fixpoint find_tag (tag : list ascii) (lines : list (list ascii)) : Z :=
  match lines with
  | [] => -1
  | l :: ls => if has_tag tag l then atoi l else find_tag tag ls
  end.

Lemma file_of_app ls ks : file_of (ls ++ ks) = file_of ls ++ file_of ks.
Proof. induction ls as [|l ls IH]; simpl; [done|]. by rewrite IH, <-!app_assoc. Qed.

Lemma file_of_snoc ls l : file_of (ls ++ [l]) = file_of ls ++ l ++ [NEWLINE].
Proof. rewrite file_of_app. simpl. by rewrite app_nil_r. Qed.

Lemma file_of_length ls : length ls ≤ length (file_of ls).
Proof. induction ls as [|l ls IH]; simpl; [done|]. rewrite !length_app. simpl. lia. Qed.

Lemma pad_length w s : length (pad w s) = w.
Proof. unfold pad. rewrite length_app, length_take, length_replicate. lia. Qed.

Lemma pad_line w s c : c ≠ " "%char → c ∉ s → c ∉ pad w s.
Proof.
  intros Hc Hs. unfold pad. rewrite elem_of_app, elem_of_replicate. intros [H|[H _]].
  - apply elem_of_take in H as (i & H & _). by apply list_elem_of_lookup_2 in H.
  - done.
Qed.

Lemma pad_zoo_line s : NEWLINE ∉ s → cstring s → zoo_line (pad 79 s).
Proof. intros. split_and!; [apply pad_length|by apply pad_line|by apply pad_line]. Qed.

Lemma fgets_chunk_line n l rest :
  NEWLINE ∉ l → length l < n → fgets_chunk n (l ++ NEWLINE :: rest) = (l ++ [NEWLINE], rest).
Proof.
  revert n. induction l as [|c l IH]; intros [|n] Hl Hn; simpl in *; try lia; [done|].
  apply not_elem_of_cons in Hl as [? ?]. rewrite decide_False by done. by rewrite IH by (done || lia).
Qed.

Lemma cstr_id s : cstring s → cstr s = s.
Proof.
  intros Hs. unfold cstr. apply take_while_all. apply Forall_forall. intros c Hc.
  apply bool_decide_pack. intros ->. done.
Qed.

(** Reading the line at the position of the stream. *)
Lemma read_line_file dn l ls z :
  data z = file_of (dn ++ l :: ls) → zoo_line l → pos z = length (file_of dn) →
  read_line z = Some (l ++ [NEWLINE], set_pos (length (file_of (dn ++ [l]))) z).
Proof.
  intros Hd (Hlen & Hnl & Hnul) Hp. unfold read_line.
  rewrite Hd, Hp, file_of_app, drop_app_length. simpl. rewrite <-app_assoc. simpl.
  unfold fgets. destruct (l ++ NEWLINE :: file_of ls) as [|c t] eqn:E; [by destruct l|].
  rewrite <-E. rewrite fgets_chunk_line by (done || (unfold BUFLEN; lia)).
  rewrite cstr_id.
  - do 3 f_equal. rewrite file_of_snoc, !length_app. done.
  - unfold cstring. rewrite elem_of_app, list_elem_of_singleton. intros [?|?]; done.
Qed.

Lemma read_line_end ls z :
  data z = file_of ls → pos z = length (file_of ls) → read_line z = None.
Proof. intros Hd Hp. unfold read_line. by rewrite Hd, Hp, drop_all. Qed.

Lemma zoo_line_head l t : zoo_line l → char_at (l ++ t) 0 = char_at l 0.
Proof. intros [Hl _]. by rewrite char_at_app_l by lia. Qed.

Lemma is_free_spec l : zoo_line l → is_free l = bool_decide (char_at (l ++ [NEWLINE]) 0 = "#"%char).
Proof. intros. unfold is_free. by rewrite zoo_line_head. Qed.

(** Overwriting a line at its own length. *)
Lemma fwrite_line dn l ls s z :
  data z = file_of (dn ++ l :: ls) → pos z = length (file_of dn) → length s = length l →
  data (fwrite (s ++ [NEWLINE]) z) = file_of (dn ++ s :: ls).
Proof.
  intros Hd Hp Hs. unfold fwrite. simpl. rewrite Hd, Hp, !file_of_app. rewrite take_app_length.
  f_equal. simpl. f_equal. rewrite drop_app_ge by lia.
  replace (length (file_of dn) + length (s ++ [NEWLINE]) - length (file_of dn))
    with (length (l ++ [NEWLINE])) by (rewrite !length_app; lia).
  by rewrite drop_app_length.
Qed.

(** Overwriting the first character of a line. *)
Lemma fwrite_head dn l ls c z :
  data z = file_of (dn ++ l :: ls) → pos z = length (file_of dn) → l ≠ [] →
  data (fwrite [c] z) = file_of (dn ++ (c :: tail l) :: ls).
Proof.
  intros Hd Hp Hl. destruct l as [|d l]; [done|]. unfold fwrite. simpl.
  rewrite Hd, Hp, !file_of_app, take_app_length. f_equal. simpl. f_equal.
  rewrite drop_app_ge by lia. replace (_ + 1 - _) with 1 by lia. done.
Qed.

Lemma fwrite_end ls s z :
  data z = file_of ls → pos z = length (file_of ls) →
  data (fwrite (s ++ [NEWLINE]) z) = file_of (ls ++ [s]).
Proof.
  intros Hd Hp. unfold fwrite. simpl. rewrite Hd, Hp, firstn_all, drop_ge by lia.
  by rewrite app_nil_r, file_of_snoc.
Qed.

(** ** The loops *)

Lemma mark_line_full entry ls :
  Forall (λ l, is_free l = false) ls → mark_line entry ls = ls ++ [pad 79 entry].
Proof. induction 1 as [|l ls Hl _ IH]; simpl; [done|]. by rewrite Hl, IH. Qed.

Lemma fseek_spec p z :
  let '(e, z') := fseek p z in
  data z' = data z ∧ locked z' = locked z ∧
  (e = 0%Z → pos z' = p) ∧ (answers z = [] → e = 0%Z ∧ answers z' = []) ∧
  (∀ e' a, answers z = e' :: a → e = e' ∧ answers z' = a).
Proof.
  unfold fseek, answer. destruct (answers z) as [|e' a] eqn:E; simpl.
  - split_and!; try done.
  - case_decide; simpl; split_and!; try done; naive_solver.
Qed.

(** The ways the search of zoo_mark() ends. *)
Lemma mark_loop_spec strerror entry ls : ∀ dn z fuel,
  data z = file_of (dn ++ ls) → Forall zoo_line ls → pos z = length (file_of dn) → length ls < fuel →
  ∃ r z', mark_loop strerror fuel entry z = Done (r, z') ∧ locked z' = locked z ∧
    (answers z = [] → r ≠ None ∧ answers z' = []) ∧
    match r with
    | None => data z' = data z
    | Some true => data z' = file_of (dn ++ mark_line entry ls) ∧ ∀ e a, answers z = e :: a → e = 0%Z
    | Some false => z' = set_pos (length (data z)) z ∧ Forall (λ l, is_free l = false) ls
    end.
Proof.
  induction ls as [|l ls IH]; intros dn z [|fuel] Hd Hls Hp Hf; simpl in Hf; try lia; cbn [mark_loop].
  - rewrite app_nil_r in Hd. rewrite (read_line_end dn) by done. exists (Some false), z.
    split_and!; try done. rewrite Hd, <-Hp. by destruct z.
  - apply Forall_cons in Hls as [Hl Hls]. rewrite (read_line_file dn l ls) by done. cbn iota beta.
    destruct (is_free l) eqn:Efree.
    + pose proof Efree as Hh. rewrite is_free_spec in Hh by done. apply bool_decide_eq_true in Hh.
      rewrite (decide_True _ _ Hh).
      pose proof (fseek_spec (pos z) (set_pos 0 (set_pos (length (file_of (dn ++ [l]))) z))) as Hs.
      destruct (fseek _ _) as [e z1]. cbn [data locked answers set_pos] in Hs.
      destruct Hs as (Hd1 & Hk & Hpos & Hnil & Hcons). case_decide as He.
      * eexists None, _. split_and!; try done. intros H. by apply Hnil in H as [? _].
      * eexists (Some true), _. split_and!; try done.
        -- intros H. split; [done|]. by apply Hnil in H as [_ ?].
        -- rewrite (fwrite_line dn l ls).
           ++ simpl. by rewrite Efree, length_app, Nat.add_sub, (proj1 Hl).
           ++ by rewrite Hd1.
           ++ rewrite <-Hp. by apply Hpos.
           ++ by rewrite pad_length, length_app, Nat.add_sub.
        -- intros e' a H. by apply Hcons in H as [<- _].
    + pose proof Efree as Hh. rewrite is_free_spec in Hh by done. apply bool_decide_eq_false in Hh.
      rewrite (decide_False _ _ Hh).
      edestruct (IH (dn ++ [l]) (set_pos (length (file_of (dn ++ [l]))) z) fuel) as (r & z' & Hr & Hk & Ha & Hm);
        [by rewrite <-app_assoc|done|done|lia|].
      exists r, z'. split_and!; try done. cbn [data set_pos answers] in Hm.
      destruct r as [[|]|]; [|destruct Hm; split; [done|by constructor]|done].
      rewrite <-app_assoc in Hm. simpl. by rewrite Efree.
Qed.

(** The calls to come are at most interrupted. *)
Definition undisturbed (z : zoo) : Prop := Forall (λ e, e = EINTR) (answers z).

Lemma setlkw_undisturbed a : Forall (λ e, e = EINTR) a → setlkw a = (0%Z, []).
Proof. induction 1 as [|e a -> _ IH]; [done|]. by cbn. Qed.

Lemma setlkw_ok a : setlkw (0%Z :: a) = (0%Z, a).
Proof. done. Qed.

Lemma zoo_setlk_spec strerror type msg z :
  ∃ r z', zoo_setlk strerror type msg true z = (r, z') ∧ data z' = data z ∧
    (r = 0%Z ∧ locked z' = type ∨ r = (-1)%Z ∧ locked z' = locked z) ∧
    (undisturbed z → r = 0%Z ∧ answers z' = []) ∧
    (∀ a, answers z = 0%Z :: a → r = 0%Z ∧ answers z' = a).
Proof.
  unfold zoo_setlk. cbn [negb answers set_blocked].
  destruct (setlkw (answers z)) as [e a] eqn:E. repeat case_decide; try done.
  - eexists _, _. split_and!; [done|done|by right| |].
    + intros Hu. rewrite (setlkw_undisturbed _ Hu) in E. by simplify_eq.
    + intros a' Ha. rewrite Ha, setlkw_ok in E. by simplify_eq.
  - eexists _, _. split_and!; [done|done|by left| |].
    + intros Hu. rewrite (setlkw_undisturbed _ Hu) in E. by simplify_eq.
    + intros a' Ha. rewrite Ha, setlkw_ok in E. by simplify_eq.
Qed.

Lemma clear_loop_spec strerror p ls : ∀ dn z fuel,
  data z = file_of (dn ++ ls) → Forall zoo_line ls → pos z = length (file_of dn) → length ls < fuel →
  ∃ r z', clear_loop strerror fuel p z = Done (r, z') ∧ locked z' = locked z ∧
    (answers z = [] → r ≠ None ∧ answers z' = []) ∧
    match r with
    | None => data z' = data z
    | Some true => ∃ ls', clear_line p ls = Some ls' ∧ data z' = file_of (dn ++ ls')
    | Some false => data z' = data z ∧ clear_line p ls = None
    end.
Proof.
  induction ls as [|l ls IH]; intros dn z [|fuel] Hd Hls Hp Hf; simpl in Hf; try lia; cbn [clear_loop].
  - rewrite app_nil_r in Hd. rewrite (read_line_end dn) by done. by exists (Some false), z.
  - apply Forall_cons in Hls as [Hl Hls]. rewrite (read_line_file dn l ls) by done. cbn iota beta.
    rewrite atoi_newline, zoo_line_head by done. cbn [clear_line].
    assert (negb (is_free l) && bool_decide (atoi l = p) = false →
      ∃ r z', clear_loop strerror fuel p (set_pos (length (file_of (dn ++ [l]))) z) = Done (r, z') ∧
        locked z' = locked z ∧ (answers z = [] → r ≠ None ∧ answers z' = []) ∧
        match r with
        | None => data z' = data z
        | Some true => ∃ ls', cons l <$> clear_line p ls = Some ls' ∧ data z' = file_of (dn ++ ls')
        | Some false => data z' = data z ∧ cons l <$> clear_line p ls = None
        end) as Hstep.
    { intros _. edestruct (IH (dn ++ [l]) (set_pos (length (file_of (dn ++ [l]))) z) fuel)
        as (r & z' & Hr & Hk & Ha & Hm); [by rewrite <-app_assoc|done|done|lia|].
      exists r, z'. split_and!; try done. cbn [data set_pos] in Hm.
      destruct r as [[|]|]; [destruct Hm as (ls' & -> & Hm); exists (l :: ls')|destruct Hm as [? ->]|]; try done.
      split; [done|]. by rewrite <-app_assoc in Hm. }
    unfold is_free in *. destruct (decide (char_at l 0 = "#"%char)) as [Hh|Hh].
    { rewrite (bool_decide_true _ Hh) in *. by apply Hstep. }
    rewrite (bool_decide_false _ Hh) in *. cbn [negb andb] in *. destruct (decide (atoi l = p)) as [Hpid|Hpid].
    2: { rewrite (bool_decide_false _ Hpid) in *. by apply Hstep. }
    rewrite (bool_decide_true _ Hpid). clear Hstep IH.
    pose proof (fseek_spec (pos z) (set_pos (length (file_of (dn ++ [l]))) z)) as Hs.
    destruct (fseek _ _) as [e z1]. cbn [data locked answers set_pos] in Hs.
    destruct Hs as (Hd1 & Hk & Hpos & Hnil & Hcons). case_decide as He.
    + eexists None, _. split_and!; try done. intros H. by apply Hnil in H as [? _].
    + eexists (Some true), _. split_and!; try done.
      * intros H. split; [done|]. by apply Hnil in H as [_ ?].
      * eexists. split; [done|]. rewrite (fwrite_head dn l ls); [done|by rewrite Hd1| |].
        -- rewrite <-Hp. by apply Hpos.
        -- intros ->. by destruct Hl.
Qed.

(** A tag cannot reach over the end of the line. *)
Lemma starts_with_newline tag t :
  NEWLINE ∉ tag → strncmp_eq (t ++ [NEWLINE]) tag (length tag) = starts_with tag t.
Proof.
  intros Hn. unfold strncmp_eq, starts_with. apply bool_decide_ext.
  rewrite (take_ge tag) by done. destruct (decide (length tag ≤ length t)).
  - by rewrite take_app_le.
  - split; intros H.
    + exfalso. apply Hn. rewrite <-H, take_ge by (rewrite length_app; simpl; lia). apply elem_of_app; right; apply list_elem_of_here.
    + apply (f_equal length) in H. rewrite length_take in H. lia.
Qed.

Lemma getpid_loop_spec tag ls : NEWLINE ∉ tag → ∀ dn z fuel,
  data z = file_of (dn ++ ls) → Forall zoo_line ls → pos z = length (file_of dn) → length ls < fuel →
  ∃ q, getpid_loop fuel tag z = Done (find_tag tag ls, set_pos q z).
Proof.
  intros Hn. induction ls as [|l ls IH]; intros dn z [|fuel] Hd Hls Hp Hf; simpl in Hf; try lia;
    cbn [getpid_loop].
  - rewrite app_nil_r in Hd. rewrite (read_line_end dn) by done. exists (pos z). by destruct z.
  - apply Forall_cons in Hls as [Hl Hls]. rewrite (read_line_file dn l ls) by done. cbn iota beta.
    rewrite atoi_newline, zoo_line_head by done. cbn [find_tag].
    destruct (IH (dn ++ [l]) (set_pos (length (file_of (dn ++ [l]))) z) fuel) as [q Hq];
      [by rewrite <-app_assoc|done|done|lia|].
    assert (∃ q, getpid_loop fuel tag (set_pos (length (file_of (dn ++ [l]))) z) =
      Done (find_tag tag ls, set_pos q z)) as Hstep by eauto. clear Hq.
    unfold has_tag, is_free. destruct (decide (char_at l 0 = "#"%char)) as [Hh|Hh]; [by rewrite (bool_decide_true _ Hh)|].
    rewrite (bool_decide_false _ Hh). cbn [negb andb]. destruct (index_of _ l) as [i|] eqn:Ei.
    + rewrite (index_of_app_l _ _ _ _ Ei). apply index_of_length in Ei.
      rewrite drop_app_le, starts_with_newline by (done || lia).
      destruct (starts_with _ _); [eauto|done].
    + rewrite (index_of_app_None _ _ _ Ei). done.
Qed.

(** ** Whole operations *)

Lemma mark_line_file entry ls :
  NEWLINE ∉ entry → cstring entry → Forall zoo_line ls → Forall zoo_line (mark_line entry ls).
Proof.
  intros Hn Hc. pose proof (pad_zoo_line entry Hn Hc).
  induction 1 as [|l ls Hl Hls IH]; simpl; [by constructor|]. destruct (is_free l); by constructor.
Qed.

Lemma clear_line_file p ls ls' : clear_line p ls = Some ls' → Forall zoo_line ls → Forall zoo_line ls'.
Proof.
  intros H Hls. revert ls' H. induction Hls as [|l ls Hl Hls IH]; intros ls'; simpl; [done|].
  destruct (_ && _); intros H; simplify_eq.
  - constructor; [|done]. destruct Hl as (Hlen & Hn & Hc). destruct l as [|c l]; [done|].
    apply not_elem_of_cons in Hn as [_ Hn], Hc as [_ Hc].
    split_and!; [done| |]; by apply not_elem_of_cons.
  - apply fmap_Some in H as (ls1 & H & ->). constructor; auto.
Qed.

Lemma loop_fuel ls z : data z = file_of ls → length ls < S (length (data z)).
Proof. intros ->. pose proof (file_of_length ls). lia. Qed.

(** The end of zoo_mark(): the lock is released, or the call fails. *)
Lemma mark_unlock strerror ls z :
  zoo_file ls z →
  ∃ r z', (let '(r, z) := zoo_unlock strerror true z in
           Done (if decide (r ≠ 0%Z) then (-1)%Z else 0%Z, z)) = Done (r, z') ∧
    zoo_file ls z' ∧ (r = 0%Z ∧ locked z' = false ∨ r = (-1)%Z) ∧
    (answers z = [] → r = 0%Z ∧ answers z' = []).
Proof.
  intros [Hd Hls]. unfold zoo_unlock.
  destruct (zoo_setlk_spec strerror false "failed to lock zoo file" z) as (r & z' & -> & Hd' & Hr & Hu & _).
  eexists _, _. split_and!; [done|by split; [rewrite Hd'|]| |].
  - destruct Hr as [[-> ?]|[-> ?]]; auto.
  - intros Ha. unfold undisturbed in Hu. rewrite Ha in Hu. by destruct (Hu (Forall_nil_2 _)) as [-> ?].
Qed.

(** Every run of zoo_mark() on a zoo file. *)
Lemma zoo_mark_run strerror entry ls z :
  zoo_file ls z → NEWLINE ∉ entry → cstring entry →
  ∃ r z', zoo_mark strerror true entry z = Done (r, z') ∧
    (r = 0%Z ∧ zoo_file (mark_line entry ls) z' ∧ locked z' = false ∨
     r = (-1)%Z ∧ (zoo_file ls z' ∨ zoo_file (mark_line entry ls) z')) ∧
    (undisturbed z → r = 0%Z ∧ answers z' = []).
Proof.
  intros [Hd Hls] Hn Hc. pose proof (mark_line_file entry ls Hn Hc Hls) as Hmls.
  unfold zoo_mark, zoo_lock. cbn [negb].
  destruct (zoo_setlk_spec strerror true "failed to unlock zoo file" z)
    as (r1 & z1 & -> & Hd1 & Hr1 & Hu1 & _). rewrite Hd in Hd1. case_decide as He1.
  { eexists _, _. split_and!; [done|by right; split; [|left]|].
    intros Hu. by apply Hu1 in Hu as [? _]. }
  destruct (mark_loop_spec strerror entry ls [] (set_pos 0 z1) (S (length (data z1))))
    as (r2 & z2 & -> & _ & Hu2 & H2); [done|done|done|by apply loop_fuel|].
  cbn [mbind outcome_bind]. cbn [answers set_pos data] in *.
  destruct r2 as [[|]|].
  - destruct (mark_unlock strerror (mark_line entry ls) z2) as (r & z' & -> & Hf & Hr & Hu);
      [by destruct H2|]. exists r, z'. split_and!; [done|naive_solver|naive_solver].
  - destruct H2 as [-> Hfull]. cbn [data set_pos]. set (z2 := set_pos _ _) in *.
    pose proof (fseek_spec (length (data z1)) z2) as Hs.
    destruct (fseek _ z2) as [e z4]. destruct Hs as (Hd4 & _ & Hp4 & Hn4 & _). case_decide as He.
    + eexists _, _. split_and!; [done| |naive_solver].
      right. split; [done|left]. split; [|done]. simpl. by rewrite Hd4.
    + destruct (mark_unlock strerror (mark_line entry ls) (fwrite (pad 79 entry ++ [NEWLINE]) z4))
        as (r & z' & -> & Hf & Hr & Hu).
      { split; [|done]. rewrite mark_line_full by done. apply fwrite_end; [by rewrite Hd4|].
        rewrite <-Hd1. by apply Hp4. }
      change (answers (fwrite _ z4)) with (answers z4) in Hu.
      exists r, z'. split_and!; [done|naive_solver|naive_solver].
  - eexists _, _. split_and!; [done| |naive_solver].
    right. split; [done|left]. split; [by rewrite H2|done].
Qed.

(** Every run of zoo_clear() on a zoo file. *)
Lemma zoo_clear_run strerror p ls z :
  zoo_file ls z →
  ∃ r z', zoo_clear strerror true p z = Done (r, z') ∧
    match clear_line p ls with
    | Some ls' => r = 0%Z ∧ zoo_file ls' z' ∧ locked z' = false ∨
                  r = (-1)%Z ∧ (zoo_file ls z' ∨ zoo_file ls' z')
    | None => zoo_file ls z' ∧ (r = 1%Z ∧ locked z' = false ∨ r = (-1)%Z)
    end ∧
    (undisturbed z → r = (if clear_line p ls then 0 else 1)%Z ∧ answers z' = []).
Proof.
  intros [Hd Hls]. unfold zoo_clear, zoo_lock, zoo_unlock. cbn [negb].
  destruct (zoo_setlk_spec strerror true "failed to unlock zoo file" z)
    as (r1 & z1 & -> & Hd1 & Hr1 & Hu1 & _). rewrite Hd in Hd1. case_decide as He1.
  { eexists _, _. split_and!; [done| |naive_solver].
    destruct (clear_line p ls); [by right; split; [|left]|by split; [|right]]. }
  destruct (clear_loop_spec strerror p ls [] (set_pos 0 z1) (S (length (data z1))))
    as (r2 & z2 & -> & _ & Hu2 & H2); [done|done|done|by apply loop_fuel|].
  cbn [mbind outcome_bind]. cbn [answers set_pos data app] in *.
  destruct r2 as [found|].
  - destruct (zoo_setlk_spec strerror false "failed to lock zoo file" z2) as (r3 & z3 & -> & Hd3 & Hr3 & Hu3 & _).
    assert (undisturbed z → r3 = 0%Z ∧ answers z3 = []) as Hu.
    { intros Hu. apply Hu3. unfold undisturbed. destruct (Hu1 Hu) as [_ Ha].
      by rewrite (proj2 (Hu2 Ha)). }
    destruct found; [destruct H2 as (ls' & Hcl & H2)|destruct H2 as [H2 Hcl]]; rewrite Hcl.
    + pose proof (clear_line_file _ _ _ Hcl Hls).
      assert (zoo_file ls' z3) by (split; [by rewrite Hd3|done]).
      case_decide; eexists _, _; (split; [done|]); naive_solver.
    + assert (zoo_file ls z3) by (split; [by rewrite Hd3, H2|done]).
      case_decide; eexists _, _; (split; [done|]); naive_solver.
  - eexists _, _. split_and!; [done| |naive_solver].
    destruct (clear_line p ls); [right; split; [done|left]|split; [|by right]]; by split; [rewrite H2|].
Qed.

(** A search on a zoo file when the calls are at most interrupted. *)
Lemma zoo_getpid_run strerror tag ls z :
  zoo_file ls z → NEWLINE ∉ tag → undisturbed z →
  ∃ z', zoo_getpid strerror true tag z = Done (find_tag tag ls, z') ∧ zoo_file ls z' ∧ answers z' = [].
Proof.
  intros [Hd Hls] Hn Hu. unfold zoo_getpid, zoo_lock, zoo_unlock. cbn [negb].
  destruct (zoo_setlk_spec strerror true "failed to unlock zoo file" z)
    as (r1 & z1 & -> & Hd1 & _ & Hu1 & _). rewrite Hd in Hd1. destruct (Hu1 Hu) as [-> Ha].
  rewrite decide_False by auto.
  destruct (getpid_loop_spec tag ls Hn [] (set_pos 0 z1) (S (length (data z1)))) as [q ->];
    [done|done|done|by apply loop_fuel|].
  cbn [mbind outcome_bind]. set (z2 := set_pos _ _).
  destruct (zoo_setlk_spec strerror false "failed to lock zoo file" z2) as (r3 & z3 & -> & Hd3 & _ & Hu3 & _).
  unfold undisturbed in Hu3. change (answers z2) with (answers z1) in Hu3. rewrite Ha in Hu3.
  destruct (Hu3 (Forall_nil_2 _)) as [-> ?]. eexists. split_and!; [done| |done]. split; [|done].
  by rewrite Hd3.
Qed.

(** ** Entries *)

Lemma digit_char_ne d c : (0 ≤ d < 10)%Z → parse_digit c = None → digit_char d ≠ c.
Proof. intros Hd Hc <-. by rewrite parse_digit_char in Hc by lia. Qed.

Lemma print_d_not_elem p c : c ≠ "-"%char → parse_digit c = None → c ∉ print_d p.
Proof.
  intros Hm Hc Hin. assert (Forall (λ d, d ≠ c) (print_d p)) as Hall
    by (apply print_d_forall; [done|intros; by apply digit_char_ne]).
  rewrite Forall_forall in Hall. by apply (Hall c).
Qed.

Lemma new_entry_line p tag cmdline c :
  c ≠ "-"%char → c ≠ ","%char → parse_digit c = None → c ∉ tag → c ∉ cmdline → c ∉ new_entry p tag cmdline.
Proof.
  intros Hm Hc Hp Ht Hl Hin. unfold new_entry, snprintf in Hin.
  apply elem_of_take in Hin as (i & Hin & _). apply list_elem_of_lookup_2 in Hin.
  rewrite elem_of_app, elem_of_cons, elem_of_app, elem_of_cons in Hin.
  destruct Hin as [H|[|[|[|]]]]; try done. by apply print_d_not_elem in H.
Qed.

(** An entry whose pid and tag fit keeps them. *)
Lemma pad_new_entry p tag cmdline :
  length (print_d p) + 1 + length tag ≤ 79 →
  ∃ t, pad 79 (new_entry p tag cmdline) = print_d p ++ ","%char :: tag ++ t.
Proof.
  intros Hlen. unfold pad, new_entry, snprintf. rewrite take_take, Nat.min_id.
  replace (take 79 _) with (print_d p ++ ","%char :: tag ++
    take (79 - (length (print_d p) + 1 + length tag)) (","%char :: cmdline)).
  { rewrite <-app_assoc. simpl. rewrite <-app_assoc. eauto. }
  rewrite (take_app_ge (print_d p)) by lia. f_equal.
  destruct (79 - length (print_d p)) as [|k] eqn:E; [lia|]. cbn [take]. f_equal.
  rewrite take_app_ge by lia. do 2 f_equal. lia.
Qed.

(** The line of an entry is in use, has the tag and carries the pid. *)
Lemma entry_line p tag cmdline :
  is_i32 p → length (print_d p) + 1 + length tag ≤ 79 →
  is_free (pad 79 (new_entry p tag cmdline)) = false ∧
  (∀ t1 t2, tag = t1 ++ t2 → has_tag t1 (pad 79 (new_entry p tag cmdline)) = true) ∧
  atoi (pad 79 (new_entry p tag cmdline)) = p.
Proof.
  intros Hp Hlen. destruct (pad_new_entry p tag cmdline Hlen) as [t ->].
  assert (is_free (print_d p ++ ","%char :: tag ++ t) = false) as Hf.
  { unfold is_free. apply bool_decide_false. intros H.
    apply (print_d_not_elem p "#"%char); [done|done|].
    pose proof (print_d_nonempty p). destruct (print_d p) as [|c l]; [done|].
    cbn in H. subst. constructor. }
  split_and!; [done| |].
  - intros t1 t2 ->. unfold has_tag. rewrite Hf, index_of_first by by apply print_d_not_elem. cbn [negb andb].
    rewrite drop_app_ge by lia. replace (S _ - _) with 1 by lia. cbn [drop].
    rewrite <-app_assoc. apply starts_with_app.
  - by apply atoi_print_d.
Qed.

Lemma find_tag_mark tag entry ls :
  Forall (λ l, has_tag tag l = false) ls → has_tag tag (pad 79 entry) = true →
  find_tag tag (mark_line entry ls) = atoi (pad 79 entry).
Proof.
  intros Hls He. induction Hls as [|l ls Hl _ IH]; simpl; [by rewrite He|].
  destruct (is_free l); simpl; [by rewrite He|by rewrite Hl].
Qed.

Lemma find_tag_none tag ls : Forall (λ l, has_tag tag l = false) ls → find_tag tag ls = (-1)%Z.
Proof. induction 1 as [|l ls Hl _ IH]; simpl; [done|]. by rewrite Hl. Qed.

(** Clearing a fresh entry leaves no line with its tag. *)
Lemma clear_mark tag entry p ls :
  Forall (λ l, is_free l = true ∨ atoi l ≠ p) ls → Forall (λ l, has_tag tag l = false) ls →
  is_free (pad 79 entry) = false → atoi (pad 79 entry) = p →
  ∃ ls', clear_line p (mark_line entry ls) = Some ls' ∧ Forall (λ l, has_tag tag l = false) ls'.
Proof.
  intros Hpid Htag Hfree <-.
  assert (has_tag tag ("#"%char :: tail (pad 79 entry)) = false) as Hh by done.
  induction Htag as [|l ls Hl Hls IH]; simpl.
  { rewrite Hfree, bool_decide_true by done. simpl. eexists. split; [done|]. by repeat constructor. }
  apply Forall_cons in Hpid as [Hp Hpid]. destruct (is_free l) eqn:El; simpl.
  - rewrite Hfree, bool_decide_true by done. simpl. eexists. split; [done|]. by constructor.
  - rewrite El, bool_decide_false by naive_solver. simpl. destruct (IH Hpid) as (ls' & -> & ?).
    eexists. split; [done|]. by constructor.
Qed.

(** ** Properties *)

(** C31: An entry is made by first fit: zoo_mark_cmdline() on a zoo file replaces
    the first free line, or appends one, with "pid,tag,cmdline" cut or padded to
    the line width, keeps every other line and the format of the file, and
    releases the lock; when it fails, the file still has the format and holds
    either the old lines or the old lines with the entry.  It does not fail when
    its calls are at most interrupted. *)
Theorem zoo_mark_cmdline_first_fit strerror p tag cmdline ls z :
  zoo_file ls z → NEWLINE ∉ tag ++ cmdline → cstring (tag ++ cmdline) →
  let ls' := mark_line (new_entry p tag cmdline) ls in
  ∃ r z', zoo_mark_cmdline strerror true p tag cmdline z = Done (r, z') ∧
    (r = 0%Z ∧ zoo_file ls' z' ∧ locked z' = false ∨
     r = (-1)%Z ∧ (zoo_file ls z' ∨ zoo_file ls' z')) ∧
    (undisturbed z → r = 0%Z).
Proof.
  intros Hz Hn Hc ls'. unfold cstring in Hc. apply not_elem_of_app in Hn as [Hn1 Hn2], Hc as [Hc1 Hc2].
  destruct (zoo_mark_run strerror (new_entry p tag cmdline) ls z) as (r & z' & H & Hr & Hu);
    [done|by apply new_entry_line|by apply new_entry_line|].
  exists r, z'. split_and!; [done|done|naive_solver].
Qed.

(** zoo_clear() frees the first line in use that carries the pid by writing
    a '#' over its first character, and changes nothing else; without such a line
    it returns 1 and leaves the file as it is.  Every run ends with a file in the
    zoo format, and one that is at most interrupted does not fail. *)
Theorem zoo_clear_frees strerror p ls z :
  zoo_file ls z →
  ∃ r z', zoo_clear strerror true p z = Done (r, z') ∧
    match clear_line p ls with
    | Some ls' => r = 0%Z ∧ zoo_file ls' z' ∧ locked z' = false ∨
                  r = (-1)%Z ∧ (zoo_file ls z' ∨ zoo_file ls' z')
    | None => zoo_file ls z' ∧ (r = 1%Z ∧ locked z' = false ∨ r = (-1)%Z)
    end ∧
    (undisturbed z → r = (if clear_line p ls then 0 else 1)%Z).
Proof.
  intros Hz. destruct (zoo_clear_run strerror p ls z Hz) as (r & z' & H & Hr & Hu).
  exists r, z'. split_and!; [done|done|naive_solver].
Qed.

(** C33: The life of an entry, when no call fails: after zoo_mark_cmdline() of a pid
    that no line in use has, with a tag that no line in use starts with behind its pid,
    zoo_getpid() of the tag gives the pid; zoo_clear() of the pid succeeds, and then
    zoo_getpid() finds nothing and gives -1.  The pid and the tag fit into a line of 79
    characters. *)
Theorem zoo_mark_getpid_clear strerror p tag cmdline ls z :
  zoo_file ls z → undisturbed z → is_i32 p →
  NEWLINE ∉ tag ++ cmdline → cstring (tag ++ cmdline) →
  length (print_d p) + 1 + length tag ≤ 79 →
  Forall (λ l, is_free l = true ∨ atoi l ≠ p) ls → Forall (λ l, has_tag tag l = false) ls →
  ∃ z1 z2 z3 z4,
    zoo_mark_cmdline strerror true p tag cmdline z = Done (0%Z, z1) ∧
    zoo_getpid strerror true tag z1 = Done (p, z2) ∧
    zoo_clear strerror true p z2 = Done (0%Z, z3) ∧
    zoo_getpid strerror true tag z3 = Done ((-1)%Z, z4).
Proof.
  intros Hz Hu Hp Hn Hc Hlen Hpid Htag. unfold cstring in Hc. apply not_elem_of_app in Hn as [Hn1 Hn2], Hc as [Hc1 Hc2].
  destruct (entry_line p tag cmdline Hp Hlen) as (Hf & Ht & Ha). specialize (Ht tag [] (eq_sym (app_nil_r _))).
  destruct (zoo_mark_run strerror (new_entry p tag cmdline) ls z) as (r & z1 & H1 & Hr & Hu1);
    [done|by apply new_entry_line|by apply new_entry_line|].
  destruct (Hu1 Hu) as [-> Ha1]. destruct Hr as [(_ & Hz1 & _)|[? _]]; [|done].
  assert (∀ z, answers z = [] → undisturbed z) as Hud by (intros ? E; unfold undisturbed; by rewrite E).
  destruct (zoo_getpid_run strerror tag _ z1 Hz1 Hn1 (Hud _ Ha1)) as (z2 & H2 & Hz2 & Ha2).
  rewrite find_tag_mark, Ha in H2 by done.
  destruct (clear_mark tag _ p ls Hpid Htag Hf Ha) as (ls' & Hcl & Htag').
  destruct (zoo_clear_run strerror p _ z2 Hz2) as (r3 & z3 & H3 & Hr3 & Hu3). rewrite Hcl in Hr3, Hu3.
  destruct (Hu3 (Hud _ Ha2)) as [-> Ha3]. destruct Hr3 as [(_ & Hz3 & _)|[? _]]; [|done].
  destruct (zoo_getpid_run strerror tag _ z3 Hz3 Hn1 (Hud _ Ha3)) as (z4 & H4 & _).
  rewrite find_tag_none in H4 by done. by exists z1, z2, z3, z4.
Qed.

(** A failing seek makes zoo_mark() return -1 with the file unchanged but the
    lock still held: no other process can use the zoo until this one ends. *)
Theorem zoo_mark_seek_error_locked strerror entry ls z e :
  zoo_file ls z → answers z = [0%Z; e] → e ≠ 0%Z →
  ∃ z', zoo_mark strerror true entry z = Done ((-1)%Z, z') ∧ data z' = data z ∧ locked z' = true.
Proof.
  intros [Hd Hls] Ha He. unfold zoo_mark, zoo_lock. cbn [negb].
  destruct (zoo_setlk_spec strerror true "failed to unlock zoo file" z)
    as (r1 & z1 & -> & Hd1 & Hr1 & _ & Ha1). destruct (Ha1 _ Ha) as [-> Ha1'].
  destruct Hr1 as [[_ Hk1]|[? _]]; [|done]. rewrite decide_False by auto.
  destruct (mark_loop_spec strerror entry ls [] (set_pos 0 z1) (S (length (data z1))))
    as (r2 & z2 & -> & Hk2 & _ & H2);
    [by simpl; rewrite Hd1|done|done|apply loop_fuel; by rewrite Hd1|].
  cbn [mbind outcome_bind]. cbn [answers set_pos data locked] in *. destruct r2 as [[|]|].
  - by apply proj2 in H2; specialize (H2 _ _ Ha1').
  - destruct H2 as [-> _]. cbn [data set_pos]. set (z2 := set_pos _ _) in *.
    pose proof (fseek_spec (length (data z1)) z2) as Hs. destruct (fseek _ z2) as [e' z4].
    destruct Hs as (Hd4 & Hk4 & _ & _ & Ha4). destruct (Ha4 _ _ Ha1') as [-> _].
    rewrite decide_True by done. eexists. split_and!; [done| |].
    + simpl. rewrite Hd4. simpl. done.
    + simpl. rewrite Hk4. done.
  - exists z2. split_and!; [done|by rewrite H2|by rewrite Hk2].
Qed.

(** A tag is found by every prefix of it. *)
Lemma zoo_getpid_prefix strerror p t1 t2 cmdline ls z :
  zoo_file (mark_line (new_entry p (t1 ++ t2) cmdline) ls) z → undisturbed z → is_i32 p →
  NEWLINE ∉ t1 → length (print_d p) + 1 + length (t1 ++ t2) ≤ 79 →
  Forall (λ l, has_tag t1 l = false) ls →
  ∃ z', zoo_getpid strerror true t1 z = Done (p, z').
Proof.
  intros Hz Hu Hp Hn Hlen Htag. destruct (entry_line p _ cmdline Hp Hlen) as (_ & Ht & Ha).
  destruct (zoo_getpid_run strerror t1 _ z Hz Hn Hu) as (z' & H & _).
  rewrite find_tag_mark, Ha in H by eauto. eauto.
Qed.

(** ** The command line of an argument vector *)

Fixpoint spaced (argv : list (list ascii)) : list ascii :=
  match argv with [] => [] | s :: argv' => " "%char :: s ++ spaced argv' end.

(** The bytes [cat_args] needs: each argument and a separator or terminator. *)
Fixpoint args_size (argv : list (list ascii)) : nat :=
  match argv with [] => 0 | s :: argv' => length s + 1 + args_size argv' end.

Lemma cat_size_ok argv acc :
  (0 ≤ acc)%Z → (acc + Z.of_nat (args_size argv) ≤ INT_MAX)%Z →
  cat_size acc argv = Done (acc + Z.of_nat (args_size argv))%Z.
Proof.
  revert acc. induction argv as [|s argv IH]; intros acc Ha Hm; cbn [cat_size args_size] in *.
  { f_equal. lia. }
  rewrite wrap32_small, i32_ok by clia. cbn [mbind outcome_bind].
  rewrite IH by lia. f_equal. lia.
Qed.

Lemma cat_loop_ok size a cmd argv :
  a ≠ 0 → length cmd + args_size argv < size → cat_loop size a cmd argv = Done (cmd ++ spaced argv).
Proof.
  revert a cmd. induction argv as [|s argv IH]; intros a cmd Ha Hs; cbn [cat_loop spaced args_size] in *.
  { by rewrite app_nil_r. }
  rewrite decide_True by done. unfold strcat.
  rewrite decide_True by (rewrite length_app; simpl; lia). cbn [mbind outcome_bind].
  rewrite decide_True by (rewrite !length_app; simpl; lia). cbn [mbind outcome_bind].
  rewrite IH by (rewrite ?length_app; simpl; lia). by rewrite <-!app_assoc.
Qed.

(** cat_args() joins the arguments with single spaces in a buffer that its
    first loop sized exactly; an empty vector makes it write outside the buffer. *)
Theorem cat_args_join s argv :
  (Z.of_nat (args_size (s :: argv)) ≤ INT_MAX)%Z →
  cat_args (s :: argv) = Done (Some (s ++ spaced argv)) ∧
  length (s ++ spaced argv) + 1 = args_size (s :: argv) ∧
  cat_args [] = Fault.
Proof.
  intros Hm. split_and!; [| |done].
  - unfold cat_args. rewrite cat_size_ok by lia. cbn [mbind outcome_bind].
    rewrite !decide_False by (cbn [args_size]; lia).
    rewrite Z.add_0_l, Nat2Z.id. cbn [cat_loop args_size]. rewrite decide_False by auto.
    cbn [mbind outcome_bind]. unfold strcat. rewrite decide_True by (simpl; lia).
    cbn [mbind outcome_bind app]. by rewrite cat_loop_ok by lia.
  - clear Hm. rewrite length_app. cbn [args_size].
    assert (length (spaced argv) = args_size argv) as ->; [|lia].
    induction argv as [|t argv IH]; simpl; [done|]. rewrite length_app. lia.
Qed.

(** ** Witnesses *)

#[export] Instance zoo_line_dec l : Decision (zoo_line l).
Proof. unfold zoo_line. apply _. Defined.
#[export] Instance zoo_file_dec ls z : Decision (zoo_file ls z).
Proof. unfold zoo_file. apply _. Defined.
#[export] Instance undisturbed_dec z : Decision (undisturbed z).
Proof. unfold undisturbed. apply _. Defined.

Definition ex_lines : list (list ascii) :=
  [pad 79 (chars "7,pan,ltp-pan -n pan"); pad 79 (chars "#12,old,gone"); pad 79 (chars "9,net,ping")].
Definition ex_zoo (a : list Z) : zoo := Zoo (file_of ex_lines) 0 true false [] a [].

Lemma zoo_mark_cmdline_first_fit_witness :
  ∃ r z', zoo_mark_cmdline (λ _, []) true 31 (chars "fs") (chars "fsx") (ex_zoo [EINTR; EINTR]) = Done (r, z') ∧
    r = 0%Z.
Proof.
  destruct (zoo_mark_cmdline_first_fit (λ _, []) 31 (chars "fs") (chars "fsx") ex_lines (ex_zoo [EINTR; EINTR]))
    as (r & z' & H & _ & Hu); [by_decide|by_decide|by_decide|].
  exists r, z'. split; [exact H|]. apply Hu. by_decide.
Defined.

Lemma zoo_clear_frees_witness :
  ∃ r z', zoo_clear (λ _, []) true 9 (ex_zoo []) = Done (r, z') ∧ r = 0%Z.
Proof.
  destruct (zoo_clear_frees (λ _, []) 9 ex_lines (ex_zoo [])) as (r & z' & H & _ & Hu); [by_decide|].
  exists r, z'. split; [exact H|]. rewrite Hu by by_decide. by vm_compute.
Defined.

Lemma zoo_mark_getpid_clear_witness :
  ∃ z1 z2 z3 z4,
    zoo_mark_cmdline (λ _, []) true 31 (chars "fs") (chars "fsx") (ex_zoo []) = Done (0%Z, z1) ∧
    zoo_getpid (λ _, []) true (chars "fs") z1 = Done (31%Z, z2) ∧
    zoo_clear (λ _, []) true 31 z2 = Done (0%Z, z3) ∧
    zoo_getpid (λ _, []) true (chars "fs") z3 = Done ((-1)%Z, z4).
Proof.
  apply (zoo_mark_getpid_clear (λ _, []) 31 (chars "fs") (chars "fsx") ex_lines (ex_zoo [])); by_decide.
Defined.

Lemma zoo_mark_seek_error_locked_witness :
  ∃ z', zoo_mark (λ _, []) true (chars "31,fs,fsx") (ex_zoo [0%Z; 5%Z]) = Done ((-1)%Z, z') ∧
    data z' = data (ex_zoo [0%Z; 5%Z]) ∧ locked z' = true.
Proof.
  apply (zoo_mark_seek_error_locked (λ _, []) (chars "31,fs,fsx") ex_lines (ex_zoo [0%Z; 5%Z]) 5);
    [by_decide|reflexivity|by_decide].
Defined.

Lemma cat_args_join_witness :
  cat_args [chars "ping"; chars "-c"; chars "3"] = Done (Some (chars "ping -c 3")).
Proof.
  apply (cat_args_join (chars "ping") [chars "-c"; chars "3"]). by_decide.
Defined.
