(* ===== verification/PanColl.v ===== *)
(** * The command collection of ltp-pan (pan/ltp-pan.c)

    Reading the command file into the list of tagged commands, the command given
    as arguments, and the replacement of %f by a unique name. *)
From stdpp Require Import base strings numbers option list.
From Stdlib Require Import Ascii.
From S2P Require Import Prelude CInt CText Zoo.

(** ** Data *)

(** [pcnt_f] points to the %s in the line; only whether it is set is used. *)
Record coll_entry := CollEntry {
  name : list ascii;
  cmdline : list ascii;
  pcnt_f : bool;
}.

#[export] Instance coll_entry_eq_dec : EqDecision coll_entry.
Proof. solve_decision. Defined.

(** ** The command file *)

(** What open(), fstat() and read() give; [None] is a failure of one of them.
    The buffer is used as a C string. *)
Definition slurp (content : option (list ascii)) : option (list ascii) := cstr <$> content.

(** [p = strstr(a, "%f")] and [p[1] = 's']. *)
Fixpoint subst_f (a : list ascii) : list ascii * bool :=
  match a with
  | [] => ([], false)
  | c :: a' =>
      if starts_with (chars "%f") a then (c :: "s"%char :: tail a', true)
      else let '(r, b) := subst_f a' in (c :: r, b)
  end.

Definition is_blank (c : ascii) : bool := bool_decide (c = " "%char ∨ c = TAB).
Definition not_blank (c : ascii) : bool := negb (is_blank c).

(** strsep(&a, " \t"): the field, and what is behind its separator if any. *)
Definition strsep (a : list ascii) : list ascii * option (list ascii) :=
  (take_while not_blank a,
   match drop_while not_blank a with [] => None | _ :: a' => Some a' end).

(** A line that is neither empty nor a comment nor indented. *)
Definition is_entry (a : list ascii) : bool :=
  bool_decide (char_at a 0 ≠ "#"%char ∧ char_at a 0 ≠ NUL ∧ char_at a 0 ≠ " "%char).

(** The entry of a line; [None] if the command is missing. *)
Definition parse_line (a : list ascii) : option coll_entry :=
  let '(a, pcnt_f) := subst_f a in
  let '(name, a) := strsep a in
  match a with
  | None => None
  | Some a =>
      match drop_while isspace a with
      | [] => None
      | cmdline => Some (CollEntry name cmdline pcnt_f)
      end
  end.

(** [strchr(a, '\n')]: the line and the start of the next one. *)
Fixpoint cut_line (a : list ascii) : list ascii * option (list ascii) :=
  match a with
  | [] => ([], None)
  | c :: a' =>
      if decide (c = NEWLINE) then ([], Some a')
      else let '(l, b) := cut_line a' in (c :: l, b)
  end.

(** The loop over the lines. *)
Fixpoint read_lines (fuel : nat) (a : list ascii) (coll : list coll_entry) : outcome (option (list coll_entry)) :=
  match fuel with
  | O => Timeout
  | S fuel' =>
      let '(line, b) := cut_line a in
      let next coll := match b with None => Done (Some coll) | Some b => read_lines fuel' b coll end in
      if is_entry line then
        match parse_line line with
        | None => Done None
        | Some n => next (coll ++ [n])
        end
      else next coll
  end.

(** strncat() into [workstr]: a negative count is a huge one. *)
Definition WORKSTR : nat := 1024.
Definition strncat (dest src : list ascii) (n : Z) : outcome (list ascii) :=
  let s := if decide (n < 0)%Z then src else take (Z.to_nat n) src in
  if decide (length (dest ++ s) < WORKSTR) then Done (dest ++ s) else Fault.

(** The arguments behind the options. *)
Fixpoint fill_args (argv : list (list ascii)) (workstr : list ascii) (left : Z) : outcome (list ascii) :=
  match argv with
  | [] => Done workstr
  | arg :: argv' =>
      workstr ← strncat workstr arg left;
      let left := wrap32 (left - Z.of_nat (length arg)) in
      workstr ← strncat workstr [" "%char] left;
      left ← i32 (left - 1);
      fill_args argv' workstr left
  end.

(** The collection as its array; [None] is the NULL result. *)
Definition get_collection (content : option (list ascii)) (argv : list (list ascii)) :
    outcome (option (list coll_entry)) :=
  match slurp content with
  | None => Done None
  | Some buf =>
      coll ← read_lines (S (length buf)) buf [];
      match coll, argv with
      | None, _ => Done None
      | Some coll, [] => Done (Some coll)
      | Some coll, _ =>
          workstr ← fill_args argv [] 1023;
          let '(workstr, pcnt_f) := subst_f workstr in
          Done (Some (coll ++ [CollEntry (chars "cmdln") workstr pcnt_f]))
      end
  end.

(** ** Unique names *)

(** The conversions of a format that is given one string; any other conversion
    reads an argument that does not exist. *)
Fixpoint format (fmt : list ascii) (arg : option (list ascii)) : outcome (list ascii) :=
  match fmt with
  | [] => Done []
  | c :: fmt' =>
      if decide (c = "%"%char) then
        match fmt', arg with
        | d :: fmt'', _ =>
            if decide (d = "%"%char) then r ← format fmt'' arg; Done (d :: r)
            else if decide (d = "s"%char) then
              a ← load arg; r ← format fmt'' None; Done (a ++ r)
            else Fault
        | [], _ => Fault
        end
      else r ← format fmt' arg; Done (c :: r)
  end.

(** The command with the new name, and the counter. *)
Definition subst_pcnt_f (pid : Z) (colle : coll_entry) (counter : Z) : outcome (list ascii * Z) :=
  if negb (pcnt_f colle) then Done (cmdline colle, counter)
  else
    let pid_and_counter := snprintf 20 (print_d pid ++ "_"%char :: print_d counter) in
    counter ← i32 (counter + 1);
    new_cmdline ← format (cmdline colle) (Some pid_and_counter);
    Done (snprintf 1024 new_cmdline, counter).

(** ** Command files *)

(** The lines of a command file: a line that is skipped, a tag with its command,
    a tag whose command is missing. *)
Inductive item :=
  | Skipped (text : list ascii)
  | Entry (nm : list ascii) (sep : ascii) (gap cmd : list ascii)
  | Missing (nm : list ascii) (blanks : list ascii).

Definition item_text (i : item) : list ascii :=
  match i with
  | Skipped t => t
  | Entry nm sep gap cmd => nm ++ sep :: gap ++ cmd
  | Missing nm bl => nm ++ bl
  end.

(** A tag: no blank in it, no %f, and it does not look like a comment. *)
Definition good_name (nm : list ascii) : Prop :=
  is_entry nm = true ∧ Forall not_blank nm ∧ subst_f nm = (nm, false).

Definition good_item (i : item) : Prop :=
  NEWLINE ∉ item_text i ∧ NUL ∉ item_text i ∧
  match i with
  | Skipped t => is_entry t = false
  | Entry nm sep gap cmd =>
      good_name nm ∧ is_blank sep = true ∧ Forall isspace gap ∧ cmd ≠ [] ∧ isspace (char_at cmd 0) = false
  | Missing nm bl => good_name nm ∧ (∀ c t, bl = c :: t → is_blank c = true) ∧ Forall isspace bl
  end.

(** The collection of the lines; [None] when a command is missing. *)
Fixpoint collect (items : list item) : option (list coll_entry) :=
  match items with
  | [] => Some []
  | Skipped _ :: its => collect its
  | Entry nm _ _ cmd :: its =>
      es ← collect its; Some (CollEntry nm (subst_f cmd).1 (subst_f cmd).2 :: es)
  | Missing _ _ :: _ => None
  end.

(** Every line ends with a newline. *)
Definition file_text (items : list item) : list ascii := file_of (item_text <$> items).

Lemma cut_line_newline l rest : NEWLINE ∉ l → cut_line (l ++ NEWLINE :: rest) = (l, Some rest).
Proof.
  induction l as [|c l IH]; intros Hl; simpl; [done|].
  apply not_elem_of_cons in Hl as [Hc Hl]. by rewrite decide_False, IH by auto.
Qed.

Lemma is_blank_space c : is_blank c = true → isspace c = true.
Proof. intros H. apply bool_decide_eq_true in H as [->| ->]; done. Qed.

Lemma starts_with_f c t : starts_with (chars "%f") (c :: t) = true → ∃ t', c = "%"%char ∧ t = "f"%char :: t'.
Proof.
  unfold starts_with. intros H. apply bool_decide_eq_true in H. destruct t as [|d t]; simpl in H; [done|].
  simplify_eq. eauto.
Qed.

Lemma starts_with_f_true t : starts_with (chars "%f") ("%"%char :: "f"%char :: t) = true.
Proof. by apply bool_decide_true. Qed.

Lemma subst_f_eq c a :
  subst_f (c :: a) = if starts_with (chars "%f") (c :: a) then (c :: "s"%char :: tail a, true)
                     else let '(r, b) := subst_f a in (c :: r, b).
Proof. done. Qed.

(** Replacing %f goes through a prefix that has none and a character that does not
    complete one. *)
Lemma subst_f_app nm c t :
  subst_f nm = (nm, false) → c ≠ "f"%char →
  subst_f (nm ++ c :: t) = (nm ++ (subst_f (c :: t)).1, (subst_f (c :: t)).2).
Proof.
  induction nm as [|d nm IH]; intros Hn Hc; [cbn [app]; by destruct (subst_f (c :: t))|].
  rewrite subst_f_eq in Hn. cbn [app]. rewrite subst_f_eq.
  destruct (starts_with _ (d :: nm ++ c :: t)) eqn:E.
  - apply starts_with_f in E as (t' & -> & E). destruct nm as [|x nm]; cbn [app] in E; simplify_eq.
  - destruct (starts_with _ (d :: nm)) eqn:E'.
    { apply starts_with_f in E' as (t' & -> & ->). cbn [app] in E.
      by rewrite starts_with_f_true in E. }
    destruct (subst_f nm) as [r b]. simplify_eq. by rewrite IH.
Qed.

Lemma subst_f_spaces gap t : Forall isspace gap → subst_f (gap ++ t) = (gap ++ (subst_f t).1, (subst_f t).2).
Proof.
  induction 1 as [|c gap Hc _ IH]; [cbn [app]; by destruct (subst_f t)|]. cbn [app]. rewrite subst_f_eq.
  destruct (starts_with _ _) eqn:E; [|by rewrite IH].
  apply starts_with_f in E as (t' & -> & _). done.
Qed.

Lemma subst_f_head t : char_at (subst_f t).1 0 = char_at t 0 ∧ (t ≠ [] → (subst_f t).1 ≠ []).
Proof.
  destruct t as [|c t]; [done|]. rewrite subst_f_eq. destruct (starts_with _ _); [done|].
  by destruct (subst_f t).
Qed.

Lemma strsep_name nm c t :
  Forall not_blank nm → is_blank c = true → strsep (nm ++ c :: t) = (nm, Some t).
Proof.
  intros Hn Hc. unfold strsep.
  destruct (take_while_app not_blank nm c t Hn) as [-> ->]; [by unfold not_blank; rewrite Hc|done].
Qed.

Lemma drop_while_spaces gap t : Forall isspace gap → isspace (char_at t 0) = false → drop_while isspace (gap ++ t) = t.
Proof.
  intros Hg Ht. induction Hg as [|c gap Hc _ IH]; simpl.
  - destruct t as [|c t]; [done|]. rewrite char_at_cons in Ht. simpl. by rewrite Ht.
  - by destruct (isspace c).
Qed.

Lemma parse_line_entry nm sep gap cmd :
  good_item (Entry nm sep gap cmd) →
  parse_line (nm ++ sep :: gap ++ cmd) = Some (CollEntry nm (subst_f cmd).1 (subst_f cmd).2).
Proof.
  intros (_ & _ & (_ & Hnb & Hf) & Hsep & Hgap & Hne & Hcmd). unfold parse_line.
  rewrite subst_f_app by (done || by intros ->).
  pose proof (subst_f_spaces (sep :: gap) cmd) as Hsp. cbn [app] in Hsp.
  rewrite Hsp by (constructor; [by rewrite is_blank_space|done]). cbn [fst snd app].
  rewrite strsep_name by done. destruct (subst_f_head cmd) as [Hh Hn].
  rewrite drop_while_spaces by (by rewrite ?Hh). destruct (subst_f cmd) as [[|c r] b]; cbn in *; [|done].
  by exfalso; apply Hn.
Qed.

Lemma parse_line_missing nm bl : good_item (Missing nm bl) → parse_line (nm ++ bl) = None.
Proof.
  intros (_ & _ & (_ & Hnb & Hf) & Hbl & Hsp). unfold parse_line. destruct bl as [|c bl].
  - rewrite app_nil_r, Hf. unfold strsep. by destruct (take_while_all _ _ Hnb) as [-> ->].
  - rewrite subst_f_app by (done || by intros ->; specialize (Hbl _ _ eq_refl)).
    pose proof (subst_f_spaces (c :: bl) [] Hsp) as H. rewrite app_nil_r in H. rewrite H.
    cbn [fst snd app]. rewrite app_nil_r, strsep_name by eauto.
    apply Forall_cons in Hsp as [_ Hsp]. by destruct (take_while_all _ _ Hsp) as [_ ->].
Qed.

Lemma is_entry_app nm t : nm ≠ [] → is_entry (nm ++ t) = is_entry nm.
Proof. by destruct nm. Qed.

Lemma good_name_nonempty nm : good_name nm → nm ≠ [].
Proof. intros [H _] ->. done. Qed.

Lemma read_lines_items items : ∀ fuel coll,
  Forall good_item items → length (file_text items) < fuel →
  read_lines fuel (file_text items) coll = Done ((λ es, coll ++ es) <$> collect items).
Proof.
  induction items as [|i items IH]; intros [|fuel] coll Hg Hf; try lia.
  { by cbn; rewrite app_nil_r. }
  apply Forall_cons in Hg as [Hi Hg]. unfold file_text in *. cbn [fmap list_fmap file_of] in *.
  rewrite <-app_assoc in *. cbn [app] in *. rewrite !length_app in Hf. cbn [length] in Hf.
  cbn [read_lines]. rewrite cut_line_newline by apply Hi.
  pose proof (λ coll, IH fuel coll Hg ltac:(lia)) as IH'. clear IH.
  destruct i as [t|nm sep gap cmd|nm bl]; cbn [item_text collect].
  - destruct Hi as (_ & _ & ->). by rewrite IH'.
  - rewrite parse_line_entry by done. destruct Hi as (_ & _ & Hn & _).
    rewrite is_entry_app by by apply good_name_nonempty. rewrite (proj1 Hn), IH'.
    destruct (collect items); cbn; [|done]. by rewrite <-app_assoc.
  - rewrite parse_line_missing by done. destruct Hi as (_ & _ & Hn & _).
    rewrite is_entry_app by by apply good_name_nonempty. by rewrite (proj1 Hn).
Qed.

(** ** The command in the arguments *)

Fixpoint trailing (argv : list (list ascii)) : list ascii :=
  match argv with [] => [] | s :: argv' => s ++ " "%char :: trailing argv' end.

Lemma trailing_length argv : length (trailing argv) = args_size argv.
Proof. induction argv as [|s argv IH]; simpl; [done|]. rewrite length_app. simpl. lia. Qed.

Lemma strncat_ok dest src n s :
  s = (if decide (n < 0)%Z then src else take (Z.to_nat n) src) → length dest + length s < 1024 →
  strncat dest src n = Done (dest ++ s).
Proof. intros -> Hl. unfold strncat, WORKSTR. by rewrite decide_True by (rewrite length_app; lia). Qed.

Lemma strncat_fault dest src n s :
  s = (if decide (n < 0)%Z then src else take (Z.to_nat n) src) → 1024 ≤ length dest + length s →
  strncat dest src n = Fault.
Proof. intros -> Hl. unfold strncat, WORKSTR. by rewrite decide_False by (rewrite length_app; lia). Qed.

(** Once the count is negative nothing limits strncat(). *)
Lemma fill_args_full arg argv dest :
  length dest = 1023 → (Z.of_nat (length arg) ≤ INT_MAX - 1)%Z → fill_args (arg :: argv) dest (-1) = Fault.
Proof.
  intros Hd Ha. cbn [fill_args]. destruct arg as [|c arg].
  - rewrite (strncat_ok dest [] (-1) []) by (simpl; done || lia). cbn [mbind outcome_bind].
    rewrite wrap32_small by (cbn; clia). rewrite app_nil_r.
    by rewrite (strncat_fault _ _ _ [" "%char]) by (simpl; done || lia).
  - by rewrite (strncat_fault _ _ _ (c :: arg)) by (simpl; done || lia).
Qed.

Lemma fill_args_spec argv : ∀ dest,
  length dest ≤ 1023 → (Z.of_nat (args_size argv) ≤ INT_MAX - 1)%Z →
  fill_args argv dest (1023 - Z.of_nat (length dest)) =
    if decide (length dest + args_size argv ≤ 1024) then Done (take 1023 (dest ++ trailing argv)) else Fault.
Proof.
  induction argv as [|s argv IH]; intros dest Hd Hm; cbn [fill_args args_size trailing] in *.
  { rewrite decide_True by lia. by rewrite app_nil_r, take_ge. }
  destruct (decide (length dest + length s ≤ 1023)) as [Hfit|Hfit].
  - rewrite (strncat_ok _ _ _ s); [|by rewrite decide_False, take_ge by lia|lia].
    cbn [mbind outcome_bind]. rewrite wrap32_small by clia.
    destruct (decide (length dest + length s = 1023)) as [Heq|Hne].
    + rewrite (strncat_ok _ _ _ []);
        [|rewrite decide_False by lia; by replace (Z.to_nat _) with 0 by lia|rewrite length_app; simpl; lia].
      rewrite app_nil_r.
      cbn [mbind outcome_bind]. rewrite i32_ok by clia. cbn [mbind outcome_bind].
      replace (1023 - _ - _ - 1)%Z with (-1)%Z by lia. destruct argv as [|t argv].
      * cbn [fill_args args_size trailing]. rewrite decide_True by lia.
        rewrite app_assoc, take_app_le by (rewrite length_app; lia). by rewrite take_ge by (rewrite length_app; lia).
      * cbn [args_size] in *. rewrite fill_args_full by (rewrite ?length_app; lia).
        by rewrite decide_False by lia.
    + rewrite (strncat_ok _ _ _ [" "%char]);
        [|by rewrite decide_False, take_ge by (simpl; lia)|rewrite length_app; simpl; lia].
      cbn [mbind outcome_bind]. rewrite i32_ok by clia. cbn [mbind outcome_bind].
      specialize (IH ((dest ++ s) ++ [" "%char])). rewrite !length_app in IH. cbn [length] in IH.
      replace (1023 - Z.of_nat (length dest) - Z.of_nat (length s) - 1)%Z
        with (1023 - Z.of_nat (length dest + length s + 1))%Z by lia.
      rewrite IH by lia. rewrite <-!app_assoc. repeat case_decide; done || lia.
  - rewrite (decide_False (P := _ ≤ 1024)) by lia.
    rewrite (strncat_ok _ _ _ (take (Z.to_nat (1023 - Z.of_nat (length dest))) s));
      [|by rewrite decide_False by lia|rewrite length_take; lia].
    cbn [mbind outcome_bind]. rewrite wrap32_small by clia.
    rewrite (strncat_fault _ _ _ [" "%char]);
      [done|by rewrite decide_True by lia|rewrite length_app, length_take; simpl; lia].
Qed.

(** ** Properties *)

(** C38: Reading a command file gives one entry for every line with a tag and a
    command, in order, with the first %f of the command turned into %s; comments,
    blank and indented lines are skipped, a tag without a command makes the result
    NULL, and a command given as arguments is appended under the tag cmdln. *)
Theorem get_collection_items items argv :
  Forall good_item items → args_size argv ≤ 1023 →
  get_collection (Some (file_text items)) argv = Done (
    es ← collect items;
    Some (es ++ match argv with
                | [] => []
                | _ => [CollEntry (chars "cmdln") (subst_f (trailing argv)).1 (subst_f (trailing argv)).2]
                end)).
Proof.
  intros Hg Ha. unfold get_collection, slurp. cbn [fmap option_fmap option_map].
  rewrite cstr_id.
  - rewrite read_lines_items by (done || lia). cbn [mbind outcome_bind].
    destruct (collect items) as [es|]; cbn; [|done]. destruct argv as [|s argv]; [by rewrite app_nil_r|].
    change 1023%Z with (1023 - Z.of_nat (length ([] : list ascii)))%Z.
    rewrite fill_args_spec by (cbn [length]; clia). rewrite decide_True by (cbn [length]; lia).
    cbn [mbind outcome_bind app]. rewrite take_ge by (rewrite trailing_length; lia).
    by destruct (subst_f _).
  - unfold cstring, file_text. clear Ha. induction Hg as [|i items (_ & Hn & _) _ IH]; [apply not_elem_of_nil|].
    cbn. rewrite !not_elem_of_app, list_elem_of_singleton. done.
Qed.

(** The arguments fit in the 1024 bytes of workstr up to a total of 1024
    characters with a space behind each of them, the last space being dropped
    when it is the one too many; any longer command line is written past the end
    of the array, because the count passed to strncat() becomes negative. *)
Theorem fill_args_exact argv :
  (Z.of_nat (args_size argv) ≤ INT_MAX - 1)%Z →
  fill_args argv [] 1023 =
    if decide (args_size argv ≤ 1024) then Done (take 1023 (trailing argv)) else Fault.
Proof.
  intros Hm. change 1023%Z with (1023 - Z.of_nat (length ([] : list ascii)))%Z.
  by rewrite fill_args_spec by (cbn [length]; clia).
Qed.

Lemma format_plain fmt arg : "%"%char ∉ fmt → format fmt arg = Done fmt.
Proof.
  induction fmt as [|c fmt IH]; intros Hf; cbn [format]; [done|].
  apply not_elem_of_cons in Hf as [Hc Hf]. by rewrite decide_False, IH by auto.
Qed.

Lemma format_plain_app pre fmt arg :
  "%"%char ∉ pre → format (pre ++ fmt) arg = r ← format fmt arg; Done (pre ++ r).
Proof.
  induction pre as [|c pre IH]; intros Hf; cbn [format app]; [by destruct (format fmt arg)|].
  apply not_elem_of_cons in Hf as [Hc Hf]. rewrite decide_False, IH by auto.
  by destruct (format fmt arg).
Qed.

Lemma subst_f_first pre post :
  "%"%char ∉ pre → subst_f (pre ++ chars "%f" ++ post) = (pre ++ chars "%s" ++ post, true).
Proof.
  induction pre as [|c pre IH]; intros Hp.
  - cbn [app]. change (chars "%f" ++ post) with ("%"%char :: "f"%char :: post).
    by rewrite subst_f_eq, starts_with_f_true.
  - apply not_elem_of_cons in Hp as [Hc Hp]. cbn [app]. rewrite subst_f_eq.
    destruct (starts_with _ _) eqn:E; [apply starts_with_f in E as (? & -> & _); done|].
    by rewrite IH.
Qed.

(** A command with %f runs with a name made of the pid of pan and a counter
    in its place, the same text otherwise, cut at 1023 characters; the counter
    goes up with every use, so two runs get different names. *)
Theorem subst_pcnt_f_names pid nm pre post counter :
  "%"%char ∉ pre → "%"%char ∉ post → (0 ≤ counter < INT_MAX)%Z → (0 ≤ pid < 100000000)%Z →
  let '(cmd, b) := subst_f (pre ++ chars "%f" ++ post) in
  subst_pcnt_f pid (CollEntry nm cmd b) counter =
    Done (take 1023 (pre ++ (print_d pid ++ "_"%char :: print_d counter) ++ post), (counter + 1)%Z) ∧
  ∀ counter', (0 ≤ counter' ≤ INT_MAX)%Z → counter' ≠ counter →
    print_d pid ++ "_"%char :: print_d counter' ≠ print_d pid ++ "_"%char :: print_d counter.
Proof.
  intros Hpre Hpost Hc Hp. rewrite subst_f_first by done. split.
  - assert (length (print_d pid) ≤ 8) by (apply print_d_length; simpl; lia).
    assert (length (print_d counter) ≤ 10) by (apply print_d_length; simpl; clia).
    unfold subst_pcnt_f. cbn [negb pcnt_f cmdline]. rewrite i32_ok by clia. cbn [mbind outcome_bind].
    rewrite format_plain_app by done. change (chars "%s" ++ post) with ("%"%char :: "s"%char :: post).
    cbn [format]. rewrite decide_True, decide_False, decide_True by done.
    rewrite format_plain by done. cbn [load mbind outcome_bind]. unfold snprintf at 2.
    by rewrite take_ge by (rewrite length_app; simpl; lia).
  - intros counter' Hc' Hne E. apply app_inv_head in E. simplify_eq.
    apply Hne, print_d_inj; [clia|clia|done].
Qed.

(** ** Witnesses *)

Definition ex_items : list item :=
  [Skipped (chars "#syscalls"); Entry (chars "abort01") " "%char [] (chars "abort01 -x %f"); Skipped [];
   Entry (chars "fs") TAB (chars " ") (chars "fsx")].

#[export] Instance good_name_dec nm : Decision (good_name nm).
Proof. unfold good_name. apply _. Defined.

Lemma ex_items_good : Forall good_item ex_items.
Proof. repeat constructor; by_decide. Qed.

Lemma get_collection_items_witness :
  get_collection (Some (file_text ex_items)) [chars "ls"; chars "-l"] = Done (Some
    [CollEntry (chars "abort01") (chars "abort01 -x %s") true; CollEntry (chars "fs") (chars "fsx") false;
     CollEntry (chars "cmdln") (chars "ls -l ") false]).
Proof.
  rewrite (get_collection_items ex_items [chars "ls"; chars "-l"]); [reflexivity|exact ex_items_good|by_decide].
Defined.

Lemma fill_args_exact_witness :
  fill_args [replicate 1023 "x"%char; chars "y"] [] 1023 = Fault.
Proof.
  rewrite (fill_args_exact [replicate 1023 "x"%char; chars "y"]) by by_decide. by vm_compute.
Defined.

Lemma subst_pcnt_f_names_witness :
  subst_pcnt_f 77 (CollEntry [] (chars "fsx %s") true) 3 = Done (chars "fsx 77_3", 4%Z).
Proof.
  apply (subst_pcnt_f_names 77 [] (chars "fsx ") [] 3); by_decide.
Defined.
