(* ===== verification/Pan.v ===== *)
(** * The test driver ltp-pan (pan/ltp-pan.c)

    The state of the driver, the signal ratchet, starting and reaping children,
    orphaned process groups, and the scheduler loop of main().  The system the
    driver runs on is a class of operations; the contract the driver relies on is
    in PanSched.v.  A step of the driver either goes on or leaves through exit().

    Debug output (option -d) and messages on stderr are not modelled.  The
    counters of type int are [Z]: they count tests. *)
From stdpp Require Import base strings numbers option list.
From Stdlib Require Import Ascii.
From S2P Require Import Prelude CInt CText SplitStr Zoo PanColl.

(** ** Data *)

Record tag_pgrp := TagPgrp {
  pgrp : Z;
  stopping : bool;
  mystime : Z;
  cmd : option coll_entry;      (* the pointer to the command *)
  output : list ascii;          (* the name of the file with the output *)
}.

Definition empty_slot : tag_pgrp := TagPgrp 0 false 0 None [].

Record pan (W : Type) := Pan {
  running : list tag_pgrp;   (* the slots, without the end sentinel *)
  orphans : list Z;   (* the pgrps of the orphan list from its head on; 0 is unused *)
  num_active : Z;
  failcnt : Z;
  tconfcnt : Z;
  starts : Z;
  stop : Z;
  go_idle : Z;
  exit_stat : Z;
  fork_in_road : bool;
  cmd_index : nat;   (* c in the scheduler loop *)
  rec_signal : Z;
  send_signal : Z;
  lastsent : Z;   (* static in wait_handler() *)
  cmdno : Z;   (* static in run_child() *)
  counter : Z;   (* static in subst_pcnt_f() *)
  zoofile : zoo;
  stdout : list ascii;   (* what was printed *)
  log : list ascii;
  failcmd : list ascii;
  tconfcmd : list ascii;
  kmsg : list ascii;
  world : W;   (* the rest of the system *)
}.
Arguments Pan {W}.
Arguments running {W} p.
Arguments orphans {W} p.
Arguments num_active {W} p.
Arguments failcnt {W} p.
Arguments tconfcnt {W} p.
Arguments starts {W} p.
Arguments stop {W} p.
Arguments go_idle {W} p.
Arguments exit_stat {W} p.
Arguments fork_in_road {W} p.
Arguments cmd_index {W} p.
Arguments rec_signal {W} p.
Arguments send_signal {W} p.
Arguments lastsent {W} p.
Arguments cmdno {W} p.
Arguments counter {W} p.
Arguments zoofile {W} p.
Arguments stdout {W} p.
Arguments log {W} p.
Arguments failcmd {W} p.
Arguments tconfcmd {W} p.
Arguments kmsg {W} p.
Arguments world {W} p.

Definition set_running {W} (v : list tag_pgrp) (s : pan W) : pan W :=
  Pan v (orphans s) (num_active s) (failcnt s) (tconfcnt s) (starts s) (stop s) (go_idle s) (exit_stat s)
    (fork_in_road s) (cmd_index s) (rec_signal s) (send_signal s) (lastsent s) (cmdno s) (counter s)
    (zoofile s) (stdout s) (log s) (failcmd s) (tconfcmd s) (kmsg s) (world s).
Definition set_orphans {W} (v : list Z) (s : pan W) : pan W :=
  Pan (running s) v (num_active s) (failcnt s) (tconfcnt s) (starts s) (stop s) (go_idle s) (exit_stat s)
    (fork_in_road s) (cmd_index s) (rec_signal s) (send_signal s) (lastsent s) (cmdno s) (counter s)
    (zoofile s) (stdout s) (log s) (failcmd s) (tconfcmd s) (kmsg s) (world s).
Definition set_num_active {W} (v : Z) (s : pan W) : pan W :=
  Pan (running s) (orphans s) v (failcnt s) (tconfcnt s) (starts s) (stop s) (go_idle s) (exit_stat s)
    (fork_in_road s) (cmd_index s) (rec_signal s) (send_signal s) (lastsent s) (cmdno s) (counter s)
    (zoofile s) (stdout s) (log s) (failcmd s) (tconfcmd s) (kmsg s) (world s).
Definition set_failcnt {W} (v : Z) (s : pan W) : pan W :=
  Pan (running s) (orphans s) (num_active s) v (tconfcnt s) (starts s) (stop s) (go_idle s) (exit_stat s)
    (fork_in_road s) (cmd_index s) (rec_signal s) (send_signal s) (lastsent s) (cmdno s) (counter s)
    (zoofile s) (stdout s) (log s) (failcmd s) (tconfcmd s) (kmsg s) (world s).
Definition set_tconfcnt {W} (v : Z) (s : pan W) : pan W :=
  Pan (running s) (orphans s) (num_active s) (failcnt s) v (starts s) (stop s) (go_idle s) (exit_stat s)
    (fork_in_road s) (cmd_index s) (rec_signal s) (send_signal s) (lastsent s) (cmdno s) (counter s)
    (zoofile s) (stdout s) (log s) (failcmd s) (tconfcmd s) (kmsg s) (world s).
Definition set_starts {W} (v : Z) (s : pan W) : pan W :=
  Pan (running s) (orphans s) (num_active s) (failcnt s) (tconfcnt s) v (stop s) (go_idle s) (exit_stat s)
    (fork_in_road s) (cmd_index s) (rec_signal s) (send_signal s) (lastsent s) (cmdno s) (counter s)
    (zoofile s) (stdout s) (log s) (failcmd s) (tconfcmd s) (kmsg s) (world s).
Definition set_stop {W} (v : Z) (s : pan W) : pan W :=
  Pan (running s) (orphans s) (num_active s) (failcnt s) (tconfcnt s) (starts s) v (go_idle s) (exit_stat s)
    (fork_in_road s) (cmd_index s) (rec_signal s) (send_signal s) (lastsent s) (cmdno s) (counter s)
    (zoofile s) (stdout s) (log s) (failcmd s) (tconfcmd s) (kmsg s) (world s).
Definition set_go_idle {W} (v : Z) (s : pan W) : pan W :=
  Pan (running s) (orphans s) (num_active s) (failcnt s) (tconfcnt s) (starts s) (stop s) v (exit_stat s)
    (fork_in_road s) (cmd_index s) (rec_signal s) (send_signal s) (lastsent s) (cmdno s) (counter s)
    (zoofile s) (stdout s) (log s) (failcmd s) (tconfcmd s) (kmsg s) (world s).
Definition set_exit_stat {W} (v : Z) (s : pan W) : pan W :=
  Pan (running s) (orphans s) (num_active s) (failcnt s) (tconfcnt s) (starts s) (stop s) (go_idle s) v
    (fork_in_road s) (cmd_index s) (rec_signal s) (send_signal s) (lastsent s) (cmdno s) (counter s)
    (zoofile s) (stdout s) (log s) (failcmd s) (tconfcmd s) (kmsg s) (world s).
Definition set_fork_in_road {W} (v : bool) (s : pan W) : pan W :=
  Pan (running s) (orphans s) (num_active s) (failcnt s) (tconfcnt s) (starts s) (stop s) (go_idle s)
    (exit_stat s) v (cmd_index s) (rec_signal s) (send_signal s) (lastsent s) (cmdno s) (counter s) (zoofile
    s) (stdout s) (log s) (failcmd s) (tconfcmd s) (kmsg s) (world s).
Definition set_cmd_index {W} (v : nat) (s : pan W) : pan W :=
  Pan (running s) (orphans s) (num_active s) (failcnt s) (tconfcnt s) (starts s) (stop s) (go_idle s)
    (exit_stat s) (fork_in_road s) v (rec_signal s) (send_signal s) (lastsent s) (cmdno s) (counter s)
    (zoofile s) (stdout s) (log s) (failcmd s) (tconfcmd s) (kmsg s) (world s).
Definition set_rec_signal {W} (v : Z) (s : pan W) : pan W :=
  Pan (running s) (orphans s) (num_active s) (failcnt s) (tconfcnt s) (starts s) (stop s) (go_idle s)
    (exit_stat s) (fork_in_road s) (cmd_index s) v (send_signal s) (lastsent s) (cmdno s) (counter s)
    (zoofile s) (stdout s) (log s) (failcmd s) (tconfcmd s) (kmsg s) (world s).
Definition set_send_signal {W} (v : Z) (s : pan W) : pan W :=
  Pan (running s) (orphans s) (num_active s) (failcnt s) (tconfcnt s) (starts s) (stop s) (go_idle s)
    (exit_stat s) (fork_in_road s) (cmd_index s) (rec_signal s) v (lastsent s) (cmdno s) (counter s)
    (zoofile s) (stdout s) (log s) (failcmd s) (tconfcmd s) (kmsg s) (world s).
Definition set_lastsent {W} (v : Z) (s : pan W) : pan W :=
  Pan (running s) (orphans s) (num_active s) (failcnt s) (tconfcnt s) (starts s) (stop s) (go_idle s)
    (exit_stat s) (fork_in_road s) (cmd_index s) (rec_signal s) (send_signal s) v (cmdno s) (counter s)
    (zoofile s) (stdout s) (log s) (failcmd s) (tconfcmd s) (kmsg s) (world s).
Definition set_cmdno {W} (v : Z) (s : pan W) : pan W :=
  Pan (running s) (orphans s) (num_active s) (failcnt s) (tconfcnt s) (starts s) (stop s) (go_idle s)
    (exit_stat s) (fork_in_road s) (cmd_index s) (rec_signal s) (send_signal s) (lastsent s) v (counter s)
    (zoofile s) (stdout s) (log s) (failcmd s) (tconfcmd s) (kmsg s) (world s).
Definition set_counter {W} (v : Z) (s : pan W) : pan W :=
  Pan (running s) (orphans s) (num_active s) (failcnt s) (tconfcnt s) (starts s) (stop s) (go_idle s)
    (exit_stat s) (fork_in_road s) (cmd_index s) (rec_signal s) (send_signal s) (lastsent s) (cmdno s) v
    (zoofile s) (stdout s) (log s) (failcmd s) (tconfcmd s) (kmsg s) (world s).
Definition set_zoofile {W} (v : zoo) (s : pan W) : pan W :=
  Pan (running s) (orphans s) (num_active s) (failcnt s) (tconfcnt s) (starts s) (stop s) (go_idle s)
    (exit_stat s) (fork_in_road s) (cmd_index s) (rec_signal s) (send_signal s) (lastsent s) (cmdno s)
    (counter s) v (stdout s) (log s) (failcmd s) (tconfcmd s) (kmsg s) (world s).
Definition set_stdout {W} (v : list ascii) (s : pan W) : pan W :=
  Pan (running s) (orphans s) (num_active s) (failcnt s) (tconfcnt s) (starts s) (stop s) (go_idle s)
    (exit_stat s) (fork_in_road s) (cmd_index s) (rec_signal s) (send_signal s) (lastsent s) (cmdno s)
    (counter s) (zoofile s) v (log s) (failcmd s) (tconfcmd s) (kmsg s) (world s).
Definition set_log {W} (v : list ascii) (s : pan W) : pan W :=
  Pan (running s) (orphans s) (num_active s) (failcnt s) (tconfcnt s) (starts s) (stop s) (go_idle s)
    (exit_stat s) (fork_in_road s) (cmd_index s) (rec_signal s) (send_signal s) (lastsent s) (cmdno s)
    (counter s) (zoofile s) (stdout s) v (failcmd s) (tconfcmd s) (kmsg s) (world s).
Definition set_failcmd {W} (v : list ascii) (s : pan W) : pan W :=
  Pan (running s) (orphans s) (num_active s) (failcnt s) (tconfcnt s) (starts s) (stop s) (go_idle s)
    (exit_stat s) (fork_in_road s) (cmd_index s) (rec_signal s) (send_signal s) (lastsent s) (cmdno s)
    (counter s) (zoofile s) (stdout s) (log s) v (tconfcmd s) (kmsg s) (world s).
Definition set_tconfcmd {W} (v : list ascii) (s : pan W) : pan W :=
  Pan (running s) (orphans s) (num_active s) (failcnt s) (tconfcnt s) (starts s) (stop s) (go_idle s)
    (exit_stat s) (fork_in_road s) (cmd_index s) (rec_signal s) (send_signal s) (lastsent s) (cmdno s)
    (counter s) (zoofile s) (stdout s) (log s) (failcmd s) v (kmsg s) (world s).
Definition set_kmsg {W} (v : list ascii) (s : pan W) : pan W :=
  Pan (running s) (orphans s) (num_active s) (failcnt s) (tconfcnt s) (starts s) (stop s) (go_idle s)
    (exit_stat s) (fork_in_road s) (cmd_index s) (rec_signal s) (send_signal s) (lastsent s) (cmdno s)
    (counter s) (zoofile s) (stdout s) (log s) (failcmd s) (tconfcmd s) v (world s).
Definition set_world {W} (v : W) (s : pan W) : pan W :=
  Pan (running s) (orphans s) (num_active s) (failcnt s) (tconfcnt s) (starts s) (stop s) (go_idle s)
    (exit_stat s) (fork_in_road s) (cmd_index s) (rec_signal s) (send_signal s) (lastsent s) (cmdno s)
    (counter s) (zoofile s) (stdout s) (log s) (failcmd s) (tconfcmd s) (kmsg s) v.


(** The options and the files that are open; [rts] is the report type. *)
Record config := Config {
  keep_active : nat;
  sequential : bool;
  has_brakes : bool;
  track_exit_stats : bool;
  fmt_print : bool;
  quiet_mode : bool;
  no_kmsg : bool;
  rts : bool;
  test_out_dir : option (list ascii);
  logfile : bool;
  failcmdfile : bool;
  tconfcmdfile : bool;
  panname : list ascii;
  panpid : Z;
  kmsg_ok : bool;               (* /dev/kmsg can be opened *)
}.

(** ** The system *)

Definition ECHILD : Z := 10.
Definition EPERM : Z := 1.
Definition ESRCH : Z := 3.
Definition EEXIST : Z := 17.

(** What a child executes. *)
Inductive exec_call :=
  | ExecSh (cmdline : list ascii)
  | ExecVp (argv : list (list ascii)).

#[export] Instance exec_call_eq_dec : EqDecision exec_call.
Proof. solve_decision. Defined.

(** Where a child that could not execute its command failed. *)
Inductive child_step := DupStdout | DupStderr | ExecStep.

(** fork(), the execution of the child up to its exec, and, when it reported a
    failure through the pipe, the status it was waited for with.  The read from the
    pipe may also be interrupted by a signal. *)
Inductive fork_ans :=
  | ForkErr (e : Z)
  | ForkFailed (pid : Z) (at_ : child_step) (e status : Z)
  | ForkInterrupted (pid : Z)
  | ForkOk (pid : Z).

Inductive wait_ans :=
  | WaitErr (e : Z)
  | WaitChild (pid status : Z).

(** Errors are errno values, 0 is success.  [os_wait] also gives the signals that
    are handled before it returns, [os_signals] those that have arrived since. *)
Class OS (W : Type) := {
  os_time : W → Z * W;
  os_times : W → Z * Z * W;
  os_open : list ascii → W → Z * W;
  os_unlink : list ascii → W → Z * W;
  os_slurp : list ascii → W → option (list ascii) * W;
  os_pipe : W → Z * W;
  os_fork : exec_call → W → fork_ans * W;
  os_kill : Z → Z → W → Z * W;
  os_wait : W → list Z * wait_ans * W;
  os_lrand48 : W → Z * W;
  os_signals : W → list Z * W;
  os_stop_file : W → bool * W;
}.

(** ** Steps of the driver *)

Inductive flow (A : Type) := Go (a : A) | Exit (code : Z).
Arguments Go {A} a.
Arguments Exit {A} code.

Definition M (W A : Type) : Type := pan W → outcome (flow A * pan W).

#[export] Instance M_ret {W} : MRet (M W) := λ A a s, Done (Go a, s).
#[export] Instance M_bind {W} : MBind (M W) := λ A B k m s,
  match m s with
  | Done (Go a, s') => k a s'
  | Done (Exit code, s') => Done (Exit code, s')
  | Fault => Fault
  | Timeout => Timeout
  end.

Definition get {W A} (f : pan W → A) : M W A := λ s, Done (Go (f s), s).
Definition put {W} (f : pan W → pan W) : M W () := λ s, Done (Go (), f s).
Definition exit {W A} (code : Z) : M W A := λ s, Done (Exit code, s).
Definition lift {W A} (o : outcome A) : M W A := λ s, match o with
  | Done a => Done (Go a, s) | Fault => Fault | Timeout => Timeout end.
(** A call of the system. *)
Definition sys {W A} (f : W → A * W) : M W A := λ s,
  let '(a, w) := f (world s) in Done (Go a, set_world w s).
(** A call of the zoo library. *)
Definition zoo_call {W} (f : zoo → outcome (Z * zoo)) : M W Z := λ s,
  match f (zoofile s) with
  | Done (r, z) => Done (Go r, set_zoofile z s)
  | Fault => Fault
  | Timeout => Timeout
  end.

(** Output. *)
Definition print {W} (t : list ascii) : M W () := put (λ s, set_stdout (stdout s ++ t) s).
Definition print_log {W} (t : list ascii) : M W () := put (λ s, set_log (log s ++ t) s).

Definition padr (w : nat) (s : list ascii) : list ascii := s ++ replicate (w - length s) " "%char.

Definition NL : list ascii := [NEWLINE].
Definition yes_no (b : bool) : list ascii := if b then chars "yes" else chars "no".

(** ** Wait statuses *)

Definition WTERMSIG (status : Z) : Z := Z.land status 127.
Definition WIFEXITED (status : Z) : bool := bool_decide (WTERMSIG status = 0%Z).
Definition WIFSIGNALED (status : Z) : bool := bool_decide (0 < WTERMSIG status < 127)%Z.
Definition WIFSTOPPED (status : Z) : bool := bool_decide (Z.land status 255 = 127%Z).
Definition WEXITSTATUS (status : Z) : Z := Z.land (Z.shiftr status 8) 255.
Definition core_dumped (status : Z) : bool := bool_decide (Z.land status 128 ≠ 0%Z).

Inductive term_type := signaled | exited | stopped | unknown | driver_interrupt.

#[export] Instance term_type_eq_dec : EqDecision term_type.
Proof. solve_decision. Defined.

Definition term_text (t : term_type) : list ascii :=
  chars match t with
        | signaled => "signaled" | exited => "exited" | stopped => "stopped"
        | unknown => "unknown" | driver_interrupt => "driver_interrupt"
        end.

(** The termination of a child: its kind and its signal or exit status. *)
Definition decode (status : Z) : term_type * Z :=
  if WIFSIGNALED status then (signaled, WTERMSIG status)
  else if WIFEXITED status then (exited, WEXITSTATUS status)
  else if WIFSTOPPED status then (stopped, WEXITSTATUS status)
  else (unknown, 0%Z).

(** ** The signal ratchet *)

Definition wait_handler {W} (sig : Z) (s : pan W) : pan W :=
  if decide (sig = 0%Z) then set_lastsent 0 s
  else
    let s := set_rec_signal sig s in
    if decide (sig = SIGUSR2) then s
    else
      let s :=
        if decide (lastsent s = 0%Z) then set_send_signal sig s
        else if decide (lastsent s = SIGUSR1) then set_send_signal SIGINT s
        else if decide (lastsent s = sig) then set_send_signal SIGTERM s
        else if decide (lastsent s = SIGTERM) then set_send_signal SIGHUP s
        else if decide (lastsent s = SIGHUP) then set_send_signal SIGKILL s
        else s in
      set_lastsent (send_signal s) s.

(** [rec_signal = send_signal = 0]. *)
Definition reset_signals {W} (s : pan W) : pan W := set_send_signal 0 (set_rec_signal 0 s).

Definition handle_signals {W} (sigs : list Z) (s : pan W) : pan W := foldl (λ s sig, wait_handler sig s) s sigs.

Section pan.
Context {W : Type} `{!OS W} (strerror : Z → list ascii) (cfg : config) (tries : nat).

#[local] Notation M := (M W).
#[local] Notation pan := (pan W).

Definition poll_signals : M () := sigs ← sys os_signals; put (handle_signals sigs).

(** ** Orphaned process groups *)

(** One element of the list: its new value. *)
Definition check_orphan (sig : Z) (orph : Z) : M Z :=
  if decide (orph = 0%Z) then mret orph
  else
    e ← sys (os_kill (- orph) sig);
    if decide (e = ESRCH) then
      _ ← zoo_call (zoo_clear strerror true orph);
      mret 0%Z
    else mret orph.

Fixpoint check_orphans_loop (sig : Z) (orphs : list Z) : M (list Z) :=
  match orphs with
  | [] => mret []
  | orph :: orphs' =>
      orph ← check_orphan sig orph;
      orphs' ← check_orphans_loop sig orphs';
      mret (orph :: orphs')
  end.

Definition check_orphans (sig : Z) : M () :=
  orphs ← get orphans;
  orphs ← check_orphans_loop sig orphs;
  put (set_orphans orphs).

(** The first unused element, or a new one behind the head. *)
Definition mark_orphan (orphs : list Z) (cpid : Z) : list Z :=
  match list_find (λ p, p = 0%Z) orphs with
  | Some (i, _) => <[i := cpid]> orphs
  | None => match orphs with [] => [cpid] | h :: t => h :: cpid :: t end
  end.

(** ** Propagating a signal *)

Fixpoint propagate_loop (sig : Z) (slots : list tag_pgrp) : M (list tag_pgrp) :=
  match slots with
  | [] => mret []
  | r :: slots' =>
      if decide (pgrp r = 0%Z) then
        slots' ← propagate_loop sig slots';
        mret (r :: slots')
      else
        _ ← sys (os_kill (- pgrp r) sig);
        slots' ← propagate_loop sig slots';
        mret (TagPgrp (pgrp r) true (mystime r) (cmd r) (output r) :: slots')
  end.

Definition propagate_signal : M () :=
  rec ← get rec_signal;
  _ ← (if decide (rec = SIGALRM) then
         _ ← print (chars "PAN stop Alarm was received" ++ NL);
         put (set_rec_signal SIGTERM)
       else mret ());
  sig ← get send_signal;
  slots ← get running;
  slots ← propagate_loop sig slots;
  _ ← put (set_running slots);
  _ ← check_orphans sig;
  put reset_signals.

(** ** Reports *)

Definition write_kmsg (t : list ascii) : M () :=
  if negb (kmsg_ok cfg) then exit 1 else put (λ s, set_kmsg (kmsg s ++ t) s).

Definition write_test_start (r : tag_pgrp) : M () :=
  c ← lift (load (cmd r));
  _ ← (if rts cfg then
         print (chars "<<<test_start>>>" ++ NL ++
           chars "tag=" ++ name c ++ chars " stime=" ++ print_d (mystime r) ++ NL ++
           chars "cmdline=" ++ DQUOTE :: cmdline c ++ DQUOTE :: NL ++
           chars "contacts=" ++ DQUOTE :: DQUOTE :: NL ++
           chars "analysis=exit" ++ NL ++ chars "<<<test_output>>>" ++ NL)
       else mret ());
  if no_kmsg cfg then mret ()
  else if decide (name c ≠ cmdline c) then
    write_kmsg (chars "LTP: starting " ++ name c ++ chars " (" ++ cmdline c ++ chars ")" ++ NL)
  else write_kmsg (chars "LTP: starting " ++ name c ++ NL).

(** [times] is the user and system time of the children in between. *)
Definition write_test_end (r : tag_pgrp) (init_status : list ascii) (exit_time : Z)
    (t : term_type) (stat_loc term_id : Z) (times : Z * Z) : M () :=
  if rts cfg then
    print (chars "<<<execution_status>>>" ++ NL ++
      chars "initiation_status=" ++ DQUOTE :: init_status ++ DQUOTE :: NL ++
      chars "duration=" ++ print_d (exit_time - mystime r) ++ chars " termination_type=" ++ term_text t ++
      chars " termination_id=" ++ print_d term_id ++ chars " corefile=" ++ yes_no (core_dumped stat_loc) ++ NL ++
      chars "cutime=" ++ print_d (wrap32 times.1) ++ chars " cstime=" ++ print_d (wrap32 times.2) ++ NL ++
      chars "<<<test_end>>>" ++ NL)
  else mret ().

(** The character before the terminator of an empty output does not exist. *)
Definition copy_buffered_output (r : tag_pgrp) : M () :=
  content ← sys (os_slurp (output r));
  match slurp content with
  | None => mret ()
  | Some tag_output =>
      _ ← print tag_output;
      l ← lift (load (last tag_output));
      if decide (l ≠ NEWLINE) then print NL else mret ()
  end.

(** The two formats of the log. *)
Definition log_line (nm : list ascii) (stime dur : Z) (t : term_type) (w stat_loc : Z) (times : Z * Z) : list ascii :=
  chars "tag=" ++ nm ++ chars " stime=" ++ print_d (wrap32 stime) ++ chars " dur=" ++ print_d (wrap32 dur) ++
  chars " exit=" ++ term_text t ++ chars " stat=" ++ print_d w ++ chars " core=" ++ yes_no (core_dumped stat_loc) ++
  chars " cu=" ++ print_d (wrap32 times.1) ++ chars " cs=" ++ print_d (wrap32 times.2) ++ NL.

Definition result_line (nm : list ascii) (result_str : string) (w : Z) : list ascii :=
  padr 50 nm ++ chars " " ++ padr 10 (chars result_str) ++ chars " " ++ padr 5 (print_d w) ++ NL.

(** ** Starting a child *)

Definition set_slot (i : nat) (f : tag_pgrp → tag_pgrp) : M () :=
  put (λ s, set_running (alter f i (running s)) s).

Definition PATH_MAX : nat := 4096.

(** The characters that make pan run the command in a shell. *)
Definition shell_char (c : ascii) : bool :=
  bool_decide (c ∈ DQUOTE :: chars "';|<>$\").

(** What the child executes. *)
Definition child_exec (c_cmdline : list ascii) : outcome exec_call :=
  if existsb shell_char c_cmdline then Done (ExecSh c_cmdline)
  else
    r ← splitstr (Some c_cmdline) None;
    r ← load r;
    arg_v ← strings (arg_string r) (arg_array r);
    Done (ExecVp arg_v).

(** The message a child that failed sends to its parent, written into a buffer
    of 1024 bytes. *)
Definition child_error (at_ : child_step) (colle : coll_entry) (call : exec_call) (e : Z) : outcome (list ascii) :=
  let pre := chars "pan(" ++ panname cfg ++ chars "): " in
  let post (sp : string) := chars ".  errno:" ++ print_d e ++ chars sp ++ strerror e in
  let msg :=
    match at_, call with
    | DupStdout, _ => pre ++ chars "couldn't redirect stdout for tag " ++ name colle ++ post "  "
    | DupStderr, _ => pre ++ chars "couldn't redirect stderr for tag " ++ name colle ++ post "  "
    | ExecStep, ExecSh c =>
        pre ++ chars "execlp of '" ++ c ++ chars "' (tag " ++ name colle ++ chars ") failed" ++ post " "
    | ExecStep, ExecVp argv =>
        pre ++ chars "execvp of '" ++ default (chars "(null)") (head argv) ++
        chars "' (tag " ++ name colle ++ chars ") failed" ++ post "  "
    end in
  if decide (length msg < 1024) then Done msg else Fault.

(** The file for the output of the test, tried under one number after another. *)
Fixpoint open_output (n : nat) (dir : list ascii) (i : nat) (colle : coll_entry) : M bool :=
  match n with
  | O => lift Timeout
  | S n' =>
      no ← get cmdno;
      no' ← lift (i64 (no + 1));
      _ ← put (set_cmdno no');
      let path := dir ++ chars "/" ++ name colle ++ chars "." ++ print_d no in
      _ ← lift (if decide (length path < PATH_MAX) then Done () else Fault);
      _ ← set_slot i (λ r, TagPgrp (pgrp r) (stopping r) (mystime r) (cmd r) path);
      e ← sys (os_open path);
      if decide (e = 0%Z) then mret true
      else if decide (e = EEXIST) then open_output n' dir i colle
      else mret false
  end.

(** [if (capturing) unlink(active->output);] *)
Definition unlink_output (i : nat) : M () :=
  if test_out_dir cfg then
    slots ← get running;
    r ← lift (load (slots !! i));
    _ ← sys (os_unlink (output r));
    mret ()
  else mret ().

(** The child did not get to run its command. *)
Definition start_failed (i : nat) (colle : coll_entry) (errbuf : list ascii) (status : Z) : M () :=
  let '(termtype, termid) := decode status in
  end_time ← sys os_time;
  slots ← get running;
  r ← lift (load (slots !! i));
  _ ← (if logfile cfg then
         if negb (fmt_print cfg) then
           print_log (log_line (name colle) (mystime r) (end_time - mystime r) termtype termid status (0, 0)%Z)
         else
           _ ← put (λ s, if decide (termid ≠ 0%Z) then set_failcnt (failcnt s + 1) s else s);
           print_log (result_line (name colle) (if decide (termid ≠ 0%Z) then "FAIL" else "PASS") termid)
       else mret ());
  _ ← (if negb (quiet_mode cfg) then write_test_end r errbuf end_time termtype status termid (0, 0)%Z else mret ());
  unlink_output i.

(** When the read from the pipe is interrupted, the length of a message that was never
    received is used. *)
Definition run_child (i : nat) (colle : coll_entry) : M Z :=
  opened ← match test_out_dir cfg with Some dir => open_output tries dir i colle | None => mret true end;
  if negb opened then mret (-1)%Z
  else
    n ← get counter;
    '(c_cmdline, n) ← lift (if pcnt_f colle then subst_pcnt_f (panpid cfg) colle n else Done (cmdline colle, n));
    _ ← put (set_counter n);
    e ← sys os_pipe;
    if decide (e ≠ 0%Z) then
      _ ← unlink_output i;
      mret (-1)%Z
    else
      t ← sys os_time;
      _ ← set_slot i (λ r, TagPgrp (pgrp r) (stopping r) t (Some colle) (output r));
      slots ← get running;
      r ← lift (load (slots !! i));
      _ ← (if negb (bool_decide (is_Some (test_out_dir cfg))) && negb (quiet_mode cfg)
           then write_test_start r else mret ());
      call ← lift (child_exec c_cmdline);
      ans ← sys (os_fork call);
      match ans with
      | ForkErr _ =>
          _ ← unlink_output i;
          mret (-1)%Z
      | ForkFailed _ at_ e status =>
          errbuf ← lift (child_error at_ colle call e);
          _ ← start_failed i colle errbuf status;
          mret (-1)%Z
      | ForkInterrupted _ => lift Fault
      | ForkOk cpid =>
          _ ← set_slot i (λ r, TagPgrp cpid false (mystime r) (cmd r) (output r));
          rc ← zoo_call (zoo_mark_cmdline strerror true cpid (name colle) (cmdline colle));
          if decide (rc ≠ 0%Z) then exit 1 else mret cpid
      end.

(** ** Reaping a child *)

Definition TCONF_EXIT : Z := ttype_value TCONF.

(** The entry of the log and the counters for a finished test. *)
Definition log_result (c : coll_entry) (r : tag_pgrp) (t : Z) (status : term_type) (w stat_loc : Z)
    (times : Z * Z) : M () :=
  if negb (logfile cfg) then mret ()
  else if negb (fmt_print cfg) then
    print_log (log_line (name c) (mystime r) (t - mystime r) status w stat_loc times)
  else if decide (status = exited ∧ w = TCONF_EXIT) then
    _ ← put (λ s, set_tconfcnt (tconfcnt s + 1) s);
    print_log (result_line (name c) "CONF" w)
  else if decide (w ≠ 0%Z) then
    _ ← put (λ s, set_failcnt (failcnt s + 1) s);
    print_log (result_line (name c) "FAIL" w)
  else print_log (result_line (name c) "PASS" w).

(** The files with the commands that failed or were not run completely. *)
Definition log_command (c : coll_entry) (w : Z) : M () :=
  let line := name c ++ chars " " ++ cmdline c ++ NL in
  if decide (w = 0%Z) then mret ()
  else if tconfcmdfile cfg && bool_decide (w = TCONF_EXIT) then put (λ s, set_tconfcmd (tconfcmd s ++ line) s)
  else if failcmdfile cfg then put (λ s, set_failcmd (failcmd s ++ line) s)
  else mret ().

(** A child whose group is still alive leaves orphans. *)
Definition adopt_orphans (c : coll_entry) (cpid : Z) : M () :=
  e ← sys (os_kill (- cpid) 0);
  if decide (e = 0%Z ∨ e = EPERM) then
    rc ← zoo_call (zoo_mark_cmdline strerror true cpid (chars "panorphan") (cmdline c));
    if decide (rc ≠ 0%Z) then exit 1
    else
      _ ← put (λ s, set_orphans (mark_orphan (orphans s) cpid) s);
      _ ← sys (os_kill (- cpid) SIGTERM);
      mret ()
  else mret ().

(** The body of the loop over the slots for the slot of the child. *)
Definition reap (i : nat) (r : tag_pgrp) (cpid stat_loc : Z) (status : term_type) (w ret : Z)
    (times : Z * Z) : M Z :=
  let undo := bool_decide (w = 130%Z) && stopping r && bool_decide (status = exited) in
  let w := if undo then 0%Z else w in
  let ret := if undo then (ret - 1)%Z else ret in
  t ← sys os_time;
  c ← lift (load (cmd r));
  _ ← log_result c r t status w stat_loc times;
  _ ← log_command c w;
  _ ← (if bool_decide (is_Some (test_out_dir cfg)) then
         _ ← (if negb (quiet_mode cfg) then write_test_start r else mret ());
         _ ← copy_buffered_output r;
         _ ← sys (os_unlink (output r));
         mret ()
       else mret ());
  _ ← (if negb (quiet_mode cfg) then
         write_test_end r (chars "ok") t (if stopping r then driver_interrupt else status) stat_loc w times
       else mret ());
  _ ← set_slot i (λ r, TagPgrp 0 (stopping r) (mystime r) (cmd r) (output r));
  rc ← zoo_call (zoo_clear strerror true cpid);
  if decide (rc ≠ 0%Z) then exit 1
  else
    _ ← adopt_orphans c cpid;
    mret (if bool_decide (status = signaled) && negb (stopping r) then ret + 1 else ret)%Z.

(** The value check_pids() starts from for a status. *)
Definition ret_of (status : term_type) (w : Z) : Z :=
  match status with
  | exited => if decide (w ≠ 0%Z ∧ w ≠ TCONF_EXIT) then 1 else 0
  | stopped | unknown => 1
  | _ => 0
  end.

(** What check_pids() does with the status of a child. *)
Definition child_ended (cpid stat_loc : Z) (times : Z * Z) : M Z :=
  let '(status, w) := decode stat_loc in
  _ ← put (λ s, if decide (status = signaled ∨ status = exited)
                then set_num_active (num_active s - 1) s else s);
  slots ← get running;
  match list_find (λ r, pgrp r = cpid) slots with
  | None => mret (ret_of status w)
  | Some (i, r) => reap i r cpid stat_loc status w (ret_of status w) times
  end.

Definition check_pids : M Z :=
  _ ← check_orphans 0;
  '(cu1, cs1) ← sys os_times;
  '(sigs, ans) ← sys os_wait;
  _ ← put (handle_signals sigs);
  '(cu2, cs2) ← sys os_times;
  match ans with
  | WaitErr _ => mret 0%Z
  | WaitChild cpid stat_loc => child_ended cpid stat_loc (cu2 - cu1, cs2 - cs1)%Z
  end.
End pan.
