(* ===== verification/PanMain.v ===== *)
(** * The main program of ltp-pan (pan/ltp-pan.c)

    The options, the start-up, the scheduler loop and the end of main().  The
    loops of main() take fuel; signals arrive whenever the scheduler looks at the
    signal variables, during wait() and during sleep(). *)
From stdpp Require Import base strings numbers option list.
From Stdlib Require Import Ascii.
From S2P Require Import Prelude CInt CText SplitStr Zoo PanColl Pan.

(** ** Options *)

(** The variables of main() that the options set. *)
Record options := Options {
  o_zooname : option (list ascii);
  o_filename : list ascii;
  o_logfilename : option (list ascii);
  o_failcmdfilename : option (list ascii);
  o_tconfcmdfilename : option (list ascii);
  o_outputfilename : option (list ascii);
  o_panname : option (list ascii);
  o_test_out_dir : option (list ascii);
  o_reporttype : option (list ascii);
  o_keep_active : Z;
  o_starts : Z;
  o_timed : bool;
  o_run_time : Z;
  o_modifier : ascii;
  o_has_brakes : bool;
  o_track_exit_stats : bool;
  o_sequential : bool;
  o_fork_in_road : bool;
  o_fmt_print : bool;
  o_quiet_mode : bool;
  o_no_kmsg : bool;
}.

Definition default_options : options :=
  Options None (chars "/dev/null") None None None None None None None 1 (-1) false (-1) "m"%char
    false false false false false false false.

(** sscanf(optarg, "%d%c", &run_time, &modifier): the number of conversions, EOF
    being -1, and the two variables. *)
Definition scan_time (optarg : list ascii) (run_time : Z) (modifier : ascii) : Z * Z * ascii :=
  match drop_while isspace optarg with
  | [] => ((-1)%Z, run_time, modifier)
  | s =>
      let '(neg, s) := skip_sign s in
      let '(v, n, rest) := scan_digits 10 0 0 s in
      if decide (n = 0) then (0%Z, run_time, modifier)
      else
        let run_time := wrap32 (strtol_value neg v) in
        match rest with
        | [] => (1%Z, run_time, modifier)
        | c :: _ => (2%Z, run_time, c)
        end
  end.

(** The seconds of a time with its modifier; [None] is exit(-1). *)
Definition scale_time (run_time : Z) (modifier : ascii) : outcome (option Z) :=
  if decide (modifier = "s"%char) then Done (Some run_time)
  else if decide (modifier = "m"%char) then Some <$> i32 (run_time * 60)
  else if decide (modifier = "h"%char) then t ← i32 (run_time * 60); Some <$> i32 (t * 60)
  else if decide (modifier = "d"%char) then
    t ← i32 (run_time * 60); t ← i32 (t * 60); Some <$> i32 (t * 24)
  else Done None.

Section set_options.
Context (o : options).

Definition set_o_flags (brakes track seq fork fmt quiet nokmsg : bool) : options :=
  Options (o_zooname o) (o_filename o) (o_logfilename o) (o_failcmdfilename o) (o_tconfcmdfilename o)
    (o_outputfilename o) (o_panname o) (o_test_out_dir o) (o_reporttype o) (o_keep_active o) (o_starts o)
    (o_timed o) (o_run_time o) (o_modifier o)
    (o_has_brakes o || brakes) (o_track_exit_stats o || track) (o_sequential o || seq)
    (o_fork_in_road o || fork) (o_fmt_print o || fmt) (o_quiet_mode o || quiet) (o_no_kmsg o || nokmsg).

Definition set_o_names (zoon : option (list ascii)) (file : list ascii)
    (logn failn tconfn outn pann dir rep : option (list ascii)) : options :=
  Options zoon file logn failn tconfn outn pann dir rep (o_keep_active o) (o_starts o)
    (o_timed o) (o_run_time o) (o_modifier o)
    (o_has_brakes o) (o_track_exit_stats o) (o_sequential o)
    (o_fork_in_road o) (o_fmt_print o) (o_quiet_mode o) (o_no_kmsg o).

Definition set_o_numbers (keep starts : Z) (timed : bool) (run_time : Z) (modifier : ascii) : options :=
  Options (o_zooname o) (o_filename o) (o_logfilename o) (o_failcmdfilename o) (o_tconfcmdfilename o)
    (o_outputfilename o) (o_panname o) (o_test_out_dir o) (o_reporttype o) keep starts timed run_time modifier
    (o_has_brakes o) (o_track_exit_stats o) (o_sequential o)
    (o_fork_in_road o) (o_fmt_print o) (o_quiet_mode o) (o_no_kmsg o).

(** The argument of -t. *)
Definition parse_time (optarg : list ascii) : outcome (flow options) :=
  let '(ret, run_time, modifier) := scan_time optarg (o_run_time o) (o_modifier o) in
  let upd timed t := set_o_numbers (o_keep_active o) (o_starts o) timed t modifier in
  if decide (ret = 0%Z) then Done (Go (upd (o_timed o) run_time))
  else if decide (ret = 1%Z) then Done (Go (upd true run_time))
  else
    t ← scale_time run_time modifier;
    match t with
    | None => Done (Exit (-1))
    | Some t => Done (Go (upd true t))
    end.

(** One option of getopt() with its argument.  -d sets the debug level, which is
    not modelled; an unknown option has no effect. *)
Definition parse_opt (c : ascii) (optarg : list ascii) : outcome (flow options) :=
  let flags := set_o_flags in
  let names z f l fc tc out pn dir rep := Done (Go (set_o_names z f l fc tc out pn dir rep)) in
  let zn := o_zooname o in let fn := o_filename o in let ln := o_logfilename o in
  let fc := o_failcmdfilename o in let tc := o_tconfcmdfilename o in let ou := o_outputfilename o in
  let pn := o_panname o in let di := o_test_out_dir o in let re := o_reporttype o in
  let f := false in let a := Some optarg in
  if decide (c = "A"%char) then Done (Go (flags true true f f f f f))
  else if decide (c = "O"%char) then names zn fn ln fc tc ou pn a re
  else if decide (c = "S"%char) then Done (Go (flags f f true f f f f))
  else if decide (c = "a"%char) then names a fn ln fc tc ou pn di re
  else if decide (c = "C"%char) then names zn fn ln a tc ou pn di re
  else if decide (c = "Q"%char) then Done (Go (flags f f f f f f true))
  else if decide (c = "T"%char) then names zn fn ln fc a ou pn di re
  else if decide (c = "e"%char) then Done (Go (flags f true f f f f f))
  else if decide (c = "f"%char) then names zn optarg ln fc tc ou pn di re
  else if decide (c = "h"%char) then Done (Exit 0)
  else if decide (c = "l"%char) then names zn fn a fc tc ou pn di re
  else if decide (c = "n"%char) then names zn fn ln fc tc ou a di re
  else if decide (c = "o"%char) then names zn fn ln fc tc a pn di re
  else if decide (c = "p"%char) then Done (Go (flags f f f f true f f))
  else if decide (c = "q"%char) then Done (Go (flags f f f f f true f))
  else if decide (c = "r"%char) then names zn fn ln fc tc ou pn di a
  else if decide (c = "s"%char) then
    Done (Go (set_o_numbers (o_keep_active o) (atoi optarg) (o_timed o) (o_run_time o) (o_modifier o)))
  else if decide (c = "t"%char) then parse_time optarg
  else if decide (c = "x"%char) then
    Done (Go (set_o_numbers (atoi optarg) (o_starts o) (o_timed o) (o_run_time o) (o_modifier o)))
  else if decide (c = "y"%char) then Done (Go (flags f f f true f f f))
  else Done (Go o).
End set_options.

Fixpoint parse_opts (o : options) (opts : list (ascii * list ascii)) : outcome (flow options) :=
  match opts with
  | [] => Done (Go o)
  | (c, optarg) :: opts' =>
      r ← parse_opt o c optarg;
      match r with
      | Go o => parse_opts o opts'
      | Exit code => Done (Exit code)
      end
  end.

Definition tolower (c : ascii) : ascii := if isupper c then ascii_of_N (code c + 32) else c.

(** Whether the reports are written: the type is checked without regard to case,
    but compared with it. *)
Definition report_rts (reporttype : option (list ascii)) : bool :=
  match reporttype with
  | None => true
  | Some t =>
      if decide (tolower <$> t = chars "rts" ∨ tolower <$> t = chars "none")
      then bool_decide (t = chars "rts") else true
  end.

(** The number of tests to start; -1 is no limit. *)
Definition init_starts (timed : bool) (starts : Z) (sequential : bool) (cnt keep_active : Z) : Z :=
  if timed && bool_decide (starts = (-1)%Z) then -1
  else if decide (starts = (-1)%Z) then if sequential then cnt else 1
  else if decide (starts = 0%Z) then -1
  else if decide (starts < keep_active)%Z then keep_active else starts.

(** ** The scheduler *)

Section main.
Context {W : Type} `{!OS W} (strerror : Z → list ascii) (cfg : config) (tries : nat).
Context (coll : list coll_entry).

#[local] Notation M := (M W).

(** The command to start next. *)
Definition next_command : M () :=
  if sequential cfg then mret ()
  else r ← sys os_lrand48; put (set_cmd_index (Z.to_nat (Z.rem r (Z.of_nat (length coll))))).

(** The bookkeeping after a start. *)
Definition after_start (cpid : Z) : M () :=
  put (λ s,
    let s := if decide (cpid ≠ (-1)%Z) then set_num_active (num_active s + 1) s else s in
    let s := if (bool_decide (cpid ≠ (-1)%Z) || sequential cfg) && bool_decide (0 < starts s)%Z
             then set_starts (starts s - 1) s else s in
    if sequential cfg then
      set_cmd_index (if decide (length coll ≤ S (cmd_index s)) then 0 else S (cmd_index s)) s
    else s).

(** One turn of the loop that starts tests; [false] leaves it. *)
Definition fill_step : M bool :=
  _ ← poll_signals;
  s ← get id;
  if negb (bool_decide (num_active s < Z.of_nat (keep_active cfg))%Z && bool_decide (starts s ≠ 0%Z))
  then mret false
  else if bool_decide (stop s ≠ 0%Z) || bool_decide (rec_signal s ≠ 0%Z) || bool_decide (go_idle s ≠ 0%Z)
  then mret false
  else
    _ ← next_command;
    s ← get id;
    match list_find (λ r, pgrp r = 0%Z) (running s) with
    | None =>
        _ ← put (wait_handler SIGINT);
        _ ← put (λ s, set_exit_stat (exit_stat s + 1) s);
        mret false
    | Some (i, _) =>
        colle ← lift (load (coll !! cmd_index s));
        cpid ← run_child strerror cfg tries i colle;
        _ ← after_start cpid;
        mret true
    end.

Fixpoint fill_loop (fuel : nat) : M () :=
  match fuel with
  | O => lift Timeout
  | S fuel' => more ← fill_step; if (more : bool) then fill_loop fuel' else mret ()
  end.

(** Nothing is left to start, or the stop file appeared. *)
Definition check_stop : M () :=
  st ← get starts;
  if decide (st = 0%Z) then
    _ ← (if negb (quiet_mode cfg) then print (chars "incrementing stop" ++ NL) else mret ());
    put (λ s, set_stop (stop s + 1) s)
  else if decide (st = (-1)%Z) then
    found ← sys os_stop_file;
    if (found : bool) then
      _ ← print (chars "Got PAN_STOP_FILE Stopping!" ++ NL);
      put (λ s, set_stop (stop s + 1) s)
    else mret ()
  else mret ().

(** Stop for good, or only until the running tests have finished. *)
Definition stop_or_idle : M () :=
  put (λ s, if fork_in_road s then set_go_idle (go_idle s + 1) s else set_stop (stop s + 1) s).

Definition check_signal : M () :=
  rec ← get rec_signal;
  if decide (rec = 0%Z) then mret ()
  else if decide (rec = SIGUSR2) then
    _ ← stop_or_idle;
    put reset_signals
  else
    _ ← (if decide (rec = SIGUSR1) then put (set_fork_in_road false) else mret ());
    _ ← propagate_signal strerror;
    stop_or_idle.

(** What a failed test changes. *)
Definition check_err (err : Z) : M () :=
  if decide (err = 0%Z) then mret ()
  else put (λ s,
    let s := if fork_in_road s then set_go_idle (go_idle s + 1) s else s in
    let s := if track_exit_stats cfg then set_exit_stat (exit_stat s + 1) s else s in
    if has_brakes cfg then wait_handler SIGINT s else s).

(** A turn of the main loop after the starts; [false] leaves the loop. *)
Definition main_rest : M bool :=
  _ ← check_stop;
  _ ← check_signal;
  err ← check_pids strerror cfg;
  _ ← check_err err;
  s ← get id;
  if bool_decide (stop s ≠ 0%Z) && bool_decide (num_active s = 0%Z) then mret false
  else
    _ ← put (λ s, if bool_decide (go_idle s ≠ 0%Z) && bool_decide (num_active s = 0%Z)
                  then wait_handler 0 (set_go_idle 0 s) else s);
    mret true.

Definition main_iter (fuel : nat) : M bool := _ ← fill_loop fuel; main_rest.

Fixpoint main_loop (fuel : nat) : M () :=
  match fuel with
  | O => lift Timeout
  | S fuel' => more ← main_iter (S fuel'); if (more : bool) then main_loop fuel' else mret ()
  end.

(** Waiting for the orphaned process groups. *)
Fixpoint orphan_loop (fuel : nat) : M () :=
  match fuel with
  | O => lift Timeout
  | S fuel' =>
      orphs ← get orphans;
      if forallb (λ p, bool_decide (p = 0%Z)) orphs then mret ()
      else
        _ ← poll_signals;
        _ ← put (λ s, if decide (rec_signal s = 0%Z) then wait_handler SIGINT s else s);
        _ ← propagate_signal strerror;
        orphan_loop fuel'
  end.

(** The end of main(); uname() is [uts]. *)
Definition main_end (uts : list ascii * list ascii * list ascii) : M () :=
  rc ← zoo_call (zoo_clear strerror true (panpid cfg));
  _ ← put (λ s, if decide (rc ≠ 0%Z) then set_exit_stat (exit_stat s + 1) s else s);
  s ← get id;
  let '(release, machine, nodename) := uts in
  _ ← (if logfile cfg && fmt_print cfg then
         print_log (NL ++ chars "-----------------------------------------------" ++ NL ++
           chars "Total Tests: " ++ print_d (Z.of_nat (length coll)) ++ NL ++
           chars "Total Skipped Tests: " ++ print_d (tconfcnt s) ++ NL ++
           chars "Total Failures: " ++ print_d (failcnt s) ++ NL ++
           chars "Kernel Version: " ++ release ++ NL ++
           chars "Machine Architecture: " ++ machine ++ NL ++
           chars "Hostname: " ++ nodename ++ NL ++ NL)
       else mret ());
  exit (exit_stat s).

(** The scheduler, the orphans and the end. *)
Definition schedule (fuel : nat) (uts : list ascii * list ascii * list ascii) : M () :=
  _ ← main_loop fuel;
  _ ← orphan_loop fuel;
  main_end uts.
End main.

(** ** Start-up *)

(** What main() asks its environment before the loop. *)
Record env := Env {
  e_ZOO : option (list ascii);                        (* the variable ZOO *)
  e_files : list ascii → option (list ascii);         (* the content of a file *)
  e_log_ok : bool;                                    (* the files of -l, -o, -C and -T can be opened *)
  e_out_ok : bool;
  e_fail_ok : bool;
  e_tconf_ok : bool;
  e_dir_ok : bool;                                    (* the directory of -O can be used *)
  e_startup : list ascii;                             (* the time as text *)
  e_pid : Z;
  e_kmsg_ok : bool;
  e_uts : list ascii * list ascii * list ascii;
}.

Definition log_header (fmt : bool) (s : list ascii) : list ascii :=
  if fmt then
    chars "Test Start Time: " ++ s ++ NL ++ chars "-----------------------------------------" ++ NL ++
    padr 50 (chars "Testcase") ++ chars " " ++ padr 10 (chars "Result") ++ chars " " ++ chars "Exit Value" ++ NL ++
    padr 50 (chars "--------") ++ chars " " ++ padr 10 (chars "------") ++ chars " " ++ chars "----------" ++ NL
  else chars "startup='" ++ s ++ chars "'" ++ NL.

(** The configuration, the collection, the name of the zoo, the number of starts
    and what the log begins with. *)
Record setup := Setup {
  s_config : config;
  s_coll : list coll_entry;
  s_zooname : list ascii;
  s_starts : Z;
  s_log : list ascii;
}.

(** From the options to the opening of the zoo.  malloc() of the slots fails for
    a negative number of them, and memset() goes wrong for -1. *)
Definition startup (en : env) (o : options) (args : list (list ascii)) : outcome (flow setup) :=
  match o_panname o, match o_zooname o with Some z => Some z | None => zoo_getname (e_ZOO en) end with
  | None, _ | _, None => Done (Exit 1)
  | Some panname, Some zooname =>
      let haslog := bool_decide (is_Some (o_logfilename o)) in
      let isstdout := bool_decide (o_logfilename o = Some (chars "-")) in
      if haslog && negb isstdout && negb (e_log_ok en) then Done (Exit 1)
      else
        coll ← get_collection (e_files en (o_filename o)) args;
        match coll with
        | None | Some [] => Done (Exit 1)
        | Some coll =>
            if decide (o_keep_active o < -1)%Z then Done (Exit 2)
            else if decide (o_keep_active o = -1)%Z then Fault
            else
              let starts := init_starts (o_timed o) (o_starts o) (o_sequential o)
                              (Z.of_nat (length coll)) (o_keep_active o) in
              let dir := if decide (o_keep_active o = 1%Z) then None else o_test_out_dir o in
              if bool_decide (is_Some dir) && negb (e_dir_ok en) then Done (Exit 1)
              else if bool_decide (is_Some (o_outputfilename o)) && negb (e_out_ok en) then Done (Exit 1)
              else if bool_decide (is_Some (o_failcmdfilename o)) && negb (e_fail_ok en) then Done (Exit 1)
              else if bool_decide (is_Some (o_tconfcmdfilename o)) && negb (e_tconf_ok en) then Done (Exit 1)
              else
                Done (Go (Setup
                  (Config (Z.to_nat (o_keep_active o)) (o_sequential o) (o_has_brakes o)
                     (o_track_exit_stats o) (o_fmt_print o) (o_quiet_mode o) (o_no_kmsg o)
                     (report_rts (o_reporttype o)) dir haslog
                     (bool_decide (is_Some (o_failcmdfilename o)))
                     (bool_decide (is_Some (o_tconfcmdfilename o)))
                     panname (e_pid en) (e_kmsg_ok en))
                  coll zooname starts
                  (if haslog then log_header (o_fmt_print o) (e_startup en) else [])))
        end
  end.

Section start.
Context {W : Type} `{!OS W} (strerror : Z → list ascii) (tries : nat).

#[local] Notation M := (M W).

(** The state the loop starts from; the zoo is opened by [open_zoo]. *)
Definition init_pan (st : setup) (fork : bool) (z : zoo) (w : W) : pan W :=
  Pan (replicate (keep_active (s_config st)) empty_slot) [0%Z] 0 0 0 (s_starts st) 0 0 0 fork 0
    0 0 0 0 1 z [] (s_log st) [] [] [] w.

(** A call of the zoo library that has to return 0. *)
Definition zoo_must (f : zoo → outcome (Z * zoo)) : M () :=
  rc ← zoo_call f; if decide (rc ≠ 0%Z) then exit 1 else mret ().

Fixpoint for_slots (n : nat) (c : Z) (f : Z → zoo → outcome (Z * zoo)) : M () :=
  match n with
  | O => mret ()
  | S n' => _ ← zoo_must (f c); for_slots n' (c + 1) f
  end.

(** The entry of pan itself, and room for the entries of the tests. *)
Definition open_zoo (st : setup) (argv : list (list ascii)) : M () :=
  let cfg := s_config st in
  _ ← zoo_must (λ z, let '(fp, z) := zoo_open strerror (s_zooname st) z in
                     Done (if (fp : bool) then 0 else 1, z)%Z);
  _ ← zoo_must (zoo_mark_args strerror true (panpid cfg) (panname cfg) argv);
  _ ← for_slots (keep_active cfg) 0 (λ c, zoo_mark_cmdline strerror true c (panname cfg) []);
  for_slots (keep_active cfg) 0 (λ c, zoo_clear strerror true c).

(** main(): [opts] is what getopt() finds in [argv], [args] what it leaves. *)
Definition main (en : env) (fuel : nat) (opts : list (ascii * list ascii)) (args argv : list (list ascii))
    (z : zoo) (w : W) : outcome (flow () * option (pan W)) :=
  o ← parse_opts default_options opts;
  match o with
  | Exit code => Done (Exit code, None)
  | Go o =>
      st ← startup en o args;
      match st with
      | Exit code => Done (Exit code, None)
      | Go st =>
          '(r, s) ← (_ ← open_zoo st argv;
                     schedule strerror (s_config st) tries (s_coll st) fuel (e_uts en))
                    (init_pan st (o_fork_in_road o) z w);
          Done (r, Some s)
      end
  end.
End start.
