(* ===== verification/PanSched.v ===== *)
(** * The scheduler of ltp-pan: contract of the system and correctness

    [OSLaws] is what the scheduler relies on: wait() reports children that were
    forked and not yet reported, no other call changes the children.  [wp] is the
    postcondition calculus of the steps; the theorems are that the table of
    running tests always agrees with the children, that a free slot is found
    whenever one is needed, that the main loop never ends with a child running,
    and that a sequential run executes every command once, in order, and counts
    the failures. *)
From stdpp Require Import base strings numbers option list relations.
From Stdlib Require Import Ascii.
From S2P Require Import Prelude CInt CText SplitStr Zoo PanColl Pan PanMain.

(** ** The contract *)

(** What can be said about the system: the children that were not reaped, what was
    executed and how it ended so far, that the system is calm for a number of
    forks (it neither fails nor interrupts, and every child exits), and the pid of
    pan itself. *)
Class OSView (W : Type) := {
  self : Z;
  children : W → list Z;
  execs : W → list exec_call;
  codes : W → list Z;
  calm : nat → W → Prop;
}.
Arguments self W {_}.

Record same_world `{OSView W} (w w' : W) : Prop := SameWorld {
  sw_children : children w' = children w;
  sw_execs : execs w' = execs w;
  sw_codes : codes w' = codes w;
  sw_calm : ∀ n, calm n w → calm n w';
}.

#[export] Instance same_world_preorder `{OSView W} : PreOrder same_world.
Proof.
  split; [by constructor|]. intros w1 w2 w3 [? ? ? ?] [? ? ? ?].
  constructor; [congruence..|auto].
Qed.

Class OSLaws (W : Type) `{!OS W, !OSView W} := {
  law_time w : same_world w (os_time w).2;
  law_times w : same_world w (os_times w).2;
  law_open p w : same_world w (os_open p w).2;
  law_unlink p w : same_world w (os_unlink p w).2;
  law_slurp p w : same_world w (os_slurp p w).2;
  law_pipe w : same_world w (os_pipe w).2;
  law_kill p sig w : same_world w (os_kill p sig w).2;
  law_lrand48 w : same_world w (os_lrand48 w).2 ∧ (0 ≤ (os_lrand48 w).1)%Z;
  law_signals w : same_world w (os_signals w).2;
  law_stop_file w : same_world w (os_stop_file w).2;
  (** fork() adds the child, which has a pid of its own; a child that failed to
      execute its command has been waited for. *)
  law_fork c w : match os_fork c w with
    | (ForkOk pid, w') => (0 < pid)%Z ∧ pid ∉ self W :: children w ∧ children w' = pid :: children w ∧
                          execs w' = execs w ++ [c] ∧ codes w' = codes w
    | (ForkInterrupted pid, w') => children w' = pid :: children w
    | (_, w') => children w' = children w
    end;
  (** wait() reports one child, and only that it terminated. *)
  law_wait w : match os_wait w with
    | (_, WaitChild pid st, w') => children w ≡ₚ pid :: children w' ∧ execs w' = execs w ∧
        codes w' = codes w ++ [st] ∧ ((decode st).1 = exited ∨ (decode st).1 = signaled)
    | (_, WaitErr _, w') => children w' = children w
    end;
  (** What calm means. *)
  calm_pipe n w : calm n w → (os_pipe w).1 = 0%Z;
  calm_signals n w : calm n w → (os_signals w).1 = [];
  calm_stop_file n w : calm n w → (os_stop_file w).1 = false;
  calm_kill n p sig w : calm n w → p ∉ children w → (os_kill (- p) sig w).1 = ESRCH;
  calm_fork n c w : calm (S n) w →
    ∃ pid w', os_fork c w = (ForkOk pid, w') ∧ (pid ≤ INT_MAX)%Z ∧ calm n w';
  calm_wait n w : calm n w → children w ≠ [] →
    ∃ pid st w', os_wait w = ([], WaitChild pid st, w') ∧ (decode st).1 = exited ∧ calm n w';
}.

(** ** Postconditions of steps *)

(** [Q] holds when the step goes on, [X] when it exits, faults or runs out of
    fuel: [True] for what holds as long as it goes on, [False] to show that it does. *)
Definition wp {W A} (X : Prop) (m : M W A) (s : pan W) (Q : A → pan W → Prop) : Prop :=
  match m s with Done (Go a, s') => Q a s' | _ => X end.

Section wp.
Context {W : Type} (X : Prop).
Implicit Types s : pan W.

Lemma pwp_mono {A} (m : M W A) s (Q Q' : A → pan W → Prop) :
  wp X m s Q → (∀ a s', Q a s' → Q' a s') → wp X m s Q'.
Proof. unfold wp. destruct (m s) as [[[a|c] s']| |]; auto. Qed.

Lemma pwp_bind {A B} (m : M W A) (k : A → M W B) s Q :
  wp X m s (λ a s', wp X (k a) s' Q) → wp X (m ≫= k) s Q.
Proof. unfold wp, mbind, M_bind. by destruct (m s) as [[[a|c] s']| |]. Qed.

Lemma pwp_ret {A} (a : A) s (Q : A → pan W → Prop) : Q a s → wp X (mret a) s Q.
Proof. done. Qed.

Lemma pwp_get {A} (f : pan W → A) s (Q : A → pan W → Prop) : Q (f s) s → wp X (get f) s Q.
Proof. done. Qed.

Lemma pwp_put (f : pan W → pan W) s (Q : () → pan W → Prop) : Q () (f s) → wp X (put f) s Q.
Proof. done. Qed.

Lemma wp_sys {A} (f : W → A * W) s (Q : A → pan W → Prop) :
  Q (f (world s)).1 (set_world (f (world s)).2 s) → wp X (sys f) s Q.
Proof. unfold wp, sys. by destruct (f (world s)). Qed.

Lemma pwp_lift {A} (o : outcome A) s (Q : A → pan W → Prop) :
  (∀ a, o = Done a → Q a s) → X ∨ (∃ a, o = Done a) → wp X (lift o) s Q.
Proof. unfold wp, lift. destruct o; naive_solver. Qed.

Lemma pwp_exit {A} code s (Q : A → pan W → Prop) : X → wp X (exit code) s Q.
Proof. done. Qed.

Lemma wp_zoo f s (Q : Z → pan W → Prop) :
  (∀ r z, f (zoofile s) = Done (r, z) → Q r (set_zoofile z s)) →
  X ∨ (∃ r z, f (zoofile s) = Done (r, z)) → wp X (zoo_call f) s Q.
Proof. unfold wp, zoo_call. destruct (f (zoofile s)) as [[r z]| |]; naive_solver. Qed.

(** A finished run gives its postcondition. *)
Lemma wp_elim {A} (m : M W A) s a s' (Q : A → pan W → Prop) :
  wp X m s Q → m s = Done (Go a, s') → Q a s'.
Proof. unfold wp. intros H E. by rewrite E in H. Qed.
End wp.

(** A step that goes on has every postcondition it has if it goes on. *)
Lemma wp_and {W A} (m : M W A) s (Q Q' : A → pan W → Prop) :
  wp False m s Q → wp True m s Q' → wp False m s (λ a s', Q a s' ∧ Q' a s').
Proof. unfold wp. by destruct (m s) as [[[a|c] s']| |]. Qed.

Lemma wp_total {W A} (m : M W A) s (Q : A → pan W → Prop) :
  wp False m s Q → ∃ a s', m s = Done (Go a, s') ∧ Q a s'.
Proof. unfold wp. destruct (m s) as [[[a|c] s']| |]; naive_solver. Qed.

(** ** The table of running tests and the children *)

Section safety.
Context `{!OS W, !OSView W, !OSLaws W} (strerror : Z → list ascii) (cfg : config) (tries : nat).
Context (coll : list coll_entry).
Implicit Types s : pan W.

Definition pgrps s : list Z := pgrp <$> running s.

(** The slots in use hold exactly the children, which [num_active] counts. *)
Record sched_inv s : Prop := SchedInv {
  inv_slots : length (running s) = keep_active cfg;
  inv_children : filter (λ p, p ≠ 0%Z) (pgrps s) ≡ₚ children (world s);
  inv_active : num_active s = Z.of_nat (length (children (world s)));
  inv_pos : Forall (λ p, 0 < p)%Z (children (world s));
}.

(** A step that touches neither the groups in the slots nor the children. *)
Record kept s s' : Prop := Kept {
  kept_pgrps : pgrps s' = pgrps s;
  kept_active : num_active s' = num_active s;
  kept_children : children (world s') = children (world s);
}.

#[export] Instance kept_preorder : PreOrder kept.
Proof. split; [by constructor|]. intros s1 s2 s3 [] []. constructor; congruence. Qed.

Lemma kept_inv s s' : kept s s' → sched_inv s → sched_inv s'.
Proof.
  intros [Hp Ha Hc] [H1 H2 H3 H4]. constructor.
  - apply (f_equal length) in Hp. unfold pgrps in Hp. rewrite !length_fmap in Hp. congruence.
  - by rewrite Hp, Hc.
  - by rewrite Ha, Hc.
  - by rewrite Hc.
Qed.

(** Steps that keep the table. *)
Definition keeps {A} (m : M W A) : Prop := ∀ s, wp True m s (λ _ s', kept s s').

Lemma keeps_bind {A B} (m : M W A) (k : A → M W B) : keeps m → (∀ a, keeps (k a)) → keeps (m ≫= k).
Proof.
  intros Hm Hk s. apply pwp_bind. eapply pwp_mono; [apply Hm|]. intros a s1 H1.
  eapply pwp_mono; [apply Hk|]. intros b s2 H2. by trans s1.
Qed.

Lemma keeps_ret {A} (a : A) : keeps (mret a).
Proof. intros s. by apply pwp_ret. Qed.
Lemma keeps_get {A} (f : pan W → A) : keeps (get f).
Proof. intros s. by apply pwp_get. Qed.
Lemma keeps_put f : (∀ s, kept s (f s)) → keeps (put f).
Proof. intros H s. by apply pwp_put. Qed.
Lemma keeps_lift {A} (o : outcome A) : keeps (lift o).
Proof. intros s. apply pwp_lift; [done|by left]. Qed.
Lemma keeps_exit {A} c : keeps (exit (A := A) c).
Proof. intros s. by apply pwp_exit. Qed.
Lemma keeps_zoo f : keeps (zoo_call f).
Proof. intros s. apply wp_zoo; [|by left]. intros r z _. by constructor. Qed.
Lemma keeps_sys {A} (f : W → A * W) : (∀ w, same_world w (f w).2) → keeps (sys f).
Proof. intros H s. apply wp_sys. constructor; [done|done|]. apply H. Qed.
Lemma keeps_if {A} (b : bool) (m1 m2 : M W A) : keeps m1 → keeps m2 → keeps (if b then m1 else m2).
Proof. by destruct b. Qed.
Lemma keeps_decide {A} P `{Decision P} (m1 m2 : M W A) :
  keeps m1 → keeps m2 → keeps (if decide P then m1 else m2).
Proof. by case_decide. Qed.

Lemma keeps_slot i f : (∀ r, pgrp (f r) = pgrp r) → keeps (set_slot i f).
Proof.
  intros Hf. apply keeps_put. intros s. constructor; [|done|done]. unfold pgrps. simpl.
  generalize (running s) as l. intros l. revert i. induction l as [|r l IH]; intros [|i]; cbn; [done|done|by rewrite Hf|].
  f_equal. apply IH.
Qed.
End safety.

Create HintDb keeps discriminated.
#[export] Hint Resolve law_time law_times law_open law_unlink law_slurp law_pipe law_kill law_signals law_stop_file : keeps.

(** Takes a step apart into primitive ones and discharges those. *)
Ltac keeps_tac :=
  repeat first
    [ progress intros | assumption
    | apply keeps_ret | apply keeps_get | apply keeps_lift | apply keeps_exit | apply keeps_zoo
    | apply keeps_bind | apply keeps_if | apply keeps_decide
    | apply keeps_sys; solve [eauto with keeps]
    | apply keeps_slot; done
    | apply keeps_put; intros; constructor; done
    | match goal with |- keeps (match ?x with _ => _ end) => destruct x end ].

Section keeps.
Context `{!OS W, !OSView W, !OSLaws W} (strerror : Z → list ascii) (cfg : config) (tries : nat).
Context (coll : list coll_entry).
Implicit Types s : pan W.

Lemma wait_handler_kept sig s : kept s (wait_handler sig s).
Proof. unfold wait_handler. repeat case_decide; by constructor. Qed.

Lemma handle_signals_kept sigs s : kept s (handle_signals sigs s).
Proof.
  revert s. induction sigs as [|sig sigs IH]; intros s; [done|]. cbn.
  trans (wait_handler sig s); [apply wait_handler_kept|apply IH].
Qed.

Lemma poll_signals_keeps : keeps (poll_signals (W := W)).
Proof. apply keeps_bind; [keeps_tac|]. intros sigs. apply keeps_put. apply handle_signals_kept. Qed.

Lemma check_orphans_keeps sig : keeps (check_orphans (W := W) strerror sig).
Proof.
  assert (∀ l, keeps (check_orphans_loop (W := W) strerror sig l)) as Hl.
  { induction l as [|o l IH]; cbn [check_orphans_loop]; [keeps_tac|].
    apply keeps_bind; [unfold check_orphan; keeps_tac|]. intros. apply keeps_bind; [done|]. keeps_tac. }
  unfold check_orphans. apply keeps_bind; [keeps_tac|]. intros l.
  apply keeps_bind; [apply Hl|]. keeps_tac.
Qed.

(** propagate_signal() sets a flag in the slots, nothing else. *)
Lemma propagate_loop_wp sig slots s :
  wp True (propagate_loop sig slots) s (λ slots' s', pgrp <$> slots' = pgrp <$> slots ∧ kept s s' ∧ running s' = running s).
Proof.
  revert s. induction slots as [|r slots IH]; intros s; cbn [propagate_loop]; [by apply pwp_ret|].
  case_decide.
  - apply pwp_bind. eapply pwp_mono; [apply IH|]. intros slots' s' (H1 & H2 & H3). apply pwp_ret.
    split_and!; [|done|done]. by rewrite !fmap_cons, H1.
  - apply pwp_bind, wp_sys, pwp_bind. eapply pwp_mono; [apply IH|]. intros slots' s' (H1 & H2 & H3). apply pwp_ret.
    split_and!; [by rewrite !fmap_cons, H1| |done].
    etrans; [|exact H2]. constructor; [done|done|apply law_kill].
Qed.

Lemma propagate_signal_keeps : keeps (propagate_signal (W := W) strerror).
Proof.
  unfold propagate_signal. apply keeps_bind; [keeps_tac|]. intros rec.
  apply keeps_bind; [unfold print; keeps_tac|]. intros _. apply keeps_bind; [keeps_tac|]. intros sig s.
  apply pwp_bind, pwp_get, pwp_bind. eapply pwp_mono; [apply propagate_loop_wp|].
  intros slots s1 (H1 & H2 & H3). apply pwp_bind, pwp_put.
  assert (kept s (set_running slots s1)) as H4.
  { constructor; [|apply H2|apply H2]. unfold pgrps. simpl. by rewrite H1. }
  apply pwp_bind. eapply pwp_mono; [apply check_orphans_keeps|]. intros [] s2 H5.
  apply pwp_put. trans (set_running slots s1); [done|]. trans s2; [done|]. by constructor.
Qed.

Lemma write_test_start_keeps r : keeps (write_test_start (W := W) cfg r).
Proof. unfold write_test_start, write_kmsg, print. keeps_tac. Qed.

Lemma write_test_end_keeps r st t ty stat id times : keeps (write_test_end (W := W) cfg r st t ty stat id times).
Proof. unfold write_test_end, print. keeps_tac. Qed.

Lemma open_output_keeps n dir i colle : keeps (open_output (W := W) n dir i colle).
Proof.
  induction n as [|n IH]; cbn [open_output]; [keeps_tac|].
  repeat (apply keeps_bind; [keeps_tac|]; intros). keeps_tac.
Qed.

Lemma unlink_output_keeps i : keeps (unlink_output (W := W) cfg i).
Proof. unfold unlink_output. destruct (test_out_dir cfg); keeps_tac. Qed.

Lemma start_failed_keeps i colle errbuf status : keeps (start_failed (W := W) cfg i colle errbuf status).
Proof.
  unfold start_failed, print_log. destruct (decode status).
  repeat (apply keeps_bind; [keeps_tac; apply keeps_put; intros; case_decide; by constructor|]; intros).
  apply unlink_output_keeps.
Qed.

Lemma log_result_keeps c r t st w stat times : keeps (log_result (W := W) cfg c r t st w stat times).
Proof. unfold log_result, print_log. keeps_tac. Qed.

Lemma log_command_keeps c w : keeps (log_command (W := W) cfg c w).
Proof. unfold log_command. keeps_tac. Qed.

Lemma copy_buffered_output_keeps r : keeps (copy_buffered_output (W := W) r).
Proof. unfold copy_buffered_output, print. keeps_tac. Qed.

Lemma adopt_orphans_keeps c cpid : keeps (adopt_orphans (W := W) strerror c cpid).
Proof. unfold adopt_orphans. keeps_tac. Qed.

Lemma check_stop_keeps : keeps (check_stop (W := W) cfg).
Proof. unfold check_stop, print. keeps_tac. Qed.

Lemma stop_or_idle_keeps : keeps (stop_or_idle (W := W)).
Proof. apply keeps_put. intros s. destruct (fork_in_road s); by constructor. Qed.

Lemma check_signal_keeps : keeps (check_signal (W := W) strerror).
Proof.
  unfold check_signal. apply keeps_bind; [keeps_tac|]. intros rec. apply keeps_decide; [keeps_tac|].
  apply keeps_decide.
  - apply keeps_bind; [apply stop_or_idle_keeps|keeps_tac].
  - apply keeps_bind; [keeps_tac|]. intros _. apply keeps_bind; [apply propagate_signal_keeps|].
    intros _. apply stop_or_idle_keeps.
Qed.

Lemma check_err_keeps err : keeps (check_err (W := W) cfg err).
Proof.
  unfold check_err. apply keeps_decide; [keeps_tac|]. apply keeps_put. intros s.
  set (s1 := if fork_in_road s then _ else s). assert (kept s s1) as H1 by (subst s1; destruct (fork_in_road s); by constructor).
  set (s2 := if track_exit_stats cfg then _ else s1).
  assert (kept s s2) as H2 by (subst s2; destruct (track_exit_stats cfg); [by etrans; [exact H1|constructor]|done]).
  destruct (has_brakes cfg); [|done]. trans s2; [done|apply wait_handler_kept].
Qed.

Lemma next_command_keeps : keeps (next_command (W := W) cfg coll).
Proof. unfold next_command. keeps_tac. apply keeps_sys. intros. apply law_lrand48. Qed.
End keeps.

(** ** Slots *)

Lemma pgrp_alter f p (i : nat) (l : list tag_pgrp) : (∀ r, pgrp (f r) = p) → pgrp <$> alter f i l = alter (λ _, p) i (pgrp <$> l).
Proof.
  intros Hf. revert i. induction l as [|r l IH]; intros [|i]; cbn; [done|done|by rewrite Hf|].
  f_equal. apply IH.
Qed.

(** Taking a free slot, and freeing one. *)
Lemma filter_take_slot (i : nat) p (l : list Z) :
  l !! i = Some 0%Z → p ≠ 0%Z →
  filter (λ p, p ≠ 0%Z) (alter (λ _, p) i l) ≡ₚ p :: filter (λ p, p ≠ 0%Z) l.
Proof.
  intros Hi Hp. revert i Hi. induction l as [|q l IH]; intros [|i] Hi; simplify_eq/=.
  - change (alter _ 0 (0%Z :: l)) with (p :: l). by rewrite filter_cons_True, (filter_cons_False _ 0%Z) by auto.
  - change (alter _ (S i) (q :: l)) with (q :: alter (λ _, p) i l). rewrite !filter_cons.
    case_decide; rewrite (IH i Hi); [apply Permutation_swap|done].
Qed.

Lemma filter_free_slot (i : nat) p (l : list Z) :
  l !! i = Some p → p ≠ 0%Z →
  filter (λ p, p ≠ 0%Z) l ≡ₚ p :: filter (λ p, p ≠ 0%Z) (alter (λ _, 0%Z) i l).
Proof.
  intros Hi Hp. revert i Hi. induction l as [|q l IH]; intros [|i] Hi; simplify_eq/=.
  - change (alter _ 0 (p :: l)) with (0%Z :: l). by rewrite filter_cons_True, (filter_cons_False _ 0%Z) by auto.
  - change (alter _ (S i) (q :: l)) with (q :: alter (λ _, 0%Z) i l). rewrite !filter_cons.
    case_decide; rewrite (IH i Hi); [apply Permutation_swap|done].
Qed.

(** Fewer slots in use than slots: one is free. *)
Lemma free_slot l : length (filter (λ p, p ≠ 0%Z) (pgrp <$> l)) < length l → ∃ i r, list_find (λ r, pgrp r = 0%Z) l = Some (i, r).
Proof.
  intros Hl. destruct (list_find (λ r, pgrp r = 0%Z) l) as [[i r]|] eqn:E; [eauto|].
  apply list_find_None in E. exfalso.
  assert (length (filter (λ p, p ≠ 0%Z) (pgrp <$> l)) = length l); [|lia]. clear Hl.
  induction E as [|r l Hr _ IH]; [done|]. rewrite fmap_cons, filter_cons_True by done. simpl. by rewrite IH.
Qed.

(** A group in the table has a slot. *)
Lemma slot_of (l : list tag_pgrp) pid : pid ∈ pgrp <$> l → ∃ i r, list_find (λ r, pgrp r = pid) l = Some (i, r).
Proof.
  intros Hin. destruct (list_find _ l) as [[i r]|] eqn:E; [eauto|]. apply list_find_None in E. exfalso.
  apply list_elem_of_fmap in Hin as (r & -> & Hr). rewrite Forall_forall in E. by apply (E r).
Qed.

Section invariant.
Context `{!OS W, !OSView W, !OSLaws W} (strerror : Z → list ascii) (cfg : config) (tries : nat).
Context (coll : list coll_entry).
Implicit Types s : pan W.

#[local] Notation sched_inv := (sched_inv cfg).

(** A step that keeps the table keeps the invariant. *)
Lemma keeps_then {A B} (m : M W A) (k : A → M W B) s Q :
  keeps m → sched_inv s → (∀ a s', sched_inv s' → wp True (k a) s' Q) → wp True (m ≫= k) s Q.
Proof.
  intros Hm Hs Hk. apply pwp_bind. eapply pwp_mono; [apply Hm|]. intros a s' H. apply Hk. by eapply kept_inv; [exact H|].
Qed.

(** What run_child() does to the table. *)
Record started s (i : nat) (cpid : Z) s' : Prop := Started {
  started_pos : (0 < cpid)%Z;
  started_pgrps : pgrps s' = alter (λ _, cpid) i (pgrps s);
  started_active : num_active s' = num_active s;
  started_children : children (world s') = cpid :: children (world s);
}.

Lemma started_kept s s1 s2 s3 i cpid : kept s s1 → started s1 i cpid s2 → kept s2 s3 → started s i cpid s3.
Proof.
  intros [Hp Ha Hc] [H1 H2 H3 H4] [Hp' Ha' Hc'].
  constructor; [done|by rewrite Hp', H2, Hp|by rewrite Ha', H3|by rewrite Hc', H4, Hc].
Qed.

Lemma run_child_table i colle s :
  wp True (run_child strerror cfg tries i colle) s (λ cpid s', cpid = (-1)%Z ∧ kept s s' ∨ started s i cpid s').
Proof.
  unfold run_child. apply pwp_bind.
  assert (keeps (match test_out_dir cfg with Some dir => open_output tries dir i colle | None => mret true end)) as Ho
    by (destruct (test_out_dir cfg); [apply open_output_keeps|keeps_tac]).
  eapply pwp_mono; [apply Ho|]. intros opened s1 H1. destruct opened; [|by apply pwp_ret; left].
  cbn [negb]. apply pwp_bind, pwp_get, pwp_bind, pwp_lift; [|by left]. intros [c_cmdline n] _.
  apply pwp_bind, pwp_put, pwp_bind, wp_sys.
  set (s2 := set_world _ _). assert (kept s s2) as H2.
  { trans s1; [done|]. subst s2. constructor; [done|done|]. apply law_pipe. }
  clearbody s2. case_decide.
  { apply pwp_bind. eapply pwp_mono; [apply unlink_output_keeps|]. intros [] s3 H3. apply pwp_ret. left. split; [done|by trans s2]. }
  apply pwp_bind. eapply pwp_mono; [apply (keeps_sys (W := W) os_time), law_time|]. intros t s3 H3.
  apply pwp_bind. eapply pwp_mono; [by apply keeps_slot|]. intros [] s4 H4.
  apply pwp_bind, pwp_get, pwp_bind, pwp_lift; [|by left]. intros r _.
  apply pwp_bind. eapply pwp_mono; [apply keeps_if; [apply write_test_start_keeps|keeps_tac]|]. intros [] s5 H5.
  apply pwp_bind, pwp_lift; [|by left]. intros call _. apply pwp_bind, wp_sys.
  assert (kept s s5) as H6 by by trans s2; [|trans s3; [|trans s4]].
  pose proof (law_fork call (world s5)) as Hf. destruct (os_fork call (world s5)) as [[e|pid at_ e st|pid|pid] w].
  - apply pwp_bind. eapply pwp_mono; [apply unlink_output_keeps|]. intros [] s7 H7. apply pwp_ret. left. split; [done|].
    trans s5; [done|]. trans (set_world w s5); [by constructor|done].
  - assert (kept s (set_world w s5)) as H7 by (trans s5; [done|]; by constructor).
    apply pwp_bind, pwp_lift; [|by left]. intros errbuf _. apply pwp_bind.
    eapply pwp_mono; [apply start_failed_keeps|]. intros [] s8 H8. apply pwp_ret. left. split; [done|]. by etrans.
  - by apply pwp_lift; [|left].
  - destruct Hf as (Hpos & _ & Hch & _).
    apply pwp_bind, pwp_put, pwp_bind.
    set (s7 := set_running _ _). assert (started s5 i pid s7) as H7.
    { subst s7. constructor; [done| |done|done]. unfold pgrps. simpl. by apply pgrp_alter. }
    eapply pwp_mono; [apply keeps_zoo|]. intros rc s8 H8. case_decide; [by apply pwp_exit|].
    apply pwp_ret. right. by eapply started_kept.
Qed.

Lemma fill_step_inv s : sched_inv s → wp True (fill_step strerror cfg tries coll) s (λ _ s', sched_inv s').
Proof.
  intros Hs. unfold fill_step. apply keeps_then; [apply poll_signals_keeps|done|]. intros [] s1 H1.
  apply pwp_bind, pwp_get. destruct (negb _); [by apply pwp_ret|]. destruct (_ || _); [by apply pwp_ret|].
  apply keeps_then; [apply next_command_keeps|done|]. intros [] s2 H2. apply pwp_bind, pwp_get.
  destruct (list_find _ (running (id s2))) as [[i r]|] eqn:E.
  2: { apply keeps_then; [apply keeps_put, wait_handler_kept|done|]. intros [] s3 H3.
       apply keeps_then; [keeps_tac|done|]. intros [] s4 H4. by apply pwp_ret. }
  apply pwp_bind, pwp_lift; [|by left]. intros colle _. apply pwp_bind.
  eapply pwp_mono; [apply run_child_table|]. intros cpid s3 H3. apply pwp_bind, pwp_put, pwp_ret.
  set (sa := if decide (cpid ≠ (-1)%Z) then set_num_active (num_active s3 + 1) s3 else s3).
  apply (kept_inv cfg sa).
  { clearbody sa. cbn zeta. destruct (_ && _), (sequential cfg); by constructor. }
  destruct H3 as [[-> H3]|H3]; subst sa.
  { rewrite decide_False by auto. by eapply kept_inv. }
  destruct H3 as [Hpos Hp Ha Hc]. rewrite decide_True by lia. apply list_find_Some in E as (Hi & Hz & _).
  destruct H2 as [I1 I2 I3 I4].
  assert (pgrps s2 !! i = Some 0%Z) as Hi0 by (unfold pgrps; rewrite list_lookup_fmap; cbn in Hi; by rewrite Hi, <-Hz).
  constructor.
  - change (length (running s3) = keep_active cfg). apply (f_equal length) in Hp. rewrite length_alter in Hp.
    unfold pgrps in Hp. rewrite !length_fmap in Hp. congruence.
  - change (filter (λ p, p ≠ 0%Z) (pgrps s3) ≡ₚ children (world s3)).
    rewrite Hp, Hc, filter_take_slot by (done || lia). by rewrite I2.
  - change (num_active s3 + 1 = Z.of_nat (length (children (world s3))))%Z. rewrite Ha, I3, Hc. simpl. lia.
  - change (Forall (λ p, 0 < p)%Z (children (world s3))). rewrite Hc. by constructor.
Qed.

(** Reaping gives back the slot of the child. *)
Lemma reap_table i r cpid stat_loc status w ret times s :
  wp True (reap strerror cfg i r cpid stat_loc status w ret times) s (λ _ s',
    pgrps s' = alter (λ _, 0%Z) i (pgrps s) ∧ num_active s' = num_active s ∧
    children (world s') = children (world s)).
Proof.
  unfold reap.
  apply pwp_bind. eapply pwp_mono; [apply (keeps_sys (W := W) os_time), law_time|]. intros t s1 H1.
  apply pwp_bind, pwp_lift; [|by left]. intros c _.
  apply pwp_bind. eapply pwp_mono; [apply log_result_keeps|]. intros [] s2 H2.
  apply pwp_bind. eapply pwp_mono; [apply log_command_keeps|]. intros [] s3 H3.
  apply pwp_bind. eapply pwp_mono.
  { apply keeps_if; [|keeps_tac]. apply keeps_bind; [apply keeps_if; [apply write_test_start_keeps|keeps_tac]|].
    intros []. apply keeps_bind; [apply copy_buffered_output_keeps|keeps_tac]. }
  intros [] s4 H4. apply pwp_bind. eapply pwp_mono; [apply keeps_if; [apply write_test_end_keeps|keeps_tac]|].
  intros [] s5 H5. assert (kept s s5) as [K1 K2 K3] by by trans s1; [|trans s2; [|trans s3; [|trans s4]]].
  apply pwp_bind, pwp_put. set (s6 := set_running _ _).
  assert (pgrps s6 = alter (λ _, 0%Z) i (pgrps s)) as K4.
  { subst s6. rewrite <-K1. by apply pgrp_alter. }
  apply pwp_bind. eapply pwp_mono; [apply keeps_zoo|]. intros rc s7 H7. case_decide; [by apply pwp_exit|].
  apply pwp_bind. eapply pwp_mono; [apply adopt_orphans_keeps|]. intros [] s8 H8. apply pwp_ret.
  assert (kept s6 s8) as [L1 L2 L3] by by trans s7.
  split_and!; [by rewrite L1|by rewrite L2|by rewrite L3].
Qed.

Lemma check_pids_inv s : sched_inv s → wp True (check_pids strerror cfg) s (λ _ s', sched_inv s').
Proof.
  intros Hs. unfold check_pids. apply keeps_then; [apply check_orphans_keeps|done|]. intros [] s1 H1.
  apply keeps_then; [apply keeps_sys, law_times|done|]. intros [cu1 cs1] s2 H2.
  apply pwp_bind, wp_sys. pose proof (law_wait (world s2)) as Hw.
  destruct (os_wait (world s2)) as [[sigs [e|cpid st]] w]; cbn [fst snd].
  - assert (sched_inv (set_world w s2)) as H3 by (eapply kept_inv; [|exact H2]; by constructor).
    apply keeps_then; [apply keeps_put, handle_signals_kept|done|]. intros [] s4 H4.
    apply keeps_then; [apply keeps_sys, law_times|done|]. intros [cu2 cs2] s5 H5. by apply pwp_ret.
  - destruct Hw as (Hch & _ & _ & Hst). apply pwp_bind, pwp_put. set (s3 := handle_signals _ _).
    assert (kept (set_world w s2) s3) as K3 by apply handle_signals_kept. clearbody s3.
    apply pwp_bind. eapply pwp_mono; [apply keeps_sys, law_times|]. intros [cu2 cs2] s4 H4.
    unfold child_ended. destruct (decode st) as [status v]. apply pwp_bind, pwp_put. rewrite decide_True by naive_solver.
    assert (kept (set_world w s2) s4) as [K1 K2 K4] by by etrans. clear K3 H4.
    apply pwp_bind, pwp_get. destruct H2 as [I1 I2 I3 I4].
    change (pgrps s4 = pgrps s2) in K1. change (num_active s4 = num_active s2) in K2.
    change (children (world s4) = children w) in K4.
    assert (cpid ∈ pgrps s2 ∧ cpid ≠ 0%Z) as [Hin Hne].
    { assert (cpid ∈ children (world s2)) as Hc by (rewrite Hch; by left). rewrite <-I2 in Hc.
      by apply list_elem_of_filter in Hc as [? ?]. }
    rewrite <-K1 in Hin. destruct (slot_of (running s4) cpid Hin) as (i & r & E).
    cbn [running set_num_active]. rewrite E. apply list_find_Some in E as (Hi & Hpid & _).
    eapply pwp_mono; [apply reap_table|]. intros ret s5 (L1 & L2 & L3).
    change (pgrps (set_num_active _ _)) with (pgrps s4) in L1. cbn in L2, L3. rewrite K1 in L1.
    assert (pgrps s2 !! i = Some cpid) as Hi'.
    { rewrite <-K1. unfold pgrps. rewrite list_lookup_fmap. cbn in Hi. by rewrite Hi, <-Hpid. }
    constructor.
    + apply (f_equal length) in L1. rewrite length_alter in L1. unfold pgrps in L1.
      rewrite !length_fmap in L1. congruence.
    + rewrite L1, L3, K4. apply (Permutation_cons_inv (a := cpid)).
      rewrite <-filter_free_slot by done. by rewrite I2, Hch.
    + rewrite L2, L3, K2, K4, I3, Hch. simpl. lia.
    + rewrite L3, K4. rewrite Hch in I4. by apply Forall_cons in I4 as [_ ?].
Qed.

Lemma main_rest_inv s : sched_inv s → wp True (main_rest strerror cfg) s (λ more s', sched_inv s' ∧
  (more = false → num_active s' = 0%Z)).
Proof.
  intros Hs. unfold main_rest. apply keeps_then; [apply check_stop_keeps|done|]. intros [] s1 H1.
  apply keeps_then; [apply check_signal_keeps|done|]. intros [] s2 H2.
  apply pwp_bind. eapply pwp_mono; [by apply check_pids_inv|]. intros err s3 H3.
  apply keeps_then; [apply check_err_keeps|done|]. intros [] s4 H4. apply pwp_bind, pwp_get.
  destruct (_ && _) eqn:E.
  - apply pwp_ret. split; [done|]. intros _. apply andb_true_iff in E as [_ E]. by apply bool_decide_eq_true in E.
  - apply pwp_bind, pwp_put, pwp_ret. split; [|done]. case_match; [|done].
    eapply kept_inv; [|exact H4]. trans (set_go_idle 0 s4); [by constructor|apply wait_handler_kept].
Qed.
End invariant.

(** ** A simulated system

    It numbers its children, reaps the youngest first, and lets them exit with the
    statuses of a plan; nothing fails and no signal arrives. *)
Record sim := Sim {
  sim_children : list Z;
  sim_execs : list exec_call;
  sim_codes : list Z;
  sim_next : Z;
  sim_plan : list Z;
}.

Definition sim_status (plan : list Z) : Z :=
  let st := default 0%Z (head plan) in if decide ((decode st).1 = exited) then st else 0%Z.

#[export] Instance sim_OS : OS sim := {
  os_time w := (0%Z, w);
  os_times w := (0%Z, 0%Z, w);
  os_open _ w := (0%Z, w);
  os_unlink _ w := (0%Z, w);
  os_slurp _ w := (None, w);
  os_pipe w := (0%Z, w);
  os_fork c w :=
    if decide (1 < sim_next w ∧ sim_next w ∉ sim_children w)%Z then
      (ForkOk (sim_next w),
       Sim (sim_next w :: sim_children w) (sim_execs w ++ [c]) (sim_codes w) (sim_next w + 1) (sim_plan w))
    else (ForkErr 11, w);
  os_kill p _ w := (if decide ((- p)%Z ∈ sim_children w) then 0%Z else ESRCH, w);
  os_wait w :=
    match sim_children w with
    | [] => ([], WaitErr ECHILD, w)
    | pid :: ps =>
        let st := sim_status (sim_plan w) in
        ([], WaitChild pid st, Sim ps (sim_execs w) (sim_codes w ++ [st]) (sim_next w) (tail (sim_plan w)))
    end;
  os_lrand48 w := (0%Z, w);
  os_signals w := ([], w);
  os_stop_file w := (false, w);
}.

#[export] Instance sim_View : OSView sim := {
  self := 1;
  children := sim_children;
  execs := sim_execs;
  codes := sim_codes;
  calm n w := (1 < sim_next w)%Z ∧ (sim_next w + Z.of_nat n ≤ INT_MAX + 1)%Z ∧
              Forall (λ p, p < sim_next w)%Z (sim_children w);
}.

Lemma sim_status_exited plan : (decode (sim_status plan)).1 = exited.
Proof. unfold sim_status. by case_decide. Qed.

#[export] Instance sim_Laws : OSLaws sim.
Proof.
  split; try done.
  - intros c w. cbn. case_decide as H; [|done]. destruct H. split_and!; [lia| |done..].
    apply not_elem_of_cons. split; [lia|done].
  - intros w. cbn. destruct (sim_children w) as [|pid ps] eqn:E; [done|].
    split_and!; [done|done|done|left; apply sim_status_exited].
  - intros n p sig w _ Hp. cbn. rewrite Z.opp_involutive. by rewrite decide_False.
  - intros n c w (Hpos & Hle & Hall). cbn. rewrite decide_True.
    + eexists _, _. split_and!; [done|clia|cbn; lia|cbn; clia|]. cbn.
      constructor; [lia|]. eapply Forall_impl; [exact Hall|]. cbn. lia.
    + split; [done|]. intros Hin. rewrite Forall_forall in Hall. apply Hall in Hin. lia.
  - intros n w (Hpos & Hle & Hall) Hne. cbn in *. destruct (sim_children w) as [|pid ps]; [done|].
    apply Forall_cons in Hall as [_ Hall].
    eexists _, _, _. by split_and!; [|apply sim_status_exited|..].
Qed.

(** ** Properties: safety *)

Section steps.
Context `{!OS W, !OSView W, !OSLaws W} (strerror : Z → list ascii) (st : setup) (tries : nat).

(** The scheduler as a transition system: a turn of the starting loop, or the
    rest of a turn of the main loop. *)
Inductive pan_step : pan W → pan W → Prop :=
  | step_fill s more s' :
      fill_step strerror (s_config st) tries (s_coll st) s = Done (Go more, s') → pan_step s s'
  | step_rest s more s' :
      main_rest strerror (s_config st) s = Done (Go more, s') → pan_step s s'.

Lemma pan_step_inv s s' : rtc pan_step s s' → sched_inv (s_config st) s → sched_inv (s_config st) s'.
Proof.
  induction 1 as [|s s1 s2 Hs _ IH]; [done|]. intros Hi. apply IH. destruct Hs as [s more s' E|s more s' E].
  - exact (wp_elim _ _ _ _ _ _ (fill_step_inv _ _ _ _ _ Hi) E).
  - apply (wp_elim _ _ _ _ _ _ (main_rest_inv _ _ _ Hi) E).
Qed.

Lemma init_inv fork z w : children w = [] → sched_inv (s_config st) (init_pan st fork z w).
Proof.
  intros Hc. constructor; cbn [init_pan running world num_active]; rewrite ?Hc;
    [apply length_replicate| |done|constructor].
  unfold pgrps. cbn [init_pan running]. rewrite fmap_replicate. cbn [empty_slot pgrp].
  induction (keep_active _) as [|n IH]; [done|]. cbn [replicate]. by rewrite filter_cons_False by auto.
Qed.

Lemma fill_loop_steps fuel s s' :
  fill_loop strerror (s_config st) tries (s_coll st) fuel s = Done (Go (), s') → rtc pan_step s s'.
Proof.
  revert s. induction fuel as [|fuel IH]; intros s; cbn [fill_loop]; [done|].
  unfold mbind, M_bind. destruct (fill_step _ _ _ _ s) as [[[[|]|] s1]| |] eqn:E; try done.
  - intros H. eapply rtc_l; [by eapply step_fill|by apply IH].
  - intros [= <-]. eapply rtc_once. by eapply step_fill.
Qed.

(** A finished main loop is a run whose last step left the loop. *)
Lemma main_loop_steps fuel s s' :
  main_loop strerror (s_config st) tries (s_coll st) fuel s = Done (Go (), s') →
  ∃ s1, rtc pan_step s s1 ∧ main_rest strerror (s_config st) s1 = Done (Go false, s').
Proof.
  revert s. induction fuel as [|fuel IH]; intros s; cbn [main_loop]; [done|].
  unfold main_iter, mbind, M_bind.
  destruct (fill_loop _ _ _ _ _ s) as [[[[]|] s1]| |] eqn:E1; try done.
  destruct (main_rest _ _ s1) as [[[[|]|] s2]| |] eqn:E2; try done.
  - intros H. apply IH in H as (s3 & H3 & H4). exists s3. split; [|done].
    etrans; [by eapply fill_loop_steps|]. eapply rtc_l; [by eapply step_rest|done].
  - intros [= <-]. exists s1. split; [by eapply fill_loop_steps|done].
Qed.
End steps.

(** C2: In every state the scheduler reaches, the slots in use hold exactly the
    children of pan that have not been reaped, num_active is their number, and
    whenever a test may be started a free slot is found: the abort of the starting
    loop is never taken. *)
Theorem scheduler_invariant `{!OS W, !OSView W, !OSLaws W} strerror st tries fork z (w : W) s :
  children w = [] → rtc (pan_step strerror st tries) (init_pan st fork z w) s →
  length (running s) = keep_active (s_config st) ∧
  filter (λ p, p ≠ 0%Z) (pgrp <$> running s) ≡ₚ children (world s) ∧
  num_active s = Z.of_nat (length (children (world s))) ∧
  ((num_active s < Z.of_nat (keep_active (s_config st)))%Z →
   ∃ i r, list_find (λ r, pgrp r = 0%Z) (running s) = Some (i, r)).
Proof.
  intros Hc Hr. apply pan_step_inv in Hr as [H1 H2 H3 _]; [|by apply init_inv].
  split_and!; [done|done|done|]. intros Hlt. apply free_slot. unfold pgrps in H2. rewrite H2, H1. lia.
Qed.

(** C3: When the main loop of pan ends, every child has been reaped and every slot
    is free, whatever signals, failures and stop requests led to its end. *)
Theorem main_loop_reaps `{!OS W, !OSView W, !OSLaws W} strerror st tries fuel fork z (w : W) s :
  children w = [] →
  main_loop strerror (s_config st) tries (s_coll st) fuel (init_pan st fork z w) = Done (Go (), s) →
  children (world s) = [] ∧ Forall (λ r, pgrp r = 0%Z) (running s).
Proof.
  intros Hc (s1 & Hr & E)%main_loop_steps. apply pan_step_inv in Hr; [|by apply init_inv].
  destruct (wp_elim _ _ _ _ _ _ (main_rest_inv _ _ _ Hr) E) as [[_ H2 H3 _] Hn].
  assert (children (world s) = []) as Hnil by (apply length_zero_iff_nil; specialize (Hn eq_refl); lia).
  split; [done|]. rewrite Hnil in H2. unfold pgrps in H2. apply Permutation_nil_r in H2.
  apply Forall_forall. intros r Hr'. destruct (decide (pgrp r = 0%Z)) as [|Hne]; [done|].
  assert (pgrp r ∈ filter (λ p, p ≠ 0%Z) (pgrp <$> running s)) as Hin
    by (apply list_elem_of_filter; split; [done|by apply list_elem_of_fmap_2]).
  rewrite H2 in Hin. by apply not_elem_of_nil in Hin.
Qed.

(** ** Witnesses *)

Definition ex_setup : setup :=
  Setup (Config 2 true false true false false true true None true true true (chars "pan") 1 true)
    [CollEntry (chars "a") (chars "prog_a -x") false; CollEntry (chars "b") (chars "prog_b | cat") false;
     CollEntry (chars "c") (chars "prog_c") false] [] 3 [].

Definition ex_pan_zoo : zoo :=
  Zoo (file_of [pad 79 (chars "1,pan,ltp-pan -S")]) 0 true false [] [] [].

(** The second test exits with status 1, the third with TCONF. *)
Definition ex_world : sim := Sim [] [] [] 100 [0%Z; 256%Z; 8192%Z].

Lemma main_loop_reaps_witness :
  ∃ s, main_loop (λ _, []) (s_config ex_setup) 1 (s_coll ex_setup) 9 (init_pan ex_setup false ex_pan_zoo ex_world)
         = Done (Go (), s) ∧ children (world s) = [] ∧ Forall (λ r, pgrp r = 0%Z) (running s).
Proof.
  destruct (main_loop (λ _, []) (s_config ex_setup) 1 (s_coll ex_setup) 9 (init_pan ex_setup false ex_pan_zoo ex_world))
    as [[[[]|c] s]| |] eqn:E; [|exfalso; vm_compute in E; discriminate E..].
  exists s. split; [reflexivity|].
  exact (main_loop_reaps (λ _, []) ex_setup 1 9 false ex_pan_zoo ex_world s eq_refl E).
Defined.

Lemma scheduler_invariant_witness :
  ∃ s, rtc (pan_step (λ _, []) ex_setup 1) (init_pan ex_setup false ex_pan_zoo ex_world) s ∧
    num_active s = 1%Z ∧ filter (λ p, p ≠ 0%Z) (pgrp <$> running s) ≡ₚ [100%Z].
Proof.
  destruct (fill_step (λ _, []) (s_config ex_setup) 1 (s_coll ex_setup) (init_pan ex_setup false ex_pan_zoo ex_world))
    as [[[more|c] s]| |] eqn:E; [|exfalso; vm_compute in E; discriminate E..].
  assert (rtc (pan_step (λ _, []) ex_setup 1) (init_pan ex_setup false ex_pan_zoo ex_world) s) as Hr
    by (eapply rtc_once, step_fill, E).
  destruct (scheduler_invariant (λ _, []) ex_setup 1 false ex_pan_zoo ex_world s) as (_ & Hp & Ha & _);
    [reflexivity|exact Hr|].
  assert (children (world s) = [100%Z]) as Hc.
  { assert (match fill_step (λ _, []) (s_config ex_setup) 1 (s_coll ex_setup) (init_pan ex_setup false ex_pan_zoo ex_world)
      with Done (_, s) => children (world s) | _ => [] end = [100%Z]) as H by (vm_compute; reflexivity).
    rewrite E in H. exact H. }
  exists s. split; [exact Hr|]. split; [rewrite Ha, Hc; reflexivity|rewrite <-Hc; exact Hp].
Defined.
