(* ===== verification/PanSignals.v ===== *)
(** * Signals in ltp-pan

    The signals the ratchet of wait_handler() sends when the same signal arrives
    again and again, and what propagate_signal() does with them. *)
From stdpp Require Import base strings numbers option list.
From Stdlib Require Import Ascii.
From S2P Require Import Prelude CInt CText SplitStr Zoo PanColl Pan PanMain PanSched.

(** The signals that are sent when [sig] arrives [n] times and every arrival is
    followed by the reset of propagate_signal(). *)
Fixpoint sent_signals {W} (n : nat) (sig : Z) (s : pan W) : list Z :=
  match n with
  | O => []
  | S n' => let s := wait_handler sig s in send_signal s :: sent_signals n' sig (reset_signals s)
  end.

Section signals.
Context {W : Type}.
Implicit Types s : pan W.

(** The states between two arrivals. *)
Definition armed (last : Z) s : Prop := lastsent s = last ∧ send_signal s = 0%Z.

Lemma sent_signals_step n sig s last next :
  armed last s → sig ≠ 0%Z → sig ≠ SIGUSR2 →
  next = (if decide (last = 0%Z) then sig else if decide (last = SIGUSR1) then SIGINT
          else if decide (last = sig) then SIGTERM else if decide (last = SIGTERM) then SIGHUP
          else if decide (last = SIGHUP) then SIGKILL else 0%Z) →
  ∃ s', armed next s' ∧ sent_signals (S n) sig s = next :: sent_signals n sig s'.
Proof.
  intros [Hl Hs] H0 H2 ->. exists (reset_signals (wait_handler sig s)).
  cbn [sent_signals]. unfold wait_handler. rewrite (decide_False (P := sig = 0%Z)) by done.
  rewrite (decide_False (P := sig = SIGUSR2)) by done.
  change (lastsent (set_rec_signal sig s)) with (lastsent s). rewrite Hl.
  repeat case_decide; try done. cbn. by rewrite Hs.
Qed.

(** Repeated interrupts go through the ratchet SIGINT, SIGTERM, SIGHUP,
    SIGKILL; the fifth sends signal 0, which signals nobody, and starts the ratchet
    again.  Repeated SIGTERM never goes beyond SIGTERM. *)
Theorem signal_ratchet s k :
  lastsent s = 0%Z → send_signal s = 0%Z →
  sent_signals (5 * k) SIGINT s = mjoin (replicate k [SIGINT; SIGTERM; SIGHUP; SIGKILL; 0%Z]) ∧
  sent_signals k SIGTERM s = replicate k SIGTERM.
Proof.
  intros Hl Hs. split.
  - assert (armed 0 s) as Ha by done. clear Hl Hs. revert s Ha. induction k as [|k IH]; intros s Ha; [done|].
    replace (5 * S k) with (S (S (S (S (S (5 * k)))))) by lia.
    destruct (sent_signals_step (4 + 5 * k) SIGINT s 0 SIGINT Ha) as (s1 & H1 & E1); [done..|]. cbn [Nat.add] in E1.
    destruct (sent_signals_step (3 + 5 * k) SIGINT s1 SIGINT SIGTERM H1) as (s2 & H2 & E2); [done..|]. cbn [Nat.add] in E2.
    destruct (sent_signals_step (2 + 5 * k) SIGINT s2 SIGTERM SIGHUP H2) as (s3 & H3 & E3); [done..|]. cbn [Nat.add] in E3.
    destruct (sent_signals_step (1 + 5 * k) SIGINT s3 SIGHUP SIGKILL H3) as (s4 & H4 & E4); [done..|]. cbn [Nat.add] in E4.
    destruct (sent_signals_step (5 * k) SIGINT s4 SIGKILL 0 H4) as (s5 & H5 & E5); [done..|].
    by rewrite E1, E2, E3, E4, E5, IH.
  - assert (armed 0 s ∨ armed SIGTERM s) as Ha by by left. clear Hl Hs. revert s Ha.
    induction k as [|k IH]; intros s Ha; [done|].
    destruct Ha as [Ha|Ha]; destruct (sent_signals_step k SIGTERM s _ SIGTERM Ha) as (s' & Ha' & E); try done;
      rewrite E; cbn; f_equal; apply IH; by right.
Qed.
End signals.

(** ** Propagation *)

Section propagate.
Context `{!OS W} (strerror : Z → list ascii).
Implicit Types s : pan W.

(** The world after a signal was sent to groups. *)
Definition kill_all (sig : Z) (w : W) (ps : list Z) : W := foldl (λ w p, (os_kill (- p) sig w).2) w ps.

Definition mark_stopping (r : tag_pgrp) : tag_pgrp :=
  if decide (pgrp r = 0%Z) then r else TagPgrp (pgrp r) true (mystime r) (cmd r) (output r).

Lemma propagate_loop_run sig slots s :
  propagate_loop sig slots s =
    Done (Go (mark_stopping <$> slots),
          set_world (kill_all sig (world s) (filter (λ p, p ≠ 0%Z) (pgrp <$> slots))) s).
Proof.
  revert s. induction slots as [|r slots IH]; intros s; cbn [propagate_loop]; [by destruct s|].
  rewrite !fmap_cons, filter_cons. unfold mark_stopping at 1.
  destruct (decide (pgrp r = 0%Z)) as [Hr|Hr].
  - rewrite decide_False by auto. unfold mbind, M_bind. by rewrite IH.
  - rewrite decide_True by done. unfold mbind, M_bind, sys. cbn [kill_all foldl].
    destruct (os_kill (- pgrp r) sig (world s)) as [e w]. rewrite IH. done.
Qed.

Lemma check_orphans_none sig s :
  Forall (λ p, p = 0%Z) (orphans s) → check_orphans strerror sig s = Done (Go (), s).
Proof.
  intros Ho. assert (∀ l s, Forall (λ p, p = 0%Z) l → check_orphans_loop strerror sig l s = Done (Go l, s)) as Hl.
  { clear s Ho. induction l as [|o l IH]; intros s Hl; cbn [check_orphans_loop]; [done|].
    apply Forall_cons in Hl as [-> Hl]. unfold check_orphan. rewrite decide_True by done.
    unfold mbind, M_bind. cbn. by rewrite IH. }
  unfold check_orphans, mbind, M_bind. cbn. rewrite Hl by done. cbn. by destruct s.
Qed.

(** propagate_signal() sends the signal the ratchet chose to the process group
    of every running test, marks those tests as stopping, and clears the signal
    variables; the change of rec_signal that is meant to turn an alarm into SIGTERM
    has no effect, and the first alarm sends SIGALRM to the tests. *)
Theorem propagate_signal_kills s :
  Forall (λ p, p = 0%Z) (orphans s) →
  (∃ s', propagate_signal strerror s = Done (Go (), s') ∧
     world s' = kill_all (send_signal s) (world s) (filter (λ p, p ≠ 0%Z) (pgrp <$> running s)) ∧
     running s' = mark_stopping <$> running s ∧ rec_signal s' = 0%Z ∧ send_signal s' = 0%Z) ∧
  (lastsent s = 0%Z → send_signal (wait_handler SIGALRM s) = SIGALRM).
Proof.
  intros Ho. split.
  - unfold propagate_signal, print, mbind, M_bind. cbn.
    case_decide; cbn; rewrite propagate_loop_run; cbn; rewrite check_orphans_none by done; cbn;
      eexists; split_and!; reflexivity.
  - intros Hl. unfold wait_handler. rewrite !decide_False by done. cbn. by rewrite decide_True.
Qed.
End propagate.

(** ** Witnesses *)

Lemma signal_ratchet_witness :
  sent_signals 5 SIGINT (init_pan ex_setup false ex_pan_zoo ex_world) = [SIGINT; SIGTERM; SIGHUP; SIGKILL; 0%Z].
Proof.
  exact (proj1 (signal_ratchet (init_pan ex_setup false ex_pan_zoo ex_world) 1 eq_refl eq_refl)).
Defined.

Lemma propagate_signal_kills_witness :
  ∃ s', propagate_signal (λ _, []) (init_pan ex_setup false ex_pan_zoo ex_world) = Done (Go (), s') ∧
    rec_signal s' = 0%Z.
Proof.
  destruct (propagate_signal_kills (λ _, []) (init_pan ex_setup false ex_pan_zoo ex_world)) as [(s' & H & _ & _ & Hr & _) _];
    [by repeat constructor|]. exists s'. split; [exact H|exact Hr].
Defined.
