(* ===== verification/PanRun.v ===== *)
(** * Sequential runs of ltp-pan

    On a calm system a sequential run terminates; it executes the commands of the
    collection once each and in order, reaps every test, and its exit status counts
    the tests that failed. *)
From stdpp Require Import base strings numbers option list.
From Stdlib Require Import Ascii.
From S2P Require Import Prelude CInt CText SplitStr Zoo PanColl Pan PanMain PanSched PanSignals.

(** ** The zoo during a run *)

(** A line in use carries the pid. *)
Definition has_pid (ls : list (list ascii)) (p : Z) : Prop := ∃ l, l ∈ ls ∧ is_free l = false ∧ atoi l = p.

(** A zoo file with an entry for each of the pids. *)
Definition zoo_ok (z : zoo) (ps : list Z) : Prop :=
  ∃ ls, zoo_file ls z ∧ undisturbed z ∧ Forall (has_pid ls) ps.

Lemma entry_pid p tag cmdline :
  (0 < p ≤ INT_MAX)%Z →
  is_free (pad 79 (new_entry p tag cmdline)) = false ∧ atoi (pad 79 (new_entry p tag cmdline)) = p.
Proof.
  intros Hp. assert (length (print_d p) ≤ 10) as Hlen by (apply print_d_length; simpl; clia).
  assert (∃ t, pad 79 (new_entry p tag cmdline) = print_d p ++ ","%char :: t) as [t ->].
  { unfold pad, new_entry, snprintf. rewrite take_take, Nat.min_id, take_app_ge by lia.
    change (80 - 1) with 79. destruct (79 - length (print_d p)) as [|k] eqn:E; [lia|]. cbn [take].
    rewrite <-app_assoc. cbn [app]. eauto. }
  split.
  - unfold is_free. apply bool_decide_false. intros H. apply (print_d_not_elem p "#"%char); [done|done|].
    pose proof (print_d_nonempty p). destruct (print_d p) as [|c l]; [done|]. cbn in H. subst. constructor.
  - apply atoi_print_d; [clia|done].
Qed.

Lemma mark_line_pid entry ls p :
  has_pid ls p → has_pid (mark_line entry ls) p.
Proof.
  intros (l & Hl & Hf & Hp). exists l. split_and!; [|done|done].
  induction ls as [|k ls IH]; [by apply not_elem_of_nil in Hl|]. cbn [mark_line].
  apply elem_of_cons in Hl as [->|Hl]; [rewrite Hf; by left|]. destruct (is_free k); right; auto.
Qed.

Lemma mark_line_new entry ls : pad 79 entry ∈ mark_line entry ls.
Proof.
  induction ls as [|k ls IH]; cbn [mark_line]; [by left|]. destruct (is_free k); [by left|by right].
Qed.

Lemma clear_line_pid ls p : has_pid ls p → ∃ ls', clear_line p ls = Some ls' ∧ ∀ q, q ≠ p → has_pid ls q → has_pid ls' q.
Proof.
  intros (l & Hl & Hf & Hp). induction ls as [|k ls IH]; [by apply not_elem_of_nil in Hl|]. cbn [clear_line].
  destruct (is_free k) eqn:Ek; cbn [negb andb].
  - apply elem_of_cons in Hl as [->|Hl]; [congruence|]. destruct (IH Hl) as (ls' & -> & H). cbn.
    eexists. split; [done|]. intros q Hq (m & Hm & Hmf & Hmp).
    apply elem_of_cons in Hm as [->|Hm]; [congruence|]. destruct (H q Hq) as (m' & ? & ? & ?); [by exists m|].
    exists m'. split_and!; [by right|done|done].
  - case_bool_decide as Hk.
    + eexists. split; [done|]. intros q Hq (m & Hm & Hmf & Hmp).
      apply elem_of_cons in Hm as [->|Hm]; [congruence|]. exists m. split_and!; [by right|done|done].
    + apply elem_of_cons in Hl as [->|Hl]; [congruence|]. destruct (IH Hl) as (ls' & -> & H). cbn.
      eexists. split; [done|]. intros q Hq (m & Hm & Hmf & Hmp). apply elem_of_cons in Hm as [->|Hm].
      * exists k. split_and!; [by left|done|done].
      * destruct (H q Hq) as (m' & ? & ? & ?); [by exists m|]. exists m'. split_and!; [by right|done|done].
Qed.

Section zoo_ok.
Context (strerror : Z → list ascii).

Lemma zoo_ok_mark z ps p tag cmdline :
  zoo_ok z ps → (0 < p ≤ INT_MAX)%Z → NEWLINE ∉ tag ++ cmdline → cstring (tag ++ cmdline) →
  ∃ z', zoo_mark_cmdline strerror true p tag cmdline z = Done (0%Z, z') ∧ zoo_ok z' (p :: ps).
Proof.
  intros (ls & Hz & Hu & Hps) Hp Hn Hc. unfold cstring in Hc.
  apply not_elem_of_app in Hn as [Hn1 Hn2], Hc as [Hc1 Hc2]. set (e := new_entry p tag cmdline).
  destruct (zoo_mark_run strerror e ls z) as (r & z' & H & Hr & Hu'); [done|by apply new_entry_line|by apply new_entry_line|].
  destruct (Hu' Hu) as [-> Ha]. destruct Hr as [(_ & Hz' & _)|[? _]]; [|done].
  exists z'. split; [done|]. exists (mark_line e ls). split_and!; [done|unfold undisturbed; by rewrite Ha|].
  constructor.
  - exists (pad 79 e). split; [apply mark_line_new|]. by apply entry_pid.
  - eapply Forall_impl; [exact Hps|]. intros q. apply mark_line_pid.
Qed.

Lemma zoo_ok_clear z ps p :
  zoo_ok z (p :: ps) → p ∉ ps → ∃ z', zoo_clear strerror true p z = Done (0%Z, z') ∧ zoo_ok z' ps.
Proof.
  intros (ls & Hz & Hu & (Hp & Hps)%Forall_cons) Hnin.
  destruct (clear_line_pid ls p Hp) as (ls' & Hcl & Hkeep).
  destruct (zoo_clear_run strerror p ls z Hz) as (r & z' & H & Hr & Hu'). rewrite Hcl in Hr, Hu'.
  destruct (Hu' Hu) as [-> Ha]. destruct Hr as [(_ & Hz' & _)|[? _]]; [|done].
  exists z'. split; [done|]. exists ls'. split_and!; [done|unfold undisturbed; by rewrite Ha|].
  apply Forall_forall. intros q Hq. apply Hkeep; [by intros ->|]. by apply (proj1 (Forall_forall _ _) Hps).
Qed.

Lemma zoo_ok_perm z ps ps' : ps ≡ₚ ps' → zoo_ok z ps → zoo_ok z ps'.
Proof. intros Hp (ls & ? & ? & H). exists ls. by rewrite <-Hp. Qed.
End zoo_ok.

(** ** Steps that only write reports *)

Section silent.
Context `{!OS W, !OSView W, !OSLaws W} (strerror : Z → list ascii) (cfg : config).
Implicit Types s : pan W.

Record silent s s' : Prop := Silent {
  sil_running : running s' = running s;
  sil_orphans : orphans s' = orphans s;
  sil_active : num_active s' = num_active s;
  sil_starts : starts s' = starts s;
  sil_stop : stop s' = stop s;
  sil_idle : go_idle s' = go_idle s;
  sil_exit : exit_stat s' = exit_stat s;
  sil_fork : fork_in_road s' = fork_in_road s;
  sil_index : cmd_index s' = cmd_index s;
  sil_rec : rec_signal s' = rec_signal s;
  sil_zoo : zoofile s' = zoofile s;
  sil_world : same_world (world s) (world s');
}.

#[export] Instance silent_preorder : PreOrder silent.
Proof.
  split; [by constructor|]. intros s1 s2 s3 [] []. constructor; [congruence..|]. by etrans.
Qed.

(** Steps that go on and only write. *)
Definition hushed {A} (m : M W A) : Prop := ∀ s, wp False m s (λ _ s', silent s s').

Lemma hushed_bind {A B} (m : M W A) (k : A → M W B) : hushed m → (∀ a, hushed (k a)) → hushed (m ≫= k).
Proof.
  intros Hm Hk s. apply pwp_bind. eapply pwp_mono; [apply Hm|]. intros a s1 H1.
  eapply pwp_mono; [apply Hk|]. intros b s2 H2. by trans s1.
Qed.
Lemma hushed_ret {A} (a : A) : hushed (mret a).
Proof. intros s. by apply pwp_ret. Qed.
Lemma hushed_put f : (∀ s, silent s (f s)) → hushed (put f).
Proof. intros H s. by apply pwp_put. Qed.
Lemma hushed_load {A} (a : A) : hushed (lift (load (Some a))).
Proof. intros s. by apply pwp_ret. Qed.
Lemma hushed_sys {A} (f : W → A * W) : (∀ w, same_world w (f w).2) → hushed (sys f).
Proof. intros H s. apply wp_sys. by constructor. Qed.
Lemma hushed_if {A} (b : bool) (m1 m2 : M W A) : hushed m1 → hushed m2 → hushed (if b then m1 else m2).
Proof. by destruct b. Qed.
Lemma hushed_decide {A} P `{Decision P} (m1 m2 : M W A) :
  hushed m1 → hushed m2 → hushed (if decide P then m1 else m2).
Proof. by case_decide. Qed.

(** A hushed step in front of another one. *)
Lemma hushed_then {A B} (m : M W A) (k : A → M W B) s Q :
  hushed m → (∀ a s', silent s s' → wp False (k a) s' Q) → wp False (m ≫= k) s Q.
Proof. intros Hm Hk. apply pwp_bind. eapply pwp_mono; [apply Hm|]. exact Hk. Qed.
End silent.

Ltac hushed_tac :=
  repeat first
    [ progress intros | assumption
    | apply hushed_ret | apply hushed_load | apply hushed_bind | apply hushed_if | apply hushed_decide
    | apply hushed_sys; solve [eauto with keeps]
    | apply hushed_put; intros; by constructor ].

Section reports.
Context `{!OS W, !OSView W, !OSLaws W} (cfg : config).

Lemma write_test_start_hushed r c :
  cmd r = Some c → no_kmsg cfg = true ∨ kmsg_ok cfg = true → hushed (write_test_start (W := W) cfg r).
Proof.
  intros Hc Hk. unfold write_test_start. rewrite Hc. apply hushed_bind; [hushed_tac|]. intros c'.
  apply hushed_bind; [unfold print; hushed_tac|]. intros _.
  unfold write_kmsg. destruct (no_kmsg cfg); [hushed_tac|]. destruct Hk as [?|Hk]; [done|]. rewrite Hk.
  cbn [negb]. hushed_tac.
Qed.

Lemma write_test_end_hushed r st t ty stat id times : hushed (write_test_end (W := W) cfg r st t ty stat id times).
Proof. unfold write_test_end, print. hushed_tac. Qed.

Lemma log_result_hushed c r t st w stat times : hushed (log_result (W := W) cfg c r t st w stat times).
Proof. unfold log_result, print_log. hushed_tac. Qed.

Lemma log_command_hushed c w : hushed (log_command (W := W) cfg c w).
Proof. unfold log_command. hushed_tac. Qed.
End reports.

(** ** Runs on a calm system *)

(** A command without %f, on one line. *)
Definition plain (e : coll_entry) : Prop :=
  pcnt_f e = false ∧ NEWLINE ∉ name e ++ cmdline e ∧ cstring (name e ++ cmdline e).

(** What its child executes. *)
Definition exec_of (e : coll_entry) : exec_call :=
  match child_exec (cmdline e) with Done c => c | _ => ExecVp [] end.

Lemma child_exec_plain e : plain e → child_exec (cmdline e) = Done (exec_of e).
Proof.
  intros (_ & _ & Hc). unfold exec_of. unfold cstring in Hc. apply not_elem_of_app in Hc as [_ Hc].
  assert (∃ c, child_exec (cmdline e) = Done c) as [c ->]; [|done]. unfold child_exec.
  destruct (existsb _ _); [eauto|]. destruct (splitstr_run (cmdline e) None) as (offs & k & buf & -> & _);
    [done|by_decide|]. cbn [mbind outcome_bind load]. cbn [arg_string arg_array]. rewrite strings_filled. cbn. eauto.
Qed.

(** The options of the runs considered: sequential, no all-stop, output not
    buffered. *)
Record quiet_config (cfg : config) : Prop := QuietConfig {
  qc_seq : sequential cfg = true;
  qc_brakes : has_brakes cfg = false;
  qc_dir : test_out_dir cfg = None;
  qc_slots : 0 < keep_active cfg;
  qc_kmsg : no_kmsg cfg = true ∨ kmsg_ok cfg = true;
}.

Section run.
Context `{!OS W, !OSView W, !OSLaws W} (strerror : Z → list ascii) (cfg : config) (tries : nat).
Context (coll : list coll_entry).
Context (Hcfg : quiet_config cfg) (Hplain : Forall plain coll) (Hself : panpid cfg = self W).
Implicit Types s : pan W.

(** The slots in use have a command and are not being stopped. *)
Definition slot_ok (r : tag_pgrp) : Prop := pgrp r ≠ 0%Z → is_Some (cmd r) ∧ stopping r = false.

(** A state between steps of a calm run, [n] forks before its end. *)
Record live (n : nat) s : Prop := Live {
  live_inv : sched_inv cfg s;
  live_nodup : NoDup (children (world s));
  live_self : self W ∉ children (world s);
  live_slots : Forall slot_ok (running s);
  live_calm : calm n (world s);
  live_zoo : zoo_ok (zoofile s) (children (world s) ++ [self W]);
  live_orphans : Forall (λ p, p = 0%Z) (orphans s);
  live_rec : rec_signal s = 0%Z;
  live_idle : go_idle s = 0%Z;
  live_fork : fork_in_road s = false;
  live_index : cmd_index s < length coll;
}.

Lemma silent_kept s s' : silent s s' → kept s s'.
Proof. intros []. constructor; [unfold pgrps; congruence|done|]. by destruct sil_world0. Qed.

Lemma silent_live n s s' : silent s s' → live n s → live n s'.
Proof.
  intros Hs [H1 H2 H2' H3 H4 H5 H6 H7 H8 H9 H10]. pose proof (silent_kept _ _ Hs) as Hk.
  destruct Hs as [S1 S2 _ _ _ S6 _ S8 S9 S10 S11 [W1 W2 W3 W4]].
  constructor; [by eapply kept_inv|..]; rewrite ?W1, ?S1, ?S2, ?S6, ?S8, ?S9, ?S10, ?S11; auto.
Qed.

(** run_child() starts the command in the slot. *)
Record ran s (i : nat) (colle : coll_entry) (n : nat) (cpid : Z) s' : Prop := Ran {
  ran_pid : (0 < cpid)%Z;
  ran_fresh : cpid ∉ self W :: children (world s);
  ran_slots : Forall slot_ok (running s');
  ran_calm : calm n (world s');
  ran_zoo : zoo_ok (zoofile s') (children (world s') ++ [self W]);
  ran_execs : execs (world s') = execs (world s) ++ [exec_of colle];
  ran_codes : codes (world s') = codes (world s);
  ran_orphans : orphans s' = orphans s;
  ran_starts : starts s' = starts s;
  ran_stop : stop s' = stop s;
  ran_idle : go_idle s' = go_idle s;
  ran_exit : exit_stat s' = exit_stat s;
  ran_fork : fork_in_road s' = fork_in_road s;
  ran_index : cmd_index s' = cmd_index s;
  ran_rec : rec_signal s' = rec_signal s;
}.

Lemma slots_alter i f l : Forall slot_ok l → (∀ r, slot_ok r → slot_ok (f r)) → Forall slot_ok (alter f i l).
Proof.
  intros Hl Hf. revert i. induction Hl as [|r l Hr Hl IH]; intros [|i]; try done.
  - constructor; auto.
  - constructor; [done|]. apply IH.
Qed.

Lemma silent_counter v s : silent s (set_counter v s).
Proof. by constructor. Qed.

Lemma run_child_live i r0 colle n s :
  live (S n) s → plain colle → running s !! i = Some r0 → pgrp r0 = 0%Z →
  wp False (run_child strerror cfg tries i colle) s (ran s i colle n).
Proof.
  intros Hl Hp Hi Hr0. pose proof (child_exec_plain _ Hp) as Hexec. destruct Hp as (Hf & Hnl & Hc).
  destruct Hcfg as [_ _ Hdir _ Hk]. unfold run_child. rewrite Hdir, Hf.
  apply pwp_bind, pwp_ret. cbn [negb]. apply pwp_bind, pwp_get, pwp_bind, pwp_ret.
  apply hushed_then; [apply hushed_put, silent_counter|]. intros [] s1 H1.
  apply pwp_bind, wp_sys. rewrite (calm_pipe (S n)) by (eapply silent_live, Hl; done).
  rewrite decide_False by auto. set (s2 := set_world _ s1).
  assert (silent s s2) as H2 by (trans s1; [done|]; constructor; try done; apply law_pipe). clearbody s2.
  apply hushed_then; [apply hushed_sys, law_time|]. intros t s3 H3.
  assert (silent s s3) as H3' by by trans s2. clear H1 H2 H3 s1 s2.
  apply pwp_bind, pwp_put. set (s4 := set_running _ s3). apply pwp_bind, pwp_get.
  assert (running s4 !! i = Some (TagPgrp 0 (stopping r0) t (Some colle) (output r0))) as Hi4.
  { subst s4. cbn [running set_running]. rewrite list_lookup_alter, decide_True, (sil_running _ _ H3'), Hi by done. cbn. by rewrite Hr0. }
  rewrite Hi4. apply pwp_bind, pwp_ret.
  apply hushed_then; [apply hushed_if; [by eapply write_test_start_hushed|hushed_tac]|]. intros [] s5 H5.
  rewrite Hexec. apply pwp_bind, pwp_ret, pwp_bind, wp_sys.
  assert (same_world (world s) (world s5)) as [W1 W2 W3 W4].
  { trans (world s3); [apply H3'|]. apply (sil_world _ _ H5). }
  destruct (calm_fork n (exec_of colle) (world s5)) as (pid & w & E & Hmax & Hcalm); [apply W4, Hl|].
  pose proof (law_fork (exec_of colle) (world s5)) as Hlaw. rewrite E in Hlaw |- *.
  destruct Hlaw as (Hpos & Hfresh & Hch & Hex & Hco). cbn [fst snd].
  apply pwp_bind, pwp_put, pwp_bind. set (s6 := set_running _ _).
  assert (zoofile s6 = zoofile s) as Hz by (subst s6; cbn; by rewrite (sil_zoo _ _ H5); apply H3').
  destruct (zoo_ok_mark strerror (zoofile s6) (children (world s) ++ [self W]) pid (name colle) (cmdline colle)) as (z & Em & Hzo);
    [rewrite Hz; apply Hl|done|done|done|].
  apply wp_zoo; [|by right; eauto]. intros rc z' E'. rewrite Em in E'. injection E' as <- <-.
  rewrite decide_False by auto. apply pwp_ret.
  destruct H3' as [S1 S2 S3 S4 S5 S6 S7 S8 S9 S10 S11 _], H5 as [T1 T2 T3 T4 T5 T6 T7 T8 T9 T10 T11 _].
  subst s6 s4. constructor; cbn in *; try congruence.
  - rewrite T1, S1, list_alter_alter_eq. apply slots_alter; [apply Hl|].
    intros r _ _. split; [by eexists|done].
  - by rewrite Hch, W1.
Qed.

Lemma poll_signals_live n s Q : calm n (world s) → (∀ s', silent s s' → Q () s') → wp False poll_signals s Q.
Proof.
  intros Hc HQ. unfold poll_signals. apply pwp_bind, wp_sys. rewrite (calm_signals n) by done.
  apply pwp_put. apply HQ. constructor; try done. apply law_signals.
Qed.

Definition next_index (c : nat) : nat := if decide (length coll ≤ S c) then 0 else S c.

(** The indices of the next [n] commands. *)
Fixpoint order (c n : nat) : list nat :=
  match n with O => [] | S n' => c :: order (next_index c) n' end.

Definition exec_at (c : nat) : exec_call := from_option exec_of (ExecVp []) (coll !! c).

Lemma next_index_lt c : c < length coll → next_index c < length coll.
Proof. unfold next_index. case_decide; lia. Qed.

(** What a run has done between two states. *)
Record ran_to s (k : nat) s' : Prop := RanTo {
  rt_starts : (starts s' = starts s - Z.of_nat k)%Z;
  rt_active : (num_active s' = num_active s + Z.of_nat k)%Z;
  rt_execs : execs (world s') = execs (world s) ++ (exec_at <$> order (cmd_index s) k);
  rt_order : ∀ m, order (cmd_index s) (k + m) = order (cmd_index s) k ++ order (cmd_index s') m;
  rt_stop : stop s' = stop s;
  rt_exit : exit_stat s' = exit_stat s;
  rt_codes : codes (world s') = codes (world s);
}.

Lemma fill_step_live n s :
  live (S n) s → stop s = 0%Z → (0 < starts s)%Z → (num_active s < Z.of_nat (keep_active cfg))%Z →
  wp False (fill_step strerror cfg tries coll) s (λ more s', more = true ∧ live n s' ∧ ran_to s 1 s').
Proof.
  intros Hl Hstop Hst Hna. eapply pwp_mono.
  { apply wp_and; [|apply fill_step_inv, Hl].
    instantiate (1 := λ more s', more = true ∧ (sched_inv cfg s' → live n s' ∧ ran_to s 1 s')).
    unfold fill_step. apply pwp_bind, (poll_signals_live (S n)); [apply Hl|]. intros s1 H1.
    pose proof (silent_live _ _ _ H1 Hl) as Hl1. apply pwp_bind, pwp_get. cbn [id].
    rewrite !bool_decide_true by (by rewrite ?(sil_active _ _ H1), ?(sil_starts _ _ H1); lia).
    rewrite !bool_decide_false by (rewrite ?(sil_stop _ _ H1), ?(live_rec _ _ Hl1), ?(live_idle _ _ Hl1); lia).
    cbn [andb orb negb]. unfold next_command. rewrite (qc_seq _ Hcfg). apply pwp_bind, pwp_ret, pwp_bind, pwp_get.
    cbn [id]. destruct (free_slot (running s1)) as (i & r & E).
    { destruct (live_inv _ _ Hl1) as [I1 I2 I3 _]. unfold pgrps in I2. rewrite I2, I1.
      rewrite (sil_active _ _ H1) in I3. lia. }
    rewrite E. apply list_find_Some in E as (Hi & Hr & _).
    destruct (lookup_lt_is_Some_2 coll (cmd_index s1)) as [colle Hcolle]; [apply Hl1|].
    rewrite Hcolle. apply pwp_bind, pwp_ret, pwp_bind.
    eapply pwp_mono.
    { apply wp_and; [|apply run_child_table]. eapply run_child_live; [done| |done|done].
      by apply (Forall_lookup_1 _ _ _ _ Hplain Hcolle). }
    intros cpid s2 [Hran Htab]. unfold after_start. apply pwp_bind, pwp_put, pwp_ret. split; [done|]. intros Hinv.
    destruct Hran as [R1 R2 R3 R4 R5 R6 R7 R8 R9 R10 R11 R12 R13 R14 R15].
    destruct Htab as [[-> _]|[T1 T2 T3 T4]]; [lia|]. apply not_elem_of_cons in R2 as [R2' R2].
    assert (0 < starts s2)%Z as Hst2 by (rewrite R9, (sil_starts _ _ H1); lia).
    revert Hinv. rewrite (qc_seq _ Hcfg), (decide_True (P := cpid ≠ (-1)%Z)) by lia. cbn zeta. cbn [starts set_num_active].
    rewrite bool_decide_true, bool_decide_true by (done || lia). cbn [orb andb]. cbn [cmd_index set_num_active set_starts].
    intros Hinv. fold (next_index (cmd_index s2)). split.
    - destruct Hl1. constructor; [exact Hinv|..]; cbn; try congruence.
      + rewrite T4. by constructor.
      + rewrite T4. apply not_elem_of_cons. by split.
      + rewrite R14. by apply next_index_lt.
    - destruct H1 as [_ _ S3 S4 S5 _ S7 _ S9 _ _ [W1 W2 W3 _]]. constructor; cbn.
      + rewrite R9, S4. lia.
      + rewrite T3, S3. lia.
      + rewrite R6, W2. do 2 f_equal. unfold exec_at. rewrite <-S9, Hcolle. done.
      + intros m. by rewrite R14, S9.
      + congruence.
      + congruence.
      + congruence. }
  cbn. intros more s' [[-> H] Hi]. split; [done|]. by apply H.
Qed.

(** The starting loop leaves when nothing is left to start or every slot is used. *)
Lemma fill_step_done n s :
  live n s → starts s = 0%Z ∨ (Z.of_nat (keep_active cfg) ≤ num_active s)%Z →
  wp False (fill_step strerror cfg tries coll) s (λ more s', more = false ∧ silent s s').
Proof.
  intros Hl Hend. unfold fill_step. apply pwp_bind, (poll_signals_live n); [apply Hl|]. intros s1 H1.
  apply pwp_bind, pwp_get. cbn [id]. rewrite (sil_active _ _ H1), (sil_starts _ _ H1).
  destruct Hend as [Hend|Hend].
  - rewrite (bool_decide_false (starts s ≠ 0%Z)) by auto. rewrite andb_false_r. by apply pwp_ret.
  - rewrite bool_decide_false by lia. by apply pwp_ret.
Qed.

Lemma ran_to_silent s s' : silent s s' → ran_to s 0 s'.
Proof.
  intros [_ _ S3 S4 S5 _ S7 _ S9 _ _ [W1 W2 W3 _]]. constructor; [lia|lia| | |done|done|done].
  - by rewrite W2, app_nil_r.
  - intros m. by rewrite S9.
Qed.

Lemma ran_to_trans s1 s2 s3 k l : ran_to s1 k s2 → ran_to s2 l s3 → ran_to s1 (k + l) s3.
Proof.
  intros [A1 A2 A3 A4 A5 A6 A7] [B1 B2 B3 B4 B5 B6 B7]. constructor; [lia|lia| | |congruence..].
  - rewrite B3, A3, A4, fmap_app. by rewrite <-app_assoc.
  - intros m. rewrite <-Nat.add_assoc, !A4, B4. by rewrite app_assoc.
Qed.

Lemma fill_loop_live m : ∀ fuel s,
  live m s → starts s = Z.of_nat m → (m = 0 ∨ stop s = 0%Z) → m < fuel →
  wp False (fill_loop strerror cfg tries coll fuel) s (λ _ s', ∃ k, k ≤ m ∧ ran_to s k s' ∧ live (m - k) s' ∧
    (k = m ∨ (Z.of_nat (keep_active cfg) ≤ num_active s')%Z)).
Proof.
  induction m as [|m IH]; intros [|fuel] s Hl Hst Hstop Hf; try lia; cbn [fill_loop]; apply pwp_bind.
  - eapply pwp_mono; [by apply (fill_step_done 0); [|left]|]. cbn. intros more s' [-> Hs]. apply pwp_ret.
    exists 0. split_and!; [done|by apply ran_to_silent|by eapply silent_live|by left].
  - destruct (decide (num_active s < Z.of_nat (keep_active cfg))%Z) as [Hlt|Hge].
    + eapply pwp_mono; [apply fill_step_live; [done|by destruct Hstop|lia|done]|]. cbn.
      intros more s1 (-> & Hl1 & Hr1). eapply pwp_mono; [apply IH; [done| | |lia]|].
      * rewrite (rt_starts _ _ _ Hr1). lia.
      * right. rewrite (rt_stop _ _ _ Hr1). by destruct Hstop.
      * cbn. intros [] s2 (k & Hk & Hr2 & Hl2 & Hend). exists (S k).
        split_and!; [lia|by apply (ran_to_trans _ _ _ 1 k Hr1)|done|destruct Hend; [left; lia|by right]].
    + eapply pwp_mono; [apply (fill_step_done (S m)); [done|right; lia]|]. cbn.
      intros more s' [-> Hs]. apply pwp_ret. exists 0.
      split_and!; [lia|by apply ran_to_silent|by eapply silent_live|].
      right. rewrite (sil_active _ _ Hs). lia.
Qed.

(** Reaping one child: the value check_pids() returns for its status. *)
Definition verdict (st : Z) : Z := ret_of (decode st).1 (decode st).2.

Record reaped s (err : Z) s' : Prop := Reaped {
  rp_active : (num_active s' = num_active s - 1)%Z;
  rp_starts : starts s' = starts s;
  rp_stop : stop s' = stop s;
  rp_exit : exit_stat s' = exit_stat s;
  rp_index : cmd_index s' = cmd_index s;
  rp_execs : execs (world s') = execs (world s);
  rp_codes : ∃ st, codes (world s') = codes (world s) ++ [st] ∧ err = verdict st;
}.

(** The slot of a child. *)
Lemma child_slot pid s :
  sched_inv cfg s → pid ∈ children (world s) →
  ∃ i r, list_find (λ r, pgrp r = pid) (running s) = Some (i, r) ∧ pid ≠ 0%Z.
Proof.
  intros [_ H2 _ _] Hin. rewrite <-H2 in Hin. apply list_elem_of_filter in Hin as [Hne Hin].
  destruct (slot_of _ _ Hin) as (i & r & E). eauto.
Qed.

(** The variables of the scheduler. *)
Definition ctl s := (orphans s, num_active s, starts s, (stop s, go_idle s, exit_stat s),
                     (fork_in_road s, cmd_index s, rec_signal s)).

Lemma silent_ctl s s' : silent s s' → ctl s' = ctl s.
Proof. intros []. unfold ctl. congruence. Qed.

Definition freed (r : tag_pgrp) : tag_pgrp := TagPgrp 0 (stopping r) (mystime r) (cmd r) (output r).

Lemma reap_live n i r c cpid stat v err times s :
  cmd r = Some c → stopping r = false → calm n (world s) → cpid ∉ children (world s) → cpid ≠ self W →
  zoo_ok (zoofile s) (cpid :: children (world s) ++ [self W]) →
  wp False (reap strerror cfg i r cpid stat exited v err times) s (λ err' s', err' = err ∧
    zoo_ok (zoofile s') (children (world s') ++ [self W]) ∧ running s' = alter freed i (running s) ∧
    same_world (world s) (world s') ∧ ctl s' = ctl s).
Proof.
  intros Hc Hstop Hcalm Hnin Hns Hz. unfold reap. rewrite Hstop, Hc, (qc_dir _ Hcfg), andb_false_r. cbn [andb].
  apply hushed_then; [apply hushed_sys, law_time|]. intros t s1 H1. apply pwp_bind, pwp_ret.
  apply hushed_then; [apply log_result_hushed|]. intros [] s2 H2.
  apply hushed_then; [apply log_command_hushed|]. intros [] s3 H3. apply pwp_bind, pwp_ret.
  apply hushed_then; [apply hushed_if; [apply write_test_end_hushed|hushed_tac]|]. intros [] s4 H4.
  assert (silent s s4) as H by by trans s1; [|trans s2; [|trans s3]]. clear H1 H2 H3 H4 s1 s2 s3.
  apply pwp_bind, pwp_put. set (s5 := set_running _ s4). apply pwp_bind.
  destruct (zoo_ok_clear strerror (zoofile s5) (children (world s) ++ [self W]) cpid) as (z & E & Hz');
    [by subst s5; cbn; rewrite (sil_zoo _ _ H)|by rewrite not_elem_of_app, list_elem_of_singleton|].
  apply wp_zoo; [|by right; eauto]. intros rc z' E'. rewrite E in E'. injection E' as <- <-.
  rewrite decide_False by auto. unfold adopt_orphans. apply pwp_bind, pwp_bind, wp_sys.
  cbn [world set_zoofile]. change (world s5) with (world s4).
  pose proof (sil_world _ _ H) as [W1 W2 W3 W4].
  rewrite (calm_kill n) by (auto || by rewrite W1). rewrite decide_False by (by intros [|]).
  apply pwp_ret, pwp_ret. cbn [negb]. rewrite bool_decide_false by done. cbn [andb].
  assert (same_world (world s4) (os_kill (- cpid) 0 (world s4)).2) as Hk by apply law_kill.
  split_and!; [done| | | |].
  - cbn. rewrite (sw_children _ _ Hk), W1. done.
  - cbn. by rewrite (sil_running _ _ H).
  - cbn. by trans (world s4); [apply H|].
  - change (ctl s4 = ctl s). by apply silent_ctl.
Qed.

Lemma check_pids_live n s :
  live n s → children (world s) ≠ [] →
  wp False (check_pids strerror cfg) s (λ err s', live n s' ∧ reaped s err s').
Proof.
  intros Hl Hne. eapply pwp_mono.
  { apply wp_and; [|apply check_pids_inv, Hl].
    instantiate (1 := λ err s', sched_inv cfg s' → live n s' ∧ reaped s err s').
    unfold check_pids. apply pwp_bind. unfold wp at 1. rewrite check_orphans_none by apply Hl.
    apply hushed_then; [apply hushed_sys, law_times|]. intros [cu1 cs1] s1 H1.
    pose proof (silent_live _ _ _ H1 Hl) as Hl1.
    assert (children (world s1) = children (world s)) as Hch1 by apply H1.
    destruct (calm_wait n (world s1)) as (pid & st & w & E & Hex & Hcalm); [apply Hl1|by rewrite Hch1|].
    pose proof (law_wait (world s1)) as Hlaw. rewrite E in Hlaw. destruct Hlaw as (Hch & Hxs & Hcs & _).
    apply pwp_bind, wp_sys. rewrite E. cbn [fst snd]. apply pwp_bind, pwp_put.
    apply hushed_then; [apply hushed_sys, law_times|]. intros [cu2 cs2] s2 H2.
    unfold child_ended. destruct (decode st) as [status v] eqn:Edec. cbn in Hex. subst status.
    apply pwp_bind, pwp_put. rewrite decide_True by auto. apply pwp_bind, pwp_get.
    change (handle_signals [] (set_world w s1)) with (set_world w s1) in H2.
    pose proof (live_nodup _ _ Hl1) as Hnd. rewrite Hch in Hnd. apply NoDup_cons in Hnd as [Hnin Hnd].
    pose proof (live_self _ _ Hl1) as Hself'. rewrite Hch in Hself'. apply not_elem_of_cons in Hself' as [Hns Hself'].
    pose proof (live_zoo _ _ Hl1) as Hz.
    apply (zoo_ok_perm _ _ (pid :: children w ++ [self W])) in Hz; [|by rewrite Hch].
    destruct (child_slot pid s1) as (i & r & Hfind & Hr); [apply Hl1|rewrite Hch; by left|].
    cbn [running set_num_active]. rewrite (sil_running _ _ H2). change (running (set_world w s1)) with (running s1).
    rewrite Hfind. apply list_find_Some in Hfind as (Hi & Hpid & _).
    pose proof (Forall_lookup_1 _ _ _ _ (live_slots _ _ Hl1) Hi) as Hslot.
    destruct Hslot as [[c Hc] Hstop]; [by rewrite Hpid|].
    pose proof (sil_world _ _ H2) as [W1 W2 W3 W4]. cbn in W1, W2, W3, W4.
    eapply pwp_mono; [eapply (reap_live n); [done|done|cbn; auto|cbn; by rewrite W1|done|
      cbn; by rewrite (sil_zoo _ _ H2), W1]|].
    intros err s' (-> & Hz' & Hrun & Hsw & Hctl) Hinv. destruct Hsw as [X1 X2 X3 X4]. cbn in X1, X2, X3, X4.
    pose proof (silent_ctl _ _ H2) as Hctl2. pose proof (silent_ctl _ _ H1) as Hctl1.
    unfold ctl in Hctl, Hctl1, Hctl2. cbn in Hctl, Hctl2. simplify_eq. split.
    - destruct Hl1. constructor; try congruence; auto.
      rewrite Hrun. cbn. rewrite (sil_running _ _ H2). apply slots_alter; [done|]. by intros ? _ [].
    - pose proof (sil_world _ _ H1) as [_ Y2 Y3 _]. constructor; [lia|congruence..|].
      exists st. unfold verdict. rewrite Edec. split; [congruence|done]. }
  cbn. intros err s' [H Hi]. by apply H.
Qed.

(** What a failed test adds to the exit status. *)
Definition penalty (err : Z) : Z := if track_exit_stats cfg && bool_decide (err ≠ 0%Z) then 1 else 0.

Lemma main_rest_live n s :
  live n s → children (world s) ≠ [] → (0 ≤ starts s)%Z → (0 ≤ stop s)%Z → (starts s = 0%Z ∨ stop s = 0%Z) →
  wp False (main_rest strerror cfg) s (λ more s', ∃ err s1, live n s' ∧ reaped s1 err s' ∧
    world s1 = world s ∧ num_active s1 = num_active s ∧ starts s1 = starts s ∧ cmd_index s1 = cmd_index s ∧
    exit_stat s1 = (exit_stat s + penalty err)%Z ∧ (0 ≤ stop s')%Z ∧ (starts s' = 0%Z ∨ stop s' = 0%Z) ∧
    more = negb (bool_decide (starts s' = 0%Z) && bool_decide (num_active s' = 0%Z))).
Proof.
  intros Hl Hne Hst Hsp Hss. unfold main_rest.
  set (s1 := if decide (starts s = 0%Z) then set_stop (stop s + 1) s else s).
  assert (live n s1 ∧ world s1 = world s ∧ num_active s1 = num_active s ∧ starts s1 = starts s ∧
    cmd_index s1 = cmd_index s ∧ exit_stat s1 = exit_stat s ∧ (0 ≤ stop s1)%Z ∧
    (starts s1 = 0%Z ∧ stop s1 ≠ 0%Z ∨ starts s1 ≠ 0%Z ∧ stop s1 = 0%Z)) as (L1 & A1 & A2 & A3 & A4 & A5 & A6 & A7).
  { subst s1. case_decide; cbn; split_and!; try done; try lia; try (naive_solver lia).
    destruct Hl. constructor; try done. by destruct live_inv0. }
  apply pwp_bind. eapply (pwp_mono _ _ _ (λ _ s', ∃ t, s' = set_stdout t s1)).
  { unfold check_stop. apply pwp_bind, pwp_get. subst s1. case_decide.
    - apply pwp_bind. destruct (negb _); [apply pwp_put|apply pwp_ret]; apply pwp_put; [by eexists|].
      exists (stdout s). by destruct s.
    - rewrite decide_False by lia. apply pwp_ret. exists (stdout s). by destruct s. }
  intros [] s2 [t ->]. assert (silent s1 (set_stdout t s1)) as S2 by by constructor.
  pose proof (silent_live _ _ _ S2 L1) as L2. apply pwp_bind. unfold check_signal.
  apply pwp_bind, pwp_get. rewrite (live_rec _ _ L2), decide_True by done. apply pwp_ret.
  apply pwp_bind. eapply pwp_mono; [apply (check_pids_live n); [done|by cbn; rewrite A1]|].
  intros err s3 [L3 R3]. apply pwp_bind.
  set (s4 := if decide (err = 0%Z) then s3 else if track_exit_stats cfg then set_exit_stat (exit_stat s3 + 1) s3 else s3).
  eapply (pwp_mono _ _ _ (λ _ s', s' = s4)).
  { unfold check_err. subst s4. case_decide; [by apply pwp_ret|]. apply pwp_put. cbn.
    by rewrite (live_fork _ _ L3), (qc_brakes _ Hcfg). }
  intros [] ? ->. apply pwp_bind, pwp_get. cbn [id].
  assert (live n s4 ∧ reaped (set_exit_stat (exit_stat s1 + penalty err) s1) err s4) as [L4 R4].
  { destruct R3 as [R31 R32 R33 R34 R35 R36 R37]. cbn in *. subst s4. unfold penalty.
    destruct (decide (err = 0%Z)) as [He|He], (track_exit_stats cfg); cbn;
      rewrite ?(bool_decide_false (err ≠ 0%Z)) by auto; rewrite ?(bool_decide_true (err ≠ 0%Z)) by auto;
      (split; [destruct L3; constructor; try done; by destruct live_inv0|]);
      constructor; cbn; try done; lia. }
  assert (stop s4 = stop s1 ∧ starts s4 = starts s1) as [B1 B2] by (destruct R4; done).
  assert (bool_decide (stop s4 ≠ 0%Z) = bool_decide (starts s4 = 0%Z)) as Hb
    by (apply bool_decide_ext; rewrite B1, B2; naive_solver).
  set (s5 := set_exit_stat _ s1) in R4.
  assert (∃ more, more = negb (bool_decide (starts s4 = 0%Z) && bool_decide (num_active s4 = 0%Z))) as [more Hm] by eauto.
  eapply (pwp_mono _ _ _ (λ more' s', more' = more ∧ s' = s4)).
  { rewrite Hb, Hm. destruct (_ && _); [by apply pwp_ret|]. apply pwp_bind, pwp_put, pwp_ret. split; [done|].
    by rewrite (live_idle _ _ L4), bool_decide_false by auto. }
  intros more' s' [-> ->]. exists err, s5. subst s5. cbn. rewrite A5 in R4 |- *. split_and!; try done; [lia|].
  rewrite B1, B2. naive_solver.
Qed.

(** The failures among the statuses of a run. *)
Definition penalties (sts : list Z) : Z := foldr (λ st n, penalty (verdict st) + n)%Z 0%Z sts.

Lemma main_loop_live fuel : ∀ m s,
  live m s → starts s = Z.of_nat m → (0 ≤ stop s)%Z → (m = 0 ∨ stop s = 0%Z) →
  (0 < Z.of_nat m + num_active s < Z.of_nat fuel)%Z →
  wp False (main_loop strerror cfg tries coll fuel) s (λ _ s', live 0 s' ∧ children (world s') = [] ∧
    execs (world s') = execs (world s) ++ (exec_at <$> order (cmd_index s) m) ∧
    ∃ sts, codes (world s') = codes (world s) ++ sts ∧
      Z.of_nat (length sts) = (Z.of_nat m + num_active s)%Z ∧
      exit_stat s' = (exit_stat s + penalties sts)%Z).
Proof.
  induction fuel as [|fuel IH]; intros m s Hl Hst Hsp Hss Hf; [lia|]. cbn [main_loop].
  apply pwp_bind. unfold main_iter. apply pwp_bind.
  assert (0 ≤ num_active s)%Z by (rewrite (inv_active _ _ (live_inv _ _ Hl)); lia).
  eapply pwp_mono; [apply (fill_loop_live m); [done|done|done|lia]|].
  intros [] s1 (k & Hk & R1 & L1 & Hend).
  pose proof (inv_active _ _ (live_inv _ _ L1)) as Ha1. pose proof (qc_slots _ Hcfg) as Hslots.
  destruct R1 as [A1 A2 A3 A4 A5 A6 A7].
  eapply pwp_mono.
  { apply (main_rest_live (m - k)); [done| |lia|lia|destruct Hss; [left; lia|right; congruence]].
    intros E. rewrite E in Ha1. cbn in Ha1. destruct Hend as [->|Hend]; lia. }
  intros more s2 (err & s1' & L2 & R2 & B1 & B2 & B3 & B4 & B5 & B6 & B7 & Hmore).
  destruct R2 as [C1 C2 C3 C4 C5 C6 (st & C7 & C8)]. rewrite B1 in C6, C7.
  pose proof (inv_active _ _ (live_inv _ _ L2)) as Ha2.
  assert (starts s2 = Z.of_nat (m - k)) as Hst2 by (rewrite C2, B3, A1, Hst; lia).
  assert (order (cmd_index s) m = order (cmd_index s) k ++ order (cmd_index s2) (m - k)) as Hord.
  { rewrite C5, B4, <-A4. f_equal. lia. }
  destruct more.
  - eapply pwp_mono; [apply (IH (m - k)); [done|done|done|destruct B7; [left; lia|by right]|]|].
    + rewrite C1, B2, A2. split; [|lia]. symmetry in Hmore. apply negb_true_iff, andb_false_iff in Hmore.
      destruct Hmore as [Hm|Hm]; apply bool_decide_eq_false in Hm; lia.
    + cbn. intros [] s3 (L3 & D1 & D2 & sts & D3 & D4 & D5). split_and!; [done|done| |].
      * rewrite D2, C6, A3, Hord, fmap_app, app_assoc. done.
      * exists (st :: sts). split_and!.
        -- by rewrite D3, C7, A7, <-app_assoc.
        -- cbn [length]. lia.
        -- unfold penalties in *. cbn [foldr]. rewrite <-C8. lia.
  - apply pwp_ret. symmetry in Hmore. apply negb_false_iff, andb_true_iff in Hmore as [Hm1 Hm2].
    apply bool_decide_eq_true in Hm1, Hm2.
    assert (k = m) as -> by lia. rewrite Nat.sub_diag in *.
    split_and!; [done|apply length_zero_iff_nil; lia| |].
    + by rewrite C6, A3, Hord, fmap_app, app_nil_r.
    + exists [st]. split_and!; [by rewrite C7, A7|cbn [length]; lia|]. unfold penalties. cbn [foldr]. rewrite <-C8. lia.
Qed.
End run.

(** ** The order of a full run *)

Lemma order_seq coll n : ∀ c, c + n ≤ length coll → order coll c n = seq c n.
Proof.
  induction n as [|n IH]; intros c Hc; cbn [order seq]; [done|]. f_equal. destruct n as [|n]; [done|].
  unfold next_index. rewrite decide_False by lia. apply IH. lia.
Qed.

Lemma exec_at_all coll : exec_at coll <$> seq 0 (length coll) = exec_of <$> coll.
Proof.
  apply list_eq. intros i. rewrite !list_lookup_fmap. destruct (decide (i < length coll)) as [Hi|Hi].
  - rewrite lookup_seq_lt by done. cbn. unfold exec_at. by destruct (lookup_lt_is_Some_2 coll i Hi) as [e ->].
  - rewrite lookup_seq_ge by lia. by rewrite lookup_ge_None_2 by lia.
Qed.

Lemma init_live `{!OS W, !OSView W, !OSLaws W} st z (w : W) :
  s_coll st ≠ [] → children w = [] → calm (length (s_coll st)) w → zoo_ok z [self W] →
  live (s_config st) (s_coll st) (length (s_coll st)) (init_pan st false z w).
Proof.
  intros Hne Hc Hcalm Hz. constructor; cbn [init_pan running world orphans rec_signal go_idle fork_in_road cmd_index zoofile];
    rewrite ?Hc; try done.
  - by apply init_inv.
  - constructor.
  - apply not_elem_of_nil.
  - by apply Forall_replicate.
  - by repeat constructor.
  - destruct (s_coll st); [done|]. cbn. lia.
Qed.

Lemma main_end_exit `{!OS W, !OSView W, !OSLaws W} strerror cfg coll uts n (s : pan W) :
  live cfg coll n s → children (world s) = [] → panpid cfg = self W →
  ∃ s', main_end strerror cfg coll uts s = Done (Exit (exit_stat s), s') ∧ world s' = world s.
Proof.
  intros Hl Hc Hself. pose proof (live_zoo _ _ _ _ Hl) as Hz. rewrite Hc in Hz.
  destruct (zoo_ok_clear strerror (zoofile s) [] (self W)) as (z & E & _); [done|apply not_elem_of_nil|].
  unfold main_end, mbind, M_bind, zoo_call. rewrite Hself, E. cbn. destruct uts as [[release machine] nodename].
  destruct (logfile cfg && fmt_print cfg); eexists; split; reflexivity.
Qed.


Lemma ex_zoo_ok : zoo_ok ex_pan_zoo [self sim].
Proof.
  exists [pad 79 (chars "1,pan,ltp-pan -S")]. split_and!; [by_decide|by_decide|].
  constructor; [|constructor]. eexists. split_and!; [by left|by vm_compute|by vm_compute].
Qed.

