(* ===== verification/ScannerSpec.v ===== *)
(** * From the driver to the report

    What ltp-pan prints about its tests, ltp-scanner turns into a report with the
    result of every one of them. *)
From stdpp Require Import base strings numbers option list gmap.
From Stdlib Require Import Ascii.
From S2P Require Import Prelude CInt CText SplitStr Zoo PanColl Pan PanSched PanRun.
From S2P Require Import Symbol SymbolSpec Scanner ScannerLex ScannerStore ScannerRead ScannerReport.

(** ** What the driver prints *)

(** A test that has ended: its slot, its command, the output it left in its file, also
    as lines, its status and the times of the children. *)
Record finished := Finished {
  slot : tag_pgrp; command : coll_entry; content : list ascii; lines : list (list ascii); stat_loc : Z; times : Z * Z
}.

(** The kind of termination that is printed, and the signal or the exit status: 130 is
    taken back for a test that was being stopped. *)
Definition term (f : finished) : term_type := if stopping (slot f) then driver_interrupt else (decode (stat_loc f)).1.

Definition term_id (f : finished) : Z :=
  let '(status, w) := decode (stat_loc f) in
  if bool_decide (w = 130%Z) && stopping (slot f) && bool_decide (status = exited) then 0%Z else w.

(** The keywords before and after the output of a test that ended at [t]. *)
Definition before (f : finished) : list kw :=
  [KW false (chars "tag") (name (command f)) " "%char; KW false (chars "stime") (print_d (mystime (slot f))) NEWLINE;
   KW true (chars "cmdline") (cmdline (command f)) NEWLINE; KW false (chars "contacts") [DQUOTE; DQUOTE] NEWLINE;
   KW false (chars "analysis") (chars "exit") NEWLINE].

Definition after (t : Z) (f : finished) : list kw :=
  [KW true (chars "initiation_status") (chars "ok") NEWLINE;
   KW false (chars "duration") (print_d (t - mystime (slot f))) " "%char;
   KW false (chars "termination_type") (term_text (term f)) " "%char; KW false (chars "termination_id") (print_d (term_id f)) " "%char;
   KW false (chars "corefile") (yes_no (core_dumped (stat_loc f))) NEWLINE;
   KW false (chars "cutime") (print_d (wrap32 (times f).1)) " "%char; KW false (chars "cstime") (print_d (wrap32 (times f).2)) NEWLINE].

Definition finished_text (t : Z) (f : finished) : list ascii := test_text (before f) (lines f) (after t f).

(** The output, with a newline behind a last line that has none. *)
Definition whole_lines (c : list ascii) : list ascii := if decide (last c = Some NEWLINE) then c else c ++ [NEWLINE].

Record finished_ok (f : finished) : Prop := {
  fin_pid : (0 < pgrp (slot f) ≤ INT_MAX)%Z;
  fin_cmd : cmd (slot f) = Some (command f);
  fin_content : content f ≠ [] ∧ cstring (content f) ∧ whole_lines (content f) = unlines (lines f);
  fin_lines : Forall output_line (lines f);
  fin_name : name (command f) ≠ [] ∧ Forall dark (name (command f)) ∧ Forall (λ c, c ≠ ","%char ∧ c ≠ NUL ∧ c ≠ DQUOTE) (name (command f)) ∧
    name (command f) ≠ chars "_RTS" ∧ length (name (command f)) + 12 < KEYSIZE;
  fin_cmdline : cmdline (command f) ≠ [] ∧ Forall quote_free (cmdline (command f)) ∧ cstring (cmdline (command f));
  fin_time : is_i32 (mystime (slot f))
}.

(** The text of write_test_start() and write_test_end(). *)
Definition start_text (f : finished) : list ascii :=
  chars "<<<test_start>>>" ++ NL ++
     chars "tag=" ++ name (command f) ++ chars " stime=" ++ print_d (mystime (slot f)) ++ NL ++
     chars "cmdline=" ++ DQUOTE :: cmdline (command f) ++ DQUOTE :: NL ++
     chars "contacts=" ++ DQUOTE :: DQUOTE :: NL ++
     chars "analysis=exit" ++ NL ++ chars "<<<test_output>>>" ++ NL.

Definition end_text (t : Z) (f : finished) : list ascii :=
  chars "<<<execution_status>>>" ++ NL ++
      chars "initiation_status=" ++ DQUOTE :: chars "ok" ++ DQUOTE :: NL ++
      chars "duration=" ++ print_d (t - mystime (slot f)) ++ chars " termination_type=" ++ term_text (term f) ++
      chars " termination_id=" ++ print_d (term_id f) ++ chars " corefile=" ++ yes_no (core_dumped (stat_loc f)) ++ NL ++
      chars "cutime=" ++ print_d (wrap32 (times f).1) ++ chars " cstime=" ++ print_d (wrap32 (times f).2) ++ NL ++
      chars "<<<test_end>>>" ++ NL.

Lemma finished_text_eq t f : start_text f ++ unlines (lines f) ++ end_text t f = finished_text t f.
Proof.
  unfold start_text, end_text, finished_text, test_text, before, after. cbn [fmap list_fmap concat kw_text kw_quoted kw_key kw_value kw_white].
  unfold quoted_text, plain_text. cbn -[print_d term_text yes_no wrap32 unlines core_dumped Z.sub].
  repeat (rewrite <- app_assoc; cbn -[print_d term_text yes_no wrap32 unlines core_dumped Z.sub]). done.
Qed.

(** The files of the system: nothing but the driver changes those of the tests that
    have ended. *)
Class OSFiles (W : Type) `{!OS W} := {
  files : W → list ascii → option (list ascii);
  files_time w p : files (os_time w).2 p = files w p;
  files_kill q sig w p : files (os_kill q sig w).2 p = files w p;
  files_slurp q w : (os_slurp q w).1 = files w q;
  files_slurped q w p : files (os_slurp q w).2 p = files w p;
  files_unlink q w p : p ≠ q → files (os_unlink q w).2 p = files w p;
}.

Section driver.
Context `{!OS W, !OSFiles W} (strerror : Z → list ascii) (cfg : config).
Implicit Types s : pan W.

(** The driver learns from wait() that the tests have ended, one after the other. *)
Fixpoint children_ended (fs : list finished) : Pan.M W () :=
  match fs with
  | [] => mret ()
  | f :: fs' =>
      _ ← child_ended strerror cfg (pgrp (slot f)) (stat_loc f) (times f);
      children_ended fs'
  end.

(** The tests have their slots, their entries in the zoo and their files. *)
Record waiting (fs : list finished) s : Prop := {
  wait_slots : Forall (λ f, ∃ i, list_find (λ r, pgrp r = pgrp (slot f)) (running s) = Some (i, slot f)) fs;
  wait_pids : NoDup ((λ f, pgrp (slot f)) <$> fs);
  wait_zoo : zoo_ok (zoofile s) ((λ f, pgrp (slot f)) <$> fs);
  wait_files : Forall (λ f, files (world s) (output (slot f)) = Some (content f)) fs;
  wait_outputs : NoDup ((λ f, output (slot f)) <$> fs);
}.

(** A step that prints [t] and does not touch the slots, the zoo and the files. *)
Record prints (t : list ascii) s s' : Prop := {
  pr_running : running s' = running s;
  pr_zoo : zoofile s' = zoofile s;
  pr_files p : files (world s') p = files (world s) p;
  pr_stdout : stdout s' = stdout s ++ t;
}.

Lemma prints_trans t1 t2 s1 s2 s3 : prints t1 s1 s2 → prints t2 s2 s3 → prints (t1 ++ t2) s1 s3.
Proof.
  intros [A1 A2 A3 A4] [B1 B2 B3 B4]. split; [congruence|congruence|intros; by rewrite B3|by rewrite B4, A4, app_assoc].
Qed.

Lemma prints_none s s' : running s' = running s → zoofile s' = zoofile s → world s' = world s → stdout s' = stdout s → prints [] s s'.
Proof. intros H1 H2 H3 H4. split; [done|done|by rewrite H3|by rewrite H4, app_nil_r]. Qed.

Lemma prints_then {A B} (m : Pan.M W A) (k : A → Pan.M W B) t s Q :
  wp False m s (λ _ s', prints t s s') → (∀ a s', prints t s s' → wp False (k a) s' Q) → wp False (m ≫= k) s Q.
Proof. intros Hm Hk. apply pwp_bind. eapply pwp_mono; [exact Hm|]. auto. Qed.

Lemma log_result_prints c r t st w stat ts s : wp False (log_result cfg c r t st w stat ts) s (λ _ s', prints [] s s').
Proof. unfold log_result, print_log. repeat case_match; by apply prints_none. Qed.

Lemma log_command_prints c w s : wp False (log_command cfg c w) s (λ _ s', prints [] s s').
Proof. unfold log_command. repeat case_match; by apply prints_none. Qed.

Lemma copy_output_prints f s :
  files (world s) (output (slot f)) = Some (content f) → finished_ok f →
  wp False (copy_buffered_output (slot f)) s (λ _ s', prints (unlines (lines f)) s s').
Proof.
  intros Hs Hf. destruct (fin_content f Hf) as (Hne & Hc & <-). unfold copy_buffered_output.
  apply pwp_bind, wp_sys. rewrite files_slurp, Hs. cbn [slurp fmap option_fmap option_map]. rewrite cstr_id by done.
  assert (∀ p, files (os_slurp (output (slot f)) (world s)).2 p = files (world s) p) as Hk by (intros; apply files_slurped).
  unfold whole_lines. destruct (last (content f)) as [x|] eqn:El; [|by apply last_None in El].
  apply pwp_bind, pwp_put, pwp_bind, pwp_ret. destruct (decide (x = NEWLINE)) as [->|Hx].
  - rewrite decide_False, decide_True by auto. by apply pwp_ret.
  - rewrite decide_True, decide_False by congruence. apply pwp_put. split; [done..|]. cbn. by rewrite <- app_assoc.
Qed.

Context (Hdir : is_Some (test_out_dir cfg)) (Hquiet : quiet_mode cfg = false) (Hrts : rts cfg = true).
Context (Hkmsg : no_kmsg cfg = true ∨ kmsg_ok cfg = true).

Lemma write_start_prints f s : finished_ok f → wp False (write_test_start cfg (slot f)) s (λ _ s', prints (start_text f) s s').
Proof.
  intros Hf. unfold write_test_start, write_kmsg. rewrite (fin_cmd f Hf), Hrts. apply pwp_bind, pwp_ret, pwp_bind, pwp_put.
  set (s1 := set_stdout _ s). assert (prints (start_text f) s s1) as H1 by done. clearbody s1.
  destruct (no_kmsg cfg); [done|]. destruct Hkmsg as [H| ->]; [done|]. destruct (decide _); apply pwp_put; by destruct H1.
Qed.

Lemma prints_waiting t fs s s' : prints t s s' → waiting fs s → waiting fs s'.
Proof.
  intros [A1 A2 A3 _] [B1 B2 B3 B4 B5]. split; rewrite ?A1, ?A2; [done..| |done]. eapply Forall_impl; [exact B4|]. intros f. cbn. by rewrite A3.
Qed.

(** A slot that is given back does not hide the others. *)
Lemma list_find_freed (p q : Z) j r0 i r (l : list tag_pgrp) :
  l !! j = Some r0 → pgrp r0 = p → p ≠ q → q ≠ 0%Z → list_find (λ r, pgrp r = q) l = Some (i, r) →
  list_find (λ r, pgrp r = q) (alter (λ r, TagPgrp 0 (stopping r) (mystime r) (cmd r) (output r)) j l) = Some (i, r).
Proof.
  intros Hj Hp Hpq Hq (Hi & Hr & Hall)%list_find_Some.
  assert (i ≠ j) as Hij by (intros ->; rewrite Hj in Hi; injection Hi as <-; congruence).
  apply list_find_Some. split_and!; [by rewrite list_lookup_alter_ne by done|done|].
  intros k y Hk Hlt. rewrite list_lookup_alter in Hk. case_decide; [|by eapply Hall].
  apply fmap_Some in Hk as (y' & _ & ->). cbn. congruence.
Qed.

Lemma adopt_orphans_waiting f fs s : finished_ok f → waiting fs s →
  wp False (adopt_orphans strerror (command f) (pgrp (slot f))) s (λ _ s', waiting fs s' ∧ stdout s' = stdout s).
Proof.
  intros Hf Hw. destruct (fin_cmdline f Hf) as (_ & Hq & Hc). unfold adopt_orphans. apply pwp_bind, wp_sys.
  set (s1 := set_world _ s). assert (prints [] s s1) as H1.
  { subst s1. split; [done|done|intros; apply files_kill|cbn; by rewrite app_nil_r]. }
  apply (prints_waiting _ _ _ _ H1) in Hw. destruct H1 as [_ _ _ Ho1]. rewrite app_nil_r in Ho1. case_decide; [|by apply pwp_ret].
  destruct (zoo_ok_mark strerror (zoofile s1) _ (pgrp (slot f)) (chars "panorphan") (cmdline (command f)) (wait_zoo _ _ Hw)) as (z & E & Hz).
  { by apply fin_pid. }
  { rewrite not_elem_of_app. split; [by_decide|]. clear -Hq. intros Hin. rewrite Forall_forall in Hq. apply Hq in Hin. by vm_compute in Hin. }
  { unfold cstring. rewrite not_elem_of_app. split; [by_decide|done]. }
  apply pwp_bind, wp_zoo; [|by right; eauto]. intros rc z' E'. rewrite E in E'. injection E' as <- <-.
  rewrite decide_False by auto. apply pwp_bind, pwp_put, pwp_bind, wp_sys, pwp_ret. split; [|done].
  destruct Hw as [B1 B2 B3 B4 B5]. split; [done|done|cbn| |done].
  - destruct Hz as (ls & ? & ? & (_ & ?)%Forall_cons). by exists ls.
  - eapply Forall_impl; [exact B4|]. intros g Hg. etrans; [apply files_kill|exact Hg].
Qed.

(** The output is copied and its file removed. *)
Lemma capture_prints f fs s : finished_ok f → waiting (f :: fs) s →
  wp False (_ ← write_test_start cfg (slot f); _ ← copy_buffered_output (slot f); _ ← sys (os_unlink (output (slot f))); mret ()) s
    (λ _ s', running s' = running s ∧ zoofile s' = zoofile s ∧ stdout s' = stdout s ++ start_text f ++ unlines (lines f) ∧
       Forall (λ g, files (world s') (output (slot g)) = Some (content g)) fs).
Proof.
  intros Hf [_ _ _ [Hc Hfiles]%Forall_cons Hnd]. cbn in Hnd. apply NoDup_cons in Hnd as [Hnin _].
  eapply prints_then; [by apply write_start_prints|]. intros [] s1 H1.
  eapply prints_then; [apply copy_output_prints; [|done]; by rewrite (pr_files _ _ _ H1)|]. intros [] s2 H2.
  destruct (prints_trans _ _ _ _ _ H1 H2) as [P1 P2 P3 P4]. apply pwp_bind, wp_sys, pwp_ret. split_and!; [done..|].
  apply Forall_forall. intros g Hg. cbn [world set_world]. rewrite files_unlink, P3.
  - by apply (proj1 (Forall_forall _ _) Hfiles).
  - intros E. apply Hnin. rewrite <- E. by apply (list_elem_of_fmap_2 (λ f, output (slot f))).
Qed.

(** The slot of a test that has ended is given back. *)
Lemma waiting_freed f fs i s s' z' : finished_ok f → Forall finished_ok fs → waiting (f :: fs) s →
  list_find (λ r, pgrp r = pgrp (slot f)) (running s) = Some (i, slot f) →
  running s' = alter (λ r, TagPgrp 0 (stopping r) (mystime r) (cmd r) (output r)) i (running s) →
  zoo_ok z' ((λ f, pgrp (slot f)) <$> fs) → Forall (λ g, files (world s') (output (slot g)) = Some (content g)) fs →
  waiting fs (set_zoofile z' s').
Proof.
  intros Hf Hfs [[_ W1]%Forall_cons [Hnin W2]%NoDup_cons _ _ [_ W5]%NoDup_cons] (Hi & _ & _)%list_find_Some Hrun Hz Hfiles.
  split; [|done..]. cbn [running set_zoofile]. rewrite Hrun. apply Forall_forall. intros g Hg.
  destruct (proj1 (Forall_forall _ _) W1 g Hg) as (k & Hk). exists k. pose proof (fin_pid _ (proj1 (Forall_forall _ _) Hfs g Hg)).
  apply (list_find_freed (pgrp (slot f)) _ _ (slot f)); [done|done| |lia|done].
  intros E. apply Hnin. rewrite E. by apply (list_elem_of_fmap_2 (λ f, pgrp (slot f))).
Qed.

(** A test that has ended is printed, and the others keep waiting. *)
Lemma child_ended_prints f fs s : finished_ok f → Forall finished_ok fs → waiting (f :: fs) s →
  wp False (child_ended strerror cfg (pgrp (slot f)) (stat_loc f) (times f)) s
    (λ _ s', waiting fs s' ∧ ∃ t, stdout s' = stdout s ++ finished_text t f).
Proof.
  intros Hf Hfs Hw. unfold child_ended. pose proof (eq_refl (term_id f)) as Hid. unfold term_id at 1 in Hid.
  pose proof (eq_refl (term f)) as Ht. unfold term at 1 in Ht. destruct (decode (stat_loc f)) as [status w]. cbn [fst] in Ht.
  eapply (prints_then _ _ []). { apply pwp_put. destruct (decide _); by apply prints_none. } intros [] s1 H1.
  apply pwp_bind, pwp_get. apply (prints_waiting _ _ _ _ H1) in Hw. pose proof (wait_slots _ _ Hw) as [(i & Hi) _]%Forall_cons.
  cbn [id]. rewrite Hi. unfold reap. rewrite (fin_cmd f Hf), Hid, (bool_decide_true (is_Some (test_out_dir cfg))) by done.
  eapply (prints_then _ _ []). { apply wp_sys. split; [done|done|intros; apply files_time|by cbn; rewrite app_nil_r]. } intros t s2 H2.
  apply pwp_bind, pwp_ret. rewrite Hquiet. cbn [negb].
  eapply (prints_then _ _ []); [apply log_result_prints|]. intros [] s3 H3.
  eapply (prints_then _ _ []); [apply log_command_prints|]. intros [] s4 H4.
  pose proof (prints_trans _ _ _ _ _ (prints_trans _ _ _ _ _ H2 H3) H4) as K4. cbn [app] in K4. clear H2 H3 H4 s2 s3.
  apply (prints_waiting _ _ _ _ K4) in Hw. rewrite <- (pr_running _ _ _ K4) in Hi.
  pose proof (prints_trans _ _ _ _ _ H1 K4) as [_ _ _ Ho4]. cbn [app] in Ho4. rewrite app_nil_r in Ho4. clear H1 K4 s1.
  apply pwp_bind. eapply pwp_mono; [by eapply capture_prints|]. intros [] s5 (Hr5 & Hz5 & Ho5 & Hf5).
  rewrite Ht. unfold write_test_end. rewrite Hrts. apply pwp_bind, pwp_put, pwp_bind, pwp_put. set (s6 := set_running _ _).
  assert (stdout s6 = stdout s ++ finished_text t f) as Ho6.
  { rewrite <- finished_text_eq, <- Ho4, (app_assoc (start_text f)), app_assoc, <- Ho5. done. }
  destruct (zoo_ok_clear strerror (zoofile s6) ((λ f, pgrp (slot f)) <$> fs) (pgrp (slot f))) as (z & E & Hz).
  { subst s6. cbn. rewrite Hz5. apply (wait_zoo _ _ Hw). }
  { by pose proof (wait_pids _ _ Hw) as [? _]%NoDup_cons. }
  apply pwp_bind, wp_zoo; [|by right; eauto]. intros rc z' E'. rewrite E in E'. injection E' as <- <-.
  rewrite decide_False by auto. apply pwp_bind. eapply pwp_mono.
  { apply (adopt_orphans_waiting f fs); [done|]. eapply waiting_freed; [done|done|exact Hw|exact Hi| |done|exact Hf5].
    subst s6. cbn. by rewrite Hr5. }
  intros [] s7 [Hw7 Ho7]. apply pwp_ret. split; [done|]. exists t. by rewrite Ho7.
Qed.

Lemma children_ended_prints fs : ∀ s, Forall finished_ok fs → waiting fs s →
  wp False (children_ended fs) s (λ _ s', ∃ ts, length ts = length fs ∧ stdout s' = stdout s ++ concat (zip_with finished_text ts fs)).
Proof.
  induction fs as [|f fs IH]; intros s Hok Hw; [apply pwp_ret; exists []; cbn; by rewrite app_nil_r|].
  apply Forall_cons in Hok as [Hf Hok]. cbn [children_ended]. apply pwp_bind. eapply pwp_mono; [by apply (child_ended_prints f fs)|].
  intros _ s1 (Hw1 & t & Ho1). eapply pwp_mono; [by apply IH|]. intros [] s2 (ts & Hl & Ho2).
  exists (t :: ts). cbn. split; [by rewrite Hl|]. by rewrite Ho2, Ho1, <- app_assoc.
Qed.
End driver.

(** ** What the scanner makes of it *)

(** The summary of a test. *)
Definition summary_of (f : finished) : summary :=
  Summary (name (command f)) (mystime (slot f)) (chars "ok") (core_dumped (stat_loc f)) (term_text (term f)) (term_id f).

Lemma print_d_dark v : Forall dark (print_d v) ∧ head (print_d v) ≠ Some DQUOTE.
Proof.
  assert (Forall (λ c, dark c ∧ c ≠ DQUOTE) (print_d v)) as Hall.
  { apply print_d_forall; [by split|]. intros d Hd. assert (d ∈ seqZ 0 10) as Hin by (apply elem_of_seqZ; lia). clear Hd. revert d Hin.
    apply Forall_forall. by_decide. }
  split; [eapply Forall_impl; [done|]; by intros c []|]. destruct Hall as [|c l [_ Hc] _]; cbn; congruence.
Qed.

Lemma number_ok k v w : k ≠ [] → Forall key_char k → k ≠ chars "_Start_line" → white w → kw_ok (KW false k (print_d v) w).
Proof. intros. destruct (print_d_dark v). split; cbn; [done| |done]. split_and!; [apply print_d_nonempty|done|]. done. Qed.

Lemma kws_ok t f : finished_ok f → Forall kw_ok (before f ++ after t f).
Proof.
  intros [_ _ _ _ (Hn1 & Hn2 & Hn3 & _) (Hc1 & Hc2 & _) _]. unfold before, after. cbn [app].
  repeat (apply Forall_cons_2; [try (apply number_ok; by_decide)|]); [| | | | | | |done];
    (split; cbn; [by_decide| |done]); try done; try (split; by_decide).
  - split; [done|]. split; [done|]. destruct Hn3 as [|c l (_ & _ & Hc) _]; [done|]. cbn. congruence.
  - destruct (term f); by_decide.
  - destruct (core_dumped (stat_loc f)); by_decide.
Qed.

Lemma decode_i32 st : is_i32 (decode st).2.
Proof.
  assert (∀ a n, (0 ≤ n)%Z → (0 ≤ Z.land a (Z.ones n) < 2 ^ n)%Z) as Hl by (intros; rewrite Z.land_ones by done; apply Z.mod_pos_bound; lia).
  pose proof (Hl st 7%Z ltac:(done)). pose proof (Hl (Z.shiftr st 8) 8%Z ltac:(done)). unfold decode, WTERMSIG, WEXITSTATUS.
  change (Z.ones 7) with 127%Z in *. change (Z.ones 8) with 255%Z in *. repeat case_match; cbn [snd]; clia.
Qed.

Lemma term_id_i32 f : is_i32 (term_id f).
Proof. unfold term_id. pose proof (decode_i32 (stat_loc f)). destruct (decode (stat_loc f)). by destruct (_ && _). Qed.

Lemma summary_of_ok f : finished_ok f → summary_ok (summary_of f).
Proof.
  intros [_ _ _ _ (Hn1 & Hn2 & Hn3 & Hn4 & Hn5) _ _]. split; cbn; [|done| |apply term_id_i32].
  - split_and!; [|done|done]. split; [done|]. eapply Forall_impl; [done|]. by intros c (? & ? & _).
  - destruct (term f); by_decide.
Qed.

(** The tests one after the other. *)
Lemma goes_finished fs : ∀ ts rs,
  length ts = length fs → Forall finished_ok fs → NoDup ((sum_tag <$> rs) ++ (sum_tag ∘ summary_of <$> fs)) →
  goes (idle true rs) (concat (zip_with finished_text ts fs)) [] (idle true (rs ++ (summary_of <$> fs))).
Proof.
  induction fs as [|f fs IH]; intros [|t ts] rs Hl Hok Hnd; try done; [rewrite app_nil_r; apply goes_nil|].
  apply Forall_cons in Hok as [Hf Hok]. injection Hl as Hl. cbn [fmap list_fmap concat zip_with] in *. eapply goes_app.
  - apply (goes_test rs (before f) (lines f) (after t f) (summary_of f)); try done.
    + by apply kws_ok.
    + by_decide.
    + by_decide.
    + by apply fin_lines.
    + by apply (sum_tag_ok _ (summary_of_ok f Hf)).
    + apply NoDup_app in Hnd as (_ & Hd & _). intros Hin. apply (Hd _ Hin). apply list_elem_of_here.
  - replace (rs ++ summary_of f :: (summary_of <$> fs)) with ((rs ++ [summary_of f]) ++ (summary_of <$> fs)) by by rewrite <- app_assoc.
    apply IH; [done|done|]. rewrite fmap_app, <- app_assoc. exact Hnd.
Qed.

Lemma newlines_length t : (newlines t ≤ Z.of_nat (length t))%Z.
Proof. unfold newlines. pose proof (length_filter (λ c, c = NEWLINE) t). lia. Qed.

(** C13: What ltp-pan prints with -O about tests it started, as it learns that they have
    ended, ltp-scanner reads back completely: it prints the header, with the date of
    the first start, and for every test, in the order in which they ended, its tag and
    its results: the initiation status ok, a core dump, a termination other than an
    exit, also that the driver stopped it, and pass or fail by the exit status, where
    130 of a stopped test is no failure.  The tags are distinct single words without
    quotes and commas that fit into the buffers of the reporter, the command lines
    have no quote and no newline, every test left some output without null characters
    of which no line is a marker, and the zoo has the entries of the tests and its
    calls do not fail. *)
Theorem scanner_reads_driver `{!OS W, !OSFiles W} strerror cfg fs (s : pan W) :
  is_Some (test_out_dir cfg) → quiet_mode cfg = false → rts cfg = true → no_kmsg cfg = true ∨ kmsg_ok cfg = true →
  stdout s = [] → fs ≠ [] → Forall finished_ok fs → waiting fs s → NoDup ((λ f, name (command f)) <$> fs) →
  ∃ s', children_ended strerror cfg fs s = Done (Go (), s') ∧
    ((Z.of_nat (length (stdout s')) < INT_MAX)%Z → scanned no_options (stdout s') = Done (report_text (summary_of <$> fs))).
Proof.
  intros Hdir Hq Hrts Hk Hs Hne Hok Hw Hnd.
  destruct (wp_total _ _ _ (children_ended_prints strerror cfg Hdir Hq Hrts Hk fs s Hok Hw)) as ([] & s' & Hrun & ts & Hl & Ho).
  exists s'. split; [done|]. rewrite Ho, Hs, app_nil_l. set (t := concat _) in *. intros Hlen. unfold scanned, main.
  erewrite then_done by reflexivity. erewrite then_done by reflexivity. set (s0 := Scan _ _ _ _ _ _ _ _ _ _ _).
  destruct (goes_finished fs ts [] Hl Hok Hnd s0) as (s1 & Hr & _ & Hidle).
  { by split_and!; try done; exists []; split; [|constructor]. }
  { done. }
  { pose proof (newlines_length t). change (yylineno s0) with 1%Z. fold t. lia. }
  destruct Hidle as (_ & _ & _ & _ & Hout0 & _ & _ & es & H0 & Hsh). erewrite then_done by by apply reads_all.
  destruct fs as [|f fs]; [done|].
  destruct (scanner_reporter_ok s1 es (summary_of f) (summary_of <$> fs) (next_loc (store_of s1))) as (h & Hrep); [done|done|done| | | |].
  { rewrite (shelf_keys _ _ _ _ _ Hsh). rewrite app_nil_l, <- list_fmap_compose. exact Hnd. }
  { change (Forall summary_ok (summary_of <$> f :: fs)). apply Forall_fmap. eapply Forall_impl; [done|]. apply summary_of_ok. }
  { apply (Forall_inv Hok). }
  unfold reporter. cbn [iscanner no_options]. change (scanner_reporter no_options _ s1) with (scanner_reporter no_options 0 s1). rewrite Hrep. cbn [mbind outcome_bind out set_store add_out]. by rewrite Hout0.
Qed.

(** ** Inputs the scanner cannot report on *)

(** Without a test in the input the reporter reads a key that was never set: the
    table of tags is empty, and the key of its first node is used. *)
Theorem scanner_no_tests opt : iscanner opt = false → scanned opt [] = Fault.
Proof. intros Hi. destruct opt as [e i]. cbn in Hi. subst i. by vm_compute. Qed.

Lemma scanner_no_tests_witness : scanned (Options true false) [] = Fault.
Proof. apply scanner_no_tests. reflexivity. Defined.

(** The keywords of a test without an initiation status stop the reporter: it
    replaces the spaces of the string literal that stands for the missing status. *)
Theorem tag_report_no_status opt ct t s lo hi kv tag :
  holds (store_of s) lo hi t kv → value_of kv (chars "tag") = Some tag → value_of kv (chars "initiation_status") = None →
  tag_report opt ct (Some t) s = Fault.
Proof.
  intros Hh Ht Hi. destruct (holds_keywords _ _ _ _ _ (chars "tag") tag Hh ltac:(by_decide) Ht) as (a & _ & _ & Ha).
  unfold tag_report. do 2 mstep Ha. erewrite then_done by (eapply keyword_missing; [done|by_decide|done]). cbv beta match.
  assert (∃ e, keyword (Some t) (chars "contacts") s = Done (e, s) ∧ ∀ x, e = Some x → ∃ v, text x s = Done (v, s)) as (e & He & Hx).
  { destruct (value_of kv (chars "contacts")) as [v|] eqn:Ev.
    - destruct (holds_keywords _ _ _ _ _ (chars "contacts") v Hh ltac:(by_decide) Ev) as (b & _ & _ & Hb).
      exists (Some b). split; [by apply Hb|]. intros x [= <-]. exists v. by apply Hb.
    - exists None. split; [|done]. eapply keyword_missing; [done|by_decide|done]. }
  unfold keyword in He. unfold test_result, mbind, M_bind in *. cbn [from_option id].
  destruct (reads _ s) as [[v s1]| |]; [|done..]. rewrite He. destruct e as [x|]; [|done].
  destruct (Hx x eq_refl) as [y Hy]. by rewrite Hy.
Qed.

(** ** Witnesses *)

(** A system with files and a clock that stands still. *)
#[local] Instance still_OS : OS (gmap (list ascii) (list ascii)) := {|
  os_time w := (86410%Z, w); os_times w := (0%Z, 0%Z, w); os_open _ w := (0%Z, w); os_unlink p w := (0%Z, delete p w);
  os_slurp p w := (w !! p, w);
  os_pipe w := (0%Z, w); os_fork _ w := (ForkErr 0, w); os_kill _ _ w := (0%Z, w); os_wait w := ([], WaitErr 0, w);
  os_lrand48 w := (0%Z, w); os_signals w := ([], w); os_stop_file w := (false, w)
|}.

#[local] Instance still_files : OSFiles (gmap (list ascii) (list ascii)).
Proof. refine {| files w p := w !! p |}; try done. intros q w p Hp. cbn. by rewrite lookup_delete_ne. Defined.

(** A test that dumped core, and one that was stopped and exited with 130. *)
Definition two_tests : list finished :=
  let a := CollEntry (chars "first01") (chars "first01 -v") false in
  let b := CollEntry (chars "second") (chars "second") false in
  [Finished (TagPgrp 8 true 86406 (Some b) (chars "out2")) b (chars "half" ++ [NEWLINE]) [chars "half"] 33280 (0, 0)%Z;
   Finished (TagPgrp 7 false 86400 (Some a) (chars "out1")) a (chars "first line" ++ NEWLINE :: chars "no marker <<<test_end>>>")
     [chars "first line"; chars "no marker <<<test_end>>>"] 139 (0, 1)%Z].

Definition quiet_log : config :=
  Config 1 true false false false false true true (Some (chars "/tmp")) false false false (chars "pan") 1 true.

Definition busy_pan : pan (gmap (list ascii) (list ascii)) :=
  Pan (reverse (slot <$> two_tests)) [] 2 0 0 0 0 0 0 false 0 0 0 0 0 0
    (Zoo (file_of [pad 79 (chars "7,first01,first01 -v"); pad 79 (chars "8,second,second")]) 0 true false [] [] []) [] [] [] [] []
    (list_to_map ((λ f, (output (slot f), content f)) <$> two_tests)).

Lemma busy_pan_waiting : waiting two_tests busy_pan.
Proof.
  split; [| by_decide | |by_decide|by_decide].
  - repeat (apply Forall_cons_2; [eexists; vm_compute; reflexivity|]). done.
  - exists [pad 79 (chars "7,first01,first01 -v"); pad 79 (chars "8,second,second")]. split_and!; [by_decide|by_decide|].
    apply Forall_cons_2; [exists (pad 79 (chars "8,second,second")); by_decide|].
    apply Forall_cons_2; [exists (pad 79 (chars "7,first01,first01 -v")); by_decide|done].
Qed.

Lemma scanner_reads_driver_witness :
  ∃ s', children_ended (λ _, []) quiet_log two_tests busy_pan = Done (Go (), s') ∧
    scanned no_options (stdout s') = Done (report_text (summary_of <$> two_tests)).
Proof.
  destruct (scanner_reads_driver (λ _, []) quiet_log two_tests busy_pan) as (s' & Hrun & Hscan);
    [by eexists|reflexivity|reflexivity|by left|reflexivity|discriminate| |exact busy_pan_waiting|by_decide|].
  - repeat (apply Forall_cons_2; [split; by_decide|]). done.
  - exists s'. split; [exact Hrun|]. apply Hscan. vm_compute in Hrun. injection Hrun as <-. by_decide.
Defined.

(** A table with a tag only. *)
Definition tag_only : scan :=
  set_store (Heap {[ 0 := tab [(chars "tag", VStr 1)] ]} {[ 1 := chars "first01" ]} 2) start.

Lemma tag_report_no_status_witness : tag_report no_options None (Some 0) tag_only = Fault.
Proof.
  apply (tag_report_no_status no_options None 0 tag_only 0 2 [(chars "tag", chars "first01")] (chars "first01")); [|reflexivity|reflexivity].
  split; [lia|]. exists [(chars "tag", VStr 1)]. split; [reflexivity|]. constructor; [|constructor].
  split; [reflexivity|]. exists 1. split_and!; [reflexivity|lia|lia|reflexivity].
Defined.
